(* ===== verification/_CoqProject ===== *)
-Q . S2P
Prelude.v
Objects.v
Security.v
BTreeError.v
Mvcc.v
MvccTxn.v
MvccIsolation.v
BTreeNode.v
BTreeTree.v
BTreeShape.v
BTreeInv.v
BTreeInsert.v
BTreeDelete.v
BTreeRebalance.v
BTreeIter.v
BTreeSpec.v
VfsFile.v
VfsPath.v
VfsMemory.v
VfsTree.v
VfsCompose.v
Integrity.v
Wal.v
WalSpec.v
LsmRecord.v
LsmMemtable.v
LsmSSTable.v
LsmSSTableSpec.v
KvtRange.v
KvtMemory.v
LsmBlob.v
LsmMerge.v
LsmMergeSpec.v
LsmEngine.v
LsmEngineInv.v
LsmEngineSpec.v
LsmStore.v
LsmTxn.v
Art.v
ArtNode.v
ArtChildren.v
ArtSpec.v
ArtMap.v
TreeStore.v
TreeStoreSpec.v
BTreeStore.v
BTreeStoreSpec.v
ArtStore.v
ArtStoreSpec.v
KvmCache.v
KvmContext.v
KvtResolver.v
KvmObjects.v
KvmPath.v
KvmPathSpec.v
KvmTable.v
KvmRequest.v
KvmIsolation.v
KvmTableSpec.v
KvmDurable.v
KvmDemo.v
KvmTableDemo.v
KvmStart.v
IdxStore.v
IdxSpec.v
IdxDemo.v
RaftSnapshot.v
RaftStore.v
RaftSnapshotSpec.v
RaftLogSpec.v
RaftStateSpec.v
RaftDemo.v
RaftManager.v
RaftManagerSpec.v
