(* ===== verification/Prelude.v ===== *)
(** * Nanograph: a verification library for an embeddable key-value database

    Nanograph is a Rust workspace that stores ordered key-value tables.  Three
    storage engines implement the same store interface: an in-memory B+Tree
    with multi-version transactions (nanograph-btree), an adaptive radix tree
    (nanograph-art) and a log-structured merge tree (nanograph-lsm), which logs
    every write to a write-ahead log (nanograph-wal), keeps recent writes in a
    sorted memtable, flushes them to immutable sorted tables and merges those
    by compaction.  Logs live in files of a virtual file system
    (nanograph-vfs); checksums and compression come from nanograph-util.  The
    key-value manager (nanograph-kvm) keeps the metadata of clusters, tenants,
    users and databases in a system shard of one of the engines, and checks
    the permissions of nanograph-core before every operation.

    ** Layout

    - Prelude: bytes and machine integers, big and little endian codecs, LEB
      style slices, the lexicographic key order, [binary_search_by], sorted
      association lists, the result type [result E A] with [Ok], [Err],
      [Panic] (a Rust panic: slice out of range, [unwrap] on [None]) and
      [Timeout] (fuel spent), its notation [let! x := m in e], tactics and
      hints.
    - BTreeError: BTreeError and KeyValueError of error.rs.
    - Mvcc: mvcc.rs and mvcc_node.rs ([VersionedValue], [VersionChain],
      [TimestampManager], [MvccLeafNode]).
    - MvccTxn: mvcc_tree.rs and mvcc_transaction.rs ([MvccBPlusTree],
      [MvccTransaction], [MvccTransactionManager]) with the manager invariant
      [mgr_ok] and its preservation.  MvccIsolation: the history a manager
      represents, interleavings as lists of events, and the isolation theorems.
    - BTreeNode, BTreeTree, BTreeIter: node.rs, tree.rs, iterator.rs over an
      explicit node store ([BPlusTree.t], a [gmap] from node ids to nodes);
      operations are state and error monad actions [op A].  BTreeShape and
      BTreeInv: the tree invariant; BTreeInsert, BTreeDelete, BTreeRebalance:
      that splits, borrows and merges keep it; BTreeSpec: the contract.
    - VfsFile: the File trait as a class with its laws, and MemoryFile of
      memoryfs.rs as an instance.
    - Integrity: integrity.rs, compression.rs and the encryption tags; hash
      functions and codecs are third-party crates and appear as the classes
      [Hashes] and [Codecs] with the laws [HashLaws] and [CodecLaws].
    - Wal, WalSpec: lsn.rs, walfile.rs, writer.rs, reader.rs, manager.rs over
      any [File], and the theorems on logs.
    - LsmRecord: wal_record.rs.  LsmMemtable: memtable.rs.  LsmSSTable and
      LsmSSTableSpec: sstable.rs, byte for byte.  LsmMerge and LsmMergeSpec:
      iterator.rs and compaction.rs.
    - VfsPath: [Path] of filesystem.rs.  VfsMemory: the in-memory file system of
      memoryfs.rs; VfsTree: its tree invariant.  VfsCompose: overlayfs.rs,
      mountingfs.rs and manager.rs over a table of file systems behind the
      interface [FileSystem].
    - LsmBlob: bloblog.rs.  LsmEngine: engine.rs and options.rs, the engine
      state [LSMTreeEngine.t] and its operations as state and error actions.
      LsmEngineInv: the invariant that ties the state to the operations in the
      log; LsmEngineSpec: the reachable states and the contract.
    - LsmStore: kvstore.rs and transaction.rs of nanograph-lsm over one engine
      per shard; LsmTxn: what its transactions promise.
    - KvtRange: key ranges of nanograph-core/src/object/shard.rs.  KvtMemory:
      nanograph-kvt/src/memory.rs, the reference store with its transactions.
    - Art: nanograph-art/src/node.rs, tree.rs and iterator.rs.  ArtNode and
      ArtChildren: every node kind as a map from bytes to children, and the
      operations on it; ArtSpec: well-formed trees, lookup, insertion and
      removal as functions of the remaining key; ArtMap: the contract.
    - TreeStore: what kvstore.rs and wal_record.rs of nanograph-btree and
      nanograph-art share, over any tree behind the interface [Tree]: log
      records, shards with a log, writes, recovery; TreeStoreSpec: recovery is
      replay of the logged operations.  BTreeStore and ArtStore: the two stores
      with their scans, shards and transactions; BTreeStoreSpec and
      ArtStoreSpec: what a restart finds.
    - Objects and Security: the object records of nanograph-core/src/object/
      and its security submodule (permissions, scopes, grants, principals).
    - KvmCache: nanograph-kvm/src/cache/system.rs.  KvmContext: the cluster,
      region, server, tenant, user, role, group, database and tablespace
      operations of context.rs over the system shard, which is a map behind
      the shard manager.  KvmRequest: those operations as one request type;
      KvmIsolation and KvmDurable: what sequences of requests do to the shard
      and the cache; KvmDemo: concrete codecs and states.
    - KvtResolver: nanograph-kvt/src/resolver.rs, the directories of everything
      that is stored.
    - KvmObjects: namespaces, tables, indexes, shards and partitioners of
      nanograph-core/src/object/ and the allocator of nanograph-kvm/src/
      allocator.rs.  KvmPath and KvmPathSpec: the tree of object paths of
      cache/resolver.rs and that it is a map from names to objects.
    - KvmTable: the cache of a container, the creation of shards, and the
      namespace, table, index and entry operations of context.rs over any engine
      ([TableEngine]) and consensus router ([Router]).  KvmTableSpec: the entries
      of all tables as one map, against the engine laws [TableEngineLaws];
      KvmTableDemo: a node with the in-memory store, which satisfies them.
    - KvmStart: how a context starts, and the rest of shardmgr.rs.
    - IdxStore: nanograph-idx, the persistent store of index entries with its
      log and cache, B-Tree and hash indexes and the index behind consensus, over
      any engine ([ScanEngine]), cache ([LruCache]) and codec ([Bincode]).
      IdxSpec: an index as a table of rows, against the laws of the three;
      IdxDemo: instances that satisfy them.
    - RaftSnapshot: nanograph-raft/src/storage/snapshot.rs over any file
      ([Stream]).  RaftStore: storage/logstore.rs and statestore.rs, the log of a
      consensus group over the write-ahead log and its state machine over any
      engine, with the types of openraft as parameters ([RaftTypes]).
      RaftSnapshotSpec, RaftLogSpec and RaftStateSpec: files read back, the log
      as a map, crashes and snapshots; RaftDemo: an engine that fails when told
      to, files in memory, and concrete runs.
    - RaftManager: the group/ files and manager.rs of nanograph-raft, with openraft's
      [Raft] behind [RaftNode]; RaftManagerSpec: what is routed acts on one map.
    Module names are the Rust type names, definition names the Rust function
    names; a helper that names part of a function body maps to its lines.

    ** What the theorems show

    MvccIsolation: snapshot isolation of the transaction manager (a commit
    appends one state to the history; repeatable reads; first committer wins,
    and only then; the invariant; what the collector preserves and what it
    loses).  BTreeSpec: the B+Tree refines a finite map, insert and delete are
    total and local, forward scans list a range, reverse scans lose leaves.
    WalSpec: header codec, append and replay, recovery from any truncation,
    reopening.  LsmRecord and LsmMemtable: log records, the memtable as a map.
    LsmSSTableSpec: tables, whole-file lookup and iteration, Bloom filters.
    LsmMergeSpec: merging and compaction.
    LsmEngineSpec: the LSM engine refines the map of last writes through
    flushes, checkpoints and restarts, survives a crash between any two critical
    sections, and where clearing and snapshot reads break that.  LsmBlob: the
    blob log.  LsmTxn and KvtMemory: commits and scans of transactions.
    KvtRange: which keys the range of a prefix holds.
    ArtMap: the adaptive radix tree as a map, the conditions insertion relies
    on, and (ArtDemo) what happens to trees that do not meet them.
    BTreeStoreSpec, ArtStoreSpec: the logged stores give back after a restart
    the tree they had; commits and failed insertions are where they do not.
    VfsPath, VfsTree, VfsCompose: parsed paths are in normal form and print to
    themselves; directories list exactly what is in them, removing one ends and
    removes what is below; overlays are unions, mounts go to the longest match.
    KvtResolver: every storage path is made, below its tablespace, and no two
    things share one.
    KvmIsolation, KvmDurable, Security: requests of principals confined to other
    tenants leave a tenant's records alone; the cached metadata is what the
    system shard stores, over any sequence of requests; what a principal is
    granted, by users, roles and scopes.
    KvmObjects: identifiers are handed out once; every key has a shard.
    KvmPathSpec: the tree of object paths is a map from names to objects, moves
    end, and a move below itself never does.
    KvmTableSpec: the entries of all tables are one map from database, table and
    key; an entry operation touches its own entry, a batch is its writes one
    after the other, a new table is empty.  KvmTableDemo: where identifiers that
    are used twice break that.  KvmStart: a node starts once, with an empty
    system shard, and engines are flushed in any order.
    IdxSpec: queries of an index list the rows of a table in order, and a unique
    index has one row per value.  IdxDemo: what values of different widths, the
    bounds of scans, builds and updates do to that.
    RaftSnapshotSpec, RaftLogSpec, RaftStateSpec: a snapshot is read back as it
    was written, and brings another node up to date; the log of a group is a map
    from indexes to entries; entries are applied as if once through any number
    of failures and restarts.  RaftDemo: cut and corrupt snapshots, reserved
    keys, and why no snapshot is ever received.
    RaftManagerSpec: operations routed to shards by hash act on one map; cluster
    metadata keeps an assignment for every shard.

    ** State, concurrency, bounds and fuel

    Locks and atomics are explicit state: each operation of the model is one
    critical section of the code, and an interleaving is a list of operations.
    Integers are [Z] wrapped at their width where the code can overflow;
    theorems assume room below [2^64] only where a counter would wrap, and say
    so.  Tree descents and upward propagation take [depth_fuel], one more than
    the number of nodes, proved sufficient by the totality theorems of
    BTreeSpec; log replay takes one step per record plus one, table iteration
    one step per entry plus one, and a B+Tree scan some number of steps that
    [forward_scan_range] proves to exist.  Collecting a directory takes
    [collect_fuel], more than the entries and names there are; moving a path
    takes [move_fuel], twice the number of nodes and two more; both are proved
    enough, and where the code loops for ever ([move_below_itself]) no fuel is.
    HashMap iteration order is a parameter that is any permutation of the
    entries.

    ** Not modelled

    Metrics and tracing; the operating-system file system; the transport of
    consensus groups and the authentication and format crates, which hold
    declarations or glue around third-party libraries (openraft, tonic, LMDB);
    snapshots of the B+Tree and the radix tree, which no store writes; full-text,
    spatial and vector indexes, which compute with floating-point scores or are
    unfinished; the key-value manager and its handles, which forward to the
    context. *)

From Stdlib Require Import ZArith Lia.
From stdpp Require Import sorting gmap option numbers base list.

Declare Scope nano_scope.
Delimit Scope nano_scope with nano.
Open Scope nano_scope.
Open Scope Z_scope.

(** ** Bytes and machine integers

    A byte is a [Z] in [0, 256); keys, values and files are lists of bytes.
    Unsigned integers of width [w] are [Z] with the wrap-around written out
    where the source can reach it. *)

Abbreviation bytes := (list Z) (only parsing).

Definition wrap (w : Z) (x : Z) : Z := x mod 2 ^ w.
Definition u16 (x : Z) : Z := wrap 16 x.
Definition u32 (x : Z) : Z := wrap 32 x.
Definition u64 (x : Z) : Z := wrap 64 x.

(** Two's complement reading of a [w]-bit pattern. *)
Definition signed (w : Z) (x : Z) : Z :=
  let y := wrap w x in if y <? 2 ^ (w - 1) then y else y - 2 ^ w.

Lemma wrap_range w x : 0 <= w -> 0 <= wrap w x < 2 ^ w.
Proof. intros Hw. apply Z.mod_pos_bound, Z.pow_pos_nonneg; lia. Qed.

Lemma wrap_small w x : 0 <= x < 2 ^ w -> wrap w x = x.
Proof. apply Z.mod_small. Qed.

Lemma wrap_wrap w x : wrap w (wrap w x) = wrap w x.
Proof. apply Zmod_mod. Qed.

Lemma wrap_add_l w x y : wrap w (wrap w x + y) = wrap w (x + y).
Proof. apply Zplus_mod_idemp_l. Qed.

Lemma wrap_sub_l w x y : wrap w (wrap w x - y) = wrap w (x - y).
Proof. apply Zminus_mod_idemp_l. Qed.

Lemma signed_wrap w x : 0 < w -> - 2 ^ (w - 1) <= x < 2 ^ (w - 1) -> signed w (wrap w x) = x.
Proof.
  intros Hw Hx. unfold signed. rewrite wrap_wrap.
  assert (Hp : 2 ^ w = 2 * 2 ^ (w - 1)).
  { rewrite <- Z.pow_succ_r by lia. f_equal. lia. }
  destruct (Z.leb_spec 0 x) as [H0 | H0].
  - rewrite wrap_small by lia. destruct (Z.ltb_spec x (2 ^ (w - 1))); lia.
  - assert (Hm : wrap w x = x + 2 ^ w).
    { unfold wrap. rewrite <- (Z_mod_plus_full x 1 (2 ^ w)), Z.mul_1_l.
      apply Z.mod_small. lia. }
    rewrite Hm. destruct (Z.ltb_spec (x + 2 ^ w) (2 ^ (w - 1))); lia.
Qed.

(** ** Results

    A Rust function returns [Ok], returns [Err], or panics; [?] propagates both
    kinds of failure.  [Timeout] is a loop of the model that ran out of fuel. *)

Inductive result (E A : Type) : Type :=
| Ok (a : A)
| Err (e : E)
| Panic
| Timeout.
Arguments Ok {E A} a.
Arguments Err {E A} e.
Arguments Panic {E A}.
Arguments Timeout {E A}.

Definition rbind {E A B} (m : result E A) (k : A -> result E B) : result E B :=
  match m with
  | Ok a => k a
  | Err e => Err e
  | Panic => Panic
  | Timeout => Timeout
  end.

Definition ok_or {E A} (o : option A) (e : E) : result E A :=
  match o with Some a => Ok a | None => Err e end.

(** Indexing and slicing panic out of range. *)
Definition or_panic {E A} (o : option A) : result E A :=
  match o with Some a => Ok a | None => Panic end.

Definition is_ok {E A} (m : result E A) : bool :=
  match m with Ok _ => true | _ => false end.

Notation "'let!' x := m 'in' k" := (rbind m (fun x => k))
  (at level 10, x pattern, m at level 100, k at level 200) : nano_scope.

Lemma rbind_ok {E A B} (m : result E A) (k : A -> result E B) b :
  rbind m k = Ok b <-> exists a, m = Ok a /\ k a = Ok b.
Proof. destruct m as [a|e| |]; split; cbn; naive_solver. Qed.

(** ** Slices *)

Definition slice {A} (i j : nat) (l : list A) : option (list A) :=
  if (decide (i <= j <= length l)%nat) then Some (take (j - i)%nat (drop i l)) else None.

Lemma slice_app {A} (l1 l2 l3 : list A) i j :
  i = length l1 -> j = (length l1 + length l2)%nat -> slice i j (l1 ++ l2 ++ l3) = Some l2.
Proof.
  intros -> ->. unfold slice. rewrite decide_True by (rewrite !length_app; lia).
  rewrite drop_app_length.
  replace (length l1 + length l2 - length l1)%nat with (length l2) by lia.
  by rewrite take_app_length.
Qed.

Lemma slice_app_end {A} (l1 l2 : list A) i j :
  i = length l1 -> j = (length l1 + length l2)%nat -> slice i j (l1 ++ l2) = Some l2.
Proof.
  intros Hi Hj. rewrite <- (app_nil_r (l1 ++ l2)), <- app_assoc. by apply slice_app.
Qed.

Lemma slice_app_l {A} (l1 l2 : list A) j : j = length l1 -> slice 0 j (l1 ++ l2) = Some l1.
Proof. intros ->. apply (slice_app [] l1 l2); simpl; lia. Qed.

(** The same with [Z] positions, for offsets computed from stored lengths. *)
Definition zslice {A} (i j : Z) (l : list A) : option (list A) :=
  if (0 <=? i) && (i <=? j) && (j <=? Z.of_nat (length l)) then Some (take (Z.to_nat (j - i)) (drop (Z.to_nat i) l)) else None.

Lemma zslice_app {A} (l1 l2 l3 : list A) i j :
  i = Z.of_nat (length l1) -> j = i + Z.of_nat (length l2) -> zslice i j (l1 ++ l2 ++ l3) = Some l2.
Proof.
  intros -> ->. unfold zslice. rewrite !length_app, !(proj2 (Z.leb_le _ _)) by lia. cbn [andb].
  rewrite Nat2Z.id, drop_app_length. replace (Z.to_nat _) with (length l2) by lia. by rewrite take_app_length.
Qed.

Lemma zslice_app_end {A} (l1 l2 : list A) i j :
  i = Z.of_nat (length l1) -> j = i + Z.of_nat (length l2) -> zslice i j (l1 ++ l2) = Some l2.
Proof. intros Hi Hj. pose proof (zslice_app l1 l2 [] i j Hi Hj) as H. by rewrite app_nil_r in H. Qed.

Lemma zslice_in {A} (l : list A) i j : 0 <= i <= j -> j <= Z.of_nat (length l) ->
  exists x, zslice i j l = Some x /\ Z.of_nat (length x) = j - i.
Proof.
  intros Hij Hj. unfold zslice. rewrite !(proj2 (Z.leb_le _ _)) by lia. eexists. split; [done|].
  rewrite length_take, length_drop. lia.
Qed.

Lemma zslice_Some {A} (l x : list A) i j : zslice i j l = Some x ->
  0 <= i <= j /\ j <= Z.of_nat (length l) /\ Z.of_nat (length x) = j - i /\ x = take (Z.to_nat (j - i)) (drop (Z.to_nat i) l).
Proof.
  unfold zslice. destruct (Z.leb_spec 0 i), (Z.leb_spec i j), (Z.leb_spec j (Z.of_nat (length l))); cbn; try done.
  intros [= <-]. rewrite length_take, length_drop. split_and!; (lia || done).
Qed.

(** ** Fixed-width integer codecs *)

Fixpoint le_bytes (n : nat) (z : Z) : list Z :=
  match n with
  | O => []
  | S n' => z mod 256 :: le_bytes n' (z / 256)
  end.

Fixpoint le_value (l : list Z) : Z :=
  match l with
  | [] => 0
  | b :: l' => b + 256 * le_value l'
  end.

Definition be_bytes (n : nat) (z : Z) : list Z := rev (le_bytes n z).
Definition be_value (l : list Z) : Z := le_value (rev l).

Lemma length_le_bytes n z : length (le_bytes n z) = n.
Proof. revert z. induction n; intros; simpl; auto. Qed.

Lemma length_be_bytes n z : length (be_bytes n z) = n.
Proof. unfold be_bytes. by rewrite length_rev, length_le_bytes. Qed.

Lemma le_value_le_bytes n z : le_value (le_bytes n z) = z mod 256 ^ Z.of_nat n.
Proof.
  revert z. induction n as [|n IH]; intros z.
  - simpl. by rewrite Z.mod_1_r.
  - cbn [le_bytes le_value]. rewrite IH, Nat2Z.inj_succ, Z.pow_succ_r by lia.
    rewrite Z.rem_mul_r by lia. reflexivity.
Qed.

Lemma be_value_be_bytes n z : be_value (be_bytes n z) = z mod 256 ^ Z.of_nat n.
Proof. unfold be_value, be_bytes. by rewrite rev_involutive, le_value_le_bytes. Qed.

Lemma le_bytes_range n z : Forall (fun b => 0 <= b < 256) (le_bytes n z).
Proof. revert z. induction n; intros; simpl; constructor; auto. apply Z.mod_pos_bound. lia. Qed.

Lemma pow256 n : 256 ^ Z.of_nat n = 2 ^ (8 * Z.of_nat n).
Proof. change 256 with (2 ^ 8). by rewrite <- Z.pow_mul_r by lia. Qed.

Lemma le_value_wrap n z : le_value (le_bytes n z) = wrap (8 * Z.of_nat n) z.
Proof. unfold wrap. by rewrite le_value_le_bytes, pow256. Qed.

Lemma be_value_wrap n z : be_value (be_bytes n z) = wrap (8 * Z.of_nat n) z.
Proof. unfold wrap. by rewrite be_value_be_bytes, pow256. Qed.

Lemma le_value_range l :
  Forall (fun b => 0 <= b < 256) l -> 0 <= le_value l < 2 ^ (8 * Z.of_nat (length l)).
Proof.
  intros Hl. rewrite <- pow256. induction Hl as [|b l Hb _ IH]; simpl length; [simpl; lia|].
  rewrite Nat2Z.inj_succ, Z.pow_succ_r by lia. cbn [le_value]. lia.
Qed.

Lemma le_value_inj l1 l2 :
  Forall (fun b => 0 <= b < 256) l1 -> Forall (fun b => 0 <= b < 256) l2 ->
  length l1 = length l2 -> le_value l1 = le_value l2 -> l1 = l2.
Proof.
  intros H1. revert l2. induction H1 as [|b l1 Hb _ IH]; intros [|c l2] H2 Hlen Heq; try done.
  inversion H2; subst. cbn [le_value] in Heq. simpl in Hlen.
  assert (b = c) as -> by lia. f_equal. apply IH; auto; lia.
Qed.

(** A list of bytes. *)
Definition byte_list (l : list Z) : Prop := Forall (fun b => 0 <= b < 256) l.

Lemma le_bytes_value l : byte_list l -> le_bytes (length l) (le_value l) = l.
Proof.
  intros Hl. apply le_value_inj; auto using le_bytes_range, length_le_bytes.
  rewrite le_value_wrap. apply wrap_small. by apply le_value_range.
Qed.

Lemma byte_list_rev l : byte_list l -> byte_list (rev l).
Proof. apply List.Forall_rev. Qed.

Lemma be_bytes_value l : byte_list l -> be_bytes (length l) (be_value l) = l.
Proof.
  intros Hl. unfold be_bytes, be_value. rewrite <- (length_rev l), le_bytes_value by (by apply byte_list_rev).
  apply rev_involutive.
Qed.

Lemma be_value_small n z : 0 <= z < 2 ^ (8 * Z.of_nat n) -> be_value (be_bytes n z) = z.
Proof. intros H. rewrite be_value_wrap. by apply wrap_small. Qed.

Lemma le_value_small n z : 0 <= z < 2 ^ (8 * Z.of_nat n) -> le_value (le_bytes n z) = z.
Proof. intros H. rewrite le_value_wrap. by apply wrap_small. Qed.

Lemma be_bytes_range n z : byte_list (be_bytes n z).
Proof. apply byte_list_rev, le_bytes_range. Qed.

Lemma be_value_range l : byte_list l -> 0 <= be_value l < 2 ^ (8 * Z.of_nat (length l)).
Proof. intros Hl. unfold be_value. rewrite <- (length_rev l). by apply le_value_range, byte_list_rev. Qed.

(** ** Lexicographic order on byte strings, as [slice::cmp] *)

Fixpoint bytes_cmp (a b : list Z) : comparison :=
  match a, b with
  | [], [] => Eq
  | [], _ :: _ => Lt
  | _ :: _, [] => Gt
  | x :: a', y :: b' =>
      match Z.compare x y with
      | Eq => bytes_cmp a' b'
      | c => c
      end
  end.

Definition bytes_lt (a b : list Z) : Prop := bytes_cmp a b = Lt.
Definition bytes_le (a b : list Z) : Prop := bytes_cmp a b <> Gt.

#[global] Instance bytes_lt_dec a b : Decision (bytes_lt a b).
Proof. unfold bytes_lt. apply _. Defined.
#[global] Instance bytes_le_dec a b : Decision (bytes_le a b).
Proof. unfold bytes_le. apply _. Defined.

Lemma bytes_cmp_eq a b : bytes_cmp a b = Eq <-> a = b.
Proof.
  revert b. induction a as [|x a IH]; intros [|y b]; simpl; try (split; congruence).
  destruct (Z.compare_spec x y); split; intros; try congruence.
  - subst. f_equal. by apply IH.
  - apply IH. congruence.
  - exfalso. inversion H0. lia.
  - exfalso. inversion H0. lia.
Qed.

Lemma bytes_cmp_refl a : bytes_cmp a a = Eq.
Proof. by apply bytes_cmp_eq. Qed.

Lemma bytes_cmp_antisym a b : bytes_cmp b a = CompOpp (bytes_cmp a b).
Proof.
  revert b. induction a as [|x a IH]; intros [|y b]; simpl; try done.
  rewrite (Z.compare_antisym x y). destruct (Z.compare x y); simpl; auto.
Qed.

Lemma bytes_cmp_gt a b : bytes_cmp a b = Gt <-> bytes_lt b a.
Proof. unfold bytes_lt. rewrite (bytes_cmp_antisym a b). destruct (bytes_cmp a b); simpl; naive_solver. Qed.

#[global] Instance bytes_lt_strict : StrictOrder bytes_lt.
Proof.
  split.
  - intros a H. unfold bytes_lt in H. by rewrite bytes_cmp_refl in H.
  - intros a. unfold bytes_lt. induction a as [|x a IH]; intros [|y b] [|z c]; simpl; try done.
    destruct (Z.compare_spec x y), (Z.compare_spec y z), (Z.compare_spec x z);
      try lia; try done; eauto.
Qed.

Lemma bytes_lt_irrefl a : ~ bytes_lt a a.
Proof. apply irreflexivity. apply _. Qed.

Lemma bytes_lt_trans a b c : bytes_lt a b -> bytes_lt b c -> bytes_lt a c.
Proof. apply transitivity. Qed.

Lemma bytes_lt_neq a b : bytes_lt a b -> a <> b.
Proof. intros H ->. by eapply bytes_lt_irrefl. Qed.

Lemma bytes_trichotomy a b : bytes_lt a b \/ a = b \/ bytes_lt b a.
Proof.
  destruct (bytes_cmp a b) eqn:E.
  - right; left. by apply bytes_cmp_eq.
  - by left.
  - right; right. by apply bytes_cmp_gt.
Qed.

Lemma bytes_le_not_lt a b : bytes_le a b <-> ~ bytes_lt b a.
Proof. unfold bytes_le. rewrite bytes_cmp_gt. done. Qed.

Lemma bytes_le_lt_eq a b : bytes_le a b <-> bytes_lt a b \/ a = b.
Proof.
  rewrite bytes_le_not_lt. destruct (bytes_trichotomy a b) as [H|[->|H]]; split; try tauto.
  - intros _. intros H2. apply (bytes_lt_irrefl a). eapply bytes_lt_trans; eauto.
  - intros _. apply bytes_lt_irrefl.
  - intros [H'| ->]; [|by apply bytes_lt_irrefl]. exfalso. apply (bytes_lt_irrefl a). eapply bytes_lt_trans; eauto.
Qed.

Lemma bytes_le_lt_trans a b c : bytes_le a b -> bytes_lt b c -> bytes_lt a c.
Proof. intros [H| ->]%bytes_le_lt_eq H'; eauto using bytes_lt_trans. Qed.

Lemma bytes_lt_le_trans a b c : bytes_lt a b -> bytes_le b c -> bytes_lt a c.
Proof. intros H' [H| <-]%bytes_le_lt_eq; eauto using bytes_lt_trans. Qed.

Lemma bytes_lt_le a b : bytes_lt a b -> bytes_le a b.
Proof. intros H. apply bytes_le_lt_eq. by left. Qed.

(** ** [slice::binary_search_by]

    The loop of the standard library: it halves [size] without an early exit
    and keeps the last probe that did not compare [Gt]. *)

Inductive SearchResult : Type :=
| Found (i : nat)
| NotFound (i : nat).

Fixpoint bsearch_loop {A} (f : A -> comparison) (l : list A) (fuel base size : nat) : nat :=
  match fuel with
  | O => base
  | S fuel' =>
      if (size <=? 1)%nat then base
      else
        let half := (size / 2)%nat in
        let mid := (base + half)%nat in
        let base' := match l !! mid with
                     | Some x => match f x with Gt => base | _ => mid end
                     | None => base
                     end in
        bsearch_loop f l fuel' base' (size - half)
  end.

Definition binary_search_by {A} (f : A -> comparison) (l : list A) : SearchResult :=
  if (length l =? 0)%nat then NotFound 0
  else
    let base := bsearch_loop f l (length l) 0 (length l) in
    match l !! base with
    | Some x =>
        match f x with
        | Eq => Found base
        | Lt => NotFound (base + 1)
        | Gt => NotFound base
        end
    | None => NotFound base
    end.

(** [f] orders [l] strictly: [Lt] entries, then at most one [Eq], then [Gt]. *)
Definition probes_sorted {A} (f : A -> comparison) (l : list A) : Prop :=
  forall i j x y, (i < j)%nat -> l !! i = Some x -> l !! j = Some y -> f x <> Lt -> f y = Gt.

(** What a search result says about the list it searched. *)
Inductive search_view {A} (f : A -> comparison) (l : list A) : SearchResult -> Prop :=
| view_found l1 x l2 :
    l = l1 ++ x :: l2 -> Forall (fun y => f y = Lt) l1 -> f x = Eq ->
    Forall (fun y => f y = Gt) l2 -> search_view f l (Found (length l1))
| view_missing l1 l2 :
    l = l1 ++ l2 -> Forall (fun y => f y = Lt) l1 ->
    Forall (fun y => f y = Gt) l2 -> search_view f l (NotFound (length l1)).

Section binary_search.
Context {A : Type} (f : A -> comparison) (l : list A) (Hs : probes_sorted f l).

Definition bsearch_inv (base size : nat) : Prop :=
  (1 <= size /\ base + size <= length l)%nat /\
  (forall i x, (i < base)%nat -> l !! i = Some x -> f x = Lt) /\
  (forall i x, (base + size <= i)%nat -> l !! i = Some x -> f x = Gt).

Lemma bsearch_loop_inv fuel base size :
  (size <= fuel)%nat -> bsearch_inv base size -> bsearch_inv (bsearch_loop f l fuel base size) 1.
Proof using Hs.
  revert base size. induction fuel as [|fuel IH]; intros base size Hf ((H1 & H2) & Hlt & Hgt).
  { lia. }
  cbn [bsearch_loop]. destruct (Nat.leb_spec size 1).
  { assert (size = 1%nat) as -> by lia. by split. }
  pose proof (Nat.div_mod_eq size 2) as Hdiv.
  pose proof (Nat.mod_upper_bound size 2 ltac:(lia)) as Hmod.
  set (half := (size / 2)%nat) in *.
  destruct (lookup_lt_is_Some_2 l (base + half)) as [x Hx]; [lia|]. rewrite Hx.
  destruct (f x) eqn:Ex; apply IH; try lia; repeat split; try lia; intros i y Hi Hy.
  - destruct (f y) eqn:Ey; [|done|];
      pose proof (Hs i (base + half)%nat y x ltac:(lia) Hy Hx ltac:(congruence)); congruence.
  - apply (Hgt i); [lia|done].
  - destruct (f y) eqn:Ey; [|done|];
      pose proof (Hs i (base + half)%nat y x ltac:(lia) Hy Hx ltac:(congruence)); congruence.
  - apply (Hgt i); [lia|done].
  - by apply (Hlt i).
  - destruct (decide (i = base + half)%nat) as [->|]; [congruence|].
    apply (Hs (base + half)%nat i x y); try done; [lia|congruence].
Qed.

Lemma bsearch_split k :
  (k <= length l)%nat ->
  (forall i x, (i < k)%nat -> l !! i = Some x -> f x = Lt) ->
  l = take k l ++ drop k l /\ Forall (fun y => f y = Lt) (take k l) /\ length (take k l) = k.
Proof using.
  intros Hk H. split_and!.
  - symmetry. apply take_drop.
  - apply Forall_lookup_2. intros i x Hi. rewrite lookup_take_Some in Hi. naive_solver.
  - rewrite length_take. lia.
Qed.

Lemma binary_search_by_view : search_view f l (binary_search_by f l).
Proof using Hs.
  unfold binary_search_by. destruct (Nat.eqb_spec (length l) 0) as [H0|H0].
  { apply (view_missing _ _ [] []); [by apply nil_length_inv|done..]. }
  destruct (bsearch_loop_inv (length l) 0 (length l)) as ((_ & Hb) & Hlt & Hgt); [done| |].
  { split_and!; try lia. intros i x Hi Hx. apply lookup_lt_Some in Hx. lia. }
  set (b := bsearch_loop f l (length l) 0 (length l)) in *.
  destruct (lookup_lt_is_Some_2 l b) as [x Hx]; [lia|]. rewrite Hx.
  assert (Hdrop : drop b l = x :: drop (S b) l) by (by apply drop_S).
  assert (HG : Forall (fun y => f y = Gt) (drop (S b) l)).
  { apply Forall_lookup_2. intros i y Hi. rewrite lookup_drop in Hi.
    apply (Hgt (S b + i)%nat); [lia|done]. }
  destruct (bsearch_split b) as (Hl & HF & Hlen); [lia|done|].
  destruct (f x) eqn:Ex.
  - replace (Found b) with (Found (length (take b l))) by congruence.
    apply (view_found _ _ _ x (drop (S b) l)); auto. by rewrite <- Hdrop.
  - replace (b + 1)%nat with (length (take b l ++ [x])) by (rewrite length_app; simpl; lia).
    apply (view_missing _ _ _ (drop (S b) l)); auto.
    + rewrite <- app_assoc. simpl. by rewrite <- Hdrop.
    + apply Forall_app. auto.
  - replace (NotFound b) with (NotFound (length (take b l))) by congruence.
    apply (view_missing _ _ _ (drop b l)); auto.
    rewrite Hdrop. by constructor.
Qed.
End binary_search.

(** ** Sorted lists of keyed items

    [sorted_by pi l]: the keys [pi x] are strictly increasing along [l].  Leaf
    entries use [pi := fst], routing keys [pi := id], table entries their key
    field. *)

Section keyed.
Context {A : Type} (pi : A -> list Z).
Implicit Types (l : list A) (k : list Z).

Definition sorted_by l : Prop := StronglySorted bytes_lt (pi <$> l).

(** The comparison closure [|x| pi(x).cmp(key)]. *)
Definition key_probe k (x : A) : comparison := bytes_cmp (pi x) k.

Definition all_lt k l : Prop := Forall (fun x => bytes_lt (pi x) k) l.
Definition all_gt k l : Prop := Forall (fun x => bytes_lt k (pi x)) l.

Lemma sorted_by_app l1 l2 :
  sorted_by (l1 ++ l2) <->
  sorted_by l1 /\ sorted_by l2 /\ (forall x y, x ∈ l1 -> y ∈ l2 -> bytes_lt (pi x) (pi y)).
Proof.
  unfold sorted_by. rewrite fmap_app, StronglySorted_app. split.
  - intros (H & H1 & H2). split_and!; try done. intros x y Hx Hy.
    apply H; by apply list_elem_of_fmap_2.
  - intros (H1 & H2 & H). split_and!; try done.
    intros x y (a & -> & Ha)%list_elem_of_fmap (b & -> & Hb)%list_elem_of_fmap. by apply H.
Qed.

Lemma sorted_by_nil : sorted_by [].
Proof. constructor. Qed.

Lemma sorted_by_cons x l : sorted_by (x :: l) <-> sorted_by l /\ all_gt (pi x) l.
Proof.
  unfold sorted_by, all_gt. rewrite fmap_cons. split.
  - inversion 1; subst. by rewrite Forall_fmap in *.
  - intros [H1 H2]. constructor; [done|]. by rewrite Forall_fmap.
Qed.

Lemma all_lt_elem k l x : all_lt k l -> x ∈ l -> bytes_lt (pi x) k.
Proof. unfold all_lt. rewrite Forall_forall. intros H Hx. by apply H. Qed.

Lemma all_gt_elem k l x : all_gt k l -> x ∈ l -> bytes_lt k (pi x).
Proof. unfold all_gt. rewrite Forall_forall. intros H Hx. by apply H. Qed.

Lemma sorted_by_middle l1 x l2 :
  sorted_by (l1 ++ x :: l2) <->
  sorted_by (l1 ++ l2) /\ all_lt (pi x) l1 /\ all_gt (pi x) l2.
Proof.
  rewrite !sorted_by_app, sorted_by_cons. unfold all_lt, all_gt. rewrite !Forall_forall.
  split.
  - intros (H1 & (H2 & H3) & H). split_and!; try done.
    + intros a b Ha Hb. apply H; [done|]. by apply list_elem_of_further.
    + intros a Ha. apply H; [done|]. apply list_elem_of_here.
  - intros ((H1 & H2 & H) & H3 & H4). split_and!; try done.
    intros a b Ha Hb. apply elem_of_cons in Hb as [->|Hb]; auto.
Qed.

Lemma sorted_by_NoDup l : sorted_by l -> NoDup (pi <$> l).
Proof.
  unfold sorted_by. generalize (pi <$> l). clear l. induction 1 as [|k l Hl IH HF]; constructor; [|done].
  intros Hin. rewrite Forall_forall in HF. by apply (bytes_lt_irrefl k), HF.
Qed.

Lemma sorted_by_filter (P : A -> Prop) `{!forall x, Decision (P x)} l : sorted_by l -> sorted_by (filter P l).
Proof.
  induction l as [|x l IH]; [done|]. intros [Hs Hgt]%sorted_by_cons. rewrite filter_cons.
  case_decide; [|auto]. apply sorted_by_cons. split; [auto|]. apply Forall_forall. intros y [_ Hy]%list_elem_of_filter.
  by apply (all_gt_elem _ l).
Qed.

Lemma sorted_by_probes k l : sorted_by l -> probes_sorted (key_probe k) l.
Proof.
  intros Hs i j x y Hij Hx Hy Hnl. unfold key_probe in *.
  rewrite <- (take_drop j l), sorted_by_app in Hs. destruct Hs as (_ & _ & Hs).
  assert (Hxy : bytes_lt (pi x) (pi y)).
  { apply Hs.
    - apply list_elem_of_lookup. exists i. rewrite lookup_take_Some. done.
    - apply list_elem_of_lookup. exists 0%nat. rewrite lookup_drop. by rewrite Nat.add_0_r. }
  apply bytes_cmp_gt. destruct (bytes_cmp (pi x) k) eqn:E; [|done|].
  - apply bytes_cmp_eq in E. by subst k.
  - apply bytes_cmp_gt in E. eauto using bytes_lt_trans.
Qed.

(** What searching a sorted list for [k] says about the list. *)
Inductive key_view k l : SearchResult -> Prop :=
| key_found l1 x l2 :
    l = l1 ++ x :: l2 -> pi x = k -> all_lt k l1 -> all_gt k l2 ->
    key_view k l (Found (length l1))
| key_missing l1 l2 :
    l = l1 ++ l2 -> all_lt k l1 -> all_gt k l2 -> key_view k l (NotFound (length l1)).

Lemma search_key_view k l : sorted_by l -> key_view k l (binary_search_by (key_probe k) l).
Proof.
  intros Hs%(sorted_by_probes k).
  destruct (binary_search_by_view _ _ Hs) as [l1 x l2 -> H1 Hx H2 | l1 l2 -> H1 H2].
  - apply (key_found _ _ _ x l2); try done; [by apply bytes_cmp_eq|].
    eapply Forall_impl; [exact H2|]. intros y Hy. by apply bytes_cmp_gt.
  - apply (key_missing _ _ _ l2); try done.
    eapply Forall_impl; [exact H2|]. intros y Hy. by apply bytes_cmp_gt.
Qed.
End keyed.

Lemma all_lt_trans {A} (pi : A -> list Z) k k' l : all_lt pi k l -> bytes_le k k' -> all_lt pi k' l.
Proof. intros H Hk. eapply Forall_impl; [exact H|]. intros x Hx. by apply (bytes_lt_le_trans _ k). Qed.

Lemma all_gt_trans {A} (pi : A -> list Z) k k' l : all_gt pi k l -> bytes_le k' k -> all_gt pi k' l.
Proof. intros H Hk. eapply Forall_impl; [exact H|]. intros x Hx. by apply (bytes_le_lt_trans _ k). Qed.

(** ** Association lists as finite maps *)

Section assoc.
Context {V : Type}.
Implicit Types (l : list (list Z * V)) (k : list Z) (v : V).

Definition to_map l : gmap (list Z) V := list_to_map l.

Lemma to_map_app_lookup l1 l2 k :
  to_map (l1 ++ l2) !! k = match to_map l1 !! k with Some v => Some v | None => to_map l2 !! k end.
Proof.
  unfold to_map. rewrite list_to_map_app, lookup_union.
  by do 2 destruct (_ !! k).
Qed.

Lemma to_map_lt_None l k k' : all_lt fst k l -> bytes_le k k' -> to_map l !! k' = None.
Proof.
  intros H Hk. apply not_elem_of_list_to_map_1. intros ([k1 v1] & -> & Hin)%list_elem_of_fmap.
  pose proof (all_lt_elem _ _ _ _ H Hin) as Hlt. simpl in *.
  by apply bytes_le_not_lt in Hk.
Qed.

Lemma to_map_gt_None l k k' : all_gt fst k l -> bytes_le k' k -> to_map l !! k' = None.
Proof.
  intros H Hk. apply not_elem_of_list_to_map_1. intros ([k1 v1] & -> & Hin)%list_elem_of_fmap.
  pose proof (all_gt_elem _ _ _ _ H Hin) as Hlt. simpl in *.
  by apply bytes_le_not_lt in Hk.
Qed.

Lemma bytes_le_refl k : bytes_le k k.
Proof. apply bytes_le_lt_eq. by right. Qed.

Lemma to_map_middle_lookup l1 k v l2 : all_lt fst k l1 -> to_map (l1 ++ (k, v) :: l2) !! k = Some v.
Proof.
  intros H. rewrite to_map_app_lookup, (to_map_lt_None _ k k) by (done || apply bytes_le_refl).
  unfold to_map. simpl. by rewrite lookup_insert_eq.
Qed.

Lemma to_map_split_None l1 l2 k : all_lt fst k l1 -> all_gt fst k l2 -> to_map (l1 ++ l2) !! k = None.
Proof.
  intros H1 H2. rewrite to_map_app_lookup.
  rewrite (to_map_lt_None _ k k), (to_map_gt_None _ k k); auto using bytes_le_refl.
Qed.

Lemma to_map_insert l1 k v l2 : all_lt fst k l1 ->
  to_map (l1 ++ (k, v) :: l2) = <[k := v]> (to_map (l1 ++ l2)).
Proof.
  intros H. apply map_eq. intros k'. destruct (decide (k = k')) as [<-|Hne].
  - by rewrite to_map_middle_lookup, lookup_insert_eq.
  - rewrite lookup_insert_ne, !to_map_app_lookup by done. unfold to_map at 2. simpl.
    by rewrite lookup_insert_ne.
Qed.

Lemma to_map_replace l1 k v v' l2 : all_lt fst k l1 ->
  to_map (l1 ++ (k, v') :: l2) = <[k := v']> (to_map (l1 ++ (k, v) :: l2)).
Proof. intros H. rewrite !to_map_insert by done. by rewrite insert_insert_eq. Qed.

Lemma to_map_delete l1 k v l2 : all_lt fst k l1 -> all_gt fst k l2 ->
  to_map (l1 ++ l2) = delete k (to_map (l1 ++ (k, v) :: l2)).
Proof.
  intros H1 H2. rewrite to_map_insert by done. rewrite delete_insert_id; [done|].
  by apply to_map_split_None.
Qed.

Lemma to_map_elem l k v : sorted_by fst l -> to_map l !! k = Some v <-> (k, v) ∈ l.
Proof. intros Hs. unfold to_map. symmetry. apply elem_of_list_to_map. by apply sorted_by_NoDup. Qed.

Lemma to_map_sorted_inj l1 l2 :
  sorted_by fst l1 -> sorted_by fst l2 -> to_map l1 = to_map l2 -> l1 = l2.
Proof.
  intros H1 H2 Heq.
  apply list_to_map_inj in Heq; [|by apply sorted_by_NoDup..].
  assert (Hk : l1.*1 = l2.*1).
  { eapply (StronglySorted_unique_strong bytes_lt); [|exact H1|exact H2|by rewrite Heq].
    intros x y _ _ Hxy Hyx. exfalso. apply (bytes_lt_irrefl x). eauto using bytes_lt_trans. }
  revert l2 H1 H2 Heq Hk. induction l1 as [|[k v] l1 IH]; intros [|[k2 v2] l2] H1 H2 Heq Hk; try done.
  simpl in Hk. injection Hk as <- Hk.
  assert (v = v2) as <-.
  { assert (Hin : (k, v) ∈ (k, v2) :: l2) by (rewrite <- Heq; apply list_elem_of_here).
    apply elem_of_cons in Hin as [|Hin]; [congruence|].
    apply sorted_by_cons in H2 as [_ H2]. exfalso.
    apply (bytes_lt_irrefl k). apply (all_gt_elem _ _ _ _ H2 Hin). }
  f_equal. apply sorted_by_cons in H1 as [H1 _]. apply sorted_by_cons in H2 as [H2 _].
  apply IH; try done. by apply Permutation_cons_inv in Heq.
Qed.
End assoc.

(** ** Vectors updated by position *)

Definition vec_insert {A} (i : nat) (x : A) (l : list A) : list A := take i l ++ x :: drop i l.
Definition vec_remove {A} (i : nat) (l : list A) : list A := take i l ++ drop (S i) l.

Lemma vec_insert_app {A} (l1 l2 : list A) x : vec_insert (length l1) x (l1 ++ l2) = l1 ++ x :: l2.
Proof. unfold vec_insert. by rewrite take_app_length, drop_app_length. Qed.

Lemma vec_remove_app {A} (l1 l2 : list A) x : vec_remove (length l1) (l1 ++ x :: l2) = l1 ++ l2.
Proof.
  unfold vec_remove. rewrite take_app_length, drop_app_ge by lia.
  by replace (S (length l1) - length l1)%nat with 1%nat by lia.
Qed.

Lemma insert_app_here {A} (l1 l2 : list A) x y : <[length l1 := y]> (l1 ++ x :: l2) = l1 ++ y :: l2.
Proof. rewrite insert_app_r_alt by lia. by rewrite Nat.sub_diag. Qed.

Lemma lookup_app_here {A} (l1 l2 : list A) x : (l1 ++ x :: l2) !! length l1 = Some x.
Proof. by rewrite lookup_app_r, Nat.sub_diag by lia. Qed.

Lemma filter_none {A} (P : A -> Prop) `{!forall x, Decision (P x)} (l : list A) :
  Forall (fun x => ~ P x) l -> filter P l = [].
Proof. induction 1; [done|]. by rewrite filter_cons_False. Qed.

Lemma filter_all {A} (P : A -> Prop) `{!forall x, Decision (P x)} (l : list A) : Forall P l -> filter P l = l.
Proof. induction 1; [done|]. rewrite filter_cons_True by done. by f_equal. Qed.

(** ** Automation *)

Create HintDb nano.
#[export] Hint Resolve bytes_lt_irrefl bytes_lt_trans bytes_le_refl bytes_lt_le : nano.
#[export] Hint Resolve sorted_by_nil length_le_bytes length_be_bytes : nano.
#[export] Hint Rewrite @length_app @length_take @length_drop @length_insert length_le_bytes
  length_be_bytes @length_cons : nano.
#[export] Hint Rewrite @vec_insert_app @vec_remove_app @insert_app_here @lookup_app_here : nano.

(** Lookups in maps built by insertions and deletions. *)
Ltac lookups :=
  repeat first [rewrite lookup_insert_eq | rewrite lookup_delete_eq
               | rewrite lookup_insert_ne by congruence | rewrite lookup_delete_ne by congruence].

(** Arithmetic on lengths of appended, taken and encoded lists. *)
Ltac len := autorewrite with nano in *; simpl length in *; try lia.

(** What visiting a map in any order yields. *)
Lemma map_visits {K A} `{Countable K} (p : gmap K A) l : l ≡ₚ map_to_list p -> NoDup l.*1 /\ list_to_map l = p.
Proof.
  intros Hl. assert (Hn : NoDup l.*1) by (rewrite Hl; apply NoDup_fst_map_to_list). split; [done|].
  rewrite <- (list_to_map_to_list p). by apply list_to_map_proper.
Qed.
