(* ===== verification/Objects.v ===== *)
(** * Identifiers and records

    Models nanograph-core/src/object.rs and its submodules (cluster, region,
    server, node, tenant, database, container, tablespace, shard) and the key
    layout of nanograph-kvm/src/utility.rs.

    Identifiers are [Z]; composite ones are packed with the shifts of the
    source.  The [HashMap<String, String>] of options and metadata is a
    [gmap string string]; a [Timestamp] is its milliseconds. *)

From Stdlib Require Import ZArith Lia.
From stdpp Require Import option strings base gmap list.
From S2P Require Import Prelude.

Open Scope Z_scope.

Abbreviation properties := (gmap string string).

Inductive PropertyUpdate : Type :=
| SetProperty (key value : string)
| ClearProperty (key : string).

Definition property_key (u : PropertyUpdate) : string := match u with SetProperty k _ | ClearProperty k => k end.

(** The loop [for update in &config.options] of every update operation. *)
Definition apply_updates (us : list PropertyUpdate) (m : properties) : properties :=
  foldl (fun m u => match u with SetProperty k v => <[k := v]> m | ClearProperty k => delete k m end) m us.

(** ** Composite identifiers *)

Module NodeId.
Definition from_parts (cluster region server : Z) : Z := Z.lor (Z.lor (Z.shiftl cluster 96) (Z.shiftl region 64)) server.
Definition server_id (n : Z) : Z := u64 n.
Definition cluster_id (n : Z) : Z := u32 (Z.shiftr n 96).
Definition region_id (n : Z) : Z := u32 (Z.shiftr n 64).
End NodeId.

Module ContainerId.
Definition system : Z := 0.
Definition from_parts (tenant database : Z) : Z := Z.lor (Z.shiftl tenant 32) database.
Definition tenant (c : Z) : Z := u32 (Z.shiftr c 32).
Definition database (c : Z) : Z := u32 c.
End ContainerId.

Module ShardId.
Definition from_parts (tenant database object shard_number : Z) : Z :=
  Z.lor (Z.lor (Z.lor (Z.shiftl tenant 96) (Z.shiftl database 64)) (Z.shiftl object 32)) (Z.shiftl shard_number 0).
Definition tenant (s : Z) : Z := u32 (Z.shiftr s 96).
Definition database (s : Z) : Z := u32 (Z.shiftr s 64).
Definition object (s : Z) : Z := u32 (Z.shiftr s 32).
Definition shard_number (s : Z) : Z := u32 s.
End ShardId.

(** A field above one of [w] bits. *)
Lemma pack_high w x y : 0 <= w -> 0 <= y < 2 ^ w -> Z.lor (Z.shiftl x w) y = x * 2 ^ w + y.
Proof.
  intros Hw Hy. assert (Hland : Z.land (Z.shiftl x w) y = 0).
  { apply Z.bits_inj'. intros n Hn. rewrite Z.land_spec, Z.bits_0. destruct (Z.lt_ge_cases n w) as [Hlt|Hge]; [by rewrite Z.shiftl_spec_low|].
    rewrite <- (Z.mod_small y (2 ^ w)), Z.mod_pow2_bits_high, andb_false_r by lia. done. }
  rewrite <- Z.lxor_lor, <- Z.add_nocarry_lxor, Z.shiftl_mul_pow2 by done. done.
Qed.

Lemma unpack_high w x y : 0 <= w -> 0 <= y < 2 ^ w -> Z.shiftr (x * 2 ^ w + y) w = x.
Proof. intros Hw Hy. rewrite Z.shiftr_div_pow2 by done. rewrite Z.div_add_l by lia. rewrite Z.div_small; lia. Qed.

Lemma unpack_low w x y : 0 <= w -> 0 <= y < 2 ^ w -> wrap w (x * 2 ^ w + y) = y.
Proof. intros Hw Hy. unfold wrap. rewrite Z.add_comm, Z_mod_plus_full. by apply Z.mod_small. Qed.

Definition is_u32 (x : Z) : Prop := 0 <= x < 2 ^ 32.

Lemma container_parts tenant database : is_u32 tenant -> is_u32 database ->
  ContainerId.tenant (ContainerId.from_parts tenant database) = tenant /\ ContainerId.database (ContainerId.from_parts tenant database) = database.
Proof.
  intros Ht Hd. unfold ContainerId.tenant, ContainerId.database, ContainerId.from_parts, u32, is_u32 in *. rewrite pack_high, unpack_high, unpack_low by lia.
  split; [by apply wrap_small|done].
Qed.

Lemma container_inj t d t' d' : is_u32 t -> is_u32 d -> is_u32 t' -> is_u32 d' ->
  ContainerId.from_parts t d = ContainerId.from_parts t' d' -> t = t' /\ d = d'.
Proof.
  intros Ht Hd Ht' Hd' E. destruct (container_parts t d Ht Hd) as [E1 E2]. destruct (container_parts t' d' Ht' Hd') as [E3 E4].
  rewrite E in E1, E2. split; congruence.
Qed.

Lemma node_parts cluster region server : is_u32 cluster -> is_u32 region -> 0 <= server < 2 ^ 64 ->
  NodeId.cluster_id (NodeId.from_parts cluster region server) = cluster /\ NodeId.region_id (NodeId.from_parts cluster region server) = region /\
  NodeId.server_id (NodeId.from_parts cluster region server) = server.
Proof.
  intros Hc Hr Hs. unfold NodeId.cluster_id, NodeId.region_id, NodeId.server_id, NodeId.from_parts, u32, u64, is_u32 in *.
  assert (E : Z.lor (Z.lor (Z.shiftl cluster 96) (Z.shiftl region 64)) server = (cluster * 2 ^ 32 + region) * 2 ^ 64 + server).
  { rewrite <- pack_high by lia. f_equal. change 96 with (32 + 64). rewrite <- Z.shiftl_shiftl by lia. rewrite <- Z.shiftl_lor. f_equal. by apply pack_high. }
  rewrite E. split_and!.
  - change 96 with (64 + 32). rewrite <- Z.shiftr_shiftr by lia. rewrite !unpack_high by lia. by apply wrap_small.
  - rewrite unpack_high by lia. apply unpack_low; lia.
  - apply unpack_low; lia.
Qed.

(** ** Records *)

Record ClusterCreate : Type := { cc_name : string; cc_options : properties; cc_metadata : properties }.
Record ClusterUpdate : Type := { cu_name : option string; cu_options : list PropertyUpdate; cu_metadata : list PropertyUpdate }.
Record ClusterRecord : Type := ClusterRecordMk {
  cr_id : Z; cr_version : Z; cr_created_at : Z; cr_updated_at : Z; cr_name : string; cr_options : properties; cr_metadata : properties }.
Record ClusterMetadata : Type := ClusterMetadataMk {
  cm_id : Z; cm_name : string; cm_created_at : Z; cm_last_modified : Z; cm_options : properties; cm_metadata : properties }.
Definition cluster_metadata_from (r : ClusterRecord) : ClusterMetadata :=
  ClusterMetadataMk (cr_id r) (cr_name r) (cr_created_at r) (cr_updated_at r) (cr_options r) (cr_metadata r).

Record RegionCreate : Type := { rc_name : string; rc_cluster : Z; rc_options : properties; rc_metadata : properties }.
Record RegionUpdate : Type := { ru_name : option string; ru_options : list PropertyUpdate; ru_metadata : list PropertyUpdate }.
Record RegionRecord : Type := RegionRecordMk {
  rr_cluster : Z; rr_id : Z; rr_version : Z; rr_created_at : Z; rr_updated_at : Z; rr_name : string; rr_options : properties; rr_metadata : properties }.
Record RegionMetadata : Type := RegionMetadataMk {
  rm_id : Z; rm_name : string; rm_cluster : Z; rm_created_at : Z; rm_last_modified : Z; rm_options : properties; rm_metadata : properties }.
Definition region_metadata_from (r : RegionRecord) : RegionMetadata :=
  RegionMetadataMk (rr_id r) (rr_name r) (rr_cluster r) (rr_created_at r) (rr_updated_at r) (rr_options r) (rr_metadata r).

(** The socket address of a server is kept as text. *)
Record ServerCreate : Type := {
  sc_name : string; sc_addr : string; sc_pubkey : string; sc_region : Z; sc_cluster : Z; sc_options : properties; sc_metadata : properties }.
Record ServerUpdate : Type := {
  su_name : option string; su_addr : option string; su_pubkey : option string; su_options : list PropertyUpdate; su_metadata : list PropertyUpdate }.
Record ServerRecord : Type := ServerRecordMk {
  sr_id : Z; sr_version : Z; sr_created_at : Z; sr_updated_at : Z; sr_name : string; sr_pubkey : list Z; sr_options : properties; sr_metadata : properties }.
Record ServerMetadata : Type := ServerMetadataMk {
  sm_id : Z; sm_name : string; sm_created_at : Z; sm_last_modified : Z; sm_options : properties; sm_metadata : properties }.
Definition server_metadata_from (r : ServerRecord) : ServerMetadata :=
  ServerMetadataMk (sr_id r) (sr_name r) (sr_created_at r) (sr_updated_at r) (sr_options r) (sr_metadata r).

Record TenantCreate : Type := { tc_name : string; tc_options : properties; tc_metadata : properties }.
Record TenantUpdate : Type := { tu_name : option string; tu_options : list PropertyUpdate; tu_metadata : list PropertyUpdate }.
Record TenantRecord : Type := TenantRecordMk {
  tr_id : Z; tr_version : Z; tr_created_at : Z; tr_updated_at : Z; tr_name : string; tr_default_tablespace : option Z;
  tr_options : properties; tr_metadata : properties }.
Record TenantMetadata : Type := TenantMetadataMk {
  tm_id : Z; tm_name : string; tm_created_at : Z; tm_last_modified : Z; tm_default_tablespace : option Z; tm_options : properties; tm_metadata : properties }.
Definition tenant_metadata_from (r : TenantRecord) : TenantMetadata :=
  TenantMetadataMk (tr_id r) (tr_name r) (tr_created_at r) (tr_updated_at r) (tr_default_tablespace r) (tr_options r) (tr_metadata r).

Record DatabaseCreate : Type := { dc_name : string; dc_options : properties; dc_metadata : properties }.
Record DatabaseUpdate : Type := { du_name : option string; du_options : list PropertyUpdate; du_metadata : list PropertyUpdate }.
Record DatabaseRecord : Type := DatabaseRecordMk {
  dr_tenant : Z; dr_id : Z; dr_version : Z; dr_created_at : Z; dr_updated_at : Z; dr_name : string; dr_root_namespace : Z;
  dr_default_tablespace : option Z; dr_options : properties; dr_metadata : properties }.
Record DatabaseMetadata : Type := DatabaseMetadataMk {
  dm_id : Z; dm_tenant : Z; dm_name : string; dm_created_at : Z; dm_last_modified : Z; dm_root_namespace : Z;
  dm_default_tablespace : option Z; dm_options : properties; dm_metadata : properties }.
Definition database_metadata_from (r : DatabaseRecord) : DatabaseMetadata :=
  DatabaseMetadataMk (dr_id r) (dr_tenant r) (dr_name r) (dr_created_at r) (dr_updated_at r) (dr_root_namespace r) (dr_default_tablespace r)
    (dr_options r) (dr_metadata r).

Inductive StorageTier : Type := Hot | Warm | Cold | Archive.
Record TablespaceCreate : Type := { lc_name : string; lc_tier : StorageTier; lc_options : properties; lc_metadata : properties }.
Record TablespaceUpdate : Type := { lu_tier : option StorageTier; lu_options : list PropertyUpdate; lu_metadata : list PropertyUpdate }.
Record TablespaceRecord : Type := TablespaceRecordMk {
  lr_id : Z; lr_version : Z; lr_created_at : Z; lr_updated_at : Z; lr_name : string; lr_tier : StorageTier; lr_tenants : list Z;
  lr_options : properties; lr_metadata : properties }.

(** ** Keys of the system shard *)

Module SystemKeys.
Definition cluster_key (cluster : Z) : list Z := 0xFF :: be_bytes 4 cluster.
Definition region_key (cluster region : Z) : list Z := 0xFE :: be_bytes 4 cluster ++ be_bytes 4 region.
Definition server_key (cluster region server : Z) : list Z := 0xFD :: be_bytes 4 cluster ++ be_bytes 4 region ++ be_bytes 8 server.
Definition tenant_key (tenant : Z) : list Z := 0xFC :: be_bytes 4 tenant.
Definition database_key (tenant database : Z) : list Z := 0xFB :: be_bytes 4 tenant ++ be_bytes 4 database.
Definition system_user_key (user : Z) : list Z := 0xFA :: be_bytes 4 user.
Definition system_role_key (role : Z) : list Z := 0xF9 :: be_bytes 4 role.
Definition system_group_key (group : Z) : list Z := 0xF8 :: be_bytes 4 group.
Definition tenant_user_key (tenant user : Z) : list Z := 0xF7 :: be_bytes 4 tenant ++ be_bytes 4 user.
Definition tenant_role_key (tenant role : Z) : list Z := 0xF6 :: be_bytes 4 tenant ++ be_bytes 4 role.
Definition tenant_group_key (tenant group : Z) : list Z := 0xF5 :: be_bytes 4 tenant ++ be_bytes 4 group.
End SystemKeys.

Module ContainerKeys.
Definition namespace_key (namespace : Z) : list Z := 0xEF :: be_bytes 4 namespace.
Definition function_key (function : Z) : list Z := 0xEE :: be_bytes 4 function.
Definition table_key (table : Z) : list Z := 0xED :: be_bytes 4 table.
Definition shard_key (shard : Z) : list Z := 0xEC :: be_bytes 16 shard.
Definition index_key (index : Z) : list Z := 0xEB :: be_bytes 4 index.
End ContainerKeys.

Lemma be_bytes_inj n x y : 0 <= x < 2 ^ (8 * Z.of_nat n) -> 0 <= y < 2 ^ (8 * Z.of_nat n) -> be_bytes n x = be_bytes n y -> x = y.
Proof. intros Hx Hy E. rewrite <- (be_value_small n x Hx), <- (be_value_small n y Hy). by rewrite E. Qed.

Lemma be_bytes_u32 x y : is_u32 x -> is_u32 y -> be_bytes 4 x = be_bytes 4 y -> x = y.
Proof. apply (be_bytes_inj 4). Qed.

(** A record has one key, and no two records share one. *)
Lemma tenant_key_inj t t' : is_u32 t -> is_u32 t' -> SystemKeys.tenant_key t = SystemKeys.tenant_key t' -> t = t'.
Proof. intros Ht Ht' E. exact (be_bytes_u32 _ _ Ht Ht' (f_equal tail E)). Qed.

Lemma user_key_inj u u' : is_u32 u -> is_u32 u' -> SystemKeys.system_user_key u = SystemKeys.system_user_key u' -> u = u'.
Proof. intros Hu Hu' E. exact (be_bytes_u32 _ _ Hu Hu' (f_equal tail E)). Qed.

Lemma pair_key_inj p a b a' b' : is_u32 a -> is_u32 b -> is_u32 a' -> is_u32 b' ->
  p :: be_bytes 4 a ++ be_bytes 4 b = p :: be_bytes 4 a' ++ be_bytes 4 b' -> a = a' /\ b = b'.
Proof.
  intros Ha Hb Ha' Hb' E. apply (f_equal tail) in E. cbn [tail] in E. apply app_inj_1 in E as [E1 E2]; [|by rewrite !length_be_bytes]. split; by apply be_bytes_u32.
Qed.

Lemma server_key_inj c r s c' r' s' : is_u32 c -> is_u32 c' -> is_u32 r -> is_u32 r' -> 0 <= s < 2 ^ 64 -> 0 <= s' < 2 ^ 64 ->
  SystemKeys.server_key c r s = SystemKeys.server_key c' r' s' -> c = c' /\ r = r' /\ s = s'.
Proof.
  intros Hc Hc' Hr Hr' Hs Hs' E. apply (f_equal tail) in E. unfold SystemKeys.server_key in E. cbn [tail] in E. apply app_inj_1 in E as [E1 E2]; [|by rewrite !length_be_bytes]. apply app_inj_1 in E2 as [E2 E3]; [|by rewrite !length_be_bytes].
  split_and!; [by apply be_bytes_u32|by apply be_bytes_u32|by apply (be_bytes_inj 8)].
Qed.
