(* ===== verification/Security.v ===== *)
(** * Permissions and principals

    Models nanograph-core/src/object/security/ (permission.rs, principal.rs and
    the user, group and role records): what a grant allows, and the grants a
    principal ends up with.

    [format!] with the derived [Debug] is written out, because grants are
    sorted by it before they are deduplicated. *)

From Stdlib Require Import ZArith Lia String.
From stdpp Require Import option base gmap list strings pretty.
From S2P Require Import Prelude Objects.

Open Scope Z_scope.

Inductive Permission : Type :=
| ClusterAlter | ClusterView
| MetricsView
| UserManagement
| ConfigAlter | ConfigView
| TablespaceManagement | TablespaceAssign | TablespaceView | TablespaceList
| TenantCreateP | TenantDelete | TenantAlter | TenantView | TenantList
| DatabaseAccess | DatabaseCreateP | DatabaseDelete | DatabaseAlter | DatabaseView | DatabaseList
| NamespaceCreateP | NamespaceAlter | NamespaceDelete | NamespaceView | NamespaceList
| TableCreateP | TableDelete | TableAlter | TableDataQuery | TableDataInsert | TableDataUpdate | TableDataDelete | TableIndexCreate | TableIndexDelete
| FunctionExecute | FunctionCreateP | FunctionDelete | FunctionAlter
| GrantPermission | RevokePermission
| TenantSuperuser | GlobalSuperuser.

#[global] Instance Permission_eq_dec : EqDecision Permission.
Proof. solve_decision. Defined.

Definition implies (p other : Permission) : bool := match p with GlobalSuperuser => true | _ => bool_decide (p = other) end.

Inductive ResourceScope : Type :=
| ScopeSystem
| ScopeTablespace (id : Z) | AllTablespaces
| ScopeTenant (id : Z) | AllTenants
| ScopeDatabase (id : Z) | AllDatabases
| ScopeNamespace (id : Z) | AllNamespaces
| ScopeTable (id : Z) | AllTables
| ScopeFunction (id : Z) | AllFunctions
| ScopeIndex (id : Z) | AllIndexes.

#[global] Instance ResourceScope_eq_dec : EqDecision ResourceScope.
Proof. solve_decision. Defined.

Definition matches_system (s : ResourceScope) : bool := match s with ScopeSystem => true | _ => false end.

Definition matches_tablespace (s : ResourceScope) (tablespace : Z) : bool :=
  match s with ScopeSystem | AllTablespaces => true | ScopeTablespace id => id =? tablespace | _ => false end.

Definition matches_tenant (s : ResourceScope) (tenant : Z) : bool :=
  match s with ScopeSystem | AllTenants => true | ScopeTenant id => id =? tenant | _ => false end.

Definition matches_database (s : ResourceScope) (tenant database : Z) : bool :=
  match s with
  | ScopeSystem | AllDatabases | AllTenants => true
  | ScopeTenant tid => tid =? tenant
  | ScopeDatabase did => did =? database
  | _ => false
  end.

Definition matches_table (s : ResourceScope) (tenant database table : Z) : bool :=
  match s with
  | ScopeSystem | AllTables | AllDatabases | AllTenants => true
  | ScopeTenant tid => tid =? tenant
  | ScopeDatabase did => did =? database
  | ScopeTable tid => tid =? table
  | _ => false
  end.

(** [AllTables], not [AllIndexes], covers an index. *)
Definition matches_index (s : ResourceScope) (tenant database index : Z) : bool :=
  match s with
  | ScopeSystem | AllTables | AllDatabases | AllTenants => true
  | ScopeTenant tid => tid =? tenant
  | ScopeDatabase did => did =? database
  | ScopeIndex iid => iid =? index
  | _ => false
  end.

Definition matches_namespace (s : ResourceScope) (tenant database namespace : Z) : bool :=
  match s with
  | ScopeSystem | AllNamespaces | AllDatabases | AllTenants => true
  | ScopeTenant tid => tid =? tenant
  | ScopeDatabase did => did =? database
  | ScopeNamespace nid => nid =? namespace
  | _ => false
  end.

Definition matches_function (s : ResourceScope) (tenant database function : Z) : bool :=
  match s with
  | ScopeSystem | AllFunctions | AllDatabases | AllTenants => true
  | ScopeTenant tid => tid =? tenant
  | ScopeDatabase did => did =? database
  | ScopeFunction fid => fid =? function
  | _ => false
  end.

Record PermissionGrant : Type := Grant { permission : Permission; scope : ResourceScope }.

#[global] Instance PermissionGrant_eq_dec : EqDecision PermissionGrant.
Proof. solve_decision. Defined.

Definition allows_system (g : PermissionGrant) (p : Permission) : bool := implies (permission g) p && matches_system (scope g).
Definition allows_tablespace (g : PermissionGrant) (p : Permission) (ts : Z) : bool := implies (permission g) p && matches_tablespace (scope g) ts.
Definition allows_tenant (g : PermissionGrant) (p : Permission) (t : Z) : bool := implies (permission g) p && matches_tenant (scope g) t.
Definition allows_database (g : PermissionGrant) (p : Permission) (t d : Z) : bool := implies (permission g) p && matches_database (scope g) t d.
Definition allows_table (g : PermissionGrant) (p : Permission) (t d x : Z) : bool := implies (permission g) p && matches_table (scope g) t d x.
Definition allows_index (g : PermissionGrant) (p : Permission) (t d x : Z) : bool := implies (permission g) p && matches_index (scope g) t d x.
Definition allows_namespace (g : PermissionGrant) (p : Permission) (t d x : Z) : bool := implies (permission g) p && matches_namespace (scope g) t d x.
Definition allows_function (g : PermissionGrant) (p : Permission) (t d x : Z) : bool := implies (permission g) p && matches_function (scope g) t d x.

(** ** [Debug] *)

Definition debug_permission (p : Permission) : string :=
  match p with
  | ClusterAlter => "ClusterAlter" | ClusterView => "ClusterView" | MetricsView => "MetricsView" | UserManagement => "UserManagement"
  | ConfigAlter => "ConfigAlter" | ConfigView => "ConfigView" | TablespaceManagement => "TablespaceManagement" | TablespaceAssign => "TablespaceAssign"
  | TablespaceView => "TablespaceView" | TablespaceList => "TablespaceList" | TenantCreateP => "TenantCreate" | TenantDelete => "TenantDelete"
  | TenantAlter => "TenantAlter" | TenantView => "TenantView" | TenantList => "TenantList" | DatabaseAccess => "DatabaseAccess"
  | DatabaseCreateP => "DatabaseCreate" | DatabaseDelete => "DatabaseDelete" | DatabaseAlter => "DatabaseAlter" | DatabaseView => "DatabaseView"
  | DatabaseList => "DatabaseList" | NamespaceCreateP => "NamespaceCreate" | NamespaceAlter => "NamespaceAlter" | NamespaceDelete => "NamespaceDelete"
  | NamespaceView => "NamespaceView" | NamespaceList => "NamespaceList" | TableCreateP => "TableCreate" | TableDelete => "TableDelete"
  | TableAlter => "TableAlter" | TableDataQuery => "TableDataQuery" | TableDataInsert => "TableDataInsert" | TableDataUpdate => "TableDataUpdate"
  | TableDataDelete => "TableDataDelete" | TableIndexCreate => "TableIndexCreate" | TableIndexDelete => "TableIndexDelete"
  | FunctionExecute => "FunctionExecute" | FunctionCreateP => "FunctionCreate" | FunctionDelete => "FunctionDelete" | FunctionAlter => "FunctionAlter"
  | GrantPermission => "GrantPermission" | RevokePermission => "RevokePermission" | TenantSuperuser => "TenantSuperuser" | GlobalSuperuser => "GlobalSuperuser"
  end.

Definition debug_id (name : string) (id : Z) : string := name +:+ "(" +:+ pretty (Z.to_N id) +:+ ")".
Definition debug_object_id (name : string) (id : Z) : string := name +:+ "(" +:+ debug_id "ObjectId" id +:+ ")".

Definition debug_scope (s : ResourceScope) : string :=
  match s with
  | ScopeSystem => "System"
  | ScopeTablespace id => "Tablespace(" +:+ debug_id "TablespaceId" id +:+ ")" | AllTablespaces => "AllTablespaces"
  | ScopeTenant id => "Tenant(" +:+ debug_id "TenantId" id +:+ ")" | AllTenants => "AllTenants"
  | ScopeDatabase id => "Database(" +:+ debug_id "DatabaseId" id +:+ ")" | AllDatabases => "AllDatabases"
  | ScopeNamespace id => "Namespace(" +:+ debug_object_id "NamespaceId" id +:+ ")" | AllNamespaces => "AllNamespaces"
  | ScopeTable id => "Table(" +:+ debug_object_id "TableId" id +:+ ")" | AllTables => "AllTables"
  | ScopeFunction id => "Function(" +:+ debug_object_id "FunctionId" id +:+ ")" | AllFunctions => "AllFunctions"
  | ScopeIndex id => "Index(" +:+ debug_object_id "IndexId" id +:+ ")" | AllIndexes => "AllIndexes"
  end.

Definition debug_grant (g : PermissionGrant) : string :=
  "PermissionGrant { permission: " +:+ debug_permission (permission g) +:+ ", scope: " +:+ debug_scope (scope g) +:+ " }".

(** ** Stable sorting and deduplication of a vector *)

Section vec.
Context {A : Type} `{!EqDecision A}.

Fixpoint insert_by (key : A -> string) (x : A) (l : list A) : list A :=
  match l with
  | [] => [x]
  | y :: l' => if String.leb (key x) (key y) then x :: l else y :: insert_by key x l'
  end.

Definition sort_by_key (key : A -> string) (l : list A) : list A := foldr (insert_by key) [] l.

(** [dedup]: of equal neighbours the first stays. *)
Fixpoint dedup (l : list A) : list A :=
  match l with
  | [] => []
  | x :: l' => match dedup l' with y :: r => if decide (x = y) then x :: r else x :: y :: r | [] => [x] end
  end.

Lemma elem_of_insert_by key x y l : y ∈ insert_by key x l <-> y = x \/ y ∈ l.
Proof.
  induction l as [|z l IH]; cbn [insert_by]; [rewrite list_elem_of_singleton; set_solver|]. case_match; set_solver.
Qed.

Lemma elem_of_sort_by_key key y l : y ∈ sort_by_key key l <-> y ∈ l.
Proof. induction l as [|x l IH]; cbn [sort_by_key foldr]; [done|]. rewrite elem_of_insert_by. unfold sort_by_key in IH. set_solver. Qed.

Lemma elem_of_dedup y l : y ∈ dedup l <-> y ∈ l.
Proof.
  induction l as [|x l IH]; cbn [dedup]; [done|]. destruct (dedup l) as [|z r] eqn:E; [set_solver|]. case_decide; set_solver.
Qed.
End vec.

(** ** Users, groups and roles *)

Record SystemUserRecord : Type := SystemUserMk {
  ur_id : Z; ur_username : string; ur_version : Z; ur_created_at : Z; ur_last_modified : Z; ur_group_ids : list Z; ur_role_ids : list Z;
  ur_grants : list PermissionGrant; ur_enabled : bool; ur_password_hash : option string; ur_options : properties; ur_metadata : properties }.
Record TenantUserRecord : Type := TenantUserMk {
  vr_id : Z; vr_tenant : Z; vr_version : Z; vr_created_at : Z; vr_last_modified : Z; vr_group_ids : list Z; vr_role_ids : list Z;
  vr_options : properties; vr_metadata : properties }.
Record SystemUserMetadata : Type := SystemUserMetadataMk {
  um_id : Z; um_username : string; um_created_at : Z; um_last_modified : Z; um_groups : list Z; um_roles : list Z; um_grants : list PermissionGrant;
  um_enabled : bool; um_options : properties; um_metadata : properties }.
Record TenantUserMetadata : Type := TenantUserMetadataMk {
  vm_id : Z; vm_username : string; vm_created_at : Z; vm_last_modified : Z; vm_groups : list Z; vm_roles : list Z;
  vm_enabled : bool; vm_options : properties; vm_metadata : properties }.
Record SystemUserCreate : Type := { uc_username : string; uc_options : properties; uc_metadata : properties }.
Record SystemUserUpdate : Type := { uu_username : option string; uu_options : list PropertyUpdate; uu_metadata : list PropertyUpdate }.
Record TenantUserCreate : Type := { vc_username : string; vc_options : properties; vc_metadata : properties }.
Record TenantUserUpdate : Type := { vu_options : list PropertyUpdate; vu_metadata : list PropertyUpdate }.

(** System and tenant groups have the same fields. *)
Record GroupRecord : Type := GroupMk {
  gr_id : Z; gr_name : string; gr_version : Z; gr_created_at : Z; gr_last_modified : Z; gr_members : list Z; gr_roles : list Z;
  gr_grants : list PermissionGrant; gr_options : properties; gr_metadata : properties }.
Record SystemRoleRecord : Type := SystemRoleMk {
  sro_id : Z; sro_name : string; sro_version : Z; sro_created_at : Z; sro_last_modified : Z; sro_grants : list PermissionGrant;
  sro_options : properties; sro_metadata : properties }.
Record TenantRoleRecord : Type := TenantRoleMk {
  tro_id : Z; tro_tenant : Z; tro_name : string; tro_version : Z; tro_created_at : Z; tro_last_modified : Z; tro_grants : list PermissionGrant;
  tro_options : properties; tro_metadata : properties }.

Definition system_user_metadata_from (r : SystemUserRecord) : SystemUserMetadata :=
  SystemUserMetadataMk (ur_id r) (ur_username r) (ur_created_at r) (ur_last_modified r) (ur_group_ids r) (ur_role_ids r) (ur_grants r)
    (ur_enabled r) (ur_options r) (ur_metadata r).
Definition tenant_user_metadata_from (u : SystemUserRecord) (v : TenantUserRecord) : TenantUserMetadata :=
  TenantUserMetadataMk (ur_id u) (ur_username u) (vr_created_at v) (vr_last_modified v) (vr_group_ids v) (vr_role_ids v)
    (ur_enabled u) (vr_options v) (vr_metadata v).

(** ** Principals *)

Module SecurityPrincipal.

Record t : Type := mk { user_id : Z; username : string; tenant_id : option Z; effective_grants : list PermissionGrant; created_at : Z }.

Definition find_group (gs : list GroupRecord) (id : Z) : option GroupRecord := snd <$> list_find (fun g => gr_id g = id) gs.

(** Roles of either kind, by their identifier and their grants. *)
Definition find_role {R} (id_of : R -> Z) (rs : list R) (id : Z) : option R := snd <$> list_find (fun r => id_of r = id) rs.

Definition role_grants {R} (id_of : R -> Z) (grants_of : R -> list PermissionGrant) (roles : list R) (ids : list Z) : list PermissionGrant :=
  id ← ids; match find_role id_of roles id with Some r => grants_of r | None => [] end.

Definition group_grants {R} (id_of : R -> Z) (grants_of : R -> list PermissionGrant) (groups : list GroupRecord) (roles : list R) (ids : list Z) :
    list PermissionGrant :=
  id ← ids; match find_group groups id with Some g => gr_grants g ++ role_grants id_of grants_of roles (gr_roles g) | None => [] end.

Definition normalise (gs : list PermissionGrant) : list PermissionGrant := dedup (sort_by_key debug_grant gs).

Definition resolve_system_grants (u : SystemUserRecord) (groups : list GroupRecord) (roles : list SystemRoleRecord) : list PermissionGrant :=
  normalise (ur_grants u ++ group_grants sro_id sro_grants groups roles (ur_group_ids u) ++ role_grants sro_id sro_grants roles (ur_role_ids u)).

(** The direct grants of the system user come along; a tenant user has none of its own. *)
Definition resolve_tenant_grants (u : SystemUserRecord) (v : TenantUserRecord) (groups : list GroupRecord) (roles : list TenantRoleRecord) : list PermissionGrant :=
  normalise (ur_grants u ++ group_grants tro_id tro_grants groups roles (vr_group_ids v) ++ role_grants tro_id tro_grants roles (vr_role_ids v)).

Definition from_system_user (u : SystemUserRecord) (groups : list GroupRecord) (roles : list SystemRoleRecord) (now : Z) : t :=
  mk (ur_id u) (ur_username u) None (resolve_system_grants u groups roles) now.

Definition from_tenant_user (u : SystemUserRecord) (v : TenantUserRecord) (groups : list GroupRecord) (roles : list TenantRoleRecord) (now : Z) : t :=
  mk (ur_id u) (ur_username u) (Some (vr_tenant v)) (resolve_tenant_grants u v groups roles) now.

Definition from_hybrid_user (u : SystemUserRecord) (sgroups : list GroupRecord) (sroles : list SystemRoleRecord)
    (v : TenantUserRecord) (tgroups : list GroupRecord) (troles : list TenantRoleRecord) (now : Z) : t :=
  mk (ur_id u) (ur_username u) (Some (vr_tenant v))
    (normalise (resolve_system_grants u sgroups sroles ++ resolve_tenant_grants u v tgroups troles)) now.

(** The two [assert_eq!]s panic. *)
Definition switch_tenant {E} (p : t) (u : SystemUserRecord) (v : TenantUserRecord) (groups : list GroupRecord) (roles : list TenantRoleRecord) (now : Z) : result E t :=
  if user_id p =? ur_id u then if ur_id u =? vr_id v then Ok (from_tenant_user u v groups roles now) else Panic else Panic.

Definition has_permission (p : t) (perm : Permission) : bool := existsb (fun g => implies (permission g) perm) (effective_grants p).
Definition has_system_permission (p : t) (perm : Permission) : bool := existsb (fun g => allows_system g perm) (effective_grants p).
Definition has_tablespace_permission (p : t) (perm : Permission) (ts : Z) : bool := existsb (fun g => allows_tablespace g perm ts) (effective_grants p).
Definition has_tenant_permission (p : t) (perm : Permission) (tid : Z) : bool := existsb (fun g => allows_tenant g perm tid) (effective_grants p).
Definition has_database_permission (p : t) (perm : Permission) (tid did : Z) : bool := existsb (fun g => allows_database g perm tid did) (effective_grants p).
Definition has_table_permission (p : t) (perm : Permission) (tid did x : Z) : bool := existsb (fun g => allows_table g perm tid did x) (effective_grants p).
Definition has_index_permission (p : t) (perm : Permission) (tid did x : Z) : bool := existsb (fun g => allows_index g perm tid did x) (effective_grants p).
Definition has_namespace_permission (p : t) (perm : Permission) (tid did x : Z) : bool := existsb (fun g => allows_namespace g perm tid did x) (effective_grants p).
Definition has_function_permission (p : t) (perm : Permission) (tid did x : Z) : bool := existsb (fun g => allows_function g perm tid did x) (effective_grants p).

Definition is_superuser (p : t) : bool := has_permission p GlobalSuperuser.
Definition is_system_principal (p : t) : bool := match tenant_id p with None => true | Some _ => false end.
Definition is_tenant_principal (p : t) : bool := match tenant_id p with None => false | Some _ => true end.

Definition has_tenant_access (p : t) (tid : Z) : bool := match tenant_id p with None => is_superuser p | Some t => t =? tid end.

Definition permissions (p : t) : list Permission := dedup (sort_by_key debug_permission (permission <$> effective_grants p)).
End SecurityPrincipal.

(** ** Where the grants of a principal come from *)

Section sources.
Context {R : Type} (id_of : R -> Z) (grants_of : R -> list PermissionGrant).
Implicit Types (groups : list GroupRecord) (roles : list R) (g : PermissionGrant).

Definition role_gives roles (ids : list Z) g : Prop := exists id r, id ∈ ids /\ SecurityPrincipal.find_role id_of roles id = Some r /\ g ∈ grants_of r.
Definition group_gives groups roles (ids : list Z) g : Prop :=
  exists id gr, id ∈ ids /\ SecurityPrincipal.find_group groups id = Some gr /\ (g ∈ gr_grants gr \/ role_gives roles (gr_roles gr) g).

Lemma elem_of_role_grants roles ids g : g ∈ SecurityPrincipal.role_grants id_of grants_of roles ids <-> role_gives roles ids g.
Proof.
  unfold SecurityPrincipal.role_grants, role_gives. rewrite list_elem_of_bind. split.
  - intros (id & Hg & Hid). destruct (SecurityPrincipal.find_role id_of roles id) as [r|] eqn:E; [|by apply not_elem_of_nil in Hg]. by exists id, r.
  - intros (id & r & Hid & Hr & Hg). exists id. by rewrite Hr.
Qed.

Lemma elem_of_group_grants groups roles ids g :
  g ∈ SecurityPrincipal.group_grants id_of grants_of groups roles ids <-> group_gives groups roles ids g.
Proof.
  unfold SecurityPrincipal.group_grants, group_gives. rewrite list_elem_of_bind. split.
  - intros (id & Hg & Hid). destruct (SecurityPrincipal.find_group groups id) as [gr|] eqn:E; [|by apply not_elem_of_nil in Hg].
    exists id, gr. split_and!; [done|done|]. apply elem_of_app in Hg. by rewrite <- elem_of_role_grants.
  - intros (id & gr & Hid & Hgr & Hg). exists id. rewrite Hgr, elem_of_app, elem_of_role_grants. done.
Qed.
End sources.

Lemma elem_of_normalise g gs : g ∈ SecurityPrincipal.normalise gs <-> g ∈ gs.
Proof. unfold SecurityPrincipal.normalise. by rewrite elem_of_dedup, elem_of_sort_by_key. Qed.

Definition system_gives (u : SystemUserRecord) groups (roles : list SystemRoleRecord) g : Prop :=
  g ∈ ur_grants u \/ group_gives sro_id sro_grants groups roles (ur_group_ids u) g \/ role_gives sro_id sro_grants roles (ur_role_ids u) g.
Definition tenant_gives (u : SystemUserRecord) (v : TenantUserRecord) groups (roles : list TenantRoleRecord) g : Prop :=
  g ∈ ur_grants u \/ group_gives tro_id tro_grants groups roles (vr_group_ids v) g \/ role_gives tro_id tro_grants roles (vr_role_ids v) g.

Lemma elem_of_system_grants u groups roles g : g ∈ SecurityPrincipal.resolve_system_grants u groups roles <-> system_gives u groups roles g.
Proof. unfold SecurityPrincipal.resolve_system_grants, system_gives. by rewrite elem_of_normalise, !elem_of_app, elem_of_group_grants, elem_of_role_grants. Qed.

Lemma elem_of_tenant_grants u v groups roles g : g ∈ SecurityPrincipal.resolve_tenant_grants u v groups roles <-> tenant_gives u v groups roles g.
Proof. unfold SecurityPrincipal.resolve_tenant_grants, tenant_gives. by rewrite elem_of_normalise, !elem_of_app, elem_of_group_grants, elem_of_role_grants. Qed.

Lemma existsb_grant (q : PermissionGrant -> bool) gs : existsb q gs = true <-> exists g, g ∈ gs /\ q g = true.
Proof. rewrite existsb_exists. split; intros (g & Hg & Hq); exists g; (split; [by apply list_elem_of_In|done]). Qed.

