(* ===== verification/BTreeError.v ===== *)
(** * Errors of the B+Tree crate

    Models nanograph-btree/src/error.rs and nanograph-kvt/src/error.rs.
    Payloads of foreign types (I/O, VFS and WAL errors, ids, permissions) are
    left out; a formatted message is its literal part. *)

From Stdlib Require Import ZArith.
From stdpp Require Import base strings.
From S2P Require Import Security.

Inductive BTreeError : Type :=
| KeyNotFound
| NodeNotFound
| NodeOverflow
| NodeUnderflow
| InvalidNode
| InvalidOperation (msg : string)
| Io
| Serialization (msg : string)
| Vfs
| Wal
| WriteConflict
| Internal (msg : string).

Inductive KeyValueError : Type :=
| KvOutOfMemory
| KvKeyNotFound
| KvKeyExists
| KvInvalidKey (msg : string)
| KvInvalidValue (msg : string)
| KvIoError
| KvStdIoError
| KvWalError
| KvStorageCorruption (msg : string)
| KvLockTimeout
| KvWriteConflict
| KvLockPoisoned
| KvSnapshotExpired
| KvReadOnly
| KvClosed
| KvStorageFull
| KvKeyTooLarge (size max : nat)
| KvValueTooLarge (size max : nat)
| KvConsensus (msg : string)
| KvShardNotFound
| KvInvalidOperation (msg : string)
| KvInvalidSnapshotFormat
| KvUnsupportedSnapshotVersion
| KvSerialization (msg : string)
| KvDeserialization (msg : string)
| KvPermissionDenied (user_id : Z) (permission : Permission) (resource : ResourceScope)
| KvTablespaceQuotaExceeded (size : nat)
| KvInternal (msg : string)
| KvTablespaceNotFound.

(** [From<String>], applied by [?]. *)
Definition from_string (s : string) : BTreeError := InvalidOperation s.

(** [thiserror]'s [Display]. *)
Definition display (e : BTreeError) : string :=
  match e with
  | KeyNotFound => "Key not found"
  | NodeNotFound => "Node not found"
  | NodeOverflow => "Node overflow: too many keys"
  | NodeUnderflow => "Node underflow: too few keys"
  | InvalidNode => "Invalid node structure"
  | InvalidOperation m => "Invalid operation: " +:+ m
  | Io => "IO error: "
  | Serialization m => "Serialization error: " +:+ m
  | Vfs => "VFS error: "
  | Wal => "WAL error: "
  | WriteConflict => "Write conflict"
  | Internal m => "Internal error: " +:+ m
  end.

Definition kv_error_from (err : BTreeError) : KeyValueError :=
  match err with
  | KeyNotFound => KvKeyNotFound
  | Io => KvIoError
  | Vfs => KvIoError
  | WriteConflict => KvWriteConflict
  | other => KvStorageCorruption (display other)
  end.
