(* ===== verification/Mvcc.v ===== *)
(** * Version chains and versioned leaves of the B+Tree's MVCC layer

    Models nanograph-btree/src/mvcc.rs ([VersionedValue], [VersionChain],
    [TimestampManager]) and nanograph-btree/src/mvcc_node.rs ([MvccLeafNode]).
    A chain lists the versions of one key, newest first; a leaf holds the chains
    sorted by key. *)

From Stdlib Require Import ZArith Lia.
From stdpp Require Import sorting gmap option base list.
From S2P Require Import Prelude.

Open Scope Z_scope.

Module VersionedValue.

Record t : Type := mk {
  value : option (list Z);
  created_ts : Z;
  commit_ts : Z
}.

Definition new (v : option (list Z)) (created : Z) : t := mk v created 0.

Definition commit (v : t) (ts : Z) : t := mk (value v) (created_ts v) ts.

Definition is_visible (v : t) (snapshot_ts : Z) : bool :=
  (0 <? commit_ts v) && (commit_ts v <=? snapshot_ts).

Definition is_uncommitted (v : t) : bool := commit_ts v =? 0.

Definition is_deletion (v : t) : bool :=
  match value v with None => true | Some _ => false end.

End VersionedValue.

Module VersionChain.

(** [VersionChain { versions }], newest first. *)
Abbreviation t := (list VersionedValue.t).

Definition new : t := [].

Definition with_version (v : list Z) (created : Z) : t := [VersionedValue.new (Some v) created].

Definition add_version (c : t) (v : option (list Z)) (created : Z) : t :=
  VersionedValue.new v created :: c.

Fixpoint get (c : t) (snapshot_ts : Z) : option (list Z) :=
  match c with
  | [] => None
  | v :: c' =>
      if VersionedValue.is_visible v snapshot_ts then VersionedValue.value v
      else get c' snapshot_ts
  end.

Definition get_at (c : t) (timestamp : Z) : option (list Z) := get c timestamp.

Fixpoint exists_at (c : t) (timestamp : Z) : bool :=
  match c with
  | [] => false
  | v :: c' =>
      if VersionedValue.is_visible v timestamp then negb (VersionedValue.is_deletion v)
      else exists_at c' timestamp
  end.

Fixpoint get_latest (c : t) : option (list Z) :=
  match c with
  | [] => None
  | v :: c' => if 0 <? VersionedValue.commit_ts v then VersionedValue.value v else get_latest c'
  end.

Definition commit_versions (c : t) (created commit_ts : Z) : t :=
  map (fun v => if (VersionedValue.created_ts v =? created) && VersionedValue.is_uncommitted v
                then VersionedValue.commit v commit_ts else v) c.

Definition rollback_versions (c : t) (created : Z) : t :=
  List.filter (fun v => negb (VersionedValue.created_ts v =? created)) c.

(** [retain] with the counter the closure captures. *)
Fixpoint gc_retain (keep_count : nat) (min_snapshot_ts : Z) (max_versions : nat) (c : t) : t :=
  match c with
  | [] => []
  | v :: c' =>
      if (keep_count =? 0)%nat then v :: gc_retain (keep_count + 1) min_snapshot_ts max_versions c'
      else if (min_snapshot_ts <? VersionedValue.commit_ts v) && (keep_count <? max_versions)%nat
      then v :: gc_retain (keep_count + 1) min_snapshot_ts max_versions c'
      else gc_retain keep_count min_snapshot_ts max_versions c'
  end.

Definition gc_versions (c : t) (min_snapshot_ts : Z) (max_versions : nat) : t :=
  gc_retain 0 min_snapshot_ts max_versions c.

Definition is_empty (c : t) : bool := match c with [] => true | _ => false end.

Definition len (c : t) : nat := length c.

Fixpoint latest_commit_ts (c : t) : option Z :=
  match c with
  | [] => None
  | v :: c' =>
      if 0 <? VersionedValue.commit_ts v then Some (VersionedValue.commit_ts v)
      else latest_commit_ts c'
  end.

Fixpoint has_conflict (c : t) (snapshot_ts : Z) : bool :=
  match c with
  | [] => false
  | v :: c' =>
      if VersionedValue.is_uncommitted v then true
      else if snapshot_ts <? VersionedValue.commit_ts v then true
      else has_conflict c' snapshot_ts
  end.

End VersionChain.

Module TimestampManager.

Record t : Type := mk {
  current : Z;
  active_snapshots : gmap Z Z    (* timestamp -> reference count *)
}.

Definition new : t := mk 1 ∅.

(** [fetch_add(1)]: the old value is returned and the counter wraps. *)
Definition next (m : t) : t * Z := (mk (u64 (current m + 1)) (active_snapshots m), current m).

Definition register_snapshot (m : t) (ts : Z) : t :=
  mk (current m)
     (<[ts := match active_snapshots m !! ts with Some c => c + 1 | None => 1 end]> (active_snapshots m)).

Definition unregister_snapshot (m : t) (ts : Z) : t :=
  match active_snapshots m !! ts with
  | Some c =>
      if c - 1 =? 0 then mk (current m) (delete ts (active_snapshots m))
      else mk (current m) (<[ts := c - 1]> (active_snapshots m))
  | None => m
  end.

(** The first key of the [BTreeMap], i.e. the least one. *)
Definition min_key (m : gmap Z Z) : option Z :=
  foldr (fun ts acc => match acc with Some a => Some (Z.min ts a) | None => Some ts end)
        None (map_to_list m).*1.

Definition min_active_snapshot (m : t) : option Z := min_key (active_snapshots m).

Definition active_snapshot_count (m : t) : nat := size (active_snapshots m).

End TimestampManager.

Module MvccLeafNode.

Record t : Type := mk {
  id : Z;
  entries : list (list Z * VersionChain.t);
  next : option Z;
  prev : option Z;
  parent : option Z
}.

Definition new (i : Z) : t := mk i [] None None None.

Definition set_entries (n : t) (es : list (list Z * VersionChain.t)) : t :=
  mk (id n) es (next n) (prev n) (parent n).

Definition find_key_index (n : t) (key : list Z) : SearchResult :=
  binary_search_by (key_probe fst key) (entries n).

(** [&mut self.entries[idx].1] replaced by [f] of itself. *)
Definition alter_chain (n : t) (idx : nat) (f : VersionChain.t -> VersionChain.t) : t :=
  set_entries n (alter (fun e => (e.1, f e.2)) idx (entries n)).

Definition chain_at (n : t) (idx : nat) : VersionChain.t :=
  match entries n !! idx with Some e => e.2 | None => [] end.

Definition insert (n : t) (key value : list Z) (created : Z) : t * option (list Z) :=
  match find_key_index n key with
  | Found idx =>
      (alter_chain n idx (fun c => VersionChain.add_version c (Some value) created),
       VersionChain.get_latest (chain_at n idx))
  | NotFound idx =>
      (set_entries n (vec_insert idx (key, VersionChain.with_version value created) (entries n)), None)
  end.

Definition remove (n : t) (key : list Z) (created : Z) : t * option (list Z) :=
  match find_key_index n key with
  | Found idx =>
      (alter_chain n idx (fun c => VersionChain.add_version c None created),
       VersionChain.get_latest (chain_at n idx))
  | NotFound _ => (n, None)
  end.

Definition get (n : t) (key : list Z) (snapshot_ts : Z) : option (list Z) :=
  match find_key_index n key with
  | Found idx => VersionChain.get (chain_at n idx) snapshot_ts
  | NotFound _ => None
  end.

Definition get_latest (n : t) (key : list Z) : option (list Z) :=
  match find_key_index n key with
  | Found idx => VersionChain.get_latest (chain_at n idx)
  | NotFound _ => None
  end.

Definition map_chains (n : t) (f : VersionChain.t -> VersionChain.t) : t :=
  set_entries n (map (fun e => (e.1, f e.2)) (entries n)).

Definition commit_versions (n : t) (created commit_ts : Z) : t :=
  map_chains n (fun c => VersionChain.commit_versions c created commit_ts).

Definition rollback_versions (n : t) (created : Z) : t :=
  let n' := map_chains n (fun c => VersionChain.rollback_versions c created) in
  set_entries n' (List.filter (fun e => negb (VersionChain.is_empty e.2)) (entries n')).

Definition gc_versions (n : t) (min_snapshot_ts : Z) (max_versions_per_key : nat) : t :=
  map_chains n (fun c => VersionChain.gc_versions c min_snapshot_ts max_versions_per_key).

Definition has_conflict (n : t) (key : list Z) (snapshot_ts : Z) : bool :=
  match find_key_index n key with
  | Found idx => VersionChain.has_conflict (chain_at n idx) snapshot_ts
  | NotFound _ => false
  end.

(** [right_entries[0]] panics on an empty leaf. *)
Definition split (n : t) : option (t * list Z * t) :=
  let mid := (length (entries n) / 2)%nat in
  match drop mid (entries n) with
  | [] => None
  | (k, _) :: _ =>
      Some (set_entries n (take mid (entries n)), k,
            mk (id n) (drop mid (entries n)) (next n) None (parent n))
  end.

Definition is_underfull (n : t) (min_entries : nat) : bool := (length (entries n) <? min_entries)%nat.

Definition len (n : t) : nat := length (entries n).

End MvccLeafNode.

(** ** Reading a chain *)

(** Every version is committed, below [bound], and commit timestamps strictly
    decrease along the chain. *)
Definition chain_ok (bound : Z) (c : VersionChain.t) : Prop :=
  Forall (fun v => 0 < VersionedValue.commit_ts v < bound) c /\
  StronglySorted (fun v w => VersionedValue.commit_ts w < VersionedValue.commit_ts v) c.

Lemma visible_iff v ts :
  VersionedValue.is_visible v ts = true <->
  0 < VersionedValue.commit_ts v <= ts.
Proof. unfold VersionedValue.is_visible. rewrite andb_true_iff, Z.ltb_lt, Z.leb_le. tauto. Qed.

Lemma chain_ok_mono b b' c : b <= b' -> chain_ok b c -> chain_ok b' c.
Proof. intros Hb [H1 H2]. split; [|done]. eapply Forall_impl; [exact H1|]. intros v; simpl; lia. Qed.

Lemma chain_ok_cons b v c :
  chain_ok b c -> b <= VersionedValue.commit_ts v -> 0 < VersionedValue.commit_ts v ->
  chain_ok (VersionedValue.commit_ts v + 1) (v :: c).
Proof.
  intros [H1 H2] Hv H0. split.
  - constructor; [lia|]. eapply Forall_impl; [exact H1|]. intros w; simpl; lia.
  - constructor; [done|]. eapply Forall_impl; [exact H1|]. intros w; simpl; lia.
Qed.

Lemma chain_ok_inv b v c :
  chain_ok b (v :: c) -> 0 < VersionedValue.commit_ts v < b /\ chain_ok (VersionedValue.commit_ts v) c.
Proof.
  intros [H1 H2]. inversion H1 as [|? ? Hv Hc]; inversion H2 as [|? ? Hs HF]; subst.
  split; [done|]. split; [|done].
  rewrite Forall_forall in *. intros w Hw. specialize (Hc w Hw); specialize (HF w Hw). simpl in *. lia.
Qed.

Lemma get_below c b ts ts' : chain_ok b c -> b <= ts + 1 -> ts <= ts' -> VersionChain.get c ts' = VersionChain.get c ts.
Proof.
  intros H Hb Hts. destruct c as [|v c]; [done|]. apply chain_ok_inv in H as [Hv _]. cbn.
  by rewrite !(proj2 (visible_iff _ _)) by lia.
Qed.

Lemma get_None_not_visible c ts :
  (forall v, v ∈ c -> VersionedValue.is_visible v ts = false) -> VersionChain.get c ts = None.
Proof.
  induction c as [|v c IH]; intros H; [done|]. cbn. rewrite (H v) by apply list_elem_of_here.
  apply IH. intros w Hw. apply H. by apply list_elem_of_further.
Qed.

Lemma chain_get_newest_gen b c ts val :
  chain_ok b c ->
  VersionChain.get c ts = Some val <->
  exists v, v ∈ c /\ VersionedValue.is_visible v ts = true /\ VersionedValue.value v = Some val /\
            forall w, w ∈ c -> VersionedValue.is_visible w ts = true ->
                      VersionedValue.commit_ts w <= VersionedValue.commit_ts v.
Proof.
  revert b. induction c as [|x c IH]; intros b Hc; cbn.
  { split; [done|]. intros (v & Hv & _). by apply not_elem_of_nil in Hv. }
  apply chain_ok_inv in Hc as [Hx Hc]. destruct (VersionedValue.is_visible x ts) eqn:Ex.
  - split.
    + intros Hval. exists x. split_and!; try done; [apply list_elem_of_here|].
      intros w [->|Hw]%elem_of_cons _; [lia|]. destruct Hc as [Hc _].
      rewrite Forall_forall in Hc. specialize (Hc w Hw). lia.
    + intros (v & [->|Hv]%elem_of_cons & Hvis & Hval & Hmax); [done|]. exfalso.
      specialize (Hmax x (list_elem_of_here _ _) Ex). destruct Hc as [Hc _].
      rewrite Forall_forall in Hc. specialize (Hc v Hv). lia.
  - rewrite (IH _ Hc). split; intros (v & Hv & Hvis & Hval & Hmax); exists v.
    + split_and!; try done; [by apply list_elem_of_further|].
      intros w [->|Hw]%elem_of_cons Hwv; [congruence|auto].
    + apply elem_of_cons in Hv as [->|Hv]; [congruence|]. split_and!; try done.
      intros w Hw. apply Hmax. by apply list_elem_of_further.
Qed.

(** ** Committing, rolling back and collecting a chain *)

(** Committing transaction [created] leaves a fully committed chain alone. *)
Lemma commit_versions_committed b c created ts :
  chain_ok b c -> VersionChain.commit_versions c created ts = c.
Proof.
  intros [H _]. induction H as [|v c Hv _ IH]; [done|]. cbn. unfold VersionChain.commit_versions in IH.
  rewrite IH. unfold VersionedValue.is_uncommitted. rewrite (proj2 (Z.eqb_neq _ 0)) by lia.
  by rewrite andb_false_r.
Qed.

Lemma commit_versions_add b c v created ts :
  chain_ok b c ->
  VersionChain.commit_versions (VersionChain.add_version c v created) created ts =
  VersionedValue.mk v created ts :: c.
Proof.
  intros H. unfold VersionChain.add_version. cbn. rewrite Z.eqb_refl. cbn. f_equal.
  by eapply commit_versions_committed.
Qed.

Lemma rollback_versions_absent c created :
  Forall (fun v => VersionedValue.created_ts v <> created) c ->
  VersionChain.rollback_versions c created = c.
Proof.
  induction 1 as [|v c Hv _ IH]; [done|]. cbn. rewrite (proj2 (Z.eqb_neq _ _) Hv). cbn.
  by rewrite <- IH at 2.
Qed.

Lemma get_cons_old v c ts : ts < VersionedValue.commit_ts v -> VersionChain.get (v :: c) ts = VersionChain.get c ts.
Proof.
  intros H. cbn. destruct (VersionedValue.is_visible v ts) eqn:E; [|done].
  apply visible_iff in E. lia.
Qed.

Lemma get_cons_new v c ts :
  0 < VersionedValue.commit_ts v <= ts -> VersionChain.get (v :: c) ts = VersionedValue.value v.
Proof. intros H. cbn. by rewrite (proj2 (visible_iff _ _)). Qed.

(** A committed chain conflicts with a snapshot exactly when its newest version
    is younger than the snapshot. *)
Lemma has_conflict_iff b c ts :
  chain_ok b c -> VersionChain.has_conflict c ts = true <-> exists v, v ∈ c /\ ts < VersionedValue.commit_ts v.
Proof.
  revert b. induction c as [|v c IH]; intros b Hc; cbn.
  { split; [done|]. intros (v & Hv & _). by apply not_elem_of_nil in Hv. }
  apply chain_ok_inv in Hc as [Hv Hc]. unfold VersionedValue.is_uncommitted.
  rewrite (proj2 (Z.eqb_neq _ 0)) by lia. destruct (Z.ltb_spec ts (VersionedValue.commit_ts v)).
  - split; [|done]. intros _. exists v. split; [apply list_elem_of_here|done].
  - rewrite (IH _ Hc). split; intros (w & Hw & Hlt); exists w.
    + split; [by apply list_elem_of_further|done].
    + apply elem_of_cons in Hw as [->|Hw]; [lia|done].
Qed.

Lemma no_conflict_bound b c ts :
  chain_ok b c -> 0 <= ts -> VersionChain.has_conflict c ts = false -> chain_ok (ts + 1) c.
Proof.
  intros Hc Hts Hn. split; [|apply Hc]. apply Forall_forall. intros v Hv.
  pose proof (proj1 (Forall_forall _ _) (proj1 Hc) v Hv) as Hb. simpl in Hb.
  destruct (Z.ltb_spec ts (VersionedValue.commit_ts v)); [|lia]. exfalso.
  rewrite (proj2 (has_conflict_iff b c ts Hc)) in Hn; [done|]. by exists v.
Qed.

Lemma gc_retain_sublist n m k c : VersionChain.gc_retain n m k c `sublist_of` c.
Proof.
  revert n. induction c as [|v c IH]; intros n; cbn; [done|].
  destruct (n =? 0)%nat; [by constructor|]. by destruct (_ && _); constructor.
Qed.

Lemma gc_versions_head c m k :
  VersionChain.gc_versions c m k = match c with [] => [] | v :: c' => v :: VersionChain.gc_retain 1 m k c' end.
Proof. by destruct c. Qed.

Lemma StronglySorted_sublist {A} (R : A -> A -> Prop) l l' :
  l `sublist_of` l' -> StronglySorted R l' -> StronglySorted R l.
Proof.
  induction 1 as [|x l l' Hs IH|x l l' Hs IH]; intros H; [done| |].
  - inversion H as [|? ? Hl HF]; subst. constructor; [by apply IH|].
    rewrite Forall_forall in *. intros y Hy. apply HF. by eapply elem_of_sublist.
  - inversion H; subst. by apply IH.
Qed.

Lemma chain_ok_sublist b c c' : c `sublist_of` c' -> chain_ok b c' -> chain_ok b c.
Proof.
  intros Hs [H1 H2]. split; [|by eapply StronglySorted_sublist].
  rewrite Forall_forall in *. intros v Hv. apply H1. by eapply elem_of_sublist.
Qed.

(** ** Leaves as finite maps of chains *)

Definition leaf_map (n : MvccLeafNode.t) : gmap (list Z) VersionChain.t := to_map (MvccLeafNode.entries n).

Definition leaf_sorted (n : MvccLeafNode.t) : Prop := sorted_by fst (MvccLeafNode.entries n).

Lemma to_map_entry {V} (l : list (list Z * V)) k v :
  sorted_by fst l -> to_map l !! k = Some v <-> (k, v) ∈ l.
Proof. intros Hs%sorted_by_NoDup. symmetry. by apply elem_of_list_to_map. Qed.

(** One case analysis serves every operation that starts with [find_key_index]. *)
Lemma leaf_find_cases n k :
  leaf_sorted n ->
  (exists l1 c l2, MvccLeafNode.entries n = l1 ++ (k, c) :: l2 /\ all_lt fst k l1 /\ all_gt fst k l2 /\
     MvccLeafNode.find_key_index n k = Found (length l1) /\
     MvccLeafNode.chain_at n (length l1) = c /\ leaf_map n !! k = Some c) \/
  (exists l1 l2, MvccLeafNode.entries n = l1 ++ l2 /\ all_lt fst k l1 /\ all_gt fst k l2 /\
     MvccLeafNode.find_key_index n k = NotFound (length l1) /\ leaf_map n !! k = None).
Proof.
  intros Hs. unfold MvccLeafNode.find_key_index, MvccLeafNode.chain_at, leaf_map.
  destruct (search_key_view fst k _ Hs) as [l1 [k' c] l2 He Hk H1 H2 | l1 l2 He H1 H2]; rewrite He.
  - simpl in Hk; subst k'. left. exists l1, c, l2. split_and!; try done.
    + by rewrite lookup_app_here.
    + by apply to_map_middle_lookup.
  - right. exists l1, l2. split_and!; try done. by apply to_map_split_None.
Qed.

Lemma mvcc_leaf_get_map n k ts :
  leaf_sorted n ->
  MvccLeafNode.get n k ts = match leaf_map n !! k with Some c => VersionChain.get c ts | None => None end.
Proof.
  intros Hs. unfold MvccLeafNode.get.
  destruct (leaf_find_cases n k Hs) as [(l1 & c & l2 & _ & _ & _ & -> & -> & ->) | (l1 & l2 & _ & _ & _ & -> & ->)]; done.
Qed.

Lemma leaf_conflict_map n k ts :
  leaf_sorted n ->
  MvccLeafNode.has_conflict n k ts =
  match leaf_map n !! k with Some c => VersionChain.has_conflict c ts | None => false end.
Proof.
  intros Hs. unfold MvccLeafNode.has_conflict.
  destruct (leaf_find_cases n k Hs) as [(l1 & c & l2 & _ & _ & _ & -> & -> & ->) | (l1 & l2 & _ & _ & _ & -> & ->)]; done.
Qed.

Lemma alter_chain_app n l1 k c l2 f :
  MvccLeafNode.entries n = l1 ++ (k, c) :: l2 ->
  MvccLeafNode.entries (MvccLeafNode.alter_chain n (length l1) f) = l1 ++ (k, f c) :: l2.
Proof.
  intros He. unfold MvccLeafNode.alter_chain. simpl. rewrite He.
  rewrite alter_app_r_alt by lia. by rewrite Nat.sub_diag.
Qed.

Lemma leaf_replace_sorted n l1 k c c' l2 :
  leaf_sorted n -> MvccLeafNode.entries n = l1 ++ (k, c) :: l2 -> sorted_by fst (l1 ++ (k, c') :: l2).
Proof. unfold leaf_sorted. intros Hs He. rewrite He in Hs. by rewrite sorted_by_middle in *. Qed.

Lemma leaf_insert_map n k v ts :
  leaf_sorted n ->
  leaf_sorted (MvccLeafNode.insert n k v ts).1 /\
  leaf_map (MvccLeafNode.insert n k v ts).1 =
  <[k := VersionChain.add_version (default [] (leaf_map n !! k)) (Some v) ts]> (leaf_map n).
Proof.
  intros Hs. unfold MvccLeafNode.insert.
  destruct (leaf_find_cases n k Hs) as [(l1 & c & l2 & He & H1 & H2 & -> & _ & ->) | (l1 & l2 & He & H1 & H2 & -> & ->)].
  - unfold leaf_sorted, leaf_map. simpl fst. rewrite (alter_chain_app _ _ k c l2) by done.
    split; [by eapply leaf_replace_sorted|]. simpl. rewrite He. by apply to_map_replace.
  - unfold leaf_sorted, leaf_map in *. simpl. rewrite He in *. rewrite vec_insert_app. split.
    + by apply sorted_by_middle.
    + by apply to_map_insert.
Qed.

Lemma leaf_remove_map n k ts :
  leaf_sorted n ->
  leaf_sorted (MvccLeafNode.remove n k ts).1 /\
  leaf_map (MvccLeafNode.remove n k ts).1 =
  match leaf_map n !! k with
  | Some c => <[k := VersionChain.add_version c None ts]> (leaf_map n)
  | None => leaf_map n
  end.
Proof.
  intros Hs. unfold MvccLeafNode.remove.
  destruct (leaf_find_cases n k Hs) as [(l1 & c & l2 & He & H1 & H2 & -> & _ & ->) | (l1 & l2 & He & H1 & H2 & -> & ->)]; [|done].
  unfold leaf_sorted, leaf_map. simpl fst. rewrite (alter_chain_app _ _ k c l2) by done.
  split; [by eapply leaf_replace_sorted|]. rewrite He. by apply to_map_replace.
Qed.

Lemma leaf_map_chains n f :
  leaf_sorted n ->
  leaf_sorted (MvccLeafNode.map_chains n f) /\ leaf_map (MvccLeafNode.map_chains n f) = f <$> leaf_map n.
Proof.
  intros Hs. unfold leaf_sorted, leaf_map, MvccLeafNode.map_chains, sorted_by in *. simpl. split.
  - replace (map _ _) with (prod_map id f <$> MvccLeafNode.entries n).
    + rewrite <- list_fmap_compose. by erewrite list_fmap_ext.
    + done.
  - unfold to_map. by rewrite <- (list_to_map_fmap f).
Qed.

Lemma sorted_by_sublist {A} (pi : A -> list Z) l l' : l `sublist_of` l' -> sorted_by pi l' -> sorted_by pi l.
Proof. intros Hs. apply StronglySorted_sublist. induction Hs; by constructor. Qed.

Lemma filter_sublist_of {A} (f : A -> bool) l : List.filter f l `sublist_of` l.
Proof. induction l as [|x l IH]; cbn; [done|]. by destruct (f x); constructor. Qed.

Lemma leaf_rollback_map n created :
  leaf_sorted n ->
  leaf_sorted (MvccLeafNode.rollback_versions n created) /\
  leaf_map (MvccLeafNode.rollback_versions n created) =
  omap (fun c => match VersionChain.rollback_versions c created with [] => None | c' => Some c' end) (leaf_map n).
Proof.
  intros Hs. unfold MvccLeafNode.rollback_versions.
  destruct (leaf_map_chains n (fun c => VersionChain.rollback_versions c created) Hs) as [Hs' Hm].
  set (n' := MvccLeafNode.map_chains _ _) in *. clearbody n'. unfold leaf_sorted, leaf_map in *. simpl.
  assert (Hs2 : sorted_by fst (List.filter (fun e => negb (VersionChain.is_empty e.2)) (MvccLeafNode.entries n'))).
  { eapply sorted_by_sublist; [apply filter_sublist_of|done]. }
  split; [done|]. apply map_eq. intros k. rewrite lookup_omap. apply option_eq. intros c.
  rewrite (to_map_entry _ k c Hs2), list_elem_of_In, filter_In, <- list_elem_of_In.
  rewrite <- (to_map_entry _ k c Hs'), Hm, lookup_fmap.
  destruct (to_map (MvccLeafNode.entries n) !! k) as [c0|]; simpl; [|naive_solver].
  destruct (VersionChain.rollback_versions c0 created); simpl; naive_solver.
Qed.

Arguments VersionChain.add_version : simpl never.
Arguments VersionChain.commit_versions : simpl never.
Arguments VersionChain.rollback_versions : simpl never.
Arguments VersionChain.get : simpl never.
Arguments VersionChain.has_conflict : simpl never.
