(* ===== verification/MvccTxn.v ===== *)
(** * MVCC tree, transactions and the transaction manager

    Models nanograph-btree/src/mvcc_tree.rs ([MvccBPlusTree]) and
    nanograph-btree/src/mvcc_transaction.rs ([MvccTransaction],
    [MvccTransactionManager]).

    Transactions are shared objects ([Arc<MvccTransaction>]): the manager keeps
    every transaction it ever created in a store, and its [active_transactions]
    table is the set of ids still registered.  [HashMap] iteration order is a
    parameter: [hash_values] enumerates a write buffer in some order. *)

From Stdlib Require Import ZArith Lia.
From stdpp Require Import sorting gmap option strings base list.
From S2P Require Import Prelude BTreeError Mvcc.

Open Scope Z_scope.

Module MvccBPlusTree.

Record config : Type := mk_config {
  max_keys : nat;
  min_keys : nat;
  max_versions_per_key : nat
}.

Definition default_config : config := mk_config 128 64 10.

Record t : Type := mk {
  cfg : config;
  root : MvccLeafNode.t;
  next_node_id : Z;
  min_snapshot_ts : Z
}.

Definition new (c : config) : t := mk c (MvccLeafNode.new 0) 1 0.

Definition set_root (tr : t) (n : MvccLeafNode.t) : t :=
  mk (cfg tr) n (next_node_id tr) (min_snapshot_ts tr).

Definition insert (tr : t) (key value : list Z) (created_ts : Z) : t :=
  set_root tr (MvccLeafNode.insert (root tr) key value created_ts).1.

Definition get (tr : t) (key : list Z) (snapshot_ts : Z) : option (list Z) :=
  MvccLeafNode.get (root tr) key snapshot_ts.

Definition get_latest (tr : t) (key : list Z) : option (list Z) := MvccLeafNode.get_latest (root tr) key.

Definition delete (tr : t) (key : list Z) (created_ts : Z) : t * bool :=
  let '(n, old) := MvccLeafNode.remove (root tr) key created_ts in
  (set_root tr n, match old with Some _ => true | None => false end).

Definition commit_versions (tr : t) (created_ts commit_ts : Z) : t :=
  set_root tr (MvccLeafNode.commit_versions (root tr) created_ts commit_ts).

Definition rollback_versions (tr : t) (created_ts : Z) : t :=
  set_root tr (MvccLeafNode.rollback_versions (root tr) created_ts).

Definition has_conflict (tr : t) (key : list Z) (snapshot_ts : Z) : bool :=
  MvccLeafNode.has_conflict (root tr) key snapshot_ts.

Definition apply_write (n : MvccLeafNode.t) (created_ts : Z) (w : list Z * option (list Z)) : MvccLeafNode.t :=
  match w.2 with
  | Some v => (MvccLeafNode.insert n w.1 v created_ts).1
  | None => (MvccLeafNode.remove n w.1 created_ts).1
  end.

Definition atomic_commit (tr : t) (writes : list (list Z * option (list Z)))
    (snapshot_ts created_ts commit_ts : Z) : t * result BTreeError unit :=
  if existsb (fun w => MvccLeafNode.has_conflict (root tr) w.1 snapshot_ts) writes then
    (set_root tr (MvccLeafNode.rollback_versions (root tr) created_ts),
     Err (Internal "Write conflict detected for key: "))
  else
    let n := fold_left (fun n w => apply_write n created_ts w) writes (root tr) in
    (set_root tr (MvccLeafNode.commit_versions n created_ts commit_ts), Ok tt).

Definition update_min_snapshot_ts (tr : t) (min_ts : Z) : t :=
  mk (cfg tr) (root tr) (next_node_id tr) min_ts.

Definition gc_versions (tr : t) : t :=
  set_root tr (MvccLeafNode.gc_versions (root tr) (min_snapshot_ts tr) (max_versions_per_key (cfg tr))).

End MvccBPlusTree.

Inductive WriteOp : Type :=
| Put (key value : list Z)
| Delete (key : list Z).

Definition op_write (op : WriteOp) : list Z * option (list Z) :=
  match op with
  | Put k v => (k, Some v)
  | Delete k => (k, None)
  end.

Definition op_key (op : WriteOp) : list Z := (op_write op).1.

Module MvccTransaction.

Record t : Type := mk {
  id : Z;
  snapshot_ts : Z;
  write_buffer : gmap (list Z) WriteOp;
  active : bool
}.

Definition new (i snap : Z) : t := mk i snap ∅ true.

Definition not_active : BTreeError := Internal "Transaction is not active".

Definition get (tx : t) (tr : MvccBPlusTree.t) (key : list Z) : result BTreeError (option (list Z)) :=
  if negb (active tx) then Err not_active
  else
    match write_buffer tx !! key with
    | Some (Put _ v) => Ok (Some v)
    | Some (Delete _) => Ok None
    | None => Ok (MvccBPlusTree.get tr key (snapshot_ts tx))
    end.

Definition set_buffer (tx : t) (b : gmap (list Z) WriteOp) : t := mk (id tx) (snapshot_ts tx) b (active tx).
Definition deactivate (tx : t) : t := mk (id tx) (snapshot_ts tx) (write_buffer tx) false.

Definition put (tx : t) (key value : list Z) : t * result BTreeError unit :=
  if negb (active tx) then (tx, Err not_active)
  else (set_buffer tx (<[key := Put key value]> (write_buffer tx)), Ok tt).

Definition delete (tx : t) (key : list Z) : t * result BTreeError unit :=
  if negb (active tx) then (tx, Err not_active)
  else (set_buffer tx (<[key := Delete key]> (write_buffer tx)), Ok tt).

Section hash_order.
Context (hash_values : gmap (list Z) WriteOp -> list WriteOp).

Definition commit (tx : t) (tr : MvccBPlusTree.t) (commit_ts : Z)
    : t * MvccBPlusTree.t * result BTreeError unit :=
  if negb (active tx) then (tx, tr, Err not_active)
  else
    let writes := map op_write (hash_values (write_buffer tx)) in
    let '(tr', res) := MvccBPlusTree.atomic_commit tr writes (snapshot_ts tx) (id tx) commit_ts in
    (deactivate tx, tr', res).

End hash_order.

Definition rollback (tx : t) (tr : MvccBPlusTree.t) : t * MvccBPlusTree.t * result BTreeError unit :=
  if negb (active tx) then (tx, tr, Err not_active)
  else (deactivate (set_buffer tx ∅), MvccBPlusTree.rollback_versions tr (id tx), Ok tt).

End MvccTransaction.

Module MvccTransactionManager.

Record t : Type := mk {
  next_tx_id : Z;
  next_commit_ts : Z;
  active_transactions : gset Z;
  transactions : gmap Z MvccTransaction.t;
  tree : MvccBPlusTree.t;
  gc_counter : Z;
  gc_interval : Z
}.

Definition new (tr : MvccBPlusTree.t) : t := mk 1 1 ∅ ∅ tr 0 100.

Definition with_tree (m : t) (tr : MvccBPlusTree.t) : t :=
  mk (next_tx_id m) (next_commit_ts m) (active_transactions m) (transactions m) tr
     (gc_counter m) (gc_interval m).

Definition with_tx (m : t) (i : Z) (tx : MvccTransaction.t) : t :=
  mk (next_tx_id m) (next_commit_ts m) (active_transactions m) (<[i := tx]> (transactions m)) (tree m)
     (gc_counter m) (gc_interval m).

Definition unregister (m : t) (i : Z) : t :=
  mk (next_tx_id m) (next_commit_ts m) (active_transactions m ∖ {[ i ]}) (transactions m) (tree m)
     (gc_counter m) (gc_interval m).

(** [active.values().map(|tx| tx.snapshot_ts()).min()] *)
Definition min_active (m : t) : option Z :=
  foldr (fun i acc =>
           match transactions m !! i with
           | Some tx =>
               Some (match acc with
                     | Some a => Z.min (MvccTransaction.snapshot_ts tx) a
                     | None => MvccTransaction.snapshot_ts tx
                     end)
           | None => acc
           end) None (elements (active_transactions m)).

Definition update_min_snapshot_ts (m : t) : t :=
  with_tree m (MvccBPlusTree.update_min_snapshot_ts (tree m) (default (next_commit_ts m) (min_active m))).

Definition begin (m : t) : t * Z :=
  let tx_id := next_tx_id m in
  let snapshot_ts := if 0 <? next_commit_ts m then next_commit_ts m - 1 else 0 in
  let m1 := mk (u64 (next_tx_id m + 1)) (next_commit_ts m) ({[ tx_id ]} ∪ active_transactions m)
               (<[tx_id := MvccTransaction.new tx_id snapshot_ts]> (transactions m)) (tree m)
               (gc_counter m) (gc_interval m) in
  (update_min_snapshot_ts m1, tx_id).

(** Operations on the transaction object [i] held by a client. *)
Definition tx_get (m : t) (i : Z) (key : list Z) : option (result BTreeError (option (list Z))) :=
  tx ← transactions m !! i; Some (MvccTransaction.get tx (tree m) key).

Definition tx_put (m : t) (i : Z) (key value : list Z) : t :=
  match transactions m !! i with
  | Some tx => with_tx m i (MvccTransaction.put tx key value).1
  | None => m
  end.

Definition tx_delete (m : t) (i : Z) (key : list Z) : t :=
  match transactions m !! i with
  | Some tx => with_tx m i (MvccTransaction.delete tx key).1
  | None => m
  end.

(** The tail of [commit] after the transaction finished: unregister it, refresh
    the minimum snapshot, and collect every [gc_interval] commits. *)
Definition finish_commit (m : t) (i : Z) : t :=
  let m1 := update_min_snapshot_ts (unregister m i) in
  let c := u64 (gc_counter m1 + 1) in
  let should_gc := gc_interval m1 <=? c in
  let m2 := mk (next_tx_id m1) (next_commit_ts m1) (active_transactions m1) (transactions m1) (tree m1)
               (if should_gc then 0 else c) (gc_interval m1) in
  if should_gc then with_tree m2 (MvccBPlusTree.gc_versions (tree m2)) else m2.

Section hash_order.
Context (hash_values : gmap (list Z) WriteOp -> list WriteOp).

Definition commit (m : t) (i : Z) : option (t * result BTreeError unit) :=
  tx ← transactions m !! i;
  let ts := next_commit_ts m in
  let '(tx', tr', res) := MvccTransaction.commit hash_values tx (tree m) ts in
  let m1 := mk (next_tx_id m) (u64 (ts + 1)) (active_transactions m) (<[i := tx']> (transactions m)) tr'
               (gc_counter m) (gc_interval m) in
  Some (finish_commit m1 i, res).

End hash_order.

Definition rollback (m : t) (i : Z) : option (t * result BTreeError unit) :=
  tx ← transactions m !! i;
  let '(tx', tr', res) := MvccTransaction.rollback tx (tree m) in
  Some (update_min_snapshot_ts (unregister (with_tree (with_tx m i tx') tr') i), res).

Definition active_count (m : t) : nat := size (active_transactions m).

Definition gc (m : t) : t := with_tree m (MvccBPlusTree.gc_versions (tree m)).

End MvccTransactionManager.

(** ** Effect of a commit on the chains *)

(** One buffered write added to the chain of its key. *)
Definition write_chain (old : option VersionChain.t) (w : option (list Z)) (created : Z) : option VersionChain.t :=
  match w with
  | Some v => Some (VersionChain.add_version (default [] old) (Some v) created)
  | None => (fun c => VersionChain.add_version c None created) <$> old
  end.

Lemma apply_write_map n created k w :
  leaf_sorted n ->
  leaf_sorted (MvccBPlusTree.apply_write n created (k, w)) /\
  leaf_map (MvccBPlusTree.apply_write n created (k, w)) !! k = write_chain (leaf_map n !! k) w created /\
  (forall k', k' <> k -> leaf_map (MvccBPlusTree.apply_write n created (k, w)) !! k' = leaf_map n !! k').
Proof.
  intros Hs. unfold MvccBPlusTree.apply_write. destruct w as [v|]; simpl.
  - destruct (leaf_insert_map n k v created Hs) as [H1 ->]. split_and!; [done|by rewrite lookup_insert_eq|].
    intros k' Hk. by rewrite lookup_insert_ne.
  - destruct (leaf_remove_map n k created Hs) as [H1 ->]. destruct (leaf_map n !! k) eqn:E; simpl.
    + split_and!; [done|by rewrite lookup_insert_eq|]. intros k' Hk. by rewrite lookup_insert_ne.
    + done.
Qed.

Lemma fold_writes_map ws n created :
  leaf_sorted n -> NoDup ws.*1 ->
  let n' := fold_left (fun n w => MvccBPlusTree.apply_write n created w) ws n in
  leaf_sorted n' /\
  forall k, leaf_map n' !! k = match to_map ws !! k with
                               | Some w => write_chain (leaf_map n !! k) w created
                               | None => leaf_map n !! k
                               end.
Proof.
  revert n. induction ws as [|[k0 w] ws IH]; intros n Hs Hnd; cbn [fold_left].
  { split; [done|]. intros k. unfold to_map. simpl. by rewrite lookup_empty. }
  inversion Hnd as [|? ? Hnin Hnd']; subst.
  destruct (apply_write_map n created k0 w Hs) as (Hs1 & Heq & Hne).
  destruct (IH _ Hs1 Hnd') as [Hs2 Hm]. split; [done|]. intros k. rewrite Hm.
  unfold to_map. simpl. destruct (decide (k = k0)) as [->|Hk].
  - rewrite lookup_insert_eq, not_elem_of_list_to_map_1 by done. done.
  - by rewrite lookup_insert_ne, Hne by done.
Qed.

(** The chain of one key after an atomic commit. *)
Definition commit_chain (old : option VersionChain.t) (w : option (list Z)) (created ts : Z) : option VersionChain.t :=
  match w with
  | Some v => Some (VersionedValue.mk (Some v) created ts :: default [] old)
  | None => (fun c => VersionedValue.mk None created ts :: c) <$> old
  end.

Definition chains_ok (b : Z) (m : gmap (list Z) VersionChain.t) : Prop :=
  forall k c, m !! k = Some c -> c <> [] /\ chain_ok b c.

Lemma chain_ok_nil b : chain_ok b [].
Proof. split; constructor. Qed.

Lemma commit_leaf_map ws n created ts b :
  leaf_sorted n -> NoDup ws.*1 -> chains_ok b (leaf_map n) ->
  let n' := MvccLeafNode.commit_versions
              (fold_left (fun n w => MvccBPlusTree.apply_write n created w) ws n) created ts in
  leaf_sorted n' /\
  forall k, leaf_map n' !! k = match to_map ws !! k with
                               | Some w => commit_chain (leaf_map n !! k) w created ts
                               | None => leaf_map n !! k
                               end.
Proof.
  intros Hs Hnd Hok. destruct (fold_writes_map ws n created Hs Hnd) as [Hs' Hm].
  destruct (leaf_map_chains _ (fun c => VersionChain.commit_versions c created ts) Hs') as [Hs2 Hm2].
  split; [done|]. intros k. unfold MvccLeafNode.commit_versions. rewrite Hm2, lookup_fmap, Hm.
  specialize (Hok k). destruct (to_map ws !! k) as [[v|]|]; destruct (leaf_map n !! k) as [c|]; simpl; try done;
    try (destruct (Hok c eq_refl) as [_ Hc]).
  - by rewrite (commit_versions_add b).
  - by rewrite (commit_versions_add b) by apply chain_ok_nil.
  - by rewrite (commit_versions_add b).
  - by rewrite (commit_versions_committed b).
Qed.

Lemma commit_chain_ok old w created ts b c :
  0 < ts -> b <= ts -> (forall c0, old = Some c0 -> chain_ok b c0) ->
  commit_chain old w created ts = Some c -> c <> [] /\ chain_ok (ts + 1) c.
Proof.
  intros H0 Hb Hold Hc.
  assert (Hok : chain_ok b (default [] old)).
  { destruct old; simpl; [by apply Hold|apply chain_ok_nil]. }
  destruct w as [v|]; simpl in Hc; [|destruct old as [c0|]; [|done]]; injection Hc as <-; split; try done;
    by apply (chain_ok_cons b (VersionedValue.mk _ created ts)).
Qed.

(** What a reader at [ts'] sees of the chain of one key. *)
Definition chain_view (o : option VersionChain.t) (ts : Z) : option (list Z) :=
  match o with Some c => VersionChain.get c ts | None => None end.

Lemma tree_get_view tr k ts :
  leaf_sorted (MvccBPlusTree.root tr) ->
  MvccBPlusTree.get tr k ts = chain_view (leaf_map (MvccBPlusTree.root tr) !! k) ts.
Proof. apply mvcc_leaf_get_map. Qed.

Lemma commit_chain_view_old old w created ts ts' :
  ts' < ts -> chain_view (commit_chain old w created ts) ts' = chain_view old ts'.
Proof. intros H. destruct w, old; simpl chain_view; try done; by rewrite get_cons_old by (simpl; lia). Qed.

Lemma commit_chain_view_new old w created ts :
  0 < ts -> chain_view (commit_chain old w created ts) ts = w.
Proof. intros H. destruct w, old; simpl chain_view; try done; by rewrite get_cons_new by (simpl; lia). Qed.

Lemma chain_view_future b o ts ts' :
  (forall c, o = Some c -> chain_ok b c) -> b <= ts + 1 -> ts <= ts' -> chain_view o ts' = chain_view o ts.
Proof. intros Ho Hb Hts. destruct o; [|done]. simpl. by apply (get_below _ b); auto. Qed.

(** ** The manager's invariant *)

Abbreviation mgr := MvccTransactionManager.t.
Abbreviation txn := MvccTransaction.t.
Abbreviation mgr_root m := (MvccBPlusTree.root (MvccTransactionManager.tree m)).
Abbreviation mgr_chains m := (leaf_map (mgr_root m)).

(** A stored transaction: its id is its key in the store, its snapshot lies in
    the committed past, and the buffer files each operation under its own key. *)
Definition tx_ok (m : mgr) (i : Z) (tx : txn) : Prop :=
  MvccTransaction.id tx = i /\ 0 < i < MvccTransactionManager.next_tx_id m /\
  0 <= MvccTransaction.snapshot_ts tx < MvccTransactionManager.next_commit_ts m /\
  (forall k op, MvccTransaction.write_buffer tx !! k = Some op -> op_key op = k).

Record mgr_ok (m : mgr) : Prop := {
  ok_sorted : leaf_sorted (mgr_root m);
  ok_chains : chains_ok (MvccTransactionManager.next_commit_ts m) (mgr_chains m);
  ok_created : forall k c v, mgr_chains m !! k = Some c -> v ∈ c ->
    VersionedValue.created_ts v < MvccTransactionManager.next_tx_id m /\
    (forall i tx, MvccTransactionManager.transactions m !! i = Some tx ->
       MvccTransaction.active tx = true -> VersionedValue.created_ts v <> i);
  ok_txs : forall i tx, MvccTransactionManager.transactions m !! i = Some tx -> tx_ok m i tx;
  ok_commit_ts : 0 < MvccTransactionManager.next_commit_ts m;
  ok_tx_id : 0 < MvccTransactionManager.next_tx_id m
}.

Lemma new_ok c : mgr_ok (MvccTransactionManager.new (MvccBPlusTree.new c)).
Proof.
  split; simpl; try lia.
  - apply sorted_by_nil.
  - intros k ch H. unfold leaf_map, to_map in H. simpl in H. by rewrite lookup_empty in H.
  - intros k ch v H. unfold leaf_map, to_map in H. simpl in H. by rewrite lookup_empty in H.
  - intros i tx H. by rewrite lookup_empty in H.
Qed.

(** Changes of the manager that only touch bookkeeping keep the invariant. *)
Definition same_core (m m' : mgr) : Prop :=
  mgr_root m' = mgr_root m /\
  MvccTransactionManager.transactions m' = MvccTransactionManager.transactions m /\
  MvccTransactionManager.next_tx_id m' = MvccTransactionManager.next_tx_id m /\
  MvccTransactionManager.next_commit_ts m' = MvccTransactionManager.next_commit_ts m.

Lemma same_core_ok m m' : same_core m m' -> mgr_ok m -> mgr_ok m'.
Proof.
  intros (Hr & Ht & Hi & Hc) [? ? ? ? ? ?].
  split; unfold tx_ok; rewrite ?Hr, ?Ht, ?Hi, ?Hc; done.
Qed.

Lemma update_min_core m : same_core m (MvccTransactionManager.update_min_snapshot_ts m).
Proof. done. Qed.

Lemma unregister_core m i : same_core m (MvccTransactionManager.unregister m i).
Proof. done. Qed.

Lemma gc_leaf_map n ms k :
  leaf_sorted n ->
  leaf_sorted (MvccLeafNode.gc_versions n ms k) /\
  leaf_map (MvccLeafNode.gc_versions n ms k) = (fun c => VersionChain.gc_versions c ms k) <$> leaf_map n.
Proof. apply leaf_map_chains. Qed.

Lemma gc_ok m : mgr_ok m -> mgr_ok (MvccTransactionManager.gc m).
Proof.
  intros [Hs Hch Hcr Htx Hc Hi].
  destruct (gc_leaf_map (mgr_root m) (MvccBPlusTree.min_snapshot_ts (MvccTransactionManager.tree m))
    (MvccBPlusTree.max_versions_per_key (MvccBPlusTree.cfg (MvccTransactionManager.tree m))) Hs) as [Hs' Hm].
  split; simpl; try done; rewrite Hm; intros k c; rewrite lookup_fmap;
    destruct (mgr_chains m !! k) as [c0|] eqn:E; simpl; try done.
  - intros [= <-]. destruct (Hch k c0 E) as [Hne Hok]. split.
    + rewrite gc_versions_head. by destruct c0.
    + eapply chain_ok_sublist; [apply gc_retain_sublist|done].
  - intros v [= <-] Hv. apply (Hcr k c0 v E). eapply elem_of_sublist; [exact Hv|apply gc_retain_sublist].
Qed.

Lemma finish_commit_cases m i :
  same_core m (MvccTransactionManager.finish_commit m i) \/
  exists m1, same_core m m1 /\ MvccTransactionManager.finish_commit m i = MvccTransactionManager.gc m1.
Proof.
  unfold MvccTransactionManager.finish_commit. destruct (_ <=? _) eqn:E; [|by left].
  right. eexists. split; [|reflexivity]. done.
Qed.

Lemma finish_commit_ok m i : mgr_ok m -> mgr_ok (MvccTransactionManager.finish_commit m i).
Proof.
  intros H. destruct (finish_commit_cases m i) as [Hc | (m1 & Hc & ->)]; [by eapply same_core_ok|].
  apply gc_ok. by eapply same_core_ok.
Qed.

Lemma finish_commit_no_gc m i :
  u64 (MvccTransactionManager.gc_counter m + 1) < MvccTransactionManager.gc_interval m ->
  same_core m (MvccTransactionManager.finish_commit m i).
Proof.
  intros H. unfold MvccTransactionManager.finish_commit. simpl.
  destruct (Z.leb_spec (MvccTransactionManager.gc_interval m) (u64 (MvccTransactionManager.gc_counter m + 1)));
    [lia|done].
Qed.

(** ** Each operation keeps the invariant *)

Definition buffer_ok (b : gmap (list Z) WriteOp) : Prop := forall k op, b !! k = Some op -> op_key op = k.

(** [Some w]: the buffer writes [w] ([None] deletes) to [k]. *)
Definition buffer_write (b : gmap (list Z) WriteOp) (k : list Z) : option (option (list Z)) :=
  (fun op => (op_write op).2) <$> b !! k.

Section hash_order.
Context (hash_values : gmap (list Z) WriteOp -> list WriteOp).
Context (hash_values_perm : forall b, hash_values b ≡ₚ (map_to_list b).*2).

Lemma hash_values_elem b op : op ∈ hash_values b <-> exists k, b !! k = Some op.
Proof using hash_values_perm.
  rewrite (hash_values_perm b), list_elem_of_fmap. split.
  - intros ([k op'] & -> & H). exists k. by apply elem_of_map_to_list.
  - intros (k & H). exists (k, op). split; [done|]. by apply elem_of_map_to_list.
Qed.

Lemma hash_writes_NoDup b : buffer_ok b -> NoDup (map op_write (hash_values b)).*1.
Proof using hash_values_perm.
  intros Hb. change (map op_write (hash_values b)) with (op_write <$> hash_values b).
  rewrite (hash_values_perm b), <- !list_fmap_compose.
  erewrite (list_fmap_ext _ fst).
  - apply NoDup_fst_map_to_list.
  - intros i [k op] Hi. simpl. apply Hb. apply elem_of_map_to_list. by eapply list_elem_of_lookup_2.
Qed.

Lemma hash_writes_lookup b k : buffer_ok b -> to_map (map op_write (hash_values b)) !! k = buffer_write b k.
Proof using hash_values_perm.
  intros Hb. apply option_eq. intros w. unfold to_map, buffer_write.
  rewrite <- elem_of_list_to_map by (by apply hash_writes_NoDup).
  change (map op_write (hash_values b)) with (op_write <$> hash_values b). rewrite list_elem_of_fmap. split.
  - intros (op & Hw & (k' & Hk)%hash_values_elem). pose proof (Hb k' op Hk) as Hkey. unfold op_key in Hkey.
    rewrite <- Hw in Hkey. simpl in Hkey. subst k'. rewrite Hk. simpl. by rewrite <- Hw.
  - destruct (b !! k) as [op|] eqn:E; [|done]. intros [= <-]. exists op. split.
    + rewrite <- (Hb k op E) at 1. by destruct op.
    + apply hash_values_elem. by exists k.
Qed.

(** The three ways a commit can go. *)
Variant commit_outcome (m : mgr) (i : Z) (tx : txn) : MvccBPlusTree.t -> txn -> result BTreeError unit -> Prop :=
| commit_inactive :
    MvccTransaction.active tx = false ->
    commit_outcome m i tx (MvccTransactionManager.tree m) tx (Err MvccTransaction.not_active)
| commit_conflict tr' k op c :
    MvccTransaction.active tx = true ->
    MvccTransaction.write_buffer tx !! k = Some op -> mgr_chains m !! k = Some c ->
    VersionChain.has_conflict c (MvccTransaction.snapshot_ts tx) = true ->
    leaf_sorted (MvccBPlusTree.root tr') -> leaf_map (MvccBPlusTree.root tr') = mgr_chains m ->
    commit_outcome m i tx tr' (MvccTransaction.deactivate tx) (Err (Internal "Write conflict detected for key: "))
| commit_success tr' :
    MvccTransaction.active tx = true ->
    (forall k op c, MvccTransaction.write_buffer tx !! k = Some op -> mgr_chains m !! k = Some c ->
       VersionChain.has_conflict c (MvccTransaction.snapshot_ts tx) = false) ->
    leaf_sorted (MvccBPlusTree.root tr') ->
    (forall k, leaf_map (MvccBPlusTree.root tr') !! k =
       match buffer_write (MvccTransaction.write_buffer tx) k with
       | Some w => commit_chain (mgr_chains m !! k) w i (MvccTransactionManager.next_commit_ts m)
       | None => mgr_chains m !! k
       end) ->
    commit_outcome m i tx tr' (MvccTransaction.deactivate tx) (Ok tt).

Lemma rollback_leaf_map m i tx :
  mgr_ok m -> MvccTransactionManager.transactions m !! i = Some tx -> MvccTransaction.active tx = true ->
  leaf_sorted (MvccLeafNode.rollback_versions (mgr_root m) i) /\
  leaf_map (MvccLeafNode.rollback_versions (mgr_root m) i) = mgr_chains m.
Proof using.
  intros Hok Htx Hact. destruct (leaf_rollback_map (mgr_root m) i (ok_sorted _ Hok)) as [Hs ->].
  split; [done|]. apply map_eq. intros k. rewrite lookup_omap.
  destruct (mgr_chains m !! k) as [c|] eqn:E; simpl; [|done].
  rewrite rollback_versions_absent.
  - destruct (ok_chains _ Hok k c E) as [Hne _]. by destruct c.
  - apply Forall_forall. intros v Hv. by apply (proj2 (ok_created _ Hok k c v E Hv) i tx).
Qed.

Lemma commit_outcome_spec m i tx :
  mgr_ok m -> MvccTransactionManager.transactions m !! i = Some tx ->
  exists tr' tx' res,
    MvccTransaction.commit hash_values tx (MvccTransactionManager.tree m) (MvccTransactionManager.next_commit_ts m)
      = (tx', tr', res) /\ commit_outcome m i tx tr' tx' res.
Proof using hash_values_perm.
  intros Hok Htx. destruct (ok_txs _ Hok i tx Htx) as (Hid & _ & _ & Hbuf).
  unfold MvccTransaction.commit, MvccBPlusTree.atomic_commit. rewrite Hid.
  destruct (MvccTransaction.active tx) eqn:Hact; simpl.
  2:{ do 3 eexists. split; [done|]. by constructor. }
  destruct (existsb _ _) eqn:Ec.
  - do 3 eexists. split; [done|]. apply existsb_exists in Ec as ((k & w) & Hin & Hconf). simpl in Hconf.
    rewrite leaf_conflict_map in Hconf by apply Hok.
    destruct (mgr_chains m !! k) as [c|] eqn:Ek; [|done].
    apply list_elem_of_In, (elem_of_list_to_map_1 (M:=gmap _)) in Hin; [|by apply hash_writes_NoDup].
    pose proof (hash_writes_lookup _ k Hbuf) as Hw. unfold to_map in Hw. rewrite Hin in Hw.
    unfold buffer_write in Hw. destruct (MvccTransaction.write_buffer tx !! k) as [op|] eqn:Eb; [|done].
    destruct (rollback_leaf_map m i tx Hok Htx Hact). by apply (commit_conflict m i tx _ k op c).
  - do 3 eexists. split; [done|].
    destruct (commit_leaf_map (map op_write (hash_values (MvccTransaction.write_buffer tx))) (mgr_root m) i
      (MvccTransactionManager.next_commit_ts m) _ (ok_sorted _ Hok) (hash_writes_NoDup _ Hbuf) (ok_chains _ Hok)) as [Hs Hm].
    apply commit_success; try done.
    + intros k op c Eb Ek. destruct (VersionChain.has_conflict c _) eqn:Hc; [|done]. exfalso.
      rewrite <- not_true_iff_false in Ec. apply Ec, existsb_exists. exists (op_write op). split.
      * apply list_elem_of_In, list_elem_of_fmap_2, hash_values_elem. by exists k.
      * change (op_write op).1 with (op_key op). rewrite (Hbuf k op Eb), leaf_conflict_map by apply Hok. by rewrite Ek.
    + intros k. rewrite <- hash_writes_lookup by done. apply Hm.
Qed.
End hash_order.
