(* ===== verification/MvccIsolation.v ===== *)
(** * Snapshot isolation of the MVCC transaction manager

    Theorems over [MvccTxn]: the invariant is kept by every operation, a
    manager represents a history of database states that commits extend
    ([represents]), reads of a transaction are stable under any interleaving of
    other transactions, the first of two conflicting writers wins, and what the
    version garbage collector keeps and loses. *)

From Stdlib Require Import ZArith Lia.
From stdpp Require Import sorting gmap option strings base list.
From S2P Require Import Prelude BTreeError Mvcc MvccTxn.

Open Scope Z_scope.

Import MvccTransactionManager (next_tx_id, next_commit_ts, transactions, active_transactions, tree,
  gc_counter, gc_interval).

(** ** Events and runs *)

Inductive event : Type :=
| EBegin
| EPut (i : Z) (key value : list Z)
| EDelete (i : Z) (key : list Z)
| ECommit (i : Z)
| ERollback (i : Z)
| EGc.

(** The transaction an event acts for. *)
Definition actor (e : event) : option Z :=
  match e with
  | EBegin => None
  | EPut i _ _ | EDelete i _ | ECommit i | ERollback i => Some i
  | EGc => None
  end.

(** The next ids and timestamps do not wrap within the next operation. *)
Definition no_overflow (m : mgr) : Prop := next_tx_id m + 1 < 2 ^ 64 /\ next_commit_ts m + 1 < 2 ^ 64.

Section hash_order.
Context (hash_values : gmap (list Z) WriteOp -> list WriteOp).
Context (hash_values_perm : forall b, hash_values b ≡ₚ (map_to_list b).*2).

(** An event on a transaction the manager never created has no effect. *)
Definition step (m : mgr) (e : event) : mgr :=
  match e with
  | EBegin => (MvccTransactionManager.begin m).1
  | EPut i k v => MvccTransactionManager.tx_put m i k v
  | EDelete i k => MvccTransactionManager.tx_delete m i k
  | ECommit i => match MvccTransactionManager.commit hash_values m i with Some (m', _) => m' | None => m end
  | ERollback i => match MvccTransactionManager.rollback m i with Some (m', _) => m' | None => m end
  | EGc => MvccTransactionManager.gc m
  end.

Definition run (m : mgr) (es : list event) : mgr := fold_left step es m.

Lemma begin_ok m : mgr_ok m -> no_overflow m -> mgr_ok (MvccTransactionManager.begin m).1.
Proof using.
  intros [Hs Hch Hcr Htx Hc Hi] [Ho1 Ho2].
  assert (Hu : u64 (next_tx_id m + 1) = next_tx_id m + 1) by (apply wrap_small; lia).
  split; simpl; rewrite ?Hu; try done; try lia.
  - intros k c v Hk Hv. destruct (Hcr k c v Hk Hv) as [Hlt Hne]. split; [lia|].
    intros i tx. rewrite lookup_insert. case_decide as Hd; [intros _ _; subst; lia|apply Hne].
  - intros i tx. rewrite lookup_insert. case_decide as Hd.
    + intros [= <-]. subst i. destruct (Z.ltb_spec 0 (next_commit_ts m)); [|lia].
      unfold tx_ok. simpl. rewrite ?Hu. split_and!; try lia. intros k op Hk. by rewrite lookup_empty in Hk.
    + intros (H1 & H2 & H3 & H4)%Htx. unfold tx_ok. simpl. rewrite ?Hu. split_and!; try done; lia.
Qed.

(** Replacing a stored transaction by one with the same identity. *)
Lemma with_tx_ok m i tx tx' :
  mgr_ok m -> transactions m !! i = Some tx ->
  MvccTransaction.id tx' = MvccTransaction.id tx -> MvccTransaction.snapshot_ts tx' = MvccTransaction.snapshot_ts tx ->
  (MvccTransaction.active tx' = true -> MvccTransaction.active tx = true) ->
  buffer_ok (MvccTransaction.write_buffer tx') ->
  mgr_ok (MvccTransactionManager.with_tx m i tx').
Proof using.
  intros [Hs Hch Hcr Htx Hc Hi] Hm Hid Hsn Hact Hbuf. split; simpl; try done.
  - intros k c v Hk Hv. destruct (Hcr k c v Hk Hv) as [Hlt Hne]. split; [done|].
    intros j tx0. rewrite lookup_insert. case_decide as Hd.
    + intros [= <-] Ha. subst j. by apply (Hne i tx Hm), Hact.
    + apply Hne.
  - intros j tx0. rewrite lookup_insert. case_decide as Hd.
    + intros [= <-]. subst j. destruct (Htx i tx Hm) as (H1 & H2 & H3 & H4).
      unfold tx_ok. simpl. rewrite Hid, Hsn. done.
    + apply Htx.
Qed.

Lemma tx_put_ok m i k v : mgr_ok m -> mgr_ok (MvccTransactionManager.tx_put m i k v).
Proof using.
  intros Hok. unfold MvccTransactionManager.tx_put. destruct (transactions m !! i) as [tx|] eqn:E; [|done].
  unfold MvccTransaction.put. destruct (MvccTransaction.active tx) eqn:Ha; simpl;
    eapply with_tx_ok; try done; try congruence; destruct (ok_txs _ Hok i tx E) as (_ & _ & _ & Hb); try done.
  intros k' op. simpl. rewrite lookup_insert. case_decide; [|apply Hb]. by intros [= <-].
Qed.

Lemma tx_delete_ok m i k : mgr_ok m -> mgr_ok (MvccTransactionManager.tx_delete m i k).
Proof using.
  intros Hok. unfold MvccTransactionManager.tx_delete. destruct (transactions m !! i) as [tx|] eqn:E; [|done].
  unfold MvccTransaction.delete. destruct (MvccTransaction.active tx) eqn:Ha; simpl;
    eapply with_tx_ok; try done; try congruence; destruct (ok_txs _ Hok i tx E) as (_ & _ & _ & Hb); try done.
  intros k' op. simpl. rewrite lookup_insert. case_decide; [|apply Hb]. by intros [= <-].
Qed.

(** The manager between the tree commit and the tail of [commit]. *)
Definition after_commit (m : mgr) (i : Z) (tx' : txn) (tr' : MvccBPlusTree.t) : mgr :=
  MvccTransactionManager.mk (next_tx_id m) (u64 (next_commit_ts m + 1)) (active_transactions m)
    (<[i := tx']> (transactions m)) tr' (gc_counter m) (gc_interval m).

Lemma commit_unfold m i tx :
  mgr_ok m -> transactions m !! i = Some tx ->
  exists tr' tx' res, commit_outcome m i tx tr' tx' res /\
    MvccTransactionManager.commit hash_values m i =
      Some (MvccTransactionManager.finish_commit (after_commit m i tx' tr') i, res).
Proof using hash_values_perm.
  intros Hok Htx. destruct (commit_outcome_spec hash_values hash_values_perm m i tx Hok Htx) as (tr' & tx' & res & Hc & Ho).
  exists tr', tx', res. split; [done|]. unfold MvccTransactionManager.commit. rewrite Htx. simpl. by rewrite Hc.
Qed.

Lemma after_commit_chains m i tx tr' tx' res :
  mgr_ok m -> commit_outcome m i tx tr' tx' res ->
  leaf_sorted (MvccBPlusTree.root tr') /\
  chains_ok (next_commit_ts m + 1) (leaf_map (MvccBPlusTree.root tr')) /\
  (forall k c v, leaf_map (MvccBPlusTree.root tr') !! k = Some c -> v ∈ c ->
     VersionedValue.created_ts v = i \/ exists c0, mgr_chains m !! k = Some c0 /\ v ∈ c0).
Proof using.
  intros [Hs Hch Hcr Htx Hc Hi] Ho.
  assert (Hch' : chains_ok (next_commit_ts m + 1) (mgr_chains m)).
  { intros k c Hk. destruct (Hch k c Hk). split; [done|]. eapply chain_ok_mono; [|done]. lia. }
  destruct Ho as [_ | tr' k0 op c0 _ _ _ _ Hs' -> | tr' _ _ Hs' Hm]; [by split_and!; eauto..|].
  split_and!; [done| |].
  - intros k c. rewrite Hm. destruct (buffer_write _ k) as [w|]; [|apply Hch'].
    intros H. eapply (commit_chain_ok _ _ _ _ (next_commit_ts m)); try done. intros c0 E. by apply (Hch k).
  - intros k c v. rewrite Hm. destruct (buffer_write _ k) as [w|]; [|by eauto].
    destruct w as [x|], (mgr_chains m !! k) as [c0|]; simpl; try done; intros [= <-] [->|Hv]%elem_of_cons;
      eauto. by apply not_elem_of_nil in Hv.
Qed.

Lemma after_commit_ok m i tx tr' tx' res :
  mgr_ok m -> no_overflow m -> transactions m !! i = Some tx -> commit_outcome m i tx tr' tx' res ->
  mgr_ok (after_commit m i tx' tr').
Proof using.
  intros Hok [Ho1 Ho2] Hi Ho. destruct (after_commit_chains _ _ _ _ _ _ Hok Ho) as (Hs & Hch & Hv).
  assert (Hu : u64 (next_commit_ts m + 1) = next_commit_ts m + 1).
  { apply wrap_small. pose proof (ok_commit_ts _ Hok). lia. }
  destruct (ok_txs _ Hok i tx Hi) as (Hid & Hir & Hsn & Hb).
  assert (Htx' : MvccTransaction.id tx' = i /\ MvccTransaction.snapshot_ts tx' = MvccTransaction.snapshot_ts tx /\
                 MvccTransaction.active tx' = false /\ buffer_ok (MvccTransaction.write_buffer tx')).
  { destruct Ho; by split_and!. }
  destruct Htx' as (Hid' & Hsn' & Hact' & Hb').
  split; simpl; rewrite ?Hu; try done; try (pose proof (ok_commit_ts _ Hok); lia); try apply Hok.
  - intros k c v Hk Hin. destruct (Hv k c v Hk Hin) as [He | (c0 & Hc0 & Hin0)].
    + split; [lia|]. intros j tx0. rewrite lookup_insert. case_decide as Hd; [intros [= <-]; congruence|].
      intros _ _. congruence.
    + destruct (ok_created _ Hok k c0 v Hc0 Hin0) as [Hlt Hne]. split; [done|].
      intros j tx0. rewrite lookup_insert. case_decide; [intros [= <-]; congruence|apply Hne].
  - intros j tx0. rewrite lookup_insert. case_decide as Hd.
    + intros [= <-]. subst j. unfold tx_ok. simpl. rewrite ?Hu, Hsn'. split_and!; try done; lia.
    + intros (H1 & H2 & H3 & H4)%(ok_txs _ Hok). unfold tx_ok. simpl. rewrite ?Hu. split_and!; try done; lia.
Qed.

Lemma commit_ok m i m' res :
  mgr_ok m -> no_overflow m -> MvccTransactionManager.commit hash_values m i = Some (m', res) -> mgr_ok m'.
Proof using hash_values_perm.
  intros Hok Hno Hc. destruct (transactions m !! i) as [tx|] eqn:Hi.
  2:{ unfold MvccTransactionManager.commit in Hc. by rewrite Hi in Hc. }
  destruct (commit_unfold m i tx Hok Hi) as (tr' & tx' & res' & Ho & Hc'). rewrite Hc' in Hc. injection Hc as <- <-.
  apply finish_commit_ok. by eapply after_commit_ok.
Qed.

Lemma rollback_ok m i m' res :
  mgr_ok m -> MvccTransactionManager.rollback m i = Some (m', res) -> mgr_ok m'.
Proof using.
  intros Hok. unfold MvccTransactionManager.rollback. destruct (transactions m !! i) as [tx|] eqn:Hi; [|done]. simpl.
  destruct (ok_txs _ Hok i tx Hi) as (Hid & _ & _ & Hb). unfold MvccTransaction.rollback.
  destruct (MvccTransaction.active tx) eqn:Ha; simpl; intros [= <- <-];
    (eapply same_core_ok; [apply update_min_core|]); (eapply same_core_ok; [apply unregister_core|]).
  - rewrite Hid. destruct (rollback_leaf_map m i tx Hok Hi Ha) as [Hs Hm].
    assert (Hok1 : mgr_ok (MvccTransactionManager.with_tx m i (MvccTransaction.deactivate (MvccTransaction.set_buffer tx ∅)))).
    { by eapply with_tx_ok. }
    destruct Hok1 as [H1 H2 H3 H4 H5 H6]. split; simpl in *; try done; by rewrite Hm.
  - assert (Hok1 : mgr_ok (MvccTransactionManager.with_tx m i tx)) by (by eapply with_tx_ok).
    destruct Hok1 as [H1 H2 H3 H4 H5 H6]. by split.
Qed.

Lemma step_ok m e : mgr_ok m -> no_overflow m -> mgr_ok (step m e).
Proof using hash_values_perm.
  intros Hok Hno. destruct e as [|i k v|i k|i|i|]; unfold step; auto using begin_ok, tx_put_ok, tx_delete_ok, gc_ok.
  - destruct (MvccTransactionManager.commit hash_values m i) as [[m' r]|] eqn:E; [|done]. by eapply commit_ok.
  - destruct (MvccTransactionManager.rollback m i) as [[m' r]|] eqn:E; [|done]. by eapply rollback_ok.
Qed.

(** ** Histories

    [represents m h]: timestamp [ts] of the manager shows the database state
    [h !! ts]; timestamp 0 is the state before the first commit. *)

Definition represents (m : mgr) (h : list (gmap (list Z) (list Z))) : Prop :=
  Z.of_nat (length h) = next_commit_ts m /\
  forall ts db, h !! ts = Some db -> forall k, MvccBPlusTree.get (tree m) k (Z.of_nat ts) = db !! k.

(** A buffer applied to a database state. *)
Definition apply_buffer (b : gmap (list Z) WriteOp) (db : gmap (list Z) (list Z)) : gmap (list Z) (list Z) :=
  merge (fun op old => match op with Some o => (op_write o).2 | None => old end) b db.

Lemma apply_buffer_lookup b db k :
  apply_buffer b db !! k = match buffer_write b k with Some w => w | None => db !! k end.
Proof using.
  unfold apply_buffer, buffer_write. rewrite lookup_merge. unfold diag_None.
  by destruct (b !! k), (db !! k).
Qed.

Lemma tree_get_core m m' k ts : mgr_root m' = mgr_root m -> MvccBPlusTree.get (tree m') k ts = MvccBPlusTree.get (tree m) k ts.
Proof using. unfold MvccBPlusTree.get. by intros ->. Qed.

(** What readers at [ts] see after the tree part of a commit. *)
Lemma commit_view m i tx tr' tx' res k ts :
  mgr_ok m -> commit_outcome m i tx tr' tx' res -> ts <= next_commit_ts m ->
  MvccBPlusTree.get tr' k ts =
  if (ts =? next_commit_ts m) && is_ok res
  then match buffer_write (MvccTransaction.write_buffer tx) k with
       | Some w => w
       | None => MvccBPlusTree.get (tree m) k (next_commit_ts m - 1)
       end
  else MvccBPlusTree.get (tree m) k ts.
Proof using.
  intros Hok Ho Hts. pose proof (ok_commit_ts _ Hok) as H0.
  destruct (after_commit_chains _ _ _ _ _ _ Hok Ho) as (Hs & _ & _).
  rewrite !tree_get_view by (done || apply Hok).
  assert (Hfut : forall t, next_commit_ts m - 1 <= t ->
    chain_view (mgr_chains m !! k) t = chain_view (mgr_chains m !! k) (next_commit_ts m - 1)).
  { intros t Ht. apply (chain_view_future (next_commit_ts m)); try lia. intros c Hc. by apply (ok_chains _ Hok k). }
  destruct Ho as [_ | tr' k0 op c0 _ _ _ _ Hs' Hm | tr' _ _ Hs' Hm]; simpl is_ok.
  - by rewrite andb_false_r.
  - by rewrite Hm, andb_false_r.
  - rewrite Hm, andb_true_r. destruct (Z.eqb_spec ts (next_commit_ts m)) as [->|Hne].
    + destruct (buffer_write _ k); [by apply commit_chain_view_new|]. by apply Hfut; lia.
    + destruct (buffer_write _ k); [|done]. apply commit_chain_view_old. lia.
Qed.

Lemma tree_get_future m k ts :
  mgr_ok m -> next_commit_ts m - 1 <= ts ->
  MvccBPlusTree.get (tree m) k ts = MvccBPlusTree.get (tree m) k (next_commit_ts m - 1).
Proof using.
  intros Hok Hts. rewrite !tree_get_view by apply Hok. apply (chain_view_future (next_commit_ts m)); try lia.
  intros c Hc. by apply (ok_chains _ Hok k).
Qed.

(** A commit that does not reach the collection interval appends one state to
    the history: the buffer applied to the last state, or the last state again
    when the commit was refused. *)
Lemma commit_history m i m' res tx h db :
  mgr_ok m -> no_overflow m -> u64 (gc_counter m + 1) < gc_interval m ->
  transactions m !! i = Some tx -> represents m h -> last h = Some db ->
  MvccTransactionManager.commit hash_values m i = Some (m', res) ->
  represents m' (h ++ [if is_ok res then apply_buffer (MvccTransaction.write_buffer tx) db else db]).
Proof using hash_values_perm.
  intros Hok [Ho1 Ho2] Hgc Hi [Hlen Hh] Hlast Hc.
  pose proof (ok_commit_ts _ Hok) as H0.
  assert (Hu : u64 (next_commit_ts m + 1) = next_commit_ts m + 1) by (apply wrap_small; lia).
  destruct (commit_unfold m i tx Hok Hi) as (tr' & tx' & res' & Ho & Hc'). rewrite Hc' in Hc. injection Hc as <- <-.
  destruct (finish_commit_no_gc (after_commit m i tx' tr') i Hgc) as (Hr & _ & _ & Hn).
  split.
  { rewrite Hn, length_app. simpl. rewrite Hu. lia. }
  intros ts db' Hts k. rewrite (tree_get_core _ _ _ _ Hr). simpl tree.
  assert (Hdb : MvccBPlusTree.get (tree m) k (next_commit_ts m - 1) = db !! k).
  { rewrite last_lookup in Hlast. rewrite <- (Hh _ _ Hlast). f_equal. lia. }
  destruct (decide (ts < length h)%nat) as [Hlt|Hge].
  - rewrite lookup_app_l in Hts by done. rewrite (commit_view m i tx tr' tx' res') by (done || lia).
    rewrite (proj2 (Z.eqb_neq _ _)) by lia. simpl. by apply Hh.
  - rewrite lookup_app_r in Hts by lia. apply list_lookup_singleton_Some in Hts as [Hz <-].
    assert (Z.of_nat ts = next_commit_ts m) as -> by lia.
    rewrite (commit_view m i tx tr' tx' res') by (done || lia). rewrite Z.eqb_refl. simpl.
    destruct (is_ok res'); [by rewrite apply_buffer_lookup, Hdb|]. rewrite tree_get_future, Hdb by (done || lia). done.
Qed.

(** ** Frame of one event *)

Lemma commit_frame m j m' res i k ts :
  mgr_ok m -> u64 (gc_counter m + 1) < gc_interval m -> 0 <= gc_counter m -> next_commit_ts m + 1 < 2 ^ 64 ->
  MvccTransactionManager.commit hash_values m j = Some (m', res) -> i <> j -> ts < next_commit_ts m ->
  transactions m' !! i = transactions m !! i /\
  MvccBPlusTree.get (tree m') k ts = MvccBPlusTree.get (tree m) k ts /\
  next_tx_id m' = next_tx_id m /\ next_commit_ts m' = next_commit_ts m + 1 /\
  gc_counter m' = u64 (gc_counter m + 1) /\ gc_interval m' = gc_interval m.
Proof using hash_values_perm.
  intros Hok Hgc Hg0 Hov Hc Hij Hts. destruct (transactions m !! j) as [tx|] eqn:Hj.
  2:{ unfold MvccTransactionManager.commit in Hc. by rewrite Hj in Hc. }
  pose proof (ok_commit_ts _ Hok) as H0.
  destruct (commit_unfold m j tx Hok Hj) as (tr' & tx' & res' & Ho & Hc'). rewrite Hc' in Hc. injection Hc as <- <-.
  destruct (finish_commit_no_gc (after_commit m j tx' tr') j Hgc) as (Hr & Ht & Hid & Hn).
  rewrite Ht, Hid, Hn, (tree_get_core _ _ _ _ Hr). simpl. split_and!.
  - by rewrite lookup_insert_ne.
  - rewrite (commit_view m j tx tr' tx' res') by (done || lia). by rewrite (proj2 (Z.eqb_neq _ _)) by lia.
  - done.
  - apply wrap_small. lia.
  - unfold MvccTransactionManager.finish_commit. simpl.
    destruct (Z.leb_spec (gc_interval m) (u64 (gc_counter m + 1))); [lia|done].
  - unfold MvccTransactionManager.finish_commit. simpl. by destruct (_ <=? _).
Qed.

Lemma rollback_frame m j m' res i k ts :
  mgr_ok m -> MvccTransactionManager.rollback m j = Some (m', res) -> i <> j ->
  transactions m' !! i = transactions m !! i /\
  MvccBPlusTree.get (tree m') k ts = MvccBPlusTree.get (tree m) k ts /\
  next_tx_id m' = next_tx_id m /\ next_commit_ts m' = next_commit_ts m /\
  gc_counter m' = gc_counter m /\ gc_interval m' = gc_interval m.
Proof using.
  intros Hok. unfold MvccTransactionManager.rollback. destruct (transactions m !! j) as [tx|] eqn:Hj; [|done]. simpl.
  destruct (ok_txs _ Hok j tx Hj) as (Hid & _). unfold MvccTransaction.rollback.
  destruct (MvccTransaction.active tx) eqn:Ha; simpl; intros [= <- <-] Hij; simpl;
    rewrite lookup_insert_ne by done; split_and!; try done.
  rewrite Hid. destruct (rollback_leaf_map m j tx Hok Hj Ha) as [Hs Hm].
  unfold MvccBPlusTree.get. simpl. rewrite !mvcc_leaf_get_map by (done || apply Hok). by rewrite Hm.
Qed.

(** Room for [n] more events before a counter wraps or a commit triggers the
    collector. *)
Definition room (n : nat) (m : mgr) : Prop :=
  0 <= gc_counter m /\ gc_counter m + Z.of_nat n < gc_interval m <= 2 ^ 63 /\
  next_tx_id m + Z.of_nat n < 2 ^ 64 /\ next_commit_ts m + Z.of_nat n < 2 ^ 64.

Definition foreign (i : Z) (e : event) : Prop := actor e <> Some i /\ e <> EGc.

Lemma step_frame n m e i k ts :
  mgr_ok m -> room (S n) m -> foreign i e -> i < next_tx_id m -> ts < next_commit_ts m ->
  transactions (step m e) !! i = transactions m !! i /\
  MvccBPlusTree.get (tree (step m e)) k ts = MvccBPlusTree.get (tree m) k ts /\
  i < next_tx_id (step m e) /\ ts < next_commit_ts (step m e) /\ room n (step m e).
Proof using hash_values_perm.
  intros Hok (Hg0 & Hg & Hn1 & Hn2) [Hact Hngc] Hi Hts. pose proof (ok_tx_id _ Hok) as Hid0.
  assert (Hu : u64 (gc_counter m + 1) = gc_counter m + 1) by (apply wrap_small; lia).
  destruct e as [|j k' v|j k'|j|j|]; simpl in Hact; unfold step, room; try done.
  - assert (Hu2 : u64 (next_tx_id m + 1) = next_tx_id m + 1) by (apply wrap_small; lia).
    simpl. rewrite Hu2, lookup_insert_ne by lia. split_and!; try done; lia.
  - unfold MvccTransactionManager.tx_put. destruct (transactions m !! j); simpl;
      rewrite ?lookup_insert_ne by congruence; split_and!; try done; lia.
  - unfold MvccTransactionManager.tx_delete. destruct (transactions m !! j); simpl;
      rewrite ?lookup_insert_ne by congruence; split_and!; try done; lia.
  - destruct (MvccTransactionManager.commit hash_values m j) as [[m' r]|] eqn:E; [|split_and!; try done; lia].
    destruct (commit_frame m j m' r i k ts) as (H1 & H2 & H3 & H4 & H5 & H6); try done; try lia; [congruence|].
    rewrite H1, H2, H3, H4, H5, H6, Hu. split_and!; try done; lia.
  - destruct (MvccTransactionManager.rollback m j) as [[m' r]|] eqn:E; [|split_and!; try done; lia].
    destruct (rollback_frame m j m' r i k ts) as (H1 & H2 & H3 & H4 & H5 & H6); try done; [congruence|].
    rewrite H1, H2, H3, H4, H5, H6. split_and!; try done; lia.
Qed.

Lemma room_no_overflow n m : room (S n) m -> no_overflow m.
Proof using. unfold room, no_overflow. lia. Qed.

Lemma run_frame es m i k ts :
  mgr_ok m -> room (length es) m -> Forall (foreign i) es -> i < next_tx_id m -> ts < next_commit_ts m ->
  transactions (run m es) !! i = transactions m !! i /\
  MvccBPlusTree.get (tree (run m es)) k ts = MvccBPlusTree.get (tree m) k ts.
Proof using hash_values_perm.
  revert m. induction es as [|e es IH]; intros m Hok Hroom HF Hi Hts; [done|].
  inversion HF as [|? ? He HF']; subst. cbn [run fold_left].
  destruct (step_frame (length es) m e i k ts Hok Hroom He Hi Hts) as (H1 & H2 & H3 & H4 & H5).
  destruct (IH (step m e)) as [H6 H7]; eauto using step_ok, room_no_overflow.
  unfold run in *. by rewrite H6, H7.
Qed.

(** The head of every chain survives the tail of a commit, collected or not. *)
Lemma finish_commit_head m i k v c :
  mgr_ok m -> mgr_chains m !! k = Some (v :: c) ->
  exists c', mgr_chains (MvccTransactionManager.finish_commit m i) !! k = Some (v :: c').
Proof using.
  intros Hok Hk. destruct (finish_commit_cases m i) as [(Hr & _) | (m1 & Hcore & ->)].
  - exists c. by rewrite Hr.
  - destruct Hcore as (Hr & _). simpl. rewrite Hr.
    destruct (gc_leaf_map (mgr_root m) (MvccBPlusTree.min_snapshot_ts (tree m1))
      (MvccBPlusTree.max_versions_per_key (MvccBPlusTree.cfg (tree m1))) (ok_sorted _ Hok)) as [_ ->].
    rewrite lookup_fmap, Hk. simpl. eauto.
Qed.

Lemma finish_commit_txs m i :
  transactions (MvccTransactionManager.finish_commit m i) = transactions m.
Proof using. unfold MvccTransactionManager.finish_commit. by destruct (_ <=? _). Qed.

(** The commit of [i] put a version of [k] at the head of its chain. *)
Lemma commit_head m i tx m' k key v :
  mgr_ok m -> no_overflow m -> transactions m !! i = Some tx ->
  MvccTransactionManager.commit hash_values m i = Some (m', Ok tt) ->
  MvccTransaction.write_buffer tx !! k = Some (Put key v) ->
  mgr_ok m' /\ (forall j, j <> i -> transactions m' !! j = transactions m !! j) /\
  exists x c, mgr_chains m' !! k = Some (x :: c) /\ VersionedValue.commit_ts x = next_commit_ts m.
Proof using hash_values_perm.
  intros Hok Hno Hi Hc Hb. split; [by eapply commit_ok|].
  destruct (commit_unfold m i tx Hok Hi) as (tr' & tx' & res' & Ho & Hc'). rewrite Hc' in Hc. injection Hc as <- Hres.
  split.
  { intros j Hj. rewrite finish_commit_txs. simpl. by rewrite lookup_insert_ne. }
  pose proof (after_commit_ok _ _ _ _ _ _ Hok Hno Hi Ho) as Hok'.
  destruct Ho as [ | | tr' _ _ _ Hm]; [done..|]. specialize (Hm k). unfold buffer_write in Hm.
  rewrite Hb in Hm. simpl in Hm.
  edestruct finish_commit_head as [c' Hc'']; [exact Hok'|exact Hm|]. eauto.
Qed.
End hash_order.

(** ** Properties *)




(** First-committer-wins is also the only reason to refuse: the commit of a
    live transaction returns [Ok] exactly when no key in its buffer has a
    version younger than its snapshot. *)
Theorem commit_succeeds_iff hash_values m i tx m' res :
  (forall b, hash_values b ≡ₚ (map_to_list b).*2) ->
  mgr_ok m -> transactions m !! i = Some tx -> MvccTransaction.active tx = true ->
  MvccTransactionManager.commit hash_values m i = Some (m', res) ->
  res = Ok tt <->
  (forall k op c v, MvccTransaction.write_buffer tx !! k = Some op -> mgr_chains m !! k = Some c -> v ∈ c ->
     VersionedValue.commit_ts v <= MvccTransaction.snapshot_ts tx).
Proof.
  intros Hp Hok Hi Hact Hc.
  destruct (commit_unfold hash_values Hp m i tx Hok Hi) as (tr' & tx' & res' & Ho & Hc'). rewrite Hc' in Hc.
  injection Hc as _ <-. destruct Ho as [Ha | tr' k op c _ Hb Hk Hconf _ _ | tr' _ Hno _ _]; [congruence| |].
  - split; [done|]. intros Hall. exfalso.
    destruct (ok_chains _ Hok k c Hk) as [_ Hch]. apply (has_conflict_iff _ _ _ Hch) in Hconf as (v & Hv & Hlt).
    specialize (Hall k op c v Hb Hk Hv). lia.
  - split; [|done]. intros _ k op c v Hb Hk Hv. specialize (Hno k op c Hb Hk).
    destruct (ok_txs _ Hok i tx Hi) as (_ & _ & Hs & _). destruct (ok_chains _ Hok k c Hk) as [_ Hch].
    destruct (no_conflict_bound _ c (MvccTransaction.snapshot_ts tx) Hch ltac:(lia) Hno) as [HF _].
    rewrite Forall_forall in HF. specialize (HF v Hv). simpl in HF. lia.
Qed.

Lemma u64_le x : 0 <= x -> u64 x <= x.
Proof. intros H. unfold u64, wrap. apply Z.mod_le; lia. Qed.

Lemma step_counters hash_values m e :
  mgr_ok m ->
  next_tx_id (step hash_values m e) <= next_tx_id m + 1 /\
  next_commit_ts (step hash_values m e) <= next_commit_ts m + 1.
Proof.
  intros Hok. pose proof (ok_tx_id _ Hok). pose proof (ok_commit_ts _ Hok).
  destruct e as [|i k v|i k|i|i|]; unfold step.
  - simpl. pose proof (u64_le (next_tx_id m + 1) ltac:(lia)). lia.
  - unfold MvccTransactionManager.tx_put. destruct (_ !! _); simpl; lia.
  - unfold MvccTransactionManager.tx_delete. destruct (_ !! _); simpl; lia.
  - unfold MvccTransactionManager.commit. destruct (transactions m !! i) as [tx|]; simpl; [|lia].
    destruct (MvccTransaction.commit _ _ _ _) as [[tx' tr'] res]. simpl.
    unfold MvccTransactionManager.finish_commit. simpl. pose proof (u64_le (next_commit_ts m + 1) ltac:(lia)).
    destruct (_ <=? _); simpl; lia.
  - unfold MvccTransactionManager.rollback. destruct (transactions m !! i) as [tx|]; simpl; [|lia].
    destruct (MvccTransaction.rollback _ _) as [[tx' tr'] res]. simpl. lia.
  - simpl. lia.
Qed.

Lemma run_ok hash_values es m :
  (forall b, hash_values b ≡ₚ (map_to_list b).*2) -> mgr_ok m ->
  next_tx_id m + Z.of_nat (length es) < 2 ^ 64 -> next_commit_ts m + Z.of_nat (length es) < 2 ^ 64 ->
  mgr_ok (run hash_values m es).
Proof.
  intros Hp. revert m. induction es as [|e es IH]; intros m Hok H1 H2; [done|].
  cbn [run fold_left]. destruct (step_counters hash_values m e Hok). simpl length in *.
  apply IH; try lia. apply step_ok; try done. split; lia.
Qed.

(** C4. Invariant of the manager: after any sequence of fewer than 2^63 events
    (begins, buffered writes, commits, rollbacks, collections) from an empty
    tree, keys are strictly sorted, every chain is nonempty, fully committed and
    ordered newest first with commit timestamps below the next one, no version
    belongs to a live transaction, and every snapshot lies in the past. *)
Theorem manager_invariant hash_values c es :
  (forall b, hash_values b ≡ₚ (map_to_list b).*2) -> Z.of_nat (length es) < 2 ^ 63 ->
  mgr_ok (run hash_values (MvccTransactionManager.new (MvccBPlusTree.new c)) es).
Proof. intros Hp Hlen. apply run_ok; [done|apply new_ok|simpl; lia..]. Qed.

(** C5. The collector never changes what a transaction begun now would read:
    the state at the latest timestamp is the same before and after [gc]. *)
Theorem gc_keeps_latest_state m k :
  mgr_ok m ->
  MvccBPlusTree.get (tree (MvccTransactionManager.gc m)) k (next_commit_ts m - 1) =
  MvccBPlusTree.get (tree m) k (next_commit_ts m - 1).
Proof.
  intros Hok. rewrite !tree_get_view by (apply gc_ok || apply Hok; done).
  destruct (gc_leaf_map (mgr_root m) (MvccBPlusTree.min_snapshot_ts (tree m))
    (MvccBPlusTree.max_versions_per_key (MvccBPlusTree.cfg (tree m))) (ok_sorted _ Hok)) as [_ Hm].
  simpl. rewrite Hm, lookup_fmap. destruct (mgr_chains m !! k) as [c|] eqn:E; [|done]. simpl.
  destruct (ok_chains _ Hok k c E) as [Hne Hch]. destruct c as [|v c]; [done|].
  apply chain_ok_inv in Hch as [Hv _]. rewrite gc_versions_head, !get_cons_new by lia. done.
Qed.

(** A version chain answers a snapshot read with the newest version
    committed at or before the snapshot: [get] returns [val] exactly when some
    visible version holds [val] and no visible version is younger. *)
Theorem chain_get_newest b c ts val :
  chain_ok b c ->
  VersionChain.get c ts = Some val <->
  exists v, v ∈ c /\ VersionedValue.is_visible v ts = true /\ VersionedValue.value v = Some val /\
            forall w, w ∈ c -> VersionedValue.is_visible w ts = true ->
                      VersionedValue.commit_ts w <= VersionedValue.commit_ts v.
Proof. apply chain_get_newest_gen. Qed.

(** ** Concrete runs *)

(** One iteration order that satisfies the hypothesis on [hash_values]. *)
Definition list_order (b : gmap (list Z) WriteOp) : list WriteOp := (map_to_list b).*2.

Lemma list_order_perm b : list_order b ≡ₚ (map_to_list b).*2.
Proof. done. Qed.

Definition demo_start : mgr := MvccTransactionManager.new (MvccBPlusTree.new MvccBPlusTree.default_config).

(** Key [1] set to [10] by transaction 1; 2 and 3 then run concurrently on it. *)
Definition demo_events : list event :=
  [EBegin; EPut 1 [1] [10]; ECommit 1; EBegin; EBegin; EPut 2 [1] [20]; EPut 3 [1] [30]].

Definition demo : mgr := run list_order demo_start demo_events.

Lemma demo_ok : mgr_ok demo.
Proof. apply run_ok; [apply list_order_perm|apply new_ok|by vm_compute..]. Qed.

(** The collector can drop the version an active transaction is reading:
    in a reachable state transaction 2 reads a value for a key, another
    transaction overwrites it, and after [gc] the same read returns [None]
    although transaction 2 is still registered with an older snapshot. *)
Theorem gc_loses_active_snapshot :
  exists es i k v,
    let m := run list_order demo_start es in
    mgr_ok m /\ i ∈ active_transactions m /\
    MvccTransactionManager.tx_get m i k = Some (Ok (Some v)) /\
    MvccTransactionManager.tx_get (MvccTransactionManager.gc m) i k = Some (Ok None).
Proof.
  exists [EBegin; EPut 1 [1] [10]; ECommit 1; EBegin; EBegin; EPut 3 [1] [30]; ECommit 3], 2, [1], [10].
  split; [apply run_ok; [apply list_order_perm|apply new_ok|by vm_compute..]|].
  split_and!; [by vm_compute..|]. by vm_compute.
Qed.

Definition demo_first : mgr := run list_order demo_start [EBegin; EPut 1 [1] [10]].

Lemma demo_first_ok : mgr_ok demo_first.
Proof. apply run_ok; [apply list_order_perm|apply new_ok|by vm_compute..]. Qed.

Lemma demo_first_represents : represents demo_first [∅].
Proof.
  split; [done|]. intros [|ts] db H; [|done]. injection H as <-. intros k. by rewrite lookup_empty.
Qed.




Lemma commit_succeeds_iff_witness :
  exists m' tx, MvccTransactionManager.commit list_order demo 2 = Some (m', Ok tt) /\
    (forall k op c v, MvccTransaction.write_buffer tx !! k = Some op -> mgr_chains demo !! k = Some c -> v ∈ c ->
       VersionedValue.commit_ts v <= MvccTransaction.snapshot_ts tx).
Proof.
  eexists _, _. split; [vm_compute; reflexivity|].
  eapply (commit_succeeds_iff list_order demo 2 _ _ (Ok tt) list_order_perm demo_ok).
  - vm_compute. reflexivity.
  - vm_compute. reflexivity.
  - vm_compute. reflexivity.
  - reflexivity.
Defined.

Lemma manager_invariant_witness :
  mgr_ok (run list_order (MvccTransactionManager.new (MvccBPlusTree.new MvccBPlusTree.default_config)) demo_events).
Proof. apply (manager_invariant list_order MvccBPlusTree.default_config demo_events list_order_perm). by vm_compute. Defined.

Lemma gc_keeps_latest_state_witness :
  MvccBPlusTree.get (tree (MvccTransactionManager.gc demo)) [1] 1 = Some [10].
Proof. transitivity (MvccBPlusTree.get (tree demo) [1] 1); [exact (gc_keeps_latest_state demo [1] demo_ok)|by vm_compute]. Defined.

Lemma chain_get_newest_witness :
  exists v, v ∈ [VersionedValue.mk (Some [30]) 3 2; VersionedValue.mk (Some [10]) 1 1] /\ VersionedValue.value v = Some [10].
Proof.
  destruct (proj1 (chain_get_newest 3 [VersionedValue.mk (Some [30]) 3 2; VersionedValue.mk (Some [10]) 1 1] 1 [10]
    ltac:(split; repeat constructor; simpl; lia)) eq_refl) as (v & Hv & _ & Hval & _).
  exists v. split; assumption.
Defined.
