(* ===== verification/BTreeNode.v ===== *)
(** * B+Tree nodes

    Models nanograph-btree/src/node.rs: [InternalNode], [LeafNode] and the
    [BPlusTreeNode] sum with their search, insertion, removal and split
    operations.  [None] of an operation that indexes, inserts into or splits a
    vector is the Rust panic. *)

From Stdlib Require Import ZArith Lia.
From stdpp Require Import sorting gmap option strings base list.
From S2P Require Import Prelude BTreeError.

Open Scope Z_scope.

Module InternalNode.

Record t : Type := mk {
  id : Z;
  keys : list (list Z);
  children : list Z;
  parent : option Z
}.

Definition new (i : Z) : t := mk i [] [] None.

Definition find_child_index (n : t) (key : list Z) : nat :=
  match binary_search_by (key_probe (fun k => k) key) (keys n) with
  | Found idx => idx + 1
  | NotFound idx => idx
  end.

Definition insert_key_child (n : t) (key : list Z) (child : Z) : option t :=
  let idx := match binary_search_by (key_probe (fun k => k) key) (keys n) with Found idx | NotFound idx => idx end in
  if (idx + 1 <=? length (children n))%nat
  then Some (mk (id n) (vec_insert idx key (keys n)) (vec_insert (idx + 1) child (children n)) (parent n))
  else None.

(** Returns the node left behind, the middle key and the new right node. *)
Definition split (n : t) : option (t * list Z * t) :=
  let mid := (length (keys n) / 2)%nat in
  match keys n !! mid with
  | None => None
  | Some middle_key =>
      if (mid + 1 <=? length (children n))%nat
      then Some (mk (id n) (take mid (keys n)) (take (mid + 1) (children n)) (parent n),
                 middle_key,
                 mk (id n) (drop (mid + 1) (keys n)) (drop (mid + 1) (children n)) (parent n))
      else None
  end.

Definition remove_key (n : t) (idx : nat) : t :=
  if (idx <? length (keys n))%nat then mk (id n) (vec_remove idx (keys n)) (children n) (parent n) else n.

Definition remove_child (n : t) (idx : nat) : t :=
  if (idx <? length (children n))%nat then mk (id n) (keys n) (vec_remove idx (children n)) (parent n) else n.

Definition replace_key (n : t) (idx : nat) (key : list Z) : t :=
  if (idx <? length (keys n))%nat then mk (id n) (<[idx := key]> (keys n)) (children n) (parent n) else n.

End InternalNode.

Module LeafNode.

Record t : Type := mk {
  id : Z;
  entries : list (list Z * list Z);
  next : option Z;
  prev : option Z;
  parent : option Z
}.

Definition new (i : Z) : t := mk i [] None None None.

Definition set_entries (n : t) (es : list (list Z * list Z)) : t := mk (id n) es (next n) (prev n) (parent n).

Definition find_key_index (n : t) (key : list Z) : SearchResult :=
  binary_search_by (key_probe fst key) (entries n).

Definition insert (n : t) (key value : list Z) : t * option (list Z) :=
  match find_key_index n key with
  | Found idx =>
      (set_entries n (alter (fun e => (e.1, value)) idx (entries n)), snd <$> entries n !! idx)
  | NotFound idx => (set_entries n (vec_insert idx (key, value) (entries n)), None)
  end.

Definition remove (n : t) (key : list Z) : t * option (list Z) :=
  match find_key_index n key with
  | Found idx => (set_entries n (vec_remove idx (entries n)), snd <$> entries n !! idx)
  | NotFound _ => (n, None)
  end.

Definition get (n : t) (key : list Z) : option (list Z) :=
  match find_key_index n key with
  | Found idx => snd <$> entries n !! idx
  | NotFound _ => None
  end.

Definition is_underfull (n : t) (min_entries : nat) : bool := (length (entries n) <? min_entries)%nat.

(** Both nodes after the call: [other] is emptied. *)
Definition merge (n other : t) : t * t :=
  (mk (id n) (entries n ++ entries other) (next other) (prev n) (parent n), set_entries other []).

Definition borrow_from_right (n rgt : t) : t * t * list Z :=
  match entries rgt with
  | entry :: rest => (set_entries n (entries n ++ [entry]), set_entries rgt rest, entry.1)
  | [] => (n, rgt, [])
  end.

Definition borrow_from_left (n lft : t) : t * t * list Z :=
  match last (entries lft) with
  | Some entry =>
      (set_entries n (entry :: entries n), set_entries lft (take (length (entries lft) - 1) (entries lft)), entry.1)
  | None => (n, lft, [])
  end.

(** Returns the node left behind, the separator and the new right node. *)
Definition split (n : t) : option (t * list Z * t) :=
  let mid := (length (entries n) / 2)%nat in
  match drop mid (entries n) with
  | [] => None
  | (middle_key, _) :: _ =>
      Some (set_entries n (take mid (entries n)), middle_key,
            mk (id n) (drop mid (entries n)) (next n) None (parent n))
  end.

End LeafNode.

Module BPlusTreeNode.

Inductive t : Type :=
| Internal (node : InternalNode.t)
| Leaf (node : LeafNode.t).

Definition new_leaf (i : Z) : t := Leaf (LeafNode.mk i [] None None None).
Definition new_internal (i : Z) : t := Internal (InternalNode.mk i [] [] None).

Definition id (n : t) : Z :=
  match n with Internal n => InternalNode.id n | Leaf n => LeafNode.id n end.

Definition parent (n : t) : option Z :=
  match n with Internal n => InternalNode.parent n | Leaf n => LeafNode.parent n end.

Definition set_parent (n : t) (p : option Z) : t :=
  match n with
  | Internal n => Internal (InternalNode.mk (InternalNode.id n) (InternalNode.keys n) (InternalNode.children n) p)
  | Leaf n => Leaf (LeafNode.mk (LeafNode.id n) (LeafNode.entries n) (LeafNode.next n) (LeafNode.prev n) p)
  end.

Definition is_leaf (n : t) : bool := match n with Leaf _ => true | _ => false end.
Definition is_internal (n : t) : bool := match n with Internal _ => true | _ => false end.

Definition key_count (n : t) : nat :=
  match n with
  | Internal n => length (InternalNode.keys n)
  | Leaf n => length (LeafNode.entries n)
  end.

Definition len (n : t) : nat := key_count n.
Definition is_empty (n : t) : bool := (len n =? 0)%nat.
Definition is_full (n : t) (order : nat) : bool := (order <=? key_count n)%nat.

Definition get (n : t) (key : list Z) : option (list Z) :=
  match n with Leaf n => LeafNode.get n key | _ => None end.

Definition insert_entry (n : t) (key value : list Z) : t * option (list Z) :=
  match n with
  | Leaf n => let '(n', old) := LeafNode.insert n key value in (Leaf n', old)
  | _ => (n, None)
  end.

Definition delete_entry (n : t) (key : list Z) : t * option (list Z) :=
  match n with
  | Leaf n => let '(n', old) := LeafNode.remove n key in (Leaf n', old)
  | _ => (n, None)
  end.

Definition get_child_for_key (n : t) (key : list Z) : option Z :=
  match n with
  | Internal n => InternalNode.children n !! InternalNode.find_child_index n key
  | _ => None
  end.

Definition insert_internal_entry (n : t) (key : list Z) (child : Z) : option t :=
  match n with
  | Internal n => Internal <$> InternalNode.insert_key_child n key child
  | _ => Some n
  end.

Definition get_all_children (n : t) : list Z :=
  match n with Internal n => InternalNode.children n | _ => [] end.

(** [Ok (self after the call, separator, new node)]. *)
Definition split_leaf (n : t) (new_node_id : Z) : result string (t * list Z * t) :=
  match n with
  | Leaf node =>
      match LeafNode.split node with
      | None => Panic
      | Some (lft, separator_key, rgt) =>
          Ok (Leaf (LeafNode.mk (LeafNode.id lft) (LeafNode.entries lft) (Some new_node_id)
                                (LeafNode.prev lft) (LeafNode.parent lft)),
              separator_key,
              Leaf (LeafNode.mk new_node_id (LeafNode.entries rgt) (LeafNode.next rgt)
                                (Some (LeafNode.id lft)) (LeafNode.parent lft)))
      end
  | _ => Err "Cannot split non-leaf node as leaf"%string
  end.

Definition split_internal (n : t) (new_node_id : Z) : result string (t * list Z * t) :=
  match n with
  | Internal node =>
      match InternalNode.split node with
      | None => Panic
      | Some (lft, separator_key, rgt) =>
          Ok (Internal lft, separator_key,
              Internal (InternalNode.mk new_node_id (InternalNode.keys rgt) (InternalNode.children rgt)
                                        (InternalNode.parent lft)))
      end
  | _ => Err "Cannot split non-internal node as internal"%string
  end.

End BPlusTreeNode.

(** ** Leaves as sorted association lists *)

Section leaf_lemmas.
Implicit Types (n : LeafNode.t) (k v : list Z).

Lemma leaf_get_map n k : sorted_by fst (LeafNode.entries n) ->
  LeafNode.get n k = to_map (LeafNode.entries n) !! k.
Proof.
  intros Hs. unfold LeafNode.get, LeafNode.find_key_index.
  destruct (search_key_view fst k _ Hs) as [l1 [k' v'] l2 Hl Hk H1 H2 | l1 l2 Hl H1 H2]; rewrite Hl.
  - simpl in Hk. subst k'. rewrite lookup_app_here. by rewrite to_map_middle_lookup.
  - by rewrite to_map_split_None.
Qed.

Lemma leaf_insert_spec n k v : sorted_by fst (LeafNode.entries n) ->
  exists l1 l2 es,
    LeafNode.insert n k v = (LeafNode.set_entries n es, to_map (LeafNode.entries n) !! k) /\
    es = l1 ++ (k, v) :: l2 /\ all_lt fst k l1 /\ all_gt fst k l2 /\
    sorted_by fst es /\ to_map es = <[k := v]> (to_map (LeafNode.entries n)) /\
    (forall e, e ∈ l1 ++ l2 -> e ∈ LeafNode.entries n).
Proof.
  intros Hs. unfold LeafNode.insert, LeafNode.find_key_index.
  destruct (search_key_view fst k _ Hs) as [l1 [k' v'] l2 Hl Hk H1 H2 | l1 l2 Hl H1 H2]; rewrite Hl in *.
  - simpl in Hk. subst k'. exists l1, l2, (l1 ++ (k, v) :: l2).
    rewrite lookup_app_here, to_map_middle_lookup by done.
    split_and!; try done.
    + do 2 f_equal. rewrite alter_app_r_alt, Nat.sub_diag by lia. done.
    + rewrite sorted_by_middle in *. naive_solver.
    + by apply to_map_replace.
    + intros e. rewrite !elem_of_app, elem_of_cons. naive_solver.
  - exists l1, l2, (l1 ++ (k, v) :: l2). rewrite vec_insert_app, to_map_split_None by done.
    split_and!; try done.
    + by rewrite sorted_by_middle.
    + by apply to_map_insert.
Qed.

Lemma leaf_remove_spec n k : sorted_by fst (LeafNode.entries n) ->
  exists es,
    LeafNode.remove n k = (LeafNode.set_entries n es, to_map (LeafNode.entries n) !! k) /\
    sorted_by fst es /\ to_map es = delete k (to_map (LeafNode.entries n)) /\
    (forall e, e ∈ es -> e ∈ LeafNode.entries n).
Proof.
  intros Hs. unfold LeafNode.remove, LeafNode.find_key_index.
  destruct (search_key_view fst k _ Hs) as [l1 [k' v'] l2 Hl Hk H1 H2 | l1 l2 Hl H1 H2]; rewrite Hl in *.
  - simpl in Hk. subst k'. exists (l1 ++ l2). rewrite lookup_app_here, vec_remove_app, to_map_middle_lookup by done.
    split_and!; try done.
    + rewrite sorted_by_middle in Hs. naive_solver.
    + by apply to_map_delete.
    + intros e. rewrite !elem_of_app, elem_of_cons. naive_solver.
  - exists (l1 ++ l2). rewrite to_map_split_None by done. split_and!; try done.
    + rewrite <- Hl. by destruct n.
    + rewrite delete_id; [done|]. by apply to_map_split_None.
Qed.

(** A leaf of at least two entries splits into two non-empty halves. *)
Lemma leaf_split_spec n : (2 <= length (LeafNode.entries n))%nat ->
  exists es1 s v es2,
    LeafNode.entries n = es1 ++ (s, v) :: es2 /\ es1 <> [] /\
    LeafNode.split n = Some (LeafNode.set_entries n es1, s,
      LeafNode.mk (LeafNode.id n) ((s, v) :: es2) (LeafNode.next n) None (LeafNode.parent n)).
Proof.
  intros Hlen. unfold LeafNode.split. set (mid := (length (LeafNode.entries n) / 2)%nat).
  assert (1 <= mid < length (LeafNode.entries n))%nat as [H1 H2].
  { subst mid. split; [apply (Nat.div_le_lower_bound _ 2); lia | apply Nat.div_lt; lia]. }
  clearbody mid.
  destruct (drop mid (LeafNode.entries n)) as [|[s v] es2] eqn:Hd.
  { apply (f_equal length) in Hd. rewrite length_drop in Hd. simpl in Hd. lia. }
  exists (take mid (LeafNode.entries n)), s, v, es2. split_and!; try done.
  - by rewrite <- Hd, take_drop.
  - intros Hn. apply (f_equal length) in Hn. rewrite length_take in Hn. simpl in Hn. lia.
Qed.

Lemma internal_split_spec (n : InternalNode.t) :
  (1 <= length (InternalNode.keys n))%nat ->
  length (InternalNode.children n) = S (length (InternalNode.keys n)) ->
  exists ks1 s ks2 cs1 cs2,
    InternalNode.keys n = ks1 ++ s :: ks2 /\ InternalNode.children n = cs1 ++ cs2 /\
    length ks1 = (length (InternalNode.keys n) / 2)%nat /\
    length cs1 = S (length ks1) /\
    InternalNode.split n =
      Some (InternalNode.mk (InternalNode.id n) ks1 cs1 (InternalNode.parent n), s,
            InternalNode.mk (InternalNode.id n) ks2 cs2 (InternalNode.parent n)).
Proof.
  intros Hlen Hc. unfold InternalNode.split. set (mid := (length (InternalNode.keys n) / 2)%nat).
  assert (mid < length (InternalNode.keys n))%nat as Hm by (apply Nat.div_lt; lia).
  clearbody mid.
  destruct (lookup_lt_is_Some_2 _ _ Hm) as [s Hs]. rewrite Hs.
  rewrite (proj2 (Nat.leb_le _ _)) by lia.
  exists (take mid (InternalNode.keys n)), s, (drop (S mid) (InternalNode.keys n)),
    (take (S mid) (InternalNode.children n)), (drop (S mid) (InternalNode.children n)).
  rewrite !length_take, Nat.add_1_r. split_and!; try lia; try done.
  - symmetry. by apply take_drop_middle.
  - by rewrite take_drop.
Qed.
End leaf_lemmas.
