(* ===== verification/BTreeTree.v ===== *)
(** * The B+Tree

    Models nanograph-btree/src/tree.rs: nodes live in a map from ids to nodes
    and point to each other by id, so every operation is a state transformer
    over that map.  An operation that fails keeps the writes it made before the
    failing line, which [op] records by returning the state in every case.

    The loop of [find_leaf] and the mutual recursions
    [insert_into_parent]/[split_internal] and [handle_underflow]/
    [remove_from_parent] take fuel; [depth_fuel], one more than the number of
    nodes, is always enough (BTreeInsert.v, BTreeDelete.v). *)

From Stdlib Require Import ZArith Lia.
From stdpp Require Import sorting gmap option strings pretty base list.
From S2P Require Import Prelude BTreeError BTreeNode.

Open Scope Z_scope.

Module BPlusTree.

Record BPlusTreeConfig : Type := Config { max_keys : nat; min_keys : nat }.

Definition default_config : BPlusTreeConfig := Config 128 64.

Record t : Type := mk {
  config : BPlusTreeConfig;
  root_id : Z;
  nodes : gmap Z BPlusTreeNode.t;
  next_node_id : Z;
  leftmost_leaf : option Z
}.

Definition new (c : BPlusTreeConfig) : t := mk c 0 {[0 := BPlusTreeNode.new_leaf 0]} 1 (Some 0).

(** ** The state and error monad of [&self] methods *)

Definition op (A : Type) : Type := t -> result BTreeError A * t.

Definition ret {A} (a : A) : op A := fun s => (Ok a, s).
Definition fail {A} (e : BTreeError) : op A := fun s => (Err e, s).
Definition lift {A} (r : result BTreeError A) : op A := fun s => (r, s).

Definition bind {A B} (m : op A) (k : A -> op B) : op B :=
  fun s =>
    match m s with
    | (Ok a, s') => k a s'
    | (Err e, s') => (Err e, s')
    | (Panic, s') => (Panic, s')
    | (Timeout, s') => (Timeout, s')
    end.

Notation "x <~ m ;; k" := (bind m (fun x => k)) (at level 100, m at next level, right associativity).
Notation "' p <~ m ;; k" := (bind m (fun x => let 'p := x in k)) (at level 100, p pattern, m at next level, right associativity).
Notation "m ;;; k" := (bind m (fun _ => k)) (at level 100, right associativity).

Definition when (b : bool) (m : op unit) : op unit := if b then m else ret tt.

(** [split_leaf] and [split_internal] of a node return a [String] error, which
    [?] converts with [From<String>]. *)
Definition string_error {A} (r : result string A) : result BTreeError A :=
  match r with
  | Ok a => Ok a
  | Err m => Err (from_string m)
  | Panic => Panic
  | Timeout => Timeout
  end.

(** ** Node store *)

Definition clear : op unit := fun s => (Ok tt, mk (config s) 0 {[0 := BPlusTreeNode.new_leaf 0]} 1 (Some 0)).

Definition allocate_node_id : op Z :=
  fun s => (Ok (next_node_id s),
            mk (config s) (root_id s) (nodes s) (u64 (next_node_id s + 1)) (leftmost_leaf s)).

Definition not_found (node_id : Z) : BTreeError :=
  Internal ("Node BTreeNodeId(" +:+ pretty node_id +:+ ") not found").

Definition get_node (node_id : Z) : op BPlusTreeNode.t :=
  fun s => (ok_or (nodes s !! node_id) (not_found node_id), s).

Definition with_nodes (s : t) (m : gmap Z BPlusTreeNode.t) : t :=
  mk (config s) (root_id s) m (next_node_id s) (leftmost_leaf s).

Definition update_node (node : BPlusTreeNode.t) : op unit :=
  fun s => (Ok tt, with_nodes s (<[BPlusTreeNode.id node := node]> (nodes s))).

Definition remove_node (node_id : Z) : op unit :=
  fun s => (Ok tt, with_nodes s (delete node_id (nodes s))).

Definition set_root (r : Z) : op unit :=
  fun s => (Ok tt, mk (config s) r (nodes s) (next_node_id s) (leftmost_leaf s)).

Definition read {A} (f : t -> A) : op A := fun s => (Ok (f s), s).

Definition depth_fuel (s : t) : nat := S (size (nodes s)).

(** ** Lookup *)

Fixpoint find_leaf_loop (fuel : nat) (node_id : Z) (key : list Z) : op Z :=
  match fuel with
  | O => lift Timeout
  | S fuel' =>
      node <~ get_node node_id;;
      if BPlusTreeNode.is_leaf node then ret node_id
      else
        child <~ lift (ok_or (BPlusTreeNode.get_child_for_key node key) NodeNotFound);;
        find_leaf_loop fuel' child key
  end.

Definition find_leaf (node_id : Z) (key : list Z) : op Z :=
  fun s => find_leaf_loop (depth_fuel s) node_id key s.

Definition get (key : list Z) : op (option (list Z)) :=
  r <~ read root_id;;
  leaf_id <~ find_leaf r key;;
  leaf <~ get_node leaf_id;;
  ret (BPlusTreeNode.get leaf key).

(** ** Insertion *)

Definition set_child_parent (p : Z) (child_id : Z) : op unit :=
  child <~ get_node child_id;;
  update_node (BPlusTreeNode.set_parent child (Some p)).

Fixpoint for_each {A} (f : A -> op unit) (l : list A) : op unit :=
  match l with
  | [] => ret tt
  | x :: l' => f x;;; for_each f l'
  end.

Definition create_new_root (left_child : Z) (key : list Z) (right_child : Z) : op unit :=
  new_root_id <~ allocate_node_id;;
  let new_root := BPlusTreeNode.Internal (InternalNode.mk new_root_id [] [left_child] None) in
  new_root <~ lift (or_panic (BPlusTreeNode.insert_internal_entry new_root key right_child));;
  set_child_parent new_root_id left_child;;;
  set_child_parent new_root_id right_child;;;
  update_node new_root;;;
  set_root new_root_id.

(** [split_internal], with the recursive call of [insert_into_parent] as an argument. *)
Definition split_internal (insert_into_parent : Z -> list Z -> Z -> op unit) (internal : BPlusTreeNode.t) : op unit :=
  new_node_id <~ allocate_node_id;;
  '(internal, separator_key, new_internal) <~
    lift (string_error (BPlusTreeNode.split_internal internal new_node_id));;
  for_each (set_child_parent (BPlusTreeNode.id new_internal)) (BPlusTreeNode.get_all_children new_internal);;;
  update_node internal;;;
  update_node new_internal;;;
  match BPlusTreeNode.parent internal with
  | Some parent_id => insert_into_parent parent_id separator_key (BPlusTreeNode.id new_internal)
  | None => create_new_root (BPlusTreeNode.id internal) separator_key (BPlusTreeNode.id new_internal)
  end.

Fixpoint insert_into_parent (fuel : nat) (parent_id : Z) (key : list Z) (right_child : Z) : op unit :=
  match fuel with
  | O => lift Timeout
  | S fuel' =>
      parent <~ get_node parent_id;;
      parent <~ lift (or_panic (BPlusTreeNode.insert_internal_entry parent key right_child));;
      c <~ read config;;
      if BPlusTreeNode.is_full parent (max_keys c)
      then split_internal (insert_into_parent fuel') parent
      else update_node parent
  end.

Definition split_leaf (leaf : BPlusTreeNode.t) : op unit :=
  fuel <~ read depth_fuel;;
  new_node_id <~ allocate_node_id;;
  '(leaf, separator_key, new_leaf) <~ lift (string_error (BPlusTreeNode.split_leaf leaf new_node_id));;
  update_node leaf;;;
  update_node new_leaf;;;
  match BPlusTreeNode.parent leaf with
  | Some parent_id => insert_into_parent fuel parent_id separator_key (BPlusTreeNode.id new_leaf)
  | None => create_new_root (BPlusTreeNode.id leaf) separator_key (BPlusTreeNode.id new_leaf)
  end.

Definition insert (key value : list Z) : op unit :=
  r <~ read root_id;;
  leaf_id <~ find_leaf r key;;
  leaf <~ get_node leaf_id;;
  let '(leaf, _) := BPlusTreeNode.insert_entry leaf key value in
  c <~ read config;;
  if BPlusTreeNode.is_full leaf (max_keys c) then split_leaf leaf else update_node leaf.

(** ** Deletion and rebalancing *)

Definition position (x : Z) (l : list Z) : option nat := fst <$> list_find (fun y => y = x) l.

Definition no_parent : BTreeError := Internal "Node has no parent".
Definition mismatch : BTreeError := Internal "Node type mismatch".

Definition get_left_sibling (node parent : BPlusTreeNode.t) : option Z :=
  match parent with
  | BPlusTreeNode.Internal p =>
      match position (BPlusTreeNode.id node) (InternalNode.children p) with
      | Some (S pos) => InternalNode.children p !! pos
      | _ => None
      end
  | _ => None
  end.

Definition get_right_sibling (node parent : BPlusTreeNode.t) : option Z :=
  match parent with
  | BPlusTreeNode.Internal p =>
      match position (BPlusTreeNode.id node) (InternalNode.children p) with
      | Some pos => InternalNode.children p !! S pos
      | _ => None
      end
  | _ => None
  end.

Definition first_key (child : BPlusTreeNode.t) : option (list Z) :=
  match child with
  | BPlusTreeNode.Leaf l => fst <$> head (LeafNode.entries l)
  | BPlusTreeNode.Internal n => head (InternalNode.keys n)
  end.

Definition set_keys (n : InternalNode.t) (ks : list (list Z)) : InternalNode.t :=
  InternalNode.mk (InternalNode.id n) ks (InternalNode.children n) (InternalNode.parent n).

Definition set_children (n : InternalNode.t) (cs : list Z) : InternalNode.t :=
  InternalNode.mk (InternalNode.id n) (InternalNode.keys n) cs (InternalNode.parent n).

(** [pos > 0 && pos <= keys.len()]. *)
Definition has_left_key (pos : nat) (n : InternalNode.t) : bool :=
  ((0 <? pos) && (pos <=? length (InternalNode.keys n)))%nat.

Definition update_separator_key (parent_id child_id : Z) : op unit :=
  parent <~ get_node parent_id;;
  child <~ get_node child_id;;
  match parent with
  | BPlusTreeNode.Internal p =>
      match position child_id (InternalNode.children p) with
      | Some pos =>
          if has_left_key pos p then
            match first_key child with
            | Some new_separator =>
                update_node (BPlusTreeNode.Internal (set_keys p (<[(pos - 1)%nat := new_separator]> (InternalNode.keys p))))
            | None => ret tt
            end
          else ret tt
      | None => ret tt
      end
  | _ => ret tt
  end.

(** [Vec::pop]: the last element and the rest. *)
Definition pop {A} (l : list A) : option (A * list A) :=
  x ← last l; Some (x, take (length l - 1) l).

(** The rotation of [borrow_from_left] for internal nodes: node and sibling after it. *)
Definition rotate_from_left (internal left_internal : InternalNode.t) (parent_id : Z) :
    op (InternalNode.t * InternalNode.t) :=
  let node_id := InternalNode.id internal in
  parent <~ get_node parent_id;;
  match parent with
  | BPlusTreeNode.Internal p =>
      match position node_id (InternalNode.children p) with
      | Some pos =>
          if has_left_key pos p then
            separator <~ lift (or_panic (InternalNode.keys p !! (pos - 1)%nat));;
            let internal := set_keys internal (separator :: InternalNode.keys internal) in
            '(internal, left_internal) <~
              match pop (InternalNode.children left_internal) with
              | Some (child, rest) =>
                  set_child_parent node_id child;;;
                  ret (set_children internal (child :: InternalNode.children internal), set_children left_internal rest)
              | None => ret (internal, left_internal)
              end;;
            let '(left_internal, p) :=
              match pop (InternalNode.keys left_internal) with
              | Some (key, rest) =>
                  (set_keys left_internal rest, set_keys p (<[(pos - 1)%nat := key]> (InternalNode.keys p)))
              | None => (left_internal, p)
              end in
            update_node (BPlusTreeNode.Internal p);;;
            ret (internal, left_internal)
          else ret (internal, left_internal)
      | None => ret (internal, left_internal)
      end
  | _ => ret (internal, left_internal)
  end.

Definition borrow_from_left (node : BPlusTreeNode.t) (left_sibling_id : Z) : op unit :=
  left_sibling <~ get_node left_sibling_id;;
  let node_id := BPlusTreeNode.id node in
  parent_id <~ lift (ok_or (BPlusTreeNode.parent node) no_parent);;
  '(node, left_sibling) <~
    match node, left_sibling with
    | BPlusTreeNode.Leaf leaf, BPlusTreeNode.Leaf left_leaf =>
        match pop (LeafNode.entries left_leaf) with
        | Some (entry, rest) =>
            ret (BPlusTreeNode.Leaf (LeafNode.set_entries leaf (entry :: LeafNode.entries leaf)),
                 BPlusTreeNode.Leaf (LeafNode.set_entries left_leaf rest))
        | None => ret (node, left_sibling)
        end
    | BPlusTreeNode.Internal internal, BPlusTreeNode.Internal left_internal =>
        '(internal, left_internal) <~ rotate_from_left internal left_internal parent_id;;
        ret (BPlusTreeNode.Internal internal, BPlusTreeNode.Internal left_internal)
    | _, _ => fail mismatch
    end;;
  update_node left_sibling;;;
  update_node node;;;
  when (BPlusTreeNode.is_leaf node) (update_separator_key parent_id node_id).

(** The rotation of [borrow_from_right] for internal nodes. *)
Definition rotate_from_right (internal right_internal : InternalNode.t) (parent_id : Z) :
    op (InternalNode.t * InternalNode.t) :=
  let node_id := InternalNode.id internal in
  parent <~ get_node parent_id;;
  match parent with
  | BPlusTreeNode.Internal p =>
      match position node_id (InternalNode.children p) with
      | Some pos =>
          match InternalNode.keys p !! pos with
          | Some separator =>
            let internal := set_keys internal (InternalNode.keys internal ++ [separator]) in
            '(internal, right_internal) <~
              match InternalNode.children right_internal with
              | child :: rest =>
                  set_child_parent node_id child;;;
                  ret (set_children internal (InternalNode.children internal ++ [child]), set_children right_internal rest)
              | [] => ret (internal, right_internal)
              end;;
            let '(right_internal, p) :=
              match InternalNode.keys right_internal with
              | key :: rest => (set_keys right_internal rest, set_keys p (<[pos := key]> (InternalNode.keys p)))
              | [] => (right_internal, p)
              end in
            update_node (BPlusTreeNode.Internal p);;;
            ret (internal, right_internal)
          | None => ret (internal, right_internal)
          end
      | None => ret (internal, right_internal)
      end
  | _ => ret (internal, right_internal)
  end.

Definition borrow_from_right (node : BPlusTreeNode.t) (right_sibling_id : Z) : op unit :=
  right_sibling <~ get_node right_sibling_id;;
  parent_id <~ lift (ok_or (BPlusTreeNode.parent node) no_parent);;
  '(node, right_sibling) <~
    match node, right_sibling with
    | BPlusTreeNode.Leaf leaf, BPlusTreeNode.Leaf right_leaf =>
        match LeafNode.entries right_leaf with
        | entry :: rest =>
            ret (BPlusTreeNode.Leaf (LeafNode.set_entries leaf (LeafNode.entries leaf ++ [entry])),
                 BPlusTreeNode.Leaf (LeafNode.set_entries right_leaf rest))
        | [] => ret (node, right_sibling)
        end
    | BPlusTreeNode.Internal internal, BPlusTreeNode.Internal right_internal =>
        '(internal, right_internal) <~ rotate_from_right internal right_internal parent_id;;
        ret (BPlusTreeNode.Internal internal, BPlusTreeNode.Internal right_internal)
    | _, _ => fail mismatch
    end;;
  update_node right_sibling;;;
  update_node node;;;
  when (BPlusTreeNode.is_leaf right_sibling) (update_separator_key parent_id right_sibling_id).

(** [next.prev = Some(to)] on the leaf after a merged pair. *)
Definition relink_prev (next : option Z) (to : Z) : op unit :=
  match next with
  | None => ret tt
  | Some next_id =>
      next_leaf <~ get_node next_id;;
      update_node
        match next_leaf with
        | BPlusTreeNode.Leaf n =>
            BPlusTreeNode.Leaf (LeafNode.mk (LeafNode.id n) (LeafNode.entries n) (LeafNode.next n) (Some to) (LeafNode.parent n))
        | n => n
        end
  end.

(** Append [src] to [dst], pulling the separator at [sep_pos] down from the
    parent when the code's test [guard] allows it. *)
Definition merge_internal (dst src : InternalNode.t) (dst_id node_id parent_id : Z)
    (sep_pos : nat -> InternalNode.t -> option nat) : op InternalNode.t :=
  parent <~ get_node parent_id;;
  let pulled :=
    match parent with
    | BPlusTreeNode.Internal p =>
        pos ← position node_id (InternalNode.children p);
        i ← sep_pos pos p;
        InternalNode.keys p !! i
    | _ => None
    end in
  let dst := InternalNode.mk (InternalNode.id dst)
               (InternalNode.keys dst ++ from_option (fun k => [k]) [] pulled ++ InternalNode.keys src)
               (InternalNode.children dst ++ InternalNode.children src) (InternalNode.parent dst) in
  for_each (set_child_parent dst_id) (InternalNode.children dst);;;
  ret dst.

Section underflow.
(** The recursive call of [handle_underflow]. *)
Variable handle_underflow : BPlusTreeNode.t -> op unit.

Definition remove_from_parent (parent_id child_id : Z) : op unit :=
  parent <~ get_node parent_id;;
  let parent :=
    match parent with
    | BPlusTreeNode.Internal internal =>
        match position child_id (InternalNode.children internal) with
        | Some pos =>
            let internal := set_children internal (vec_remove pos (InternalNode.children internal)) in
            BPlusTreeNode.Internal
              (if has_left_key pos internal then set_keys internal (vec_remove (pos - 1) (InternalNode.keys internal))
               else if (pos =? 0)%nat then set_keys internal (vec_remove 0 (InternalNode.keys internal))
               else internal)
        | None => parent
        end
    | _ => parent
    end in
  let otherwise :=
    c <~ read config;;
    if ((BPlusTreeNode.len parent <? min_keys c)%nat && bool_decide (is_Some (BPlusTreeNode.parent parent)))
    then handle_underflow parent
    else update_node parent in
  match parent, BPlusTreeNode.parent parent with
  | BPlusTreeNode.Internal internal, None =>
      match InternalNode.children internal with
      | [new_root_id] =>
          new_root <~ get_node new_root_id;;
          update_node (BPlusTreeNode.set_parent new_root None);;;
          set_root new_root_id;;;
          remove_node parent_id
      | _ => otherwise
      end
  | _, _ => otherwise
  end.

Definition merge_with_left (node : BPlusTreeNode.t) (left_sibling_id : Z) : op unit :=
  left_sibling <~ get_node left_sibling_id;;
  let node_id := BPlusTreeNode.id node in
  parent_id <~ lift (ok_or (BPlusTreeNode.parent node) no_parent);;
  left_sibling <~
    match node, left_sibling with
    | BPlusTreeNode.Leaf leaf, BPlusTreeNode.Leaf left_leaf =>
        relink_prev (LeafNode.next leaf) left_sibling_id;;;
        ret (BPlusTreeNode.Leaf (LeafNode.mk (LeafNode.id left_leaf) (LeafNode.entries left_leaf ++ LeafNode.entries leaf)
                                             (LeafNode.next leaf) (LeafNode.prev left_leaf) (LeafNode.parent left_leaf)))
    | BPlusTreeNode.Internal internal, BPlusTreeNode.Internal left_internal =>
        merged <~ merge_internal left_internal internal left_sibling_id node_id parent_id
                    (fun pos p => if has_left_key pos p then Some (pos - 1)%nat else None);;
        ret (BPlusTreeNode.Internal merged)
    | _, _ => fail mismatch
    end;;
  update_node left_sibling;;;
  remove_node node_id;;;
  remove_from_parent parent_id node_id.

Definition merge_with_right (node : BPlusTreeNode.t) (right_sibling_id : Z) : op unit :=
  right_sibling <~ get_node right_sibling_id;;
  let node_id := BPlusTreeNode.id node in
  parent_id <~ lift (ok_or (BPlusTreeNode.parent node) no_parent);;
  node <~
    match node, right_sibling with
    | BPlusTreeNode.Leaf leaf, BPlusTreeNode.Leaf right_leaf =>
        relink_prev (LeafNode.next right_leaf) node_id;;;
        ret (BPlusTreeNode.Leaf (LeafNode.mk (LeafNode.id leaf) (LeafNode.entries leaf ++ LeafNode.entries right_leaf)
                                             (LeafNode.next right_leaf) (LeafNode.prev leaf) (LeafNode.parent leaf)))
    | BPlusTreeNode.Internal internal, BPlusTreeNode.Internal right_internal =>
        merged <~ merge_internal internal right_internal node_id node_id parent_id (fun pos _ => Some pos);;
        ret (BPlusTreeNode.Internal merged)
    | _, _ => fail mismatch
    end;;
  update_node node;;;
  remove_node right_sibling_id;;;
  remove_from_parent parent_id right_sibling_id.

End underflow.

(** [len() > min_keys] of a sibling, when there is one. *)
Definition can_lend (sibling : option Z) : op bool :=
  match sibling with
  | None => ret false
  | Some sibling_id =>
      n <~ get_node sibling_id;;
      c <~ read config;;
      ret (min_keys c <? BPlusTreeNode.len n)%nat
  end.

Fixpoint handle_underflow (fuel : nat) (node : BPlusTreeNode.t) : op unit :=
  match fuel with
  | O => lift Timeout
  | S fuel' =>
      parent_id <~ lift (ok_or (BPlusTreeNode.parent node) no_parent);;
      parent <~ get_node parent_id;;
      lends_left <~ can_lend (get_left_sibling node parent);;
      if lends_left then
        match get_left_sibling node parent with Some l => borrow_from_left node l | None => ret tt end
      else
        lends_right <~ can_lend (get_right_sibling node parent);;
        if lends_right then
          match get_right_sibling node parent with Some r => borrow_from_right node r | None => ret tt end
        else
          match get_left_sibling node parent, get_right_sibling node parent with
          | Some l, _ => merge_with_left (handle_underflow fuel') node l
          | None, Some r => merge_with_right (handle_underflow fuel') node r
          | None, None => update_node node
          end
  end.

Definition delete (key : list Z) : op bool :=
  r <~ read root_id;;
  leaf_id <~ find_leaf r key;;
  leaf <~ get_node leaf_id;;
  let '(leaf, deleted) := BPlusTreeNode.delete_entry leaf key in
  match deleted with
  | None => ret false
  | Some _ =>
      c <~ read config;;
      fuel <~ read depth_fuel;;
      (if ((BPlusTreeNode.len leaf <? min_keys c)%nat && bool_decide (is_Some (BPlusTreeNode.parent leaf)))
       then handle_underflow fuel leaf
       else update_node leaf);;;
      ret true
  end.

(** ** Statistics *)

Record BTreeStats : Type := Stats {
  num_keys : nat;
  num_internal_nodes : nat;
  num_leaf_nodes : nat;
  height : nat
}.

Fixpoint height_loop (fuel : nat) (s : t) (node : BPlusTreeNode.t) (h : nat) : nat :=
  match fuel with
  | O => h
  | S fuel' =>
      if BPlusTreeNode.is_internal node then
        match child_id ← BPlusTreeNode.get_child_for_key node []; nodes s !! child_id with
        | Some child => height_loop fuel' s child (h + 1)
        | None => h
        end
      else h
  end.

Definition stats (s : t) : BTreeStats :=
  let ns := snd <$> map_to_list (nodes s) in
  Stats (sum_list_with (fun n => if BPlusTreeNode.is_leaf n then BPlusTreeNode.len n else 0%nat) ns)
        (length (filter (fun n => BPlusTreeNode.is_internal n = true) ns))
        (length (filter (fun n => BPlusTreeNode.is_leaf n = true) ns))
        (match nodes s !! root_id s with
         | Some node => height_loop (depth_fuel s) s node 1
         | None => 0
         end).

(** ** Leaf chain *)

Definition get_leftmost_leaf : op Z :=
  l <~ read leftmost_leaf;; lift (ok_or l (Internal "No leftmost leaf")).

Definition get_leaf_entries (leaf_id : Z) : op (list (list Z * list Z)) :=
  leaf <~ get_node leaf_id;;
  match leaf with
  | BPlusTreeNode.Leaf leaf => ret (LeafNode.entries leaf)
  | BPlusTreeNode.Internal _ => fail (Internal "Not a leaf node")
  end.

Definition get_next_leaf (leaf_id : Z) : op (option Z) :=
  leaf <~ get_node leaf_id;;
  match leaf with
  | BPlusTreeNode.Leaf leaf => ret (LeafNode.next leaf)
  | BPlusTreeNode.Internal _ => fail (Internal "Not a leaf node")
  end.

Definition get_prev_leaf (leaf_id : Z) : op (option Z) :=
  leaf <~ get_node leaf_id;;
  match leaf with
  | BPlusTreeNode.Leaf leaf => ret (LeafNode.prev leaf)
  | BPlusTreeNode.Internal _ => fail (Internal "Not a leaf node")
  end.

End BPlusTree.
