(* ===== verification/BTreeShape.v ===== *)
(** * The shape of a B+Tree

    Key intervals, the [kids] relation between the routing keys and the
    children of an internal node, and the invariant of a node store: every
    node has an interval and a height, recorded in a ghost map, that agree with
    its parent's keys. *)

From Stdlib Require Import ZArith Lia.
From stdpp Require Import sorting gmap option strings base list.
From S2P Require Import Prelude BTreeError BTreeNode BTreeTree.

Open Scope Z_scope.

(** ** Key intervals: [None] is unbounded *)

Abbreviation bnd := (option (list Z)) (only parsing).

Definition above (lo : bnd) (k : list Z) : Prop := match lo with None => True | Some l => bytes_le l k end.
Definition below (k : list Z) (hi : bnd) : Prop := match hi with None => True | Some h => bytes_lt k h end.
Definition inside (lo hi : bnd) (k : list Z) : Prop := above lo k /\ below k hi.
(** [lo] is below [hi]; the empty key is the least one. *)
Definition gap (lo hi : bnd) : Prop := match hi with None => True | Some h => bytes_lt (default [] lo) h end.

(** A routing key at or below a lower end, at or above an upper end. *)
Definition key_le (x : list Z) (lo : bnd) : Prop := match lo with Some l => bytes_le x l | None => False end.
Definition key_ge (x : list Z) (hi : bnd) : Prop := match hi with Some h => bytes_le h x | None => False end.

Lemma bytes_le_trans a b c : bytes_le a b -> bytes_le b c -> bytes_le a c.
Proof.
  rewrite !bytes_le_lt_eq. intros [H1 | ->] [H2 | ->]; auto. left. eauto using bytes_lt_trans.
Qed.

Lemma key_le_above x lo k : key_le x lo -> above lo k -> bytes_le x k.
Proof. destruct lo; simpl; [|done]. apply bytes_le_trans. Qed.

Lemma key_le_gap x lo s : key_le x lo -> gap lo (Some s) -> bytes_lt x s.
Proof. destruct lo; simpl; [|done]. apply bytes_le_lt_trans. Qed.

Lemma key_ge_below x hi k : key_ge x hi -> below k hi -> bytes_lt k x.
Proof. destruct hi; simpl; [|done]. intros. eapply bytes_lt_le_trans; eauto. Qed.

Lemma key_ge_gap x hi s : key_ge x hi -> gap (Some s) hi -> bytes_lt s x.
Proof. destruct hi; simpl; [|done]. intros. eapply bytes_lt_le_trans; eauto. Qed.

Lemma bytes_le_nil k : bytes_le [] k.
Proof. by destruct k. Qed.

Lemma above_gap lo k k' : above lo k -> bytes_lt k k' -> gap lo (Some k').
Proof. destruct lo; simpl; intros; eapply bytes_le_lt_trans; eauto using bytes_le_nil. Qed.

Lemma gap_trans lo k hi : gap lo (Some k) -> gap (Some k) hi -> gap lo hi.
Proof. destruct hi; simpl; [|done]. apply bytes_lt_trans. Qed.

(** A non-empty interval holds its lower end. *)
Lemma gap_inside lo hi : gap lo hi -> inside lo hi (default [] lo).
Proof. intros Hg. split; [destruct lo; [apply bytes_le_refl|done]|by destruct hi]. Qed.

Lemma above_trans lo k k' : above lo k -> bytes_le k k' -> above lo k'.
Proof. destruct lo; simpl; [|done]. apply bytes_le_trans. Qed.

Lemma gap_above lo k : gap lo (Some k) -> above lo k.
Proof. destruct lo; simpl; [|done]. apply bytes_lt_le. Qed.

Lemma below_trans k k' hi : bytes_le k k' -> below k' hi -> below k hi.
Proof. destruct hi; simpl; [|done]. apply bytes_le_lt_trans. Qed.

(** ** Routing keys and children *)

Section kids.
Implicit Types (P : Z -> bnd -> bnd -> Prop) (ks : list (list Z)) (cs : list Z).

(** [ks] separates [cs] within [lo, hi): child [i] gets the interval between
    its neighbouring keys, of which [P] holds. *)
Fixpoint kids P (lo : bnd) ks cs (hi : bnd) : Prop :=
  match ks, cs with
  | [], [c] => P c lo hi
  | k :: ks', c :: cs' => P c lo (Some k) /\ kids P (Some k) ks' cs' hi
  | _, _ => False
  end.

Lemma kids_length P lo ks cs hi : kids P lo ks cs hi -> length cs = S (length ks).
Proof.
  revert lo cs. induction ks as [|k ks IH]; intros lo [|c cs]; simpl; try done.
  - by destruct cs.
  - intros [_ H]. f_equal. eauto.
Qed.

Lemma kids_app P lo ks1 k ks2 cs1 cs2 hi : length cs1 = S (length ks1) ->
  kids P lo (ks1 ++ k :: ks2) (cs1 ++ cs2) hi <-> kids P lo ks1 cs1 (Some k) /\ kids P (Some k) ks2 cs2 hi.
Proof.
  revert lo cs1. induction ks1 as [|k1 ks1 IH]; intros lo cs1 Hlen.
  - destruct cs1 as [|c [|]]; simpl in *; try lia. done.
  - destruct cs1 as [|c cs1]; simpl in *; [lia|]. rewrite IH by lia. tauto.
Qed.

Lemma kids_impl P P' lo ks cs hi :
  (forall c a b, c ∈ cs -> P c a b -> P' c a b) -> kids P lo ks cs hi -> kids P' lo ks cs hi.
Proof.
  revert lo cs. induction ks as [|k ks IH]; intros lo [|c cs] Himp; simpl; try done.
  - destruct cs; [|done]. apply Himp. apply list_elem_of_here.
  - intros [H1 H2]. split; [apply Himp; [apply list_elem_of_here|done]|].
    apply IH; [|done]. intros c' a b Hc. apply Himp. by apply list_elem_of_further.
Qed.

Section gaps.
Context (P : Z -> bnd -> bnd -> Prop) (HP : forall c a b, P c a b -> gap a b).

Lemma kids_gap lo ks cs hi : kids P lo ks cs hi -> gap lo hi /\ Forall (fun k => gap lo (Some k) /\ gap (Some k) hi) ks.
Proof using HP.
  revert lo cs. induction ks as [|k ks IH]; intros lo [|c cs]; simpl; try done.
  - destruct cs; [|done]. intros ?%HP. auto.
  - intros [H1%HP H2]. destruct (IH _ _ H2) as [H3 H4].
    split; [by eapply gap_trans|].
    constructor; [done|]. eapply Forall_impl; [exact H4|]. intros x [Hx ?]. split; [|done]. exact (gap_trans lo k (Some x) H1 Hx).
Qed.

Lemma kids_sorted lo ks cs hi : kids P lo ks cs hi -> sorted_by (fun k => k) ks.
Proof using HP.
  revert lo cs. induction ks as [|k ks IH]; intros lo [|c cs]; simpl; try done; intros H.
  { constructor. }
  destruct H as [_ H]. apply sorted_by_cons. split; [by eapply IH|].
  destruct (kids_gap _ _ _ _ H) as [_ HF]. eapply Forall_impl; [exact HF|]. by intros x [? _].
Qed.

(** The zipper at a child: its interval, where the keys around it lie, and that
    it may be replaced by any run of children over the same interval. *)
Lemma kids_at lo ks cs1 c cs2 hi : kids P lo ks (cs1 ++ c :: cs2) hi ->
  exists ks1 ks2 clo chi,
    ks = ks1 ++ ks2 /\ length ks1 = length cs1 /\ length ks2 = length cs2 /\ P c clo chi /\
    Forall (fun x => key_le x clo) ks1 /\ Forall (fun x => key_ge x chi) ks2 /\
    (forall k, inside clo chi k -> inside lo hi k) /\
    (forall x, key_le x lo -> key_le x clo) /\
    (forall P' ks' cs',
      (forall c' a b, c' ∈ cs1 ++ cs2 -> P c' a b -> P' c' a b) ->
      kids P' clo ks' cs' chi -> kids P' lo (ks1 ++ ks' ++ ks2) (cs1 ++ cs' ++ cs2) hi).
Proof using HP.
  revert lo ks. induction cs1 as [|c1 cs1 IH]; intros lo ks H.
  - destruct ks as [|k ks]; simpl in H.
    + destruct cs2; [|done]. exists [], [], lo, hi. split_and!; auto.
      intros P' ks' cs' _ HK. by rewrite !app_nil_r.
    + destruct H as [H1 H2]. exists [], (k :: ks), lo, (Some k).
      pose proof (kids_length _ _ _ _ _ H2) as Hlen.
      destruct (kids_gap _ _ _ _ H2) as [Hg HF].
      split_and!; simpl; auto; try (simpl; lia).
      * constructor; [apply bytes_le_refl|]. eapply Forall_impl; [exact HF|].
        intros x [Hx _]. by apply bytes_lt_le.
      * intros k' [Ha Hb]. split; [done|]. destruct hi; simpl in *; [|done]. eauto using bytes_lt_trans.
      * intros P' ks' cs' HPP HK. apply kids_app; [by eapply kids_length|]. split; [done|].
        eapply kids_impl; [|exact H2]. intros; eauto.
  - destruct ks as [|k ks]; simpl in H; [by destruct cs1|]. destruct H as [H1 H2].
    destruct (IH _ _ H2) as (ks1 & ks2 & clo & chi & -> & L1 & L2 & Hc & F1 & F2 & Hin & Hle & Hz).
    pose proof (HP _ _ _ H1) as Hg.
    exists (k :: ks1), ks2, clo, chi. split_and!; simpl; auto.
    + constructor; [|done]. apply Hle, bytes_le_refl.
    + intros x Hx. destruct (Hin _ Hx) as [Ha Hb]. split; [|done]. eapply above_trans; [|exact Ha]. by apply gap_above.
    + intros x Hx. apply Hle. destruct lo as [l|]; simpl in *; [|done].
      eapply bytes_le_trans; [exact Hx|]. by apply bytes_lt_le.
    + intros P' ks' cs' HPP HK. split.
      * apply HPP; [|done]. apply list_elem_of_here.
      * apply Hz; [|done]. intros c' a b Hc'. apply HPP. by apply list_elem_of_further.
Qed.

Lemma kids_elem lo ks cs hi c : kids P lo ks cs hi -> c ∈ cs ->
  exists a b, P c a b /\ (forall x, key_le x lo -> key_le x a).
Proof using HP.
  intros H (cs1 & cs2 & ->)%list_elem_of_split.
  destruct (kids_at _ _ _ _ _ _ H) as (ks1 & ks2 & a & b & _ & _ & _ & Hc & _ & _ & _ & Hle & _).
  exists a, b. auto.
Qed.

Lemma kids_NoDup lo ks cs hi :
  (forall c a b a' b', P c a b -> P c a' b' -> a = a' /\ b = b') -> kids P lo ks cs hi -> NoDup cs.
Proof using HP.
  intros Hfun. revert lo cs. induction ks as [|k ks IH]; intros lo [|c cs]; simpl; try done.
  - destruct cs; [|done]. intros _. apply NoDup_singleton.
  - intros [H1 H2]. constructor; [|by eapply IH]. intros Hc.
    destruct (kids_elem _ _ _ _ _ H2 Hc) as (a & b & Hcab & Hle).
    destruct (Hfun _ _ _ _ _ H1 Hcab) as [<- <-]. apply HP in H1.
    apply (bytes_lt_irrefl k). eapply key_le_gap; [|exact H1]. apply Hle, bytes_le_refl.
Qed.

(** The zipper at a run of children. *)
Lemma kids_seg lo ks1 kD ks2 cs1 D cs2 hi : length ks1 = length cs1 -> length D = S (length kD) ->
  kids P lo (ks1 ++ kD ++ ks2) (cs1 ++ D ++ cs2) hi ->
  exists clo chi, kids P clo kD D chi /\
    (forall P' kD' D', (forall c a b, c ∈ cs1 ++ cs2 -> P c a b -> P' c a b) -> length D' = S (length kD') ->
      kids P' clo kD' D' chi -> kids P' lo (ks1 ++ kD' ++ ks2) (cs1 ++ D' ++ cs2) hi).
Proof using.
  revert lo ks1. induction cs1 as [|c1 cs1 IH]; intros lo [|k1 ks1] Hlen HlenD H; simpl in *; try lia.
  - destruct ks2 as [|k2 ks2].
    + pose proof (kids_length _ _ _ _ _ H) as Hl. rewrite app_nil_r, length_app in Hl.
      destruct cs2 as [|]; [|simpl in Hl; lia]. rewrite !app_nil_r in H. exists lo, hi. split; [done|].
      intros P' kD' D' _ _ HK. by rewrite !app_nil_r.
    + apply kids_app in H as [H1 H2]; [|done]. exists lo, (Some k2). split; [done|].
      intros P' kD' D' HPP HlenD' HK. apply kids_app; [done|]. split; [done|].
      eapply kids_impl; [|exact H2]. auto.
  - destruct H as [H1 H2]. destruct (IH (Some k1) ks1) as (clo & chi & HK & Hz); [lia|done|done|].
    exists clo, chi. split; [done|]. intros P' kD' D' HPP HlenD' HK'. split.
    + apply HPP; [apply list_elem_of_here|done].
    + apply Hz; [|done..]. intros c a b Hc. apply HPP. by apply list_elem_of_further.
Qed.

(** Some child's interval holds any key of the node's interval. *)
Lemma kids_find lo ks cs hi k : kids P lo ks cs hi -> inside lo hi k ->
  exists c clo chi, c ∈ cs /\ P c clo chi /\ inside clo chi k.
Proof using.
  revert lo cs. induction ks as [|k1 ks IH]; intros lo [|c cs]; simpl; try done.
  - destruct cs; [|done]. intros H Hin. exists c, lo, hi. split_and!; auto. apply list_elem_of_here.
  - intros [H1 H2] Hin. destruct (bytes_lt_dec k k1) as [Hlt|Hge].
    + exists c, lo, (Some k1). split_and!; auto; [apply list_elem_of_here|]. by destruct Hin.
    + destruct (IH _ _ H2) as (c' & clo & chi & Hc & HPc & Hin').
      { destruct Hin. split; [|done]. simpl. by apply bytes_le_not_lt. }
      exists c', clo, chi. split_and!; auto. by apply list_elem_of_further.
Qed.
End gaps.
End kids.

(** ** Searching the routing keys *)

Lemma partition_length {A} (Q : A -> Prop) (l1 l2 l1' l2' : list A) :
  l1 ++ l2 = l1' ++ l2' ->
  Forall Q l1 -> Forall (fun x => ~ Q x) l2 -> Forall Q l1' -> Forall (fun x => ~ Q x) l2' ->
  length l1 = length l1'.
Proof.
  revert l1'. induction l1 as [|x l1 IH]; intros [|x' l1'] Heq H1 H2 H1' H2'; simpl in *; try done; subst.
  - apply Forall_cons_1 in H2 as [H2 _]. apply Forall_cons_1 in H1' as [H1' _]. done.
  - apply Forall_cons_1 in H2' as [H2' _]. apply Forall_cons_1 in H1 as [H1 _]. done.
  - injection Heq as <- Heq. f_equal. apply Forall_cons_1 in H1 as [_ H1]. apply Forall_cons_1 in H1' as [_ H1']. by apply IH.
Qed.

Lemma find_child_at (n : InternalNode.t) ks1 ks2 k :
  InternalNode.keys n = ks1 ++ ks2 -> sorted_by (fun k => k) (InternalNode.keys n) ->
  Forall (fun x => bytes_le x k) ks1 -> Forall (fun x => bytes_lt k x) ks2 ->
  InternalNode.find_child_index n k = length ks1.
Proof.
  intros Hk Hs H1 H2. unfold InternalNode.find_child_index.
  assert (H2' : Forall (fun x => ~ bytes_le x k) ks2).
  { eapply Forall_impl; [exact H2|]. intros x Hx Hle. by apply bytes_le_not_lt in Hle. }
  destruct (search_key_view _ k _ Hs) as [l1 x l2 Hl Hx L1 L2 | l1 l2 Hl L1 L2];
    assert (Forall (fun x => ~ bytes_le x k) l2)
      by (eapply Forall_impl; [exact L2|]; intros y Hy Hle; by apply bytes_le_not_lt in Hle);
    assert (Forall (fun x => bytes_le x k) l1)
      by (eapply Forall_impl; [exact L1|]; intros y Hy; by apply bytes_lt_le).
  - simpl in Hx. subst x. rewrite Hk in Hl.
    replace (length l1 + 1)%nat with (length (l1 ++ [k])) by (rewrite length_app; simpl; lia).
    symmetry. apply (partition_length (fun x => bytes_le x k) ks1 ks2 (l1 ++ [k]) l2); auto.
    + by rewrite <- app_assoc.
    + apply Forall_app. split; [done|]. constructor; [apply bytes_le_refl|done].
  - rewrite Hk in Hl. symmetry. by apply (partition_length (fun x => bytes_le x k) ks1 ks2 l1 l2).
Qed.

Lemma insert_key_child_at (n : InternalNode.t) ks1 ks2 cs1 c cs2 s new :
  InternalNode.keys n = ks1 ++ ks2 -> InternalNode.children n = cs1 ++ c :: cs2 ->
  length ks1 = length cs1 -> sorted_by (fun k => k) (InternalNode.keys n) ->
  Forall (fun x => bytes_lt x s) ks1 -> Forall (fun x => bytes_lt s x) ks2 ->
  InternalNode.insert_key_child n s new =
    Some (InternalNode.mk (InternalNode.id n) (ks1 ++ s :: ks2) (cs1 ++ c :: new :: cs2) (InternalNode.parent n)).
Proof.
  intros Hk Hc Hlen Hs H1 H2. unfold InternalNode.insert_key_child.
  assert (H2' : Forall (fun x => ~ bytes_lt x s) ks2).
  { eapply Forall_impl; [exact H2|]. intros x Hx Hlt. apply (bytes_lt_irrefl x). eauto using bytes_lt_trans. }
  assert (exists idx, match binary_search_by (key_probe (fun k => k) s) (InternalNode.keys n) with
    Found idx | NotFound idx => idx end = idx /\ idx = length ks1) as (idx & -> & ->).
  { eexists; split; [done|].
    destruct (search_key_view _ s _ Hs) as [l1 x l2 Hl Hx L1 L2 | l1 l2 Hl L1 L2].
    - exfalso. simpl in Hx. subst x. rewrite Hk in Hl.
      assert (s ∈ ks1 ++ ks2) as Hin by (rewrite Hl; apply elem_of_app; right; apply list_elem_of_here).
      apply elem_of_app in Hin as [Hin|Hin]; rewrite Forall_forall in *; apply (bytes_lt_irrefl s); eauto.
    - rewrite Hk in Hl. symmetry. apply (partition_length (fun x => bytes_lt x s) ks1 ks2 l1 l2); auto.
      eapply Forall_impl; [exact L2|]. intros y Hy Hlt. apply (bytes_lt_irrefl y). eauto using bytes_lt_trans. }
  rewrite Hk, Hc, vec_insert_app, (proj2 (Nat.leb_le _ _)) by (rewrite length_app; simpl; lia).
  rewrite Hlen. replace (length cs1 + 1)%nat with (length (cs1 ++ [c])) by (rewrite length_app; simpl; lia).
  rewrite (cons_middle c cs1 cs2), app_assoc, vec_insert_app, <- app_assoc. done.
Qed.
