(* ===== verification/BTreeInv.v ===== *)
(** * The B+Tree invariant and lookup

    [inv G root M]: the ghost map [G] gives every node of the store [M] an
    interval and a height that agree with the routing keys, parent pointers and
    leaf links.  Under it a key has one home leaf, [find_leaf] reaches it within
    [depth_fuel] steps, and [get] reads the finite map [contents]. *)

From Stdlib Require Import ZArith Lia.
From stdpp Require Import sorting gmap option strings fin_maps fin_map_dom base list.
From S2P Require Import Prelude BTreeError BTreeNode BTreeTree BTreeShape.

Open Scope Z_scope.

Abbreviation node := BPlusTreeNode.t.
Abbreviation store := (gmap Z node) (only parsing).
Abbreviation ghost := (gmap Z (option (list Z) * option (list Z) * nat)) (only parsing).

Implicit Types (s : BPlusTree.t) (G : ghost) (M : store) (lo hi : option (list Z)) (h : nat) (n : node).

Definition child_of G M (p : Z) (h : nat) (c : Z) lo hi : Prop :=
  G !! c = Some (lo, hi, h) /\ gap lo hi /\ exists m, M !! c = Some m /\ BPlusTreeNode.parent m = Some p.

(** A leaf's [next] is the leaf whose interval starts where this one ends. *)
Definition next_ok G M hi (nxt : option Z) : Prop :=
  match nxt with
  | None => hi = None
  | Some x => hi <> None /\ exists l hi', M !! x = Some (BPlusTreeNode.Leaf l) /\ G !! x = Some (hi, hi', 0%nat)
  end.

Definition shape_ok G M (i : Z) lo hi h (n : node) : Prop :=
  match n with
  | BPlusTreeNode.Leaf l =>
      h = 0%nat /\ sorted_by fst (LeafNode.entries l) /\
      Forall (fun e => inside lo hi e.1) (LeafNode.entries l) /\ next_ok G M hi (LeafNode.next l)
  | BPlusTreeNode.Internal n =>
      exists h', h = S h' /\ kids (child_of G M i h') lo (InternalNode.keys n) (InternalNode.children n) hi
  end.

Definition node_ok G M (i : Z) (n : node) : Prop :=
  exists lo hi h, G !! i = Some (lo, hi, h) /\ gap lo hi /\ BPlusTreeNode.id n = i /\ shape_ok G M i lo hi h n.

Definition has_parent M (i : Z) (n : node) : Prop :=
  exists p pn, BPlusTreeNode.parent n = Some p /\ M !! p = Some (BPlusTreeNode.Internal pn) /\
               i ∈ InternalNode.children pn.

Record inv G (root : Z) M : Prop := Inv {
  inv_node : forall i n, M !! i = Some n -> node_ok G M i n;
  inv_root : exists r h, M !! root = Some r /\ BPlusTreeNode.parent r = None /\ G !! root = Some (None, None, h);
  inv_parent : forall i n, M !! i = Some n -> i <> root -> has_parent M i n
}.

(** The entry [(k, v)] is in some leaf. *)
Definition has M (k v : list Z) : Prop :=
  exists i l, M !! i = Some (BPlusTreeNode.Leaf l) /\ (k, v) ∈ LeafNode.entries l.

(** The finite map the leaves hold. *)
Definition leaf_entries (n : node) : list (list Z * list Z) :=
  match n with BPlusTreeNode.Leaf l => LeafNode.entries l | _ => [] end.

Definition contents (s : BPlusTree.t) : gmap (list Z) (list Z) :=
  list_to_map (map_to_list (BPlusTree.nodes s) ≫= fun p => leaf_entries p.2).

Definition tree_ok (s : BPlusTree.t) : Prop :=
  (exists G, inv G (BPlusTree.root_id s) (BPlusTree.nodes s) /\
    exists i l hi, BPlusTree.leftmost_leaf s = Some i /\
      BPlusTree.nodes s !! i = Some (BPlusTreeNode.Leaf l) /\ G !! i = Some (None, hi, 0%nat)) /\
  (forall i n, BPlusTree.nodes s !! i = Some n -> 0 <= i < BPlusTree.next_node_id s) /\
  0 <= BPlusTree.next_node_id s < 2 ^ 64.

Lemma child_of_gap G M p h c lo hi : child_of G M p h c lo hi -> gap lo hi.
Proof. by intros (_ & ? & _). Qed.

(** ** Descending *)

Section lookup.
Context {G : ghost} {root : Z} {M : store} (I : inv G root M).

(** A child whose interval holds [k] is where the routing keys send [k]. *)
Lemma route p pn c m lo hi h k :
  M !! p = Some (BPlusTreeNode.Internal pn) -> c ∈ InternalNode.children pn ->
  M !! c = Some m -> G !! c = Some (lo, hi, h) -> inside lo hi k ->
  BPlusTreeNode.get_child_for_key (BPlusTreeNode.Internal pn) k = Some c /\
  exists lo' hi', G !! p = Some (lo', hi', S h) /\ inside lo' hi' k.
Proof using I.
  intros Hp Hc Hm HG Hin.
  destruct (inv_node _ _ _ I _ _ Hp) as (plo & phi & ph & HGp & Hgap & Hid & h' & -> & HK).
  apply list_elem_of_split in Hc as (cs1 & cs2 & Hcs).
  pose proof (kids_sorted _ (child_of_gap G M p h') _ _ _ _ HK) as Hsorted.
  rewrite Hcs in HK.
  destruct (kids_at _ (child_of_gap G M p h') _ _ _ _ _ _ HK)
    as (ks1 & ks2 & clo & chi & Hks & L1 & L2 & (HGc & _ & _) & F1 & F2 & Hsub & _ & _).
  rewrite HG in HGc. injection HGc as <- <- <-. split.
  - simpl. rewrite (find_child_at pn ks1 ks2 k); [|done|done| |].
    + by rewrite Hcs, L1, lookup_app_here.
    + eapply Forall_impl; [exact F1|]. intros x Hx. exact (key_le_above x _ k Hx (proj1 Hin)).
    + eapply Forall_impl; [exact F2|]. intros x Hx. exact (key_ge_below x _ k Hx (proj2 Hin)).
  - exists plo, phi. auto.
Qed.

Lemma find_leaf_down h : forall fuel s i n lo hi k,
  BPlusTree.nodes s = M -> (h < fuel)%nat -> M !! i = Some n -> G !! i = Some (lo, hi, h) -> inside lo hi k ->
  exists j l lo' hi', BPlusTree.find_leaf_loop fuel i k s = (Ok j, s) /\
    M !! j = Some (BPlusTreeNode.Leaf l) /\ G !! j = Some (lo', hi', 0%nat) /\ inside lo' hi' k.
Proof using I.
  induction h as [|h IH]; intros fuel s i n lo hi k HM Hf Hi HG Hin; (destruct fuel as [|fuel]; [lia|]);
    destruct (inv_node _ _ _ I _ _ Hi) as (lo' & hi' & h' & HG' & _ & _ & Hsh);
    rewrite HG in HG'; injection HG' as <- <- <-; cbn [BPlusTree.find_leaf_loop];
    unfold BPlusTree.bind, BPlusTree.get_node; rewrite HM, Hi; destruct n as [pn|l]; simpl.
  - by destruct Hsh as (? & ? & _).
  - by exists i, l, lo, hi.
  - destruct Hsh as (h' & [= <-] & HK).
    destruct (kids_find _ _ _ _ _ _ HK Hin) as (c & clo & chi & Hc & (HGc & _ & m & Hm & _) & Hcin).
    destruct (route i pn c m clo chi h k) as [Hroute _]; auto. simpl in Hroute.
    rewrite Hroute. simpl. eapply (IH fuel s c m); eauto. lia.
  - by destruct Hsh as (? & _).
Qed.

Lemma ghost_bound : exists B, forall i lo hi h, G !! i = Some (lo, hi, h) -> (h <= B)%nat.
Proof using.
  clear I. induction G as [|i [[lo hi] h] G' Hi [B HB]] using map_ind.
  - exists 0%nat. intros i lo hi h. by rewrite lookup_empty.
  - exists (max B h). intros j lo' hi' h'. destruct (decide (i = j)) as [->|].
    + rewrite lookup_insert_eq. intros [= <- <- <-]. lia.
    + rewrite lookup_insert_ne by done. intros H%HB. lia.
Qed.

(** Every node on the way from the root to [k] is reached. *)
Lemma find_leaf_through k s : BPlusTree.nodes s = M -> exists r h0 , G !! root = Some r /\ r.2 = h0 /\
  forall i n lo hi h, M !! i = Some n -> G !! i = Some (lo, hi, h) -> inside lo hi k ->
    (h <= h0)%nat /\ forall f, BPlusTree.find_leaf_loop (h0 - h + f) root k s = BPlusTree.find_leaf_loop f i k s.
Proof using I.
  intros HM. destruct (inv_root _ _ _ I) as (r & h0 & Hr & Hpar & HGr). exists (None, None, h0), h0.
  split_and!; [done..|]. destruct ghost_bound as [B HB].
  assert (Hd : forall d i n lo hi h, (B <= h + d)%nat ->
    M !! i = Some n -> G !! i = Some (lo, hi, h) -> inside lo hi k ->
    (h <= h0)%nat /\ forall f, BPlusTree.find_leaf_loop (h0 - h + f) root k s = BPlusTree.find_leaf_loop f i k s).
  { induction d as [|d IH]; intros i n lo hi h Hdh Hi HG Hin; (destruct (decide (i = root)) as [->|Hne];
      [rewrite HGr in HG; injection HG as <- <- <-; by rewrite Nat.sub_diag|]);
      destruct (inv_parent _ _ _ I _ _ Hi Hne) as (p & pn & Hp & HMp & Hc);
      destruct (route p pn i n lo hi h k) as (Hroute & lo' & hi' & HGp & Hin'); auto.
    - apply HB in HGp. lia.
    - destruct (IH p (BPlusTreeNode.Internal pn) lo' hi' (S h)) as [Hle Heq]; auto; [lia|].
      split; [lia|]. intros f. replace (h0 - h + f)%nat with (h0 - S h + S f)%nat by lia. rewrite Heq.
      cbn [BPlusTree.find_leaf_loop]. unfold BPlusTree.bind, BPlusTree.get_node. rewrite HM, HMp.
      cbn [ok_or BPlusTreeNode.is_leaf]. rewrite Hroute. done. }
  intros i n lo hi h. apply (Hd B). lia.
Qed.

Lemma height_size h : forall i n lo hi, M !! i = Some n -> G !! i = Some (lo, hi, h) ->
  exists L, NoDup L /\ length L = S h /\
    forall x, x ∈ L -> x ∈ dom M /\ exists lo' hi' h', G !! x = Some (lo', hi', h') /\ (h' <= h)%nat.
Proof using I.
  induction h as [|h IH]; intros i n lo hi Hi HG.
  - exists [i]. split_and!; [apply NoDup_singleton|done|]. intros x Hx. apply list_elem_of_singleton in Hx as ->.
    split; [by eapply elem_of_dom_2|]. eauto 10.
  - destruct (inv_node _ _ _ I _ _ Hi) as (lo' & hi' & h' & HG' & _ & _ & Hsh).
    rewrite HG in HG'. injection HG' as <- <- <-.
    destruct n as [pn|l]; [|by destruct Hsh as (? & _)]. destruct Hsh as (h' & [= <-] & HK).
    assert (exists c clo chi, child_of G M i h c clo chi) as (c & clo & chi & HGc & _ & m & Hm & _).
    { destruct (InternalNode.keys pn), (InternalNode.children pn) as [|c0 [|]]; simpl in HK; naive_solver. }
    destruct (IH c m clo chi) as (L & HN & HL & HLx); auto.
    exists (i :: L). split_and!; [|simpl; lia|].
    + constructor; [|done]. intros (_ & lo' & hi' & h' & Hx & Hle)%HLx. rewrite HG in Hx. injection Hx as <- <- <-. lia.
    + intros x [->|Hx]%elem_of_cons.
      * split; [by eapply elem_of_dom_2|]. eauto 10.
      * destruct (HLx x Hx) as (? & lo' & hi' & h' & ? & ?). split; [done|]. exists lo', hi', h'. split; [done|lia].
Qed.

Lemma height_lt_size h i n lo hi : M !! i = Some n -> G !! i = Some (lo, hi, h) -> (h < size M)%nat.
Proof using I.
  intros Hi HG. destruct (height_size h i n lo hi Hi HG) as (L & HN & HL & HLx).
  assert (list_to_set L ⊆ dom M) as Hsub.
  { intros x Hx%elem_of_list_to_set. by apply HLx. }
  apply subseteq_size in Hsub. rewrite size_dom, (size_list_to_set L HN) in Hsub. lia.
Qed.

(** The home leaf of a key, which [find_leaf] returns. *)
Lemma find_leaf_home s k : BPlusTree.nodes s = M ->
  exists j l lo hi, BPlusTree.find_leaf root k s = (Ok j, s) /\
    M !! j = Some (BPlusTreeNode.Leaf l) /\ G !! j = Some (lo, hi, 0%nat) /\ inside lo hi k /\
    (forall i n lo' hi', M !! i = Some n -> G !! i = Some (lo', hi', 0%nat) -> inside lo' hi' k -> i = j).
Proof using I.
  intros HM. destruct (inv_root _ _ _ I) as (r & h0 & Hr & Hpar & HGr).
  pose proof (height_lt_size _ _ _ _ _ Hr HGr) as Hsz.
  destruct (find_leaf_down h0 (BPlusTree.depth_fuel s) s root r None None k) as (j & l & lo & hi & Hf & Hj & HGj & Hin); auto.
  { unfold BPlusTree.depth_fuel. rewrite HM. lia. }
  { by split. }
  exists j, l, lo, hi. split_and!; auto. intros i n lo' hi' Hi HGi Hini.
  destruct (find_leaf_through k s HM) as (r' & h0' & Hr' & <- & Hthr). rewrite HGr in Hr'. injection Hr' as <-.
  destruct (Hthr i n lo' hi' 0%nat Hi HGi Hini) as [_ Heq].
  destruct (inv_node _ _ _ I _ _ Hi) as (lo2 & hi2 & h2 & HG2 & _ & _ & Hsh).
  rewrite HGi in HG2. injection HG2 as <- <- <-.
  destruct n as [pn|li]; [by destruct Hsh as (? & ? & _)|].
  unfold BPlusTree.depth_fuel in Hf. rewrite HM in Hf. simpl in Heq.
  specialize (Heq (S (size M - h0))). replace (h0 - 0 + S (size M - h0))%nat with (S (size M)) in Heq by lia.
  rewrite Hf in Heq. cbn [BPlusTree.find_leaf_loop] in Heq.
  unfold BPlusTree.bind, BPlusTree.get_node in Heq. rewrite HM, Hi in Heq. simpl in Heq. by injection Heq as ->.
Qed.

(** All entries of [k] are in its home leaf. *)
Lemma has_home s k j l lo hi : BPlusTree.nodes s = M ->
  M !! j = Some (BPlusTreeNode.Leaf l) -> G !! j = Some (lo, hi, 0%nat) -> inside lo hi k ->
  forall v, has M k v <-> (k, v) ∈ LeafNode.entries l.
Proof using I.
  intros HM Hj HGj Hin v. split; [|by exists j, l].
  intros (i & li & Hi & Hkv). destruct (find_leaf_home s k HM) as (j' & _ & _ & _ & _ & _ & _ & _ & Huniq).
  destruct (inv_node _ _ _ I _ _ Hi) as (lo2 & hi2 & h2 & HG2 & _ & _ & -> & _ & HF & _).
  rewrite Forall_forall in HF. specialize (HF _ Hkv).
  assert (i = j) as ->.
  { transitivity j'; [|symmetry]; eapply Huniq; eauto. }
  rewrite Hi in Hj. by injection Hj as ->.
Qed.

Lemma has_functional s k v v' : BPlusTree.nodes s = M -> has M k v -> has M k v' -> v = v'.
Proof using I.
  intros HM. destruct (find_leaf_home s k HM) as (j & l & lo & hi & _ & Hj & HGj & Hin & _).
  rewrite !(has_home s k j l lo hi) by done. intros H1 H2.
  destruct (inv_node _ _ _ I _ _ Hj) as (_ & _ & _ & _ & _ & _ & _ & Hs & _).
  apply sorted_by_NoDup in Hs. apply (elem_of_list_to_map_1 (LeafNode.entries l) k) in H1, H2; try done. congruence.
Qed.
End lookup.

(** ** Contents *)

Lemma elem_contents (s : BPlusTree.t) k v :
  (k, v) ∈ (map_to_list (BPlusTree.nodes s) ≫= fun p => leaf_entries p.2) <-> has (BPlusTree.nodes s) k v.
Proof.
  rewrite list_elem_of_bind. unfold has. split.
  - intros ([i n] & Hkv & Hi%elem_of_map_to_list). destruct n as [|l]; simpl in *; [by apply not_elem_of_nil in Hkv|]. eauto.
  - intros (i & l & Hi & Hkv). exists (i, BPlusTreeNode.Leaf l). split; [done|]. by apply elem_of_map_to_list.
Qed.

Lemma contents_has G s k v : inv G (BPlusTree.root_id s) (BPlusTree.nodes s) ->
  contents s !! k = Some v <-> has (BPlusTree.nodes s) k v.
Proof.
  intros I. split.
  - intros H%elem_of_list_to_map_2. by apply elem_contents.
  - intros H. unfold contents. apply elem_of_list_to_map_1'; [|by apply elem_contents].
    intros v' H'%elem_contents. by eapply (has_functional I s).
Qed.

Lemma contents_eq G s (m : gmap (list Z) (list Z)) : inv G (BPlusTree.root_id s) (BPlusTree.nodes s) ->
  (forall k v, m !! k = Some v <-> has (BPlusTree.nodes s) k v) -> contents s = m.
Proof.
  intros I H. apply map_eq. intros k. apply option_eq. intros v. by rewrite (contents_has G s), H.
Qed.

(** [get] reads the entry of the home leaf. *)
Lemma get_contents s k : tree_ok s -> BPlusTree.get k s = (Ok (contents s !! k), s).
Proof.
  intros ((G & I & _) & _). destruct (find_leaf_home I s k eq_refl) as (j & l & lo & hi & Hf & Hj & HGj & Hin & _).
  unfold BPlusTree.get, BPlusTree.bind, BPlusTree.read. rewrite Hf. unfold BPlusTree.get_node. rewrite Hj. simpl.
  unfold BPlusTree.ret. do 2 f_equal.
  destruct (inv_node _ _ _ I _ _ Hj) as (_ & _ & _ & _ & _ & _ & _ & Hs & _).
  rewrite leaf_get_map by done. apply option_eq. intros v.
  rewrite (contents_has G), (has_home I s k j l lo hi) by done. unfold to_map.
  symmetry. apply elem_of_list_to_map. by apply sorted_by_NoDup.
Qed.
