(* ===== verification/BTreeInsert.v ===== *)
(** * Insertion into the B+Tree

    Splitting a node and posting the separator to its parent keeps the
    invariant and the entries; a new root is an empty-keyed parent put above the
    old root before the same step.  [insert] therefore succeeds and updates
    [contents] at one key, whatever splits it causes. *)

From Stdlib Require Import ZArith Lia.
From stdpp Require Import sorting gmap option strings fin_maps fin_map_dom base list.
From S2P Require Import Prelude BTreeError BTreeNode BTreeTree BTreeShape BTreeInv.

Open Scope Z_scope.
Implicit Types (s : BPlusTree.t) (G : ghost) (M : store) (lo hi : option (list Z)) (h : nat) (n : node).

(** ** Changing the store around a node *)

Lemma shape_ok_set_parent G M i lo hi h n q :
  shape_ok G M i lo hi h (BPlusTreeNode.set_parent n q) <-> shape_ok G M i lo hi h n.
Proof. by destruct n. Qed.

Lemma set_parent_id n q : BPlusTreeNode.id (BPlusTreeNode.set_parent n q) = BPlusTreeNode.id n.
Proof. by destruct n. Qed.

Lemma set_parent_parent n q : BPlusTreeNode.parent (BPlusTreeNode.set_parent n q) = q.
Proof. by destruct n. Qed.

Lemma has_leaf_entries M k v : has M k v <-> exists j n, M !! j = Some n /\ (k, v) ∈ leaf_entries n.
Proof.
  split; [intros (j & l & ? & ?); by exists j, (BPlusTreeNode.Leaf l)|].
  intros (j & [|l] & Hj & Hin); [by apply not_elem_of_nil in Hin|]. by exists j, l.
Qed.

(** Leaves stay leaves, with the same lower end. *)
Definition leaves_kept G M G' M' : Prop :=
  forall x l lo hi, M !! x = Some (BPlusTreeNode.Leaf l) -> G !! x = Some (lo, hi, 0%nat) ->
    exists l' hi', M' !! x = Some (BPlusTreeNode.Leaf l') /\ G' !! x = Some (lo, hi', 0%nat).

Lemma next_ok_transport G M G' M' hi nxt : leaves_kept G M G' M' -> next_ok G M hi nxt -> next_ok G' M' hi nxt.
Proof.
  intros HL. destruct nxt as [x|]; [|done]. simpl. intros (Hhi & l & hi' & Hx & HG). split; [done|].
  destruct (HL x l hi hi' Hx HG) as (l' & hi'' & ? & ?). eauto.
Qed.

Lemma shape_transport G M G' M' i lo hi h n :
  shape_ok G M i lo hi h n ->
  (forall c a b h', c ∈ BPlusTreeNode.get_all_children n -> child_of G M i h' c a b -> child_of G' M' i h' c a b) ->
  leaves_kept G M G' M' -> shape_ok G' M' i lo hi h n.
Proof.
  intros Hsh Hc HL. destruct n as [N|l]; simpl in *.
  - destruct Hsh as (h' & -> & HK). exists h'. split; [done|]. eapply kids_impl; [|exact HK]. eauto.
  - destruct Hsh as (? & ? & ? & ?). eauto using next_ok_transport.
Qed.

Section facts.
Context {G : ghost} {root : Z} {M : store} (I : inv G root M).

Lemma inv_shape i n lo hi h : M !! i = Some n -> G !! i = Some (lo, hi, h) ->
  gap lo hi /\ BPlusTreeNode.id n = i /\ shape_ok G M i lo hi h n.
Proof using I.
  intros Hi HG. destruct (inv_node _ _ _ I _ _ Hi) as (lo' & hi' & h' & HG' & ? & ? & ?).
  rewrite HG in HG'. by injection HG' as <- <- <-.
Qed.

Lemma inv_ghost i n : M !! i = Some n -> exists lo hi h, G !! i = Some (lo, hi, h).
Proof using I. intros Hi. destruct (inv_node _ _ _ I _ _ Hi) as (lo & hi & h & HG & _). eauto. Qed.

Lemma child_fun p h c a b a' b' : child_of G M p h c a b -> child_of G M p h c a' b' -> a = a' /\ b = b'.
Proof using. intros (H & _) (H' & _). rewrite H in H'. by injection H' as <- <-. Qed.

(** What the parent knows of a child. *)
Lemma inv_child p pn c : M !! p = Some (BPlusTreeNode.Internal pn) -> c ∈ InternalNode.children pn ->
  exists lo hi h a b, G !! p = Some (a, b, S h) /\ child_of G M p h c lo hi.
Proof using I.
  intros Hp Hc. destruct (inv_ghost _ _ Hp) as (a & b & hp & HG).
  destruct (inv_shape _ _ _ _ _ Hp HG) as (_ & _ & h & -> & HK).
  destruct (kids_elem _ (child_of_gap G M p h) _ _ _ _ _ HK Hc) as (lo & hi & Hch & _). eauto 10.
Qed.

Lemma children_NoDup p pn : M !! p = Some (BPlusTreeNode.Internal pn) -> NoDup (InternalNode.children pn).
Proof using I.
  intros Hp. destruct (inv_ghost _ _ Hp) as (a & b & hp & HG).
  destruct (inv_shape _ _ _ _ _ Hp HG) as (_ & _ & h & -> & HK).
  eapply (kids_NoDup _ (child_of_gap G M p h)); [|exact HK]. apply child_fun.
Qed.

(** A non-root node's parent is one level up. *)
Lemma parent_height i n lo hi h p : M !! i = Some n -> G !! i = Some (lo, hi, h) ->
  BPlusTreeNode.parent n = Some p ->
  exists pn a b, M !! p = Some (BPlusTreeNode.Internal pn) /\ i ∈ InternalNode.children pn /\ G !! p = Some (a, b, S h).
Proof using I.
  intros Hi HG Hp. destruct (decide (i = root)) as [->|Hne].
  { destruct (inv_root _ _ _ I) as (r & ? & Hr & Hnone & _). congruence. }
  destruct (inv_parent _ _ _ I _ _ Hi Hne) as (p' & pn & Hp' & HMp & Hc).
  assert (p' = p) as -> by congruence. exists pn.
  destruct (inv_child _ _ _ HMp Hc) as (lo' & hi' & h' & a & b & HGp & HGc & _).
  rewrite HG in HGc. injection HGc as <- <- <-. eauto.
Qed.
End facts.

(** ** The split step *)

Inductive halves (new : Z) : node -> list Z -> node -> node -> Prop :=
| halves_leaf L es1 sep v es2 :
    LeafNode.entries L = es1 ++ (sep, v) :: es2 -> es1 <> [] ->
    halves new (BPlusTreeNode.Leaf L) sep
      (BPlusTreeNode.Leaf (LeafNode.mk (LeafNode.id L) es1 (Some new) (LeafNode.prev L) (LeafNode.parent L)))
      (BPlusTreeNode.Leaf (LeafNode.mk new ((sep, v) :: es2) (LeafNode.next L) (Some (LeafNode.id L)) (LeafNode.parent L)))
| halves_internal N ks1 sep ks2 cs1 cs2 :
    InternalNode.keys N = ks1 ++ sep :: ks2 -> InternalNode.children N = cs1 ++ cs2 ->
    length cs1 = S (length ks1) ->
    halves new (BPlusTreeNode.Internal N) sep
      (BPlusTreeNode.Internal (InternalNode.mk (InternalNode.id N) ks1 cs1 (InternalNode.parent N)))
      (BPlusTreeNode.Internal (InternalNode.mk new ks2 cs2 (InternalNode.parent N))).

(** The separator lies strictly inside the node's interval. *)
Lemma halves_gap {G root M} (I : inv G root M) {i new n nl nr lo hi h sep} :
  M !! i = Some n -> G !! i = Some (lo, hi, h) -> halves new n sep nl nr ->
  gap lo (Some sep) /\ gap (Some sep) hi.
Proof.
  intros Hi HGi Hhalves.
  destruct (inv_shape I _ _ _ _ _ Hi HGi) as (_ & _ & Hsh).
  destruct Hhalves as [L es1 ? v es2 He Hne | N ks1' ? ks2' cs1' cs2' Hk Hc Hl].
  - destruct Hsh as (_ & Hs & HF & _). rewrite He in Hs, HF. apply sorted_by_middle in Hs as (_ & Hlt & _).
    apply Forall_app in HF as [HF1 HF2]. apply Forall_cons_1 in HF2 as [[_ Hb] _].
    split; [|by destruct hi]. destruct es1 as [|e es1]; [done|].
    apply Forall_cons_1 in HF1 as [[Ha _] _]. apply Forall_cons_1 in Hlt as [Hlt _]. by eapply above_gap.
  - destruct Hsh as (h' & _ & HK). destruct (kids_gap _ (child_of_gap G M i h') _ _ _ _ HK) as [_ HF].
    rewrite Hk, Forall_app, Forall_cons in HF. by destruct HF as (_ & HF & _).
Qed.

Lemma halves_children {new n sep nl nr} : halves new n sep nl nr ->
  BPlusTreeNode.get_all_children n = BPlusTreeNode.get_all_children nl ++ BPlusTreeNode.get_all_children nr.
Proof. by intros []. Qed.

Section split.
Context {G : ghost} {root : Z} {M : store} (I : inv G root M).
Context {i new p : Z} {n nl nr : node} {pn : InternalNode.t} {lo hi : option (list Z)} {h : nat} {sep : list Z}.
Context {ks1 ks2 : list (list Z)} {cs1 cs2 : list Z} {M' : store}.
Hypothesis Hi : M !! i = Some n.
Hypothesis HGi : G !! i = Some (lo, hi, h).
Hypothesis Hpar : BPlusTreeNode.parent n = Some p.
Hypothesis Hp : M !! p = Some (BPlusTreeNode.Internal pn).
Hypothesis Hks : InternalNode.keys pn = ks1 ++ ks2.
Hypothesis Hcs : InternalNode.children pn = cs1 ++ i :: cs2.
Hypothesis Hlen : length ks1 = length cs1.
Hypothesis Hnew : M !! new = None.
Hypothesis Hhalves : halves new n sep nl nr.
Hypothesis Hi' : M' !! i = Some nl.
Hypothesis Hnew' : M' !! new = Some nr.
Hypothesis Hp' : M' !! p = Some (BPlusTreeNode.Internal
  (InternalNode.mk (InternalNode.id pn) (ks1 ++ sep :: ks2) (cs1 ++ i :: new :: cs2) (InternalNode.parent pn))).
Hypothesis Hrest : forall j, j <> i -> j <> new -> j <> p ->
  M' !! j = if decide (j ∈ BPlusTreeNode.get_all_children nr)
            then (fun m => BPlusTreeNode.set_parent m (Some new)) <$> M !! j else M !! j.

Definition split_ghost : ghost := <[i := (lo, Some sep, h)]> (<[new := (Some sep, hi, h)]> G).

Lemma split_new_ne j m : M !! j = Some m -> j <> new.
Proof using All. congruence. Qed.

Lemma split_ghost_i : split_ghost !! i = Some (lo, Some sep, h).
Proof using. unfold split_ghost. by rewrite lookup_insert_eq. Qed.

Lemma split_ghost_new : split_ghost !! new = Some (Some sep, hi, h).
Proof using All. pose proof (split_new_ne _ _ Hi). unfold split_ghost. rewrite lookup_insert_ne, lookup_insert_eq; auto. Qed.

Lemma split_ghost_ne j : j <> i -> j <> new -> split_ghost !! j = G !! j.
Proof using. intros. unfold split_ghost. by rewrite !lookup_insert_ne. Qed.

Lemma split_ghost_p : exists a b, G !! p = Some (a, b, S h) /\ p <> i /\ p <> new.
Proof using All.
  destruct (parent_height I i n lo hi h p Hi HGi Hpar) as (_ & a & b & _ & _ & HGp). exists a, b.
  split_and!; [done| |by eapply split_new_ne]. intros ->. rewrite HGi in HGp. injection HGp. lia.
Qed.

Lemma split_gap : gap lo (Some sep) /\ gap (Some sep) hi.
Proof using All. exact (halves_gap I Hi HGi Hhalves). Qed.

(** A child of the split node: one level down, and not one of the nodes the step rewrites. *)
Lemma split_child c : c ∈ BPlusTreeNode.get_all_children n ->
  exists a b m h', h = S h' /\ G !! c = Some (a, b, h') /\ gap a b /\ M !! c = Some m /\
    BPlusTreeNode.parent m = Some i /\ c <> i /\ c <> new /\ c <> p.
Proof using All.
  intros Hc. destruct split_ghost_p as (pa & pb & HGp & _). pose proof split_new_ne as Hnn.
  destruct n as [N|L] eqn:En; [|by apply not_elem_of_nil in Hc]. simpl in Hc.
  destruct (inv_child I _ _ _ Hi Hc) as (clo & chi & h' & a & b & HG2 & HGc & Hg & m & Hm & Hmp).
  rewrite HGi in HG2. injection HG2 as <- <- ->.
  exists clo, chi, m, h'. split_and!; auto; try (by eapply Hnn).
  - intros ->. rewrite HGi in HGc. injection HGc. lia.
  - intros ->. rewrite HGp in HGc. injection HGc. lia.
Qed.

Lemma split_nr_child c : c ∈ BPlusTreeNode.get_all_children nr -> c ∈ BPlusTreeNode.get_all_children n.
Proof using All. rewrite (halves_children Hhalves), elem_of_app. auto. Qed.

Lemma split_children_disjoint c :
  c ∈ BPlusTreeNode.get_all_children nl -> c ∈ BPlusTreeNode.get_all_children nr -> False.
Proof using All.
  intros H1 H2. pose proof (halves_children Hhalves) as Hch. assert (HN : NoDup (BPlusTreeNode.get_all_children n)).
  { destruct n as [N|L]; [by eapply (children_NoDup I)|apply NoDup_nil_2]. }
  rewrite Hch in HN. apply NoDup_app in HN as (_ & HN & _). by eapply HN.
Qed.

(** Nodes that are not children of the split node keep their parent. *)
Lemma split_keep j m : M !! j = Some m -> j <> i -> BPlusTreeNode.parent m <> Some i ->
  exists m', M' !! j = Some m' /\ BPlusTreeNode.parent m' = BPlusTreeNode.parent m.
Proof using All.
  intros Hj Hne Hmp. destruct (decide (j = p)) as [->|Hnp].
  { rewrite Hp in Hj. injection Hj as <-. eauto. }
  rewrite Hrest, decide_False; [by exists m|..]; auto.
  - intros Hc%split_nr_child. destruct (split_child j Hc) as (? & ? & m' & ? & _ & _ & _ & Hm' & Hmi & _). congruence.
  - by eapply split_new_ne.
Qed.

Lemma split_leaves_kept : leaves_kept G M split_ghost M'.
Proof using All.
  intros x l xlo xhi Hx HGx. destruct (decide (x = i)) as [->|Hne].
  - rewrite split_ghost_i, Hi'. rewrite HGi in HGx. injection HGx as <- <- ->. rewrite Hi in Hx.
    destruct Hhalves; [|done]. eauto.
  - assert (x <> new) by (by eapply split_new_ne). assert (x <> p) by congruence.
    rewrite split_ghost_ne, Hrest, HGx, Hx by done. case_decide; simpl; eauto.
Qed.

Lemma split_node_i : node_ok split_ghost M' i nl.
Proof using All.
  destruct (inv_shape I _ _ _ _ _ Hi HGi) as (_ & Hid & Hsh). destruct split_gap as [Hg1 Hg2].
  exists lo, (Some sep), h. split_and!; [apply split_ghost_i|done|by destruct Hhalves|].
  pose proof split_child as Hch. pose proof split_children_disjoint as Hdis. pose proof split_ghost_new as Hgn.
  pose proof split_ghost_ne as Hgne.
  destruct Hhalves as [L es1 ? v es2 He Hne | N ks1' ? ks2' cs1' cs2' Hk Hc Hl]; simpl in *.
  - destruct Hsh as (-> & Hs & HF & Hn). rewrite He in Hs, HF.
    apply sorted_by_middle in Hs as (Hs & Hlt & _). apply sorted_by_app in Hs as (Hs & _).
    apply Forall_app in HF as [HF _]. split_and!; auto.
    + rewrite Forall_forall in *. intros e He1. destruct (HF e He1) as [? _]. split; [done|].
      exact (all_lt_elem _ _ _ _ Hlt He1).
    + rewrite Hnew', Hgn. eauto.
  - destruct Hsh as (h' & -> & HK). rewrite Hk, Hc, kids_app in HK by done. destruct HK as [HK _].
    exists h'. split; [done|]. eapply kids_impl; [|exact HK]. intros c a b Hcin (HGc & Hgc & m & Hm & Hmp).
    destruct (Hch c) as (_ & _ & _ & _ & _ & _ & _ & _ & _ & ? & ? & ?).
    { rewrite Hc. apply elem_of_app. auto. }
    split_and!; [by rewrite Hgne|done|].
    exists m. rewrite Hrest, decide_False; eauto.
Qed.

Lemma split_node_new : node_ok split_ghost M' new nr.
Proof using All.
  destruct (inv_shape I _ _ _ _ _ Hi HGi) as (_ & Hid & Hsh). destruct split_gap as [Hg1 Hg2].
  exists (Some sep), hi, h. split_and!; [apply split_ghost_new|done|by destruct Hhalves|].
  pose proof split_child as Hch. pose proof split_leaves_kept as Hlk. pose proof split_ghost_ne as Hgne.
  destruct Hhalves as [L es1 ? v es2 He Hne | N ks1' ? ks2' cs1' cs2' Hk Hc Hl]; simpl in *.
  - destruct Hsh as (-> & Hs & HF & Hn). rewrite He in Hs, HF.
    apply sorted_by_app in Hs as (_ & Hs & _). apply Forall_app in HF as [_ HF].
    split_and!; auto; [|by eapply next_ok_transport].
    apply sorted_by_cons in Hs as [_ Hgt]. rewrite Forall_forall in *. intros e He1.
    destruct (HF e He1) as [_ ?]. split; [|done]. apply elem_of_cons in He1 as [->|He1]; [apply bytes_le_refl|].
    apply bytes_lt_le. exact (all_gt_elem _ _ _ _ Hgt He1).
  - destruct Hsh as (h' & -> & HK). rewrite Hk, Hc, kids_app in HK by done. destruct HK as [_ HK].
    exists h'. split; [done|]. eapply kids_impl; [|exact HK]. intros c a b Hcin (HGc & Hgc & m & Hm & Hmp).
    destruct (Hch c) as (_ & _ & _ & _ & _ & _ & _ & _ & _ & ? & ? & ?).
    { rewrite Hc. apply elem_of_app. auto. }
    split_and!; [by rewrite Hgne|done|].
    eexists. rewrite Hrest, decide_True, Hm by done. split; [done|]. apply set_parent_parent.
Qed.

Lemma split_node_p : node_ok split_ghost M' p (BPlusTreeNode.Internal
  (InternalNode.mk (InternalNode.id pn) (ks1 ++ sep :: ks2) (cs1 ++ i :: new :: cs2) (InternalNode.parent pn))).
Proof using All.
  destruct split_ghost_p as (a & b & HGp & Hpi & Hpn).
  destruct (inv_shape I _ _ _ _ _ Hp HGp) as (Hg & Hid & h' & [= <-] & HK).
  pose proof (children_NoDup I _ _ Hp) as HN. destruct split_gap as [Hg1 Hg2].
  assert (Hnlp : BPlusTreeNode.parent nl = Some p /\ BPlusTreeNode.parent nr = Some p) by (by destruct Hhalves).
  rewrite Hcs in HK, HN.
  destruct (kids_at _ (child_of_gap G M p h) _ _ _ _ _ _ HK)
    as (ks1' & ks2' & clo & chi & Hks' & L1 & L2 & (HGc & _ & _) & F1 & F2 & _ & _ & Hz).
  rewrite HGi in HGc. injection HGc as <- <-. rewrite Hks in Hks'.
  apply app_inj_1 in Hks' as [<- <-]; [|lia].
  exists a, b, (S h). split_and!; [by rewrite split_ghost_ne|done|done|]. exists h. split; [done|].
  apply (Hz _ [sep] [i; new]).
  - intros c a' b' Hc (HGc & Hgc & m & Hm & Hmp).
    assert (c <> i). { intros ->. apply NoDup_app in HN as (_ & HN1 & HN2). apply NoDup_cons in HN2 as [HN2 _].
      apply elem_of_app in Hc as [Hc|Hc]; [|done]. by apply (HN1 i Hc), list_elem_of_here. }
    assert (c <> new) by (by eapply split_new_ne).
    split_and!; [by rewrite split_ghost_ne|done|].
    destruct (split_keep c m) as (m' & ? & ?); auto; [|exists m'; split; congruence]. congruence.
  - split; (split_and!; [|done|]).
    + apply split_ghost_i.
    + exists nl. naive_solver.
    + apply split_ghost_new.
    + exists nr. naive_solver.
Qed.

Lemma split_node_other j m : M' !! j = Some m -> j <> i -> j <> new -> j <> p -> node_ok split_ghost M' j m.
Proof using All.
  intros Hj Hji Hjn Hjp. rewrite Hrest in Hj by done.
  assert (exists m0, M !! j = Some m0 /\ (m = m0 \/ m = BPlusTreeNode.set_parent m0 (Some new))) as (m0 & Hm0 & Hmm).
  { case_decide; [|eauto]. apply fmap_Some in Hj as (m0 & ? & ->). eauto. }
  destruct (inv_ghost I _ _ Hm0) as (a & b & hj & HGj). destruct (inv_shape I _ _ _ _ _ Hm0 HGj) as (Hg & Hid & Hsh).
  exists a, b, hj. rewrite split_ghost_ne by done.
  assert (Hsh' : shape_ok split_ghost M' j a b hj m0).
  { eapply shape_transport; [exact Hsh| |apply split_leaves_kept].
    intros c a' b' h' _ (HGc & Hgc & mc & Hmc & Hmp).
    assert (c <> i) by (intros ->; congruence).
    assert (c <> new) by (by eapply split_new_ne).
    split_and!; [by rewrite split_ghost_ne|done|].
    destruct (split_keep c mc) as (m' & ? & ?); auto; [|exists m'; split; congruence]. congruence. }
  destruct Hmm as [->| ->]; rewrite ?set_parent_id, ?shape_ok_set_parent; auto.
Qed.

Lemma split_root : exists r h0, M' !! root = Some r /\ BPlusTreeNode.parent r = None /\ split_ghost !! root = Some (None, None, h0).
Proof using All.
  destruct (inv_root _ _ _ I) as (r & h0 & Hr & Hrp & HGr).
  assert (root <> i) by congruence. assert (root <> new) by (by eapply split_new_ne).
  destruct (split_keep root r) as (r' & ? & ?); [done..|congruence|].
  exists r', h0. rewrite split_ghost_ne by done. split_and!; congruence.
Qed.

(** An ancestor of [i] is not among the children handed to the new node. *)
Lemma split_parent_other j m : M !! j = Some m -> j <> root -> j <> i ->
  j ∉ BPlusTreeNode.get_all_children nr -> exists q qn, BPlusTreeNode.parent m = Some q /\
    M' !! q = Some (BPlusTreeNode.Internal qn) /\ j ∈ InternalNode.children qn.
Proof using All.
  intros Hj Hroot Hji Hjr. destruct (inv_parent _ _ _ I _ _ Hj Hroot) as (q & qn & Hq & HMq & Hjq). exists q.
  destruct (decide (q = i)) as [->|Hqi].
  { assert (Hjn : j ∈ BPlusTreeNode.get_all_children n).
    { rewrite Hi in HMq. injection HMq as Hn. by rewrite Hn. }
    rewrite (halves_children Hhalves), elem_of_app in Hjn. destruct Hjn as [Hjn|]; [|done].
    destruct nl as [NL|]; [|by apply not_elem_of_nil in Hjn]. eauto. }
  destruct (decide (q = p)) as [->|Hqp].
  { rewrite Hp in HMq. injection HMq as <-. eexists. split_and!; [done|exact Hp'|]. simpl.
    rewrite Hcs in Hjq. revert Hjq. rewrite !elem_of_app, !elem_of_cons. tauto. }
  rewrite Hrest, HMq by (done || by eapply split_new_ne). case_decide; simpl; eauto.
Qed.

Lemma split_inv : inv split_ghost root M'.
Proof using All.
  assert (Hnlp : BPlusTreeNode.parent nl = Some p /\ BPlusTreeNode.parent nr = Some p) by (by destruct Hhalves).
  split; [|exact split_root|].
  - intros j m Hj. destruct (decide (j = i)) as [->|]; [|destruct (decide (j = new)) as [->|]; [|destruct (decide (j = p)) as [->|]]].
    + rewrite Hi' in Hj. injection Hj as <-. apply split_node_i.
    + rewrite Hnew' in Hj. injection Hj as <-. apply split_node_new.
    + rewrite Hp' in Hj. injection Hj as <-. apply split_node_p.
    + by apply split_node_other.
  - intros j m Hj Hroot. unfold has_parent.
    destruct (decide (j = i)) as [->|Hji]; [|destruct (decide (j = new)) as [->|Hjn]; [|destruct (decide (j = p)) as [->|Hjp]]].
    + eexists p, _. rewrite Hi' in Hj. injection Hj as <-. split_and!; [naive_solver|done|]. simpl. set_solver.
    + eexists p, _. rewrite Hnew' in Hj. injection Hj as <-. split_and!; [naive_solver|done|]. simpl. set_solver.
    + rewrite Hp' in Hj. injection Hj as <-.
      destruct (split_parent_other p _ Hp) as (q & qn & ? & ? & ?); eauto.
      intros Hc%split_nr_child. destruct (split_child p Hc) as (_ & _ & _ & _ & _ & _ & _ & _ & _ & _ & _ & ?). done.
    + rewrite Hrest in Hj by done. case_decide as Hc.
      * apply fmap_Some in Hj as (m0 & Hm0 & ->). rewrite set_parent_parent. exists new.
        destruct nr as [NR|]; [|by apply not_elem_of_nil in Hc]. exists NR. auto.
      * destruct (split_parent_other j m Hj) as (q & qn & ? & ? & ?); eauto.
Qed.

Lemma split_has k v : has M' k v <-> has M k v.
Proof using All.
  pose proof (split_new_ne _ _ Hi) as Hin. destruct split_ghost_p as (_ & _ & _ & Hpi & Hpn).
  assert (He : leaf_entries n = leaf_entries nl ++ leaf_entries nr).
  { destruct Hhalves; simpl; [done|done]. }
  rewrite !has_leaf_entries. split.
  - intros (j & m & Hj & Hkv).
    destruct (decide (j = i)) as [->|Hji]; [|destruct (decide (j = new)) as [->|Hjn]; [|destruct (decide (j = p)) as [->|Hjp]]].
    + exists i, n. split; [done|]. rewrite He. apply elem_of_app. left. congruence.
    + exists i, n. split; [done|]. rewrite He. apply elem_of_app. right. congruence.
    + rewrite Hp' in Hj. injection Hj as <-. by apply not_elem_of_nil in Hkv.
    + rewrite Hrest in Hj by done. case_decide; [|eauto]. apply fmap_Some in Hj as (m0 & Hm0 & ->).
      exists j, m0. split; [done|]. by destruct m0.
  - intros (j & m & Hj & Hkv). destruct (decide (j = i)) as [->|Hji].
    + assert (m = n) as -> by congruence. rewrite He in Hkv. apply elem_of_app in Hkv as [?|?]; eauto.
    + destruct (decide (j = p)) as [->|Hjp]; [rewrite Hp in Hj; injection Hj as <-; by apply not_elem_of_nil in Hkv|].
      exists j. rewrite Hrest, Hj by (done || by eapply split_new_ne). case_decide; [|eauto].
      eexists; split; [done|]. by destruct m.
Qed.
End split.

(** Putting an empty-keyed node above the root keeps the invariant. *)
Section raise.
Context {G : ghost} {root : Z} {M : store} (I : inv G root M).
Context {R : Z} {r : node} {h : nat}.
Hypothesis Hr : M !! root = Some r.
Hypothesis HGr : G !! root = Some (None, None, h).
Hypothesis HR : M !! R = None.

Definition raised_root : InternalNode.t := InternalNode.mk R [] [root] None.
Definition raised : store :=
  <[R := BPlusTreeNode.Internal raised_root]> (<[root := BPlusTreeNode.set_parent r (Some R)]> M).
Definition raised_ghost : ghost := <[R := (None, None, S h)]> G.

Lemma raise_ne j m : M !! j = Some m -> j <> R.
Proof using HR. congruence. Qed.

Lemma raised_lookup j m : M !! j = Some m -> j <> root -> raised !! j = Some m.
Proof using HR. intros Hj Hne. unfold raised. rewrite !lookup_insert_ne by (done || (symmetry; by eapply raise_ne)). done. Qed.

Lemma raised_root_lookup : raised !! root = Some (BPlusTreeNode.set_parent r (Some R)).
Proof using HR Hr. unfold raised. rewrite lookup_insert_ne, lookup_insert_eq; [done|]. by apply not_eq_sym, (raise_ne _ r). Qed.

Lemma raised_ghost_lookup j m : M !! j = Some m -> raised_ghost !! j = G !! j.
Proof using HR. intros Hj. unfold raised_ghost. rewrite lookup_insert_ne; [done|]. by apply not_eq_sym, (raise_ne _ m). Qed.

Lemma raise_leaves_kept : leaves_kept G M raised_ghost raised.
Proof using HR Hr.
  intros x l lo hi Hx HGx. rewrite (raised_ghost_lookup _ _ Hx).
  destruct (decide (x = root)) as [->|Hne].
  - rewrite raised_root_lookup. rewrite Hr in Hx. injection Hx as ->. simpl. eauto.
  - rewrite (raised_lookup _ _ Hx Hne). eauto.
Qed.

Lemma raise_shape i n lo hi h' : M !! i = Some n -> shape_ok G M i lo hi h' n -> shape_ok raised_ghost raised i lo hi h' n.
Proof using I HR Hr.
  intros Hi Hsh. eapply shape_transport; [exact Hsh| |exact raise_leaves_kept].
  intros c a b hc _ (HGc & Hg & m & Hm & Hmp). split_and!; [by rewrite (raised_ghost_lookup _ _ Hm)|done|].
  exists m. split; [|done]. apply raised_lookup; [done|]. intros ->.
  destruct (inv_root _ _ _ I) as (r' & ? & Hr' & Hnone & _). congruence.
Qed.

Lemma raise_inv : inv raised_ghost R raised.
Proof using I HR Hr HGr.
  assert (HGR : raised_ghost !! R = Some (None, None, S h)) by (unfold raised_ghost; by rewrite lookup_insert_eq).
  assert (HRR : raised !! R = Some (BPlusTreeNode.Internal raised_root)) by (unfold raised; by rewrite lookup_insert_eq).
  split.
  - intros j m Hj. unfold raised in Hj. destruct (decide (j = R)) as [->|HjR].
    + rewrite lookup_insert_eq in Hj. injection Hj as <-. exists None, None, (S h). split_and!; auto; [done|].
      exists h. split; [done|]. simpl. split_and!; [by rewrite (raised_ghost_lookup _ _ Hr)|done|].
      eexists. rewrite raised_root_lookup. split; [done|]. apply set_parent_parent.
    + rewrite lookup_insert_ne in Hj by done. destruct (decide (j = root)) as [->|Hjr].
      * rewrite lookup_insert_eq in Hj. injection Hj as <-.
        destruct (inv_shape I _ _ _ _ _ Hr HGr) as (Hg & Hid & Hsh). exists None, None, h.
        rewrite (raised_ghost_lookup _ _ Hr), set_parent_id, shape_ok_set_parent. eauto using raise_shape.
      * rewrite lookup_insert_ne in Hj by done. destruct (inv_node _ _ _ I _ _ Hj) as (lo & hi & h' & HGj & Hg & Hid & Hsh).
        exists lo, hi, h'. rewrite (raised_ghost_lookup _ _ Hj). eauto using raise_shape.
  - exists (BPlusTreeNode.Internal raised_root), (S h). auto.
  - intros j m Hj HjR. unfold raised in Hj. rewrite lookup_insert_ne in Hj by done. destruct (decide (j = root)) as [->|Hjr].
    + rewrite lookup_insert_eq in Hj. injection Hj as <-. exists R, raised_root. rewrite set_parent_parent. split_and!; [done..|].
      simpl. set_solver.
    + rewrite lookup_insert_ne in Hj by done. destruct (inv_parent _ _ _ I _ _ Hj Hjr) as (q & qn & Hq & HMq & Hjq).
      destruct (decide (q = root)) as [->|Hqr].
      * eexists root, _. rewrite raised_root_lookup. rewrite Hr in HMq. injection HMq as ->. simpl. done.
      * exists q, qn. split_and!; auto. by apply raised_lookup.
Qed.

Lemma raise_has k v : has raised k v <-> has M k v.
Proof using HR Hr.
  rewrite !has_leaf_entries. split.
  - intros (j & m & Hj & Hkv). unfold raised in Hj. destruct (decide (j = R)) as [->|HjR].
    + rewrite lookup_insert_eq in Hj. injection Hj as <-. by apply not_elem_of_nil in Hkv.
    + rewrite lookup_insert_ne in Hj by done. destruct (decide (j = root)) as [->|Hjr].
      * rewrite lookup_insert_eq in Hj. injection Hj as <-. exists root, r. split; [done|]. by destruct r.
      * rewrite lookup_insert_ne in Hj by done. eauto.
  - intros (j & m & Hj & Hkv). destruct (decide (j = root)) as [->|Hjr].
    + eexists root, _. rewrite raised_root_lookup. split; [done|]. assert (m = r) as -> by congruence. by destruct r.
    + exists j, m. split; [by apply raised_lookup|done].
Qed.
End raise.

(** ** Running the operations *)

Lemma height_le_root {G root M} (I : inv G root M) H i n lo hi h :
  G !! root = Some (None, None, H) -> M !! i = Some n -> G !! i = Some (lo, hi, h) -> (h <= H)%nat.
Proof.
  intros HGr. destruct (ghost_bound (G := G)) as [B HB].
  assert (Hd : forall d i n lo hi h, (B <= h + d)%nat -> M !! i = Some n -> G !! i = Some (lo, hi, h) -> (h <= H)%nat).
  { clear i n lo hi h. induction d as [|d IH]; intros i n lo hi h Hdh Hi HG;
      (destruct (decide (i = root)) as [->|Hne]; [rewrite HGr in HG; injection HG as <- <- <-; lia|]);
      destruct (inv_parent _ _ _ I _ _ Hi Hne) as (p & pn & Hp & HMp & Hc);
      destruct (parent_height I i n lo hi h p Hi HG Hp) as (_ & a & b & _ & _ & HGp).
    - apply HB in HGp. lia.
    - specialize (IH p _ a b (S h) ltac:(lia) HMp HGp). lia. }
  apply (Hd B). lia.
Qed.

Lemma set_parent_children n q : BPlusTreeNode.get_all_children (BPlusTreeNode.set_parent n q) = BPlusTreeNode.get_all_children n.
Proof. by destruct n. Qed.

Definition leftmost_ok s G M : Prop :=
  exists i l hi, BPlusTree.leftmost_leaf s = Some i /\ M !! i = Some (BPlusTreeNode.Leaf l) /\ G !! i = Some (None, hi, 0%nat).

Lemma leftmost_kept s s' G M G' M' : BPlusTree.leftmost_leaf s' = BPlusTree.leftmost_leaf s ->
  leaves_kept G M G' M' -> leftmost_ok s G M -> leftmost_ok s' G' M'.
Proof.
  intros Hs HL (i & l & hi & Hi & Hl & HG). destruct (HL i l None hi Hl HG) as (l' & hi' & ? & ?).
  exists i, l', hi'. by rewrite Hs.
Qed.

(** The children of a list get a new parent pointer, the rest of the state is kept. *)
Lemma for_each_set_parent q cs : forall s,
  (forall c, c ∈ cs -> exists n, BPlusTree.nodes s !! c = Some n /\ BPlusTreeNode.id n = c) ->
  exists s', BPlusTree.for_each (BPlusTree.set_child_parent q) cs s = (Ok tt, s') /\
    s' = BPlusTree.with_nodes s (BPlusTree.nodes s') /\
    forall j, BPlusTree.nodes s' !! j =
      if decide (j ∈ cs) then (fun m => BPlusTreeNode.set_parent m (Some q)) <$> BPlusTree.nodes s !! j
      else BPlusTree.nodes s !! j.
Proof.
  induction cs as [|c cs IH]; intros s Hdom.
  { exists s. split_and!; [done|by destruct s|]. intros j. by rewrite decide_False by apply not_elem_of_nil. }
  destruct (Hdom c ltac:(apply list_elem_of_here)) as (n & Hn & Hid).
  cbn [BPlusTree.for_each]. unfold BPlusTree.set_child_parent at 1, BPlusTree.bind at 1 2, BPlusTree.get_node at 1.
  rewrite Hn. cbn [ok_or]. unfold BPlusTree.update_node at 1. rewrite set_parent_id, Hid.
  set (s1 := BPlusTree.with_nodes s _).
  assert (Hs1 : BPlusTree.nodes s1 = <[c := BPlusTreeNode.set_parent n (Some q)]> (BPlusTree.nodes s)) by done.
  destruct (IH s1) as (s' & Hrun & Hs' & Hj').
  { intros c' Hc'. rewrite Hs1. destruct (decide (c = c')) as [->|].
    - rewrite lookup_insert_eq. eexists. split; [done|]. by rewrite set_parent_id.
    - rewrite lookup_insert_ne by done. apply Hdom. by apply list_elem_of_further. }
  exists s'. split_and!; [done|by rewrite Hs'|]. intros j. rewrite Hj', Hs1.
  destruct (decide (c = j)) as [->|Hne].
  - rewrite lookup_insert_eq, (decide_True (P := j ∈ j :: cs)), Hn by apply list_elem_of_here. case_decide; simpl; [|done].
    by destruct n.
  - rewrite lookup_insert_ne by done. destruct (decide (j ∈ cs)), (decide (j ∈ c :: cs)) as [Hc|Hc]; try done.
    + by rewrite elem_of_cons in Hc; tauto.
    + apply elem_of_cons in Hc as [|]; congruence.
Qed.

Lemma halves_set_parent new n sep nl nr q : halves new n sep nl nr ->
  halves new (BPlusTreeNode.set_parent n q) sep (BPlusTreeNode.set_parent nl q) (BPlusTreeNode.set_parent nr q).
Proof.
  intros [L es1 ? v es2 H1 H2 | N ks1 ? ks2 cs1 cs2 H1 H2 H3].
  - exact (halves_leaf new (LeafNode.mk (LeafNode.id L) (LeafNode.entries L) (LeafNode.next L) (LeafNode.prev L) q)
             es1 _ v es2 H1 H2).
  - exact (halves_internal new (InternalNode.mk (InternalNode.id N) (InternalNode.keys N) (InternalNode.children N) q)
             ks1 _ ks2 cs1 cs2 H1 H2 H3).
Qed.

Lemma halves_parent new n sep nl nr : halves new n sep nl nr ->
  BPlusTreeNode.parent nl = BPlusTreeNode.parent n /\ BPlusTreeNode.parent nr = BPlusTreeNode.parent n /\
  BPlusTreeNode.id nl = BPlusTreeNode.id n /\ BPlusTreeNode.id nr = new.
Proof. by intros []. Qed.

(** What running an insertion step on [s] must establish, where [M] is the
    store it works towards. *)
Definition settles s M (r : result BTreeError unit * BPlusTree.t) : Prop :=
  exists s', r = (Ok tt, s') /\ tree_ok s' /\ (forall k v, has (BPlusTree.nodes s') k v <-> has M k v) /\
             BPlusTree.config s' = BPlusTree.config s.

Definition ids_below M (b : Z) : Prop := forall j m, M !! j = Some m -> 0 <= j < b.

(** [insert_into_parent] on a parent at height [hq]: completing the pending
    entry would restore the invariant. *)
Definition posts (rec : Z -> list Z -> Z -> BPlusTree.op unit) (room : nat) : Prop :=
  forall s G q qn qn' a b hq H key right_child,
    BPlusTree.nodes s !! q = Some (BPlusTreeNode.Internal qn) ->
    InternalNode.insert_key_child qn key right_child = Some qn' ->
    let M := <[q := BPlusTreeNode.Internal qn']> (BPlusTree.nodes s) in
    inv G (BPlusTree.root_id s) M -> leftmost_ok s G M -> ids_below M (BPlusTree.next_node_id s) ->
    0 <= BPlusTree.next_node_id s ->
    G !! q = Some (a, b, hq) -> G !! BPlusTree.root_id s = Some (None, None, H) -> (H - hq < room)%nat ->
    BPlusTree.next_node_id s + Z.of_nat (H - hq) + 2 < 2 ^ 64 ->
    (2 <= BPlusTree.max_keys (BPlusTree.config s))%nat ->
    settles s M (rec q key right_child s).

(** The tail of both split functions. *)
Definition post_split (rec : Z -> list Z -> Z -> BPlusTree.op unit) (nl : node) (sep : list Z) (nr : node) : BPlusTree.op unit :=
  match BPlusTreeNode.parent nl with
  | Some q => rec q sep (BPlusTreeNode.id nr)
  | None => BPlusTree.create_new_root (BPlusTreeNode.id nl) sep (BPlusTreeNode.id nr)
  end.

Section tail.
Context {G : ghost} {M : store} {s : BPlusTree.t} {rec : Z -> list Z -> Z -> BPlusTree.op unit} {room H : nat}.
Context {i new : Z} {n nl nr : node} {lo hi : option (list Z)} {h : nat} {sep : list Z}.
Hypothesis Hrec : posts rec room.
Hypothesis I : inv G (BPlusTree.root_id s) M.
Hypothesis HL : leftmost_ok s G M.
Hypothesis Hids : ids_below M new.
Hypothesis Hnew0 : 0 <= new.
Hypothesis Hnext : BPlusTree.next_node_id s = new + 1.
Hypothesis Hi : M !! i = Some n.
Hypothesis HGi : G !! i = Some (lo, hi, h).
Hypothesis Hhalves : halves new n sep nl nr.
Hypothesis Hsi : BPlusTree.nodes s !! i = Some nl.
Hypothesis Hsnew : BPlusTree.nodes s !! new = Some nr.
Hypothesis Hsrest : forall j, j <> i -> j <> new -> BPlusTree.nodes s !! j =
  if decide (j ∈ BPlusTreeNode.get_all_children nr)
  then (fun m => BPlusTreeNode.set_parent m (Some new)) <$> M !! j else M !! j.
Hypothesis HGr : G !! BPlusTree.root_id s = Some (None, None, H).
Hypothesis Hroom : (H - h <= room)%nat.
Hypothesis Hover : new + Z.of_nat (H - h) + 2 < 2 ^ 64.
Hypothesis Hmax : (2 <= BPlusTree.max_keys (BPlusTree.config s))%nat.

Lemma tail_new : M !! new = None.
Proof using All. destruct (M !! new) as [m|] eqn:E; [|done]. apply Hids in E. lia. Qed.

Lemma tail_ids j m : BPlusTree.nodes s !! j = Some m -> 0 <= j < new + 1.
Proof using All.
  intros Hj. destruct (decide (j = new)) as [->|]; [lia|].
  assert (exists m', M !! j = Some m') as [m' Hm'].
  { destruct (decide (j = i)) as [->|]; [eauto|]. rewrite Hsrest in Hj by done.
    case_decide; [apply fmap_Some in Hj as (? & ? & _)|]; eauto. }
  apply Hids in Hm'. lia.
Qed.

(** The split node has a parent: post the separator there. *)
Lemma tail_parent q : BPlusTreeNode.parent n = Some q -> settles s M (rec q sep new s).
Proof using All.
  intros Hq. destruct (parent_height I i n lo hi h q Hi HGi Hq) as (qn & a & b & Hqn & Hiq & HGq).
  destruct (inv_shape I _ _ _ _ _ Hqn HGq) as (_ & _ & h' & [= <-] & HK).
  apply list_elem_of_split in Hiq as (cs1 & cs2 & Hcs).
  pose proof (kids_sorted _ (child_of_gap G M q h) _ _ _ _ HK) as Hsorted. rewrite Hcs in HK.
  destruct (kids_at _ (child_of_gap G M q h) _ _ _ _ _ _ HK)
    as (ks1 & ks2 & clo & chi & Hks & L1 & L2 & (HGc & _ & _) & F1 & F2 & _).
  rewrite HGi in HGc. injection HGc as <- <-.
  destruct (halves_gap I Hi HGi Hhalves) as [Hg1 Hg2]. pose proof tail_new as Hnone.
  assert (Hqi : q <> i). { intros ->. rewrite HGi in HGq. injection HGq. lia. }
  assert (Hqnew : q <> new) by congruence.
  assert (Hsq : BPlusTree.nodes s !! q = Some (BPlusTreeNode.Internal qn)).
  { rewrite Hsrest, decide_False; [done| |done|done]. intros Hc.
    assert (Hcn : q ∈ BPlusTreeNode.get_all_children n) by (rewrite (halves_children Hhalves), elem_of_app; auto).
    destruct n as [N|]; [|by apply not_elem_of_nil in Hcn].
    destruct (inv_child I _ _ _ Hi Hcn) as (? & ? & h2 & ? & ? & HG2 & HGc & _).
    rewrite HGi in HG2. rewrite HGq in HGc. injection HG2. injection HGc. lia. }
  set (qn' := InternalNode.mk (InternalNode.id qn) (ks1 ++ sep :: ks2) (cs1 ++ i :: new :: cs2) (InternalNode.parent qn)).
  assert (Hins : InternalNode.insert_key_child qn sep new = Some qn').
  { apply (insert_key_child_at qn ks1 ks2 cs1 i cs2); auto.
    - eapply Forall_impl; [exact F1|]. intros x Hx. exact (key_le_gap x _ _ Hx Hg1).
    - eapply Forall_impl; [exact F2|]. intros x Hx. exact (key_ge_gap x _ _ Hx Hg2). }
  set (M' := <[q := BPlusTreeNode.Internal qn']> (BPlusTree.nodes s)).
  assert (E1 : M' !! i = Some nl) by (unfold M'; by rewrite lookup_insert_ne).
  assert (E2 : M' !! new = Some nr) by (unfold M'; by rewrite lookup_insert_ne).
  assert (E3 : M' !! q = Some (BPlusTreeNode.Internal qn')) by (unfold M'; by rewrite lookup_insert_eq).
  assert (E4 : forall j, j <> i -> j <> new -> j <> q -> M' !! j =
    if decide (j ∈ BPlusTreeNode.get_all_children nr)
    then (fun m => BPlusTreeNode.set_parent m (Some new)) <$> M !! j else M !! j).
  { intros j ? ? ?. unfold M'. rewrite lookup_insert_ne by done. by apply Hsrest. }
  pose proof (split_inv I Hi HGi Hq Hqn Hks Hcs L1 Hnone Hhalves E1 E2 E3 E4) as I'.
  pose proof (split_leaves_kept I Hi HGi Hq Hqn Hks Hcs L1 Hnone Hhalves E1 E2 E3 E4) as HL'.
  pose proof (split_has I Hi HGi Hq Hqn Hks Hcs L1 Hnone Hhalves E1 E2 E3 E4) as Hhas.
  pose proof (height_le_root I H q _ _ _ _ HGr Hqn HGq) as HhH.
  destruct (Hrec s _ q qn qn' a b (S h) H sep new Hsq Hins I') as (s' & Hrun & Hok & Hhas' & Hcfg); try done; try lia.
  - by eapply leftmost_kept.
  - intros j m. unfold M'. rewrite lookup_insert_Some, Hnext. intros [(<- & _)|(_ & Hj)]; by eapply tail_ids.
  - unfold split_ghost. by rewrite !lookup_insert_ne.
  - unfold split_ghost. destruct (inv_root _ _ _ I) as (r & h0 & Hr & Hrp & _). rewrite !lookup_insert_ne; congruence.
  - exists s'. split_and!; auto. intros k v. rewrite Hhas'. apply Hhas.
Qed.

(** The split node is the root: a new root above it takes both halves. *)
Definition new_root_store : store :=
  <[new + 1 := BPlusTreeNode.Internal (InternalNode.mk (new + 1) [sep] [i; new] None)]>
    (<[new := BPlusTreeNode.set_parent nr (Some (new + 1))]>
      (<[i := BPlusTreeNode.set_parent nl (Some (new + 1))]> (BPlusTree.nodes s))).

Lemma create_new_root_run : BPlusTree.create_new_root i sep new s =
  (Ok tt, BPlusTree.mk (BPlusTree.config s) (new + 1) new_root_store (new + 2) (BPlusTree.leftmost_leaf s)).
Proof using All.
  destruct (halves_parent _ _ _ _ _ Hhalves) as (_ & _ & Hidl & Hidr).
  destruct (inv_shape I _ _ _ _ _ Hi HGi) as (_ & Hid & _).
  assert (Hin : i <> new) by (pose proof tail_new; congruence).
  unfold BPlusTree.create_new_root, BPlusTree.allocate_node_id, BPlusTree.set_child_parent, BPlusTree.get_node,
    BPlusTree.update_node, BPlusTree.set_root, BPlusTree.lift.
  unfold BPlusTree.bind at 1. unfold BPlusTree.bind at 1. cbn -[u64].
  unfold BPlusTree.bind. cbn -[u64]. rewrite Hsi. cbn -[u64]. rewrite set_parent_id, Hidl, Hid.
  rewrite lookup_insert_ne, Hsnew by done. cbn -[u64]. rewrite set_parent_id, Hidr, Hnext.
  do 2 f_equal. unfold u64. rewrite wrap_small; lia.
Qed.

Lemma tail_root : BPlusTreeNode.parent n = None -> settles s M (BPlusTree.create_new_root i sep new s).
Proof using All.
  intros Hnp. pose proof tail_new as Hnone. pose proof tail_ids as Htids. rewrite create_new_root_run.
  assert (Hroot : BPlusTree.root_id s = i).
  { destruct (decide (i = BPlusTree.root_id s)) as [|Hne]; [done|].
    destruct (inv_parent _ _ _ I _ _ Hi Hne) as (p & _ & Hp & _). congruence. }
  rewrite Hroot in I, HGr. rewrite HGi in HGr. injection HGr as -> -> ->.
  set (R := new + 1).
  assert (HR : M !! R = None). { destruct (M !! R) as [m|] eqn:E; [|done]. apply Hids in E. lia. }
  assert (HRi : R <> i) by congruence. assert (HRn : R <> new) by lia. assert (Hin : i <> new) by congruence.
  pose proof (raise_inv I Hi HGi HR) as IR.
  assert (F1 : raised (R := R) (root := i) (r := n) (M := M) !! i = Some (BPlusTreeNode.set_parent n (Some R))).
  { unfold raised. by rewrite lookup_insert_ne, lookup_insert_eq. }
  assert (F2 : raised_ghost (R := R) (h := H) (G := G) !! i = Some (None, None, H)).
  { unfold raised_ghost. by rewrite lookup_insert_ne. }
  assert (F3 : raised (R := R) (root := i) (r := n) (M := M) !! R = Some (BPlusTreeNode.Internal (raised_root (R := R) (root := i)))).
  { unfold raised. by rewrite lookup_insert_eq. }
  assert (F4 : raised (R := R) (root := i) (r := n) (M := M) !! new = None).
  { unfold raised. rewrite !lookup_insert_ne by done. done. }
  pose proof (halves_set_parent _ _ _ _ _ (Some R) Hhalves) as HhR.
  assert (E1 : new_root_store !! i = Some (BPlusTreeNode.set_parent nl (Some R))).
  { unfold new_root_store. rewrite !lookup_insert_ne, lookup_insert_eq by done. done. }
  assert (E2 : new_root_store !! new = Some (BPlusTreeNode.set_parent nr (Some R))).
  { unfold new_root_store. rewrite lookup_insert_ne, lookup_insert_eq by done. done. }
  assert (E3 : new_root_store !! R = Some (BPlusTreeNode.Internal (InternalNode.mk R [sep] [i; new] None))).
  { unfold new_root_store. by rewrite lookup_insert_eq. }
  assert (E4 : forall j, j <> i -> j <> new -> j <> R -> new_root_store !! j =
    if decide (j ∈ BPlusTreeNode.get_all_children (BPlusTreeNode.set_parent nr (Some R)))
    then (fun m => BPlusTreeNode.set_parent m (Some new)) <$> raised (R := R) (root := i) (r := n) (M := M) !! j
    else raised (R := R) (root := i) (r := n) (M := M) !! j).
  { intros j ? ? ?. rewrite set_parent_children. unfold new_root_store, raised. rewrite !lookup_insert_ne by done.
    by apply Hsrest. }
  pose proof (set_parent_parent n (Some R)) as Hpar.
  pose proof (split_inv IR F1 F2 Hpar F3 (ks1 := []) (ks2 := []) eq_refl (cs1 := []) (cs2 := []) eq_refl eq_refl F4 HhR E1 E2 E3 E4) as I'.
  pose proof (split_leaves_kept IR F1 F2 Hpar F3 (ks1 := []) (ks2 := []) eq_refl (cs1 := []) (cs2 := []) eq_refl eq_refl F4 HhR E1 E2 E3 E4) as HL'.
  pose proof (split_has IR F1 F2 Hpar F3 (ks1 := []) (ks2 := []) eq_refl (cs1 := []) (cs2 := []) eq_refl eq_refl F4 HhR E1 E2 E3 E4) as Hhas.
  eexists. split_and!; [done| |intros k v; cbn [BPlusTree.nodes]; rewrite Hhas; by apply raise_has|done].
  split; [|split].
  - exists (split_ghost (G := raised_ghost (R := R) (h := H) (G := G)) (i := i) (new := new) (lo := None) (hi := None) (h := H) (sep := sep)).
    split; [exact I'|]. eapply leftmost_kept; [|exact HL'|eapply leftmost_kept; [|apply (raise_leaves_kept Hi HR)|exact HL]]; done.
  - intros j m. cbn [BPlusTree.nodes BPlusTree.next_node_id]. unfold new_root_store. rewrite !lookup_insert_Some.
    pose proof (Hids _ _ Hi). intros [(<- & _)|(_ & [(<- & _)|(_ & [(<- & _)|(_ & Hj)])])]; try lia. apply Htids in Hj. lia.
  - cbn [BPlusTree.next_node_id]. lia.
Qed.

Lemma tail_settles : settles s M (post_split rec nl sep nr s).
Proof using All.
  destruct (halves_parent _ _ _ _ _ Hhalves) as (Hp & _ & Hidl & Hidr).
  destruct (inv_shape I _ _ _ _ _ Hi HGi) as (_ & Hid & _).
  unfold post_split. rewrite Hp, Hidl, Hidr, Hid. destruct (BPlusTreeNode.parent n) as [q|] eqn:Hq.
  - by apply tail_parent.
  - by apply tail_root.
Qed.
End tail.

Lemma settles_config s s1 M r : BPlusTree.config s1 = BPlusTree.config s -> settles s1 M r -> settles s M r.
Proof. intros Hc (s' & ? & ? & ? & ?). exists s'. split_and!; auto. congruence. Qed.

(** Storing the completed node settles. *)
Lemma update_settles s G q n : BPlusTreeNode.id n = q -> 0 <= BPlusTree.next_node_id s < 2 ^ 64 ->
  let M := <[q := n]> (BPlusTree.nodes s) in
  inv G (BPlusTree.root_id s) M -> leftmost_ok s G M -> ids_below M (BPlusTree.next_node_id s) ->
  settles s M (BPlusTree.update_node n s).
Proof.
  intros Hid Hnext M I HL Hids. unfold BPlusTree.update_node. rewrite Hid. fold M. eexists. split; [done|].
  split_and!; [|done|done]. split; [|done]. exists G. split; [done|exact HL].
Qed.

Lemma split_internal_run rec s G q (N : InternalNode.t) a b h H room :
  posts rec room -> let M := <[q := BPlusTreeNode.Internal N]> (BPlusTree.nodes s) in
  inv G (BPlusTree.root_id s) M -> leftmost_ok s G M -> ids_below M (BPlusTree.next_node_id s) ->
  (forall c m, BPlusTree.nodes s !! c = Some m -> BPlusTreeNode.id m = c) ->
  0 <= BPlusTree.next_node_id s -> G !! q = Some (a, b, h) ->
  G !! BPlusTree.root_id s = Some (None, None, H) -> (H - h <= room)%nat ->
  BPlusTree.next_node_id s + Z.of_nat (H - h) + 2 < 2 ^ 64 ->
  (2 <= BPlusTree.max_keys (BPlusTree.config s) <= length (InternalNode.keys N))%nat ->
  settles s M (BPlusTree.split_internal rec (BPlusTreeNode.Internal N) s).
Proof.
  intros Hrec M I HL Hids Hidm H0 HGq HGr Hroom Hover Hmax.
  assert (Hq : M !! q = Some (BPlusTreeNode.Internal N)) by (unfold M; by rewrite lookup_insert_eq).
  destruct (inv_shape I _ _ _ _ _ Hq HGq) as (_ & Hid & h' & -> & HK). simpl in Hid.
  destruct (internal_split_spec N) as (ks1 & sep & ks2 & cs1 & cs2 & Hks & Hcs & _ & Hl & Hsplit);
    [lia|by eapply kids_length|].
  set (new := BPlusTree.next_node_id s) in *.
  assert (Hnew : M !! new = None). { destruct (M !! new) eqn:E; [apply Hids in E; lia|done]. }
  unfold BPlusTree.split_internal, BPlusTree.allocate_node_id, BPlusTree.lift.
  unfold BPlusTree.bind at 1. unfold BPlusTree.bind at 1. cbn [BPlusTreeNode.split_internal]. rewrite Hsplit.
  cbn [BPlusTree.string_error BPlusTreeNode.id BPlusTreeNode.get_all_children InternalNode.id InternalNode.children InternalNode.keys InternalNode.parent].
  fold new. set (s1 := BPlusTree.mk _ _ _ _ _).
  pose proof (halves_internal new N ks1 sep ks2 cs1 cs2 Hks Hcs Hl) as Hhalves.
  destruct (for_each_set_parent new cs2 s1) as (s2 & Hrun & Hs2 & Hlk).
  { intros c Hc. destruct (inv_child I q N c Hq) as (? & ? & ? & ? & ? & HG2 & HGc & _ & m & Hm & _).
    { rewrite Hcs. apply elem_of_app. auto. }
    unfold M in Hm. rewrite lookup_insert_ne in Hm; [exists m; split; [done|by apply Hidm]|].
    intros <-. rewrite HGq in *. naive_solver lia. }
  unfold BPlusTree.bind at 1. rewrite Hrun. unfold BPlusTree.update_node, BPlusTree.bind.
  cbn [BPlusTreeNode.id InternalNode.id]. rewrite Hid.
  set (s4 := BPlusTree.with_nodes _ _).
  assert (Hs4 : BPlusTree.config s4 = BPlusTree.config s /\ BPlusTree.root_id s4 = BPlusTree.root_id s /\
    BPlusTree.next_node_id s4 = new + 1 /\ BPlusTree.leftmost_leaf s4 = BPlusTree.leftmost_leaf s).
  { unfold s4. rewrite Hs2. simpl. split_and!; try done. apply wrap_small. lia. }
  destruct Hs4 as (Hc4 & Hr4 & Hn4 & Hl4). apply (settles_config s s4); [done|].
  assert (Hqn : q <> new) by congruence.
  set (nl := BPlusTreeNode.Internal (InternalNode.mk q ks1 cs1 (InternalNode.parent N))) in *.
  set (nr := BPlusTreeNode.Internal (InternalNode.mk new ks2 cs2 (InternalNode.parent N))) in *.
  rewrite Hid in Hhalves. change (settles s4 M (post_split rec nl sep nr s4)).
  apply (tail_settles (G := G) (H := H) (room := room) (i := q) (new := new) (n := BPlusTreeNode.Internal N)
    (lo := a) (hi := b) (h := S h'));
    rewrite ?Hr4, ?Hc4; try done; try lia.
  - by eapply (leftmost_kept s); [|intros ? ? ? ?; eauto|].
  - unfold s4. simpl. by rewrite lookup_insert_ne, lookup_insert_eq.
  - unfold s4. simpl. by rewrite lookup_insert_eq.
  - intros j Hj1 Hj2. unfold s4. simpl. rewrite !lookup_insert_ne, Hlk by done. unfold M. by rewrite lookup_insert_ne.
Qed.

Lemma insert_into_parent_posts fuel : posts (BPlusTree.insert_into_parent fuel) fuel.
Proof.
  induction fuel as [|fuel IH]; intros s G q qn qn' a b hq H key right_child Hq Hins M I HL Hids H0 HGq HGr Hroom Hover Hmax; [lia|].
  assert (Hq' : M !! q = Some (BPlusTreeNode.Internal qn')) by (unfold M; by rewrite lookup_insert_eq).
  destruct (inv_shape I _ _ _ _ _ Hq' HGq) as (_ & Hid & _). simpl in Hid.
  assert (Hid0 : InternalNode.id qn = q).
  { unfold InternalNode.insert_key_child in Hins. destruct (_ <=? _)%nat; [|done]. by injection Hins as <-. }
  cbn [BPlusTree.insert_into_parent].
  unfold BPlusTree.bind at 1, BPlusTree.get_node. rewrite Hq. cbn [ok_or].
  unfold BPlusTree.bind at 1, BPlusTree.lift. cbn [BPlusTreeNode.insert_internal_entry]. rewrite Hins. cbn [fmap option_fmap option_map or_panic].
  unfold BPlusTree.bind at 1, BPlusTree.read. unfold BPlusTreeNode.is_full. cbn [BPlusTreeNode.key_count].
  destruct (Nat.leb_spec (BPlusTree.max_keys (BPlusTree.config s)) (length (InternalNode.keys qn'))) as [Hfull|Hnot].
  - apply (split_internal_run _ s G q qn' a b hq H fuel); auto; try lia.
    intros c m Hc. destruct (decide (q = c)) as [<-|Hne]; [rewrite Hq in Hc; by injection Hc as <-|].
    destruct (inv_node _ _ _ I c m) as (_ & _ & _ & _ & _ & ? & _); [|done]. unfold M. by rewrite lookup_insert_ne.
  - apply (update_settles s G q); auto. lia.
Qed.

(** ** Rewriting one leaf *)

Section leaf.
Context {G : ghost} {root : Z} {M : store} (I : inv G root M).
Context {j : Z} {l : LeafNode.t} {lo hi : option (list Z)} {es : list (list Z * list Z)}.
Hypothesis Hj : M !! j = Some (BPlusTreeNode.Leaf l).
Hypothesis HGj : G !! j = Some (lo, hi, 0%nat).
Hypothesis Hes : sorted_by fst es.
Hypothesis HF : Forall (fun e => inside lo hi e.1) es.

Definition leaf_store : store := <[j := BPlusTreeNode.Leaf (LeafNode.set_entries l es)]> M.

Lemma leaf_store_kept : leaves_kept G M G leaf_store.
Proof using Hj HGj.
  intros x l' lo' hi' Hx HGx. unfold leaf_store. destruct (decide (j = x)) as [->|]; [rewrite lookup_insert_eq; eauto|].
  rewrite lookup_insert_ne by done. eauto.
Qed.

Lemma leaf_store_parent c m : M !! c = Some m ->
  exists m', leaf_store !! c = Some m' /\ BPlusTreeNode.parent m' = BPlusTreeNode.parent m.
Proof using Hj HGj.
  intros Hc. unfold leaf_store. destruct (decide (j = c)) as [->|]; [rewrite lookup_insert_eq|rewrite lookup_insert_ne by done]; eauto.
  rewrite Hj in Hc. injection Hc as <-. eauto.
Qed.

Lemma leaf_store_inv : inv G root leaf_store.
Proof using All.
  split.
  - intros i n Hi. unfold leaf_store in Hi. rewrite lookup_insert_Some in Hi. destruct Hi as [(<- & <-)|(Hne & Hi)].
    + destruct (inv_shape I _ _ _ _ _ Hj HGj) as (? & ? & _ & _ & _ & Hn). exists lo, hi, 0%nat.
      split_and!; auto. split_and!; auto. eapply next_ok_transport; [apply leaf_store_kept|exact Hn].
    + destruct (inv_node _ _ _ I _ _ Hi) as (a & b & h & HGi & ? & ? & Hsh). exists a, b, h. split_and!; auto.
      eapply shape_transport; [exact Hsh| |apply leaf_store_kept].
      intros c a' b' h' _ (? & ? & m & Hm & Hmp). split_and!; auto.
      destruct (leaf_store_parent c m Hm) as (m' & ? & ?). exists m'. split; [done|congruence].
  - destruct (inv_root _ _ _ I) as (r & h & Hr & Hrp & HGr).
    destruct (leaf_store_parent root r Hr) as (r' & ? & ?). exists r', h. split_and!; auto. congruence.
  - intros i n Hi Hne. assert (exists m, M !! i = Some m /\ BPlusTreeNode.parent n = BPlusTreeNode.parent m) as (m & Hm & Hp).
    { unfold leaf_store in Hi. rewrite lookup_insert_Some in Hi. destruct Hi as [(<- & <-)|(_ & Hi)]; eauto. }
    destruct (inv_parent _ _ _ I _ _ Hm Hne) as (p & pn & ? & HMp & ?). exists p, pn. split_and!; [congruence| |done].
    unfold leaf_store. rewrite lookup_insert_ne; [done|]. congruence.
Qed.

(** The entries of [k] change as in the leaf, the others stay. *)
Lemma leaf_store_has s k : BPlusTree.nodes s = M -> inside lo hi k ->
  (forall k' v', k' <> k -> (k', v') ∈ es <-> (k', v') ∈ LeafNode.entries l) ->
  forall k' v', has leaf_store k' v' <-> (k' = k /\ (k, v') ∈ es) \/ (k' <> k /\ has M k' v').
Proof using All.
  intros HM Hin Hsame k' v'. destruct (decide (k' = k)) as [->|Hne].
  - rewrite (has_home leaf_store_inv (BPlusTree.with_nodes s leaf_store) k j (LeafNode.set_entries l es) lo hi);
      [simpl; tauto|done| |done|done]. unfold leaf_store. by rewrite lookup_insert_eq.
  - split; [intros H; right; split; [done|]|intros [[? _]|[_ H]]; [done|]]; revert H; intros (i & li & Hi & Hkv);
      unfold leaf_store in *; destruct (decide (j = i)) as [<-|Hji].
    + rewrite lookup_insert_eq in Hi. injection Hi as <-. exists j, l. split; [done|]. by apply Hsame.
    + rewrite lookup_insert_ne in Hi by done. by exists i, li.
    + rewrite Hj in Hi. injection Hi as <-. eexists j, _. rewrite lookup_insert_eq. split; [done|]. by apply Hsame.
    + exists i, li. by rewrite lookup_insert_ne.
Qed.
End leaf.

(** [split_leaf] of the rewritten leaf. *)
Lemma split_leaf_run s G j L lo hi H : let M := <[j := BPlusTreeNode.Leaf L]> (BPlusTree.nodes s) in
  inv G (BPlusTree.root_id s) M -> leftmost_ok s G M -> ids_below M (BPlusTree.next_node_id s) ->
  0 <= BPlusTree.next_node_id s -> G !! j = Some (lo, hi, 0%nat) ->
  G !! BPlusTree.root_id s = Some (None, None, H) -> (H <= size (BPlusTree.nodes s))%nat ->
  BPlusTree.next_node_id s + Z.of_nat H + 2 < 2 ^ 64 ->
  (2 <= BPlusTree.max_keys (BPlusTree.config s) <= length (LeafNode.entries L))%nat ->
  settles s M (BPlusTree.split_leaf (BPlusTreeNode.Leaf L) s).
Proof.
  intros M I HL Hids H0 HGj HGr Hroom Hover Hmax.
  assert (Hj : M !! j = Some (BPlusTreeNode.Leaf L)) by (unfold M; by rewrite lookup_insert_eq).
  destruct (inv_shape I _ _ _ _ _ Hj HGj) as (_ & Hid & _). simpl in Hid.
  destruct (leaf_split_spec L) as (es1 & sep & v & es2 & He & Hne & Hsplit); [lia|].
  set (new := BPlusTree.next_node_id s) in *.
  assert (Hnew : M !! new = None). { destruct (M !! new) eqn:E; [apply Hids in E; lia|done]. }
  pose proof (halves_leaf new L es1 sep v es2 He Hne) as Hhalves.
  unfold BPlusTree.split_leaf, BPlusTree.read, BPlusTree.allocate_node_id, BPlusTree.lift, BPlusTree.bind, BPlusTree.update_node.
  cbn [BPlusTreeNode.split_leaf]. rewrite Hsplit. cbn -[u64 BPlusTree.depth_fuel BPlusTree.insert_into_parent BPlusTree.create_new_root].
  fold new. rewrite Hid in *. set (s4 := BPlusTree.with_nodes _ _).
  set (fuel := BPlusTree.depth_fuel s).
  assert (Hn4 : BPlusTree.next_node_id s4 = new + 1) by (apply wrap_small; lia).
  apply (settles_config s s4); [done|].
  match type of Hhalves with halves _ _ _ ?nl ?nr =>
    change (settles s4 M (post_split (BPlusTree.insert_into_parent fuel) nl sep nr s4)) end.
  assert (Hqn : j <> new) by congruence.
  apply (tail_settles (G := G) (H := H) (room := fuel) (i := j) (new := new) (n := BPlusTreeNode.Leaf L)
    (lo := lo) (hi := hi) (h := 0)); try done; try lia.
  - apply insert_into_parent_posts.
  - unfold s4. simpl. by rewrite lookup_insert_ne, lookup_insert_eq.
  - unfold s4. simpl. by rewrite lookup_insert_eq.
  - intros i Hi1 Hi2. unfold s4. simpl.
    rewrite !lookup_insert_ne by done. unfold M. by rewrite lookup_insert_ne.
  - unfold fuel, BPlusTree.depth_fuel. lia.
  - exact (proj1 Hmax).
Qed.

(** [insert] succeeds, keeps the invariant and adds one entry to the contents. *)
Lemma insert_contents s k v : tree_ok s -> (2 <= BPlusTree.max_keys (BPlusTree.config s))%nat ->
  BPlusTree.next_node_id s + Z.of_nat (size (BPlusTree.nodes s)) + 2 < 2 ^ 64 ->
  exists s', BPlusTree.insert k v s = (Ok tt, s') /\ tree_ok s' /\ contents s' = <[k := v]> (contents s) /\
             BPlusTree.config s' = BPlusTree.config s.
Proof.
  intros ((G & I & HL) & Hids & H0 & _) Hmax Hover.
  destruct (find_leaf_home I s k eq_refl) as (j & l & lo & hi & Hf & Hj & HGj & Hin & _).
  destruct (inv_shape I _ _ _ _ _ Hj HGj) as (_ & Hid & _ & Hs & HF & _).
  destruct (leaf_insert_spec l k v Hs) as (l1 & l2 & es & Hins & Hes & Hlt & Hgt & Hsorted & Hmap & Hold).
  assert (HFes : Forall (fun e => inside lo hi e.1) es).
  { rewrite Forall_forall in *. intros e. rewrite Hes, elem_of_app, elem_of_cons.
    intros [He|[->|He]]; [| done |]; apply HF, Hold, elem_of_app; auto. }
  pose proof (leaf_store_inv I Hj HGj Hsorted HFes) as I'.
  assert (Hsame : forall k' v', k' <> k -> (k', v') ∈ es <-> (k', v') ∈ LeafNode.entries l).
  { intros k2 v2 Hne. rewrite <- !to_map_elem by done. by rewrite Hmap, lookup_insert_ne. }
  pose proof (leaf_store_has I Hj HGj Hsorted HFes s k eq_refl Hin Hsame) as Hhas.
  assert (HL' : leftmost_ok s G (leaf_store (M := BPlusTree.nodes s) (j := j) (l := l) (es := es))).
  { eapply leftmost_kept; [done|exact (leaf_store_kept Hj HGj)|exact HL]. }
  assert (Hids' : ids_below (leaf_store (M := BPlusTree.nodes s) (j := j) (l := l) (es := es)) (BPlusTree.next_node_id s)).
  { intros i n. unfold leaf_store. rewrite lookup_insert_Some. intros [(<- & _)|(_ & Hi)]; eauto. }
  destruct (inv_root _ _ _ I) as (r & H & Hr & _ & HGr).
  pose proof (height_lt_size I _ _ _ _ _ Hr HGr) as Hsz.
  assert (Hset : settles s (leaf_store (M := BPlusTree.nodes s) (j := j) (l := l) (es := es)) (BPlusTree.insert k v s)).
  { unfold BPlusTree.insert, BPlusTree.read, BPlusTree.get_node. unfold BPlusTree.bind at 1.
    unfold BPlusTree.bind at 1. rewrite Hf. unfold BPlusTree.bind at 1. rewrite Hj. cbn [ok_or BPlusTreeNode.insert_entry].
    rewrite Hins. cbv beta iota zeta. unfold BPlusTree.bind, BPlusTreeNode.is_full. cbn [BPlusTreeNode.key_count].
    destruct (Nat.leb_spec (BPlusTree.max_keys (BPlusTree.config s)) (length (LeafNode.entries (LeafNode.set_entries l es)))).
    - apply (split_leaf_run s G j _ lo hi H); auto; lia.
    - apply (update_settles s G j); auto. lia. }
  destruct Hset as (s' & Hrun & Hok & Hhas' & Hcfg). exists s'. split_and!; auto.
  destruct Hok as ((G' & I2 & _) & _). apply (contents_eq G'); [done|]. intros k' v'.
  rewrite Hhas', Hhas, lookup_insert_Some, (contents_has G s) by done.
  assert (Hk : forall v', (k, v') ∈ es <-> v' = v).
  { intros v2. rewrite <- to_map_elem, Hmap by done.
    rewrite lookup_insert_eq. naive_solver. }
  rewrite Hk. naive_solver.
Qed.

Lemma new_tree_ok c : tree_ok (BPlusTree.new c).
Proof.
  split; [|split; [|simpl; lia]].
  - exists {[0 := (None, None, 0%nat)]}. split.
    + split; simpl.
      * intros i n Hi. apply lookup_singleton_Some in Hi as [<- <-]. exists None, None, 0%nat.
        split_and!; [by rewrite lookup_singleton_eq|done|done|]. simpl. split_and!; auto using sorted_by_nil.
      * exists (BPlusTreeNode.new_leaf 0), 0%nat. by rewrite !lookup_singleton_eq.
      * intros i n Hi. apply lookup_singleton_Some in Hi as [<- <-]. done.
    + eexists 0, _, None. simpl. by rewrite !lookup_singleton_eq.
  - intros i n. simpl. rewrite lookup_singleton_Some. lia.
Qed.
