(* ===== verification/BTreeDelete.v ===== *)
(** * Deletion from the B+Tree

    Rebalancing rewrites two neighbouring children of one parent: a borrow
    moves the key between them, a merge replaces them by one.  [local_inv]
    shows that such a step keeps the invariant; the borrow and merge functions
    are its instances, and [handle_underflow] a chain of them up the tree. *)

From Stdlib Require Import ZArith Lia.
From stdpp Require Import sorting gmap option strings fin_maps fin_map_dom base list.
From S2P Require Import Prelude BTreeError BTreeNode BTreeTree BTreeShape BTreeInv BTreeInsert.

Open Scope Z_scope.
Implicit Types (s : BPlusTree.t) (G : ghost) (M : store) (lo hi : option (list Z)) (h : nat) (n : node).

(** ** Nodes that differ in pointers only *)

Definition sim n n' : Prop :=
  match n, n' with
  | BPlusTreeNode.Leaf a, BPlusTreeNode.Leaf b =>
      LeafNode.id a = LeafNode.id b /\ LeafNode.entries a = LeafNode.entries b /\ LeafNode.next a = LeafNode.next b
  | BPlusTreeNode.Internal a, BPlusTreeNode.Internal b =>
      InternalNode.id a = InternalNode.id b /\ InternalNode.keys a = InternalNode.keys b /\
      InternalNode.children a = InternalNode.children b
  | _, _ => False
  end.

Lemma sim_refl n : sim n n.
Proof. by destruct n. Qed.

Lemma sim_set_parent n q : sim n (BPlusTreeNode.set_parent n q).
Proof. by destruct n. Qed.

Lemma sim_trans n1 n2 n3 : sim n1 n2 -> sim n2 n3 -> sim n1 n3.
Proof. destruct n1, n2, n3; simpl; naive_solver congruence. Qed.

Lemma sim_leaf_entries n n' : sim n n' -> leaf_entries n = leaf_entries n'.
Proof. destruct n, n'; simpl; naive_solver. Qed.

Lemma sim_shape G M i lo hi h n n' : sim n n' -> shape_ok G M i lo hi h n -> shape_ok G M i lo hi h n'.
Proof.
  destruct n as [a|a], n' as [b|b]; simpl; try done.
  - by intros (_ & -> & ->).
  - by intros (_ & -> & ->).
Qed.

Lemma sim_id n n' : sim n n' -> BPlusTreeNode.id n = BPlusTreeNode.id n'.
Proof. destruct n, n'; simpl; naive_solver. Qed.

(** Two leaves that end at the same key are one leaf. *)
Lemma leaf_end_unique {G root M} (I : inv G root M) x y nx ny lox loy k :
  M !! x = Some nx -> M !! y = Some ny ->
  G !! x = Some (lox, Some k, 0%nat) -> G !! y = Some (loy, Some k, 0%nat) -> x = y.
Proof.
  intros Hx Hy HGx HGy.
  destruct (inv_shape I _ _ _ _ _ Hx HGx) as (Hgx & _). destruct (inv_shape I _ _ _ _ _ Hy HGy) as (Hgy & _).
  set (s := BPlusTree.mk BPlusTree.default_config root M 0 None).
  set (key := if decide (bytes_le (default [] lox) (default [] loy)) then default [] loy else default [] lox).
  assert (Hin : inside lox (Some k) key /\ inside loy (Some k) key).
  { assert (Habove : forall lo x, bytes_le (default [] lo) x -> above lo x) by (by intros [|]).
    subst key. case_decide as Hle; split; try (by apply gap_inside).
    - split; [by apply Habove|done].
    - split; [|done]. apply Habove, bytes_le_not_lt. intros Hlt. apply Hle. by apply bytes_lt_le. }
  destruct Hin as [Hin1 Hin2].
  destruct (find_leaf_home I s key eq_refl) as (j & _ & _ & _ & _ & _ & _ & _ & Hu).
  transitivity j; [|symmetry]; eapply Hu; eauto.
Qed.

(** ** Rewriting two neighbours under one parent *)

Section local.
Context {G : ghost} {root : Z} {M : store} (I : inv G root M) {G' : ghost} {M' : store}.
Context {p l r : Z} {pn pn' : InternalNode.t} {L R : node} {a b llo rhi : option (list Z)} {h : nat} {k : list Z}.
Context {ks1 ks2 kD' : list (list Z)} {cs1 cs2 D' : list Z}.
Hypothesis Hp : M !! p = Some (BPlusTreeNode.Internal pn).
Hypothesis HGp : G !! p = Some (a, b, S h).
Hypothesis Hks : InternalNode.keys pn = ks1 ++ [k] ++ ks2.
Hypothesis Hcs : InternalNode.children pn = cs1 ++ [l; r] ++ cs2.
Hypothesis Hlen : length ks1 = length cs1.
Hypothesis Hl : M !! l = Some L.
Hypothesis Hr : M !! r = Some R.
Hypothesis HGl : G !! l = Some (llo, Some k, h).
Hypothesis HGr : G !! r = Some (Some k, rhi, h).
Hypothesis HD' : D' = [l; r] \/ D' = [l].
Hypothesis HlenD : length D' = S (length kD').
Hypothesis HG' : forall j, j <> l -> j <> r -> G' !! j = G !! j.
Hypothesis Hp' : M' !! p = Some (BPlusTreeNode.Internal pn').
Hypothesis Hks' : InternalNode.keys pn' = ks1 ++ kD' ++ ks2.
Hypothesis Hcs' : InternalNode.children pn' = cs1 ++ D' ++ cs2.
Hypothesis Hpid : InternalNode.id pn' = InternalNode.id pn.
Hypothesis Hppar : InternalNode.parent pn' = InternalNode.parent pn.
Hypothesis Hkids : kids (fun x lo hi => G' !! x = Some (lo, hi, h) /\ gap lo hi) llo kD' D' rhi.
Hypothesis Hnew : forall x, x ∈ D' -> exists X, M' !! x = Some X /\ BPlusTreeNode.parent X = Some p /\ node_ok G' M' x X.
Hypothesis Hgone : r ∉ D' -> M' !! r = None.
Hypothesis Hother : forall j, j <> l -> j <> r -> j <> p ->
  match M !! j with
  | None => M' !! j = None
  | Some m =>
      exists m', M' !! j = Some m' /\ sim m m' /\
        if decide (BPlusTreeNode.parent m = Some l \/ BPlusTreeNode.parent m = Some r)
        then exists x X, x ∈ D' /\ BPlusTreeNode.parent m' = Some x /\
               M' !! x = Some (BPlusTreeNode.Internal X) /\ j ∈ InternalNode.children X
        else BPlusTreeNode.parent m' = BPlusTreeNode.parent m
  end.
Hypothesis Hleaf : forall lf, L = BPlusTreeNode.Leaf lf ->
  exists lf' hi', M' !! l = Some (BPlusTreeNode.Leaf lf') /\ G' !! l = Some (llo, hi', h).

Lemma local_distinct : l <> r /\ l <> p /\ r <> p /\ l <> root /\ r <> root /\
  BPlusTreeNode.parent L = Some p /\ BPlusTreeNode.parent R = Some p.
Proof using All.
  pose proof (children_NoDup I _ _ Hp) as HN. rewrite Hcs in HN.
  destruct (inv_child I p pn l Hp) as (? & ? & ? & ? & ? & _ & _ & _ & m & Hm & Hmp); [rewrite Hcs; set_solver|].
  destruct (inv_child I p pn r Hp) as (? & ? & ? & ? & ? & _ & _ & _ & m2 & Hm2 & Hmp2); [rewrite Hcs; set_solver|].
  rewrite Hl in Hm. injection Hm as <-. rewrite Hr in Hm2. injection Hm2 as <-.
  destruct (inv_root _ _ _ I) as (rt & h0 & Hrt & Hrtp & _).
  split_and!; try done; try congruence.
  - intros ->. apply NoDup_app in HN as (_ & _ & HN). simpl in HN. apply NoDup_cons in HN as [HN _]. apply HN. apply list_elem_of_here.
  - intros ->. rewrite HGp in HGl. injection HGl. lia.
  - intros ->. rewrite HGp in HGr. injection HGr. lia.
Qed.

Lemma local_p_parent : BPlusTreeNode.parent (BPlusTreeNode.Internal pn') = BPlusTreeNode.parent (BPlusTreeNode.Internal pn).
Proof using Hppar. done. Qed.

(** A node outside the pair whose parent is outside it keeps its parent. *)
Lemma local_keep j m : M !! j = Some m -> j <> l -> j <> r ->
  BPlusTreeNode.parent m <> Some l -> BPlusTreeNode.parent m <> Some r ->
  exists m', M' !! j = Some m' /\ BPlusTreeNode.parent m' = BPlusTreeNode.parent m.
Proof using All.
  intros Hj ? ? ? ?. destruct (decide (j = p)) as [->|Hjp].
  - rewrite Hp in Hj. injection Hj as <-. eexists. split; [done|]. apply local_p_parent.
  - pose proof (Hother j) as Ho. rewrite Hj in Ho. destruct Ho as (m' & ? & _ & Hpar); [done..|].
    rewrite decide_False in Hpar by tauto. eauto.
Qed.

Lemma local_leaf_kept x lf lo hi : M !! x = Some (BPlusTreeNode.Leaf lf) -> G !! x = Some (lo, hi, 0%nat) -> x <> r ->
  exists lf' hi', M' !! x = Some (BPlusTreeNode.Leaf lf') /\ G' !! x = Some (lo, hi', 0%nat).
Proof using All.
  intros Hx HGx Hxr. destruct (decide (x = l)) as [->|Hxl].
  - rewrite Hl in Hx. injection Hx as HL. rewrite HGl in HGx. injection HGx as <- <- <-. by apply (Hleaf lf).
  - assert (x <> p) by congruence. pose proof (Hother x) as Ho. rewrite Hx in Ho. destruct Ho as (m' & ? & Hsim & _); [done..|].
    destruct m' as [|lf']; [done|]. exists lf', hi. by rewrite HG'.
Qed.

Lemma local_node_other j m : M' !! j = Some m -> j <> l -> j <> r -> j <> p -> node_ok G' M' j m.
Proof using All.
  intros Hj Hjl Hjr Hjp. pose proof (Hother j Hjl Hjr Hjp) as Ho. destruct (M !! j) as [m0|] eqn:Hm0; [|congruence].
  destruct Ho as (m' & Hm' & Hsim & _). rewrite Hj in Hm'. injection Hm' as <-.
  destruct local_distinct as (_ & Hlp & Hrp & _ & _ & HLp & HRp).
  destruct (inv_node _ _ _ I _ _ Hm0) as (lo & hi & hj & HGj & Hg & Hid & Hsh).
  exists lo, hi, hj. rewrite HG' by done. split_and!; auto; [by rewrite <- (sim_id _ _ Hsim)|].
  apply (sim_shape _ _ _ _ _ _ _ _ Hsim). destruct m0 as [N|lf].
  - destruct Hsh as (h' & -> & HK). exists h'. split; [done|]. eapply kids_impl; [|exact HK].
    intros c lo' hi' _ (HGc & Hgc & mc & Hmc & Hmp).
    assert (c <> l) by congruence. assert (c <> r) by congruence.
    split_and!; [by rewrite HG'|done|]. destruct (local_keep c mc) as (mc' & ? & ?); try done; try congruence.
    exists mc'. split; [done|congruence].
  - destruct Hsh as (-> & ? & ? & Hn). split_and!; auto. destruct (LeafNode.next lf) as [x|]; [|done].
    destruct Hn as (Hhi & lx & hix & Hx & HGx). split; [done|].
    destruct (decide (x = r)) as [->|Hxr].
    + exfalso. rewrite HGr in HGx. injection HGx as <- <- Hh.
      apply Hjl. eapply (leaf_end_unique I j l _ L _ llo k); eauto. by rewrite HGl, Hh.
    + destruct (local_leaf_kept x lx hi hix Hx HGx Hxr) as (lx' & hix' & ? & ?). eauto.
Qed.

Lemma local_node_p : node_ok G' M' p (BPlusTreeNode.Internal pn').
Proof using All.
  destruct local_distinct as (Hlr & Hlp & Hrp & _ & _ & HLp & HRp).
  destruct (inv_shape I _ _ _ _ _ Hp HGp) as (Hg & Hid & h' & [= <-] & HK).
  pose proof (children_NoDup I _ _ Hp) as HN. rewrite Hks, Hcs in HK. rewrite Hcs in HN.
  exists a, b, (S h). rewrite HG' by done. split_and!; [done|done|by rewrite <- Hid|]. exists h. split; [done|].
  rewrite Hks', Hcs'.
  destruct (kids_seg (child_of G M p h) a ks1 [k] ks2 cs1 [l; r] cs2 b Hlen eq_refl HK) as (clo & chi & ((HGl' & _) & (HGr' & _)) & Hz).
  rewrite HGl in HGl'. injection HGl' as <-. rewrite HGr in HGr'. injection HGr' as <-.
  apply Hz; [|done|].
  - intros c lo hi Hc (HGc & Hgc & m & Hm & Hmp).
    assert (c <> l /\ c <> r) as [Hcl Hcr].
    { apply NoDup_app in HN as (_ & HN1 & HN2). apply NoDup_app in HN2 as (_ & HN2 & _).
      apply elem_of_app in Hc as [Hc|Hc].
      - specialize (HN1 c Hc). set_solver.
      - split; intros ->; [apply (HN2 l)|apply (HN2 r)]; set_solver. }
    split_and!; [by rewrite HG'|done|]. destruct (local_keep c m) as (m' & ? & ?); try done; try congruence.
    exists m'. split; [done|congruence].
  - eapply kids_impl; [|exact Hkids]. intros x lo hi Hx [HGx Hgx]. split_and!; auto.
    destruct (Hnew x Hx) as (X & ? & ? & _). eauto.
Qed.

Lemma local_inv : inv G' root M'.
Proof using All.
  destruct local_distinct as (Hlr & Hlp & Hrp & Hlroot & Hrroot & HLp & HRp). split.
  - intros j m Hj. destruct (decide (j ∈ D')) as [Hin|Hin].
    { destruct (Hnew j Hin) as (X & HX & _ & ?). rewrite HX in Hj. by injection Hj as <-. }
    assert (j <> l) by (destruct HD' as [-> | ->]; set_solver).
    destruct (decide (j = r)) as [->|]; [rewrite Hgone in Hj by done; done|].
    destruct (decide (j = p)) as [->|]; [rewrite Hp' in Hj; injection Hj as <-; apply local_node_p|].
    by apply local_node_other.
  - destruct (inv_root _ _ _ I) as (rt & h0 & Hrt & Hrtp & HGrt).
    destruct (local_keep root rt) as (rt' & ? & ?); try done; try congruence.
    exists rt', h0. rewrite HG' by done. split_and!; auto. congruence.
  - intros j m Hj Hroot. destruct (decide (j ∈ D')) as [Hin|Hin].
    { destruct (Hnew j Hin) as (X & HX & HXp & _). rewrite HX in Hj. injection Hj as <-. exists p, pn'. split_and!; auto.
      rewrite Hcs', !elem_of_app. auto. }
    assert (j <> l) by (destruct HD' as [-> | ->]; set_solver).
    destruct (decide (j = r)) as [->|]; [rewrite Hgone in Hj by done; done|].
    assert (Hup : forall q qn, M !! q = Some (BPlusTreeNode.Internal qn) -> q <> l -> q <> r -> j ∈ InternalNode.children qn ->
      exists qn', M' !! q = Some (BPlusTreeNode.Internal qn') /\ j ∈ InternalNode.children qn').
    { intros q qn Hq ? ? Hjq. destruct (decide (q = p)) as [->|Hqp].
      - rewrite Hp in Hq. injection Hq as <-. exists pn'. split; [done|]. rewrite Hcs' , !elem_of_app.
        rewrite Hcs, !elem_of_app in Hjq. set_solver.
      - pose proof (Hother q) as Ho. rewrite Hq in Ho. destruct Ho as (m' & ? & Hsim & _); [done..|].
        destruct m' as [qn'|]; [|done]. exists qn'. split; [done|]. by destruct Hsim as (_ & _ & <-). }
    destruct (decide (j = p)) as [->|Hjp].
    + rewrite Hp' in Hj. injection Hj as <-.
      destruct (inv_parent _ _ _ I _ _ Hp Hroot) as (q & qn & Hq & HMq & Hjq).
      destruct (parent_height I p _ _ _ _ _ Hp HGp Hq) as (_ & qa & qb & _ & _ & HGq).
      destruct (Hup q qn) as (qn' & ? & ?); auto.
      * intros ->. rewrite HGl in HGq. injection HGq. lia.
      * intros ->. rewrite HGr in HGq. injection HGq. lia.
      * exists q, qn'. split_and!; auto. rewrite local_p_parent. done.
    + pose proof (Hother j) as Ho. destruct (M !! j) as [m0|] eqn:Hm0; [|rewrite Ho in Hj by done; done].
      destruct Ho as (m' & Hm' & _ & Hpar); [done..|]. rewrite Hj in Hm'. injection Hm' as <-. case_decide as Hc.
      * destruct Hpar as (x & X & Hx & ? & ? & ?). exists x, X. auto.
      * destruct (inv_parent _ _ _ I _ _ Hm0 Hroot) as (q & qn & Hq & HMq & Hjq).
        destruct (Hup q qn) as (qn' & ? & ?); auto; [by intros ->; tauto..|]. exists q, qn'. split_and!; auto. congruence.
Qed.

Lemma local_leftmost s : leftmost_ok s G M -> leftmost_ok s G' M'.
Proof using All.
  intros (i & lf & hi & Hs & Hi & HGi). destruct (local_leaf_kept i lf None hi Hi HGi) as (lf' & hi' & ? & ?).
  { intros ->. rewrite HGr in HGi. discriminate. }
  exists i, lf', hi'. auto.
Qed.

Lemma local_has : (forall e, e ∈ leaf_entries L ++ leaf_entries R <-> exists x X, x ∈ D' /\ M' !! x = Some X /\ e ∈ leaf_entries X) ->
  forall k v, has M' k v <-> has M k v.
Proof using All.
  intros He k' v. destruct local_distinct as (Hlr & Hlp & Hrp & Hlroot & Hrroot & HLp & HRp).
  rewrite !has_leaf_entries. split.
  - intros (j & m & Hj & Hkv). destruct (decide (j ∈ D')) as [Hin|Hin].
    + assert (Hlr' : (k', v) ∈ leaf_entries L ++ leaf_entries R) by (apply He; eauto).
      apply elem_of_app in Hlr' as [?|?]; eauto.
    + assert (j <> l) by (destruct HD' as [-> | ->]; set_solver).
      destruct (decide (j = r)) as [->|]; [rewrite Hgone in Hj by done; done|].
      destruct (decide (j = p)) as [->|]; [rewrite Hp' in Hj; injection Hj as <-; by apply not_elem_of_nil in Hkv|].
      pose proof (Hother j) as Ho. destruct (M !! j) as [m0|] eqn:Hm0; [|rewrite Ho in Hj by done; done].
      destruct Ho as (m' & Hm' & Hsim & _); [done..|]. rewrite Hj in Hm'. injection Hm' as <-.
      exists j, m0. split; [done|]. by rewrite (sim_leaf_entries _ _ Hsim).
  - intros (j & m & Hj & Hkv). destruct (decide (j = l \/ j = r)) as [Hin|Hin].
    + destruct (He (k', v)) as [He1 _]. destruct He1 as (x & X & _ & ? & ?); [|by exists x, X].
      apply elem_of_app. destruct Hin as [-> | ->]; [left|right]; congruence.
    + destruct (decide (j = p)) as [->|]; [rewrite Hp in Hj; injection Hj as <-; by apply not_elem_of_nil in Hkv|].
      pose proof (Hother j) as Ho. rewrite Hj in Ho. destruct Ho as (m' & ? & Hsim & _); [tauto..|done|].
      exists j, m'. split; [done|]. by rewrite <- (sim_leaf_entries _ _ Hsim).
Qed.

Lemma local_step : (forall e, e ∈ leaf_entries L ++ leaf_entries R <-> exists x X, x ∈ D' /\ M' !! x = Some X /\ e ∈ leaf_entries X) ->
  inv G' root M' /\ (forall s, leftmost_ok s G M -> leftmost_ok s G' M') /\ (forall k v, has M' k v <-> has M k v) /\
  (forall j, j <> l -> j <> r -> G' !! j = G !! j).
Proof using All. intros He. split_and!; [exact local_inv|exact local_leftmost|exact (local_has He)|done]. Qed.
End local.

(** ** Neighbours *)

Section pair.
Context {G : ghost} {root : Z} {M : store} (I : inv G root M).

Lemma pair_at p pn cs1 l r cs2 : M !! p = Some (BPlusTreeNode.Internal pn) ->
  InternalNode.children pn = cs1 ++ [l; r] ++ cs2 ->
  exists ks1 k ks2 L R a b llo rhi h,
    InternalNode.keys pn = ks1 ++ [k] ++ ks2 /\ length ks1 = length cs1 /\
    M !! l = Some L /\ M !! r = Some R /\ G !! p = Some (a, b, S h) /\
    G !! l = Some (llo, Some k, h) /\ G !! r = Some (Some k, rhi, h).
Proof using I.
  intros Hp Hcs. destruct (inv_ghost I _ _ Hp) as (a & b & hp & HGp).
  destruct (inv_shape I _ _ _ _ _ Hp HGp) as (_ & _ & h & -> & HK).
  pose proof (kids_length _ _ _ _ _ HK) as Hlen. rewrite Hcs, !length_app in Hlen. simpl in Hlen.
  destruct (lookup_lt_is_Some_2 (InternalNode.keys pn) (length cs1)) as [k Hk]; [lia|].
  set (ks1 := take (length cs1) (InternalNode.keys pn)). set (ks2 := drop (S (length cs1)) (InternalNode.keys pn)).
  assert (Hks : InternalNode.keys pn = ks1 ++ [k] ++ ks2) by (symmetry; by apply take_drop_middle).
  assert (Hl1 : length ks1 = length cs1) by (unfold ks1; rewrite length_take; lia).
  rewrite Hks, Hcs in HK.
  destruct (kids_seg (child_of G M p h) a ks1 [k] ks2 cs1 [l; r] cs2 b Hl1 eq_refl HK)
    as (llo & rhi & ((HGl & _ & L & HL & _) & (HGr & _ & R & HR & _)) & _).
  exists ks1, k, ks2, L, R, a, b, llo, rhi, h. auto 10.
Qed.

(** The leaf after one that ends at [k] starts at [k]; leaves that start at one key are one leaf. *)
Lemma leaf_start_unique x y nx ny k hx hy : M !! x = Some nx -> M !! y = Some ny ->
  G !! x = Some (Some k, hx, 0%nat) -> G !! y = Some (Some k, hy, 0%nat) -> x = y.
Proof using I.
  intros Hx Hy HGx HGy.
  destruct (inv_shape I _ _ _ _ _ Hx HGx) as (Hgx & _). destruct (inv_shape I _ _ _ _ _ Hy HGy) as (Hgy & _).
  set (s := BPlusTree.mk BPlusTree.default_config root M 0 None).
  destruct (find_leaf_home I s k eq_refl) as (j & _ & _ & _ & _ & _ & _ & _ & Hu).
  apply gap_inside in Hgx, Hgy. transitivity j; [|symmetry]; eapply Hu; eauto.
Qed.
End pair.

(** One entry, or one child, moved between two neighbours. *)
Inductive shifted (k : list Z) : node -> node -> list Z -> node -> node -> Prop :=
| shifted_leaf l0 r0 el k' v er :
    LeafNode.entries l0 ++ LeafNode.entries r0 = el ++ (k', v) :: er -> el <> [] ->
    shifted k (BPlusTreeNode.Leaf l0) (BPlusTreeNode.Leaf r0) k'
      (BPlusTreeNode.Leaf (LeafNode.set_entries l0 el)) (BPlusTreeNode.Leaf (LeafNode.set_entries r0 ((k', v) :: er)))
| shifted_internal l0 r0 kl k' kr cl cr :
    InternalNode.keys l0 ++ k :: InternalNode.keys r0 = kl ++ k' :: kr ->
    InternalNode.children l0 ++ InternalNode.children r0 = cl ++ cr -> length cl = S (length kl) ->
    shifted k (BPlusTreeNode.Internal l0) (BPlusTreeNode.Internal r0) k'
      (BPlusTreeNode.Internal (InternalNode.mk (InternalNode.id l0) kl cl (InternalNode.parent l0)))
      (BPlusTreeNode.Internal (InternalNode.mk (InternalNode.id r0) kr cr (InternalNode.parent r0))).

(** Two neighbours joined into the left one. *)
Inductive merged (k : list Z) : node -> node -> node -> Prop :=
| merged_leaf l0 r0 :
    merged k (BPlusTreeNode.Leaf l0) (BPlusTreeNode.Leaf r0)
      (BPlusTreeNode.Leaf (LeafNode.mk (LeafNode.id l0) (LeafNode.entries l0 ++ LeafNode.entries r0)
                                       (LeafNode.next r0) (LeafNode.prev l0) (LeafNode.parent l0)))
| merged_internal l0 r0 :
    merged k (BPlusTreeNode.Internal l0) (BPlusTreeNode.Internal r0)
      (BPlusTreeNode.Internal (InternalNode.mk (InternalNode.id l0) (InternalNode.keys l0 ++ k :: InternalNode.keys r0)
                                               (InternalNode.children l0 ++ InternalNode.children r0) (InternalNode.parent l0))).

(** What a rebalancing step does to a node it does not rewrite: at most its
    pointers change, and its parent is the node that now lists it. *)
Definition repointed M M' (l r : Z) (chl chr : list Z) (j : Z) : Prop :=
  match M !! j with
  | None => M' !! j = None
  | Some m => exists m', M' !! j = Some m' /\ sim m m' /\
      BPlusTreeNode.parent m' =
        (if decide (j ∈ chl) then Some l else if decide (j ∈ chr) then Some r else BPlusTreeNode.parent m)
  end.

Section siblings.
Context {G : ghost} {root : Z} {M : store} (I : inv G root M).
Context {p l r : Z} {pn : InternalNode.t} {L R : node} {a b llo rhi : option (list Z)} {h : nat} {k : list Z}.
Context {ks1 ks2 : list (list Z)} {cs1 cs2 : list Z}.
Hypothesis Hp : M !! p = Some (BPlusTreeNode.Internal pn).
Hypothesis HGp : G !! p = Some (a, b, S h).
Hypothesis Hks : InternalNode.keys pn = ks1 ++ [k] ++ ks2.
Hypothesis Hcs : InternalNode.children pn = cs1 ++ [l; r] ++ cs2.
Hypothesis Hlen : length ks1 = length cs1.
Hypothesis Hl : M !! l = Some L.
Hypothesis Hr : M !! r = Some R.
Hypothesis HGl : G !! l = Some (llo, Some k, h).
Hypothesis HGr : G !! r = Some (Some k, rhi, h).

Definition set_seg (kD : list (list Z)) (D : list Z) : InternalNode.t :=
  InternalNode.mk (InternalNode.id pn) (ks1 ++ kD ++ ks2) (cs1 ++ D ++ cs2) (InternalNode.parent pn).

(** Ghost facts about the grandchildren: one level below, listed once. *)
Definition below_ok (h' : nat) (c : Z) lo hi : Prop := G !! c = Some (lo, hi, h') /\ gap lo hi /\ is_Some (M !! c).

Lemma below_kids l0 r0 : L = BPlusTreeNode.Internal l0 -> R = BPlusTreeNode.Internal r0 ->
  exists h', h = S h' /\ kids (below_ok h') llo (InternalNode.keys l0 ++ k :: InternalNode.keys r0)
    (InternalNode.children l0 ++ InternalNode.children r0) rhi.
Proof using All.
  intros -> ->. destruct (inv_shape I _ _ _ _ _ Hl HGl) as (_ & _ & h' & -> & HKl).
  destruct (inv_shape I _ _ _ _ _ Hr HGr) as (_ & _ & h2 & [= <-] & HKr). exists h'. split; [done|].
  apply kids_app; [by eapply kids_length|]. split; (eapply kids_impl; [|eassumption]); intros c x y _ (? & ? & m & ? & _); split_and!; eauto.
Qed.

Lemma below_gap h' c lo hi : below_ok h' c lo hi -> gap lo hi.
Proof using. by intros (_ & ? & _). Qed.

Lemma below_fun h' c lo hi lo' hi' : below_ok h' c lo hi -> below_ok h' c lo' hi' -> lo = lo' /\ hi = hi'.
Proof using. intros (H1 & _) (H2 & _). rewrite H1 in H2. by injection H2 as <- <-. Qed.

Lemma below_ne h' c lo hi : h = S h' -> below_ok h' c lo hi -> c <> l /\ c <> r /\ c <> p.
Proof using All.
  intros -> (HG & _). split_and!; intros ->; rewrite HG in *; [injection HGl|injection HGr|injection HGp]; lia.
Qed.

Lemma pair_leaf l0 r0 : L = BPlusTreeNode.Leaf l0 -> R = BPlusTreeNode.Leaf r0 ->
  h = 0%nat /\ LeafNode.next l0 = Some r /\ sorted_by fst (LeafNode.entries l0 ++ LeafNode.entries r0) /\
  Forall (fun e => inside llo (Some k) e.1) (LeafNode.entries l0) /\
  Forall (fun e => inside (Some k) rhi e.1) (LeafNode.entries r0) /\ next_ok G M rhi (LeafNode.next r0) /\
  (forall x, LeafNode.next r0 = Some x -> x <> l /\ x <> r).
Proof using All.
  intros -> ->. destruct (inv_shape I _ _ _ _ _ Hl HGl) as (Hgl & _ & -> & Hsl & HFl & Hnl).
  destruct (inv_shape I _ _ _ _ _ Hr HGr) as (Hgr & _ & _ & Hsr & HFr & Hnr). split_and!; auto.
  - destruct (LeafNode.next l0) as [x|]; [|done]. destruct Hnl as (_ & lx & hx & Hx & HGx). f_equal.
    by eapply (leaf_start_unique I).
  - apply sorted_by_app. split_and!; auto. intros x y Hx Hy. rewrite Forall_forall in *.
    destruct (HFl x Hx) as [_ H1]. destruct (HFr y Hy) as [H2 _]. simpl in *. by eapply bytes_lt_le_trans.
  - intros x Hx. rewrite Hx in Hnr. destruct Hnr as (Hne & lx & hx & HMx & HGx). destruct rhi as [e|]; [|done]. simpl in Hgr.
    split; intros ->.
    + rewrite HGl in HGx. injection HGx as -> _. simpl in Hgl. apply (bytes_lt_irrefl k). eauto using bytes_lt_trans.
    + rewrite HGr in HGx. injection HGx as -> _. by apply bytes_lt_irrefl in Hgr.
Qed.

(** The leaf after the pair is still there. *)
Lemma next_after G' M' chl chr nxt : (forall j, j <> l -> j <> r -> G' !! j = G !! j) ->
  (forall j, j <> l -> j <> r -> j <> p -> repointed M M' l r chl chr j) ->
  (forall x, nxt = Some x -> x <> l /\ x <> r) -> next_ok G M rhi nxt -> next_ok G' M' rhi nxt.
Proof using All.
  intros HG' Hrep Hne. destruct nxt as [x|]; [|done]. intros (Hhi & lx & hx & Hx & HGx). split; [done|].
  destruct (Hne x eq_refl) as [? ?]. assert (x <> p) by congruence.
  pose proof (Hrep x) as Ho. unfold repointed in Ho. rewrite Hx in Ho. destruct Ho as (m' & Hm' & Hsim & _); [done..|].
  destruct m' as [|lx']; [done|]. exists lx', hx. by rewrite HG'.
Qed.

(** A grandchild listed by [x] points to [x]. *)
Lemma repointed_child G' M' chl chr h' x c lo hi : (forall j, j <> l -> j <> r -> G' !! j = G !! j) ->
  (forall j, j <> l -> j <> r -> j <> p -> repointed M M' l r chl chr j) -> NoDup (chl ++ chr) ->
  (x = l /\ c ∈ chl \/ x = r /\ c ∈ chr) -> h = S h' -> below_ok h' c lo hi -> child_of G' M' x h' c lo hi.
Proof using All.
  intros HG' Hrep HN Hx Hh Hb. destruct (below_ne h' c lo hi Hh Hb) as (Hcl & Hcr & Hcp).
  destruct Hb as (HGc & Hgc & m & Hm). split_and!; [by rewrite HG'|done|].
  pose proof (Hrep c Hcl Hcr Hcp) as Ho. unfold repointed in Ho. rewrite Hm in Ho. destruct Ho as (m' & Hm' & _ & Hpar).
  exists m'. split; [done|]. rewrite Hpar. apply NoDup_app in HN as (_ & HN & _).
  destruct Hx as [[-> Hc]|[-> Hc]]; [by rewrite decide_True|]. rewrite decide_False, decide_True; [done..|]. intros H. by apply (HN c).
Qed.

Lemma grandchild_parent j m c : M !! j = Some m -> j <> p -> c ∈ BPlusTreeNode.get_all_children L ++ BPlusTreeNode.get_all_children R ->
  c = j -> BPlusTreeNode.parent m = Some l \/ BPlusTreeNode.parent m = Some r.
Proof using All.
  intros Hj _ Hc ->. apply elem_of_app in Hc as [Hc|Hc].
  - destruct L as [N|]; [|by apply not_elem_of_nil in Hc].
    destruct (inv_child I _ _ _ Hl Hc) as (? & ? & ? & ? & ? & _ & _ & _ & m' & Hm' & ?). left. congruence.
  - destruct R as [N|]; [|by apply not_elem_of_nil in Hc].
    destruct (inv_child I _ _ _ Hr Hc) as (? & ? & ? & ? & ? & _ & _ & _ & m' & Hm' & ?). right. congruence.
Qed.

Lemma parent_grandchild j m : M !! j = Some m -> BPlusTreeNode.parent m = Some l \/ BPlusTreeNode.parent m = Some r ->
  j ∈ BPlusTreeNode.get_all_children L ++ BPlusTreeNode.get_all_children R.
Proof using All.
  intros Hj Hpar. destruct (inv_ghost I _ _ Hj) as (lo & hi & hj & HGj). apply elem_of_app.
  destruct Hpar as [Hpar|Hpar]; destruct (parent_height I j m lo hi hj _ Hj HGj Hpar) as (N & ? & ? & HN & Hin & _).
  - left. rewrite Hl in HN. injection HN as ->. done.
  - right. rewrite Hr in HN. injection HN as ->. done.
Qed.

(** [repointed] in the form [local_step] asks for. *)
Lemma repointed_other M' (D' chl chr : list Z) j :
  BPlusTreeNode.get_all_children L ++ BPlusTreeNode.get_all_children R = chl ++ chr ->
  (forall c, c ∈ chl -> exists X, l ∈ D' /\ M' !! l = Some (BPlusTreeNode.Internal X) /\ c ∈ InternalNode.children X) ->
  (forall c, c ∈ chr -> exists X, r ∈ D' /\ M' !! r = Some (BPlusTreeNode.Internal X) /\ c ∈ InternalNode.children X) ->
  j <> p -> repointed M M' l r chl chr j ->
  match M !! j with
  | None => M' !! j = None
  | Some m =>
      exists m', M' !! j = Some m' /\ sim m m' /\
        if decide (BPlusTreeNode.parent m = Some l \/ BPlusTreeNode.parent m = Some r)
        then exists x X, x ∈ D' /\ BPlusTreeNode.parent m' = Some x /\
               M' !! x = Some (BPlusTreeNode.Internal X) /\ j ∈ InternalNode.children X
        else BPlusTreeNode.parent m' = BPlusTreeNode.parent m
  end.
Proof using All.
  intros Hch Hcl Hcr Hjp. unfold repointed. destruct (M !! j) as [m|] eqn:Hm; [|done].
  intros (m' & Hm' & Hsim & Hpar). exists m'. split_and!; auto.
  destruct (decide (BPlusTreeNode.parent m = Some l \/ BPlusTreeNode.parent m = Some r)) as [Hd|Hd].
  - apply (parent_grandchild j m Hm) in Hd. rewrite Hch in Hd. destruct (decide (j ∈ chl)) as [H1|H1].
    + destruct (Hcl j H1) as (X & ? & ? & ?). eauto 10.
    + rewrite decide_True in Hpar by (apply elem_of_app in Hd; tauto).
      destruct (Hcr j) as (X & ? & ? & ?); [apply elem_of_app in Hd; tauto|]. eauto 10.
  - assert (Hn : j ∉ chl ++ chr).
    { rewrite <- Hch. intros Hin. apply Hd. by apply (grandchild_parent j m j). }
    rewrite not_elem_of_app in Hn. by rewrite !decide_False in Hpar by tauto.
Qed.

Lemma shift_inv M' k' L' R' : shifted k L R k' L' R' ->
  M' !! l = Some L' -> M' !! r = Some R' -> M' !! p = Some (BPlusTreeNode.Internal (set_seg [k'] [l; r])) ->
  (forall j, j <> l -> j <> r -> j <> p ->
    repointed M M' l r (BPlusTreeNode.get_all_children L') (BPlusTreeNode.get_all_children R') j) ->
  exists G', inv G' root M' /\ (forall s, leftmost_ok s G M -> leftmost_ok s G' M') /\
    (forall k v, has M' k v <-> has M k v) /\ (forall j, j <> l -> j <> r -> G' !! j = G !! j).
Proof using All.
  intros Hsh Hl' Hr' Hp' Hrep.
  set (G' := <[l := (llo, Some k', h)]> (<[r := (Some k', rhi, h)]> G) : ghost).
  pose proof (children_NoDup I _ _ Hp) as HNp. rewrite Hcs in HNp.
  assert (Hlr : l <> r).
  { intros ->. apply NoDup_app in HNp as (_ & _ & HN). simpl in HN. apply NoDup_cons in HN as [HN _]. apply HN, list_elem_of_here. }
  assert (HGl' : G' !! l = Some (llo, Some k', h)) by (unfold G'; by rewrite lookup_insert_eq).
  assert (HGr' : G' !! r = Some (Some k', rhi, h)) by (unfold G'; by rewrite lookup_insert_ne, lookup_insert_eq).
  assert (HG' : forall j, j <> l -> j <> r -> G' !! j = G !! j) by (intros; unfold G'; by rewrite !lookup_insert_ne).
  destruct (inv_shape I _ _ _ _ _ Hl HGl) as (_ & Hidl & _). destruct (inv_shape I _ _ _ _ _ Hr HGr) as (_ & Hidr & _).
  destruct (inv_child I p pn l Hp) as (lo1 & hi1 & h1 & a1 & b1 & _ & _ & _ & m & Hm & Hmp); [rewrite Hcs; set_solver|].
  destruct (inv_child I p pn r Hp) as (lo2 & hi2 & h2 & a2 & b2 & _ & _ & _ & m2 & Hm2 & Hmp2); [rewrite Hcs; set_solver|].
  rewrite Hl in Hm. injection Hm as <-. rewrite Hr in Hm2. injection Hm2 as <-.
  assert (Hnodes : gap llo (Some k') /\ gap (Some k') rhi /\ shape_ok G' M' l llo (Some k') h L' /\ shape_ok G' M' r (Some k') rhi h R').
  { pose proof repointed_child as Hchild. pose proof next_after as Hnext. pose proof pair_leaf as Hpl. pose proof below_kids as Hbk.
    destruct Hsh as [l0 r0 el ? v er He Hne | l0 r0 kl ? kr cl cr Hk Hc Hlc].
    - destruct (Hpl l0 r0 eq_refl eq_refl) as (Hh & Hnl & Hs & HFl & HFr & Hnr & Hne'). rewrite Hh in *.
      destruct (inv_shape I _ _ _ _ _ Hl HGl) as (Hg1 & _). destruct (inv_shape I _ _ _ _ _ Hr HGr) as (Hg2 & _).
      assert (HF : Forall (fun e => inside llo rhi e.1) (LeafNode.entries l0 ++ LeafNode.entries r0)).
      { apply Forall_app. split; (eapply Forall_impl; [eassumption|]); intros e [H1 H2]; split; auto.
        - destruct rhi; simpl in *; [|done]. eauto using bytes_lt_trans.
        - destruct llo; simpl in *; [|done]. eapply bytes_le_trans; [|exact H1]. by apply bytes_lt_le. }
      rewrite He in Hs, HF. pose proof Hs as Hs2. apply sorted_by_middle in Hs as (_ & Hlt & Hgt).
      apply sorted_by_app in Hs2 as (Hs1 & Hs2 & _). apply Forall_app in HF as [HF1 HF2].
      pose proof HF2 as HF3. apply Forall_cons_1 in HF2 as [[_ Hb] _].
      split_and!; [| |split_and!; auto..].
      + destruct el as [|e el]; [done|]. apply Forall_cons_1 in HF1 as [[Ha _] _]. apply Forall_cons_1 in Hlt as [Hlt _]. by eapply above_gap.
      + by destruct rhi.
      + simpl. rewrite Forall_forall in *. intros e He1. destruct (HF1 e He1). split; [done|]. exact (all_lt_elem _ _ _ _ Hlt He1).
      + simpl. rewrite Hnl. split; [done|]. rewrite Hr', HGr'. eauto.
      + simpl. rewrite Forall_forall in *. intros e He1. destruct (HF3 e He1). split; [|done].
        apply elem_of_cons in He1 as [->|He1]; [apply bytes_le_refl|]. apply bytes_lt_le. exact (all_gt_elem _ _ _ _ Hgt He1).
      + simpl. eapply Hnext; eauto.
    - destruct (Hbk l0 r0 eq_refl eq_refl) as (h' & Hh & HK). rewrite Hk, Hc in HK.
      pose proof (kids_NoDup _ (below_gap h') _ _ _ _ (below_fun h') HK) as HN.
      destruct (kids_gap _ (below_gap h') _ _ _ _ HK) as [_ HF]. rewrite Forall_app, Forall_cons in HF. destruct HF as (_ & [? ?] & _).
      apply kids_app in HK as [HK1 HK2]; [|done]. split_and!; auto.
      + exists h'. split; [done|]. eapply kids_impl; [|exact HK1]. intros c clo chi Hcin Hb. eapply (Hchild G' M' cl cr); eauto.
      + exists h'. split; [done|]. eapply kids_impl; [|exact HK2]. intros c clo chi Hcin Hb. eapply (Hchild G' M' cl cr); eauto. }
  destruct Hnodes as (Hg1 & Hg2 & Hshl & Hshr).
  exists G'. eapply (local_step I (D' := [l; r]) (kD' := [k']) (pn' := set_seg [k'] [l; r])); try done; try (by left).
  - intros x [->|[->|Hx%not_elem_of_nil]%elem_of_cons]%elem_of_cons; [| |done].
    + exists L'. split_and!; auto; [by destruct Hsh|]. exists llo, (Some k'), h. split_and!; auto. by destruct Hsh.
    + exists R'. split_and!; auto; [by destruct Hsh|]. exists (Some k'), rhi, h. split_and!; auto. by destruct Hsh.
  - intros Hn. exfalso. apply Hn. set_solver.
  - intros j Hj1 Hj2 Hj3. apply (repointed_other M' [l; r] (BPlusTreeNode.get_all_children L') (BPlusTreeNode.get_all_children R')); auto.
    + by destruct Hsh.
    + intros c Hc. destruct L' as [X|]; [|by apply not_elem_of_nil in Hc]. exists X. split_and!; auto. set_solver.
    + intros c Hc. destruct R' as [X|]; [|by apply not_elem_of_nil in Hc]. exists X. split_and!; auto. set_solver.
  - intros lf ->. rewrite Hl', HGl'. inversion Hsh; subst. eauto.
  - intros e. assert (Hent : leaf_entries L ++ leaf_entries R = leaf_entries L' ++ leaf_entries R') by (by destruct Hsh).
    rewrite Hent, elem_of_app. split.
    + intros [?|?]; [exists l, L'|exists r, R']; split_and!; auto; set_solver.
    + intros (x & X & [->|[->|Hx%not_elem_of_nil]%elem_of_cons]%elem_of_cons & HX & Hin); [left|right|done]; congruence.
Qed.

Lemma merge_inv M' L' : merged k L R L' ->
  M' !! l = Some L' -> M' !! r = None -> M' !! p = Some (BPlusTreeNode.Internal (set_seg [] [l])) ->
  (forall j, j <> l -> j <> r -> j <> p -> repointed M M' l r (BPlusTreeNode.get_all_children L') [] j) ->
  exists G', inv G' root M' /\ (forall s, leftmost_ok s G M -> leftmost_ok s G' M') /\
    (forall k v, has M' k v <-> has M k v) /\ (forall j, j <> l -> j <> r -> G' !! j = G !! j).
Proof using All.
  intros Hsh Hl' Hr' Hp' Hrep.
  set (G' := <[l := (llo, rhi, h)]> G : ghost).
  pose proof (children_NoDup I _ _ Hp) as HNp. rewrite Hcs in HNp.
  assert (Hlr : l <> r).
  { intros ->. apply NoDup_app in HNp as (_ & _ & HN). simpl in HN. apply NoDup_cons in HN as [HN _]. apply HN, list_elem_of_here. }
  assert (HGl' : G' !! l = Some (llo, rhi, h)) by (unfold G'; by rewrite lookup_insert_eq).
  assert (HG' : forall j, j <> l -> j <> r -> G' !! j = G !! j) by (intros; unfold G'; by rewrite !lookup_insert_ne).
  destruct (inv_shape I _ _ _ _ _ Hl HGl) as (Hg1 & Hidl & _). destruct (inv_shape I _ _ _ _ _ Hr HGr) as (Hg2 & Hidr & _).
  destruct (inv_child I p pn l Hp) as (lo1 & hi1 & h1 & a1 & b1 & _ & _ & _ & m & Hm & Hmp); [rewrite Hcs; set_solver|].
  rewrite Hl in Hm. injection Hm as <-.
  assert (Hshl : shape_ok G' M' l llo rhi h L').
  { pose proof repointed_child as Hchild. pose proof next_after as Hnext. pose proof pair_leaf as Hpl. pose proof below_kids as Hbk.
    destruct Hsh as [l0 r0|l0 r0].
    - destruct (Hpl l0 r0 eq_refl eq_refl) as (Hh & Hnl & Hs & HFl & HFr & Hnr & Hne').
      split_and!; auto; simpl; [|eapply Hnext; eauto].
      apply Forall_app. split; (eapply Forall_impl; [eassumption|]); intros e [H1 H2]; split; auto.
      + destruct rhi; simpl in *; [|done]. eauto using bytes_lt_trans.
      + destruct llo; simpl in *; [|done]. eapply bytes_le_trans; [|exact H1]. by apply bytes_lt_le.
    - destruct (Hbk l0 r0 eq_refl eq_refl) as (h' & Hh & HK). exists h'. split; [done|].
      pose proof (kids_NoDup _ (below_gap h') _ _ _ _ (below_fun h') HK) as HN.
      eapply kids_impl; [|exact HK]. intros c clo chi Hcin Hb.
      eapply (Hchild G' M' (InternalNode.children l0 ++ InternalNode.children r0) []); eauto. by rewrite app_nil_r. }
  pose proof (gap_trans _ _ _ Hg1 Hg2) as Hg.
  exists G'. eapply (local_step I (D' := [l]) (kD' := []) (pn' := set_seg [] [l])); try done; try (by right).
  - intros x Hx. apply list_elem_of_singleton in Hx as ->.
    exists L'. split_and!; auto; [by destruct Hsh|]. exists llo, rhi, h. split_and!; auto. by destruct Hsh.
  - intros j Hj1 Hj2 Hj3. apply (repointed_other M' [l] (BPlusTreeNode.get_all_children L') []); auto.
    + rewrite app_nil_r. by destruct Hsh.
    + intros c Hc. destruct L' as [X|]; [|by apply not_elem_of_nil in Hc]. exists X. split_and!; auto. set_solver.
    + intros c Hc. by apply not_elem_of_nil in Hc.
  - intros lf ->. rewrite Hl', HGl'. inversion Hsh; subst. eauto.
  - intros e. assert (Hent : leaf_entries L ++ leaf_entries R = leaf_entries L') by (by destruct Hsh).
    rewrite Hent. split.
    + intros ?. exists l, L'. split_and!; auto. set_solver.
    + intros (x & X & Hx & HX & Hin). apply list_elem_of_singleton in Hx as ->. congruence.
Qed.
End siblings.

(** ** Dropping a root with one child *)

Section lower.
Context {G : ghost} {root : Z} {M : store} (I : inv G root M).
Context {pn : InternalNode.t} {c : Z} {cn : node}.
Hypothesis Hp : M !! root = Some (BPlusTreeNode.Internal pn).
Hypothesis Hcs : InternalNode.children pn = [c].
Hypothesis Hc : M !! c = Some cn.

Definition lowered : store := delete root (<[c := BPlusTreeNode.set_parent cn None]> M).

Lemma lower_child : exists h, G !! root = Some (None, None, S h) /\ G !! c = Some (None, None, h) /\ c <> root /\
  BPlusTreeNode.parent cn = Some root.
Proof using All.
  destruct (inv_root _ _ _ I) as (rt & h0 & Hrt & _ & HGr).
  destruct (inv_shape I _ _ _ _ _ Hp HGr) as (_ & _ & h & -> & HK). exists h. rewrite Hcs in HK.
  destruct (InternalNode.keys pn) as [|? [|]]; [|by destruct HK..]. destruct HK as (HGc & _ & m & Hm & Hmp).
  split_and!; auto; [|congruence]. intros ->. rewrite HGc in HGr. injection HGr. lia.
Qed.

Lemma lowered_lookup j m : M !! j = Some m -> j <> root -> j <> c -> lowered !! j = Some m.
Proof using. intros. unfold lowered. by rewrite lookup_delete_ne, lookup_insert_ne. Qed.

Lemma lowered_child : lowered !! c = Some (BPlusTreeNode.set_parent cn None).
Proof using All. destruct lower_child as (_ & _ & _ & Hne & _). unfold lowered. by rewrite lookup_delete_ne, lookup_insert_eq. Qed.

Lemma lowered_inv_lookup j m : lowered !! j = Some m -> j <> root /\
  (j = c /\ m = BPlusTreeNode.set_parent cn None \/ j <> c /\ M !! j = Some m).
Proof using.
  unfold lowered. rewrite lookup_delete_Some, lookup_insert_Some. intros [H1 [[<- <-]|[? ?]]]; auto.
Qed.

Lemma lower_leaves : leaves_kept G M G lowered.
Proof using All.
  intros x lf lo hi Hx HGx. destruct (decide (x = c)) as [->|Hne].
  - rewrite lowered_child. rewrite Hc in Hx. injection Hx as ->. simpl. eauto.
  - rewrite (lowered_lookup x _ Hx); [eauto|congruence|done].
Qed.

Lemma lower_shape j m lo hi h : M !! j = Some m -> j <> root -> shape_ok G M j lo hi h m -> shape_ok G lowered j lo hi h m.
Proof using All.
  intros Hj Hne Hsh. destruct lower_child as (h0 & _ & _ & _ & Hcp). eapply shape_transport; [exact Hsh| |exact lower_leaves].
  intros x lo' hi' h' _ (? & ? & m' & Hm' & Hmp). split_and!; auto. exists m'. split; [|done]. apply lowered_lookup; auto.
  - destruct (inv_root _ _ _ I) as (rt & ? & Hrt & Hrtp & _). congruence.
  - congruence.
Qed.

Lemma lower_inv : inv G c lowered.
Proof using All.
  destruct lower_child as (h0 & HGr & HGc & Hcr & Hcp). split.
  - intros j m (Hjr & [[-> ->]|[Hjc Hj]])%lowered_inv_lookup.
    + destruct (inv_shape I _ _ _ _ _ Hc HGc) as (? & ? & ?). exists None, None, h0.
      rewrite set_parent_id, shape_ok_set_parent. eauto using lower_shape.
    + destruct (inv_node _ _ _ I _ _ Hj) as (lo & hi & h & ? & ? & ? & ?). exists lo, hi, h. eauto using lower_shape.
  - exists (BPlusTreeNode.set_parent cn None), h0. rewrite lowered_child, set_parent_parent. auto.
  - intros j m (Hjr & [[-> ->]|[_ Hj]])%lowered_inv_lookup Hjc; [done|].
    destruct (inv_parent _ _ _ I _ _ Hj Hjr) as (q & qn & Hq & HMq & Hjq).
    assert (q <> root). { intros ->. rewrite Hp in HMq. injection HMq as <-. rewrite Hcs in Hjq. by apply list_elem_of_singleton in Hjq. }
    destruct (decide (q = c)) as [->|Hqc].
    + eexists c, _. rewrite lowered_child. rewrite Hc in HMq. injection HMq as ->. simpl. done.
    + exists q, qn. split_and!; auto. by apply lowered_lookup.
Qed.

Lemma lower_has k v : has lowered k v <-> has M k v.
Proof using All.
  rewrite !has_leaf_entries. split.
  - intros (j & m & (Hjr & [[-> ->]|[Hjc Hj]])%lowered_inv_lookup & Hkv); [|eauto]. exists c, cn. split; [done|]. by destruct cn.
  - intros (j & m & Hj & Hkv). assert (j <> root) by (intros ->; rewrite Hp in Hj; injection Hj as <-; by apply not_elem_of_nil in Hkv).
    destruct (decide (j = c)) as [->|Hne].
    + eexists c, _. rewrite lowered_child. split; [done|]. rewrite Hc in Hj. injection Hj as <-. by destruct cn.
    + exists j, m. split; [by apply lowered_lookup|done].
Qed.
End lower.
