(* ===== verification/BTreeRebalance.v ===== *)
(** * Running deletion

    The borrow and merge functions of tree.rs, run on a store in which the
    underfull node is held in hand, settle on a store that satisfies the
    invariant and has the same entries; [delete] removes one key. *)

From Stdlib Require Import ZArith Lia.
From stdpp Require Import sorting gmap option strings fin_maps fin_map_dom base list.
From S2P Require Import Prelude BTreeError BTreeNode BTreeTree BTreeShape BTreeInv BTreeInsert BTreeDelete.

Open Scope Z_scope.
Implicit Types (s : BPlusTree.t) (G : ghost) (M : store) (lo hi : option (list Z)) (h : nat) (n : node).

(** ** Steps of the monad *)

Lemma bind_ok {A B} (m : BPlusTree.op A) (f : A -> BPlusTree.op B) s x s' :
  m s = (Ok x, s') -> BPlusTree.bind m f s = f x s'.
Proof. unfold BPlusTree.bind. by intros ->. Qed.

Lemma get_node_ok s j m : BPlusTree.nodes s !! j = Some m -> BPlusTree.get_node j s = (Ok m, s).
Proof. unfold BPlusTree.get_node. by intros ->. Qed.

Lemma update_node_ok s j m : BPlusTreeNode.id m = j ->
  BPlusTree.update_node m s = (Ok tt, BPlusTree.with_nodes s (<[j := m]> (BPlusTree.nodes s))).
Proof. by intros <-. Qed.

Lemma set_child_parent_ok s q c m : BPlusTree.nodes s !! c = Some m -> BPlusTreeNode.id m = c ->
  BPlusTree.set_child_parent q c s =
    (Ok tt, BPlusTree.with_nodes s (<[c := BPlusTreeNode.set_parent m (Some q)]> (BPlusTree.nodes s))).
Proof.
  intros Hc Hid. unfold BPlusTree.set_child_parent. rewrite (bind_ok _ _ _ _ _ (get_node_ok s c m Hc)).
  apply update_node_ok. by rewrite set_parent_id.
Qed.

Lemma position_at cs1 x cs2 : x ∉ cs1 -> BPlusTree.position x (cs1 ++ x :: cs2) = Some (length cs1).
Proof.
  intros Hx. unfold BPlusTree.position.
  assert (list_find (fun y => y = x) (cs1 ++ x :: cs2) = Some (length cs1, x)) as ->; [|done].
  apply list_find_Some. split_and!; [apply lookup_app_here|done|].
  intros j y Hj Hlt ->. rewrite lookup_app_l in Hj by done. by apply Hx, list_elem_of_lookup_2 with j.
Qed.

Lemma pop_snoc {A} (l : list A) x : BPlusTree.pop (l ++ [x]) = Some (x, l).
Proof.
  unfold BPlusTree.pop. rewrite last_snoc. simpl. do 2 f_equal. rewrite length_app. simpl.
  replace (length l + 1 - 1)%nat with (length l) by lia. by rewrite take_app_length.
Qed.

Lemma insert_mid {A} (l1 l2 : list A) x y i : i = length l1 -> <[i := y]> (l1 ++ [x] ++ l2) = l1 ++ [y] ++ l2.
Proof. intros ->. apply insert_app_here. Qed.

Lemma lookup_mid {A} (l1 l2 : list A) x i : i = length l1 -> (l1 ++ [x] ++ l2) !! i = Some x.
Proof. intros ->. apply lookup_app_here. Qed.

Lemma remove_mid {A} (l1 l2 : list A) x i : i = length l1 -> vec_remove i (l1 ++ [x] ++ l2) = l1 ++ l2.
Proof. intros ->. apply vec_remove_app. Qed.

(** ** Unlinking a merged child *)

(** [handle_underflow] on a node in hand at height [h]. *)
Definition relieves (rec : node -> BPlusTree.op unit) (room : nat) : Prop :=
  forall s G n lo hi h H p, let M := <[BPlusTreeNode.id n := n]> (BPlusTree.nodes s) in
    inv G (BPlusTree.root_id s) M -> leftmost_ok s G M -> ids_below M (BPlusTree.next_node_id s) ->
    0 <= BPlusTree.next_node_id s < 2 ^ 64 ->
    G !! BPlusTreeNode.id n = Some (lo, hi, h) -> G !! BPlusTree.root_id s = Some (None, None, H) -> (H - h < room)%nat ->
    BPlusTreeNode.parent n = Some p -> (1 <= BPlusTree.min_keys (BPlusTree.config s))%nat ->
    settles s M (rec n s).

Section unlink.
Context {rec : node -> BPlusTree.op unit} {room : nat} {s : BPlusTree.t} {G : ghost}.
Context {p l r : Z} {pn : InternalNode.t} {a b : option (list Z)} {h H : nat} {k : list Z}.
Context {ks1 ks2 : list (list Z)} {cs1 cs2 : list Z}.
Let P' : InternalNode.t := set_seg (pn := pn) (ks1 := ks1) (ks2 := ks2) (cs1 := cs1) (cs2 := cs2) [] [l].
Let M : store := <[p := BPlusTreeNode.Internal P']> (BPlusTree.nodes s).
Hypothesis Hrec : relieves rec room.
Hypothesis Hp : BPlusTree.nodes s !! p = Some (BPlusTreeNode.Internal pn).
Hypothesis Hpid : InternalNode.id pn = p.
Hypothesis Hks : InternalNode.keys pn = ks1 ++ [k] ++ ks2.
Hypothesis Hcs : InternalNode.children pn = cs1 ++ [l; r] ++ cs2.
Hypothesis Hlen : length ks1 = length cs1.
Hypothesis Hrc : r ∉ cs1 ++ [l].
Hypothesis I : inv G (BPlusTree.root_id s) M.
Hypothesis HL : leftmost_ok s G M.
Hypothesis Hids : ids_below M (BPlusTree.next_node_id s).
Hypothesis Hnext : 0 <= BPlusTree.next_node_id s < 2 ^ 64.
Hypothesis HGp : G !! p = Some (a, b, S h).
Hypothesis HGr : G !! BPlusTree.root_id s = Some (None, None, H).
Hypothesis Hroom : (H - S h < room)%nat.
Hypothesis Hmin : (1 <= BPlusTree.min_keys (BPlusTree.config s))%nat.

Lemma unlink_node : (match BPlusTree.position r (InternalNode.children pn) with
  | Some pos =>
      let internal := BPlusTree.set_children pn (vec_remove pos (InternalNode.children pn)) in
      BPlusTreeNode.Internal
        (if BPlusTree.has_left_key pos internal then BPlusTree.set_keys internal (vec_remove (pos - 1) (InternalNode.keys internal))
         else if (pos =? 0)%nat then BPlusTree.set_keys internal (vec_remove 0 (InternalNode.keys internal)) else internal)
  | None => BPlusTreeNode.Internal pn
  end) = BPlusTreeNode.Internal P'.
Proof using All.
  assert (Hcs2 : InternalNode.children pn = (cs1 ++ [l]) ++ r :: cs2) by (by rewrite Hcs, <- app_assoc).
  assert (BPlusTree.position r (InternalNode.children pn) = Some (length (cs1 ++ [l]))) as -> by (rewrite Hcs2; by apply position_at).
  rewrite Hcs2, vec_remove_app. cbv zeta. unfold BPlusTree.has_left_key.
  cbn [BPlusTree.set_children InternalNode.keys]. rewrite Hks, !length_app. cbn [length].
  rewrite (proj2 (Nat.ltb_lt _ _)), (proj2 (Nat.leb_le _ _)) by lia. cbn [andb].
  unfold P', set_seg, BPlusTree.set_keys, BPlusTree.set_children. cbn. do 2 f_equal; [|by rewrite <- app_assoc].
  apply remove_mid. lia.
Qed.

(** The root keeps one child, which becomes the root. *)
Lemma unlink_root c : InternalNode.children P' = [c] -> InternalNode.parent pn = None ->
  settles s M (BPlusTree.bind (BPlusTree.get_node c) (fun new_root =>
    BPlusTree.bind (BPlusTree.update_node (BPlusTreeNode.set_parent new_root None)) (fun _ =>
    BPlusTree.bind (BPlusTree.set_root c) (fun _ => BPlusTree.remove_node p))) s).
Proof using All.
  intros Hc Hpar. assert (HMp : M !! p = Some (BPlusTreeNode.Internal P')) by (unfold M; by lookups).
  assert (Hroot : p = BPlusTree.root_id s).
  { destruct (decide (p = BPlusTree.root_id s)) as [|Hne]; [done|].
    destruct (inv_parent _ _ _ I _ _ HMp Hne) as (q & _ & Hq & _). simpl in Hq. congruence. }
  destruct (inv_child I p P' c HMp) as (? & ? & ? & ? & ? & HG1 & HG2 & _ & cn & Hcn & _); [rewrite Hc; set_solver|].
  assert (Hcp : c <> p). { intros ->. rewrite HG1 in HG2. injection HG2. lia. }
  assert (Sc : BPlusTree.nodes s !! c = Some cn) by (unfold M in Hcn; by rewrite lookup_insert_ne in Hcn).
  assert (Hcid : BPlusTreeNode.id cn = c). { destruct (inv_node _ _ _ I _ _ Hcn) as (_ & _ & _ & _ & _ & ? & _). done. }
  rewrite (bind_ok _ _ _ _ _ (get_node_ok s c cn Sc)).
  rewrite (bind_ok _ _ _ _ _ (update_node_ok s c _ (eq_trans (set_parent_id cn None) Hcid))).
  unfold BPlusTree.bind, BPlusTree.set_root, BPlusTree.remove_node. cbn.
  pose proof Hroot as Hroot2. rewrite Hroot in HMp. pose proof (lower_inv I HMp Hc Hcn) as I'.
  pose proof (lower_has I HMp Hc Hcn) as Hhas. pose proof (lower_leaves I HMp Hc Hcn) as Hlv.
  assert (HF : delete p (<[c := BPlusTreeNode.set_parent cn None]> (BPlusTree.nodes s)) =
    lowered (root := BPlusTree.root_id s) (M := M) (c := c) (cn := cn)).
  { unfold lowered, M. rewrite <- Hroot2. apply map_eq. intros j. destruct (decide (j = p)) as [->|]; [by lookups|].
    destruct (decide (j = c)) as [->|]; by lookups. }
  eexists. split; [done|]. cbn. rewrite HF. split_and!; [|done|done]. split; [exists G; split; [done|]|split; [|done]].
  - exact (leftmost_kept s _ _ _ _ _ eq_refl Hlv HL).
  - cbn. intros j m (_ & [[-> _]|[_ Hj]])%lowered_inv_lookup; by eapply Hids.
Qed.

Lemma unlink_run : settles s M (BPlusTree.remove_from_parent rec p r s).
Proof using All.
  assert (HMp : M !! p = Some (BPlusTreeNode.Internal P')) by (unfold M; by lookups).
  assert (Hother : settles s M (BPlusTree.bind (BPlusTree.read BPlusTree.config) (fun c =>
    if ((BPlusTreeNode.len (BPlusTreeNode.Internal P') <? BPlusTree.min_keys c)%nat &&
        bool_decide (is_Some (BPlusTreeNode.parent (BPlusTreeNode.Internal P'))))
    then rec (BPlusTreeNode.Internal P') else BPlusTree.update_node (BPlusTreeNode.Internal P')) s)).
  { rewrite (bind_ok _ _ s (BPlusTree.config s) s) by done. destruct (_ && _) eqn:Hb.
    - apply andb_true_iff in Hb as [_ Hb]. apply bool_decide_eq_true in Hb as [q Hq].
      specialize (Hrec s G (BPlusTreeNode.Internal P') a b (S h) H q). simpl in Hrec. rewrite Hpid in Hrec. by apply Hrec.
    - apply (update_settles s G p); auto. }
  unfold BPlusTree.remove_from_parent. rewrite (bind_ok _ _ _ _ _ (get_node_ok s p _ Hp)). cbv beta iota.
  cbv zeta. pose proof unlink_node as Hun. cbv zeta in Hun. rewrite Hun. clear Hun. destruct (BPlusTreeNode.parent (BPlusTreeNode.Internal P')) as [q|] eqn:Hpar; [exact Hother|].
  destruct (InternalNode.children P') as [|c [|c' cs]] eqn:Hc; [exact Hother| |exact Hother].
  by apply unlink_root.
Qed.
End unlink.

(** ** A node in hand *)

Section hand.
Context {s : BPlusTree.t} {G : ghost} {i : Z} {n : node}.
Let M : store := <[i := n]> (BPlusTree.nodes s).
Hypothesis I : inv G (BPlusTree.root_id s) M.
Hypothesis HL : leftmost_ok s G M.
Hypothesis Hids : ids_below M (BPlusTree.next_node_id s).
Hypothesis Hnext : 0 <= BPlusTree.next_node_id s < 2 ^ 64.

Lemma hand_i : M !! i = Some n.
Proof using All. unfold M. by rewrite lookup_insert_eq. Qed.

Lemma hand_id : BPlusTreeNode.id n = i.
Proof using All. destruct (inv_node _ _ _ I _ _ hand_i) as (_ & _ & _ & _ & _ & ? & _). done. Qed.

Lemma hand_store j : j <> i -> BPlusTree.nodes s !! j = M !! j.
Proof using All. intros. unfold M. by rewrite lookup_insert_ne. Qed.

Lemma node_id_at j m : M !! j = Some m -> BPlusTreeNode.id m = j.
Proof using All. intros Hj. destruct (inv_node _ _ _ I _ _ Hj) as (_ & _ & _ & _ & _ & ? & _). done. Qed.

(** A final store that satisfies the invariant settles the run. *)
Lemma settle_store s' F G' : s' = BPlusTree.with_nodes s F -> inv G' (BPlusTree.root_id s) F -> leftmost_ok s G' F ->
  (forall j, is_Some (F !! j) -> is_Some (M !! j)) -> (forall k v, has F k v <-> has M k v) -> settles s M (Ok tt, s').
Proof using All.
  intros -> IF HLF Hdom Hhas. eexists. split; [done|]. split_and!; [|done|done].
  split; [exists G'; split; [done|exact HLF]|]. split; [|done].
  intros j m Hj. simpl in Hj. destruct (Hdom j) as [m' Hm']; [by rewrite Hj|]. by eapply Hids.
Qed.

(** Nodes at one height are of one kind. *)
Lemma same_kind l r L R llo lhi rlo rhi h : M !! l = Some L -> M !! r = Some R ->
  G !! l = Some (llo, lhi, h) -> G !! r = Some (rlo, rhi, h) ->
  (exists l0 r0, L = BPlusTreeNode.Leaf l0 /\ R = BPlusTreeNode.Leaf r0) \/
  (exists l0 r0, L = BPlusTreeNode.Internal l0 /\ R = BPlusTreeNode.Internal r0).
Proof using All.
  intros Hl Hr HGl HGr. destruct (inv_shape I _ _ _ _ _ Hl HGl) as (_ & _ & Hs1).
  destruct (inv_shape I _ _ _ _ _ Hr HGr) as (_ & _ & Hs2).
  destruct L as [l0|l0], R as [r0|r0]; [right| | |left]; eauto.
  - destruct Hs1 as (? & -> & _). by destruct Hs2 as (? & _).
  - destruct Hs2 as (? & -> & _). by destruct Hs1 as (? & _).
Qed.

Lemma internal_lengths j (N : InternalNode.t) : M !! j = Some (BPlusTreeNode.Internal N) ->
  length (InternalNode.children N) = S (length (InternalNode.keys N)).
Proof using All.
  intros Hj. destruct (inv_ghost I _ _ Hj) as (? & ? & ? & HG). destruct (inv_shape I _ _ _ _ _ Hj HG) as (_ & _ & ? & _ & HK).
  by eapply kids_length.
Qed.

Lemma list_snoc {A} (l : list A) : (0 < length l)%nat -> exists l' x, l = l' ++ [x].
Proof using All. destruct l as [|x l _] using rev_ind; simpl; [lia|eauto]. Qed.

(** The parent of the node in hand, seen through the store. *)
Lemma pair_distinct p pn cs1 l r cs2 : M !! p = Some (BPlusTreeNode.Internal pn) ->
  InternalNode.children pn = cs1 ++ [l; r] ++ cs2 -> l ∉ cs1 /\ r ∉ cs1 ++ [l] /\ l <> r /\ l <> p /\ r <> p.
Proof using All.
  intros Hp Hcs. pose proof (children_NoDup I _ _ Hp) as HN. rewrite Hcs in HN. simpl in HN.
  destruct (inv_child I p pn l Hp) as (? & ? & h1 & ? & ? & HG1 & HG1' & _); [rewrite Hcs; set_solver|].
  destruct (inv_child I p pn r Hp) as (? & ? & h2 & ? & ? & HG2 & HG2' & _); [rewrite Hcs; set_solver|].
  apply NoDup_app in HN as (_ & H1 & H2). apply NoDup_cons in H2 as [H2 _].
  split_and!; [intros Hin; apply (H1 _ Hin); set_solver| |set_solver| |].
  - intros [Hin|Hin]%elem_of_app; [apply (H1 _ Hin); set_solver|]. set_solver.
  - intros ->. rewrite HG1 in HG1'. injection HG1'. lia.
  - intros ->. rewrite HG2 in HG2'. injection HG2'. lia.
Qed.

Section pair.
Context {p l r : Z} {pn : InternalNode.t} {L R : node} {a b llo rhi : option (list Z)} {h : nat} {k : list Z}.
Context {ks1 ks2 : list (list Z)} {cs1 cs2 : list Z}.
Hypothesis Hp : M !! p = Some (BPlusTreeNode.Internal pn).
Hypothesis HGp : G !! p = Some (a, b, S h).
Hypothesis Hks : InternalNode.keys pn = ks1 ++ [k] ++ ks2.
Hypothesis Hcs : InternalNode.children pn = cs1 ++ [l; r] ++ cs2.
Hypothesis Hlen : length ks1 = length cs1.
Hypothesis Hl : M !! l = Some L.
Hypothesis Hr : M !! r = Some R.
Hypothesis HGl : G !! l = Some (llo, Some k, h).
Hypothesis HGr : G !! r = Some (Some k, rhi, h).

Lemma pair_parents : BPlusTreeNode.parent L = Some p /\ BPlusTreeNode.parent R = Some p.
Proof using All.
  destruct (inv_child I p pn l Hp) as (? & ? & ? & ? & ? & _ & _ & _ & m & Hm & Hmp); [rewrite Hcs; set_solver|].
  destruct (inv_child I p pn r Hp) as (? & ? & ? & ? & ? & _ & _ & _ & m2 & Hm2 & Hmp2); [rewrite Hcs; set_solver|].
  rewrite Hl in Hm. injection Hm as <-. rewrite Hr in Hm2. by injection Hm2 as <-.
Qed.

Lemma position_r : BPlusTree.position r (InternalNode.children pn) = Some (S (length cs1)).
Proof using All.
  destruct (pair_distinct p pn cs1 l r cs2 Hp Hcs) as (_ & Hr1 & _).
  rewrite Hcs. replace (cs1 ++ [l; r] ++ cs2) with ((cs1 ++ [l]) ++ r :: cs2) by (by rewrite <- app_assoc).
  rewrite position_at by done. rewrite length_app. f_equal. simpl. lia.
Qed.

Lemma position_l : BPlusTree.position l (InternalNode.children pn) = Some (length cs1).
Proof using All.
  destruct (pair_distinct p pn cs1 l r cs2 Hp Hcs) as (Hl1 & _). rewrite Hcs. by apply (position_at cs1 l (r :: cs2)).
Qed.

Lemma left_key_r : BPlusTree.has_left_key (S (length cs1)) pn = true.
Proof using All.
  unfold BPlusTree.has_left_key. rewrite Hks, !length_app. apply andb_true_iff. rewrite Nat.ltb_lt, Nat.leb_le. simpl length. lia.
Qed.

(** [update_separator_key] of the right neighbour. *)
Lemma update_separator_run s' X e : BPlusTree.nodes s' !! p = Some (BPlusTreeNode.Internal pn) ->
  BPlusTree.nodes s' !! r = Some X -> BPlusTree.first_key X = Some e ->
  BPlusTree.update_separator_key p r s' =
    (Ok tt, BPlusTree.with_nodes s' (<[p := BPlusTreeNode.Internal
      (set_seg (pn := pn) (ks1 := ks1) (ks2 := ks2) (cs1 := cs1) (cs2 := cs2) [e] [l; r])]> (BPlusTree.nodes s'))).
Proof using All.
  intros Hp' Hr' He. unfold BPlusTree.update_separator_key.
  rewrite (bind_ok _ _ _ _ _ (get_node_ok _ _ _ Hp')), (bind_ok _ _ _ _ _ (get_node_ok _ _ _ Hr')).
  rewrite position_r, left_key_r, He. rewrite (update_node_ok _ p) by (apply (node_id_at p _ Hp)).
  do 5 f_equal. unfold BPlusTree.set_keys, set_seg. rewrite Hks, Hcs. f_equal. apply insert_mid. lia.
Qed.
(** Nodes outside the pair, after a step that repoints nothing. *)
Lemma repointed_same F chl chr j : F !! j = M !! j -> (forall m, M !! j = Some m ->
    BPlusTreeNode.parent m = (if decide (j ∈ chl) then Some l else if decide (j ∈ chr) then Some r else BPlusTreeNode.parent m)) ->
  repointed M F l r chl chr j.
Proof using All.
  intros HF Hpar. unfold repointed. rewrite HF. destruct (M !! j) as [m|]; [|done].
  exists m. split_and!; auto using sim_refl.
Qed.

Lemma settle_shift s' k' L' R' : shifted k L R k' L' R' ->
  let F := BPlusTree.nodes s' in
  s' = BPlusTree.with_nodes s F ->
  F !! l = Some L' -> F !! r = Some R' ->
  F !! p = Some (BPlusTreeNode.Internal (set_seg (pn := pn) (ks1 := ks1) (ks2 := ks2) (cs1 := cs1) (cs2 := cs2) [k'] [l; r])) ->
  (forall j, j <> l -> j <> r -> j <> p ->
    repointed M F l r (BPlusTreeNode.get_all_children L') (BPlusTreeNode.get_all_children R') j) ->
  settles s M (Ok tt, s').
Proof using All.
  intros Hsh F Hs' Fl Fr Fp Hrep.
  destruct (shift_inv I Hp HGp Hks Hcs Hlen Hl Hr HGl HGr F k' L' R' Hsh Fl Fr Fp Hrep) as (G' & I' & HL' & Hhas & _).
  apply (settle_store s' F G'); auto.
  intros j [m Hm]. destruct (decide (j = l)) as [->|]; [by rewrite Hl|]. destruct (decide (j = r)) as [->|]; [by rewrite Hr|].
  destruct (decide (j = p)) as [->|]; [by rewrite Hp|].
  pose proof (Hrep j) as Ho. unfold repointed in Ho. destruct (M !! j); [done|]. rewrite Ho in Hm; done.
Qed.

(** A child of one of the pair. *)
Lemma grandchild x N c : x = l \/ x = r -> M !! x = Some (BPlusTreeNode.Internal N) -> c ∈ InternalNode.children N ->
  exists cm, M !! c = Some cm /\ BPlusTreeNode.parent cm = Some x /\ BPlusTreeNode.id cm = c /\ c <> l /\ c <> r /\ c <> p.
Proof using All.
  intros Hx HN Hc. destruct (inv_child I x N c HN Hc) as (clo & chi & hc & xa & xb & HGx & HGc & _ & cm & Hcm & Hcp).
  assert (h = S hc) as ->.
  { destruct Hx as [-> | ->]; [rewrite HGl in HGx|rewrite HGr in HGx]; by injection HGx. }
  exists cm. split_and!; auto; [by apply (node_id_at c)|..]; intros ->;
    [rewrite HGl in HGc|rewrite HGr in HGc|rewrite HGp in HGc]; injection HGc; lia.
Qed.

(** The children of the pair are listed once. *)
Lemma grandchildren_NoDup l0 r0 : L = BPlusTreeNode.Internal l0 -> R = BPlusTreeNode.Internal r0 ->
  NoDup (InternalNode.children l0 ++ InternalNode.children r0).
Proof using All.
  intros EL ER. destruct (below_kids I Hp HGp Hks Hcs Hlen Hl Hr HGl HGr l0 r0 EL ER) as (h' & _ & HK).
  exact (kids_NoDup _ (below_gap h') _ _ _ _ (below_fun h') HK).
Qed.

Lemma borrow_left_run : r = i -> (2 <= BPlusTreeNode.len L)%nat -> settles s M (BPlusTree.borrow_from_left n l s).
Proof using All.
  intros Hri Hlend. destruct (pair_distinct p pn cs1 l r cs2 Hp Hcs) as (_ & _ & Hlr & Hlp & Hrp).
  assert (HRn : R = n). { pose proof hand_i as Hi. rewrite Hri in Hr. congruence. }
  pose proof (hand_store l ltac:(congruence)) as Sl. pose proof (hand_store p ltac:(congruence)) as Sp. rewrite Hl in Sl. rewrite Hp in Sp.
  destruct pair_parents as [HLp HRp]. pose proof (node_id_at l L Hl) as Idl. pose proof (node_id_at r R Hr) as Idr.
  pose proof (node_id_at p _ Hp) as Idp.
  unfold BPlusTree.borrow_from_left. rewrite (bind_ok _ _ _ _ _ (get_node_ok s l L Sl)).
  rewrite <- HRn, HRp, Idr. unfold BPlusTree.lift. cbn [ok_or]. rewrite (bind_ok _ _ s p s) by done.
  destruct (same_kind l r L R llo (Some k) (Some k) rhi h Hl Hr HGl HGr) as [(l0 & r0 & EL & ER)|(l0 & r0 & EL & ER)].
  - pose proof update_separator_run as Hsep. pose proof settle_shift as Hset. pose proof repointed_same as Hsame. rewrite EL, ER in *. cbn [BPlusTreeNode.len BPlusTreeNode.key_count] in Hlend.
    destruct (list_snoc (LeafNode.entries l0)) as (rest & [ek ev] & He); [lia|]. rewrite He, pop_snoc.
    set (L' := BPlusTreeNode.Leaf (LeafNode.set_entries l0 rest)).
    set (R' := BPlusTreeNode.Leaf (LeafNode.set_entries r0 ((ek, ev) :: LeafNode.entries r0))).
    rewrite (bind_ok _ _ s (R', L') s) by done. cbv beta iota zeta.
    rewrite (bind_ok _ _ _ _ _ (update_node_ok s l L' Idl)).
    set (s1 := BPlusTree.with_nodes s _). rewrite (bind_ok _ _ _ _ _ (update_node_ok s1 r R' Idr)).
    set (s2 := BPlusTree.with_nodes s1 _). cbn [BPlusTreeNode.is_leaf BPlusTree.when R'].
    rewrite (Hsep s2 R' ek).
    + eapply (Hset _ ek L' R'); simpl.
      * apply (shifted_leaf k l0 r0 rest ek ev (LeafNode.entries r0)); [by rewrite He, <- app_assoc|].
        intros ->. rewrite He in Hlend. simpl in Hlend. lia.
      * done.
      * by lookups.
      * by lookups.
      * by lookups.
      * intros j ? ? ?. apply Hsame; [|done]. lookups. apply hand_store. congruence.
    + simpl. by lookups.
    + simpl. by lookups.
    + done.
  - pose proof settle_shift as Hset. pose proof repointed_same as Hsame. pose proof grandchild as Hgc.
    pose proof (grandchildren_NoDup l0 r0 EL ER) as HN. pose proof position_r as Hpos. pose proof left_key_r as Hlk.
    rewrite EL, ER in *. cbn [BPlusTreeNode.len BPlusTreeNode.key_count] in Hlend.
    destruct (list_snoc (InternalNode.keys l0)) as (restk & kl & Hk); [lia|].
    destruct (list_snoc (InternalNode.children l0)) as (restc & c & Hc); [rewrite (internal_lengths l l0 Hl); lia|].
    destruct (Hgc l l0 c) as (cm & Hcm & Hcmp & Hcid & Hcl & Hcr & Hcp); [auto|done|rewrite Hc; set_solver|].
    pose proof (hand_store c ltac:(congruence)) as Sc. rewrite Hcm in Sc.
    set (L' := InternalNode.mk (InternalNode.id l0) restk restc (InternalNode.parent l0)).
    set (R' := InternalNode.mk (InternalNode.id r0) (k :: InternalNode.keys r0) (c :: InternalNode.children r0) (InternalNode.parent r0)).
    set (P' := set_seg (pn := pn) (ks1 := ks1) (ks2 := ks2) (cs1 := cs1) (cs2 := cs2) [kl] [l; r]).
    set (s1 := BPlusTree.with_nodes s (<[c := BPlusTreeNode.set_parent cm (Some r)]> (BPlusTree.nodes s))).
    set (s2 := BPlusTree.with_nodes s1 (<[p := BPlusTreeNode.Internal P']> (BPlusTree.nodes s1))).
    assert (Hrot : BPlusTree.rotate_from_left r0 l0 p s = (Ok (R', L'), s2)).
    { unfold BPlusTree.rotate_from_left. rewrite (bind_ok _ _ _ _ _ (get_node_ok s p _ Sp)). simpl in Idr. rewrite Idr, Hpos, Hlk.
      rewrite Hks, lookup_mid by lia. rewrite (bind_ok _ _ s k s) by done. rewrite Hc, pop_snoc.
      rewrite (bind_ok _ _ s (BPlusTree.set_children (BPlusTree.set_keys r0 (k :: InternalNode.keys r0)) (c :: InternalNode.children r0),
        BPlusTree.set_children l0 restc) s1).
      2: { by rewrite (bind_ok _ _ _ _ _ (set_child_parent_ok s r c cm Sc Hcid)). }
      cbn [BPlusTree.set_children InternalNode.keys]. rewrite Hk, pop_snoc.
      rewrite (bind_ok _ _ s1 tt s2); [done|]. rewrite (update_node_ok s1 p) by done. do 5 f_equal.
      unfold P', set_seg, BPlusTree.set_keys. rewrite Hcs. f_equal. apply insert_mid. lia. }
    rewrite (bind_ok _ _ s (BPlusTreeNode.Internal R', BPlusTreeNode.Internal L') s2) by (by rewrite (bind_ok _ _ _ _ _ Hrot)).
    cbv beta iota zeta. rewrite (bind_ok _ _ _ _ _ (update_node_ok s2 l (BPlusTreeNode.Internal L') Idl)).
    set (s3 := BPlusTree.with_nodes s2 _). rewrite (bind_ok _ _ _ _ _ (update_node_ok s3 r (BPlusTreeNode.Internal R') Idr)).
    set (s4 := BPlusTree.with_nodes s3 _). cbn [BPlusTreeNode.is_leaf BPlusTree.when].
    rewrite Hc in HN. rewrite <- app_assoc in HN. simpl in HN.
    apply (Hset s4 kl (BPlusTreeNode.Internal L') (BPlusTreeNode.Internal R')); unfold s4, s3, s2, s1; simpl.
    + apply (shifted_internal k l0 r0 restk kl (k :: InternalNode.keys r0) restc (c :: InternalNode.children r0)).
      * by rewrite Hk, <- app_assoc.
      * by rewrite Hc, <- app_assoc.
      * pose proof (internal_lengths l l0 Hl) as Hll. rewrite Hk, Hc, !length_app in Hll. simpl in Hll. lia.
    + done.
    + by lookups.
    + by lookups.
    + by lookups.
    + intros j Hjl Hjr Hjp. destruct (decide (j = c)) as [->|Hjc].
      * unfold repointed. rewrite Hcm. exists (BPlusTreeNode.set_parent cm (Some r)). lookups. split_and!; auto using sim_set_parent.
        rewrite set_parent_parent. apply NoDup_app in HN as (_ & HN & _).
        rewrite decide_False, decide_True; [done|set_solver|]. intros Hin. apply (HN c Hin). set_solver.
      * apply Hsame; [lookups; apply hand_store; congruence|]. intros m Hm. case_decide as Hd1.
        { destruct (Hgc l l0 j) as (m' & Hm' & ? & _); [auto|done|rewrite Hc; set_solver|]. congruence. }
        case_decide as Hd2; [|done].
        destruct (Hgc r r0 j) as (m' & Hm' & ? & _); [auto|done|set_solver|]. congruence.
Qed.
Lemma borrow_right_run : l = i -> (2 <= BPlusTreeNode.len R)%nat -> settles s M (BPlusTree.borrow_from_right n r s).
Proof using All.
  intros Hli Hlend. destruct (pair_distinct p pn cs1 l r cs2 Hp Hcs) as (_ & _ & Hlr & Hlp & Hrp).
  assert (HLn : L = n). { pose proof hand_i as Hi. rewrite Hli in Hl. congruence. }
  pose proof (hand_store r ltac:(congruence)) as Sr. pose proof (hand_store p ltac:(congruence)) as Sp. rewrite Hr in Sr. rewrite Hp in Sp.
  destruct pair_parents as [HLp HRp]. pose proof (node_id_at l L Hl) as Idl. pose proof (node_id_at r R Hr) as Idr.
  pose proof (node_id_at p _ Hp) as Idp.
  unfold BPlusTree.borrow_from_right. rewrite (bind_ok _ _ _ _ _ (get_node_ok s r R Sr)).
  rewrite <- HLn, HLp. unfold BPlusTree.lift. cbn [ok_or]. rewrite (bind_ok _ _ s p s) by done.
  destruct (same_kind l r L R llo (Some k) (Some k) rhi h Hl Hr HGl HGr) as [(l0 & r0 & EL & ER)|(l0 & r0 & EL & ER)].
  - pose proof update_separator_run as Hsep. pose proof settle_shift as Hset. pose proof repointed_same as Hsame.
    rewrite EL, ER in *. cbn [BPlusTreeNode.len BPlusTreeNode.key_count] in Hlend.
    destruct (LeafNode.entries r0) as [|[ek ev] [|[k' v'] rest]] eqn:He; simpl in Hlend; try lia.
    set (L' := BPlusTreeNode.Leaf (LeafNode.set_entries l0 (LeafNode.entries l0 ++ [(ek, ev)]))).
    set (R' := BPlusTreeNode.Leaf (LeafNode.set_entries r0 ((k', v') :: rest))).
    rewrite (bind_ok _ _ s (L', R') s) by done. cbv beta iota zeta.
    rewrite (bind_ok _ _ _ _ _ (update_node_ok s r R' Idr)).
    set (s1 := BPlusTree.with_nodes s _). rewrite (bind_ok _ _ _ _ _ (update_node_ok s1 l L' Idl)).
    set (s2 := BPlusTree.with_nodes s1 _). cbn [BPlusTreeNode.is_leaf BPlusTree.when R'].
    rewrite (Hsep s2 R' k').
    + eapply (Hset _ k' L' R'); simpl.
      * apply (shifted_leaf k l0 r0 (LeafNode.entries l0 ++ [(ek, ev)]) k' v' rest); [by rewrite He, <- app_assoc|].
        by destruct (LeafNode.entries l0).
      * done.
      * by lookups.
      * by lookups.
      * by lookups.
      * intros j ? ? ?. apply Hsame; [|done]. lookups. apply hand_store. congruence.
    + simpl. by lookups.
    + simpl. by lookups.
    + done.
  - pose proof settle_shift as Hset. pose proof repointed_same as Hsame. pose proof grandchild as Hgc.
    pose proof (grandchildren_NoDup l0 r0 EL ER) as HN. pose proof position_l as Hpos.
    rewrite EL, ER in *. cbn [BPlusTreeNode.len BPlusTreeNode.key_count] in Hlend.
    pose proof (internal_lengths r r0 Hr) as Hlr0. pose proof (internal_lengths l l0 Hl) as Hll0.
    destruct (InternalNode.keys r0) as [|kr restk] eqn:Hk; [simpl in Hlend; lia|].
    destruct (InternalNode.children r0) as [|c restc] eqn:Hc; [simpl in Hlr0; lia|].
    destruct (Hgc r r0 c) as (cm & Hcm & Hcmp & Hcid & Hcl & Hcr & Hcp); [auto|done|rewrite Hc; set_solver|].
    pose proof (hand_store c ltac:(congruence)) as Sc. rewrite Hcm in Sc.
    set (L' := InternalNode.mk (InternalNode.id l0) (InternalNode.keys l0 ++ [k]) (InternalNode.children l0 ++ [c]) (InternalNode.parent l0)).
    set (R' := InternalNode.mk (InternalNode.id r0) restk restc (InternalNode.parent r0)).
    set (P' := set_seg (pn := pn) (ks1 := ks1) (ks2 := ks2) (cs1 := cs1) (cs2 := cs2) [kr] [l; r]).
    set (s1 := BPlusTree.with_nodes s (<[c := BPlusTreeNode.set_parent cm (Some l)]> (BPlusTree.nodes s))).
    set (s2 := BPlusTree.with_nodes s1 (<[p := BPlusTreeNode.Internal P']> (BPlusTree.nodes s1))).
    assert (Hrot : BPlusTree.rotate_from_right l0 r0 p s = (Ok (L', R'), s2)).
    { unfold BPlusTree.rotate_from_right. rewrite (bind_ok _ _ _ _ _ (get_node_ok s p _ Sp)). simpl in Idl. rewrite Idl, Hpos.
      rewrite Hks, lookup_mid by lia. rewrite Hc.
      rewrite (bind_ok _ _ s (BPlusTree.set_children (BPlusTree.set_keys l0 (InternalNode.keys l0 ++ [k])) (InternalNode.children l0 ++ [c]),
        BPlusTree.set_children r0 restc) s1).
      2: { by rewrite (bind_ok _ _ _ _ _ (set_child_parent_ok s l c cm Sc Hcid)). }
      cbn [BPlusTree.set_children InternalNode.keys]. rewrite Hk.
      rewrite (bind_ok _ _ s1 tt s2); [done|]. rewrite (update_node_ok s1 p) by done. do 5 f_equal.
      unfold P', set_seg, BPlusTree.set_keys. rewrite Hcs. f_equal. apply insert_mid. lia. }
    rewrite (bind_ok _ _ s (BPlusTreeNode.Internal L', BPlusTreeNode.Internal R') s2) by (by rewrite (bind_ok _ _ _ _ _ Hrot)).
    cbv beta iota zeta. rewrite (bind_ok _ _ _ _ _ (update_node_ok s2 r (BPlusTreeNode.Internal R') Idr)).
    set (s3 := BPlusTree.with_nodes s2 _). rewrite (bind_ok _ _ _ _ _ (update_node_ok s3 l (BPlusTreeNode.Internal L') Idl)).
    set (s4 := BPlusTree.with_nodes s3 _). cbn [BPlusTreeNode.is_leaf BPlusTree.when].
    apply (Hset s4 kr (BPlusTreeNode.Internal L') (BPlusTreeNode.Internal R')); unfold s4, s3, s2, s1; simpl.
    + apply (shifted_internal k l0 r0 (InternalNode.keys l0 ++ [k]) kr restk (InternalNode.children l0 ++ [c]) restc).
      * by rewrite Hk, <- app_assoc.
      * by rewrite Hc, <- app_assoc.
      * rewrite !length_app. simpl. lia.
    + done.
    + by lookups.
    + by lookups.
    + by lookups.
    + intros j Hjl Hjr Hjp. destruct (decide (j = c)) as [->|Hjc].
      * unfold repointed. rewrite Hcm. exists (BPlusTreeNode.set_parent cm (Some l)). lookups. split_and!; auto using sim_set_parent.
        rewrite set_parent_parent. rewrite decide_True; [done|]. set_solver.
      * apply Hsame; [lookups; apply hand_store; congruence|]. intros m Hm. case_decide as Hd1.
        { destruct (Hgc l l0 j) as (m' & Hm' & ? & _); [auto|done|set_solver|]. congruence. }
        case_decide as Hd2; [|done].
        destruct (Hgc r r0 j) as (m' & Hm' & ? & _); [auto|done|rewrite Hc; set_solver|]. congruence.
Qed.
(** *** Merging *)

Section merge.
Context {rec : node -> BPlusTree.op unit} {room H : nat}.
Hypothesis Hrec : relieves rec room.
Hypothesis HGroot : G !! BPlusTree.root_id s = Some (None, None, H).
Hypothesis Hroom : (H - S h < room)%nat.
Hypothesis Hmin : (1 <= BPlusTree.min_keys (BPlusTree.config s))%nat.

(** The pair is merged in the store: unlinking the right node settles. *)
Lemma settle_merge (F : store) L' : merged k L R L' -> F !! l = Some L' -> F !! r = None -> F !! p = Some (BPlusTreeNode.Internal pn) ->
  (forall j, j <> l -> j <> r -> j <> p -> repointed M F l r (BPlusTreeNode.get_all_children L') [] j) ->
  settles s M (BPlusTree.remove_from_parent rec p r (BPlusTree.with_nodes s F)).
Proof using All.
  intros Hm Fl Fr Fp Hrep. destruct (pair_distinct p pn cs1 l r cs2 Hp Hcs) as (_ & Hrc & Hlr & Hlp & Hrp).
  set (P' := set_seg (pn := pn) (ks1 := ks1) (ks2 := ks2) (cs1 := cs1) (cs2 := cs2) [] [l]).
  set (M1 := <[p := BPlusTreeNode.Internal P']> F).
  destruct (merge_inv I Hp HGp Hks Hcs Hlen Hl Hr HGl HGr M1 L' Hm) as (G' & I' & HL' & Hhas & HG').
  { unfold M1. by lookups. }
  { unfold M1. by lookups. }
  { unfold M1. by lookups. }
  { intros j Hjl Hjr Hjp. specialize (Hrep j Hjl Hjr Hjp). unfold repointed in *. unfold M1. by lookups. }
  destruct (inv_root _ _ _ I) as (rt & h0 & Hrt & Hrtp & _). destruct pair_parents as [HLp HRp].
  assert (Hrl : BPlusTree.root_id s <> l) by congruence. assert (Hrr : BPlusTree.root_id s <> r) by congruence.
  assert (Hdom : forall j m, M1 !! j = Some m -> 0 <= j < BPlusTree.next_node_id s).
  { intros j m Hj. assert (exists m', M !! j = Some m') as [m' Hm']; [|by eapply Hids].
    destruct (decide (j = l)) as [->|]; [eauto|]. destruct (decide (j = r)) as [->|]; [eauto|].
    destruct (decide (j = p)) as [->|]; [eauto|]. unfold M1 in Hj. rewrite lookup_insert_ne in Hj by done.
    pose proof (Hrep j) as Ho. unfold repointed in Ho. destruct (M !! j); [eauto|]. rewrite Ho in Hj; done. }
  set (s3 := BPlusTree.with_nodes s F).
  assert (Hrun : settles s3 M1 (BPlusTree.remove_from_parent rec p r s3)).
  { apply (unlink_run (s := s3) (p := p) (r := r) (ks1 := ks1) (ks2 := ks2) (cs1 := cs1) (cs2 := cs2) (rec := rec) (room := room)
      (G := G') (a := a) (b := b) (h := h) (H := H) (k := k) (pn := pn) (l := l)); try done.
    - apply (node_id_at p _ Hp).
    - apply HL'. exact HL.
    - by rewrite HG'.
    - cbn. by rewrite HG'. }
  destruct Hrun as (s' & ? & ? & Hh & Hcfg). exists s'. split_and!; auto.
  intros k' v'. by rewrite Hh.
Qed.

(** Relinking the leaf after the pair. *)
Lemma relink_run l0 r0 to : i = l \/ i = r -> L = BPlusTreeNode.Leaf l0 -> R = BPlusTreeNode.Leaf r0 ->
  exists F, BPlusTree.relink_prev (LeafNode.next r0) to s = (Ok tt, BPlusTree.with_nodes s F) /\
    F !! p = BPlusTree.nodes s !! p /\
    forall j, j <> l -> j <> r -> j <> p -> repointed M F l r [] [] j.
Proof using All.
  intros Hi EL ER. destruct (pair_leaf I Hp HGp Hks Hcs Hlen Hl Hr HGl HGr l0 r0 EL ER) as (_ & _ & _ & _ & _ & Hn & Hne).
  unfold BPlusTree.relink_prev. pose proof repointed_same as Hsame. destruct (LeafNode.next r0) as [x|].
  - destruct Hn as (_ & lx & hx & Hx & _). destruct (Hne x eq_refl) as [Hxl Hxr].
    assert (Hxp : x <> p) by congruence. assert (Hxi : x <> i) by (by destruct Hi as [-> | ->]).
    pose proof (hand_store x Hxi) as Sx. rewrite Hx in Sx. rewrite (bind_ok _ _ _ _ _ (get_node_ok s x _ Sx)).
    rewrite (update_node_ok s x) by (apply (node_id_at x _ Hx)). eexists. split_and!; [done|by lookups|].
    intros j ? ? ?. assert (j <> i) by (destruct Hi as [-> | ->]; done). destruct (decide (j = x)) as [->|Hjx].
    + unfold repointed. rewrite Hx. lookups. eexists. split_and!; [done|done|]. by rewrite !decide_False by apply not_elem_of_nil.
    + apply Hsame; [lookups; by apply hand_store|]. intros m _. by rewrite !decide_False by apply not_elem_of_nil.
  - exists (BPlusTree.nodes s). split_and!; [by destruct s|done|]. intros j ? ? ?. apply Hsame.
    + apply hand_store. by destruct Hi as [-> | ->].
    + intros m _. by rewrite !decide_False by apply not_elem_of_nil.
Qed.

(** Joining two internal nodes: the separator comes down, the children are repointed. *)
Lemma merge_internal_run l0 r0 dst_id node_id sep_pos : i = l \/ i = r ->
  L = BPlusTreeNode.Internal l0 -> R = BPlusTreeNode.Internal r0 -> dst_id = l ->
  (exists pos, BPlusTree.position node_id (InternalNode.children pn) = Some pos /\ sep_pos pos pn = Some (length cs1)) ->
  exists F, BPlusTree.merge_internal l0 r0 dst_id node_id p sep_pos s =
      (Ok (InternalNode.mk (InternalNode.id l0) (InternalNode.keys l0 ++ k :: InternalNode.keys r0)
             (InternalNode.children l0 ++ InternalNode.children r0) (InternalNode.parent l0)), BPlusTree.with_nodes s F) /\
    F !! p = BPlusTree.nodes s !! p /\
    forall j, j <> l -> j <> r -> j <> p -> repointed M F l r (InternalNode.children l0 ++ InternalNode.children r0) [] j.
Proof using All.
  intros Hi EL ER -> (pos & Hpos & Hsp). destruct (pair_distinct p pn cs1 l r cs2 Hp Hcs) as (_ & _ & Hlr & Hlp & Hrp).
  assert (Hpi : p <> i) by (destruct Hi as [-> | ->]; congruence).
  pose proof (hand_store p Hpi) as Sp. rewrite Hp in Sp.
  unfold BPlusTree.merge_internal. rewrite (bind_ok _ _ _ _ _ (get_node_ok s p _ Sp)). rewrite Hpos. cbn [mbind option_bind].
  rewrite Hsp. cbn [mbind option_bind]. rewrite Hks, lookup_mid by lia. cbn [from_option app InternalNode.id InternalNode.children].
  assert (Hgc : forall c, c ∈ InternalNode.children l0 ++ InternalNode.children r0 ->
    exists cm, M !! c = Some cm /\ BPlusTreeNode.id cm = c /\ c <> i /\ c <> p).
  { intros c [Hc|Hc]%elem_of_app; [destruct (grandchild l l0 c) as (cm & ? & _ & ? & ? & ? & ?)|
      destruct (grandchild r r0 c) as (cm & ? & _ & ? & ? & ? & ?)]; auto; try congruence;
      exists cm; split_and!; auto; by destruct Hi as [-> | ->]. }
  destruct (for_each_set_parent l (InternalNode.children l0 ++ InternalNode.children r0) s) as (s1 & Hrun & Hs1 & Hlk).
  { intros c Hc. destruct (Hgc c Hc) as (cm & ? & ? & ? & _). exists cm. by rewrite hand_store. }
  rewrite (bind_ok _ _ _ _ _ Hrun). exists (BPlusTree.nodes s1). split_and!.
  - unfold BPlusTree.ret. by rewrite <- Hs1.
  - rewrite Hlk, decide_False; [done|]. intros Hc. by destruct (Hgc p Hc) as (_ & _ & _ & _ & ?).
  - intros j Hjl Hjr Hjp. unfold repointed. rewrite Hlk. rewrite hand_store by (by destruct Hi as [-> | ->]).
    destruct (M !! j) as [m|]; [|by case_decide].
    destruct (decide (j ∈ InternalNode.children l0 ++ InternalNode.children r0)); simpl.
    + eexists. split_and!; [done|apply sim_set_parent|]. apply set_parent_parent.
    + exists m. split_and!; [done|apply sim_refl|]. done.
Qed.

(** Both merge functions end by storing the joined node, dropping the right one and unlinking it. *)
Lemma merge_end F L' : i = l \/ i = r -> merged k L R L' -> F !! p = BPlusTree.nodes s !! p ->
  (forall j, j <> l -> j <> r -> j <> p -> repointed M F l r (BPlusTreeNode.get_all_children L') [] j) ->
  settles s M (BPlusTree.bind (BPlusTree.update_node L') (fun _ =>
    BPlusTree.bind (BPlusTree.remove_node r) (fun _ => BPlusTree.remove_from_parent rec p r)) (BPlusTree.with_nodes s F)).
Proof using All.
  intros Hi Hm Fp Hrep. destruct (pair_distinct p pn cs1 l r cs2 Hp Hcs) as (_ & _ & Hlr & Hlp & Hrp).
  assert (Hpi : p <> i) by (destruct Hi as [-> | ->]; congruence).
  pose proof (hand_store p Hpi) as Sp. rewrite Hp in Sp.
  assert (Hid : BPlusTreeNode.id L' = l). { pose proof (node_id_at l L Hl) as Hid. by destruct Hm. }
  rewrite (bind_ok _ _ _ _ _ (update_node_ok _ l L' Hid)).
  rewrite (bind_ok _ _ _ tt (BPlusTree.with_nodes s (delete r (<[l := L']> F)))) by done.
  apply (settle_merge _ L'); auto; [by lookups..|lookups; congruence|].
  intros j ? ? ?. specialize (Hrep j). unfold repointed in *. lookups. by apply Hrep.
Qed.

Lemma merge_left_run : r = i -> settles s M (BPlusTree.merge_with_left rec n l s).
Proof using All.
  intros Hri. destruct (pair_distinct p pn cs1 l r cs2 Hp Hcs) as (_ & _ & Hlr & Hlp & Hrp).
  assert (HRn : R = n). { pose proof hand_i as Hi. rewrite Hri in Hr. congruence. }
  pose proof (hand_store l ltac:(congruence)) as Sl. rewrite Hl in Sl.
  destruct pair_parents as [HLp HRp]. pose proof (node_id_at r R Hr) as Idr.
  unfold BPlusTree.merge_with_left. rewrite (bind_ok _ _ _ _ _ (get_node_ok s l L Sl)).
  rewrite <- HRn, HRp, Idr. unfold BPlusTree.lift. cbn [ok_or]. rewrite (bind_ok _ _ s p s) by done.
  destruct (same_kind l r L R llo (Some k) (Some k) rhi h Hl Hr HGl HGr) as [(l0 & r0 & EL & ER)|(l0 & r0 & EL & ER)].
  - destruct (relink_run l0 r0 l) as (F & Hrun & HFp & Hrep); [auto|done|done|]. pose proof merge_end as Hend. rewrite EL, ER in *.
    rewrite (bind_ok _ _ s (BPlusTreeNode.Leaf (LeafNode.mk (LeafNode.id l0) (LeafNode.entries l0 ++ LeafNode.entries r0)
                                       (LeafNode.next r0) (LeafNode.prev l0) (LeafNode.parent l0))) (BPlusTree.with_nodes s F))
      by (by rewrite (bind_ok _ _ _ _ _ Hrun)).
    apply Hend; auto. apply merged_leaf.
  - destruct (merge_internal_run l0 r0 l r (fun pos p => if BPlusTree.has_left_key pos p then Some (pos - 1)%nat else None))
      as (F & Hrun & HFp & Hrep); [auto|done|done|done| |].
    { exists (S (length cs1)). split; [apply position_r|]. rewrite left_key_r. f_equal. lia. }
    pose proof merge_end as Hend. rewrite EL, ER in *.
    rewrite (bind_ok _ _ s (BPlusTreeNode.Internal (InternalNode.mk (InternalNode.id l0) (InternalNode.keys l0 ++ k :: InternalNode.keys r0)
             (InternalNode.children l0 ++ InternalNode.children r0) (InternalNode.parent l0))) (BPlusTree.with_nodes s F))
      by (by rewrite (bind_ok _ _ _ _ _ Hrun)).
    apply Hend; auto. apply merged_internal.
Qed.

Lemma merge_right_run : l = i -> settles s M (BPlusTree.merge_with_right rec n r s).
Proof using All.
  intros Hli. destruct (pair_distinct p pn cs1 l r cs2 Hp Hcs) as (_ & _ & Hlr & Hlp & Hrp).
  assert (HLn : L = n). { pose proof hand_i as Hi. rewrite Hli in Hl. congruence. }
  pose proof (hand_store r ltac:(congruence)) as Sr. rewrite Hr in Sr.
  destruct pair_parents as [HLp HRp]. pose proof (node_id_at l L Hl) as Idl.
  unfold BPlusTree.merge_with_right. rewrite (bind_ok _ _ _ _ _ (get_node_ok s r R Sr)).
  rewrite <- HLn, HLp, Idl. unfold BPlusTree.lift. cbn [ok_or]. rewrite (bind_ok _ _ s p s) by done.
  destruct (same_kind l r L R llo (Some k) (Some k) rhi h Hl Hr HGl HGr) as [(l0 & r0 & EL & ER)|(l0 & r0 & EL & ER)].
  - destruct (relink_run l0 r0 l) as (F & Hrun & HFp & Hrep); [auto|done|done|]. pose proof merge_end as Hend. rewrite EL, ER in *.
    rewrite (bind_ok _ _ s (BPlusTreeNode.Leaf (LeafNode.mk (LeafNode.id l0) (LeafNode.entries l0 ++ LeafNode.entries r0)
                                       (LeafNode.next r0) (LeafNode.prev l0) (LeafNode.parent l0))) (BPlusTree.with_nodes s F))
      by (by rewrite (bind_ok _ _ _ _ _ Hrun)).
    apply Hend; auto. apply merged_leaf.
  - destruct (merge_internal_run l0 r0 l l (fun pos _ => Some pos)) as (F & Hrun & HFp & Hrep); [auto|done|done|done| |].
    { exists (length cs1). split; [apply position_l|done]. }
    pose proof merge_end as Hend. rewrite EL, ER in *.
    rewrite (bind_ok _ _ s (BPlusTreeNode.Internal (InternalNode.mk (InternalNode.id l0) (InternalNode.keys l0 ++ k :: InternalNode.keys r0)
             (InternalNode.children l0 ++ InternalNode.children r0) (InternalNode.parent l0))) (BPlusTree.with_nodes s F))
      by (by rewrite (bind_ok _ _ _ _ _ Hrun)).
    apply Hend; auto. apply merged_internal.
Qed.
End merge.
End pair.
End hand.

(** ** The rebalancing cascade *)

Lemma sibling_left n pn cs1 cs2 : InternalNode.children pn = cs1 ++ BPlusTreeNode.id n :: cs2 -> BPlusTreeNode.id n ∉ cs1 ->
  BPlusTree.get_left_sibling n (BPlusTreeNode.Internal pn) = last cs1.
Proof.
  intros Hcs Hn. unfold BPlusTree.get_left_sibling. rewrite Hcs, position_at by done.
  destruct cs1 as [|l cs1 _] using rev_ind; [done|]. rewrite last_snoc, length_app, Nat.add_1_r, <- app_assoc. apply lookup_app_here.
Qed.

Lemma sibling_right n pn cs1 cs2 : InternalNode.children pn = cs1 ++ BPlusTreeNode.id n :: cs2 -> BPlusTreeNode.id n ∉ cs1 ->
  BPlusTree.get_right_sibling n (BPlusTreeNode.Internal pn) = head cs2.
Proof.
  intros Hcs Hn. unfold BPlusTree.get_right_sibling. rewrite Hcs, position_at by done.
  rewrite (cons_middle _ cs1 cs2), app_assoc, lookup_app_r by (rewrite length_app; simpl; lia).
  rewrite length_app. simpl. replace (S (length cs1) - (length cs1 + 1))%nat with 0%nat by lia. by destruct cs2.
Qed.

Lemma can_lend_run s j m : BPlusTree.nodes s !! j = Some m ->
  BPlusTree.can_lend (Some j) s = (Ok (BPlusTree.min_keys (BPlusTree.config s) <? BPlusTreeNode.len m)%nat, s).
Proof. intros Hj. unfold BPlusTree.can_lend. by rewrite (bind_ok _ _ _ _ _ (get_node_ok s j m Hj)). Qed.

Lemma handle_underflow_relieves fuel : relieves (BPlusTree.handle_underflow fuel) fuel.
Proof.
  induction fuel as [|fuel IH]; intros s G n lo hi h H p M I HL Hids Hnext HGi HGr Hroom Hpar Hmin; [lia|].
  set (i := BPlusTreeNode.id n) in *. assert (Hi : M !! i = Some n) by (unfold M; by lookups).
  destruct (parent_height I i n lo hi h p Hi HGi Hpar) as (pn & a & b & Hp & Hin & HGp).
  assert (Hpi : p <> i). { intros ->. rewrite HGi in HGp. injection HGp. lia. }
  assert (Sp : BPlusTree.nodes s !! p = Some (BPlusTreeNode.Internal pn)) by (unfold M in Hp; by rewrite lookup_insert_ne in Hp).
  pose proof (height_le_root I H p _ _ _ _ HGr Hp HGp) as HhH.
  pose proof (children_NoDup I _ _ Hp) as HN. apply list_elem_of_split in Hin as (cs1 & cs2 & Hcs). rewrite Hcs in HN.
  apply NoDup_app in HN as (_ & HN1 & HN2). apply NoDup_cons in HN2 as [HN2 _].
  assert (Hn1 : i ∉ cs1) by (intros Hin; apply (HN1 _ Hin); set_solver).
  cbn [BPlusTree.handle_underflow]. rewrite Hpar. rewrite (bind_ok _ _ s p s) by done.
  rewrite (bind_ok _ _ _ _ _ (get_node_ok s p _ Sp)).
  rewrite (sibling_left n pn cs1 cs2 Hcs Hn1), (sibling_right n pn cs1 cs2 Hcs Hn1).
  assert (Hpair : forall cs1' l r cs2', InternalNode.children pn = cs1' ++ [l; r] ++ cs2' -> i = l \/ i = r ->
    exists ks1 k ks2 L R llo rhi, InternalNode.keys pn = ks1 ++ [k] ++ ks2 /\ length ks1 = length cs1' /\
      M !! l = Some L /\ M !! r = Some R /\ G !! l = Some (llo, Some k, h) /\ G !! r = Some (Some k, rhi, h)).
  { intros cs1' l r cs2' Hc Hlr. destruct (pair_at I p pn cs1' l r cs2' Hp Hc) as (ks1 & k & ks2 & L & R & a' & b' & llo & rhi & h' & H1 & H2 & H3 & H4 & H5 & H6 & H7).
    rewrite HGp in H5. injection H5 as <- <- <-. exists ks1, k, ks2, L, R, llo, rhi. auto 10. }
  (* the left neighbour *)
  assert (Hleft : forall l, last cs1 = Some l -> exists L, BPlusTree.nodes s !! l = Some L /\
    ((2 <= BPlusTreeNode.len L)%nat -> settles s M (BPlusTree.borrow_from_left n l s)) /\
    settles s M (BPlusTree.merge_with_left (BPlusTree.handle_underflow fuel) n l s)).
  { intros l Hl. apply last_Some in Hl as [cs1' ->].
    assert (Hc : InternalNode.children pn = cs1' ++ [l; i] ++ cs2) by (by rewrite Hcs, <- app_assoc).
    destruct (Hpair cs1' l i cs2 Hc ltac:(auto)) as (ks1 & k & ks2 & L & R & llo & rhi & Hks & Hlen & HMl & HMr & HGl & HGi').
    exists L. assert (l <> i) by (intros ->; set_solver).
    split_and!; [unfold M in HMl; by rewrite lookup_insert_ne in HMl| |].
    - intros Hlend. by apply (borrow_left_run I HL Hids Hnext Hp HGp Hks Hc Hlen HMl HMr HGl HGi').
    - apply (merge_left_run I HL Hids Hnext Hp HGp Hks Hc Hlen HMl HMr HGl HGi' (room := fuel) (H := H)); auto. lia. }
  assert (Hright : forall r, head cs2 = Some r -> exists R, BPlusTree.nodes s !! r = Some R /\
    ((2 <= BPlusTreeNode.len R)%nat -> settles s M (BPlusTree.borrow_from_right n r s)) /\
    settles s M (BPlusTree.merge_with_right (BPlusTree.handle_underflow fuel) n r s)).
  { intros r Hr. destruct cs2 as [|r' cs2']; [done|]. injection Hr as ->.
    assert (Hc : InternalNode.children pn = cs1 ++ [i; r] ++ cs2') by done.
    destruct (Hpair cs1 i r cs2' Hc ltac:(auto)) as (ks1 & k & ks2 & L & R & llo & rhi & Hks & Hlen & HMl & HMr & HGi' & HGr').
    exists R. assert (r <> i) by (intros ->; set_solver).
    split_and!; [unfold M in HMr; by rewrite lookup_insert_ne in HMr| |].
    - intros Hlend. by apply (borrow_right_run I HL Hids Hnext Hp HGp Hks Hc Hlen HMl HMr HGi' HGr').
    - apply (merge_right_run I HL Hids Hnext Hp HGp Hks Hc Hlen HMl HMr HGi' HGr' (room := fuel) (H := H)); auto. lia. }
  assert (Hrest : settles s M (BPlusTree.bind (BPlusTree.can_lend (head cs2)) (fun lends_right =>
    if lends_right then match head cs2 with Some r => BPlusTree.borrow_from_right n r | None => BPlusTree.ret tt end
    else match last cs1, head cs2 with
         | Some l, _ => BPlusTree.merge_with_left (BPlusTree.handle_underflow fuel) n l
         | None, Some r => BPlusTree.merge_with_right (BPlusTree.handle_underflow fuel) n r
         | None, None => BPlusTree.update_node n
         end) s)).
  { destruct (head cs2) as [r|].
    - destruct (Hright r eq_refl) as (R & SR & Hb & Hm). rewrite (bind_ok _ _ _ _ _ (can_lend_run s r R SR)).
      destruct (Nat.ltb_spec (BPlusTree.min_keys (BPlusTree.config s)) (BPlusTreeNode.len R)); [apply Hb; lia|].
      destruct (last cs1) as [l|]; [|done]. by destruct (Hleft l eq_refl) as (L & _ & _ & ?).
    - rewrite (bind_ok _ _ s false s) by done. destruct (last cs1) as [l|]; [by destruct (Hleft l eq_refl) as (L & _ & _ & ?)|].
      by apply (update_settles s G i). }
  destruct (last cs1) as [l|].
  - destruct (Hleft l eq_refl) as (L & SL & Hb & Hm). rewrite (bind_ok _ _ _ _ _ (can_lend_run s l L SL)).
    destruct (Nat.ltb_spec (BPlusTree.min_keys (BPlusTree.config s)) (BPlusTreeNode.len L)); [apply Hb; lia|]. exact Hrest.
  - rewrite (bind_ok _ _ s false s) by done. exact Hrest.
Qed.

(** [delete] returns whether the key was there, keeps the invariant and removes the key. *)
Lemma delete_contents s k : tree_ok s ->
  exists s', BPlusTree.delete k s = (Ok (bool_decide (is_Some (contents s !! k))), s') /\ tree_ok s' /\
    contents s' = delete k (contents s) /\ BPlusTree.config s' = BPlusTree.config s.
Proof.
  intros Hok. pose proof Hok as ((G & I & HL) & Hids & H0).
  destruct (find_leaf_home I s k eq_refl) as (j & l & lo & hi & Hf & Hj & HGj & Hin & _).
  destruct (inv_shape I _ _ _ _ _ Hj HGj) as (_ & Hid & _ & Hs & HF & _).
  destruct (leaf_remove_spec l k Hs) as (es & Hrem & Hsorted & Hmap & Hold).
  assert (Hck : contents s !! k = to_map (LeafNode.entries l) !! k).
  { apply option_eq. intros v. by rewrite (contents_has G s), (has_home I s k j l lo hi), to_map_elem. }
  unfold BPlusTree.delete. rewrite (bind_ok _ _ s (BPlusTree.root_id s) s) by done.
  rewrite (bind_ok _ _ _ _ _ Hf), (bind_ok _ _ _ _ _ (get_node_ok s j _ Hj)).
  cbn [BPlusTreeNode.delete_entry]. rewrite Hrem, Hck. cbv beta iota zeta.
  destruct (to_map (LeafNode.entries l) !! k) as [v|] eqn:Hv.
  2: { exists s. rewrite bool_decide_false by (by intros [? ?]). split_and!; auto. by rewrite delete_id. }
  rewrite (bool_decide_true (is_Some (Some v))) by (by eexists).
  assert (HFes : Forall (fun e => inside lo hi e.1) es) by (rewrite Forall_forall in *; eauto).
  assert (Hsame : forall k' v', k' <> k -> (k', v') ∈ es <-> (k', v') ∈ LeafNode.entries l).
  { intros k2 v2 Hne. rewrite <- !to_map_elem by done. by rewrite Hmap, lookup_delete_ne. }
  pose proof (leaf_store_inv I Hj HGj Hsorted HFes) as I'.
  pose proof (leaf_store_has I Hj HGj Hsorted HFes s k eq_refl Hin Hsame) as Hhas.
  set (M := leaf_store (M := BPlusTree.nodes s) (j := j) (l := l) (es := es)) in *.
  set (n := BPlusTreeNode.Leaf (LeafNode.set_entries l es)) in *.
  assert (HL' : leftmost_ok s G M) by (eapply leftmost_kept; [done|exact (leaf_store_kept Hj HGj)|exact HL]).
  assert (Hids' : ids_below M (BPlusTree.next_node_id s)).
  { intros i m. unfold M, leaf_store. rewrite lookup_insert_Some. intros [(<- & _)|(_ & Hi)]; eauto. }
  destruct (inv_root _ _ _ I) as (rt & H & Hr & _ & HGr). pose proof (height_lt_size I _ _ _ _ _ Hr HGr) as Hsz.
  rewrite (bind_ok _ _ s (BPlusTree.config s) s) by done. rewrite (bind_ok _ _ s (BPlusTree.depth_fuel s) s) by done.
  assert (Hset : settles s M ((if ((BPlusTreeNode.len n <? BPlusTree.min_keys (BPlusTree.config s))%nat && bool_decide (is_Some (BPlusTreeNode.parent n)))
    then BPlusTree.handle_underflow (BPlusTree.depth_fuel s) n else BPlusTree.update_node n) s)).
  { destruct (_ && _) eqn:Hb.
    - apply andb_true_iff in Hb as [Hlt Hb]. apply Nat.ltb_lt in Hlt. apply bool_decide_eq_true in Hb as [q Hq].
      pose proof (handle_underflow_relieves (BPlusTree.depth_fuel s) s G n lo hi 0%nat H q) as Hrel. simpl in Hid.
      change (BPlusTreeNode.id n) with (LeafNode.id l) in Hrel. rewrite Hid in Hrel.
      apply Hrel; auto; [unfold BPlusTree.depth_fuel; lia|lia].
    - by apply (update_settles s G j). }
  destruct Hset as (s' & Hrun & Hok' & Hhas' & Hcfg). exists s'. split_and!; auto.
  - by rewrite (bind_ok _ _ _ _ _ Hrun).
  - destruct Hok' as ((G' & I2 & _) & _). apply (contents_eq G'); [done|]. intros k' v'.
    rewrite Hhas', Hhas, lookup_delete_Some, (contents_has G s) by done.
    assert (Hk : (k, v') ∉ es). { rewrite <- to_map_elem by done. by rewrite Hmap, lookup_delete_eq. }
    naive_solver.
Qed.
