(* ===== verification/BTreeIter.v ===== *)
(** * Range iteration over the B+Tree

    Models nanograph-btree/src/iterator.rs: [BPlusTreeIterator] with
    [poll_next], [seek] and the cursor functions, and the full scan that a
    client makes by polling until the stream ends.  The tree is an argument of
    every call, because the iterator shares it with writers. *)

From Stdlib Require Import ZArith Lia.
From stdpp Require Import sorting gmap option strings fin_maps fin_map_dom base list.
From S2P Require Import Prelude BTreeError BTreeNode BTreeTree BTreeShape BTreeInv BTreeInsert.

Open Scope Z_scope.

Module BPlusTreeIterator.

(** [std::ops::Bound]. *)
Inductive Bound : Type :=
| Unbounded
| Included (k : list Z)
| Excluded (k : list Z).

Record IteratorCursor : Type := Cursor { leaf_id : option Z; index : Z; cursor_count : Z }.

Record t : Type := mk {
  current_leaf : option Z;
  current_entries : list (list Z * list Z);
  current_index : Z;
  end_bound : Bound;
  reverse : bool;
  limit : option Z;
  count : Z
}.

Definition usize_max : Z := 2 ^ 64 - 1.

Definition position_of (r : SearchResult) : nat := match r with Found i | NotFound i => i end.

(** The result of running a read-only operation of the tree. *)
Definition run {A} (m : BPlusTree.op A) (s : BPlusTree.t) : result BTreeError A := fst (m s).

Definition start_pos : Type := option Z * list (list Z * list Z) * Z.

Definition find_forward_start (s : BPlusTree.t) (start_bound : Bound) : result BTreeError start_pos :=
  let at_key key :=
    let! leaf := run (BPlusTree.find_leaf (BPlusTree.root_id s) key) s in
    let! entries := run (BPlusTree.get_leaf_entries leaf) s in
    let i := position_of (binary_search_by (key_probe fst key) entries) in
    let i :=
      match start_bound with
      | Excluded _ =>
          match entries !! i with
          | Some e => if bool_decide (e.1 = key) then (i + 1)%nat else i
          | None => i
          end
      | _ => i
      end in
    Ok (Some leaf, entries, Z.of_nat i) in
  match start_bound with
  | Unbounded =>
      let! leaf := run BPlusTree.get_leftmost_leaf s in
      let! entries := run (BPlusTree.get_leaf_entries leaf) s in
      Ok (Some leaf, entries, 0)
  | Included key => at_key key
  | Excluded key => at_key key
  end.

(** [while let Some(next_id) = next]. *)
Fixpoint last_leaf_loop (fuel : nat) (s : BPlusTree.t) (leaf : Z) (next : option Z) : result BTreeError Z :=
  match fuel, next with
  | _, None => Ok leaf
  | O, Some _ => Timeout
  | S fuel', Some next_id =>
      let! next := run (BPlusTree.get_next_leaf next_id) s in
      last_leaf_loop fuel' s next_id next
  end.

Definition last_index (entries : list (list Z * list Z)) : Z :=
  match entries with [] => 0 | _ => Z.of_nat (length entries) - 1 end.

Definition start_in_prev (s : BPlusTree.t) (leaf : Z) : result BTreeError start_pos :=
  let! prev := run (BPlusTree.get_prev_leaf leaf) s in
  match prev with
  | Some prev_id =>
      let! prev_entries := run (BPlusTree.get_leaf_entries prev_id) s in
      Ok (Some prev_id, prev_entries, last_index prev_entries)
  | None => Ok (None, [], 0)
  end.

Definition find_reverse_start (s : BPlusTree.t) (end_bound : Bound) : result BTreeError start_pos :=
  let at_key key :=
    let! leaf := run (BPlusTree.find_leaf (BPlusTree.root_id s) key) s in
    let! entries := run (BPlusTree.get_leaf_entries leaf) s in
    match binary_search_by (key_probe fst key) entries with
    | Found idx =>
        match end_bound with
        | Excluded _ =>
            if (idx =? 0)%nat then start_in_prev s leaf else Ok (Some leaf, entries, Z.of_nat idx - 1)
        | _ => Ok (Some leaf, entries, Z.of_nat idx)
        end
    | NotFound idx =>
        if (idx =? 0)%nat then start_in_prev s leaf else Ok (Some leaf, entries, Z.of_nat idx - 1)
    end in
  match end_bound with
  | Unbounded =>
      let! leaf := run BPlusTree.get_leftmost_leaf s in
      let! next := run (BPlusTree.get_next_leaf leaf) s in
      let! leaf := last_leaf_loop (BPlusTree.depth_fuel s) s leaf next in
      let! entries := run (BPlusTree.get_leaf_entries leaf) s in
      Ok (Some leaf, entries, last_index entries)
  | Included key => at_key key
  | Excluded key => at_key key
  end.

Definition new (s : BPlusTree.t) (start_bound end_bound : Bound) (reverse : bool) (limit : option Z) :
    result BTreeError t :=
  let! (leaf, entries, idx) := (if reverse then find_reverse_start s end_bound else find_forward_start s start_bound) in
  Ok (mk leaf entries idx end_bound reverse limit 0).

Definition is_within_end_bound (it : t) (key : list Z) : bool :=
  match end_bound it with
  | Unbounded => true
  | Included end_key => bool_decide (bytes_le key end_key)
  | Excluded end_key => bool_decide (bytes_lt key end_key)
  end.

Definition with_position (it : t) (leaf : option Z) (entries : list (list Z * list Z)) (idx : Z) : t :=
  mk leaf entries idx (end_bound it) (reverse it) (limit it) (count it).

Definition stop (it : t) : t := with_position it None (current_entries it) (current_index it).

Definition item : Type := option (result KeyValueError (list Z * list Z)).

(** [Some(Err(e))] for an error of the tree. *)
Definition poll_error {A} (r : result BTreeError A) : item :=
  Some (match r with Err e => Err (kv_error_from e) | Panic => Panic | _ => Timeout end).

(** [poll_next].  An iteration either returns or moves to another leaf, after
    which the next one returns: fuel 2 is enough ([poll_next_total]). *)
Fixpoint poll_loop (fuel : nat) (s : BPlusTree.t) (it : t) : item * t :=
  match fuel with
  | O => (Some Timeout, it)
  | S fuel' =>
      if match limit it with Some l => l <=? count it | None => false end then (None, it)
      else
        match current_leaf it, current_entries it with
        | None, _ => (None, it)
        | Some _, [] => (None, stop it)
        | Some leaf, _ :: _ =>
            if Z.of_nat (length (current_entries it)) <=? current_index it then
              match run (if reverse it then BPlusTree.get_prev_leaf leaf else BPlusTree.get_next_leaf leaf) s with
              | Ok (Some leaf') =>
                  match run (BPlusTree.get_leaf_entries leaf') s with
                  | Ok [] => poll_loop fuel' s (with_position it (Some leaf') [] (current_index it))
                  | Ok entries =>
                      poll_loop fuel' s (with_position it (Some leaf') entries (if reverse it then last_index entries else 0))
                  | r => (poll_error r, it)
                  end
              | Ok None => (None, stop it)
              | r => (poll_error r, it)
              end
            else
              match current_entries it !! Z.to_nat (current_index it) with
              | None => (Some Panic, it)
              | Some (key, value) =>
                  if negb (reverse it) && negb (is_within_end_bound it key) then (None, stop it)
                  else
                    let idx :=
                      if reverse it then (if current_index it =? 0 then usize_max else current_index it - 1)
                      else current_index it + 1 in
                    (Some (Ok (key, value)),
                     mk (current_leaf it) (current_entries it) idx (end_bound it) (reverse it) (limit it) (count it + 1))
              end
        end
  end.

Definition poll_next (s : BPlusTree.t) (it : t) : item * t := poll_loop 2 s it.

Definition seek (s : BPlusTree.t) (it : t) (key : list Z) : result BTreeError t :=
  let! leaf := run (BPlusTree.find_leaf (BPlusTree.root_id s) key) s in
  let! entries := run (BPlusTree.get_leaf_entries leaf) s in
  Ok (with_position it (Some leaf) entries (Z.of_nat (position_of (binary_search_by (key_probe fst key) entries)))).

Definition position (it : t) : option (list Z) :=
  if current_index it <? Z.of_nat (length (current_entries it))
  then fst <$> current_entries it !! Z.to_nat (current_index it) else None.

Definition valid (it : t) : bool :=
  bool_decide (is_Some (current_leaf it)) && (current_index it <? Z.of_nat (length (current_entries it))).

Definition get_cursor (it : t) : IteratorCursor := Cursor (current_leaf it) (current_index it) (count it).

Definition from_cursor (s : BPlusTree.t) (c : IteratorCursor) (end_bound : Bound) (reverse : bool) (limit : option Z) :
    result BTreeError t :=
  match leaf_id c with
  | Some leaf =>
      let! entries := run (BPlusTree.get_leaf_entries leaf) s in
      Ok (mk (Some leaf) entries (index c) end_bound reverse limit (cursor_count c))
  | None => Ok (mk None [] 0 end_bound reverse limit (cursor_count c))
  end.

(** Polling until the stream ends, the way a client drains it. *)
Fixpoint drain (fuel : nat) (s : BPlusTree.t) (it : t) : result KeyValueError (list (list Z * list Z)) :=
  match fuel with
  | O => Timeout
  | S fuel' =>
      match poll_next s it with
      | (None, _) => Ok []
      | (Some (Ok e), it') => let! es := drain fuel' s it' in Ok (e :: es)
      | (Some (Err e), _) => Err e
      | (Some Panic, _) => Panic
      | (Some Timeout, _) => Timeout
      end
  end.

End BPlusTreeIterator.

(** ** The leaf chain *)

Implicit Types (s : BPlusTree.t) (G : ghost) (M : store) (lo hi : option (list Z)).

(** The entries from a leaf on, following [next]. *)
Inductive from_leaf M : option Z -> list (list Z * list Z) -> Prop :=
| from_none : from_leaf M None []
| from_some j l es : M !! j = Some (BPlusTreeNode.Leaf l) -> from_leaf M (LeafNode.next l) es ->
    from_leaf M (Some j) (LeafNode.entries l ++ es).

Section chain.
Context {G : ghost} {root : Z} {M : store} (I : inv G root M).

(** Leaves that start above the lower end [lo]. *)
Definition starts_after lo (i : Z) : bool :=
  match lo, G !! i with
  | _, None => false
  | _, Some (None, _, _) => false
  | None, Some (Some _, _, _) => true
  | Some a, Some (Some b, _, _) => bool_decide (bytes_lt a b)
  end.

Definition later lo : nat := size (filter (fun i => starts_after lo i = true) (dom M)).

Lemma later_lt lo hi i n hi' h : gap lo hi -> hi <> None -> M !! i = Some n -> G !! i = Some (hi, hi', h) ->
  (later hi < later lo)%nat.
Proof using.
  intros Hg Hhi Hi HG. unfold later. destruct hi as [b|]; [|done]. apply subset_size. split.
  - intros x. rewrite !elem_of_filter. intros [Hx ?]. split; [|done]. revert Hx. unfold starts_after.
    destruct (G !! x) as [[[[y|] ?] ?]|]; try done. destruct lo as [a|]; [|done]. simpl in Hg.
    rewrite !bool_decide_eq_true. eauto using bytes_lt_trans.
  - intros Hsub. assert (Hin : i ∈ filter (fun i => starts_after lo i = true) (dom M)).
    { apply elem_of_filter. split; [|by eapply elem_of_dom_2]. unfold starts_after. rewrite HG.
      destruct lo; [|done]. by apply bool_decide_eq_true. }
    apply Hsub, elem_of_filter in Hin as [Hin _]. unfold starts_after in Hin. rewrite HG in Hin.
    apply bool_decide_eq_true in Hin. by apply bytes_lt_irrefl in Hin.
Qed.

Lemma chain_entries s : BPlusTree.nodes s = M -> forall m j l lo hi, (later lo <= m)%nat ->
  M !! j = Some (BPlusTreeNode.Leaf l) -> G !! j = Some (lo, hi, 0%nat) ->
  exists es, from_leaf M (Some j) es /\ sorted_by fst es /\
    forall k v, (k, v) ∈ es <-> has M k v /\ above lo k.
Proof using I.
  intros HM. induction m as [|m IH]; intros j l lo hi Hm Hj HGj;
    destruct (inv_shape I _ _ _ _ _ Hj HGj) as (Hg & _ & _ & Hs & HF & Hn); rewrite Forall_forall in HF;
    (destruct (LeafNode.next l) as [x|] eqn:Hnext; simpl in Hn;
     [destruct Hn as (Hhi & lx & hix & Hx & HGx); pose proof (later_lt lo hi x _ hix 0%nat Hg Hhi Hx HGx); try lia|]).
  2: destruct (IH x lx hi hix ltac:(lia) Hx HGx) as (es & Hes & Hsorted & Helem); exists (LeafNode.entries l ++ es);
     split_and!; [apply from_some; [done|by rewrite Hnext]|..].
  2: { apply sorted_by_app. split_and!; auto. intros [k1 v1] [k2 v2] H1 [_ H2]%Helem. specialize (HF _ H1) as [_ Hb].
       destruct hi as [b|]; [|done]. simpl in *. by eapply bytes_lt_le_trans. }
  2: { intros k v. rewrite elem_of_app, Helem. split.
       - intros [H1|[H1 H2]]; [split; [by exists j, l|apply (HF _ H1)]|]. split; [done|].
         destruct hi as [b|]; [|done]. destruct lo as [a|]; [|done]. simpl in *. eapply bytes_le_trans; [|exact H2]. by apply bytes_lt_le.
       - intros [H1 H2]. destruct hi as [b|]; [|done]. destruct (bytes_lt_dec k b) as [Hlt|Hge].
         + left. by apply (has_home I s k j l lo (Some b)).
         + right. split; [done|]. simpl. by apply bytes_le_not_lt. }
  all: exists (LeafNode.entries l); split_and!; [|done|].
  1,3: rewrite <- (app_nil_r (LeafNode.entries l)); apply from_some; [done|]; rewrite Hnext; constructor.
  all: intros k v; subst hi; split; [intros H1; split; [by exists j, l|apply (HF _ H1)]|].
  all: intros [H1 H2]; by apply (has_home I s k j l lo None).
Qed.
End chain.

(** ** Forward iteration *)

Section forward.
Import BPlusTreeIterator.
Context {s : BPlusTree.t}.
Let M := BPlusTree.nodes s.

(** The iterator stands in front of [rest]. *)
Definition at_rest (it : t) (rest : list (list Z * list Z)) : Prop :=
  reverse it = false /\
  exists j l es, current_leaf it = Some j /\ M !! j = Some (BPlusTreeNode.Leaf l) /\
    current_entries it = LeafNode.entries l /\ from_leaf M (LeafNode.next l) es /\
    0 <= current_index it /\
    rest = drop (Z.to_nat (current_index it)) (LeafNode.entries l) ++ es.

(** Only the last leaf of the chain may be empty: [poll_next] stops at an empty leaf. *)
Definition leaves_filled : Prop :=
  forall j l, M !! j = Some (BPlusTreeNode.Leaf l) -> LeafNode.entries l = [] -> LeafNode.next l = None.

Lemma get_leaf_entries_run j l : M !! j = Some (BPlusTreeNode.Leaf l) ->
  run (BPlusTree.get_leaf_entries j) s = Ok (LeafNode.entries l).
Proof using. intros Hj. unfold run, BPlusTree.get_leaf_entries, BPlusTree.bind, BPlusTree.get_node. fold M. by rewrite Hj. Qed.

Lemma get_next_leaf_run j l : M !! j = Some (BPlusTreeNode.Leaf l) ->
  run (BPlusTree.get_next_leaf j) s = Ok (LeafNode.next l).
Proof using. intros Hj. unfold run, BPlusTree.get_next_leaf, BPlusTree.bind, BPlusTree.get_node. fold M. by rewrite Hj. Qed.

Definition past_limit (it : t) : bool := match limit it with Some l => l <=? count it | None => false end.

(** One poll: the stream ends, or the next entry comes out and the iterator moves past it. *)
Definition poll_spec (it : t) (rest : list (list Z * list Z)) (out : item * t) : Prop :=
  match rest with
  | [] => fst out = None
  | (k, v) :: rest' =>
      if past_limit it || negb (is_within_end_bound it k) then fst out = None
      else exists it', out = (Some (Ok (k, v)), it') /\ at_rest it' rest' /\
             end_bound it' = end_bound it /\ limit it' = limit it /\ count it' = count it + 1
  end.

(** An iterator whose position is inside its leaf. *)
Lemma poll_inside fuel it j l es k v rest : reverse it = false -> current_leaf it = Some j ->
  M !! j = Some (BPlusTreeNode.Leaf l) -> current_entries it = LeafNode.entries l ->
  from_leaf M (LeafNode.next l) es -> 0 <= current_index it ->
  drop (Z.to_nat (current_index it)) (LeafNode.entries l) = (k, v) :: rest ->
  poll_spec it ((k, v) :: rest ++ es) (poll_loop (S fuel) s it).
Proof using.
  intros Hrev Hcl Hj Hce Hes H0 Hd. cbn [poll_spec poll_loop]. fold (past_limit it).
  destruct (past_limit it); [done|]. rewrite Hcl, Hce.
  assert (Hlk : LeafNode.entries l !! Z.to_nat (current_index it) = Some (k, v)).
  { rewrite <- (Nat.add_0_r (Z.to_nat _)), <- lookup_drop, Hd. done. }
  pose proof (lookup_lt_Some _ _ _ Hlk) as Hlt.
  destruct (LeafNode.entries l) as [|e0 es0] eqn:He; [by rewrite drop_nil in Hd|].
  rewrite (proj2 (Z.leb_gt _ _)) by lia. rewrite Hlk, Hrev. cbn [negb andb orb].
  destruct (is_within_end_bound it k); [|done]. cbn [negb].
  eexists. split; [done|]. split; [|done]. split; [done|]. exists j, l, es. cbn. rewrite He. split_and!; auto; [lia|].
  f_equal. replace (Z.to_nat (current_index it + 1)) with (Z.to_nat (current_index it) + 1)%nat by lia.
  by rewrite <- drop_drop, Hd.
Qed.

Lemma poll_next_spec it rest : leaves_filled -> at_rest it rest -> poll_spec it rest (poll_next s it).
Proof using.
  intros Hfill (Hrev & j & l & es & Hcl & Hj & Hce & Hes & H0 & ->). unfold poll_next.
  destruct (drop (Z.to_nat (current_index it)) (LeafNode.entries l)) as [|[k v] rest] eqn:Hd.
  2: { by eapply poll_inside. }
  assert (Hlen : (length (LeafNode.entries l) <= Z.to_nat (current_index it))%nat).
  { apply (f_equal length) in Hd. rewrite length_drop in Hd. simpl in Hd. lia. }
  assert (Hstep : past_limit it = true /\ poll_loop 2 s it = (None, it) \/
    past_limit it = false /\ (LeafNode.next l = None /\ fst (poll_loop 2 s it) = None \/
     exists x lx es', LeafNode.next l = Some x /\ M !! x = Some (BPlusTreeNode.Leaf lx) /\
       from_leaf M (LeafNode.next lx) es' /\ es = LeafNode.entries lx ++ es' /\
       poll_loop 2 s it = poll_loop 1 s (with_position it (Some x) (LeafNode.entries lx)
         (match LeafNode.entries lx with [] => current_index it | _ => 0 end)))).
  { cbn [poll_loop]. fold (past_limit it). destruct (past_limit it); [auto|]. right. split; [done|]. rewrite Hcl, Hce.
    destruct (LeafNode.entries l) as [|e0 es0] eqn:He; [left; split; [by apply (Hfill j l)|done]|].
    rewrite (proj2 (Z.leb_le _ _)), Hrev, (get_next_leaf_run j l Hj) by lia.
    destruct (LeafNode.next l) as [x|]; [|by left]. right. inversion Hes as [|j' lx es' Hx Hes']; subst. exists x, lx, es'. split_and!; try done.
    rewrite (get_leaf_entries_run x lx Hx). by destruct (LeafNode.entries lx). }
  destruct Hstep as [[Hp ->]|[Hp [[Hn Hout]|(x & lx & es' & Hn & Hx & Hes' & -> & ->)]]]; cbn [app].
  - unfold poll_spec. destruct es as [|[k v] es]; [done|]. by rewrite Hp.
  - rewrite Hn in Hes. inversion Hes; subst. done.
  - destruct (LeafNode.entries lx) as [|[k v] ex] eqn:He.
    + inversion Hes'; subst; [|].
      * unfold poll_spec. cbn [app]. cbn [poll_loop]. unfold past_limit in Hp. cbn [limit count with_position current_leaf current_entries].
        by rewrite Hp.
      * rewrite (Hfill x lx Hx He) in *. done.
    + pose proof (poll_inside 0 (with_position it (Some x) ((k, v) :: ex) 0) x lx es' k v ex) as Hin.
      rewrite He in Hin. cbn in Hin. specialize (Hin Hrev eq_refl Hx eq_refl Hes' ltac:(lia) eq_refl). exact Hin.
Qed.

Definition in_start (b : Bound) (k : list Z) : Prop :=
  match b with Unbounded => True | Included a => bytes_le a k | Excluded a => bytes_lt a k end.

Definition in_end (b : Bound) (k : list Z) : Prop :=
  match b with Unbounded => True | Included a => bytes_le k a | Excluded a => bytes_lt k a end.

Lemma within_end it k : is_within_end_bound it k = true <-> in_end (end_bound it) k.
Proof using. unfold is_within_end_bound, in_end. destruct (end_bound it); rewrite ?bool_decide_eq_true; done. Qed.

#[global] Instance in_end_dec b k : Decision (in_end b k).
Proof. destruct b; simpl; apply _. Defined.

Lemma in_end_mono b k k' : bytes_lt k k' -> in_end b k' -> in_end b k.
Proof using.
  destruct b; simpl; [done|intros H1 H2; apply bytes_lt_le; by eapply bytes_lt_le_trans|apply bytes_lt_trans].
Qed.

(** How many more entries the limit allows. *)
Definition quota (it : t) (n : nat) : nat :=
  match limit it with None => n | Some l => Z.to_nat (l - count it) end.

Lemma drain_spec rest : forall fuel it, leaves_filled -> at_rest it rest -> sorted_by fst rest -> (length rest < fuel)%nat ->
  drain fuel s it = Ok (take (quota it (length rest)) (filter (fun e => in_end (end_bound it) e.1) rest)).
Proof using.
  induction rest as [|[k v] rest IH]; intros fuel it Hfill Hat Hs Hf; (destruct fuel as [|fuel]; [lia|]);
    pose proof (poll_next_spec it _ Hfill Hat) as Hpoll; cbn [drain].
  - unfold poll_spec in Hpoll. destruct (poll_next s it) as [o it']. simpl in Hpoll. subst o. by rewrite filter_nil, take_nil.
  - apply sorted_by_cons in Hs as [Hs Hgt]. cbn [poll_spec] in Hpoll.
    destruct (past_limit it) eqn:Hlim; cbn [orb] in Hpoll.
    { destruct (poll_next s it) as [o it']. simpl in Hpoll. subst o. unfold past_limit in Hlim. unfold quota.
      destruct (limit it) as [lm|]; [|done]. apply Z.leb_le in Hlim. by replace (Z.to_nat (lm - count it)) with 0%nat by lia. }
    destruct (is_within_end_bound it k) eqn:Hw; cbn [negb] in Hpoll.
    + destruct Hpoll as (it' & -> & Hat' & He & Hl & Hc). rewrite (IH fuel it' Hfill Hat' Hs) by (simpl in Hf; lia).
      cbn [rbind]. rewrite He. apply within_end in Hw. rewrite filter_cons, decide_True by done.
      unfold quota, past_limit in *. rewrite Hl, Hc. destruct (limit it) as [lm|]; [|done].
      apply Z.leb_gt in Hlim. by replace (Z.to_nat (lm - count it)) with (S (Z.to_nat (lm - (count it + 1)))) by lia.
    + destruct (poll_next s it) as [o it']. simpl in Hpoll. subst o. do 2 f_equal.
      assert (Hn : ~ in_end (end_bound it) k) by (rewrite <- within_end; congruence).
      rewrite filter_cons, decide_False by done. rewrite filter_none; [by rewrite take_nil|]. apply Forall_forall. intros e He Hin.
      apply Hn. eapply in_end_mono; [|exact Hin]. exact (all_gt_elem _ _ _ _ Hgt He).
Qed.

(** The index [find_forward_start] computes splits a leaf at the bound. *)
Definition start_index (b : Bound) (key : list Z) (ents : list (list Z * list Z)) : nat :=
  let i := position_of (binary_search_by (key_probe fst key) ents) in
  match b with
  | Excluded _ =>
      match ents !! i with Some e => if bool_decide (e.1 = key) then (i + 1)%nat else i | None => i end
  | _ => i
  end.

Lemma start_index_split b key ents : b = Included key \/ b = Excluded key -> sorted_by fst ents ->
  exists l1 l2, ents = l1 ++ l2 /\ start_index b key ents = length l1 /\
    Forall (fun e => ~ in_start b e.1) l1 /\ Forall (fun e => in_start b e.1) l2.
Proof using.
  intros Hb Hs. unfold start_index.
  destruct (search_key_view fst key _ Hs) as [l1 [k v] l2 Hl Hk H1 H2 | l1 l2 Hl H1 H2]; cbn [position_of];
    assert (HN : Forall (fun e : list Z * list Z => ~ in_start b e.1) l1)
      by (eapply Forall_impl; [exact H1|]; intros e He Hin; destruct Hb as [-> | ->]; simpl in *;
          [by apply bytes_le_not_lt in Hin|apply (bytes_lt_irrefl key); eauto using bytes_lt_trans]);
    assert (HI : Forall (fun e : list Z * list Z => in_start b e.1) l2)
      by (eapply Forall_impl; [exact H2|]; intros e He; destruct Hb as [-> | ->]; simpl in *; [by apply bytes_lt_le|done]);
    subst ents.
  - simpl in Hk. subst k. destruct Hb as [-> | ->].
    + exists l1, ((key, v) :: l2). split_and!; auto. constructor; [apply bytes_le_refl|done].
    + rewrite lookup_app_here, bool_decide_true by done. exists (l1 ++ [(key, v)]), l2. rewrite <- app_assoc, length_app.
      split_and!; auto. apply Forall_app. split; [done|]. constructor; [|done]. apply bytes_lt_irrefl.
  - exists l1, l2. split_and!; auto. destruct Hb as [-> | ->]; [done|]. destruct l2 as [|e l2].
    + rewrite app_nil_r, (lookup_ge_None_2 l1) by done. done.
    + rewrite lookup_app_here, bool_decide_false; [done|]. intros He. apply Forall_cons_1 in H2 as [H2 _].
      rewrite He in H2. by apply bytes_lt_irrefl in H2.
Qed.

Section start.
Context {G : ghost} (I : inv G (BPlusTree.root_id s) M) (HL : leftmost_ok s G M).

(** The chain from the home leaf of [key]. *)
Lemma home_chain key : exists j l es, run (BPlusTree.find_leaf (BPlusTree.root_id s) key) s = Ok j /\
  M !! j = Some (BPlusTreeNode.Leaf l) /\ from_leaf M (LeafNode.next l) es /\ sorted_by fst (LeafNode.entries l ++ es) /\
  all_gt fst key es /\ forall k v, bytes_le key k -> (has M k v <-> (k, v) ∈ LeafNode.entries l ++ es).
Proof using I.
  destruct (find_leaf_home I s key eq_refl) as (j & l & lo & hi & Hf & Hj & HGj & Hin & _).
  destruct (chain_entries I s eq_refl (later (G := G) (M := M) lo) j l lo hi) as (es & Hes & Hs & Hel); [done..|].
  inversion Hes as [|j' l' es' Hj' Hes' Hjj Hcat]. subst j' es. fold M in Hj. rewrite Hj in Hj'. injection Hj' as <-.
  exists j, l, es'. unfold run. rewrite Hf. destruct Hin as [Ha Hb]. split_and!; auto.
  - apply Forall_forall. intros [k v] Hk. simpl. destruct (Hel k v) as [He _].
    destruct He as [Hhas Hlo]; [apply elem_of_app; auto|]. destruct (bytes_lt_dec key k) as [|Hge]; [done|]. exfalso.
    assert (Hkl : (k, v) ∈ LeafNode.entries l).
    { apply (has_home I s k j l lo hi); auto. split; [done|]. eapply below_trans; [|exact Hb]. by apply bytes_le_not_lt. }
    apply sorted_by_app in Hs as (_ & _ & Hs). apply (bytes_lt_irrefl k). apply (Hs (k, v) (k, v) Hkl Hk).
  - intros k v Hk. rewrite Hel. split; [|tauto]. intros ?. split; [done|]. by eapply above_trans.
Qed.

(** Where a forward iteration starts. *)
Lemma forward_start b : exists j l idx es,
  find_forward_start s b = Ok (Some j, LeafNode.entries l, Z.of_nat idx) /\
  M !! j = Some (BPlusTreeNode.Leaf l) /\ from_leaf M (LeafNode.next l) es /\
  sorted_by fst (drop idx (LeafNode.entries l) ++ es) /\
  forall k v, (k, v) ∈ drop idx (LeafNode.entries l) ++ es <-> has M k v /\ in_start b k.
Proof using I HL.
  assert (Hkey : forall key, b = Included key \/ b = Excluded key -> exists j l idx es,
    find_forward_start s b = Ok (Some j, LeafNode.entries l, Z.of_nat idx) /\
    M !! j = Some (BPlusTreeNode.Leaf l) /\ from_leaf M (LeafNode.next l) es /\
    sorted_by fst (drop idx (LeafNode.entries l) ++ es) /\
    forall k v, (k, v) ∈ drop idx (LeafNode.entries l) ++ es <-> has M k v /\ in_start b k).
  { intros key Hb. destruct (home_chain key) as (j & l & es & Hf & Hj & Hes & Hs & Hgt & Hel).
    destruct (start_index_split b key (LeafNode.entries l) Hb) as (l1 & l2 & Hl & Hidx & HN & HI).
    { by apply sorted_by_app in Hs as (? & _). }
    exists j, l, (length l1), es. rewrite Hl, drop_app_length in *. split_and!; auto.
    - assert (find_forward_start s b = Ok (Some j, LeafNode.entries l, Z.of_nat (start_index b key (LeafNode.entries l)))) as ->.
      { unfold find_forward_start. destruct Hb as [-> | ->]; rewrite Hf; cbn [rbind]; by rewrite (get_leaf_entries_run j l Hj). }
      by rewrite Hl, Hidx.
    - rewrite <- app_assoc in Hs. by apply sorted_by_app in Hs as (_ & ? & _).
    - intros k v. assert (Hle : in_start b k -> bytes_le key k) by (destruct Hb as [-> | ->]; simpl; auto using bytes_lt_le).
      assert (He : (k, v) ∈ es -> in_start b k).
      { intros H. pose proof (all_gt_elem _ _ _ _ Hgt H). destruct Hb as [-> | ->]; simpl; auto using bytes_lt_le. }
      rewrite Forall_forall in HN, HI. split.
      + intros H. assert (Hin : in_start b k) by (apply elem_of_app in H as [H|H]; [apply (HI _ H)|auto]).
        split; [|done]. apply Hel; [auto|]. rewrite <- app_assoc. apply elem_of_app. auto.
      + intros [Hh Hin]. apply Hel in Hh; [|auto]. rewrite <- app_assoc in Hh. apply elem_of_app in Hh as [Hh|]; [|done].
        by apply HN in Hh. }
  destruct b as [|key|key]; [|apply (Hkey key); auto..].
  destruct HL as (j & l & hi & Hlm & Hj & HGj).
  destruct (chain_entries I s eq_refl (later (G := G) (M := M) None) j l None hi) as (es & Hes & Hs & Hel); [done..|].
  inversion Hes as [|j' l' es' Hj' Hes' Hjj Hcat]. subst j' es. fold M in Hj. rewrite Hj in Hj'. injection Hj' as <-.
  assert (Hfirst : run BPlusTree.get_leftmost_leaf s = Ok j).
  { unfold run, BPlusTree.get_leftmost_leaf, BPlusTree.bind, BPlusTree.read. by rewrite Hlm. }
  exists j, l, 0%nat, es'. split_and!; auto. unfold find_forward_start. rewrite Hfirst. cbn [rbind].
  by rewrite (get_leaf_entries_run j l Hj).
Qed.

Lemma forward_drain b e lim : leaves_filled -> exists it rest,
  new s b e false lim = Ok it /\ sorted_by fst rest /\
  (forall k v, (k, v) ∈ rest <-> has M k v /\ in_start b k) /\
  forall fuel, (length rest < fuel)%nat ->
    drain fuel s it = Ok (take (quota it (length rest)) (filter (fun x => in_end e x.1) rest)) /\
    limit it = lim /\ count it = 0.
Proof using I HL.
  intros Hfill. destruct (forward_start b) as (j & l & idx & es & Hst & Hj & Hes & Hs & Hel).
  set (it := mk (Some j) (LeafNode.entries l) (Z.of_nat idx) e false lim 0).
  exists it, (drop idx (LeafNode.entries l) ++ es). split_and!; [|done|done|].
  { unfold new. rewrite Hst. done. }
  intros fuel Hf. split; [|done]. apply (drain_spec _ fuel it); auto.
  split; [done|]. exists j, l, es. split_and!; try done; [simpl; lia|]. simpl. by rewrite Nat2Z.id.
Qed.
End start.
End forward.

(** ** Properties *)

Section properties.
Import BPlusTreeIterator.

(** The part of a map inside a pair of bounds, in key order. *)
Definition range_of (m : gmap (list Z) (list Z)) (b e : Bound) (es : list (list Z * list Z)) : Prop :=
  sorted_by fst es /\ forall k v, (k, v) ∈ es <-> m !! k = Some v /\ in_start b k /\ in_end e k.

Lemma scan_range s b e : tree_ok s -> leaves_filled (s := s) ->
  exists it es, new s b e false None = Ok it /\ range_of (contents s) b e es /\
    exists n, forall fuel, (n < fuel)%nat -> drain fuel s it = Ok es.
Proof.
  intros ((G & I & HL) & _) Hfill.
  destruct (forward_drain I HL b e None Hfill) as (it & rest & Hnew & Hs & Hel & Hdrain).
  exists it, (filter (fun x => in_end e x.1) rest). split_and!; [done| |].
  - split; [by apply sorted_by_filter|]. intros k v. rewrite list_elem_of_filter, Hel, (contents_has G) by done. simpl. tauto.
  - exists (length rest). intros fuel Hf. destruct (Hdrain fuel Hf) as (-> & Hl & _). unfold quota. rewrite Hl.
    f_equal. apply take_ge. apply length_filter.
Qed.

End properties.
