(* ===== verification/BTreeSpec.v ===== *)
(** * What the B+Tree promises

    The contract of nanograph-btree/src/tree.rs and iterator.rs: under any
    sequence of insertions, deletions and clears the tree is a finite map, a
    forward scan lists a key range of it in order, and a reverse scan does not. *)

From Stdlib Require Import ZArith Lia.
From stdpp Require Import sorting gmap option strings fin_maps base list.
From S2P Require Import Prelude BTreeError BTreeNode BTreeTree BTreeShape BTreeInv BTreeInsert BTreeDelete BTreeRebalance BTreeIter.

Open Scope Z_scope.
Implicit Types (s : BPlusTree.t) (m : gmap (list Z) (list Z)).

(** Room for the ids one insertion can allocate: one per level and a root. *)
Definition id_room s : Prop := BPlusTree.next_node_id s + Z.of_nat (size (BPlusTree.nodes s)) + 2 < 2 ^ 64.

#[global] Instance id_room_dec s : Decision (id_room s).
Proof. unfold id_room. apply _. Defined.

(** The trees that operations reach from an empty one, with the map a client
    expects of them.  An operation that fails keeps the step: its state is
    whatever it left behind. *)
Inductive reaches (c : BPlusTree.BPlusTreeConfig) : BPlusTree.t -> gmap (list Z) (list Z) -> Prop :=
| reaches_new : reaches c (BPlusTree.new c) ∅
| reaches_insert s m k v r s' : reaches c s m -> id_room s -> BPlusTree.insert k v s = (r, s') -> reaches c s' (<[k := v]> m)
| reaches_delete s m k r s' : reaches c s m -> BPlusTree.delete k s = (r, s') -> reaches c s' (delete k m)
| reaches_clear s m r s' : reaches c s m -> BPlusTree.clear s = (r, s') -> reaches c s' ∅.

Lemma new_contents c : contents (BPlusTree.new c) = ∅.
Proof. unfold contents. simpl. by rewrite map_to_list_singleton. Qed.

(** C6. The tree refines a finite map: after any sequence of inserts, deletes
    and clears from an empty tree of at least two keys per node, the node
    store satisfies the B+Tree invariant, its leaves hold exactly the map the
    operations describe, and [get] of every key returns [Ok] of the map's value,
    leaving the tree as it is. *)
Theorem btree_refines_map c s m : (2 <= BPlusTree.max_keys c)%nat -> reaches c s m ->
  tree_ok s /\ contents s = m /\ forall k, BPlusTree.get k s = (Ok (m !! k), s).
Proof.
  intros Hmax Hr.
  assert (Hinv : tree_ok s /\ contents s = m /\ BPlusTree.config s = c).
  { induction Hr as [|s m k v r s' _ (Hok & Hc & Hcfg) Hroom Hop|s m k r s' _ (Hok & Hc & Hcfg) Hop|s m r s' _ (_ & _ & Hcfg) Hop].
    - auto using new_tree_ok, new_contents.
    - destruct (insert_contents s k v Hok) as (s1 & Hrun & Hok1 & Hc1 & Hcfg1); [congruence|done|].
      rewrite Hrun in Hop. injection Hop as <- <-. split_and!; congruence.
    - destruct (delete_contents s k Hok) as (s1 & Hrun & Hok1 & Hc1 & Hcfg1).
      rewrite Hrun in Hop. injection Hop as <- <-. split_and!; congruence.
    - unfold BPlusTree.clear in Hop. injection Hop as <- <-. rewrite Hcfg.
      change (BPlusTree.mk c 0 {[0 := BPlusTreeNode.new_leaf 0]} 1 (Some 0)) with (BPlusTree.new c).
      auto using new_tree_ok, new_contents. }
  destruct Hinv as (Hok & Hc & _). split_and!; auto. intros k. rewrite <- Hc. by apply get_contents.
Qed.

(** [insert] is total and local: on a well-formed tree it returns [Ok],
    whatever splits it propagates to the root, keeps the tree well-formed, and
    afterwards [get] returns the new value for its key and what it returned
    before for every other key. *)
Theorem insert_then_get s k v : tree_ok s -> (2 <= BPlusTree.max_keys (BPlusTree.config s))%nat -> id_room s ->
  exists s', BPlusTree.insert k v s = (Ok tt, s') /\ tree_ok s' /\ BPlusTree.get k s' = (Ok (Some v), s') /\
    forall k', k' <> k -> fst (BPlusTree.get k' s') = fst (BPlusTree.get k' s).
Proof.
  intros Hok Hmax Hroom. destruct (insert_contents s k v Hok Hmax Hroom) as (s' & Hrun & Hok' & Hc & _).
  exists s'. split_and!; auto; [by rewrite get_contents, Hc, lookup_insert_eq|].
  intros k' Hne. rewrite !get_contents by done. simpl. by rewrite Hc, lookup_insert_ne.
Qed.

(** [delete] is total and local: on a well-formed tree it returns [Ok true]
    exactly when the key was present, whatever borrows and merges it
    propagates, keeps the tree well-formed, and afterwards [get] finds nothing
    for its key and what it found before for every other key. *)
Theorem delete_then_get s k : tree_ok s ->
  exists s' found, BPlusTree.delete k s = (Ok found, s') /\
    (found = true <-> exists v, BPlusTree.get k s = (Ok (Some v), s)) /\
    tree_ok s' /\ BPlusTree.get k s' = (Ok None, s') /\
    forall k', k' <> k -> fst (BPlusTree.get k' s') = fst (BPlusTree.get k' s).
Proof.
  intros Hok. destruct (delete_contents s k Hok) as (s' & Hrun & Hok' & Hc & _).
  exists s', (bool_decide (is_Some (contents s !! k))). split_and!; auto.
  - rewrite bool_decide_eq_true, get_contents by done. unfold is_Some.
    split; intros [v Hv]; exists v; congruence.
  - by rewrite get_contents, Hc, lookup_delete_eq.
  - intros k' Hne. rewrite !get_contents by done. simpl. by rewrite Hc, lookup_delete_ne.
Qed.


(** A tree of order 4 after nine inserts. *)
Definition nine : BPlusTree.t :=
  foldl (fun s k => snd (BPlusTree.insert [k] [k] s)) (BPlusTree.new (BPlusTree.Config 4 2)) [1; 9; 2; 8; 3; 7; 4; 6; 5].

(** A reverse scan of a tree of nine keys returns four of them: a leaf
    split never updates the [prev] pointer of the leaf that follows, so the
    reverse iterator jumps over the leaves that splits inserted later, while
    [get] finds all nine keys and the forward scan lists them. *)
Theorem reverse_scan_skips_leaves :
  (forall k, In k [1; 2; 3; 4; 5; 6; 7; 8; 9] -> fst (BPlusTree.get [k] nine) = Ok (Some [k])) /\
  (exists it, BPlusTreeIterator.new nine BPlusTreeIterator.Unbounded BPlusTreeIterator.Unbounded false None = Ok it /\
     BPlusTreeIterator.drain 20 nine it = Ok (map (fun k => ([k], [k])) [1; 2; 3; 4; 5; 6; 7; 8; 9])) /\
  (exists it, BPlusTreeIterator.new nine BPlusTreeIterator.Unbounded BPlusTreeIterator.Unbounded true None = Ok it /\
     BPlusTreeIterator.drain 20 nine it = Ok (map (fun k => ([k], [k])) [9; 8; 2; 1])).
Proof.
  split_and!.
  - intros k Hk. repeat (destruct Hk as [<-|Hk]; [by vm_compute|]). done.
  - eexists. split; [by vm_compute|]. by vm_compute.
  - eexists. split; [by vm_compute|]. by vm_compute.
Qed.

(** ** Witnesses *)

Definition small : BPlusTree.t := BPlusTree.new (BPlusTree.Config 2 1).

Lemma btree_refines_map_witness :
  BPlusTree.get [7] (snd (BPlusTree.insert [7] [1] small)) = (Ok (Some [1]), snd (BPlusTree.insert [7] [1] small)).
Proof.
  destruct (btree_refines_map (BPlusTree.Config 2 1) (snd (BPlusTree.insert [7] [1] small)) (<[[7] := [1]]> ∅)) as (_ & _ & Hget).
  - simpl. lia.
  - apply (reaches_insert (BPlusTree.Config 2 1) small ∅ [7] [1] (fst (BPlusTree.insert [7] [1] small))).
    + apply reaches_new.
    + by vm_compute.
    + by vm_compute.
  - rewrite Hget. by vm_compute.
Defined.

Lemma insert_then_get_witness : exists s', BPlusTree.insert [7] [1] small = (Ok tt, s') /\ BPlusTree.get [7] s' = (Ok (Some [1]), s').
Proof.
  destruct (insert_then_get small [7] [1]) as (s' & H1 & _ & H2 & _).
  - apply new_tree_ok.
  - simpl. lia.
  - by vm_compute.
  - exists s'. auto.
Defined.

Lemma delete_then_get_witness : exists s' found, BPlusTree.delete [7] small = (Ok found, s') /\ BPlusTree.get [7] s' = (Ok None, s').
Proof.
  destruct (delete_then_get small [7]) as (s' & found & H1 & _ & _ & H2 & _); [apply new_tree_ok|]. eauto.
Defined.

