(* ===== verification/VfsFile.v ===== *)
(** * Files

    [File] is the part of the trait of nanograph-vfs/src/filesystem.rs that the
    log and table formats use, [FileLaws] what they rely on, and [MemoryFile]
    the implementation of nanograph-vfs/src/memoryfs.rs, which satisfies it.
    Clients are proved against [FileLaws]. *)

From Stdlib Require Import ZArith Lia.
From stdpp Require Import option strings base list.
From S2P Require Import Prelude.

Open Scope Z_scope.

Inductive FileSystemError : Type :=
| InvalidPath (p : string)
| PathExists
| PathMissing
| ParentMissing
| FileAlreadyLocked
| PermissionDenied
| AlreadyLocked
| InvalidOperation
| UnsupportedOperation
| InternalError (m : string)
| IOError
| FsWrappedError.

Abbreviation fs_result := (result FileSystemError).

(** A method of [&mut self] returns the file it leaves behind with its result.
    [read_at_offset f pos n] fills a buffer of [n] bytes and returns the bytes
    it filled in; the rest of the buffer is not touched. *)
Class File (F : Type) : Type := {
  get_size : F -> fs_result Z;
  set_size : F -> Z -> fs_result unit * F;
  sync_all : F -> fs_result unit * F;
  sync_data : F -> fs_result unit * F;
  read_at_offset : F -> Z -> nat -> fs_result (list Z);
  write_to_offset : F -> Z -> list Z -> fs_result Z * F
}.

(** A write past the end fills the hole with zeros. *)
Definition overwrite (off : nat) (buf data : list Z) : list Z :=
  let data := data ++ replicate (off + length buf - length data) 0 in
  take off data ++ buf ++ drop (off + length buf) data.

(** A file that does not fail: its bytes determine every read, writes and
    resizes change them as documented, syncs do not. *)
Class FileLaws (F : Type) `{!File F} : Type := {
  bytes_of : F -> list Z;
  get_size_law f : get_size f = Ok (Z.of_nat (length (bytes_of f)));
  read_law f pos n : 0 <= pos <= Z.of_nat (length (bytes_of f)) ->
    read_at_offset f pos n = Ok (take n (drop (Z.to_nat pos) (bytes_of f)));
  write_law f pos buf : 0 <= pos -> exists f',
    write_to_offset f pos buf = (Ok (Z.of_nat (length buf)), f') /\
    bytes_of f' = overwrite (Z.to_nat pos) buf (bytes_of f);
  sync_all_law f : exists f', sync_all f = (Ok tt, f') /\ bytes_of f' = bytes_of f;
  sync_data_law f : exists f', sync_data f = (Ok tt, f') /\ bytes_of f' = bytes_of f
}.

Lemma overwrite_end buf data off : off = length data -> overwrite off buf data = data ++ buf.
Proof.
  intros ->. unfold overwrite. rewrite take_app_length, drop_ge; [by rewrite app_nil_r|].
  rewrite length_app, length_replicate. lia.
Qed.

Lemma overwrite_nil buf : overwrite 0 buf [] = buf.
Proof. by apply (overwrite_end buf []). Qed.

Lemma length_overwrite off buf data : length (overwrite off buf data) = max (length data) (off + length buf).
Proof. unfold overwrite. rewrite !length_app, length_take, length_drop, length_app, length_replicate. lia. Qed.

Module MemoryFile.

Inductive FileLockMode : Type := Unlocked | Shared | Exclusive.

(** The handle and the shared [MemoryFileData] it points to. *)
Record t : Type := mk { cursor : Z; name : string; buffer : list Z; lock : FileLockMode }.

Definition with_buffer (f : t) (b : list Z) : t := mk (cursor f) (name f) b (lock f).
Definition with_cursor (f : t) (c : Z) : t := mk c (name f) (buffer f) (lock f).

Definition resize (n : nat) (b : list Z) : list Z := take n b ++ replicate (n - length b) 0.

Definition size (f : t) : Z := Z.of_nat (length (buffer f)).

(** [Read::read]: the subtraction [buffer.len() - cursor] underflows past the end. *)
Definition read (f : t) (n : nat) : result FileSystemError (list Z) * t :=
  if size f <? cursor f then (Panic, f)
  else
    let data := take n (drop (Z.to_nat (cursor f)) (buffer f)) in
    (Ok data, with_cursor f (cursor f + Z.of_nat (length data))).

(** [write_to_offset]: grow with zeros when needed, then copy. *)
Definition store (f : t) (off : nat) (buf : list Z) : t :=
  let e := (off + length buf)%nat in
  let b := if (length (buffer f) <? e)%nat then resize e (buffer f) else buffer f in
  with_buffer f (take off b ++ buf ++ drop e b).

Definition write (f : t) (buf : list Z) : fs_result Z * t :=
  let f' := store f (Z.to_nat (cursor f)) buf in
  (Ok (Z.of_nat (length buf)), with_cursor f' (cursor f + Z.of_nat (length buf))).

Inductive SeekFrom : Type := Start (o : Z) | End_ (o : Z) | Current (o : Z).

(** [as usize] wraps a negative position. *)
Definition seek (f : t) (pos : SeekFrom) : fs_result Z * t :=
  let c :=
    match pos with
    | Start o => o
    | End_ o => u64 (size f + o)
    | Current o => u64 (cursor f + o)
    end in
  (Ok c, with_cursor f c).

Definition get_size (f : t) : fs_result Z := Ok (size f).
Definition set_size (f : t) (n : Z) : fs_result unit * t := (Ok tt, with_buffer f (resize (Z.to_nat n) (buffer f))).
Definition sync_all (f : t) : fs_result unit * t := (Ok tt, f).
Definition sync_data (f : t) : fs_result unit * t := (Ok tt, f).
Definition get_lock_status (f : t) : fs_result FileLockMode := Ok (lock f).
Definition set_lock_status (f : t) (m : FileLockMode) : fs_result unit * t :=
  (Ok tt, mk (cursor f) (name f) (buffer f) m).

(** [end - off] underflows, and the slice panics, when [pos] is past the end. *)
Definition read_at_offset (f : t) (pos : Z) (n : nat) : fs_result (list Z) :=
  if size f <? pos then Panic
  else Ok (take n (drop (Z.to_nat pos) (buffer f))).

Definition write_to_offset (f : t) (pos : Z) (buf : list Z) : fs_result Z * t :=
  (Ok (Z.of_nat (length buf)), store f (Z.to_nat pos) buf).

#[global] Instance memory_file : File t := {|
  VfsFile.get_size := get_size;
  VfsFile.set_size := set_size;
  VfsFile.sync_all := sync_all;
  VfsFile.sync_data := sync_data;
  VfsFile.read_at_offset := read_at_offset;
  VfsFile.write_to_offset := write_to_offset
|}.

Lemma store_overwrite f off buf : buffer (store f off buf) = overwrite off buf (buffer f).
Proof.
  unfold store, overwrite, resize. simpl. destruct (Nat.ltb_spec (length (buffer f)) (off + length buf)).
  - by rewrite (take_ge (buffer f)) by lia.
  - replace (off + length buf - length (buffer f))%nat with 0%nat by lia. by rewrite app_nil_r.
Qed.

#[global] Instance memory_file_laws : FileLaws t.
Proof.
  refine (Build_FileLaws t _ buffer _ _ _ _ _).
  - done.
  - intros f pos n Hpos. simpl. unfold read_at_offset, size. destruct (Z.ltb_spec (Z.of_nat (length (buffer f))) pos); [lia|done].
  - intros f pos buf Hpos. eexists. split; [done|]. apply store_overwrite.
  - intros f. by exists f.
  - intros f. by exists f.
Defined.

Definition new (n : string) : t := mk 0 n [] Unlocked.

End MemoryFile.
