(* ===== verification/VfsPath.v ===== *)
(** * Paths of the virtual file system

    Models [Path] of nanograph-vfs/src/filesystem.rs (parsing, printing,
    manipulation) and the mapping of virtual paths to directories of the
    operating system in nanograph-vfs/src/localfs.rs.  Strings are byte
    strings; ['/'] and [':'] are single bytes of UTF-8, so splitting bytes is
    splitting characters. *)

From Stdlib Require Import ZArith Lia Ascii String.
From stdpp Require Import option strings base list.
From S2P Require Import Prelude.

Open Scope Z_scope.

(** ** Strings *)

Definition slash : ascii := "/"%char.

(** [split('/')]: the pieces between slashes, one more than there are slashes. *)
Fixpoint split_slash (s : string) : list string :=
  match s with
  | EmptyString => [EmptyString]
  | String c s' =>
      if decide (c = slash) then EmptyString :: split_slash s'
      else match split_slash s' with x :: xs => String c x :: xs | [] => [String c EmptyString] end
  end.

(** [join("/")]. *)
Fixpoint join_slash (l : list string) : string :=
  match l with
  | [] => EmptyString
  | [x] => x
  | x :: l' => x +:+ "/" +:+ join_slash l'
  end.

Definition starts_with_slash (s : string) : bool := match s with String c _ => bool_decide (c = slash) | EmptyString => false end.

(** What follows "://" at the start of a string. *)
Definition strip_scheme_sep (s : string) : option string :=
  match s with
  | String c1 (String c2 (String c3 rest)) => if decide (c1 = ":"%char /\ c2 = slash /\ c3 = slash) then Some rest else None
  | _ => None
  end.

(** [find("://")] with the parts before and after. *)
Fixpoint find_scheme (s : string) : option (string * string) :=
  match strip_scheme_sep s with
  | Some rest => Some (EmptyString, rest)
  | None =>
      match s with
      | EmptyString => None
      | String c s' => (fun ab => (String c ab.1, ab.2)) <$> find_scheme s'
      end
  end.

(** ** Paths *)

Module Path.

Record t : Type := mk { scheme : option string; absolute : bool; ups : nat; segments : list string }.

#[global] Instance t_eq_dec : EqDecision t.
Proof. solve_decision. Defined.

Definition default : t := mk None false 0 [].
Definition new : t := default.
Definition root : t := mk None true 0 [].

Definition set_segments (p : t) (l : list string) : t := mk (scheme p) (absolute p) (ups p) l.
Definition set_ups (p : t) (n : nat) : t := mk (scheme p) (absolute p) n (segments p).

Definition push (p : t) (segment : string) : t :=
  if decide (segment = "" \/ segment = ".") then p
  else if decide (segment = "..") then
    match segments p with
    | _ :: _ => set_segments p (removelast (segments p))
    | [] => if absolute p then p else set_ups p (S (ups p))
    end
  else set_segments p (segments p ++ [segment]).

Definition parse (input : string) : t :=
  let '(scheme, rest) := match find_scheme input with Some (a, b) => (Some a, b) | None => (None, input) end in
  foldl push (mk scheme (starts_with_slash rest) 0 []) (split_slash rest).

(** The path and whether anything was removed. *)
Definition pop (p : t) : t * bool :=
  match segments p with
  | _ :: _ => (set_segments p (removelast (segments p)), true)
  | [] => if (0 <? ups p)%nat then (set_ups p (ups p - 1), true) else (p, false)
  end.

(** [None] is the panic on different schemes. *)
Definition join (p other : t) : option t :=
  if bool_decide (is_Some (scheme other)) && bool_decide (scheme other <> scheme p) then None
  else if absolute other then Some other
  else Some (foldl push (foldl push p (replicate (ups other) "..")) (segments other)).

Definition resolve (p : t) : t :=
  let start := if absolute p then root else new in
  foldl push (foldl push (mk (scheme p) (absolute start) (ups start) (segments start)) (replicate (ups p) "..")) (segments p).

Definition parent (p : t) : t :=
  match segments p with
  | _ :: _ => set_segments p (removelast (segments p))
  | [] => if absolute p then p else set_ups p (S (ups p))
  end.

(** The loop over [0..ups], with a separator unless it is the last thing printed. *)
Fixpoint print_ups (n : nat) (more : bool) : string :=
  match n with
  | O => ""
  | S n' => ".." +:+ (if (0 <? n')%nat || more then "/" else "") +:+ print_ups n' more
  end.

Definition to_string (p : t) : string :=
  match scheme p with Some s => s +:+ "://" | None => "" end +:+
  (if absolute p then "/" else "") +:+
  print_ups (ups p) (match segments p with [] => false | _ => true end) +:+
  join_slash (segments p).

End Path.

(** [LocalFilesystem::resolve]: the root directory followed by the segments, as
    components; [PathBuf::push] appends a component without a separator. *)
Module LocalFilesystem.
Definition resolve (root : list string) (path : string) : list string := foldl (fun full s => full ++ [s]) root (Path.segments (Path.parse path)).
End LocalFilesystem.

(** ** Well-formed paths *)

Fixpoint no_slash (s : string) : Prop := match s with EmptyString => True | String c s' => c <> slash /\ no_slash s' end.

#[global] Instance no_slash_dec s : Decision (no_slash s).
Proof. induction s; cbn; apply _. Defined.

(** A segment a path may hold. *)
Definition segment_ok (s : string) : Prop := s <> "" /\ s <> "." /\ s <> ".." /\ no_slash s.

#[global] Instance segment_ok_dec s : Decision (segment_ok s).
Proof. unfold segment_ok. apply _. Defined.

Definition path_ok (p : Path.t) : Prop :=
  Forall segment_ok (Path.segments p) /\ (Path.absolute p = true -> Path.ups p = 0%nat) /\
  match Path.scheme p with Some s => find_scheme s = None | None => True end.

(** ** Splitting and joining *)

Lemma string_app_assoc (a b c : string) : a +:+ b +:+ c = (a +:+ b) +:+ c.
Proof. induction a as [|x a IH]; [done|]. change (String x (a +:+ b +:+ c) = String x ((a +:+ b) +:+ c)). by rewrite IH. Qed.
Lemma string_app_nil (a : string) : a +:+ "" = a.
Proof. induction a as [|x a IH]; [done|]. change (String x (a +:+ "") = String x a). by rewrite IH. Qed.

Lemma split_nonempty s : split_slash s <> [].
Proof. destruct s as [|c s]; [done|]. cbn. case_decide; [done|]. by destruct (split_slash s). Qed.

Lemma split_no_slash s : Forall no_slash (split_slash s).
Proof.
  induction s as [|c s IH]; [by constructor|]. cbn. case_decide as Hc; [by constructor|].
  destruct (split_slash s); [repeat constructor; done|]. apply Forall_cons in IH as [Hx Hl]. by constructor.
Qed.

Lemma split_word s : no_slash s -> split_slash s = [s].
Proof. induction s as [|c s IH]; [done|]. intros [Hc Hs]. cbn. rewrite decide_False by done. by rewrite IH. Qed.

Lemma split_cons x s : no_slash x -> split_slash (x +:+ "/" +:+ s) = x :: split_slash s.
Proof.
  induction x as [|c x IH]; [done|]. intros [Hc Hx]. change (String c x +:+ "/" +:+ s) with (String c (x +:+ "/" +:+ s)).
  cbn [split_slash]. rewrite decide_False by done. by rewrite IH.
Qed.

Lemma split_join l : Forall no_slash l -> l <> [] -> split_slash (join_slash l) = l.
Proof.
  induction 1 as [|x l Hx Hl IH]; [done|]. intros _. destruct l as [|y l]; [by apply split_word|].
  change (join_slash (x :: y :: l)) with (x +:+ "/" +:+ join_slash (y :: l)). rewrite split_cons by done. by rewrite IH.
Qed.

(** *** The scheme separator *)

Lemma strip_scheme_app s t r : strip_scheme_sep s = Some r -> strip_scheme_sep (s +:+ t) = Some (r +:+ t).
Proof.
  destruct s as [|a [|b [|c s]]]; try done. change (String a (String b (String c s)) +:+ t) with (String a (String b (String c (s +:+ t)))).
  unfold strip_scheme_sep. case_decide; [|done]. by intros [= ->].
Qed.

Lemma find_scheme_Some s a b : find_scheme s = Some (a, b) -> find_scheme a = None /\ s = a +:+ "://" +:+ b.
Proof.
  revert a. induction s as [|c s IH]; intros a; cbn [find_scheme]; [done|].
  destruct (strip_scheme_sep (String c s)) as [r|] eqn:E.
  - intros [= <- <-]. split; [done|]. destruct s as [|c2 [|c3 s]]; try done. cbn in E. case_decide as H; [|done]. destruct H as (-> & -> & ->). by injection E as ->.
  - destruct (find_scheme s) as [[a' b']|]; [|done]. intros [= <- <-]. destruct (IH a' eq_refl) as [Hn ->]. split; [|done].
    cbn [find_scheme]. rewrite Hn. destruct (strip_scheme_sep (String c a')) as [r|] eqn:E2; [|done].
    apply (strip_scheme_app _ ("://" +:+ b')) in E2. change (String c a' +:+ "://" +:+ b') with (String c (a' +:+ "://" +:+ b')) in E2. congruence.
Qed.

Lemma find_scheme_app a b : find_scheme a = None -> find_scheme (a +:+ "://" +:+ b) = Some (a, b).
Proof.
  induction a as [|c a IH]; [done|]. cbn [find_scheme]. destruct (strip_scheme_sep (String c a)) eqn:E; [done|].
  destruct (find_scheme a) eqn:Ea; [done|]. intros _. change (String c a +:+ "://" +:+ b) with (String c (a +:+ "://" +:+ b)). cbn [find_scheme].
  assert (strip_scheme_sep (String c (a +:+ "://" +:+ b)) = None) as ->; [|by rewrite IH].
  destruct a as [|c2 [|c3 a]].
  - change (strip_scheme_sep (String c (String ":" (String slash (String slash b)))) = None). unfold strip_scheme_sep.
    rewrite decide_False; [done|]. by intros (_ & ? & _).
  - change (strip_scheme_sep (String c (String c2 (String ":" (String slash (String slash b))))) = None). unfold strip_scheme_sep.
    rewrite decide_False; [done|]. by intros (_ & _ & ?).
  - change (strip_scheme_sep (String c (String c2 (String c3 (a +:+ "://" +:+ b)))) = None). unfold strip_scheme_sep in *. by case_decide.
Qed.

(** *** Printed segments *)

(** No two slashes in a row; [b] tells whether one came just before. *)
Fixpoint single_slashes (b : bool) (s : string) : Prop :=
  match s with
  | EmptyString => True
  | String c s' => if decide (c = slash) then b = false /\ single_slashes true s' else single_slashes false s'
  end.

Lemma single_find b s : single_slashes b s -> find_scheme s = None.
Proof.
  revert b. induction s as [|c s IH]; intros b Hs; [done|]. cbn [find_scheme].
  assert (strip_scheme_sep (String c s) = None) as ->.
  { destruct s as [|c2 [|c3 s]]; try done. unfold strip_scheme_sep. rewrite decide_False; [done|]. intros (-> & -> & ->).
    cbn [single_slashes] in Hs. rewrite decide_False, decide_True, decide_True in Hs by done. by destruct Hs as (_ & ? & _). }
  cbn [single_slashes] in Hs. case_decide; [destruct Hs as [_ Hs]|]; by rewrite (IH _ Hs).
Qed.

Lemma single_word x b s : no_slash x -> x <> "" -> single_slashes false s -> single_slashes b (x +:+ s).
Proof.
  intros Hx Hne Hs. revert b. induction x as [|c x IH]; [done|]. intros b. destruct Hx as [Hc Hx].
  change (String c x +:+ s) with (String c (x +:+ s)). cbn [single_slashes]. rewrite decide_False by done.
  destruct x as [|d x]; [done|]. by apply IH.
Qed.

(** A piece of a printed path: [".."] or a segment. *)
Definition piece_ok (s : string) : Prop := s <> "" /\ no_slash s.

Lemma single_join b l : Forall piece_ok l -> single_slashes b (join_slash l).
Proof.
  intros Hl. revert b. induction Hl as [|x l [Hne Hx] Hl IH]; intros b; [done|]. destruct l as [|y l].
  - cbn [join_slash]. rewrite <- (string_app_nil x). by apply single_word.
  - change (join_slash (x :: y :: l)) with (x +:+ "/" +:+ join_slash (y :: l)). apply single_word; [done..|].
    change (single_slashes false (String slash (join_slash (y :: l)))). cbn [single_slashes]. rewrite decide_True by done. split; [done|apply IH].
Qed.

Lemma join_not_slash l : Forall piece_ok l -> starts_with_slash (join_slash l) = false.
Proof.
  intros [|x l' [Hne Hx] _]; [done|]. destruct x as [|c x]; [done|]. destruct Hx as [Hc _].
  destruct l'; cbn; by apply bool_decide_eq_false_2.
Qed.

Lemma segment_piece s : segment_ok s -> piece_ok s.
Proof. intros (? & _ & _ & ?). done. Qed.

Lemma pieces_ok n l : Forall segment_ok l -> Forall piece_ok (replicate n ".." ++ l).
Proof.
  intros Hl. apply Forall_app. split; [|eapply Forall_impl; [exact Hl|apply segment_piece]]. apply Forall_replicate. split; [done|]. by vm_compute.
Qed.

Lemma print_pieces n l :
  Path.print_ups n (match l with [] => false | _ => true end) +:+ join_slash l = join_slash (replicate n ".." ++ l).
Proof.
  induction n as [|n IH]; [done|]. cbn [Path.print_ups replicate app]. rewrite <- !string_app_assoc, IH.
  destruct n as [|n]; [destruct l as [|x l]; [done|]; cbn [replicate app Nat.ltb Nat.leb orb]|]; by cbn [replicate app].
Qed.

(** ** Parsing what was printed *)

Lemma push_ignored l p : l = [] -> foldl Path.push p (split_slash (join_slash l)) = foldl Path.push p l.
Proof. by intros ->. Qed.

Lemma push_split l p : Forall piece_ok l -> foldl Path.push p (split_slash (join_slash l)) = foldl Path.push p l.
Proof.
  intros Hl. destruct l as [|x l]; [by apply push_ignored|]. rewrite split_join; [done| |done]. eapply Forall_impl; [exact Hl|]. by intros s [_ ?].
Qed.

Lemma push_segment p s : segment_ok s -> Path.push p s = Path.set_segments p (Path.segments p ++ [s]).
Proof. intros (Hn & Hd & Hdd & _). unfold Path.push. by rewrite !decide_False by tauto. Qed.

Lemma push_segments l p : Forall segment_ok l -> foldl Path.push p l = Path.set_segments p (Path.segments p ++ l).
Proof.
  intros Hl. revert p. induction Hl as [|s l Hs Hl IH]; intros p; cbn [foldl].
  - rewrite app_nil_r. by destruct p.
  - rewrite IH, push_segment by done. cbn. by rewrite <- app_assoc.
Qed.

Lemma push_ups n sch k : foldl Path.push (Path.mk sch false k []) (replicate n "..") = Path.mk sch false (k + n) [].
Proof.
  revert k. induction n as [|n IH]; intros k; cbn [replicate foldl]; [by rewrite Nat.add_0_r|].
  change (Path.push (Path.mk sch false k []) "..") with (Path.mk sch false (S k) []). rewrite IH. f_equal. lia.
Qed.

Lemma parse_body p rest : path_ok p -> rest = join_slash (replicate (Path.ups p) ".." ++ Path.segments p) ->
  foldl Path.push (Path.mk (Path.scheme p) (Path.absolute p) 0 []) (split_slash rest) = p.
Proof.
  intros (Hs & Hu & _) ->. rewrite push_split by (by apply pieces_ok). rewrite foldl_app. destruct p as [sch [] n l]; cbn in *.
  - rewrite Hu by done. cbn. by rewrite push_segments.
  - rewrite push_ups, push_segments by done. done.
Qed.

Lemma parse_to_string p : path_ok p -> Path.parse (Path.to_string p) = p.
Proof.
  intros Hp. pose proof Hp as (Hs & Hu & Hsch). unfold Path.to_string. rewrite print_pieces.
  set (body := join_slash (replicate (Path.ups p) ".." ++ Path.segments p)).
  assert (Hbody : foldl Path.push (Path.mk (Path.scheme p) (Path.absolute p) 0 []) (split_slash body) = p) by (by apply parse_body).
  assert (Hpieces : Forall piece_ok (replicate (Path.ups p) ".." ++ Path.segments p)) by (by apply pieces_ok).
  (* the part after the scheme *)
  assert (Hrest : let rest := (if Path.absolute p then "/" else "") +:+ body in
     find_scheme rest = None /\ foldl Path.push (Path.mk (Path.scheme p) (starts_with_slash rest) 0 []) (split_slash rest) = p).
  { destruct (Path.absolute p) eqn:Ea; cbn zeta.
    - change ("/" +:+ body) with (String slash body). cbn [starts_with_slash split_slash]. rewrite bool_decide_eq_true_2, decide_True by done. split; [|exact Hbody].
      apply (single_find false). cbn [single_slashes]. rewrite decide_True by done. split; [done|]. by apply single_join.
    - change ("" +:+ body) with body. replace (starts_with_slash body) with false by (symmetry; by apply join_not_slash). split; [|exact Hbody]. by apply (single_find false), single_join. }
  destruct Hrest as [Hfind Hrest]. unfold Path.parse. destruct (Path.scheme p) as [sch|] eqn:Esch.
  - rewrite <- !string_app_assoc, find_scheme_app by done. exact Hrest.
  - change ("" +:+ ?x) with x. by rewrite Hfind.
Qed.

Lemma removelast_elem {A} (y : A) l : y ∈ removelast l -> y ∈ l.
Proof.
  induction l as [|x l IH]; [done|]. destruct l as [|z l]; [by intros ?%not_elem_of_nil|].
  change (removelast (x :: z :: l)) with (x :: removelast (z :: l)). rewrite !(elem_of_cons _ _ x). intros [->|H]; [by left|right; by apply IH].
Qed.

Lemma push_ok p s : path_ok p -> no_slash s -> path_ok (Path.push p s).
Proof.
  intros (Hs & Hu & Hsch) Hn. unfold Path.push. case_decide as E1; [done|]. case_decide as E2.
  - destruct (Path.segments p) as [|x l] eqn:El.
    + destruct (Path.absolute p) eqn:Ea; split_and!; cbn; rewrite ?El, ?Ea; done.
    + split_and!; cbn [Path.segments Path.absolute Path.ups Path.scheme Path.set_segments]; try done. apply Forall_forall. intros y Hy. rewrite Forall_forall in Hs. by apply Hs, removelast_elem.
  - split_and!; cbn; try done. apply Forall_app. split; [done|]. repeat constructor; tauto.
Qed.

Lemma pushes_ok l p : path_ok p -> Forall no_slash l -> path_ok (foldl Path.push p l).
Proof. intros Hp Hl. revert p Hp. induction Hl as [|s l Hs Hl IH]; intros p Hp; [done|]. by apply IH, push_ok. Qed.

Lemma parse_ok s : path_ok (Path.parse s).
Proof.
  unfold Path.parse. destruct (find_scheme s) as [[a b]|] eqn:E; apply pushes_ok; try apply split_no_slash; split_and!; cbn; try done.
  by apply find_scheme_Some in E as [? _].
Qed.

(** C29. Parsing normalises: whatever the input, the parsed path has no empty,
    ["."] or [".."] segment and none with a slash, an absolute path has no
    leading [".."], and printing the path and parsing it again gives the same
    path.  In particular two inputs that print alike parsed alike. *)
Theorem path_normal_form s : path_ok (Path.parse s) /\ Path.parse (Path.to_string (Path.parse s)) = Path.parse s.
Proof. split; [apply parse_ok|apply parse_to_string, parse_ok]. Qed.

(** *** Joining *)

Lemma replicate_no_slash n : Forall no_slash (replicate n "..").
Proof. apply Forall_replicate. by vm_compute. Qed.

Lemma push_up_shape p : path_ok p -> exists k,
  Path.push p ".." = Path.mk (Path.scheme p) (Path.absolute p) (k + Path.ups p) (removelast (Path.segments p)).
Proof.
  intros (_ & Hu & _). destruct p as [sch a n [|x l]]; [|by exists 0%nat]. destruct a; [by exists 0%nat|by exists 1%nat].
Qed.

Lemma pushes_up n p : path_ok p -> exists k,
  foldl Path.push p (replicate n "..") =
  Path.mk (Path.scheme p) (Path.absolute p) (k + Path.ups p) (take (length (Path.segments p) - n) (Path.segments p)).
Proof.
  revert p. induction n as [|n IH]; intros p Hp; cbn [replicate foldl].
  - exists 0%nat. rewrite Nat.sub_0_r, firstn_all. by destruct p.
  - destruct (push_up_shape p Hp) as [k Hk]. destruct (IH (Path.push p "..")) as [k' ->]; [apply push_ok; [done|by vm_compute]|].
    rewrite Hk. cbn. exists (k' + k)%nat. f_equal; [lia|]. rewrite removelast_firstn_len, length_take, take_take. f_equal. lia.
Qed.

(** Joining a path with a relative one drops from its end as many segments
    as the relative path has leading [".."] and appends the segments of the
    relative path; an absolute argument replaces the path; the result is
    normalised, and the only failure is a different scheme. *)
Theorem path_join_segments p s : path_ok p ->
  match Path.join p (Path.parse s) with
  | None => exists a, Path.scheme (Path.parse s) = Some a /\ Path.scheme p <> Some a
  | Some q =>
      path_ok q /\
      if Path.absolute (Path.parse s) then q = Path.parse s
      else Path.scheme q = Path.scheme p /\ Path.absolute q = Path.absolute p /\
        Path.segments q = take (length (Path.segments p) - Path.ups (Path.parse s)) (Path.segments p) ++ Path.segments (Path.parse s)
  end.
Proof.
  intros Hp. unfold Path.join. destruct (parse_ok s) as (Hs & Hu & Hsch). destruct (Path.scheme (Path.parse s)) as [a|] eqn:Esch.
  1: case_bool_decide as E; [|destruct E; by eexists]; cbn [andb]; case_bool_decide as E2; [exists a; split; [done|congruence]|].
  2: cbn [andb]; rewrite bool_decide_eq_false_2 by (by intros [? [=]]); cbn [andb].
  all: destruct (Path.absolute (Path.parse s)) eqn:Ea; [split; [apply parse_ok|done]|].
  all: split; [apply pushes_ok; [by apply pushes_ok, replicate_no_slash|]; eapply Forall_impl; [exact Hs|]; intros x Hx; apply Hx|].
  all: rewrite push_segments by done; destruct (pushes_up (Path.ups (Path.parse s)) p Hp) as [k ->]; done.
Qed.

(** Paths cannot leave the root of a local file system: whatever path is
    given, the directory it resolves to is the root followed by plain names,
    none of them empty, ["."], [".."] or with a separator. *)
Theorem local_resolve_confined root s : exists names, LocalFilesystem.resolve root s = root ++ names /\ Forall segment_ok names.
Proof.
  exists (Path.segments (Path.parse s)). split; [|apply parse_ok]. unfold LocalFilesystem.resolve. generalize (Path.segments (Path.parse s)). intros l.
  revert root. induction l as [|x l IH]; intros root; cbn [foldl]; [by rewrite app_nil_r|]. rewrite IH. by rewrite <- app_assoc.
Qed.

Lemma path_join_segments_witness :
  exists q, Path.join (Path.parse "mem:///a//b/./c/") (Path.parse "../../x/y") = Some q /\ Path.segments q = ["a"; "x"; "y"] /\ Path.to_string q = "mem:///a/x/y".
Proof.
  pose proof (path_join_segments (Path.parse "mem:///a//b/./c/") "../../x/y" (parse_ok _)) as H.
  destruct (Path.join _ _) as [q|] eqn:E; [|vm_compute in E; discriminate E]. exists q. split; [reflexivity|]. split; [exact (proj2 (proj2 (proj2 H)))|].
  revert E. vm_compute. intros [= <-]. reflexivity.
Defined.
