(* ===== verification/VfsMemory.v ===== *)
(** * The in-memory file system

    Models [MemoryFileSystem] of nanograph-vfs/src/memoryfs.rs.  The tree is a
    map from path strings to entries, as in the code; the data of a file is
    shared between its entry and the handles opened on it, so entries and
    handles hold a number that refers to a table of file data.  A directory's
    names are a set, listed in byte order. *)

From Stdlib Require Import ZArith Lia Ascii String.
From stdpp Require Import sorting gmap option strings base list.
From S2P Require Import Prelude VfsFile VfsPath.

Open Scope Z_scope.

Module MemoryFileSystem.

Inductive MemoryEntry : Type :=
| Directory (names : gset string)
| FileAt (data : Z).

Record MemoryFileData : Type := Data { buffer : list Z; lock : MemoryFile.FileLockMode }.

Record t : Type := mk { tree : gmap string MemoryEntry; files : gmap Z MemoryFileData; next_file : Z }.

(** A handle: its own cursor, and the data it shares. *)
Record handle : Type := Handle { cursor : Z; name : string; data : Z }.

Definition with_tree (fs : t) (tr : gmap string MemoryEntry) : t := mk tr (files fs) (next_file fs).

Definition new : t := mk {[ "/" := Directory ∅ ]} ∅ 0.

Definition exists_ (fs : t) (path : string) : fs_result bool := Ok (bool_decide (is_Some (tree fs !! path))).

Definition is_file (fs : t) (path : string) : fs_result bool :=
  Ok (match tree fs !! path with Some (FileAt _) => true | _ => false end).

Definition is_directory (fs : t) (path : string) : fs_result bool :=
  Ok (match tree fs !! path with Some (Directory _) => true | _ => false end).

Definition filesize (fs : t) (path : string) : fs_result Z :=
  match tree fs !! path with
  | Some (FileAt i) => let! d := or_panic (files fs !! i) in Ok (Z.of_nat (length (buffer d)))
  | Some (Directory _) => Err InvalidOperation
  | None => Err PathMissing
  end.

(** [segments().last().unwrap()]. *)
Definition last_segment (p : Path.t) : string := List.last (Path.segments p) "".

(** Enter a name in the parent directory, which must exist. *)
Definition register (tr : gmap string MemoryEntry) (p : Path.t) : fs_result (gmap string MemoryEntry) :=
  match Path.segments p with
  | [] => Ok tr
  | _ :: _ =>
      match tr !! Path.to_string (Path.parent p) with
      | Some (Directory names) => Ok (<[Path.to_string (Path.parent p) := Directory ({[last_segment p]} ∪ names)]> tr)
      | Some (FileAt _) => Err InvalidOperation
      | None => Err PathMissing
      end
  end.

Definition create_directory (fs : t) (path : string) : fs_result unit * t :=
  match tree fs !! path with
  | Some _ => (Err PathExists, fs)
  | None =>
      match register (tree fs) (Path.parse path) with
      | Ok tr => (Ok tt, with_tree fs (<[path := Directory ∅]> tr))
      | Err x => (Err x, fs)
      | Panic => (Panic, fs)
      | Timeout => (Timeout, fs)
      end
  end.

(** The loop towards the root, over the paths that do not exist; each round
    removes a segment. *)
Fixpoint missing (n : nat) (tr : gmap string MemoryEntry) (p : Path.t) : list Path.t :=
  match n with
  | O => []
  | S n' =>
      match Path.segments p, tr !! Path.to_string p with
      | [], _ | _, Some _ => []
      | _ :: _, None => p :: missing n' tr (Path.parent p)
      end
  end.

(** One round of the second loop; a parent that is not a directory is passed over. *)
Definition make_directory (tr : gmap string MemoryEntry) (p : Path.t) : gmap string MemoryEntry :=
  let tr :=
    match Path.segments p, tr !! Path.to_string (Path.parent p) with
    | _ :: _, Some (Directory names) => <[Path.to_string (Path.parent p) := Directory ({[last_segment p]} ∪ names)]> tr
    | _, _ => tr
    end in
  <[Path.to_string p := Directory ∅]> tr.

Definition create_directory_all (fs : t) (path : string) : fs_result unit * t :=
  match tree fs !! path with
  | Some _ => (Ok tt, fs)
  | None =>
      let p := Path.parse path in
      (Ok tt, with_tree fs (foldl make_directory (tree fs) (rev (missing (length (Path.segments p)) (tree fs) p))))
  end.

Definition sorted_names (names : gset string) : list string := merge_sort String.le (elements names).

Definition list_directory (fs : t) (path : string) : fs_result (list string) :=
  match tree fs !! path with
  | Some (Directory names) => Ok (sorted_names names)
  | Some (FileAt _) => Err InvalidOperation
  | None => Err PathMissing
  end.

(** Remove a name from the parent directory, if there is one. *)
Definition unregister (tr : gmap string MemoryEntry) (p : Path.t) : gmap string MemoryEntry :=
  match Path.segments p, tr !! Path.to_string (Path.parent p) with
  | _ :: _, Some (Directory names) => <[Path.to_string (Path.parent p) := Directory (names ∖ {[last_segment p]})]> tr
  | _, _ => tr
  end.

Definition children (tr : gmap string MemoryEntry) (current : string) : list string :=
  match tr !! current with
  | Some (Directory names) => (fun child => Path.to_string (Path.push (Path.parse current) child)) <$> sorted_names names
  | _ => []
  end.

(** [while i < to_remove.len()]: the entries from index [i] on are a queue. *)
Fixpoint collect (fuel : nat) (tr : gmap string MemoryEntry) (queue : list string) : option (list string) :=
  match fuel with
  | O => None
  | S fuel' =>
      match queue with
      | [] => Some []
      | current :: rest => cons current <$> collect fuel' tr (rest ++ children tr current)
      end
  end.

(** More than the number of entries and of names in directories. *)
Definition collect_fuel (tr : gmap string MemoryEntry) : nat :=
  S (S (size tr + sum_list_with (fun b => match b.2 with Directory names => size names | FileAt _ => 0%nat end) (map_to_list tr))).

Definition remove_directory_all (fs : t) (path : string) : fs_result unit * t :=
  match tree fs !! path with
  | None => (Err PathMissing, fs)
  | Some _ =>
      let tr := unregister (tree fs) (Path.parse path) in
      match collect (collect_fuel tr) tr [path] with
      | Some to_remove => (Ok tt, with_tree fs (foldl (fun tr p => delete p tr) tr to_remove))
      | None => (Timeout, with_tree fs tr)
      end
  end.

Definition remove_directory (fs : t) (path : string) : fs_result unit * t := remove_directory_all fs path.

Definition create_file (fs : t) (path : string) : fs_result handle * t :=
  match tree fs !! path with
  | Some _ => (Err PathExists, fs)
  | None =>
      match register (tree fs) (Path.parse path) with
      | Ok tr =>
          let i := next_file fs in
          (Ok (Handle 0 path i), mk (<[path := FileAt i]> tr) (<[i := Data [] MemoryFile.Unlocked]> (files fs)) (i + 1))
      | Err x => (Err x, fs)
      | Panic => (Panic, fs)
      | Timeout => (Timeout, fs)
      end
  end.

Definition open_file (fs : t) (path : string) : fs_result handle :=
  match tree fs !! path with
  | Some (FileAt i) => Ok (Handle 0 path i)
  | Some (Directory _) => Err InvalidOperation
  | None => Err PathMissing
  end.

Definition remove_file (fs : t) (path : string) : fs_result unit * t :=
  match tree fs !! path with
  | None => (Err PathMissing, fs)
  | Some _ => (Ok tt, with_tree fs (delete path (unregister (tree fs) (Path.parse path))))
  end.

(** A method of a handle: it acts on the shared data. *)
Definition on_handle {A} (fs : t) (h : handle) (f : MemoryFile.t -> fs_result A * MemoryFile.t) : fs_result A * handle * t :=
  match files fs !! data h with
  | None => (Panic, h, fs)
  | Some d =>
      let '(r, f') := f (MemoryFile.mk (cursor h) (name h) (buffer d) (lock d)) in
      (r, Handle (MemoryFile.cursor f') (name h) (data h),
       mk (tree fs) (<[data h := Data (MemoryFile.buffer f') (MemoryFile.lock f')]> (files fs)) (next_file fs))
  end.

End MemoryFileSystem.
