(* ===== verification/VfsTree.v ===== *)
(** * The in-memory file system is a tree

    For absolute, normalised paths: the tree invariant, that every operation
    keeps it, what directories list, and what removing a directory removes. *)

From Stdlib Require Import ZArith Lia Ascii String.
From stdpp Require Import sorting gmap option strings base list.
From S2P Require Import Prelude VfsFile VfsPath VfsMemory.

Open Scope Z_scope.
Import MemoryFileSystem.

(** ** Keys *)

(** The absolute path with the given segments, and its key in the tree. *)
Definition absolute_path (l : list string) : Path.t := Path.mk None true 0 l.
Definition key (l : list string) : string := Path.to_string (absolute_path l).

Abbreviation segments_ok := (Forall segment_ok).

Lemma absolute_ok l : segments_ok l -> path_ok (absolute_path l).
Proof. done. Qed.

Lemma parse_key l : segments_ok l -> Path.parse (key l) = absolute_path l.
Proof. intros Hl. by apply parse_to_string. Qed.

Lemma key_inj l1 l2 : segments_ok l1 -> segments_ok l2 -> key l1 = key l2 -> l1 = l2.
Proof. intros H1 H2 Heq. apply (f_equal Path.parse) in Heq. rewrite !parse_key in Heq by done. by injection Heq. Qed.

Lemma parent_key l n : Path.to_string (Path.parent (absolute_path (l ++ [n]))) = key l.
Proof. unfold Path.parent, absolute_path. cbn [Path.segments]. destruct (l ++ [n]) eqn:E; [by destruct l|]. rewrite <- E. by rewrite removelast_last. Qed.

Lemma last_key l n : last_segment (absolute_path (l ++ [n])) = n.
Proof. apply last_last. Qed.

Lemma snoc_match {A B} (l : list A) n (x : B) (f : A -> list A -> B) : match l ++ [n] with [] => x | a :: b => f a b end = match l with [] => f n [] | a :: b => f a (b ++ [n]) end.
Proof. by destruct l. Qed.

(** ** The invariant *)

Record tree_ok (fs : t) : Prop := {
  ok_keys k e : tree fs !! k = Some e -> exists l, segments_ok l /\ k = key l;
  ok_root : exists names, tree fs !! key [] = Some (Directory names);
  ok_names l names : segments_ok l -> tree fs !! key l = Some (Directory names) ->
    forall n, n ∈ names <-> segment_ok n /\ is_Some (tree fs !! key (l ++ [n]));
  ok_parents l n e : segments_ok (l ++ [n]) -> tree fs !! key (l ++ [n]) = Some e -> exists names, tree fs !! key l = Some (Directory names);
  ok_files k i : tree fs !! k = Some (FileAt i) -> is_Some (files fs !! i)
}.

(** A lookup in a tree that was updated at a key. *)
Lemma key_insert (tr : gmap string MemoryEntry) l l' e : segments_ok l -> segments_ok l' ->
  <[key l := e]> tr !! key l' = if decide (l' = l) then Some e else tr !! key l'.
Proof. intros Hl Hl'. case_decide as E; [rewrite E; apply lookup_insert_eq|apply lookup_insert_ne]. by intros ?%key_inj. Qed.

Lemma segments_snoc l n : segments_ok (l ++ [n]) <-> segments_ok l /\ segment_ok n.
Proof. by rewrite Forall_app, Forall_singleton. Qed.

Lemma snoc_ne {A} (l : list A) n : l ++ [n] <> l.
Proof. intros H. apply (f_equal length) in H. rewrite length_app in H. cbn in H. lia. Qed.

(** Adding an entry to a directory. *)
Lemma add_ok fs l n names e data next : tree_ok fs -> segments_ok (l ++ [n]) -> tree fs !! key l = Some (Directory names) -> tree fs !! key (l ++ [n]) = None ->
  e = Directory ∅ \/ (exists i, e = FileAt i /\ is_Some (data !! i)) -> (forall i, is_Some (files fs !! i) -> is_Some (data !! i)) ->
  tree_ok (mk (<[key (l ++ [n]) := e]> (<[key l := Directory ({[n]} ∪ names)]> (tree fs))) data next).
Proof.
  intros Hok Hln Hl Hnone He Hdata. pose proof Hln as [Hlo Hno]%segments_snoc.
  assert (Hlook : forall q, segments_ok q -> <[key (l ++ [n]) := e]> (<[key l := Directory ({[n]} ∪ names)]> (tree fs)) !! key q =
    if decide (q = l ++ [n]) then Some e else if decide (q = l) then Some (Directory ({[n]} ∪ names)) else tree fs !! key q).
  { intros q Hq. by rewrite !key_insert. }
  constructor; cbn [tree files].
  - intros k x. rewrite !lookup_insert_Some. intros [[<- _]|[_ [[<- _]|[_ Hk]]]]; [by exists (l ++ [n])|by exists l|by eapply ok_keys].
  - rewrite Hlook by done. rewrite decide_False by (by destruct l). case_decide; [by eexists|by apply ok_root].
  - intros q ns Hq. rewrite Hlook by done. intros Hqs m. destruct (decide (segment_ok m)) as [Hm|Hm]; [|split; [|tauto]; intros Hin; exfalso].
    + rewrite Hlook by (by apply segments_snoc). case_decide as E1.
      * subst q. destruct He as [->|(i & -> & _)]; [|done]. injection Hqs as <-. split; [by intros ?%not_elem_of_empty|]. intros [_ Hx].
        rewrite decide_False in Hx by apply snoc_ne. rewrite decide_False in Hx.
        2: { intros H. apply (f_equal length) in H. rewrite !length_app in H. cbn in H. lia. }
        destruct Hx as [x Hx]. destruct (ok_parents _ Hok (l ++ [n]) m x) as [ns Hns]; [by apply segments_snoc|done|]. congruence.
      * case_decide as E2.
        -- subst q. injection Hqs as <-. rewrite elem_of_union, elem_of_singleton, (ok_names _ Hok l names Hlo Hl m).
           destruct (decide (m = n)) as [->|Hne]; [rewrite decide_True by done; split; [|by left]; split; [done|by eexists]|].
           rewrite decide_False by (intros [_ [=]]%app_inj_tail; done). rewrite decide_False by apply snoc_ne. naive_solver.
        -- rewrite (ok_names _ Hok q ns Hq Hqs m). rewrite decide_False by (intros [? _]%app_inj_tail; done).
           case_decide as E3; [|done]. split; [intros [_ _]; split; [done|by eexists]|]. intros _. split; [done|]. rewrite E3, Hl. by eexists.
    + case_decide; [destruct He as [->|(i & -> & _)]; [|done]; injection Hqs as <-; by apply not_elem_of_empty in Hin|].
      case_decide; [subst; injection Hqs as <-; apply elem_of_union in Hin as [->%elem_of_singleton|Hin]; [done|]; apply (ok_names _ Hok l names Hlo Hl) in Hin; tauto|].
      apply (ok_names _ Hok q ns Hq Hqs) in Hin. tauto.
  - intros q m x Hqm. pose proof Hqm as [Hq Hm]%segments_snoc. rewrite !Hlook by done. case_decide as E1.
    + apply app_inj_tail in E1 as [-> ->]. intros _. rewrite decide_False by (intros H; by apply (snoc_ne l n)). rewrite decide_True by done. by eexists.
    + intros Hx. assert (Hp : exists ns, tree fs !! key q = Some (Directory ns)).
      { case_decide as E2; [|by eapply ok_parents]. rewrite <- E2 in Hl. by eapply ok_parents. }
      clear Hx. destruct Hp as [ns Hp]. case_decide as E3; [rewrite E3, Hnone in Hp; done|]. case_decide; [by eexists|by eexists].
  - intros k i. rewrite !lookup_insert_Some. intros [[_ ->]|[_ [[_ [=]]|[_ Hk]]]]; [|by eapply Hdata, ok_files].
    destruct He as [[=]|(j & [= ->] & ?)]; done.
Qed.

(** Removing a subtree and its name. *)
Lemma prune_ok fs l n names tr : tree_ok fs -> segments_ok (l ++ [n]) -> tree fs !! key l = Some (Directory names) ->
  (forall k e, tr !! k = Some e -> exists q, segments_ok q /\ k = key q) ->
  (forall q, segments_ok q -> tr !! key q =
     if decide ((l ++ [n]) `prefix_of` q) then None else if decide (q = l) then Some (Directory (names ∖ {[n]})) else tree fs !! key q) ->
  tree_ok (with_tree fs tr).
Proof.
  intros Hok Hln Hl Hkeys Hlook. pose proof Hln as [Hlo Hno]%segments_snoc.
  assert (Hself : forall q m, (l ++ [n]) `prefix_of` q -> (l ++ [n]) `prefix_of` q ++ [m]) by (intros; by apply prefix_app_r).
  assert (Hstep : forall q m, q ++ [m] <> l ++ [n] -> (l ++ [n]) `prefix_of` q ++ [m] -> (l ++ [n]) `prefix_of` q).
  { intros q m Hne [r Hr]. destruct r as [|m' r _] using rev_ind; [by rewrite app_nil_r in Hr|]. rewrite app_assoc in Hr. apply app_inj_tail in Hr as [-> _]. by exists r. }
  assert (Hnl : ~ (l ++ [n]) `prefix_of` l) by (intros H%prefix_length; rewrite length_app in H; cbn in H; lia).
  constructor; cbn [tree files with_tree].
  - exact Hkeys.
  - rewrite Hlook by done. rewrite decide_False by (intros H%prefix_nil_inv; by destruct l). case_decide; [by eexists|by apply ok_root].
  - intros q ns Hq. rewrite Hlook by done. case_decide as Hpq; [done|]. case_decide as Eq; intros Hns m.
    + subst q. injection Hns as <-. rewrite elem_of_difference, elem_of_singleton, (ok_names _ Hok l names Hlo Hl m).
      destruct (decide (segment_ok m)) as [Hm|]; [|tauto]. rewrite Hlook by (by apply segments_snoc). destruct (decide (m = n)) as [->|Hne].
      * rewrite decide_True by done. split; [tauto|]. intros [_ [? [=]]].
      * rewrite decide_False by (intros H%Hstep; [done|]; intros [_ [=]]%app_inj_tail; done). rewrite decide_False by apply snoc_ne. tauto.
    + rewrite (ok_names _ Hok q ns Hq Hns m). destruct (decide (segment_ok m)) as [Hm|]; [|tauto]. rewrite Hlook by (by apply segments_snoc).
      rewrite decide_False by (intros H%Hstep; [done|]; intros [? _]%app_inj_tail; done). case_decide as E; [|done].
      rewrite E, Hl. split; intros [? _]; (split; [done|by eexists]).
  - intros q m e Hqm. pose proof Hqm as [Hq Hm]%segments_snoc. rewrite !Hlook by done. case_decide as Hp; [done|]. intros He.
    assert (Hpar : exists ns, tree fs !! key q = Some (Directory ns)).
    { case_decide as E; [|by eapply ok_parents]. rewrite <- E in Hl. by eapply ok_parents. }
    clear He. destruct Hpar as [ns Hns]. rewrite decide_False by (intros H; by apply Hp, Hself). case_decide; by eexists.
  - intros k i Hk. destruct (Hkeys k _ Hk) as (q & Hq & ->). rewrite Hlook in Hk by done. case_decide; [done|]. case_decide; [done|]. by eapply ok_files.
Qed.

(** ** Creating entries *)

Lemma register_key tr l n : segments_ok (l ++ [n]) -> register tr (Path.parse (key (l ++ [n]))) =
  match tr !! key l with
  | Some (Directory names) => Ok (<[key l := Directory ({[n]} ∪ names)]> tr)
  | Some (FileAt _) => Err InvalidOperation
  | None => Err PathMissing
  end.
Proof.
  intros Hl. rewrite parse_key by done. unfold register. rewrite parent_key, last_key. cbn [Path.segments absolute_path]. by destruct l.
Qed.

Lemma root_key : key [] = "/".
Proof. done. Qed.

(** A path that does not exist is below another one. *)
Lemma absent_snoc fs l : tree_ok fs -> tree fs !! key l = None -> exists l' n, l = l' ++ [n].
Proof.
  intros Hok Hl. destruct l as [|n l' _] using rev_ind; [|by eexists _, _]. destruct (ok_root _ Hok) as [names H]. congruence.
Qed.

Lemma create_directory_ok fs l : tree_ok fs -> segments_ok l -> tree_ok (create_directory fs (key l)).2.
Proof.
  intros Hok Hl. unfold create_directory. destruct (tree fs !! key l) eqn:E; [done|].
  destruct (absent_snoc fs l Hok E) as (l' & n & ->). rewrite register_key by done. destruct (tree fs !! key l') as [[names|i]|] eqn:El; try done.
  cbn. unfold with_tree. apply add_ok; [done..|by left|done].
Qed.

Lemma create_file_ok fs l : tree_ok fs -> segments_ok l -> tree_ok (create_file fs (key l)).2.
Proof.
  intros Hok Hl. unfold create_file. destruct (tree fs !! key l) eqn:E; [done|].
  destruct (absent_snoc fs l Hok E) as (l' & n & ->). rewrite register_key by done. destruct (tree fs !! key l') as [[names|i]|] eqn:El; try done.
  cbn. apply add_ok; [done..| |].
  - right. eexists. split; [done|]. by rewrite lookup_insert_eq.
  - intros i Hi. destruct (decide (i = next_file fs)) as [->|]; [by rewrite lookup_insert_eq|by rewrite lookup_insert_ne].
Qed.

(** *** [create_directory_all] *)

Lemma take_snoc {A} (l : list A) m x : l !! m = Some x -> take (S m) l = take m l ++ [x].
Proof. apply take_S_r. Qed.

Lemma parent_snoc l x : Path.parent (absolute_path (l ++ [x])) = absolute_path l.
Proof. unfold Path.parent, absolute_path. cbn [Path.segments]. destruct (l ++ [x]) eqn:E; [by destruct l|]. rewrite <- E. unfold Path.set_segments. cbn. by rewrite removelast_last. Qed.

Lemma missing_absent m tr l x : tr !! key (l ++ [x]) = None -> missing (S m) tr (absolute_path (l ++ [x])) = absolute_path (l ++ [x]) :: missing m tr (absolute_path l).
Proof. intros Hn. cbn [missing]. unfold key in Hn. rewrite Hn, parent_snoc. cbn [Path.segments absolute_path]. by destruct l. Qed.

Lemma missing_present m tr l : is_Some (tr !! key l) -> missing m tr (absolute_path l) = [].
Proof. intros [e He]. destruct m as [|m]; [done|]. cbn [missing]. unfold key in He. rewrite He. by destruct (Path.segments _). Qed.

Lemma missing_key fs l m : tree_ok fs -> segments_ok l -> tree fs !! key (take m l) = None -> (m <= length l)%nat ->
  exists d, (d < m)%nat /\ is_Some (tree fs !! key (take d l)) /\
    missing m (tree fs) (absolute_path (take m l)) = rev ((fun i => absolute_path (take i l)) <$> seq (S d) (m - d)) /\
    forall i, (d < i <= m)%nat -> tree fs !! key (take i l) = None.
Proof.
  intros Hok Hl. induction m as [|m IH]; intros Hn Hm.
  - destruct (ok_root _ Hok) as [names H]. change (take 0 l) with (@nil string) in Hn. congruence.
  - destruct (lookup_lt_is_Some_2 l m) as [x Hx]; [lia|]. pose proof (take_snoc _ _ _ Hx) as Hs. rewrite Hs in Hn |- *. rewrite missing_absent by done. rewrite <- Hs in *.
    destruct (tree fs !! key (take m l)) as [e|] eqn:Em.
    + exists m. split; [lia|]. split; [by eexists|]. rewrite missing_present by (by eexists). replace (S m - m)%nat with 1%nat by lia.
      split; [done|]. intros i Hi. by replace i with (S m) by lia.
    + destruct (IH eq_refl) as (d & Hd & Hds & Hmis & Hall); [lia|]. exists d. split; [lia|]. split; [done|]. rewrite Hmis. split.
      * replace (S m - d)%nat with (S (m - d)) by lia. rewrite seq_S, fmap_app, rev_app_distr. cbn [rev fmap list_fmap app]. do 3 f_equal. lia.
      * intros i Hi. destruct (decide (i = S m)) as [->|]; [done|]. apply Hall. lia.
Qed.

Definition entry_kind (e : MemoryEntry) : option Z := match e with Directory _ => None | FileAt i => Some i end.

(** What is at a path: nothing, a directory or a file. *)
Definition kind_at (fs : t) (l : list string) : option (option Z) := entry_kind <$> tree fs !! key l.

Lemma kind_directory fs l : kind_at fs l = Some None <-> exists names, tree fs !! key l = Some (Directory names).
Proof. unfold kind_at. destruct (tree fs !! key l) as [[names|i]|]; cbn; naive_solver. Qed.

Lemma kind_insert_directory fs l names names' l' : segments_ok l -> segments_ok l' -> tree fs !! key l = Some (Directory names) ->
  entry_kind <$> (<[key l := Directory names']> (tree fs) : gmap string MemoryEntry) !! key l' = kind_at fs l'.
Proof. intros Hl Hl' He. rewrite key_insert by done. case_decide as E; [|done]. rewrite E. unfold kind_at. by rewrite He. Qed.

Lemma make_directory_key fs q x names : tree_ok fs -> segments_ok (q ++ [x]) -> tree fs !! key q = Some (Directory names) -> tree fs !! key (q ++ [x]) = None ->
  let fs' := with_tree fs (make_directory (tree fs) (absolute_path (q ++ [x]))) in
  tree_ok fs' /\ forall l, segments_ok l -> kind_at fs' l = if decide (l = q ++ [x]) then Some None else kind_at fs l.
Proof.
  intros Hok Hqx Hq Hn. pose proof Hqx as [Hqo _]%segments_snoc. unfold make_directory. rewrite parent_key, last_key, Hq. cbn [Path.segments absolute_path]. destruct (q ++ [x]) as [|y r] eqn:E; [by destruct q|].
  cbv iota. rewrite <- E in *. change (Path.to_string (absolute_path (q ++ [x]))) with (key (q ++ [x])). cbn zeta. split.
  - apply add_ok; [done..|by left|done].
  - intros l Hl. unfold kind_at at 1. cbn [tree with_tree]. rewrite key_insert by done. case_decide; [done|]. by eapply kind_insert_directory.
Qed.

Lemma make_directories l c : forall i fs, tree_ok fs -> segments_ok l -> kind_at fs (take i l) = Some None ->
  (forall j, (i < j <= i + c)%nat -> tree fs !! key (take j l) = None) -> (i + c <= length l)%nat ->
  let fs' := with_tree fs (foldl make_directory (tree fs) ((fun j => absolute_path (take j l)) <$> seq (S i) c)) in
  tree_ok fs' /\ forall q, segments_ok q -> kind_at fs' q = if decide (q ∈ ((fun j => take j l) <$> seq (S i) c)) then Some None else kind_at fs q.
Proof.
  induction c as [|c IH]; intros i fs Hok Hl Hi Hn Hc; cbn zeta.
  - cbn. replace (with_tree fs (tree fs)) with fs by (by destruct fs). split; [done|]. intros q Hq. by rewrite decide_False by apply not_elem_of_nil.
  - destruct (lookup_lt_is_Some_2 l i) as [x Hx]; [lia|]. pose proof (take_snoc _ _ _ Hx) as Hs. apply kind_directory in Hi as [names Hi].
    assert (Hso : segments_ok (take (S i) l)) by (by apply Forall_take). destruct (make_directory_key fs (take i l) x names Hok) as [Hok1 Hk1]; [by rewrite <- Hs|done|rewrite <- Hs; apply Hn; lia|].
    rewrite <- Hs in Hok1, Hk1. cbn [seq fmap list_fmap foldl]. set (fs1 := with_tree fs (make_directory (tree fs) (absolute_path (take (S i) l)))) in *.
    change (make_directory (tree fs) (absolute_path (take (S i) l))) with (tree fs1). change (with_tree fs ?tr) with (with_tree fs1 tr).
    assert (Htake : forall j, (S i < j <= S i + c)%nat -> take j l <> take (S i) l) by (intros j Hj H; apply (f_equal length) in H; rewrite !length_take in H; lia).
    destruct (IH (S i) fs1 Hok1 Hl) as [Hok2 Hk2]; [rewrite Hk1 by done; by rewrite decide_True| |lia|].
    { intros j Hj. assert (Hk : kind_at fs1 (take j l) = None); [|unfold kind_at in Hk; by apply fmap_None in Hk].
      rewrite Hk1 by (by apply Forall_take). rewrite decide_False by auto. unfold kind_at. by rewrite Hn by lia. }
    split; [exact Hok2|]. intros q Hq. rewrite (Hk2 q Hq), (Hk1 q Hq). rewrite (decide_ext (q ∈ take (S i) l :: ((fun j => take j l) <$> seq (S (S i)) c)) (q = take (S i) l \/ q ∈ ((fun j => take j l) <$> seq (S (S i)) c))) by apply elem_of_cons.
    by repeat case_decide; try tauto.
Qed.

(** No file on the way to a path. *)
Definition clear_way (fs : t) (l : list string) : Prop := forall q i, q `prefix_of` l -> kind_at fs q <> Some (Some i).

Lemma prefix_is_take {A} (q l : list A) : q `prefix_of` l -> q = take (length q) l.
Proof. intros [r ->]. by rewrite take_app_length. Qed.

(** Every prefix of an existing path is a directory. *)
Lemma above_directory fs l m : tree_ok fs -> segments_ok l -> is_Some (tree fs !! key l) -> (m < length l)%nat -> kind_at fs (take m l) = Some None.
Proof.
  intros Hok. induction l as [|n l IH] using rev_ind; intros Hl Hs Hm; [cbn in Hm; lia|]. rewrite length_app in Hm. cbn in Hm. destruct Hs as [e He].
  destruct (ok_parents _ Hok l n e Hl He) as [names Hn]. apply segments_snoc in Hl as [Hl _]. rewrite take_app_le by lia. destruct (decide (m = length l)) as [->|].
  - rewrite firstn_all. apply kind_directory. by eexists.
  - apply IH; [done|by eexists|lia].
Qed.

Lemma create_directory_all_spec fs l : tree_ok fs -> segments_ok l -> clear_way fs l ->
  exists fs', create_directory_all fs (key l) = (Ok tt, fs') /\ tree_ok fs' /\
    forall q, segments_ok q -> kind_at fs' q = if decide (q `prefix_of` l) then Some None else kind_at fs q.
Proof.
  intros Hok Hl Hclear. unfold create_directory_all.
  assert (Habove : forall m, is_Some (tree fs !! key (take m l)) -> forall q, q `prefix_of` take m l -> kind_at fs q = Some None).
  { intros m Hm q Hq. assert (Hql : q `prefix_of` l) by (etrans; [exact Hq|apply prefix_take]). destruct (decide (q = take m l)) as [->|Hne].
    - destruct Hm as [[ns|i] He]; [apply kind_directory; by eexists|]. destruct (Hclear (take m l) i); [done|]. unfold kind_at. by rewrite He.
    - rewrite (prefix_is_take _ _ Hq). apply above_directory; [done|by apply Forall_take|done|].
      destruct (decide (length q < length (take m l))%nat) as [|Hge]; [done|]. destruct Hne. destruct Hq as [r Hr]. rewrite Hr, length_app in Hge. destruct r; [by rewrite app_nil_r in Hr|]. cbn in Hge. lia. }
  destruct (tree fs !! key l) as [e|] eqn:E.
  - exists fs. split; [done|]. split; [done|]. intros q Hq. case_decide; [|done]. apply (Habove (length l)); rewrite firstn_all; [by eexists|done].
  - destruct (missing_key fs l (length l) Hok Hl) as (d & Hd & Hds & Hmis & Hnone); [by rewrite firstn_all|done|]. rewrite firstn_all in Hmis.
    rewrite parse_key by done. cbn [Path.segments absolute_path]. change (Path.mk None true 0 l) with (absolute_path l). rewrite Hmis, rev_involutive.
    destruct (make_directories l (length l - d) d fs Hok Hl) as [Hok' Hk'].
    { by apply (Habove d). }
    { intros j Hj. apply Hnone. lia. }
    { lia. }
    eexists. split; [reflexivity|]. split; [exact Hok'|]. intros q Hq. rewrite Hk' by done. destruct (decide (q `prefix_of` l)) as [Hp|Hp].
    + destruct (decide (length q <= d)%nat) as [Hle|Hgt].
      * rewrite decide_False; [|intros (j & -> & Hj%elem_of_seq)%list_elem_of_fmap; rewrite length_take in Hle; lia]. apply (Habove d Hds).
        rewrite (prefix_is_take _ _ Hp). replace (take (length q) l) with (take (length q) (take d l)) by (rewrite take_take; f_equal; lia). apply prefix_take.
      * rewrite decide_True; [done|]. apply list_elem_of_fmap. exists (length q). split; [by apply prefix_is_take|]. apply elem_of_seq. apply prefix_length in Hp. lia.
    + rewrite decide_False; [done|]. intros (j & -> & _)%list_elem_of_fmap. apply Hp, prefix_take.
Qed.

(** ** Removing entries *)

Lemma unregister_key tr l n : segments_ok (l ++ [n]) -> unregister tr (Path.parse (key (l ++ [n]))) =
  match tr !! key l with
  | Some (Directory names) => <[key l := Directory (names ∖ {[n]})]> tr
  | _ => tr
  end.
Proof.
  intros Hl. rewrite parse_key by done. unfold unregister. rewrite parent_key, last_key. cbn [Path.segments absolute_path]. by destruct l.
Qed.

Lemma remove_file_spec fs l i : tree_ok fs -> segments_ok l -> kind_at fs l = Some (Some i) ->
  exists fs', remove_file fs (key l) = (Ok tt, fs') /\ tree_ok fs' /\
    forall q, segments_ok q -> kind_at fs' q = if decide (q = l) then None else kind_at fs q.
Proof.
  intros Hok Hl Hi. unfold kind_at in Hi. destruct (tree fs !! key l) as [[ns|j]|] eqn:E; try done. injection Hi as ->.
  destruct l as [|n l _] using rev_ind; [destruct (ok_root _ Hok); congruence|]. pose proof Hl as [Hlo _]%segments_snoc.
  destruct (ok_parents _ Hok l n _ Hl E) as [names Hn]. unfold remove_file. rewrite E, unregister_key, Hn by done.
  (* nothing is below a file *)
  assert (Hbelow : forall q, segments_ok q -> (l ++ [n]) `prefix_of` q -> q <> l ++ [n] -> tree fs !! key q = None).
  { intros q Hq Hp Hne. destruct (tree fs !! key q) eqn:Eq; [|done]. exfalso. destruct Hp as [r Hr]. destruct r as [|x r]; [by rewrite app_nil_r in Hr|].
    pose proof (above_directory fs q (length (l ++ [n])) Hok Hq) as Ha. rewrite Hr, take_app_length in Ha. unfold kind_at in Ha. rewrite E in Ha. discriminate Ha; [by rewrite <- Hr, Eq|].
    rewrite ?Hr, !length_app. cbn. lia. }
  assert (Hlook : forall q, segments_ok q -> base.delete (key (l ++ [n])) (<[key l := Directory (names ∖ {[n]})]> (tree fs)) !! key q =
     if decide ((l ++ [n]) `prefix_of` q) then None else if decide (q = l) then Some (Directory (names ∖ {[n]})) else tree fs !! key q).
  { intros q Hq. destruct (decide (q = l ++ [n])) as [->|Hne]; [rewrite lookup_delete_eq, decide_True by done; done|].
    rewrite lookup_delete_ne by (by intros ?%key_inj). rewrite key_insert by done. destruct (decide ((l ++ [n]) `prefix_of` q)) as [Hp|]; [|done].
    rewrite decide_False; [by apply Hbelow|]. intros ->. apply prefix_length in Hp. rewrite length_app in Hp. cbn in Hp. lia. }
  eexists. split; [reflexivity|]. split.
  - eapply prune_ok; [exact Hok|exact Hl|exact Hn| |exact Hlook]. intros k e. rewrite lookup_delete_Some, lookup_insert_Some.
    intros [_ [[<- _]|[_ Hk]]]; [by exists l|by eapply ok_keys].
  - intros q Hq. unfold kind_at. cbn [tree with_tree]. rewrite Hlook by done. destruct (decide (q = l ++ [n])) as [->|Hne]; [by rewrite decide_True|].
    case_decide as Hp; [by rewrite Hbelow|]. case_decide as El; [|done]. subst q. by rewrite Hn.
Qed.

(** *** Walking a subtree *)

Lemma names_elem names n : n ∈ sorted_names names <-> n ∈ names.
Proof. unfold sorted_names. by rewrite merge_sort_Permutation, elem_of_elements. Qed.

Lemma names_nodup names : NoDup (sorted_names names).
Proof. unfold sorted_names. rewrite merge_sort_Permutation. apply NoDup_elements. Qed.

Lemma push_key l n : segments_ok l -> segment_ok n -> Path.to_string (Path.push (Path.parse (key l)) n) = key (l ++ [n]).
Proof. intros Hl Hn. rewrite parse_key, push_segment by done. done. Qed.

Section walk.
Context (tr : gmap string MemoryEntry) (p : list string).

(** Below [p] the tree lists exactly the entries there are. *)
Hypothesis below_names : forall l names n, segments_ok l -> p `prefix_of` l -> tr !! key l = Some (Directory names) ->
  n ∈ names <-> segment_ok n /\ is_Some (tr !! key (l ++ [n])).

(** The walk has visited [v] and still has [q] to visit. *)
Record walking (v q : list string) : Prop := {
  walk_nodup : NoDup (v ++ q);
  walk_below x : x ∈ v ++ q -> exists l, segments_ok l /\ p `prefix_of` l /\ x = key l /\ is_Some (tr !! x);
  walk_parent l n : segments_ok (l ++ [n]) -> p `prefix_of` l -> key (l ++ [n]) ∈ v ++ q -> key l ∈ v;
  walk_children x y : x ∈ v -> y ∈ children tr x -> y ∈ v ++ q
}.

Lemma children_elem l y : segments_ok l -> p `prefix_of` l ->
  y ∈ children tr (key l) <-> exists n names, tr !! key l = Some (Directory names) /\ n ∈ names /\ segment_ok n /\ y = key (l ++ [n]) /\ is_Some (tr !! y).
Proof using below_names.
  intros Hl Hp. unfold children. destruct (tr !! key l) as [[names|i]|] eqn:E; [|split; [by intros ?%not_elem_of_nil|by intros (? & ? & [=] & _)]..].
  rewrite list_elem_of_fmap. split.
  - intros (n & -> & Hn%names_elem). pose proof Hn as [Hno Hex]%(below_names l names n Hl Hp E). exists n, names. by rewrite push_key.
  - intros (n & ns & [= <-] & Hn & Hno & -> & _). exists n. split; [by rewrite push_key|by apply names_elem].
Qed.

Lemma children_nodup l : segments_ok l -> p `prefix_of` l -> NoDup (children tr (key l)).
Proof using below_names.
  intros Hl Hp. unfold children. destruct (tr !! key l) as [[names|i]|] eqn:E; [|constructor..].
  assert (Hok : Forall segment_ok (sorted_names names)).
  { apply Forall_forall. intros n Hn%names_elem. by apply (below_names l names n Hl Hp E) in Hn as [? _]. }
  rewrite (list_fmap_ext _ (fun n => key (l ++ [n])) (sorted_names names)) by (intros i n Hn; apply push_key; [done|]; rewrite Forall_lookup in Hok; by eapply Hok).
  apply NoDup_fmap_2_strong; [|apply names_nodup]. intros x y Hx Hy Hxy. rewrite Forall_forall in Hok.
  apply key_inj in Hxy; [by apply app_inj_tail in Hxy as [_ ?]|apply segments_snoc; auto..].
Qed.

Lemma walk_step v x q : walking v (x :: q) -> walking (v ++ [x]) (q ++ children tr x).
Proof using below_names.
  intros [Hnd Hb Hpar Hch]. destruct (Hb x) as (l & Hl & Hp & -> & He); [set_solver|].
  assert (Hassoc : (v ++ [key l]) ++ q ++ children tr (key l) ≡ₚ (v ++ key l :: q) ++ children tr (key l)) by (by rewrite <- !app_assoc).
  constructor.
  - rewrite Hassoc. apply NoDup_app. split; [done|]. split; [|by apply children_nodup]. intros y Hy (n & ns & _ & _ & Hn & -> & _)%children_elem; [|done..].
    assert (Hv : key l ∈ v) by (by apply (Hpar l n); [apply segments_snoc| |]). apply NoDup_app in Hnd as (_ & Hd & _). apply (Hd _ Hv). by left.
  - intros y. rewrite Hassoc, elem_of_app. intros [Hy|(n & ns & _ & _ & Hn & -> & Hex)%children_elem]; [by apply Hb| |done..].
    exists (l ++ [n]). split_and!; [by apply segments_snoc|by apply prefix_app_r|done|done].
  - intros l' n Hln Hp'. rewrite Hassoc, elem_of_app. intros [Hin|Hin]; [apply elem_of_app; left; by eapply Hpar|].
    apply children_elem in Hin as (m & ns & _ & _ & Hm & Heq & _); [|done..]. apply key_inj in Heq; [|done|by apply segments_snoc]. apply app_inj_tail in Heq as [-> _]. set_solver.
  - intros y z Hy Hz. rewrite Hassoc. apply elem_of_app in Hy as [Hy|Hy%list_elem_of_singleton]; [apply elem_of_app; left; by eapply Hch|subst; apply elem_of_app; by right].
Qed.

Lemma walk_length v q : walking v q -> (length (v ++ q) <= size tr)%nat.
Proof.
  intros [Hnd Hb _ _]. rewrite <- size_dom, <- (size_list_to_set (C := gset string)) by done. apply subseteq_size. intros x Hx%elem_of_list_to_set.
  destruct (Hb x Hx) as (_ & _ & _ & _ & He). by apply elem_of_dom.
Qed.

Lemma collect_walk fuel v q : walking v q -> (size tr < fuel + length v)%nat -> exists l, collect fuel tr q = Some l /\ walking (v ++ l) [].
Proof using below_names.
  revert v q. induction fuel as [|fuel IH]; intros v q Hw Hf; pose proof (walk_length _ _ Hw) as Hlen; rewrite length_app in Hlen; [lia|].
  destruct q as [|x q]; [exists []; by rewrite app_nil_r|]. destruct (IH (v ++ [x]) (q ++ children tr x)) as (l & Hl & Hw'); [by apply walk_step|rewrite length_app; cbn in *; lia|].
  exists (x :: l). cbn [collect]. rewrite Hl. by rewrite <- app_assoc in Hw'.
Qed.
End walk.

Lemma collect_queue fuel tr q l x : collect fuel tr q = Some l -> x ∈ q -> x ∈ l.
Proof.
  revert q l. induction fuel as [|fuel IH]; intros q l; [done|]. cbn [collect]. destruct q as [|y q]; [by intros _ ?%not_elem_of_nil|].
  destruct (collect fuel tr (q ++ children tr y)) as [l'|] eqn:E; [|done]. intros [= <-] [->|Hx]%elem_of_cons; [by left|]. right. apply (IH _ _ E). set_solver.
Qed.

Lemma foldl_delete (ks : list string) (tr : gmap string MemoryEntry) k :
  foldl (fun tr p => base.delete p tr) tr ks !! k = if decide (k ∈ ks) then None else tr !! k.
Proof.
  revert tr. induction ks as [|x ks IH]; intros tr; [done|]. cbn [foldl]. rewrite IH. destruct (decide (k = x)) as [->|Hne].
  - rewrite lookup_delete_eq. rewrite (decide_True (P := x ∈ x :: ks)) by (by left). by case_decide.
  - rewrite lookup_delete_ne by done. rewrite (decide_ext (k ∈ x :: ks) (k ∈ ks)); [done|]. set_solver.
Qed.

Lemma remove_directory_all_spec fs l : tree_ok fs -> segments_ok l -> l <> [] -> is_Some (tree fs !! key l) ->
  exists fs', remove_directory_all fs (key l) = (Ok tt, fs') /\ tree_ok fs' /\
    forall q, segments_ok q -> kind_at fs' q = if decide (l `prefix_of` q) then None else kind_at fs q.
Proof.
  intros Hok Hp Hne [e He]. destruct l as [|n l _] using rev_ind; [done|]. pose proof Hp as [Hl Hn]%segments_snoc.
  destruct (ok_parents _ Hok l n e Hp He) as [names Hnames]. unfold remove_directory_all. rewrite He, unregister_key, Hnames by done.
  set (p := l ++ [n]) in *. set (tr := <[key l := Directory (names ∖ {[n]})]> (tree fs)).
  assert (Hnl : forall q, p `prefix_of` q -> q <> l) by (intros q H%prefix_length ->; unfold p in H; rewrite length_app in H; cbn in H; lia).
  assert (Htr : forall q, segments_ok q -> p `prefix_of` q -> tr !! key q = tree fs !! key q) by (intros q Hq Hpq; unfold tr; rewrite key_insert by done; by rewrite decide_False by auto).
  assert (Hbelow : forall q ns m, segments_ok q -> p `prefix_of` q -> tr !! key q = Some (Directory ns) -> m ∈ ns <-> segment_ok m /\ is_Some (tr !! key (q ++ [m]))).
  { intros q ns m Hq Hpq. rewrite Htr by done. intros Hns. rewrite (ok_names _ Hok q ns Hq Hns m). destruct (decide (segment_ok m)); [|tauto].
    by rewrite Htr by (by first [apply segments_snoc|apply prefix_app_r]). }
  destruct (collect_walk tr p Hbelow (collect_fuel tr) [] [key p]) as (x & Hx & Hw).
  { constructor; cbn [app].
    - apply NoDup_singleton.
    - intros y ->%list_elem_of_singleton. exists p. split_and!; [done..|]. rewrite Htr by done. by eexists.
    - intros q m Hqm Hpq Heq%list_elem_of_singleton. apply key_inj in Heq; [|done..]. rewrite <- Heq in Hpq. apply prefix_length in Hpq. rewrite length_app in Hpq. cbn in Hpq. lia.
    - by intros ? ? ?%not_elem_of_nil. }
  { unfold collect_fuel. cbn. lia. }
  cbn [app] in Hw. destruct Hw as [_ Hwb _ Hwc]. rewrite app_nil_r in Hwb, Hwc.
  (* exactly the existing paths below [p] are collected *)
  assert (Hcol : forall q, segments_ok q -> is_Some (tr !! key q) -> key q ∈ x <-> p `prefix_of` q).
  { intros q Hq Hex. split.
    - intros (q' & Hq' & Hpq' & Heq & _)%Hwb. apply key_inj in Heq; [|done..]. by subst.
    - intros [r ->]. clear Htr. induction r as [|m r IH] using rev_ind; [rewrite app_nil_r; eapply collect_queue; [exact Hx|by left]|].
      rewrite app_assoc in Hq, Hex |- *. pose proof Hq as [Hq' Hm]%segments_snoc. destruct Hex as [e' He'].
      assert (Hpar : exists ns, tr !! key (p ++ r) = Some (Directory ns)).
      { assert (Hpr : p `prefix_of` p ++ r) by (by eexists). unfold tr in He' |- *. rewrite key_insert in He' by done. rewrite key_insert by done.
        rewrite decide_False in He' by (apply Hnl; by apply prefix_app_r). rewrite decide_False by (by apply Hnl). by eapply ok_parents. }
      destruct Hpar as [ns Hns]. apply (Hwc (key (p ++ r))); [by apply IH; rewrite ?Hns|]. apply (children_elem tr p Hbelow); [done|by eexists|].
      exists m, ns. assert (Hmn : m ∈ ns); [|split_and!; try done; by eexists]. apply (Hbelow (p ++ r) ns m); [done|by eexists|done|]. split; [done|by eexists]. }
  rewrite Hx. eexists. split; [reflexivity|].
  assert (Hlook : forall q, segments_ok q -> foldl (fun tr p => base.delete p tr) tr x !! key q =
     if decide (p `prefix_of` q) then None else if decide (q = l) then Some (Directory (names ∖ {[n]})) else tree fs !! key q).
  { intros q Hq. rewrite foldl_delete. destruct (tr !! key q) as [e'|] eqn:Eq.
    - rewrite (decide_ext (key q ∈ x) (p `prefix_of` q)) by (by apply Hcol; [|eexists]). case_decide; [done|]. rewrite <- Eq. unfold tr. by rewrite key_insert.
    - replace (if decide (key q ∈ x) then None else None) with (@None MemoryEntry) by (by case_decide). case_decide as Hpq; [done|]. rewrite <- Eq. unfold tr. by rewrite key_insert. }
  split.
  - eapply prune_ok; [exact Hok|exact Hp|exact Hnames| |exact Hlook]. intros k e'. rewrite foldl_delete. case_decide; [done|]. unfold tr.
    rewrite lookup_insert_Some. intros [[<- _]|[_ Hk]]; [by exists l|by eapply ok_keys].
  - intros q Hq. unfold kind_at. cbn [tree with_tree]. rewrite Hlook by done. case_decide; [done|]. case_decide as E; [|done]. subst q. by rewrite Hnames.
Qed.

(** ** The contract *)

(** File systems reached through absolute, normalised paths, where directories
    are not made through files, the root is not removed, and [remove_file] is
    used on files. *)
Inductive fs_reaches : t -> Prop :=
| fs_new : fs_reaches new
| fs_create_directory fs l : fs_reaches fs -> segments_ok l -> fs_reaches (create_directory fs (key l)).2
| fs_create_directory_all fs l : fs_reaches fs -> segments_ok l -> clear_way fs l -> fs_reaches (create_directory_all fs (key l)).2
| fs_create_file fs l : fs_reaches fs -> segments_ok l -> fs_reaches (create_file fs (key l)).2
| fs_remove_directory_all fs l : fs_reaches fs -> segments_ok l -> l <> [] -> fs_reaches (remove_directory_all fs (key l)).2
| fs_remove_file fs l : fs_reaches fs -> segments_ok l -> kind_at fs l <> Some None -> fs_reaches (remove_file fs (key l)).2
| fs_handle fs h {A} (f : MemoryFile.t -> fs_result A * MemoryFile.t) : fs_reaches fs -> fs_reaches (on_handle fs h f).2.

Lemma new_fs_ok : tree_ok new.
Proof.
  constructor.
  - intros k e. cbn [tree new]. intros [<- _]%lookup_singleton_Some. by exists [].
  - by eexists.
  - intros l names Hl. cbn [tree new]. intros [Heq [= <-]]%lookup_singleton_Some n. split; [by intros ?%not_elem_of_empty|].
    intros [Hn [x [Hx _]%lookup_singleton_Some]]. rewrite <- root_key in Hx. apply key_inj in Hx; [by destruct l|done|by apply segments_snoc].
  - intros l n e Hln. cbn [tree new]. intros [Hx _]%lookup_singleton_Some. rewrite <- root_key in Hx. apply key_inj in Hx; [by destruct l|done..].
  - intros k i. cbn [tree new]. by intros [_ [=]]%lookup_singleton_Some.
Qed.

Lemma handle_tree_ok fs h {A} (f : MemoryFile.t -> fs_result A * MemoryFile.t) : tree_ok fs -> tree_ok (on_handle fs h f).2.
Proof.
  intros Hok. unfold on_handle. destruct (files fs !! data h) as [d|] eqn:E; [|done]. destruct (f _) as [r f']. destruct Hok as [H1 H2 H3 H4 H5]. constructor; cbn [snd tree files]; try done.
  intros k i Hk. destruct (H5 k i Hk) as [d' Hd']. destruct (decide (i = data h)) as [->|]; [by rewrite lookup_insert_eq|rewrite lookup_insert_ne by done; by eexists].
Qed.

Lemma reaches_tree_ok fs : fs_reaches fs -> tree_ok fs.
Proof.
  induction 1 as [|fs l _ IH Hl|fs l _ IH Hl Hc|fs l _ IH Hl|fs l _ IH Hl Hne|fs l _ IH Hl Hk|fs h A f _ IH].
  - apply new_fs_ok.
  - by apply create_directory_ok.
  - by destruct (create_directory_all_spec fs l IH Hl Hc) as (fs' & -> & ? & _).
  - by apply create_file_ok.
  - destruct (tree fs !! key l) as [e|] eqn:E; [|unfold remove_directory_all; by rewrite E].
    destruct (remove_directory_all_spec fs l IH Hl Hne) as (fs' & -> & ? & _); [by eexists|done].
  - destruct (kind_at fs l) as [[i|]|] eqn:E; [|done|].
    + by destruct (remove_file_spec fs l i IH Hl E) as (fs' & -> & ? & _).
    + unfold kind_at in E. apply fmap_None in E. unfold remove_file. by rewrite E.
  - by apply handle_tree_ok.
Qed.

(** C27. Directories list what exists: in every file system reached through
    normalised paths, listing a directory returns, in order and without
    repetition, exactly the names under which something exists in it; listing a
    file is an invalid operation, and listing anything else a missing path. *)
Theorem memory_fs_listing fs l : fs_reaches fs -> segments_ok l ->
  match kind_at fs l with
  | Some None => exists ns, list_directory fs (key l) = Ok ns /\ StronglySorted String.le ns /\ NoDup ns /\
      forall n, n ∈ ns <-> segment_ok n /\ exists_ fs (key (l ++ [n])) = Ok true
  | Some (Some _) => list_directory fs (key l) = Err InvalidOperation
  | None => list_directory fs (key l) = Err PathMissing
  end.
Proof.
  intros Hr%reaches_tree_ok Hl. unfold kind_at, list_directory. destruct (tree fs !! key l) as [[names|i]|] eqn:E; [|done..]. cbn. eexists. split; [reflexivity|].
  split; [apply StronglySorted_merge_sort; apply _|]. split; [apply names_nodup|]. intros n. rewrite names_elem, (ok_names _ Hr l names Hl E n). unfold exists_.
  destruct (decide (is_Some (tree fs !! key (l ++ [n])))); [rewrite bool_decide_eq_true_2 by done|rewrite bool_decide_eq_false_2 by done]; naive_solver.
Qed.

(** C28. Removing a directory ends and removes its subtree, nothing else: the
    loop that collects the paths terminates, and afterwards exactly the paths
    below the removed one are gone; every other path is what it was. *)
Theorem memory_fs_remove_all fs l : fs_reaches fs -> segments_ok l -> l <> [] -> kind_at fs l <> None ->
  exists fs', remove_directory_all fs (key l) = (Ok tt, fs') /\ fs_reaches fs' /\
    forall q, segments_ok q -> kind_at fs' q = if decide (l `prefix_of` q) then None else kind_at fs q.
Proof.
  intros Hr Hl Hne Hk. destruct (remove_directory_all_spec fs l (reaches_tree_ok fs Hr) Hl Hne) as (fs' & Hrun & _ & Hq).
  - unfold kind_at in Hk. destruct (tree fs !! key l); [by eexists|done].
  - exists fs'. split; [done|]. split; [|done]. pose proof (fs_remove_directory_all fs l Hr Hl Hne) as H. by rewrite Hrun in H.
Qed.

(** [create_directory_all] makes the whole path a chain of directories and
    changes nothing else, when no file is on the way. *)
Theorem memory_fs_create_all fs l : fs_reaches fs -> segments_ok l -> clear_way fs l ->
  exists fs', create_directory_all fs (key l) = (Ok tt, fs') /\ fs_reaches fs' /\
    forall q, segments_ok q -> kind_at fs' q = if decide (q `prefix_of` l) then Some None else kind_at fs q.
Proof.
  intros Hr Hl Hc. destruct (create_directory_all_spec fs l (reaches_tree_ok fs Hr) Hl Hc) as (fs' & Hrun & _ & Hq).
  exists fs'. split; [done|]. split; [|done]. pose proof (fs_create_directory_all fs l Hr Hl Hc) as H. by rewrite Hrun in H.
Qed.

(** ** Concrete file systems *)

Module TreeDemo.

Definition a : t := (create_directory_all new (key ["a"; "b"])).2.
Definition b : t := (create_file a (key ["a"; "b"; "f"])).2.
Definition c : t := (create_directory b (key ["a"; "c"])).2.

Ltac segs := repeat constructor; by vm_compute.

Lemma new_clear l : clear_way new l.
Proof.
  intros q i _. unfold kind_at. cbn [tree new]. destruct (decide (key q = "/")) as [->|]; [by rewrite lookup_singleton_eq|by rewrite lookup_singleton_ne].
Qed.

Lemma c_reaches : fs_reaches c.
Proof.
  apply fs_create_directory; [|segs]. apply fs_create_file; [|segs]. apply fs_create_directory_all; [apply fs_new|segs|apply new_clear].
Qed.

Lemma memory_fs_listing_witness : exists ns, list_directory c (key ["a"]) = Ok ns /\ ns = ["b"; "c"].
Proof.
  destruct (memory_fs_listing c ["a"] c_reaches ltac:(segs)) as (ns & H & _). exists ns. split; [exact H|]. vm_compute in H. by injection H as <-.
Defined.

Lemma memory_fs_remove_all_witness : exists fs', remove_directory_all c (key ["a"; "b"]) = (Ok tt, fs') /\ kind_at fs' ["a"; "b"; "f"] = None /\ kind_at fs' ["a"; "c"] = Some None.
Proof.
  destruct (memory_fs_remove_all c ["a"; "b"] c_reaches ltac:(segs) ltac:(done) ltac:(by vm_compute)) as (fs' & Hrun & _ & Hq).
  exists fs'. split; [exact Hrun|]. split; [rewrite (Hq ["a"; "b"; "f"]) by segs|rewrite (Hq ["a"; "c"]) by segs]; by vm_compute.
Defined.

Lemma memory_fs_create_all_witness : exists fs', create_directory_all new (key ["x"; "y"]) = (Ok tt, fs') /\ kind_at fs' ["x"] = Some None.
Proof.
  destruct (memory_fs_create_all new ["x"; "y"] fs_new ltac:(segs) (new_clear _)) as (fs' & Hrun & _ & Hq).
  exists fs'. split; [exact Hrun|]. rewrite (Hq ["x"]) by segs. by vm_compute.
Defined.

(** Outside of these conditions the tree comes apart. *)

(** A directory made below a file is not listed anywhere. *)
Lemma directory_below_file :
  let fs := (create_directory_all b "/a/b/f/d").2 in
  is_directory fs "/a/b/f/d" = Ok true /\ is_file fs "/a/b/f" = Ok true.
Proof. by vm_compute. Qed.

(** [remove_file] removes a directory and leaves what was in it. *)
Lemma file_outlives_directory :
  let '(r, fs) := remove_file c "/a/b" in
  r = Ok tt /\ exists_ fs "/a/b" = Ok false /\ exists_ fs "/a/b/f" = Ok true.
Proof. by vm_compute. Qed.

(** A path that is not normalised is stored as it is written, and listed as if
    it had been normalised. *)
Lemma unnormalised_path :
  let fs := (create_file c "/a//x").2 in
  list_directory fs "/a" = Ok ["b"; "c"; "x"] /\ exists_ fs "/a/x" = Ok false /\ exists_ fs "/a//x" = Ok true.
Proof. by vm_compute. Qed.

(** Removing the root leaves a file system in which nothing can be created. *)
Lemma no_root :
  let fs := (remove_directory_all c "/").2 in
  (create_directory fs "/d").1 = Err PathMissing /\ (create_file fs "/f").1 = Err PathMissing.
Proof. by vm_compute. Qed.
End TreeDemo.
