(* ===== verification/VfsCompose.v ===== *)
(** * File systems made of file systems

    Models nanograph-vfs/src/overlayfs.rs, mountingfs.rs and manager.rs: layers,
    mount points and schemes.  They hold other file systems behind [Arc], and
    one file system may be reached in several ways, so there is one table of
    file systems and a composition holds numbers that refer to it.  The file
    systems are behind an interface, [FileSystem]; the in-memory one is an
    instance.  The handles a composition returns forward to the handle they
    wrap. *)

From Stdlib Require Import ZArith Lia Ascii String.
From stdpp Require Import sorting gmap option strings base list.
From S2P Require Import Prelude VfsFile VfsPath VfsMemory VfsTree.

Open Scope Z_scope.

(** The trait [FileSystem], with handles of type [H]. *)
Class FileSystem (FS H : Type) : Type := {
  exists_at : FS -> string -> fs_result bool;
  is_file_at : FS -> string -> fs_result bool;
  is_directory_at : FS -> string -> fs_result bool;
  filesize_at : FS -> string -> fs_result Z;
  create_directory_at : FS -> string -> fs_result unit * FS;
  create_directory_all_at : FS -> string -> fs_result unit * FS;
  list_directory_at : FS -> string -> fs_result (list string);
  remove_directory_at : FS -> string -> fs_result unit * FS;
  remove_directory_all_at : FS -> string -> fs_result unit * FS;
  create_file_at : FS -> string -> fs_result H * FS;
  open_file_at : FS -> string -> fs_result H;
  remove_file_at : FS -> string -> fs_result unit * FS
}.

#[export] Instance memory_file_system : FileSystem MemoryFileSystem.t MemoryFileSystem.handle := {|
  exists_at := MemoryFileSystem.exists_;
  is_file_at := MemoryFileSystem.is_file;
  is_directory_at := MemoryFileSystem.is_directory;
  filesize_at := MemoryFileSystem.filesize;
  create_directory_at := MemoryFileSystem.create_directory;
  create_directory_all_at := MemoryFileSystem.create_directory_all;
  list_directory_at := MemoryFileSystem.list_directory;
  remove_directory_at := MemoryFileSystem.remove_directory;
  remove_directory_all_at := MemoryFileSystem.remove_directory_all;
  create_file_at := MemoryFileSystem.create_file;
  open_file_at := MemoryFileSystem.open_file;
  remove_file_at := MemoryFileSystem.remove_file
|}.

Section world.
Context {FS H : Type} `{!FileSystem FS H}.

(** Every file system there is. *)
Abbreviation world := (gmap Z FS).
Implicit Types (w : world) (path : string).

Definition ask {A} w (id : Z) (f : FS -> fs_result A) : fs_result A := let! fs := or_panic (w !! id) in f fs.

Definition change {A} w (id : Z) (f : FS -> fs_result A * FS) : fs_result A * world :=
  match w !! id with
  | Some fs => let '(r, fs') := f fs in (r, <[id := fs']> w)
  | None => (Panic, w)
  end.

(** A change of the file system found by a search that may fail. *)
Definition change_found {A} w (found : fs_result Z) (f : FS -> fs_result A * FS) : fs_result A * world :=
  match found with
  | Ok id => change w id f
  | Err x => (Err x, w)
  | Panic => (Panic, w)
  | Timeout => (Timeout, w)
  end.
End world.
Abbreviation world FS := (gmap Z FS).

(** ** Layers *)

Module OverlayFilesystem.

(** The layers, the top one first. *)
Record t : Type := mk { layers : list Z }.

Definition new (l : list Z) : t := mk l.
Definition add_layer (o : t) (layer : Z) : t := mk (layers o ++ [layer]).

Section overlay.
Context {FS H : Type} `{!FileSystem FS H}.
Implicit Types (w : world FS) (o : t) (path : string).

(** [find] with [unwrap_or(false)]. *)
Fixpoint find_in w (l : list Z) path : option Z :=
  match l with
  | [] => None
  | id :: l' => match ask w id (fun fs => exists_at fs path) with Ok true => Some id | _ => find_in w l' path end
  end.
Definition find_layer w o path : option Z := find_in w (layers o) path.

Definition upper o : fs_result Z :=
  match layers o with id :: _ => Ok id | [] => Err (InternalError "OverlayFilesystem must have at least one layer") end.

Fixpoint exists_in w (l : list Z) path : fs_result bool :=
  match l with
  | [] => Ok false
  | id :: l' => let! found := ask w id (fun fs => exists_at fs path) in if (found : bool) then Ok true else exists_in w l' path
  end.
Definition exists_ w o path : fs_result bool := exists_in w (layers o) path.

Definition is_file w o path : fs_result bool :=
  match find_layer w o path with Some id => ask w id (fun fs => is_file_at fs path) | None => Ok false end.
Definition is_directory w o path : fs_result bool :=
  match find_layer w o path with Some id => ask w id (fun fs => is_directory_at fs path) | None => Ok false end.
Definition filesize w o path : fs_result Z :=
  match find_layer w o path with Some id => ask w id (fun fs => filesize_at fs path) | None => Err PathMissing end.

(** The names of one layer, when it has the directory. *)
Definition layer_names w (id : Z) path : fs_result (option (list string)) :=
  let! found := ask w id (fun fs => exists_at fs path) in
  if negb found then Ok None
  else
    let! dir := ask w id (fun fs => is_directory_at fs path) in
    if negb dir then Ok None else let! names := ask w id (fun fs => list_directory_at fs path) in Ok (Some names).

Fixpoint names_in w (l : list Z) path : fs_result (bool * gset string) :=
  match l with
  | [] => Ok (false, ∅)
  | id :: l' =>
      let! names := layer_names w id path in
      let! rest := names_in w l' path in
      Ok (match names with Some ns => (true, list_to_set ns ∪ rest.2) | None => rest end)
  end.

Definition list_directory w o path : fs_result (list string) :=
  let! found := names_in w (layers o) path in
  if found.1 then Ok (MemoryFileSystem.sorted_names found.2) else Err PathMissing.

Definition create_directory w o path : fs_result unit * world FS := change_found w (upper o) (fun fs => create_directory_at fs path).
Definition create_directory_all w o path : fs_result unit * world FS := change_found w (upper o) (fun fs => create_directory_all_at fs path).
Definition remove_directory w o path : fs_result unit * world FS := change_found w (upper o) (fun fs => remove_directory_at fs path).
Definition remove_directory_all w o path : fs_result unit * world FS := change_found w (upper o) (fun fs => remove_directory_all_at fs path).
Definition create_file w o path : fs_result H * world FS := change_found w (upper o) (fun fs => create_file_at fs path).
Definition remove_file w o path : fs_result unit * world FS := change_found w (upper o) (fun fs => remove_file_at fs path).

(** The file system whose handle is returned comes with it: the handle's own
    methods act there. *)
Definition open_file w o path : fs_result (Z * H) :=
  match find_layer w o path with
  | Some id => let! h := ask w id (fun fs => open_file_at fs path) in Ok (id, h)
  | None => Err PathMissing
  end.
End overlay.

End OverlayFilesystem.

(** ** Mount points *)

Fixpoint strip_prefix (m s : string) : option string :=
  match m, s with
  | EmptyString, _ => Some s
  | String a m', String b s' => if decide (a = b) then strip_prefix m' s' else None
  | String _ _, EmptyString => None
  end.

Fixpoint ends_with_slash (s : string) : bool :=
  match s with
  | EmptyString => false
  | String c EmptyString => bool_decide (c = slash)
  | String _ s' => ends_with_slash s'
  end.

Module MountableFilesystem.

Record t : Type := mk { mounts : gmap string Z }.

Definition new : t := mk ∅.
Definition mount (m : t) (path : string) (id : Z) : t := mk (<[path := id]> (mounts m)).
Definition unmount (m : t) (path : string) : t := mk (base.delete path (mounts m)).

(** [iter().rev()]: mount points in descending byte order. *)
Definition descending (m : t) : list string := rev (merge_sort String.le (map_to_list (mounts m)).*1).

(** What a path is below one mount point, [None] when it is not below it. *)
Definition relative_to (mount_path path : string) : option string :=
  if decide (path = mount_path) then Some "/"
  else
    rel ← strip_prefix mount_path path;
    if bool_decide (mount_path = "") || bool_decide (mount_path = "/") || ends_with_slash mount_path || starts_with_slash rel
    then Some (if decide (rel = "") then "/" else if negb (starts_with_slash rel) then "/" +:+ rel else rel)
    else None.

Fixpoint find_in (m : t) (mount_paths : list string) (path : string) : fs_result (Z * string) :=
  match mount_paths with
  | [] => Err PathMissing
  | mp :: rest =>
      match relative_to mp path with
      | Some rel => let! id := or_panic (mounts m !! mp) in Ok (id, rel)
      | None => find_in m rest path
      end
  end.

Definition find_mount (m : t) (path : string) : fs_result (Z * string) := find_in m (descending m) path.

Section mounting.
Context {FS H : Type} `{!FileSystem FS H}.
Implicit Types (w : world FS) (m : t) (path : string).

Definition query {A} w m path (f : FS -> string -> fs_result A) : fs_result A :=
  let! found := find_mount m path in ask w found.1 (fun fs => f fs found.2).

Definition update {A} w m path (f : FS -> string -> fs_result A * FS) : fs_result A * world FS :=
  match find_mount m path with
  | Ok found => change w found.1 (fun fs => f fs found.2)
  | Err x => (Err x, w)
  | Panic => (Panic, w)
  | Timeout => (Timeout, w)
  end.

Definition exists_ w m path : fs_result bool := query w m path exists_at.
Definition is_file w m path : fs_result bool := query w m path is_file_at.
Definition is_directory w m path : fs_result bool := query w m path is_directory_at.
Definition filesize w m path : fs_result Z := query w m path filesize_at.
Definition list_directory w m path : fs_result (list string) := query w m path list_directory_at.
Definition open_file w m path : fs_result H := query w m path open_file_at.
Definition create_directory w m path : fs_result unit * world FS := update w m path create_directory_at.
Definition create_directory_all w m path : fs_result unit * world FS := update w m path create_directory_all_at.
Definition remove_directory w m path : fs_result unit * world FS := update w m path remove_directory_at.
Definition remove_directory_all w m path : fs_result unit * world FS := update w m path remove_directory_all_at.
Definition create_file w m path : fs_result H * world FS := update w m path create_file_at.
Definition remove_file w m path : fs_result unit * world FS := update w m path remove_file_at.
End mounting.

End MountableFilesystem.

(** ** Schemes *)

Module FileSystemManager.

Record t : Type := mk { filesystems : gmap string Z }.

Definition new : t := mk ∅.
Definition register (m : t) (scheme : string) (id : Z) : t := mk (<[scheme := id]> (filesystems m)).
Definition deregister (m : t) (scheme : string) : t := mk (base.delete scheme (filesystems m)).

(** [todo!]. *)
Definition set_default_scheme (m : t) (_ : string) : fs_result unit * t := (Panic, m).

Definition resolve (m : t) (path : string) : option Z := filesystems m !! default "default" (Path.scheme (Path.parse path)).

Section manager.
Context {FS H : Type} `{!FileSystem FS H}.
Implicit Types (w : world FS) (m : t) (path : string).

(** The file system is given the whole path, scheme included. *)
Definition query {A} w m path (f : FS -> string -> fs_result A) : fs_result A :=
  let! id := ok_or (resolve m path) PathMissing in ask w id (fun fs => f fs path).
Definition update {A} w m path (f : FS -> string -> fs_result A * FS) : fs_result A * world FS :=
  change_found w (ok_or (resolve m path) PathMissing) (fun fs => f fs path).

Definition exists_ w m path : fs_result bool := query w m path exists_at.
Definition is_file w m path : fs_result bool := query w m path is_file_at.
Definition is_directory w m path : fs_result bool := query w m path is_directory_at.
Definition filesize w m path : fs_result Z := query w m path filesize_at.
Definition list_directory w m path : fs_result (list string) := query w m path list_directory_at.
Definition open_file w m path : fs_result H := query w m path open_file_at.
Definition create_directory w m path : fs_result unit * world FS := update w m path create_directory_at.
Definition create_directory_all w m path : fs_result unit * world FS := update w m path create_directory_all_at.
Definition remove_directory w m path : fs_result unit * world FS := update w m path remove_directory_at.
Definition remove_directory_all w m path : fs_result unit * world FS := update w m path remove_directory_all_at.
Definition create_file w m path : fs_result H * world FS := update w m path create_file_at.
Definition remove_file w m path : fs_result unit * world FS := update w m path remove_file_at.
End manager.

End FileSystemManager.

(** ** Mount points: the longest match *)

Lemma le_refl_string s : String.le s s.
Proof. reflexivity. Qed.

Lemma compare_cons c x y : String.compare (String c x) (String c y) = String.compare x y.
Proof. cbn. unfold Ascii.compare. by rewrite N.compare_refl. Qed.

(** Of two prefixes of a string the shorter one is the smaller one. *)
Lemma prefixes_ordered m1 : forall m2 s, is_Some (strip_prefix m1 s) -> is_Some (strip_prefix m2 s) -> (String.length m1 <= String.length m2)%nat -> String.le m1 m2.
Proof.
  induction m1 as [|a m1 IH]; intros m2 s H1 H2 Hlen; [by destruct m2|].
  destruct s as [|c s]; [by destruct H1|]. destruct m2 as [|b m2]; [cbn in Hlen; lia|]. cbn [strip_prefix] in H1, H2.
  case_decide as E1; [|by destruct H1]. case_decide as E2; [|by destruct H2]. subst a b. unfold String.le, String.leb. rewrite compare_cons.
  apply (IH m2 s H1 H2). cbn in Hlen. lia.
Qed.

Lemma strip_prefix_self s : strip_prefix s s = Some "".
Proof. induction s as [|c s IH]; [done|]. cbn. by rewrite decide_True. Qed.

Lemma relative_prefix m path : is_Some (MountableFilesystem.relative_to m path) -> is_Some (strip_prefix m path).
Proof.
  unfold MountableFilesystem.relative_to. case_decide as E; [subst; rewrite strip_prefix_self; by eexists|]. destruct (strip_prefix m path); [by eexists|by intros [? [=]]].
Qed.

Lemma relative_absolute m path rel : MountableFilesystem.relative_to m path = Some rel -> starts_with_slash rel = true.
Proof.
  unfold MountableFilesystem.relative_to. case_decide; [by intros [= <-]|]. destruct (strip_prefix m path) as [r|]; [|done]. cbn [mbind option_bind]. destruct (_ || _ || _ || _); [|done]. intros [= <-].
  case_decide; [done|]. by destruct (starts_with_slash r) eqn:E.
Qed.

Lemma find_in_spec m l path : StronglySorted (fun a b => String.le b a) l -> Forall (fun mp => is_Some (MountableFilesystem.mounts m !! mp)) l ->
  (exists mp id rel, mp ∈ l /\ MountableFilesystem.mounts m !! mp = Some id /\ MountableFilesystem.relative_to mp path = Some rel /\
     MountableFilesystem.find_in m l path = Ok (id, rel) /\
     forall mp', mp' ∈ l -> is_Some (MountableFilesystem.relative_to mp' path) -> String.le mp' mp) \/
  (MountableFilesystem.find_in m l path = Err PathMissing /\ forall mp, mp ∈ l -> MountableFilesystem.relative_to mp path = None).
Proof.
  induction 1 as [|mp l Hs IH Hle]; intros Hm; [right; split; [done|]; by intros ? ?%not_elem_of_nil|]. apply Forall_cons in Hm as [[id Hid] Hm].
  cbn [MountableFilesystem.find_in]. destruct (MountableFilesystem.relative_to mp path) as [rel|] eqn:E.
  - left. exists mp, id, rel. rewrite Hid. split_and!; [by left|done..|]. intros mp' [->|Hin]%elem_of_cons _; [apply le_refl_string|]. rewrite Forall_forall in Hle. by apply Hle.
  - destruct (IH Hm) as [(mp1 & id1 & rel1 & Hin & Hid1 & Hrel & Hf & Hmax)|[Hf Hall]]; [left|right].
    + exists mp1, id1, rel1. split_and!; [by right|done..|]. intros mp' [->|Hin']%elem_of_cons Hr; [destruct Hr; congruence|by apply Hmax].
    + split; [done|]. intros mp' [->|Hin]%elem_of_cons; [done|by apply Hall].
Qed.

Lemma rev_elem {A} (x : A) l : x ∈ rev l <-> x ∈ l.
Proof. by rewrite !list_elem_of_In, <- in_rev. Qed.

Lemma rev_sorted (l : list string) : StronglySorted String.le l -> StronglySorted (fun a b => String.le b a) (rev l).
Proof.
  induction 1 as [|x l Hs IH Hx]; [constructor|]. cbn. apply StronglySorted_app; split_and!; [|done|repeat constructor].
  intros a b Ha ->%list_elem_of_singleton. rewrite Forall_forall in Hx. apply Hx. by apply rev_elem.
Qed.

Lemma descending_elem m mp : mp ∈ MountableFilesystem.descending m <-> is_Some (MountableFilesystem.mounts m !! mp).
Proof.
  unfold MountableFilesystem.descending. rewrite rev_elem, merge_sort_Permutation, list_elem_of_fmap. split.
  - intros ([k v] & -> & H%elem_of_map_to_list). by eexists.
  - intros [v Hv]. exists (mp, v). split; [done|]. by apply elem_of_map_to_list.
Qed.

(** A path goes to the longest mount point it is below: the search either
    finds a mount point that matches and is at least as long as every other one
    that matches, and hands on an absolute path, or no mount point matches and
    the path is missing. *)
Theorem mount_longest_match m path :
  (exists mp id rel, MountableFilesystem.mounts m !! mp = Some id /\ MountableFilesystem.relative_to mp path = Some rel /\
     MountableFilesystem.find_mount m path = Ok (id, rel) /\ starts_with_slash rel = true /\
     forall mp', is_Some (MountableFilesystem.mounts m !! mp') -> is_Some (MountableFilesystem.relative_to mp' path) ->
       (String.length mp' <= String.length mp)%nat) \/
  (MountableFilesystem.find_mount m path = Err PathMissing /\
   forall mp, is_Some (MountableFilesystem.mounts m !! mp) -> MountableFilesystem.relative_to mp path = None).
Proof.
  unfold MountableFilesystem.find_mount. destruct (find_in_spec m (MountableFilesystem.descending m) path) as [(mp & id & rel & Hin & Hid & Hrel & Hf & Hmax)|[Hf Hall]].
  - apply rev_sorted, StronglySorted_merge_sort; apply _.
  - apply Forall_forall. intros mp. by rewrite descending_elem.
  - left. exists mp, id, rel. split_and!; [done..|by eapply relative_absolute|]. intros mp' Hmp' Hrel'. apply descending_elem in Hmp'. pose proof (Hmax mp' Hmp' Hrel') as Hle.
    destruct (decide (String.length mp' <= String.length mp)%nat) as [|Hgt]; [done|]. exfalso.
    assert (Hle' : String.le mp mp') by (apply (prefixes_ordered mp mp' path); [apply relative_prefix; by eexists|by apply relative_prefix|lia]).
    apply Hgt. by rewrite (anti_symm String.le mp mp' Hle' Hle).
  - right. split; [done|]. intros mp Hmp. by apply Hall, descending_elem.
Qed.

(** ** Layers of in-memory file systems *)

Section overlay.
Abbreviation mem := MemoryFileSystem.t.
Implicit Types (w : world mem) (o : OverlayFilesystem.t).

Definition layers_ok w (l : list Z) : Prop := Forall (fun id => exists fs, w !! id = Some fs /\ fs_reaches fs) l.

Lemma overlay_exists w l path : layers_ok w l ->
  exists b, OverlayFilesystem.exists_in w l path = Ok b /\
    (b = true <-> exists id fs, id ∈ l /\ w !! id = Some fs /\ MemoryFileSystem.exists_ fs path = Ok true).
Proof.
  induction 1 as [|id l (fs & Hfs & _) Hl IH]; [exists false; split; [done|]; split; [done|]; by intros (? & ? & ?%not_elem_of_nil & _)|].
  cbn [OverlayFilesystem.exists_in]. unfold ask. rewrite Hfs. cbn [or_panic rbind exists_at memory_file_system]. unfold MemoryFileSystem.exists_ at 1. cbn [rbind]. case_bool_decide as E.
  - exists true. split; [done|]. split; [|done]. intros _. exists id, fs. split_and!; [by left|done|]. unfold MemoryFileSystem.exists_. by rewrite bool_decide_eq_true_2.
  - destruct IH as (b & -> & Hb). exists b. split; [done|]. rewrite Hb. split; intros (id' & fs' & Hin & Hfs' & He); exists id', fs'; split_and!; try done; [by right|].
    apply elem_of_cons in Hin as [->|]; [|done]. rewrite Hfs in Hfs'. injection Hfs' as <-. unfold MemoryFileSystem.exists_ in He. by rewrite bool_decide_eq_false_2 in He.
Qed.

Lemma layer_names_spec w id fs q : w !! id = Some fs -> fs_reaches fs -> segments_ok q ->
  match OverlayFilesystem.layer_names w id (key q) with
  | Ok (Some ns) => kind_at fs q = Some None /\ forall n, n ∈ ns <-> segment_ok n /\ MemoryFileSystem.exists_ fs (key (q ++ [n])) = Ok true
  | Ok None => kind_at fs q <> Some None
  | _ => False
  end.
Proof.
  intros Hfs Hr Hq. pose proof (reaches_tree_ok fs Hr) as Hok. unfold OverlayFilesystem.layer_names, ask. rewrite Hfs. cbn [or_panic rbind exists_at is_directory_at list_directory_at memory_file_system].
  unfold MemoryFileSystem.exists_ at 1, MemoryFileSystem.is_directory, MemoryFileSystem.list_directory, kind_at. cbn [rbind].
  destruct (MemoryFileSystem.tree fs !! key q) as [[names|i]|] eqn:E; cbn; try done. split; [done|]. intros n. rewrite names_elem, (ok_names _ Hok q names Hq E n). unfold MemoryFileSystem.exists_.
  destruct (decide (is_Some (MemoryFileSystem.tree fs !! key (q ++ [n])))); [rewrite bool_decide_eq_true_2 by done|rewrite bool_decide_eq_false_2 by done]; naive_solver.
Qed.

Lemma overlay_names w l q : layers_ok w l -> segments_ok q ->
  exists b ns, OverlayFilesystem.names_in w l (key q) = Ok (b, ns) /\
    (b = true <-> exists id fs, id ∈ l /\ w !! id = Some fs /\ kind_at fs q = Some None) /\
    forall n, n ∈ ns <-> segment_ok n /\ exists id fs, id ∈ l /\ w !! id = Some fs /\ MemoryFileSystem.exists_ fs (key (q ++ [n])) = Ok true.
Proof.
  intros Hl Hq. induction Hl as [|id l (fs & Hfs & Hr) Hl (b & ns & Hn & Hb & Hns)].
  - exists false, ∅. split; [done|]. split; [split; [done|]; by intros (? & ? & ?%not_elem_of_nil & _)|]. intros n. split; [by intros ?%not_elem_of_empty|]. by intros (_ & ? & ? & ?%not_elem_of_nil & _).
  - cbn [OverlayFilesystem.names_in]. pose proof (layer_names_spec w id fs q Hfs Hr Hq) as Hspec. destruct (OverlayFilesystem.layer_names w id (key q)) as [[ms|]| | |]; try done; rewrite Hn; cbn [rbind].
    + destruct Hspec as [Hk Hms]. exists true, (list_to_set ms ∪ ns). split; [done|]. split; [split; [|done]; intros _; exists id, fs; split_and!; [by left|done..]|].
      intros n. rewrite elem_of_union, elem_of_list_to_set, Hms, Hns. split.
      * intros [[Hn0 He]|[Hn0 (id' & fs' & Hin & ? & ?)]]; (split; [done|]); [exists id, fs|exists id', fs']; (split_and!; [|done..]); [by left|by right].
      * intros [Hn0 (id' & fs' & [->|Hin]%elem_of_cons & Hfs' & He)]; [left; rewrite Hfs in Hfs'; by injection Hfs' as <-|right; split; [done|]; by exists id', fs'].
    + exists b, ns. split; [done|]. split.
      * rewrite Hb. split; intros (id' & fs' & Hin & Hfs' & Hk); exists id', fs'; (split_and!; [|done..]); [by right|]. apply elem_of_cons in Hin as [->|]; [|done]. rewrite Hfs in Hfs'. by injection Hfs' as <-.
      * intros n. rewrite Hns. split; intros [Hn0 (id' & fs' & Hin & Hfs' & He)]; (split; [done|]); exists id', fs'; (split_and!; [|done..]); [by right|].
        apply elem_of_cons in Hin as [->|]; [|done]. rewrite Hfs in Hfs'. injection Hfs' as <-. exfalso. apply Hspec. apply kind_directory.
        unfold MemoryFileSystem.exists_ in He. injection He as [e He]%bool_decide_eq_true_1. eapply (ok_parents _ (reaches_tree_ok fs Hr)); [|exact He]. by apply segments_snoc.
Qed.

(** C30. An overlay of in-memory file systems shows the union of its layers: a
    path exists when a layer has it, and listing a directory that some layer
    has returns exactly the names under which the overlay has something.  Every
    operation that creates or removes leaves all layers but the top one as they
    were. *)
Theorem overlay_union w o q : layers_ok w (OverlayFilesystem.layers o) -> segments_ok q ->
  (forall id fs, id ∈ OverlayFilesystem.layers o -> w !! id = Some fs -> kind_at fs q = Some None ->
   exists ns, OverlayFilesystem.list_directory w o (key q) = Ok ns /\ NoDup ns /\
     forall n, n ∈ ns <-> segment_ok n /\ OverlayFilesystem.exists_ w o (key (q ++ [n])) = Ok true) /\
  (forall top path id, OverlayFilesystem.upper o = Ok top -> id <> top ->
   (OverlayFilesystem.create_directory w o path).2 !! id = w !! id /\ (OverlayFilesystem.create_directory_all w o path).2 !! id = w !! id /\
   (OverlayFilesystem.create_file w o path).2 !! id = w !! id /\ (OverlayFilesystem.remove_file w o path).2 !! id = w !! id /\
   (OverlayFilesystem.remove_directory_all w o path).2 !! id = w !! id).
Proof.
  intros Hl Hq. split.
  - intros id fs Hin Hfs Hk. destruct (overlay_names w _ q Hl Hq) as (b & ns & Hn & Hb & Hns). unfold OverlayFilesystem.list_directory. rewrite Hn. cbn [rbind fst snd].
    replace b with true by (symmetry; apply Hb; by exists id, fs). eexists. split; [reflexivity|]. split; [apply names_nodup|]. intros n. rewrite names_elem, Hns.
    destruct (overlay_exists w _ (key (q ++ [n])) Hl) as (b' & He & Hb'). unfold OverlayFilesystem.exists_. rewrite He, <- Hb'. split; intros [? ?]; (split; [done|congruence]).
  - intros top path id Htop Hne. unfold OverlayFilesystem.create_directory, OverlayFilesystem.create_directory_all, OverlayFilesystem.create_file, OverlayFilesystem.remove_file,
      OverlayFilesystem.remove_directory_all, change_found, change. rewrite Htop. destruct (w !! top) as [fs|] eqn:E; [|done].
    split_and!; match goal with |- context [let '(_, _) := ?x in _] => destruct x end; cbn [snd]; by apply lookup_insert_ne.
Qed.
End overlay.

(** ** Schemes *)

(** The manager passes the path on with its scheme, and an in-memory file
    system looks parents up as they are written: below a path with a scheme
    nothing can be created there, whatever has been created before. *)
Theorem scheme_paths_missing fs path : fs_reaches fs -> Path.scheme (Path.parse path) <> None -> Path.segments (Path.parse path) <> [] ->
  (MemoryFileSystem.create_file fs path).1 = Err PathMissing /\ (MemoryFileSystem.create_directory fs path).1 = Err PathMissing.
Proof.
  intros Hr%reaches_tree_ok Hs Hn. set (p := Path.parse path) in *.
  assert (Hkey : forall s, Path.scheme (Path.parse s) <> None -> MemoryFileSystem.tree fs !! s = None).
  { intros s Hsch. destruct (MemoryFileSystem.tree fs !! s) as [e|] eqn:E; [|done]. destruct (ok_keys _ Hr s e E) as (l & Hl & ->). by rewrite parse_key in Hsch. }
  assert (Hpar : MemoryFileSystem.register (MemoryFileSystem.tree fs) p = Err PathMissing).
  { unfold MemoryFileSystem.register. destruct (Path.segments p) as [|x l] eqn:El; [done|]. rewrite Hkey; [done|]. rewrite parse_to_string.
    - unfold Path.parent. by rewrite El.
    - destruct (parse_ok path) as (H1 & H2 & H3). fold p in H1, H2, H3. unfold Path.parent. rewrite El. split_and!; [|done..]. cbn [Path.segments Path.set_segments]. rewrite El in *.
      apply Forall_forall. intros y Hy. rewrite Forall_forall in H1. by apply H1, removelast_elem. }
  unfold MemoryFileSystem.create_file, MemoryFileSystem.create_directory. rewrite Hkey by done. fold p. by rewrite Hpar.
Qed.

(** ** Concrete compositions *)

Module ComposeDemo.

(** A top layer with a directory of its own over the tree of [TreeDemo]. *)
Definition top : MemoryFileSystem.t := (MemoryFileSystem.create_directory_all MemoryFileSystem.new (key ["a"; "d"])).2.
Definition w : world MemoryFileSystem.t := {[ 1 := top; 2 := TreeDemo.c ]}.
Definition o : OverlayFilesystem.t := OverlayFilesystem.add_layer (OverlayFilesystem.new [1]) 2.

Lemma top_reaches : fs_reaches top.
Proof. apply fs_create_directory_all; [apply fs_new|TreeDemo.segs|apply TreeDemo.new_clear]. Qed.

Lemma w_layers : layers_ok w (OverlayFilesystem.layers o).
Proof.
  apply Forall_cons; split; [|apply Forall_singleton]; [exists top; split; [unfold w; by rewrite lookup_insert_eq|apply top_reaches]|exists TreeDemo.c; split; [unfold w; by rewrite lookup_insert_ne, lookup_singleton_eq|apply TreeDemo.c_reaches]].
Qed.

Lemma overlay_union_witness : exists ns, OverlayFilesystem.list_directory w o (key ["a"]) = Ok ns /\ NoDup ns /\ ns = ["b"; "c"; "d"].
Proof.
  destruct (overlay_union w o ["a"] w_layers ltac:(TreeDemo.segs)) as [H _].
  destruct (H 1 top ltac:(vm_compute; by left) ltac:(unfold w; by rewrite lookup_insert_eq) ltac:(by vm_compute)) as (ns & Hl & Hn & _).
  exists ns. split; [exact Hl|]. split; [exact Hn|]. vm_compute in Hl. by injection Hl as <-.
Defined.

Lemma scheme_paths_missing_witness : (MemoryFileSystem.create_file TreeDemo.c "memory:///a/x").1 = Err PathMissing.
Proof. exact (proj1 (scheme_paths_missing TreeDemo.c "memory:///a/x" TreeDemo.c_reaches ltac:(by vm_compute) ltac:(by vm_compute))). Defined.

(** What a lower layer has cannot be removed, or hidden. *)
Lemma lower_layer_stays :
  (OverlayFilesystem.remove_file w o "/a/b/f").1 = Err PathMissing /\ OverlayFilesystem.exists_ w o "/a/b/f" = Ok true.
Proof. by vm_compute. Qed.

(** A file of a lower layer is opened where it is, so that writing through the
    handle changes that layer. *)
Lemma lower_layer_opened : exists h, OverlayFilesystem.open_file w o "/a/b/f" = Ok (2, h).
Proof. eexists. vm_compute. reflexivity. Qed.

(** The longest mount point, whatever the order of mounting. *)
Definition m : MountableFilesystem.t :=
  MountableFilesystem.mount (MountableFilesystem.mount (MountableFilesystem.mount MountableFilesystem.new "/data" 2) "/" 1) "/data/log" 3.

Lemma mounted :
  MountableFilesystem.find_mount m "/data/log/x" = Ok (3, "/x") /\ MountableFilesystem.find_mount m "/data/logs" = Ok (2, "/logs") /\
  MountableFilesystem.find_mount m "/database" = Ok (1, "/database") /\ MountableFilesystem.find_mount MountableFilesystem.new "/x" = Err PathMissing.
Proof. by vm_compute. Qed.
End ComposeDemo.
