(* ===== verification/Integrity.v ===== *)
(** * Integrity, compression and encryption algorithms

    Models nanograph-util/src/integrity.rs, the algorithms of compression.rs
    and the tags of encryption.rs.  The hash functions come from the crc and
    xxhash crates and the codecs from the lz4, zstd and snap crates: they are
    parameters ([Hashes], [Codecs]) with their documented laws. *)

From Stdlib Require Import ZArith Lia.
From stdpp Require Import option strings base list.
From S2P Require Import Prelude.

Open Scope Z_scope.

Inductive IntegrityAlgorithm : Type := NoIntegrity | Crc32c | XXHash32.
Inductive IntegrityHash : Type := NoHash | Hash32 (v : Z).
Inductive CompressionAlgorithm : Type := NoCompression | Lz4 | Zstd | Snappy.
Inductive EncryptionAlgorithm : Type := NoEncryption | Aes256Gcm | ChaCha20Poly1305.

#[global] Instance IntegrityAlgorithm_eq_dec : EqDecision IntegrityAlgorithm.
Proof. solve_decision. Defined.
#[global] Instance IntegrityHash_eq_dec : EqDecision IntegrityHash.
Proof. solve_decision. Defined.
#[global] Instance CompressionAlgorithm_eq_dec : EqDecision CompressionAlgorithm.
Proof. solve_decision. Defined.
#[global] Instance EncryptionAlgorithm_eq_dec : EqDecision EncryptionAlgorithm.
Proof. solve_decision. Defined.

Inductive UtilError : Type :=
| InvalidAlgorithm (v : Z)
| IntegrityCheckFailed (expected actual : Z).

Module Integrity.
Definition as_u8 (a : IntegrityAlgorithm) : Z := match a with NoIntegrity => 0 | Crc32c => 1 | XXHash32 => 2 end.
Definition from_u8 (v : Z) : option IntegrityAlgorithm :=
  if v =? 0 then Some NoIntegrity else if v =? 1 then Some Crc32c else if v =? 2 then Some XXHash32 else None.
Definition name (a : IntegrityAlgorithm) : string :=
  match a with NoIntegrity => "none" | Crc32c => "crc32c" | XXHash32 => "xxhash32" end.
Definition hash_size (a : IntegrityAlgorithm) : nat := match a with NoIntegrity => 0 | _ => 4 end.

Definition to_bytes (h : IntegrityHash) : list Z := match h with NoHash => [] | Hash32 v => le_bytes 4 v end.

Definition from_bytes (a : IntegrityAlgorithm) (b : list Z) : result UtilError IntegrityHash :=
  match a with
  | NoIntegrity => if (length b =? 0)%nat then Ok NoHash else Err (InvalidAlgorithm (as_u8 a))
  | _ => if (length b =? 4)%nat then Ok (Hash32 (le_value b)) else Err (InvalidAlgorithm (as_u8 a))
  end.

Definition as_u32 (h : IntegrityHash) : option Z := match h with Hash32 v => Some v | NoHash => None end.

(** The checksum crates. *)
Class Hashes : Type := { crc : list Z -> Z; xxh32 : list Z -> Z }.

(** They return a [u32]. *)
Class HashLaws `{!Hashes} : Prop := {
  crc_u32 d : 0 <= crc d < 2 ^ 32;
  xxh32_u32 d : 0 <= xxh32 d < 2 ^ 32
}.

Section hash.
Context `{!Hashes}.

Definition hash (a : IntegrityAlgorithm) (data : list Z) : IntegrityHash :=
  match a with
  | NoIntegrity => NoHash
  | Crc32c => Hash32 (crc data)
  | XXHash32 => Hash32 (xxh32 data)
  end.

Definition verify (a : IntegrityAlgorithm) (data : list Z) (expected : IntegrityHash) : result UtilError unit :=
  if decide (hash a data = expected) then Ok tt
  else
    match expected, hash a data with
    | Hash32 e, Hash32 act => Err (IntegrityCheckFailed e act)
    | _, _ => Err (IntegrityCheckFailed 0 0)
    end.

(** [hash(..).as_u32().unwrap_or(0)], the form the formats store. *)
Definition checksum (a : IntegrityAlgorithm) (data : list Z) : Z := default 0 (as_u32 (hash a data)).

Lemma checksum_u32 `{!HashLaws} a data : 0 <= checksum a data < 2 ^ 32.
Proof. destruct a; unfold checksum; simpl; [lia|apply crc_u32|apply xxh32_u32]. Qed.

Lemma hash_bytes `{!HashLaws} a data : from_bytes a (to_bytes (hash a data)) = Ok (hash a data).
Proof.
  assert (Hb : forall v, 0 <= v < 2 ^ 32 -> le_value (le_bytes 4 v) = v).
  { intros v Hv. rewrite le_value_wrap. apply wrap_small. simpl. lia. }
  destruct a; [done|..]; cbn [hash to_bytes from_bytes]; rewrite length_le_bytes; cbn [Nat.eqb]; rewrite Hb; auto; [apply crc_u32|apply xxh32_u32].
Qed.
End hash.
End Integrity.

(** The compression crates: [lz4::block], [zstd], [snap::raw].  A failure is [None]. *)
Class Codecs : Type := {
  lz4_compress : list Z -> option (list Z);
  lz4_decompress : list Z -> Z -> option (list Z);    (* with the capacity of the output buffer *)
  zstd_encode_all : list Z -> option (list Z);
  zstd_decode_all : list Z -> option (list Z);
  snappy_compress : list Z -> option (list Z);
  snappy_decompress : list Z -> option (list Z)
}.

(** Decompressing what was compressed gives it back; LZ4 block decompression
    needs an output buffer that is large enough. *)
Class CodecLaws `{!Codecs} : Prop := {
  lz4_law x c n : lz4_compress x = Some c -> lz4_decompress c n = if Z.of_nat (length x) <=? n then Some x else None;
  zstd_law x c : zstd_encode_all x = Some c -> zstd_decode_all c = Some x;
  snappy_law x c : snappy_compress x = Some c -> snappy_decompress c = Some x
}.

Module Compression.
Definition as_u8 (a : CompressionAlgorithm) : Z :=
  match a with NoCompression => 0 | Lz4 => 1 | Zstd => 2 | Snappy => 3 end.
Definition from_u8 (v : Z) : option CompressionAlgorithm :=
  if v =? 0 then Some NoCompression else if v =? 1 then Some Lz4
  else if v =? 2 then Some Zstd else if v =? 3 then Some Snappy else None.
Definition name (a : CompressionAlgorithm) : string :=
  match a with NoCompression => "none" | Lz4 => "lz4" | Zstd => "zstd" | Snappy => "snappy" end.

Section codecs.
Context `{!Codecs}.

Definition compress (a : CompressionAlgorithm) (input : list Z) : option (list Z) :=
  match a with
  | NoCompression => Some input
  | Lz4 => lz4_compress input
  | Zstd => zstd_encode_all input
  | Snappy => snappy_compress input
  end.

(** [expected_size.unwrap_or(input.len() * 4) as i32]. *)
Definition decompress (a : CompressionAlgorithm) (input : list Z) (expected_size : option Z) : option (list Z) :=
  match a with
  | NoCompression => Some input
  | Lz4 => lz4_decompress input (signed 32 (u32 (default (Z.of_nat (length input) * 4) expected_size)))
  | Zstd => zstd_decode_all input
  | Snappy => snappy_decompress input
  end.
End codecs.
End Compression.

Module Encryption.
Definition as_u8 (a : EncryptionAlgorithm) : Z :=
  match a with NoEncryption => 0 | Aes256Gcm => 1 | ChaCha20Poly1305 => 2 end.
Definition from_u8 (v : Z) : option EncryptionAlgorithm :=
  if v =? 0 then Some NoEncryption else if v =? 1 then Some Aes256Gcm
  else if v =? 2 then Some ChaCha20Poly1305 else None.
End Encryption.

(** A tag is decoded exactly from its own byte. *)
Lemma integrity_tag v a : Integrity.from_u8 v = Some a <-> v = Integrity.as_u8 a.
Proof.
  unfold Integrity.from_u8. split.
  - intros H. destruct (Z.eqb_spec v 0), (Z.eqb_spec v 1), (Z.eqb_spec v 2); simplify_eq; done.
  - by intros ->; destruct a.
Qed.

Lemma compression_tag v a : Compression.from_u8 v = Some a <-> v = Compression.as_u8 a.
Proof.
  unfold Compression.from_u8. split.
  - intros H. destruct (Z.eqb_spec v 0), (Z.eqb_spec v 1), (Z.eqb_spec v 2), (Z.eqb_spec v 3); simplify_eq; done.
  - by intros ->; destruct a.
Qed.

Lemma encryption_tag v a : Encryption.from_u8 v = Some a <-> v = Encryption.as_u8 a.
Proof.
  unfold Encryption.from_u8. split.
  - intros H. destruct (Z.eqb_spec v 0), (Z.eqb_spec v 1), (Z.eqb_spec v 2); simplify_eq; done.
  - by intros ->; destruct a.
Qed.

(** A checksum that satisfies [HashLaws], for concrete instances: a 32-bit
    polynomial hash. *)
Module PolyHash.
Definition poly (d : list Z) : Z := fold_left (fun h b => u32 (31 * h + b)) d 7.

Definition poly_hashes : Integrity.Hashes := {| Integrity.crc := poly; Integrity.xxh32 := poly |}.
#[local] Existing Instance poly_hashes.

Lemma poly_u32 d : 0 <= poly d < 2 ^ 32.
Proof.
  unfold poly. assert (Hs : 0 <= 7 < 2 ^ 32) by lia. revert Hs. generalize 7.
  induction d as [|b d IH]; intros s Hs; [done|]. cbn [fold_left]. apply IH, wrap_range. lia.
Qed.

Lemma poly_laws : Integrity.HashLaws.
Proof. split; apply poly_u32. Qed.
End PolyHash.
