(* ===== verification/Wal.v ===== *)
(** * The write-ahead log

    Models nanograph-wal/src/{lsn,result,walfile,writer,reader,manager}.rs:
    segment headers, segment files, the record format, the reader and the
    manager.  Files come through the [File] interface, checksums through
    [Integrity.Hashes].  A reader and the segment it was opened on share the
    file handle ([Arc<Mutex<dyn File>>]), so [next] takes the current file as an
    argument.  Metrics and lock poisoning are not modelled. *)

From Stdlib Require Import ZArith Lia.
From stdpp Require Import option strings base list.
From S2P Require Import Prelude VfsFile Integrity.

Open Scope Z_scope.

Record LogSequenceNumber : Type := Lsn { lsn_segment : Z; lsn_offset : Z }.

(** The derived lexicographic order. *)
Definition lsn_lt (a b : LogSequenceNumber) : Prop :=
  lsn_segment a < lsn_segment b \/ lsn_segment a = lsn_segment b /\ lsn_offset a < lsn_offset b.

Inductive WriteAheadLogError : Type :=
| FileSystem (e : FileSystemError)
| Corruption (lsn : LogSequenceNumber)
| InvalidLsn
| VersionMismatch
| WrappedError
| ChecksumMismatch
| LockPoisoned.

Abbreviation wal_result := (result WriteAheadLogError).

(** [map_err(WriteAheadLogError::FileSystem)]. *)
Definition fs_err {A} (r : fs_result A) : wal_result A :=
  match r with
  | Ok a => Ok a
  | Err e => Err (FileSystem e)
  | Panic => Panic
  | Timeout => Timeout
  end.

Inductive Durability : Type := DurNone | Buffered | Sync.

Definition SEGMENT_MAGIC : Z := 0x474e414e.
Definition RECORD_MAGIC : Z := 0x474e414f.
Definition HEADER_SIZE : nat := 69.

Definition LSN_ZERO : LogSequenceNumber := Lsn 0 (Z.of_nat HEADER_SIZE).

(** [BigEndian::read_uN(&buffer[i..j])]. *)
Definition field (i j : nat) (buffer : list Z) : Z := be_value (take (j - i) (drop i buffer)).

(** ** Segment header *)

Module WriteAheadLogSegmentHeader.

Record t : Type := mk {
  version : Z;
  shard_id : Z;
  segment_id : Z;
  start_offset : Z;
  created_at_unix_ms : Z;
  integrity : IntegrityAlgorithm;
  compression : CompressionAlgorithm;
  encryption : EncryptionAlgorithm;
  encryption_key_id : Z;
  checksum : Z
}.

Definition start_lsn (h : t) : LogSequenceNumber := Lsn (segment_id h) (start_offset h).

(** Bytes [0x00..0x31], the range the checksum covers. *)
Definition checked_bytes (h : t) : list Z :=
  be_bytes 4 SEGMENT_MAGIC ++ be_bytes 2 (version h) ++ be_bytes 16 (shard_id h) ++ be_bytes 8 (segment_id h) ++
  be_bytes 8 (start_offset h) ++ be_bytes 8 (created_at_unix_ms h) ++
  [Integrity.as_u8 (integrity h); Compression.as_u8 (compression h); Encryption.as_u8 (encryption h)].

Section codec.
Context `{!Integrity.Hashes}.

(** The writes of [encode] cover [0..0x45] of the buffer; a shorter buffer panics. *)
Definition encode (h : t) (buffer : list Z) : option (list Z) :=
  if (length buffer <? HEADER_SIZE)%nat then None
  else Some (checked_bytes h ++ be_bytes 16 (encryption_key_id h) ++
             be_bytes 4 (Integrity.checksum (integrity h) (checked_bytes h)) ++ drop HEADER_SIZE buffer).

Definition decode (buffer : list Z) : wal_result t :=
  if (length buffer <? HEADER_SIZE)%nat then Err InvalidLsn
  else if negb (field 0x00 0x04 buffer =? SEGMENT_MAGIC) then Err VersionMismatch
  else
    let! integrity := ok_or (Integrity.from_u8 (field 0x2E 0x2F buffer)) VersionMismatch in
    let! compression := ok_or (Compression.from_u8 (field 0x2F 0x30 buffer)) VersionMismatch in
    let! encryption := ok_or (Encryption.from_u8 (field 0x30 0x31 buffer)) VersionMismatch in
    let read_checksum := field 0x41 0x45 buffer in
    if negb (bool_decide (integrity = NoIntegrity)) &&
       negb (read_checksum =? Integrity.checksum integrity (take 0x31 buffer))
    then Err ChecksumMismatch
    else
      Ok (mk (field 0x04 0x06 buffer) (field 0x06 0x16 buffer) (field 0x16 0x1E buffer) (field 0x1E 0x26 buffer)
             (field 0x26 0x2E buffer) integrity compression encryption (field 0x31 0x41 buffer) read_checksum).
End codec.

End WriteAheadLogSegmentHeader.

(** ** Records and the reader *)

Record WriteAheadLogRecord : Type := Record_ { kind : Z; payload : list Z }.

Record WriteAheadLogEntry : Type := Entry { entry_lsn : LogSequenceNumber; entry_kind : Z; entry_payload : list Z }.

Module WriteAheadLogReader.

Record t : Type := mk { segment_id : Z; offset : Z; integrity : IntegrityAlgorithm }.

Section next.
Context `{!Integrity.Hashes} {F : Type} `{!File F}.

Definition position (r : t) : LogSequenceNumber := Lsn (segment_id r) (offset r).

Definition next (file : F) (r : t) : wal_result (option WriteAheadLogEntry) * t :=
  let res : wal_result (option (WriteAheadLogEntry * Z)) :=
    let! size := fs_err (get_size file) in
    if size <=? offset r then Ok None
    else
      let! header := fs_err (read_at_offset file (offset r) 10) in
      if (length header <? 10)%nat then Ok None
      else if negb (field 0 4 header =? RECORD_MAGIC) then Err (Corruption (position r))
      else
        let kind := field 4 6 header in
        let len := field 6 10 header in
        let! payload := fs_err (read_at_offset file (offset r + 10) (Z.to_nat len)) in
        if (length payload <? Z.to_nat len)%nat then Err (Corruption (position r))
        else
          let! checksum_buf := fs_err (read_at_offset file (offset r + 10 + len) 4) in
          if (length checksum_buf <? 4)%nat then Err (Corruption (position r))
          else if negb (bool_decide (integrity r = NoIntegrity)) &&
                  negb (field 0 4 checksum_buf =? Integrity.checksum (integrity r) (header ++ payload))
          then Err (Corruption (position r))
          else Ok (Some (Entry (position r) kind payload, 10 + len + 4)) in
  match res with
  | Ok None => (Ok None, r)
  | Ok (Some (e, n)) => (Ok (Some e), mk (segment_id r) (u64 (offset r + n)) (integrity r))
  | Err e => (Err e, r)
  | Panic => (Panic, r)
  | Timeout => (Timeout, r)
  end.

(** Reading until the end of the log or an error, the way recovery does: the
    entries in order and how the run ended. *)
Fixpoint replay (fuel : nat) (file : F) (r : t) : list WriteAheadLogEntry * wal_result unit :=
  match fuel with
  | O => ([], Timeout)
  | S fuel' =>
      match next file r with
      | (Ok (Some e), r') => let '(es, res) := replay fuel' file r' in (e :: es, res)
      | (Ok None, _) => ([], Ok tt)
      | (Err e, _) => ([], Err e)
      | (Panic, _) => ([], Panic)
      | (Timeout, _) => ([], Timeout)
      end
  end.
End next.

End WriteAheadLogReader.

(** ** Segment files *)

Module WriteAheadLogFile.

Record t (F : Type) : Type := mk {
  file : F;
  shard_id : Z;
  segment_id : Z;
  start_offset : Z;
  write_offset : Z;
  integrity : IntegrityAlgorithm
}.
Arguments mk {F} _ _ _ _ _ _.
Arguments file {F} _.
Arguments shard_id {F} _.
Arguments segment_id {F} _.
Arguments start_offset {F} _.
Arguments write_offset {F} _.
Arguments integrity {F} _.

Section ops.
Context `{!Integrity.Hashes} {F : Type} `{!File F}.

(** [now] is the millisecond clock. *)
Definition create (f : F) (now shard segment start : Z) (alg : IntegrityAlgorithm) (compression : CompressionAlgorithm)
    (encryption : EncryptionAlgorithm) (key_id : Z) : wal_result (t F) :=
  let header := WriteAheadLogSegmentHeader.mk 1 shard segment start now alg compression encryption key_id 0 in
  let! buffer := or_panic (WriteAheadLogSegmentHeader.encode header (replicate HEADER_SIZE 0)) in
  let '(r, f) := write_to_offset f 0 buffer in
  let! _ := fs_err r in
  Ok (mk f shard segment start (Z.of_nat HEADER_SIZE) alg).

(** A short read leaves the rest of the zeroed buffer as it was. *)
Definition open_existing (f : F) : wal_result (t F) :=
  let! buffer := fs_err (read_at_offset f 0 HEADER_SIZE) in
  let! header := WriteAheadLogSegmentHeader.decode (buffer ++ replicate (HEADER_SIZE - length buffer) 0) in
  let! size := fs_err (get_size f) in
  Ok (mk f (WriteAheadLogSegmentHeader.shard_id header) (WriteAheadLogSegmentHeader.segment_id header)
         (WriteAheadLogSegmentHeader.start_offset header) size (WriteAheadLogSegmentHeader.integrity header)).

Definition start_lsn (w : t F) : LogSequenceNumber := Lsn (segment_id w) (start_offset w).
Definition tail_lsn (w : t F) : LogSequenceNumber := Lsn (segment_id w) (write_offset w).

(** The bytes before the checksum: the length field truncates to [u32]. *)
Definition record_head (r : WriteAheadLogRecord) : list Z :=
  be_bytes 4 RECORD_MAGIC ++ be_bytes 2 (kind r) ++ be_bytes 4 (u32 (Z.of_nat (length (payload r)))) ++ payload r.

Definition record_bytes (alg : IntegrityAlgorithm) (r : WriteAheadLogRecord) : list Z :=
  record_head r ++ be_bytes 4 (Integrity.checksum alg (record_head r)).

Definition append (w : t F) (r : WriteAheadLogRecord) : wal_result LogSequenceNumber * t F :=
  let buffer := record_bytes (integrity w) r in
  let '(res, f) := write_to_offset (file w) (write_offset w) buffer in
  match fs_err res with
  | Ok _ => (Ok (tail_lsn w),
             mk f (shard_id w) (segment_id w) (start_offset w) (u64 (write_offset w + Z.of_nat (length buffer))) (integrity w))
  | Err e => (Err e, mk f (shard_id w) (segment_id w) (start_offset w) (write_offset w) (integrity w))
  | Panic => (Panic, mk f (shard_id w) (segment_id w) (start_offset w) (write_offset w) (integrity w))
  | Timeout => (Timeout, mk f (shard_id w) (segment_id w) (start_offset w) (write_offset w) (integrity w))
  end.

Definition with_file (w : t F) (f : F) : t F :=
  mk f (shard_id w) (segment_id w) (start_offset w) (write_offset w) (integrity w).

Definition flush (w : t F) : wal_result unit * t F :=
  let '(r, f) := sync_data (file w) in (fs_err r, with_file w f).
Definition sync (w : t F) : wal_result unit * t F :=
  let '(r, f) := sync_all (file w) in (fs_err r, with_file w f).

Definition reader_from_offset (w : t F) (o : Z) : WriteAheadLogReader.t :=
  WriteAheadLogReader.mk (segment_id w) o (integrity w).
End ops.

End WriteAheadLogFile.

(** ** Writer *)

Module WriteAheadLogWriter.
Import WriteAheadLogFile.

Section ops.
Context `{!Integrity.Hashes} {F : Type} `{!File F}.

Definition apply_durability (w : t F) (d : Durability) : wal_result unit * t F :=
  match d with
  | DurNone => (Ok tt, w)
  | Buffered => flush w
  | Sync => sync w
  end.

(** [flush_result?; Ok(lsn)]. *)
Definition finish (w : t F) (lsn : LogSequenceNumber) (d : Durability) : wal_result LogSequenceNumber * t F :=
  let '(r, w) := apply_durability w d in (let! _ := r in Ok lsn, w).

Definition append (w : t F) (r : WriteAheadLogRecord) (d : Durability) : wal_result LogSequenceNumber * t F :=
  match WriteAheadLogFile.append w r with
  | (Ok lsn, w) => finish w lsn d
  | (e, w) => (e, w)
  end.

Fixpoint append_all (w : t F) (rs : list WriteAheadLogRecord) (last_lsn : LogSequenceNumber) :
    wal_result LogSequenceNumber * t F :=
  match rs with
  | [] => (Ok last_lsn, w)
  | r :: rs' =>
      match WriteAheadLogFile.append w r with
      | (Ok lsn, w) => append_all w rs' lsn
      | (e, w) => (e, w)
      end
  end.

Definition append_batch (w : t F) (rs : list WriteAheadLogRecord) (d : Durability) : wal_result LogSequenceNumber * t F :=
  match append_all w rs LSN_ZERO with
  | (Ok lsn, w) => finish w lsn d
  | (e, w) => (e, w)
  end.
End ops.

End WriteAheadLogWriter.

(** ** Manager *)

Module WriteAheadLogManager.

(** The file system operations the manager calls, on a file system state. *)
Class FileSystemOps (FS F : Type) : Type := {
  fs_exists : FS -> string -> fs_result bool;
  fs_create_directory_all : FS -> string -> fs_result unit * FS;
  fs_open_file : FS -> string -> fs_result F;
  fs_create_file : FS -> string -> fs_result F * FS;
  fs_remove_file : FS -> string -> fs_result unit * FS
}.

Record WriteAheadLogConfig : Type := Config {
  cfg_shard_id : Z;
  cfg_checksum : IntegrityAlgorithm;
  cfg_compression : CompressionAlgorithm;
  cfg_encryption : EncryptionAlgorithm
}.

Record t (FS F : Type) : Type := mk {
  file_system : FS;
  root_folder : string;
  shard_id : Z;
  active_segment : WriteAheadLogFile.t F;
  archived_segments : list (WriteAheadLogFile.t F)
}.
Arguments mk {FS F} _ _ _ _ _.
Arguments file_system {FS F} _.
Arguments root_folder {FS F} _.
Arguments shard_id {FS F} _.
Arguments active_segment {FS F} _.
Arguments archived_segments {FS F} _.

Section ops.
Context `{!Integrity.Hashes} {FS F : Type} `{!File F} `{!FileSystemOps FS F}.
(** [root_folder.join(Path::parse("segment_<id>.wal"))] as a string. *)
Context (segment_path : string -> Z -> string).

Definition new (fs : FS) (now : Z) (directory : string) (config : WriteAheadLogConfig) : wal_result (t FS F) :=
  let! found := fs_err (fs_exists fs directory) in
  let! fs :=
    (if found then Ok fs else let '(r, fs) := fs_create_directory_all fs directory in let! _ := fs_err r in Ok fs) in
  let path := segment_path directory 0 in
  let! existing := fs_err (fs_exists fs path) in
  if (existing : bool) then
    let! file := fs_err (fs_open_file fs path) in
    let! active := WriteAheadLogFile.open_existing file in
    Ok (mk fs directory (cfg_shard_id config) active [])
  else
    let '(r, fs) := fs_create_file fs path in
    let! file := fs_err r in
    let! active := WriteAheadLogFile.create file now (cfg_shard_id config) 0 0 (cfg_checksum config)
                     (cfg_compression config) (cfg_encryption config) 0 in
    Ok (mk fs directory (cfg_shard_id config) active []).

(** The reader and the file it shares. *)
Definition reader_from (m : t FS F) (lsn : LogSequenceNumber) : wal_result (WriteAheadLogReader.t * F) :=
  let open (w : WriteAheadLogFile.t F) :=
    Ok (WriteAheadLogFile.reader_from_offset w (lsn_offset lsn), WriteAheadLogFile.file w) in
  if WriteAheadLogFile.segment_id (active_segment m) =? lsn_segment lsn then open (active_segment m)
  else
    match list_find (fun w => WriteAheadLogFile.segment_id w = lsn_segment lsn) (archived_segments m) with
    | Some (_, w) => open w
    | None => Err InvalidLsn
    end.

Definition head_lsn (m : t FS F) : LogSequenceNumber :=
  match archived_segments m with
  | first :: _ => WriteAheadLogFile.start_lsn first
  | [] => WriteAheadLogFile.start_lsn (active_segment m)
  end.

Definition tail_lsn (m : t FS F) : LogSequenceNumber := WriteAheadLogFile.tail_lsn (active_segment m).

(** Deleting the files one by one; errors are collected, not returned at once. *)
Fixpoint remove_segments (fs : FS) (root : string) (ids : list Z) : list (Z * FileSystemError) * FS :=
  match ids with
  | [] => ([], fs)
  | id :: ids' =>
      let '(r, fs) := fs_remove_file fs (segment_path root id) in
      let '(errs, fs) := remove_segments fs root ids' in
      (match r with Err e => (id, e) :: errs | _ => errs end, fs)
  end.

Definition truncate_before (m : t FS F) (lsn : LogSequenceNumber) : wal_result unit * t FS F :=
  let doomed := filter (fun w => WriteAheadLogFile.segment_id w < lsn_segment lsn) (archived_segments m) in
  let kept := filter (fun w => lsn_segment lsn <= WriteAheadLogFile.segment_id w) (archived_segments m) in
  let '(errs, fs) := remove_segments (file_system m) (root_folder m) (map WriteAheadLogFile.segment_id doomed) in
  (match errs with [] => Ok tt | _ => Err WrappedError end,
   mk fs (root_folder m) (shard_id m) (active_segment m) kept).
End ops.

End WriteAheadLogManager.
