(* ===== verification/WalSpec.v ===== *)
(** * What the write-ahead log promises

    Proved against [FileLaws], so for every file that behaves as documented:
    headers round-trip and are canonical, replay returns exactly what was
    appended, a torn tail is detected, a reopened segment continues the log. *)

From Stdlib Require Import ZArith Lia.
From stdpp Require Import option strings base list sorting.
From S2P Require Import Prelude VfsFile Integrity Wal.

Open Scope Z_scope.

(** ** Fields of a buffer *)

Lemma field_here l1 l2 j : j = length l1 -> field 0 j (l1 ++ l2) = be_value l1.
Proof. intros ->. unfold field. by rewrite drop_0, Nat.sub_0_r, take_app_length. Qed.

Lemma field_skip n i j l1 l2 : length l1 = n -> (n <= i <= j)%nat -> field i j (l1 ++ l2) = field (i - n) (j - n) l2.
Proof.
  intros <- H. unfold field. rewrite drop_app_ge by lia. by replace (j - length l1 - (i - length l1))%nat with (j - i)%nat by lia.
Qed.

Lemma field_byte_range i j l : byte_list l -> (i <= j <= length l)%nat -> 0 <= field i j l < 2 ^ (8 * Z.of_nat (j - i)).
Proof.
  intros Hl Hij. unfold field.
  assert (Hb : byte_list (take (j - i) (drop i l))) by (by apply Forall_take, Forall_drop).
  apply be_value_range in Hb. rewrite length_take, length_drop, Nat.min_l in Hb by lia. done.
Qed.

(** Splitting a byte list into a field and the rest. *)
Lemma field_split l i j n : byte_list l -> (j <= length l)%nat -> n = (j - i)%nat -> (i <= j)%nat ->
  drop i l = be_bytes n (field i j l) ++ drop j l.
Proof.
  intros Hl Hj -> Hij. unfold field. set (x := take (j - i) (drop i l)).
  assert (Hx : byte_list x) by (by apply Forall_take, Forall_drop).
  assert (Hlen : length x = (j - i)%nat) by (unfold x; rewrite length_take, length_drop; lia).
  rewrite <- Hlen at 1. rewrite be_bytes_value by done. unfold x.
  replace (drop j l) with (drop (j - i) (drop i l)) by (rewrite drop_drop; f_equal; lia). by rewrite take_drop.
Qed.

Lemma field_one b l : field 0 1 (b :: l) = b.
Proof. unfold field, be_value. simpl. lia. Qed.

Lemma field_cons b l i j : field (S i) (S j) (b :: l) = field i j l.
Proof. done. Qed.

Lemma be_bytes_one z : 0 <= z < 2 ^ 8 -> be_bytes 1 z = [z].
Proof. intros Hz. unfold be_bytes. simpl. f_equal. apply Z.mod_small. lia. Qed.

Ltac lenb := rewrite ?length_app, ?length_be_bytes; simpl; try lia.

(** Read a field of a concatenation of encoded integers. *)
Ltac fld :=
  repeat (first
    [ rewrite field_here by (rewrite ?length_be_bytes; reflexivity)
    | match goal with
      | |- context [field ?i ?j (be_bytes ?n ?z ++ ?l)] =>
          rewrite (field_skip n i j (be_bytes n z) l) by (rewrite ?length_be_bytes; lia); cbn [Nat.sub]
      end ]).

(** ** Headers *)

Module HeaderSpec.
Import WriteAheadLogSegmentHeader.

(** The fields fit their widths. *)
Definition header_ok (h : t) : Prop :=
  0 <= version h < 2 ^ 16 /\ 0 <= shard_id h < 2 ^ 128 /\ 0 <= segment_id h < 2 ^ 64 /\
  0 <= start_offset h < 2 ^ 64 /\ 0 <= created_at_unix_ms h < 2 ^ 64 /\ 0 <= encryption_key_id h < 2 ^ 128.

#[global] Instance header_ok_dec h : Decision (header_ok h).
Proof. unfold header_ok. apply _. Defined.

Section codec.
Context `{!Integrity.Hashes} `{!Integrity.HashLaws}.

Definition sealed (h : t) : t :=
  mk (version h) (shard_id h) (segment_id h) (start_offset h) (created_at_unix_ms h) (integrity h) (compression h)
     (encryption h) (encryption_key_id h) (Integrity.checksum (integrity h) (checked_bytes h)).

Lemma length_checked h : length (checked_bytes h) = 49%nat.
Proof. unfold checked_bytes. lenb. Qed.

Lemma decode_fields h k c rest : header_ok h -> 0 <= k < 2 ^ 128 -> 0 <= c < 2 ^ 32 ->
  let b := checked_bytes h ++ be_bytes 16 k ++ be_bytes 4 c ++ rest in
  field 0x00 0x04 b = SEGMENT_MAGIC /\ field 0x04 0x06 b = version h /\ field 0x06 0x16 b = shard_id h /\
  field 0x16 0x1E b = segment_id h /\ field 0x1E 0x26 b = start_offset h /\ field 0x26 0x2E b = created_at_unix_ms h /\
  field 0x2E 0x2F b = Integrity.as_u8 (integrity h) /\ field 0x2F 0x30 b = Compression.as_u8 (compression h) /\
  field 0x30 0x31 b = Encryption.as_u8 (encryption h) /\ field 0x31 0x41 b = k /\ field 0x41 0x45 b = c /\
  take 0x31 b = checked_bytes h.
Proof.
  intros (H1 & H2 & H3 & H4 & H5 & _) Hk Hc b.
  assert (Htake : take 0x31 b = checked_bytes h).
  { unfold b. rewrite <- (length_checked h). by rewrite take_app_length. }
  assert (Hkc : field 0x31 0x41 b = k /\ field 0x41 0x45 b = c).
  { unfold b. rewrite !(field_skip 49 _ _ (checked_bytes h)) by (rewrite ?length_checked; lia). simpl Nat.sub. split.
    - rewrite field_here by (by rewrite length_be_bytes). by apply be_value_small.
    - rewrite (field_skip 16) by (rewrite ?length_be_bytes; lia). simpl Nat.sub.
      rewrite field_here by (by rewrite length_be_bytes). by apply be_value_small. }
  destruct Hkc as [Hk' Hc']. split_and!; auto; unfold b, checked_bytes; rewrite <- !app_assoc; fld;
    try (by apply be_value_small); cbn [app]; rewrite ?field_cons; apply field_one.
Qed.

Lemma encode_some h buffer : (HEADER_SIZE <= length buffer)%nat ->
  encode h buffer = Some (checked_bytes h ++ be_bytes 16 (encryption_key_id h) ++
    be_bytes 4 (Integrity.checksum (integrity h) (checked_bytes h)) ++ drop HEADER_SIZE buffer).
Proof. intros Hlen. unfold encode. by rewrite (proj2 (Nat.ltb_ge _ _)). Qed.

Lemma decode_sealed h k c rest : header_ok h -> 0 <= k < 2 ^ 128 -> 0 <= c < 2 ^ 32 ->
  (integrity h = NoIntegrity \/ c = Integrity.checksum (integrity h) (checked_bytes h)) ->
  decode (checked_bytes h ++ be_bytes 16 k ++ be_bytes 4 c ++ rest) =
    Ok (mk (version h) (shard_id h) (segment_id h) (start_offset h) (created_at_unix_ms h) (integrity h)
           (compression h) (encryption h) k c).
Proof.
  intros Hh Hk Hc Hsum. unfold decode.
  destruct (decode_fields h k c rest Hh Hk Hc) as (-> & -> & -> & -> & -> & -> & -> & -> & -> & -> & -> & ->).
  rewrite (proj2 (Nat.ltb_ge _ _)) by (unfold HEADER_SIZE; rewrite !length_app, length_checked, !length_be_bytes; lia).
  cbn [negb Z.eqb]. rewrite Z.eqb_refl. cbn [negb].
  rewrite (proj2 (integrity_tag _ (integrity h))), (proj2 (compression_tag _ (compression h))),
    (proj2 (encryption_tag _ (encryption h))) by done. cbn [ok_or rbind].
  destruct Hsum as [-> | ->]; [done|]. by rewrite Z.eqb_refl, andb_false_r.
Qed.

Lemma decode_encode h buffer : header_ok h -> (HEADER_SIZE <= length buffer)%nat ->
  exists b, encode h buffer = Some b /\ decode b = Ok (sealed h).
Proof.
  intros Hh Hlen. eexists. split; [by apply encode_some|]. pose proof Hh as (_ & _ & _ & _ & _ & Hk).
  apply decode_sealed; auto. apply Integrity.checksum_u32.
Qed.

(** An accepted header re-encodes to the accepted bytes. *)
Lemma encode_decode b h : byte_list b -> length b = HEADER_SIZE -> decode b = Ok h -> integrity h <> NoIntegrity ->
  encode h b = Some b.
Proof.
  intros Hb Hlen Hdec Hne. unfold decode in Hdec. rewrite Hlen in Hdec. cbn [Nat.ltb Nat.leb] in Hdec.
  destruct (Z.eqb_spec (field 0 4 b) SEGMENT_MAGIC) as [Hm|]; [|done]. cbn [negb] in Hdec.
  destruct (Integrity.from_u8 _) as [ia|] eqn:Ei; [|done]. destruct (Compression.from_u8 _) as [ca|] eqn:Ec; [|done].
  destruct (Encryption.from_u8 _) as [ea|] eqn:Ee; [|done]. cbn [ok_or rbind] in Hdec.
  apply integrity_tag in Ei. apply compression_tag in Ec. apply encryption_tag in Ee.
  destruct (_ && _) eqn:Hsum; [done|]. injection Hdec as <-. cbn in Hne.
  rewrite bool_decide_false in Hsum by done. cbn [negb andb] in Hsum. apply negb_false_iff, Z.eqb_eq in Hsum.
  set (h := mk _ _ _ _ _ _ _ _ _ _).
  unfold HEADER_SIZE in Hlen.
  assert (H31 : b = checked_bytes h ++ be_bytes 16 (field 0x31 0x41 b) ++ be_bytes 4 (field 0x41 0x45 b)).
  { unfold checked_bytes, h. cbn [version shard_id segment_id start_offset created_at_unix_ms integrity compression encryption].
    rewrite <- Hm, <- Ei, <- Ec, <- Ee, <- !app_assoc.
    rewrite <- (drop_0 b) at 1. rewrite (field_split b 0x00 0x04 4) by (done || lia). f_equal.
    rewrite (field_split b 0x04 0x06 2) by (done || lia). f_equal. rewrite (field_split b 0x06 0x16 16) by (done || lia). f_equal.
    rewrite (field_split b 0x16 0x1E 8) by (done || lia). f_equal. rewrite (field_split b 0x1E 0x26 8) by (done || lia). f_equal.
    rewrite (field_split b 0x26 0x2E 8) by (done || lia). f_equal.
    rewrite (field_split b 0x2E 0x2F 1), (field_split b 0x2F 0x30 1), (field_split b 0x30 0x31 1) by (done || lia).
    pose proof (field_byte_range 0x2E 0x2F b Hb ltac:(lia)) as R1. pose proof (field_byte_range 0x2F 0x30 b Hb ltac:(lia)) as R2.
    pose proof (field_byte_range 0x30 0x31 b Hb ltac:(lia)) as R3.
    rewrite (be_bytes_one _ R1), (be_bytes_one _ R2), (be_bytes_one _ R3). cbn [app]. do 3 f_equal.
    rewrite (field_split b 0x31 0x41 16) by (done || lia). f_equal. rewrite (field_split b 0x41 0x45 4) by (done || lia).
    by rewrite (drop_ge b 0x45), app_nil_r by lia. }
  assert (Htake : take 0x31 b = checked_bytes h).
  { rewrite H31. rewrite <- (length_checked h) at 1. by rewrite take_app_length. }
  rewrite encode_some by (unfold HEADER_SIZE; lia). rewrite Htake in Hsum. f_equal.
  rewrite drop_ge, app_nil_r by (unfold HEADER_SIZE; lia). etrans; [|exact (eq_sym H31)].
  change (encryption_key_id h) with (field 0x31 0x41 b). change (integrity h) with ia. by rewrite Hsum.
Qed.
End codec.
End HeaderSpec.

(** ** The log *)

Module LogSpec.
Import WriteAheadLogFile.
#[local] Arguments record_bytes : simpl never.
#[local] Arguments record_head : simpl never.

(** A record the format can represent. *)
Definition record_ok (r : WriteAheadLogRecord) : Prop :=
  0 <= kind r < 2 ^ 16 /\ Z.of_nat (length (payload r)) < 2 ^ 32.

#[global] Instance record_ok_dec r : Decision (record_ok r).
Proof. unfold record_ok. apply _. Defined.

Section log.
Context `{!Integrity.Hashes} `{!Integrity.HashLaws} {F : Type} `{!File F} `{!FileLaws F}.
Implicit Types (f : F) (rs : list WriteAheadLogRecord).

Definition log_bytes (alg : IntegrityAlgorithm) rs : list Z := concat (record_bytes alg <$> rs).

(** The entries a reader at [off] returns. *)
Fixpoint entries (seg : Z) (alg : IntegrityAlgorithm) (off : Z) rs : list WriteAheadLogEntry :=
  match rs with
  | [] => []
  | r :: rs' =>
      Entry (Lsn seg off) (kind r) (payload r) ::
      entries seg alg (off + Z.of_nat (length (record_bytes alg r))) rs'
  end.

Definition entry_record (e : WriteAheadLogEntry) : WriteAheadLogRecord := Record_ (entry_kind e) (entry_payload e).

(** The segment holds [header] and then the records [rs]. *)
Definition holds (w : t F) (header : list Z) rs : Prop :=
  bytes_of (file w) = header ++ log_bytes (integrity w) rs /\
  write_offset w = Z.of_nat (length (bytes_of (file w))) /\ write_offset w < 2 ^ 64.

Lemma length_record_head r : length (record_head r) = (10 + length (payload r))%nat.
Proof. unfold record_head. lenb. Qed.

Lemma length_record_bytes alg r : length (record_bytes alg r) = (14 + length (payload r))%nat.
Proof. unfold record_bytes. rewrite length_app, length_record_head, length_be_bytes. lia. Qed.

Lemma entries_records seg alg off rs : map entry_record (entries seg alg off rs) = rs.
Proof. revert off. induction rs as [|[k p] rs IH]; intros off; simpl; [done|]. by rewrite IH. Qed.

Lemma entries_ge seg alg off rs : Forall (fun e => lsn_segment (entry_lsn e) = seg /\ off <= lsn_offset (entry_lsn e)) (entries seg alg off rs).
Proof.
  revert off. induction rs as [|r rs IH]; intros off; simpl; constructor; [simpl; lia|].
  eapply Forall_impl; [apply IH|]. intros e [H1 H2]. split; [done|lia].
Qed.

Lemma entries_sorted seg alg off rs : StronglySorted lsn_lt (map entry_lsn (entries seg alg off rs)).
Proof.
  revert off. induction rs as [|r rs IH]; intros off; cbn [entries map]; constructor; [apply IH|].
  apply Forall_fmap. eapply Forall_impl; [apply entries_ge|]. intros e [H1 H2]. right. cbn [lsn_segment lsn_offset].
  rewrite length_record_bytes in H2. split; simpl; [done|lia].
Qed.

(** *** One step of the reader *)

Lemma read_here f pre x rest n : bytes_of f = pre ++ x ++ rest -> length x = n ->
  read_at_offset f (Z.of_nat (length pre)) n = Ok x.
Proof using All.
  intros Hf <-. rewrite read_law by (rewrite Hf, length_app; lia).
  by rewrite Nat2Z.id, Hf, drop_app_length, take_app_length.
Qed.

Lemma read_rest f pre x n : bytes_of f = pre ++ x -> (length x <= n)%nat ->
  read_at_offset f (Z.of_nat (length pre)) n = Ok x.
Proof using All.
  intros Hf Hn. rewrite read_law by (rewrite Hf, length_app; lia).
  by rewrite Nat2Z.id, Hf, drop_app_length, take_ge.
Qed.

(** The fixed part of a record. *)
Definition record_prefix (r : WriteAheadLogRecord) : list Z :=
  be_bytes 4 RECORD_MAGIC ++ be_bytes 2 (kind r) ++ be_bytes 4 (u32 (Z.of_nat (length (payload r)))).

Lemma length_record_prefix r : length (record_prefix r) = 10%nat.
Proof. unfold record_prefix. lenb. Qed.

Lemma record_head_prefix r : record_head r = record_prefix r ++ payload r.
Proof. unfold record_head, record_prefix. by rewrite <- !app_assoc. Qed.

Lemma record_prefix_fields r : record_ok r ->
  field 0 4 (record_prefix r) = RECORD_MAGIC /\ field 4 6 (record_prefix r) = kind r /\
  field 6 10 (record_prefix r) = Z.of_nat (length (payload r)).
Proof.
  intros [Hk Hp]. rewrite <- (app_nil_r (record_prefix r)). unfold record_prefix. rewrite <- !app_assoc.
  split_and!; fld; try (by apply be_value_small). unfold u32. rewrite wrap_small by lia. apply be_value_small. simpl. lia.
Qed.

Lemma next_end f (rd : WriteAheadLogReader.t) : WriteAheadLogReader.offset rd = Z.of_nat (length (bytes_of f)) ->
  WriteAheadLogReader.next f rd = (Ok None, rd).
Proof using All.
  intros Ho. unfold WriteAheadLogReader.next. rewrite get_size_law, Ho. cbn [fs_err rbind]. by rewrite Z.leb_refl.
Qed.

Lemma next_record f seg alg pre r rest : bytes_of f = pre ++ record_bytes alg r ++ rest -> record_ok r ->
  Z.of_nat (length (bytes_of f)) < 2 ^ 64 ->
  WriteAheadLogReader.next f (WriteAheadLogReader.mk seg (Z.of_nat (length pre)) alg) =
    (Ok (Some (Entry (Lsn seg (Z.of_nat (length pre))) (kind r) (payload r))),
     WriteAheadLogReader.mk seg (Z.of_nat (length (pre ++ record_bytes alg r))) alg).
Proof using All.
  intros Hf Hr Hmax. unfold WriteAheadLogReader.next. cbn [WriteAheadLogReader.offset WriteAheadLogReader.segment_id WriteAheadLogReader.integrity].
  cbv zeta. rewrite get_size_law. cbn [fs_err rbind].
  pose proof (f_equal length Hf) as Hl. rewrite !length_app, length_record_bytes in Hl.
  rewrite (proj2 (Z.leb_gt _ _)) by lia.
  unfold record_bytes in Hf. rewrite record_head_prefix, <- !app_assoc in Hf.
  rewrite (read_here _ _ _ _ _ Hf (length_record_prefix r)). cbn [fs_err rbind].
  rewrite length_record_prefix, Nat.ltb_irrefl.
  destruct (record_prefix_fields r Hr) as (-> & -> & ->). rewrite Z.eqb_refl. cbn [negb].
  rewrite Nat2Z.id.
  replace (Z.of_nat (length pre) + 10) with (Z.of_nat (length (pre ++ record_prefix r))) by (rewrite length_app, length_record_prefix; lia).
  pose proof Hf as Hf2. rewrite app_assoc in Hf2. rewrite (read_here _ _ _ _ _ Hf2 eq_refl). cbn [fs_err rbind].
  rewrite Nat.ltb_irrefl.
  replace (Z.of_nat (length (pre ++ record_prefix r)) + Z.of_nat (length (payload r)))
    with (Z.of_nat (length ((pre ++ record_prefix r) ++ payload r))) by (rewrite !length_app; lia).
  pose proof Hf2 as Hf3. rewrite app_assoc in Hf3. rewrite (read_here _ _ _ _ 4 Hf3 (length_be_bytes _ _)). cbn [fs_err rbind].
  rewrite length_be_bytes, Nat.ltb_irrefl.
  rewrite <- (app_nil_r (be_bytes 4 _)), field_here by (by rewrite length_be_bytes).
  rewrite be_value_small by apply Integrity.checksum_u32. rewrite Z.eqb_refl, andb_false_r. cbn [WriteAheadLogReader.position].
  do 2 f_equal. unfold u64. rewrite length_app, length_record_bytes, wrap_small; lia.
Qed.

(** A record cut short: the cut is reported, or taken for the end of the log
    when not even the fixed part is there. *)
Lemma next_torn f seg alg pre r n : bytes_of f = pre ++ take n (record_bytes alg r) -> record_ok r ->
  (0 < n < length (record_bytes alg r))%nat ->
  WriteAheadLogReader.next f (WriteAheadLogReader.mk seg (Z.of_nat (length pre)) alg) =
    (if (n <? 10)%nat then Ok None else Err (Corruption (Lsn seg (Z.of_nat (length pre)))),
     WriteAheadLogReader.mk seg (Z.of_nat (length pre)) alg).
Proof using All.
  intros Hf Hr Hn. unfold WriteAheadLogReader.next. cbn [WriteAheadLogReader.offset WriteAheadLogReader.segment_id WriteAheadLogReader.integrity].
  cbv zeta. rewrite get_size_law. cbn [fs_err rbind].
  pose proof (f_equal length Hf) as Hl. rewrite !length_app, length_take in Hl.
  rewrite length_record_bytes in Hn, Hl. rewrite (proj2 (Z.leb_gt _ _)) by lia.
  destruct (Nat.ltb_spec n 10).
  { rewrite (read_rest _ _ _ _ Hf) by (rewrite length_take; lia). cbn [fs_err rbind].
    by rewrite (proj2 (Nat.ltb_lt _ _)) by (rewrite length_take, length_record_bytes; lia). }
  unfold record_bytes in Hf. rewrite record_head_prefix, <- !app_assoc, take_app_ge, length_record_prefix in Hf by (rewrite length_record_prefix; lia).
  rewrite (read_here _ _ _ _ _ Hf (length_record_prefix r)). cbn [fs_err rbind].
  rewrite length_record_prefix, Nat.ltb_irrefl.
  destruct (record_prefix_fields r Hr) as (-> & -> & ->). rewrite Z.eqb_refl. cbn [negb]. rewrite Nat2Z.id.
  replace (Z.of_nat (length pre) + 10) with (Z.of_nat (length (pre ++ record_prefix r))) by (rewrite length_app, length_record_prefix; lia).
  rewrite app_assoc in Hf.
  destruct (Nat.ltb_spec (n - 10) (length (payload r))).
  { rewrite (read_rest _ _ _ _ Hf) by (rewrite length_take, length_app; lia). cbn [fs_err rbind].
    by rewrite (proj2 (Nat.ltb_lt _ _)) by (rewrite length_take, length_app; lia). }
  rewrite take_app_ge in Hf by lia.
  rewrite (read_here _ _ _ _ _ Hf eq_refl). cbn [fs_err rbind]. rewrite Nat.ltb_irrefl, app_assoc in *.
  replace (Z.of_nat (length (pre ++ record_prefix r)) + Z.of_nat (length (payload r)))
    with (Z.of_nat (length ((pre ++ record_prefix r) ++ payload r))) by (rewrite !length_app; lia).
  rewrite (read_rest _ _ _ _ Hf) by (rewrite length_take, length_be_bytes; lia). cbn [fs_err rbind].
  by rewrite (proj2 (Nat.ltb_lt _ _)) by (rewrite length_take, length_be_bytes; lia).
Qed.

(** *** Replay *)

Lemma log_bytes_cons alg r rs : log_bytes alg (r :: rs) = record_bytes alg r ++ log_bytes alg rs.
Proof. done. Qed.

Lemma log_bytes_app alg rs1 rs2 : log_bytes alg (rs1 ++ rs2) = log_bytes alg rs1 ++ log_bytes alg rs2.
Proof. unfold log_bytes. by rewrite fmap_app, concat_app. Qed.

(** Reading through whole records and then going on with what follows. *)
Lemma replay_records f seg alg fuel rs : forall pre rest, bytes_of f = pre ++ log_bytes alg rs ++ rest ->
  Forall record_ok rs -> Z.of_nat (length (bytes_of f)) < 2 ^ 64 ->
  WriteAheadLogReader.replay (length rs + fuel) f (WriteAheadLogReader.mk seg (Z.of_nat (length pre)) alg) =
    let '(es, res) := WriteAheadLogReader.replay fuel f
                        (WriteAheadLogReader.mk seg (Z.of_nat (length (pre ++ log_bytes alg rs))) alg) in
    (entries seg alg (Z.of_nat (length pre)) rs ++ es, res).
Proof using All.
  induction rs as [|r rs IH]; intros pre rest Hf Hrs Hmax.
  - cbn. rewrite app_nil_r. by destruct (WriteAheadLogReader.replay _ _ _).
  - apply Forall_cons in Hrs as [Hr Hrs]. rewrite log_bytes_cons, <- app_assoc in Hf.
    cbn [length Nat.add WriteAheadLogReader.replay]. rewrite (next_record _ _ _ _ _ _ Hf Hr Hmax).
    rewrite app_assoc in Hf. rewrite (IH _ _ Hf Hrs Hmax), log_bytes_cons, app_assoc.
    destruct (WriteAheadLogReader.replay _ _ _) as [es res]. cbn [entries app].
    by rewrite length_app, Nat2Z.inj_add.
Qed.

Lemma replay_log f seg alg pre rs : bytes_of f = pre ++ log_bytes alg rs -> Forall record_ok rs ->
  Z.of_nat (length (bytes_of f)) < 2 ^ 64 ->
  WriteAheadLogReader.replay (S (length rs)) f (WriteAheadLogReader.mk seg (Z.of_nat (length pre)) alg) =
    (entries seg alg (Z.of_nat (length pre)) rs, Ok tt).
Proof using All.
  intros Hf Hrs Hmax. replace (S (length rs)) with (length rs + 1)%nat by lia.
  rewrite (replay_records _ _ _ _ _ _ [] ltac:(by rewrite app_nil_r) Hrs Hmax). cbn [WriteAheadLogReader.replay].
  rewrite next_end by (cbn; by rewrite Hf). by rewrite app_nil_r.
Qed.

(** *** Appending *)

Lemma append_holds w header rs r : holds w header rs ->
  write_offset w + Z.of_nat (length (record_bytes (integrity w) r)) < 2 ^ 64 ->
  exists w', append w r = (Ok (tail_lsn w), w') /\ holds w' header (rs ++ [r]) /\
    write_offset w' = write_offset w + Z.of_nat (length (record_bytes (integrity w) r)) /\
    shard_id w' = shard_id w /\ segment_id w' = segment_id w /\ start_offset w' = start_offset w /\ integrity w' = integrity w.
Proof using All.
  intros (Hb & Ho & Hmax) Hlen. unfold append.
  destruct (write_law (file w) (write_offset w) (record_bytes (integrity w) r)) as (f' & -> & Hf'); [lia|].
  cbn [fs_err]. eexists. split; [done|]. unfold holds. cbn.
  rewrite overwrite_end in Hf' by lia.
  assert (Hu : u64 (write_offset w + Z.of_nat (length (record_bytes (integrity w) r))) =
               write_offset w + Z.of_nat (length (record_bytes (integrity w) r))) by (apply wrap_small; lia).
  rewrite Hu, Hf', Hb, log_bytes_app, !length_app in *. unfold log_bytes at 3. cbn [fmap list_fmap concat].
  rewrite app_nil_r, app_assoc. split_and!; try done; try lia.
Qed.

Lemma append_all_holds rs' : forall w header rs lsn, holds w header rs ->
  write_offset w + Z.of_nat (length (log_bytes (integrity w) rs')) < 2 ^ 64 ->
  exists w', WriteAheadLogWriter.append_all w rs' lsn =
      (Ok (default lsn (last (entry_lsn <$> entries (segment_id w) (integrity w) (write_offset w) rs'))), w') /\
    holds w' header (rs ++ rs') /\
    shard_id w' = shard_id w /\ segment_id w' = segment_id w /\ start_offset w' = start_offset w /\ integrity w' = integrity w.
Proof using All.
  induction rs' as [|r rs' IH]; intros w header rs lsn Hw Hlen.
  - exists w. rewrite app_nil_r. by cbn.
  - rewrite log_bytes_cons, length_app in Hlen.
    destruct (append_holds w header rs r Hw ltac:(lia)) as (w1 & H1 & Hw1 & Ho1 & Hs & Hg & Hst & Hi).
    destruct (IH w1 header (rs ++ [r]) (tail_lsn w) Hw1 ltac:(rewrite Hi, Ho1; lia)) as (w2 & H2 & Hw2 & Hs2 & Hg2 & Hst2 & Hi2).
    exists w2. cbn [WriteAheadLogWriter.append_all]. rewrite H1, H2. rewrite <- app_assoc in Hw2. split_and!; try congruence; [|done].
    rewrite Hg, Hi, Ho1. cbn [entries fmap list_fmap entry_lsn]. rewrite last_cons. case_match; [done|reflexivity].
Qed.

Lemma apply_durability_holds w header rs d : holds w header rs ->
  exists w', WriteAheadLogWriter.apply_durability w d = (Ok tt, w') /\ holds w' header rs /\
    shard_id w' = shard_id w /\ segment_id w' = segment_id w /\ start_offset w' = start_offset w /\ integrity w' = integrity w.
Proof using All.
  intros (Hb & Ho & Hmax). destruct d; cbn [WriteAheadLogWriter.apply_durability]; [by exists w| |].
  - unfold flush. destruct (sync_data_law (file w)) as (f' & -> & Hf'). eexists. split; [done|].
    unfold holds, with_file. cbn. by rewrite Hf'.
  - unfold sync. destruct (sync_all_law (file w)) as (f' & -> & Hf'). eexists. split; [done|].
    unfold holds, with_file. cbn. by rewrite Hf'.
Qed.

Lemma append_batch_holds w header rs rs' d : holds w header rs ->
  write_offset w + Z.of_nat (length (log_bytes (integrity w) rs')) < 2 ^ 64 ->
  exists w', WriteAheadLogWriter.append_batch w rs' d =
      (Ok (default LSN_ZERO (last (entry_lsn <$> entries (segment_id w) (integrity w) (write_offset w) rs'))), w') /\
    holds w' header (rs ++ rs') /\
    shard_id w' = shard_id w /\ segment_id w' = segment_id w /\ start_offset w' = start_offset w /\ integrity w' = integrity w.
Proof using All.
  intros Hw Hlen. unfold WriteAheadLogWriter.append_batch, WriteAheadLogWriter.finish.
  destruct (append_all_holds rs' w header rs LSN_ZERO Hw Hlen) as (w1 & -> & Hw1 & Hs & Hg & Hst & Hi).
  destruct (apply_durability_holds w1 header (rs ++ rs') d Hw1) as (w2 & -> & Hw2 & Hs2 & Hg2 & Hst2 & Hi2).
  exists w2. split_and!; try congruence; done.
Qed.

(** *** Creating and opening *)

Lemma create_holds f now shard seg start alg comp enc key : bytes_of f = [] ->
  exists w header, create f now shard seg start alg comp enc key = Ok w /\ holds w header [] /\
    length header = HEADER_SIZE /\ write_offset w = Z.of_nat HEADER_SIZE /\
    shard_id w = shard /\ segment_id w = seg /\ start_offset w = start /\ integrity w = alg /\
    WriteAheadLogSegmentHeader.encode (WriteAheadLogSegmentHeader.mk 1 shard seg start now alg comp enc key 0)
      (replicate HEADER_SIZE 0) = Some header.
Proof using All.
  intros Hf. unfold create. rewrite HeaderSpec.encode_some by done. cbn [or_panic rbind].
  set (header := _ ++ _).
  destruct (write_law f 0 header) as (f' & -> & Hf'); [done|]. cbn [fs_err rbind].
  rewrite Hf, overwrite_nil in Hf'.
  assert (Hlen : length header = HEADER_SIZE).
  { unfold header. rewrite !length_app, HeaderSpec.length_checked, !length_be_bytes. reflexivity. }
  eexists _, header. split; [done|]. unfold holds. cbn [file integrity write_offset shard_id segment_id start_offset].
  rewrite Hf', Hlen. by rewrite app_nil_r.
Qed.

(** Opening a segment gives back the state its writer had. *)
Lemma open_holds w header rs h : holds w header rs -> length header = HEADER_SIZE -> HeaderSpec.header_ok h ->
  WriteAheadLogSegmentHeader.encode h (replicate HEADER_SIZE 0) = Some header ->
  shard_id w = WriteAheadLogSegmentHeader.shard_id h -> segment_id w = WriteAheadLogSegmentHeader.segment_id h ->
  start_offset w = WriteAheadLogSegmentHeader.start_offset h -> integrity w = WriteAheadLogSegmentHeader.integrity h ->
  open_existing (file w) = Ok w.
Proof using All.
  intros (Hb & Ho & _) Hlen Hh Henc Hs Hg Hst Hi. unfold open_existing.
  pose proof (read_here (file w) [] header _ HEADER_SIZE Hb Hlen) as Hread. change (Z.of_nat (length (@nil Z))) with 0 in Hread. rewrite Hread. cbn [fs_err rbind]. rewrite Hlen, Nat.sub_diag. cbn [replicate]. rewrite app_nil_r.
  destruct (HeaderSpec.decode_encode h (replicate HEADER_SIZE 0) Hh ltac:(done)) as (b & Hb' & Hdec).
  rewrite Henc in Hb'. injection Hb' as <-. rewrite Hdec. cbn [rbind]. rewrite get_size_law. cbn [fs_err rbind].
  unfold HeaderSpec.sealed. cbn. rewrite <- Hs, <- Hg, <- Hst, <- Hi, <- Ho. by destruct w.
Qed.

(** *** Crashes *)

(** A prefix of the log is some whole records and a proper prefix of the next. *)
Lemma log_prefix alg rs : forall n, (n < length (log_bytes alg rs))%nat ->
  exists rs1 r rs2 m, rs = rs1 ++ r :: rs2 /\ (m < length (record_bytes alg r))%nat /\
    n = (length (log_bytes alg rs1) + m)%nat /\ take n (log_bytes alg rs) = log_bytes alg rs1 ++ take m (record_bytes alg r).
Proof.
  induction rs as [|r rs IH]; intros n Hn; [simpl in Hn; lia|].
  rewrite log_bytes_cons in *. rewrite length_app in Hn.
  destruct (decide (n < length (record_bytes alg r))%nat) as [Hlt|Hge].
  - exists [], r, rs, n. split_and!; try done. cbn. by rewrite take_app_le by lia.
  - destruct (IH (n - length (record_bytes alg r))%nat ltac:(lia)) as (rs1 & r' & rs2 & m & -> & Hm & Hn' & Ht).
    exists (r :: rs1), r', rs2, m. split_and!; try done; [rewrite log_bytes_cons, length_app; lia|].
    rewrite take_app_ge, Ht, log_bytes_cons, app_assoc by lia. done.
Qed.

Lemma replay_torn f seg alg pre rs r n fuel : bytes_of f = pre ++ log_bytes alg rs ++ take n (record_bytes alg r) ->
  Forall record_ok rs -> record_ok r -> (n < length (record_bytes alg r))%nat -> Z.of_nat (length (bytes_of f)) < 2 ^ 64 ->
  WriteAheadLogReader.replay (length rs + S fuel) f (WriteAheadLogReader.mk seg (Z.of_nat (length pre)) alg) =
    (entries seg alg (Z.of_nat (length pre)) rs,
     if (n <? 10)%nat then Ok tt else Err (Corruption (Lsn seg (Z.of_nat (length (pre ++ log_bytes alg rs)))))).
Proof using All.
  intros Hf Hrs Hr Hn Hmax. rewrite (replay_records _ _ _ _ _ _ _ Hf Hrs Hmax). cbn [WriteAheadLogReader.replay].
  rewrite app_assoc in Hf. destruct (decide (n = 0%nat)) as [->|].
  - rewrite next_end; [by rewrite app_nil_r|]. cbn [WriteAheadLogReader.offset]. rewrite Hf. by rewrite take_0, app_nil_r.
  - rewrite (next_torn _ _ _ _ _ _ Hf Hr) by lia. destruct (n <? 10)%nat; by rewrite app_nil_r.
Qed.

Lemma replay_crash f seg alg header rs n : Forall record_ok rs ->
  Z.of_nat (length (header ++ log_bytes alg rs)) < 2 ^ 64 -> (length header <= n)%nat ->
  bytes_of f = take n (header ++ log_bytes alg rs) ->
  exists rs1 rs2 res, rs = rs1 ++ rs2 /\
    WriteAheadLogReader.replay (S (length rs)) f (WriteAheadLogReader.mk seg (Z.of_nat (length header)) alg) =
      (entries seg alg (Z.of_nat (length header)) rs1, res) /\
    (res = Ok tt \/ exists lsn, res = Err (Corruption lsn)) /\
    match rs2 with
    | [] => res = Ok tt
    | r :: _ => (n < length header + length (log_bytes alg (rs1 ++ [r])))%nat
    end.
Proof using All.
  intros Hrs Hmax Hn Hf. rewrite length_app in Hmax. rewrite take_app_ge in Hf by lia.
  destruct (decide (n - length header < length (log_bytes alg rs))%nat) as [Hlt|Hge].
  - destruct (log_prefix alg rs _ Hlt) as (rs1 & r & rs2 & m & -> & Hm & Hnm & Ht). rewrite Ht in Hf.
    apply Forall_app in Hrs as [Hrs1 Hrs2]. apply Forall_cons in Hrs2 as [Hr _].
    rewrite log_bytes_app, log_bytes_cons, !length_app in Hmax.
    assert (Hfm : Z.of_nat (length (bytes_of f)) < 2 ^ 64) by (rewrite Hf, !length_app, length_take; lia).
    eexists rs1, (r :: rs2), _. split; [done|]. split; [|split].
    + rewrite length_app. cbn [length]. replace (S (length rs1 + S (length rs2))) with (length rs1 + S (S (length rs2)))%nat by lia.
      by apply (replay_torn _ _ _ _ _ r m).
    + case_match; eauto.
    + rewrite log_bytes_app, log_bytes_cons, !length_app. lia.
  - rewrite take_ge in Hf by lia. exists rs, [], (Ok tt). rewrite app_nil_r.
    split_and!; auto. apply replay_log; auto. rewrite Hf, length_app. lia.
Qed.
End log.
End LogSpec.

(** ** Properties *)

Section properties.
Context `{!Integrity.Hashes} `{!Integrity.HashLaws}.

(** Encoding a segment header whose fields fit their widths into a buffer
    of at least [HEADER_SIZE] bytes never panics, and decoding the result gives
    the header back with its checksum filled in. *)
Theorem header_roundtrip (h : WriteAheadLogSegmentHeader.t) (buffer : list Z) :
  HeaderSpec.header_ok h -> (HEADER_SIZE <= length buffer)%nat ->
  exists b, WriteAheadLogSegmentHeader.encode h buffer = Some b /\ length b = length buffer /\
    WriteAheadLogSegmentHeader.decode b = Ok (HeaderSpec.sealed h).
Proof using All.
  intros Hh Hlen. destruct (HeaderSpec.decode_encode h buffer Hh Hlen) as (b & Henc & Hdec). exists b. split_and!; auto.
  rewrite HeaderSpec.encode_some in Henc by done. apply (inj Some) in Henc as <-.
  rewrite !length_app, HeaderSpec.length_checked, !length_be_bytes, length_drop. unfold HEADER_SIZE in *. lia.
Qed.

(** Decoding accepts only canonical headers: when a checksum is used, the
    bytes of an accepted header are exactly the encoding of what was decoded,
    so no two different byte strings decode to the same header. *)
Theorem header_canonical (b : list Z) (h : WriteAheadLogSegmentHeader.t) :
  byte_list b -> length b = HEADER_SIZE -> WriteAheadLogSegmentHeader.decode b = Ok h ->
  WriteAheadLogSegmentHeader.integrity h <> NoIntegrity -> WriteAheadLogSegmentHeader.encode h b = Some b.
Proof using All. apply HeaderSpec.encode_decode. Qed.

Context {F : Type} `{!File F} `{!FileLaws F}.

(** C8. On an empty file, creating a segment and appending a batch of records
    succeeds at any durability; replaying from the end of the header then
    terminates within one step per record plus one and returns exactly the
    records appended, in order, with strictly increasing LSNs, and the LSN the
    batch reported is that of its last entry. *)
Theorem log_replay (f : F) now shard seg start alg comp enc key rs d :
  bytes_of f = [] -> Forall LogSpec.record_ok rs ->
  Z.of_nat HEADER_SIZE + Z.of_nat (length (LogSpec.log_bytes alg rs)) < 2 ^ 64 ->
  exists w0 lsn w es, WriteAheadLogFile.create f now shard seg start alg comp enc key = Ok w0 /\
    WriteAheadLogWriter.append_batch w0 rs d = (Ok lsn, w) /\
    WriteAheadLogReader.replay (S (length rs)) (WriteAheadLogFile.file w)
      (WriteAheadLogFile.reader_from_offset w (Z.of_nat HEADER_SIZE)) = (es, Ok tt) /\
    map LogSpec.entry_record es = rs /\ StronglySorted lsn_lt (map entry_lsn es) /\
    lsn = default LSN_ZERO (last (map entry_lsn es)).
Proof using All.
  intros Hf Hrs Hmax.
  destruct (LogSpec.create_holds f now shard seg start alg comp enc key Hf) as (w0 & header & Hc & Hw0 & Hlen & Ho & _ & Hg & _ & Hi & _).
  destruct (LogSpec.append_batch_holds w0 header [] rs d Hw0 ltac:(rewrite Ho, Hi; done)) as (w & Ha & (Hb & Hwo & Hw64) & _ & Hg' & _ & Hi').
  eexists w0, _, w, _. split; [done|]. split; [done|]. cbn [app] in Hb.
  unfold WriteAheadLogFile.reader_from_offset. rewrite <- Hlen. split.
  { apply LogSpec.replay_log; auto. by rewrite <- Hwo. }
  rewrite Hg', Hi', Ho, Hlen. split_and!; [apply LogSpec.entries_records|apply LogSpec.entries_sorted|done].
Qed.

(** C9. Crash safety of the log: when only the first [n] bytes of a segment
    survive, [n] at least the header, replay returns exactly the longest run of
    records that survived whole, never an altered or invented one, and then
    stops with the end of the log or a corruption error; when nothing is
    missing it ends cleanly. *)
Theorem crash_recovery (w : WriteAheadLogFile.t F) header rs (n : nat) (f : F) :
  LogSpec.holds w header rs -> Forall LogSpec.record_ok rs -> (length header <= n)%nat ->
  bytes_of f = take n (bytes_of (WriteAheadLogFile.file w)) ->
  exists rs1 rs2 es res, rs = rs1 ++ rs2 /\
    WriteAheadLogReader.replay (S (length rs)) f
      (WriteAheadLogFile.reader_from_offset w (Z.of_nat (length header))) = (es, res) /\
    map LogSpec.entry_record es = rs1 /\
    (res = Ok tt \/ exists lsn, res = Err (Corruption lsn)) /\
    match rs2 with
    | [] => res = Ok tt
    | r :: _ => (n < length header + length (LogSpec.log_bytes (WriteAheadLogFile.integrity w) (rs1 ++ [r])))%nat
    end.
Proof using All.
  intros (Hb & Hwo & Hw64) Hrs Hn Hf. rewrite Hb in Hf, Hwo.
  destruct (LogSpec.replay_crash f (WriteAheadLogFile.segment_id w) (WriteAheadLogFile.integrity w) header rs n Hrs ltac:(rewrite <- Hwo; done) Hn Hf) as (rs1 & rs2 & res & H1 & H2 & H3 & H4).
  eexists rs1, rs2, _, res. split_and!; eauto. apply LogSpec.entries_records.
Qed.

(** Reopening a segment after any appends restores the writer's state
    exactly (ids, start offset, algorithm and write offset), so a later batch
    continues the log: replay returns the old records and then the new ones. *)
Theorem segment_reopen (f : F) now shard seg start alg comp enc key rs rs' d d' :
  bytes_of f = [] -> 0 <= now < 2 ^ 64 -> 0 <= shard < 2 ^ 128 -> 0 <= seg < 2 ^ 64 -> 0 <= start < 2 ^ 64 -> 0 <= key < 2 ^ 128 ->
  Forall LogSpec.record_ok (rs ++ rs') ->
  Z.of_nat HEADER_SIZE + Z.of_nat (length (LogSpec.log_bytes alg (rs ++ rs'))) < 2 ^ 64 ->
  exists w0 lsn w lsn' w' es, WriteAheadLogFile.create f now shard seg start alg comp enc key = Ok w0 /\
    WriteAheadLogWriter.append_batch w0 rs d = (Ok lsn, w) /\
    WriteAheadLogFile.open_existing (WriteAheadLogFile.file w) = Ok w /\
    WriteAheadLogWriter.append_batch w rs' d' = (Ok lsn', w') /\
    WriteAheadLogReader.replay (S (length (rs ++ rs'))) (WriteAheadLogFile.file w')
      (WriteAheadLogFile.reader_from_offset w' (Z.of_nat HEADER_SIZE)) = (es, Ok tt) /\
    map LogSpec.entry_record es = rs ++ rs'.
Proof using All.
  intros Hf Hnow Hshard Hseg Hstart Hkey Hrs Hmax. rewrite LogSpec.log_bytes_app, length_app in Hmax.
  destruct (LogSpec.create_holds f now shard seg start alg comp enc key Hf) as (w0 & header & Hc & Hw0 & Hlen & Ho & Hs & Hg & Hst & Hi & Henc).
  destruct (LogSpec.append_batch_holds w0 header [] rs d Hw0 ltac:(rewrite Ho, Hi; lia)) as (w & Ha & Hw & Hs' & Hg' & Hst' & Hi').
  pose proof Hw as (Hb & Hwo & Hw64). cbn [app] in Hb.
  assert (Hwl : WriteAheadLogFile.write_offset w = Z.of_nat HEADER_SIZE + Z.of_nat (length (LogSpec.log_bytes alg rs))).
  { rewrite Hwo, Hb, length_app, Hlen, Hi', Hi. lia. }
  destruct (LogSpec.append_batch_holds w header rs rs' d' Hw ltac:(rewrite Hwl, Hi', Hi; lia)) as (w' & Ha' & (Hb' & Hwo' & Hw64') & _ & Hg'' & _ & Hi'').
  eexists w0, _, w, _, w', _. do 2 (split; [done|]). split.
  { eapply LogSpec.open_holds; [exact Hw|exact Hlen| |exact Henc|cbn; congruence..].
    unfold HeaderSpec.header_ok. cbn. lia. }
  split; [done|]. unfold WriteAheadLogFile.reader_from_offset. rewrite <- Hlen. split.
  { apply LogSpec.replay_log; auto. by rewrite <- Hwo'. }
  apply LogSpec.entries_records.
Qed.

(** The header checksum does not cover the encryption key id: replacing
    the stored key id by any other yields a header that decodes without error. *)
Theorem header_key_id_unprotected (h : WriteAheadLogSegmentHeader.t) (key : Z) (b : list Z) :
  HeaderSpec.header_ok h -> 0 <= key < 2 ^ 128 ->
  WriteAheadLogSegmentHeader.encode h (replicate HEADER_SIZE 0) = Some b ->
  exists h', WriteAheadLogSegmentHeader.decode (overwrite 0x31 (be_bytes 16 key) b) = Ok h' /\
    WriteAheadLogSegmentHeader.encryption_key_id h' = key.
Proof using All.
  intros Hh Hkey Henc. rewrite HeaderSpec.encode_some in Henc by done. apply (inj Some) in Henc as <-.
  set (b := _ ++ _). assert (Hlen : length b = 69%nat).
  { unfold b. by rewrite !length_app, HeaderSpec.length_checked, !length_be_bytes. }
  unfold overwrite. rewrite Hlen, length_be_bytes. cbn [Nat.sub Nat.add replicate]. rewrite app_nil_r.
  assert (Ht : take 49 b = WriteAheadLogSegmentHeader.checked_bytes h).
  { unfold b. by rewrite <- (HeaderSpec.length_checked h), take_app_length. }
  rewrite Ht. unfold b. rewrite (drop_app_ge (WriteAheadLogSegmentHeader.checked_bytes h)), HeaderSpec.length_checked by (rewrite HeaderSpec.length_checked; lia).
  rewrite drop_app_ge, length_be_bytes by (rewrite length_be_bytes; lia). cbn [Nat.sub]. rewrite drop_0.
  eexists. split; [apply HeaderSpec.decode_sealed; auto; apply Integrity.checksum_u32|done].
Qed.

(** A new manager's [head_lsn] is not the position of a record: the
    reader it gives ([reader_from head_lsn]) is placed on the segment header
    and reports corruption, even though the log is intact. *)
Theorem head_lsn_unreadable {FS} `{!WriteAheadLogManager.FileSystemOps FS F} path (fs fs' : FS) now dir cfg (f : F) :
  WriteAheadLogManager.fs_exists fs dir = Ok true -> WriteAheadLogManager.fs_exists fs (path dir 0) = Ok false ->
  WriteAheadLogManager.fs_create_file fs (path dir 0) = (Ok f, fs') -> bytes_of f = [] ->
  exists m rd file, WriteAheadLogManager.new path fs now dir cfg = Ok m /\
    WriteAheadLogManager.reader_from m (WriteAheadLogManager.head_lsn m) = Ok (rd, file) /\
    fst (WriteAheadLogReader.next file rd) = Err (Corruption (Lsn 0 0)).
Proof using All.
  intros Hd Hp Hc Hf. unfold WriteAheadLogManager.new. rewrite Hd. cbn [fs_err rbind]. rewrite Hp. cbn [fs_err rbind]. rewrite Hc. cbn [fs_err rbind].
  destruct (LogSpec.create_holds f now (WriteAheadLogManager.cfg_shard_id cfg) 0 0 (WriteAheadLogManager.cfg_checksum cfg)
    (WriteAheadLogManager.cfg_compression cfg) (WriteAheadLogManager.cfg_encryption cfg) 0 Hf) as (w & header & Hw & (Hb & _) & Hlen & _ & _ & Hg & Hst & _ & Henc).
  rewrite Hw. cbn [rbind]. eexists _, _, _. split; [done|].
  unfold WriteAheadLogManager.reader_from, WriteAheadLogManager.head_lsn, WriteAheadLogFile.start_lsn, WriteAheadLogFile.reader_from_offset.
  cbn [WriteAheadLogManager.archived_segments WriteAheadLogManager.active_segment lsn_segment lsn_offset].
  rewrite Z.eqb_refl, Hst, Hg. split; [done|]. unfold WriteAheadLogReader.next.
  cbn [WriteAheadLogReader.offset WriteAheadLogReader.position WriteAheadLogReader.segment_id]. cbv zeta.
  assert (Hl : length (bytes_of (WriteAheadLogFile.file w)) = 69%nat) by (by rewrite Hb, length_app, Hlen).
  rewrite get_size_law, Hl. cbn [fs_err rbind]. rewrite read_law by lia. cbn [fs_err rbind]. rewrite Hb, app_nil_r.
  rewrite HeaderSpec.encode_some in Henc by done. apply (inj Some) in Henc as <-. unfold WriteAheadLogSegmentHeader.checked_bytes.
  by vm_compute.
Qed.
End properties.

(** ** Instances at concrete inputs *)

Module WalWitness.

Import PolyHash.
#[local] Existing Instances poly_hashes poly_laws.

Definition h0 : WriteAheadLogSegmentHeader.t := WriteAheadLogSegmentHeader.mk 1 7 2 0 1700 Crc32c Lz4 NoEncryption 9 0.
Definition r1 : WriteAheadLogRecord := Record_ 1 [1; 2; 3].
Definition r2 : WriteAheadLogRecord := Record_ 2 [].
Definition r3 : WriteAheadLogRecord := Record_ 65535 [255; 0].
Definition empty : MemoryFile.t := MemoryFile.new "segment".
Definition b0 : list Z := default [] (WriteAheadLogSegmentHeader.encode h0 (replicate 69 0)).

(** A segment that holds the three records. *)
Definition w3 : WriteAheadLogFile.t MemoryFile.t :=
  WriteAheadLogFile.mk (MemoryFile.mk 0 "segment" (b0 ++ LogSpec.log_bytes Crc32c [r1; r2; r3]) MemoryFile.Unlocked) 7 2 0
    (Z.of_nat (length (b0 ++ LogSpec.log_bytes Crc32c [r1; r2; r3]))) Crc32c.

Lemma header_roundtrip_witness : exists b, WriteAheadLogSegmentHeader.encode h0 (replicate 70 1) = Some b /\
  length b = 70%nat /\ WriteAheadLogSegmentHeader.decode b = Ok (HeaderSpec.sealed h0).
Proof. apply (header_roundtrip h0 (replicate 70 1)); [by apply (bool_decide_unpack _)|by vm_compute; lia]. Defined.

Lemma header_canonical_witness : WriteAheadLogSegmentHeader.encode (HeaderSpec.sealed h0) b0 = Some b0.
Proof.
  apply (header_canonical b0 (HeaderSpec.sealed h0)); [|by vm_compute|by vm_compute|done].
  apply (bool_decide_unpack _). by vm_compute.
Defined.

Lemma log_replay_witness : exists w0 lsn w es,
  WriteAheadLogFile.create empty 1700 7 2 0 Crc32c Lz4 NoEncryption 9 = Ok w0 /\
  WriteAheadLogWriter.append_batch w0 [r1; r2; r3] Sync = (Ok lsn, w) /\
  WriteAheadLogReader.replay 4 (WriteAheadLogFile.file w) (WriteAheadLogFile.reader_from_offset w 69) = (es, Ok tt) /\
  map LogSpec.entry_record es = [r1; r2; r3] /\ StronglySorted lsn_lt (map entry_lsn es) /\
  lsn = default LSN_ZERO (last (map entry_lsn es)).
Proof.
  apply (log_replay empty 1700 7 2 0 Crc32c Lz4 NoEncryption 9 [r1; r2; r3] Sync);
    [done|by apply (bool_decide_unpack _)|by vm_compute].
Defined.

(** The log cut in the middle of its last record. *)
Lemma crash_recovery_witness : exists rs1 rs2 es res, [r1; r2; r3] = rs1 ++ rs2 /\
  WriteAheadLogReader.replay 4 (MemoryFile.mk 0 "segment" (take 112 (MemoryFile.buffer (WriteAheadLogFile.file w3))) MemoryFile.Unlocked)
    (WriteAheadLogFile.reader_from_offset w3 69) = (es, res) /\
  map LogSpec.entry_record es = rs1 /\ (res = Ok tt \/ exists lsn, res = Err (Corruption lsn)) /\
  match rs2 with
  | [] => res = Ok tt
  | r :: _ => (112 < length b0 + length (LogSpec.log_bytes Crc32c (rs1 ++ [r])))%nat
  end.
Proof.
  apply (crash_recovery w3 b0 [r1; r2; r3] 112); [split_and!; by vm_compute|by apply (bool_decide_unpack _)|vm_compute; lia|done].
Defined.

Lemma segment_reopen_witness : exists w0 lsn w lsn' w' es,
  WriteAheadLogFile.create empty 1700 7 2 0 XXHash32 Lz4 NoEncryption 9 = Ok w0 /\
  WriteAheadLogWriter.append_batch w0 [r1] Buffered = (Ok lsn, w) /\
  WriteAheadLogFile.open_existing (WriteAheadLogFile.file w) = Ok w /\
  WriteAheadLogWriter.append_batch w [r2; r3] DurNone = (Ok lsn', w') /\
  WriteAheadLogReader.replay 4 (WriteAheadLogFile.file w') (WriteAheadLogFile.reader_from_offset w' 69) = (es, Ok tt) /\
  map LogSpec.entry_record es = [r1; r2; r3].
Proof.
  apply (segment_reopen empty 1700 7 2 0 XXHash32 Lz4 NoEncryption 9 [r1] [r2; r3] Buffered DurNone);
    try lia; [done|by apply (bool_decide_unpack _)|by vm_compute].
Defined.

Lemma header_key_id_unprotected_witness : exists h',
  WriteAheadLogSegmentHeader.decode (overwrite 0x31 (be_bytes 16 12345) b0) = Ok h' /\
  WriteAheadLogSegmentHeader.encryption_key_id h' = 12345.
Proof. apply (header_key_id_unprotected h0); [by apply (bool_decide_unpack _)|lia|by vm_compute]. Defined.

(** A file system that has one directory and creates empty files. *)
#[local] Instance one_dir : WriteAheadLogManager.FileSystemOps unit MemoryFile.t := {|
  WriteAheadLogManager.fs_exists _ p := Ok (bool_decide (p = "wal"%string));
  WriteAheadLogManager.fs_create_directory_all fs _ := (Ok tt, fs);
  WriteAheadLogManager.fs_open_file _ _ := Err PathMissing;
  WriteAheadLogManager.fs_create_file fs p := (Ok (MemoryFile.new p), fs);
  WriteAheadLogManager.fs_remove_file fs _ := (Ok tt, fs)
|}.

Lemma head_lsn_unreadable_witness : exists m rd file,
  WriteAheadLogManager.new (fun d _ => d +:+ "/segment") tt 1700 "wal" (WriteAheadLogManager.Config 7 Crc32c Lz4 NoEncryption) = Ok m /\
  WriteAheadLogManager.reader_from m (WriteAheadLogManager.head_lsn m) = Ok (rd, file) /\
  fst (WriteAheadLogReader.next file rd) = Err (Corruption (Lsn 0 0)).
Proof.
  apply (head_lsn_unreadable (fun d _ => d +:+ "/segment") tt tt 1700 "wal"
    (WriteAheadLogManager.Config 7 Crc32c Lz4 NoEncryption) (MemoryFile.new "wal/segment")); by vm_compute.
Defined.

End WalWitness.
