(* ===== verification/LsmRecord.v ===== *)
(** * Log records of the LSM engine

    Models nanograph-lsm/src/wal_record.rs: the record kinds and the payload
    codecs.  Offsets are [usize]; they are bounded by the payload's length plus
    [2^33], so they do not wrap. *)

From Stdlib Require Import ZArith Lia.
From stdpp Require Import option strings base list.
From S2P Require Import Prelude BTreeError Wal.

Open Scope Z_scope.

Inductive WalRecordKind : Type :=
| Put | Delete | PutCommitted | DeleteCommitted | Commit | Checkpoint | FlushComplete.

Definition from_u16 (value : Z) : option WalRecordKind :=
  match value with
  | 1 => Some Put
  | 2 => Some Delete
  | 3 => Some PutCommitted
  | 4 => Some DeleteCommitted
  | 5 => Some Commit
  | 6 => Some Checkpoint
  | 7 => Some FlushComplete
  | _ => None
  end.

Definition to_u16 (k : WalRecordKind) : Z :=
  match k with
  | Put => 1
  | Delete => 2
  | PutCommitted => 3
  | DeleteCommitted => 4
  | Commit => 5
  | Checkpoint => 6
  | FlushComplete => 7
  end.

Abbreviation kv_result := (result KeyValueError).

Definition plen (payload : list Z) : Z := Z.of_nat (length payload).

(** [u32::from_le_bytes([p[o], .., p[o + 3]])] and the 8-byte forms: an index out of range panics. *)
Definition u32_at (o : Z) (payload : list Z) : kv_result Z := let! b := or_panic (zslice o (o + 4) payload) in Ok (le_value b).
Definition u64_at (o : Z) (payload : list Z) : kv_result Z := let! b := or_panic (zslice o (o + 8) payload) in Ok (le_value b).
Definition i64_at (o : Z) (payload : list Z) : kv_result Z := let! v := u64_at o payload in Ok (signed 64 v).
Definition bytes_at (i j : Z) (payload : list Z) : kv_result (list Z) := or_panic (zslice i j payload).

(** [(x.len() as u32).to_le_bytes()] and then [x]. *)
Definition put_bytes (x : list Z) : list Z := le_bytes 4 (u32 (plen x)) ++ x.

Definition encode_put (key value : list Z) : list Z := put_bytes key ++ put_bytes value.

Definition decode_put (payload : list Z) : kv_result (list Z * list Z) :=
  if plen payload <? 8 then Err (KvStorageCorruption "WAL Put record too short")
  else
    let! key_len := u32_at 0 payload in
    if plen payload <? 4 + key_len then Err (KvStorageCorruption "WAL Put record key length exceeds payload")
    else
      let! key := bytes_at 4 (4 + key_len) payload in
      let offset := 4 + key_len in
      if plen payload <? offset + 4 then Err (KvStorageCorruption "WAL Put record missing value length")
      else
        let! value_len := u32_at offset payload in
        let offset := offset + 4 in
        if plen payload <? offset + value_len then Err (KvStorageCorruption "WAL Put record value length exceeds payload")
        else
          let! value := bytes_at offset (offset + value_len) payload in
          Ok (key, value).

Definition encode_delete (key : list Z) : list Z := put_bytes key.

Definition decode_delete (payload : list Z) : kv_result (list Z) :=
  if plen payload <? 4 then Err (KvStorageCorruption "WAL Delete record too short")
  else
    let! key_len := u32_at 0 payload in
    if plen payload <? 4 + key_len then Err (KvStorageCorruption "WAL Delete record key length exceeds payload")
    else bytes_at 4 (4 + key_len) payload.

Definition encode_put_committed (key value : list Z) (commit_ts : Z) : list Z :=
  put_bytes key ++ put_bytes value ++ le_bytes 8 commit_ts.

Definition decode_put_committed (payload : list Z) : kv_result (list Z * list Z * Z) :=
  if plen payload <? 16 then Err (KvStorageCorruption "WAL PutCommitted record too short")
  else
    let! key_len := u32_at 0 payload in
    if plen payload <? 4 + key_len then Err (KvStorageCorruption "WAL PutCommitted record key length exceeds payload")
    else
      let! key := bytes_at 4 (4 + key_len) payload in
      let offset := 4 + key_len in
      if plen payload <? offset + 4 then Err (KvStorageCorruption "WAL PutCommitted record missing value length")
      else
        let! value_len := u32_at offset payload in
        let offset := offset + 4 in
        if plen payload <? offset + value_len + 8
        then Err (KvStorageCorruption "WAL PutCommitted record value length exceeds payload")
        else
          let! value := bytes_at offset (offset + value_len) payload in
          let offset := offset + value_len in
          let! commit_ts := i64_at offset payload in
          Ok (key, value, commit_ts).

Definition encode_delete_committed (key : list Z) (commit_ts : Z) : list Z := put_bytes key ++ le_bytes 8 commit_ts.

Definition decode_delete_committed (payload : list Z) : kv_result (list Z * Z) :=
  if plen payload <? 12 then Err (KvStorageCorruption "WAL DeleteCommitted record too short")
  else
    let! key_len := u32_at 0 payload in
    if plen payload <? 4 + key_len + 8
    then Err (KvStorageCorruption "WAL DeleteCommitted record key length exceeds payload")
    else
      let! key := bytes_at 4 (4 + key_len) payload in
      let! commit_ts := i64_at (4 + key_len) payload in
      Ok (key, commit_ts).

Definition encode_commit (commit_ts : Z) : list Z := le_bytes 8 commit_ts.

Definition decode_commit (payload : list Z) : kv_result Z :=
  if plen payload <? 8 then Err (KvStorageCorruption "WAL Commit record too short") else i64_at 0 payload.

Definition encode_checkpoint (sequence file_number : Z) : list Z := le_bytes 8 sequence ++ le_bytes 8 file_number.

Definition decode_checkpoint (payload : list Z) : kv_result (Z * Z) :=
  if plen payload <? 16 then Err (KvStorageCorruption "WAL Checkpoint record too short")
  else
    let! sequence := u64_at 0 payload in
    let! file_number := u64_at 8 payload in
    Ok (sequence, file_number).

Definition encode_flush_complete (file_number level : Z) : list Z := le_bytes 8 file_number ++ le_bytes 4 level.

Definition decode_flush_complete (payload : list Z) : kv_result (Z * Z) :=
  if plen payload <? 12 then Err (KvStorageCorruption "WAL FlushComplete record too short")
  else
    let! file_number := u64_at 0 payload in
    let! level := u32_at 8 payload in
    Ok (file_number, level).

(** ** Records as values *)

(** What a record says, and the record that says it. *)
Inductive WalOp : Type :=
| OpPut (key value : list Z)
| OpDelete (key : list Z)
| OpPutCommitted (key value : list Z) (commit_ts : Z)
| OpDeleteCommitted (key : list Z) (commit_ts : Z)
| OpCommit (commit_ts : Z)
| OpCheckpoint (sequence file_number : Z)
| OpFlushComplete (file_number level : Z).

Definition op_kind (o : WalOp) : WalRecordKind :=
  match o with
  | OpPut _ _ => Put
  | OpDelete _ => Delete
  | OpPutCommitted _ _ _ => PutCommitted
  | OpDeleteCommitted _ _ => DeleteCommitted
  | OpCommit _ => Commit
  | OpCheckpoint _ _ => Checkpoint
  | OpFlushComplete _ _ => FlushComplete
  end.

Definition encode_op (o : WalOp) : list Z :=
  match o with
  | OpPut k v => encode_put k v
  | OpDelete k => encode_delete k
  | OpPutCommitted k v ts => encode_put_committed k v ts
  | OpDeleteCommitted k ts => encode_delete_committed k ts
  | OpCommit ts => encode_commit ts
  | OpCheckpoint s f => encode_checkpoint s f
  | OpFlushComplete f l => encode_flush_complete f l
  end.

Definition record_of (o : WalOp) : WriteAheadLogRecord := Record_ (to_u16 (op_kind o)) (encode_op o).

Definition decode_op (k : WalRecordKind) (payload : list Z) : kv_result WalOp :=
  match k with
  | Put => let! (key, value) := decode_put payload in Ok (OpPut key value)
  | Delete => let! key := decode_delete payload in Ok (OpDelete key)
  | PutCommitted => let! (key, value, ts) := decode_put_committed payload in Ok (OpPutCommitted key value ts)
  | DeleteCommitted => let! (key, ts) := decode_delete_committed payload in Ok (OpDeleteCommitted key ts)
  | Commit => let! ts := decode_commit payload in Ok (OpCommit ts)
  | Checkpoint => let! (s, f) := decode_checkpoint payload in Ok (OpCheckpoint s f)
  | FlushComplete => let! (f, l) := decode_flush_complete payload in Ok (OpFlushComplete f l)
  end.

Definition i64_ok (ts : Z) : Prop := - 2 ^ 63 <= ts < 2 ^ 63.
Definition len_ok (x : list Z) : Prop := plen x < 2 ^ 32.

(** The fields fit the record format. *)
Definition op_ok (o : WalOp) : Prop :=
  match o with
  | OpPut k v => len_ok k /\ len_ok v
  | OpDelete k => len_ok k
  | OpPutCommitted k v ts => len_ok k /\ len_ok v /\ i64_ok ts
  | OpDeleteCommitted k ts => len_ok k /\ i64_ok ts
  | OpCommit ts => i64_ok ts
  | OpCheckpoint s f => 0 <= s < 2 ^ 64 /\ 0 <= f < 2 ^ 64
  | OpFlushComplete f l => 0 <= f < 2 ^ 64 /\ 0 <= l < 2 ^ 32
  end.

#[global] Instance op_ok_dec o : Decision (op_ok o).
Proof. unfold op_ok, len_ok, i64_ok. destruct o; apply _. Defined.

(** ** Reading what was written *)

Lemma u32_at_app l1 x l2 o : o = plen l1 -> 0 <= x < 2 ^ 32 -> u32_at o (l1 ++ le_bytes 4 x ++ l2) = Ok x.
Proof.
  intros -> Hx. unfold u32_at. rewrite (zslice_app l1 (le_bytes 4 x)) by (unfold plen; rewrite ?length_le_bytes; lia).
  cbn [or_panic rbind]. by rewrite le_value_small.
Qed.

Lemma u64_at_app l1 x l2 o : o = plen l1 -> 0 <= x < 2 ^ 64 -> u64_at o (l1 ++ le_bytes 8 x ++ l2) = Ok x.
Proof.
  intros -> Hx. unfold u64_at. rewrite (zslice_app l1 (le_bytes 8 x)) by (unfold plen; rewrite ?length_le_bytes; lia).
  cbn [or_panic rbind]. by rewrite le_value_small.
Qed.

Lemma i64_at_app l1 x l2 o : o = plen l1 -> i64_ok x -> i64_at o (l1 ++ le_bytes 8 x ++ l2) = Ok x.
Proof.
  intros -> Hx. unfold i64_at, u64_at. rewrite (zslice_app l1 (le_bytes 8 x)) by (unfold plen; rewrite ?length_le_bytes; lia).
  cbn [or_panic rbind]. rewrite le_value_wrap. simpl (8 * _). unfold i64_ok in Hx. by rewrite signed_wrap by lia.
Qed.

Lemma u32_at_here x l : 0 <= x < 2 ^ 32 -> u32_at 0 (le_bytes 4 x ++ l) = Ok x.
Proof. by apply (u32_at_app []). Qed.

Lemma u64_at_here x l : 0 <= x < 2 ^ 64 -> u64_at 0 (le_bytes 8 x ++ l) = Ok x.
Proof. by apply (u64_at_app []). Qed.

Lemma i64_at_here x l : i64_ok x -> i64_at 0 (le_bytes 8 x ++ l) = Ok x.
Proof. by apply (i64_at_app []). Qed.

Lemma bytes_at_app l1 x l2 i j : i = plen l1 -> j = i + plen x -> bytes_at i j (l1 ++ x ++ l2) = Ok x.
Proof. intros Hi Hj. unfold bytes_at. by rewrite zslice_app. Qed.

Lemma plen_app l1 l2 : plen (l1 ++ l2) = plen l1 + plen l2.
Proof. unfold plen. rewrite length_app. lia. Qed.

Lemma plen_le_bytes n x : plen (le_bytes n x) = Z.of_nat n.
Proof. unfold plen. by rewrite length_le_bytes. Qed.

Lemma plen_nonneg l : 0 <= plen l.
Proof. unfold plen. lia. Qed.

Lemma u32_plen x : len_ok x -> u32 (plen x) = plen x.
Proof. intros Hx. apply wrap_small. pose proof (plen_nonneg x). unfold len_ok in Hx. lia. Qed.

Ltac plen_solve := rewrite ?plen_app, ?plen_le_bytes; repeat match goal with |- context [plen ?l] => lazymatch goal with H : 0 <= plen l |- _ => fail | _ => pose proof (plen_nonneg l) end end; unfold len_ok in *; simpl Z.of_nat in *; try lia.

(** Read the fields of a payload one after the other. *)
Ltac read_step :=
  first
  [ match goal with
    | |- context [if ?a <? ?b then _ else _] => rewrite (proj2 (Z.ltb_ge a b)) by plen_solve
    | |- context [u32_at 0 (le_bytes 4 ?x ++ ?l)] => rewrite (u32_at_here x l) by plen_solve
    | |- context [u64_at 0 (le_bytes 8 ?x ++ ?l)] => rewrite (u64_at_here x l) by plen_solve
    end ];
  cbn [rbind].

Lemma decode_put_encode k v rest : len_ok k -> len_ok v -> decode_put (encode_put k v ++ rest) = Ok (k, v).
Proof.
  intros Hk Hv. unfold decode_put, encode_put, put_bytes. rewrite !u32_plen, <- !app_assoc by done.
  do 3 read_step.
  rewrite (bytes_at_app (le_bytes 4 (plen k)) k) by plen_solve. cbn [rbind]. cbv zeta. read_step.
  rewrite (app_assoc (le_bytes 4 (plen k))). rewrite u32_at_app by plen_solve. cbn [rbind]. read_step.
  rewrite (app_assoc _ (le_bytes 4 (plen v))). by rewrite bytes_at_app by plen_solve.
Qed.

Lemma decode_delete_encode k rest : len_ok k -> decode_delete (encode_delete k ++ rest) = Ok k.
Proof.
  intros Hk. unfold decode_delete, encode_delete, put_bytes. rewrite !u32_plen, <- !app_assoc by done.
  do 3 read_step. by rewrite bytes_at_app by plen_solve.
Qed.

Lemma decode_put_committed_encode k v ts rest : len_ok k -> len_ok v -> i64_ok ts ->
  decode_put_committed (encode_put_committed k v ts ++ rest) = Ok (k, v, ts).
Proof.
  intros Hk Hv Hts. unfold decode_put_committed, encode_put_committed, put_bytes. rewrite !u32_plen, <- !app_assoc by done.
  do 3 read_step.
  rewrite (bytes_at_app (le_bytes 4 (plen k)) k) by plen_solve. cbn [rbind]. cbv zeta. read_step.
  rewrite (app_assoc (le_bytes 4 (plen k))). rewrite u32_at_app by plen_solve. cbn [rbind]. read_step.
  rewrite (app_assoc _ (le_bytes 4 (plen v))). rewrite bytes_at_app by plen_solve. cbn [rbind].
  rewrite (app_assoc _ v). by rewrite i64_at_app by (done || plen_solve).
Qed.

Lemma decode_delete_committed_encode k ts rest : len_ok k -> i64_ok ts ->
  decode_delete_committed (encode_delete_committed k ts ++ rest) = Ok (k, ts).
Proof.
  intros Hk Hts. unfold decode_delete_committed, encode_delete_committed, put_bytes. rewrite !u32_plen, <- !app_assoc by done.
  do 3 read_step. rewrite bytes_at_app by plen_solve. cbn [rbind]. rewrite app_assoc. by rewrite i64_at_app by (done || plen_solve).
Qed.

Lemma decode_op_encode o rest : op_ok o -> decode_op (op_kind o) (encode_op o ++ rest) = Ok o.
Proof.
  destruct o; cbn [op_ok op_kind encode_op decode_op]; intros Ho; destruct_and?.
  - by rewrite decode_put_encode.
  - by rewrite decode_delete_encode.
  - by rewrite decode_put_committed_encode.
  - by rewrite decode_delete_committed_encode.
  - unfold decode_commit, encode_commit. read_step. by rewrite i64_at_here.
  - unfold decode_checkpoint, encode_checkpoint. rewrite <- app_assoc. do 2 read_step. by rewrite u64_at_app by (done || plen_solve).
  - unfold decode_flush_complete, encode_flush_complete. rewrite <- app_assoc. do 2 read_step. by rewrite u32_at_app by (done || plen_solve).
Qed.

Lemma kind_tag k : from_u16 (to_u16 k) = Some k.
Proof. by destruct k. Qed.

(** ** Decoding anything *)

(** A decoder's outcome on bytes from the disk: a value or a corruption error, never a panic. *)
Definition no_panic {A} (r : kv_result A) : Prop :=
  match r with Ok _ => True | Err (KvStorageCorruption _) => True | _ => False end.

Lemma u32_at_in o p : 0 <= o -> o + 4 <= plen p -> byte_list p -> exists x, u32_at o p = Ok x /\ 0 <= x < 2 ^ 32.
Proof.
  intros Ho Hp Hb. unfold u32_at. destruct (zslice_in p o (o + 4)) as (x & Hx & Hl); [lia|done|]. rewrite Hx. cbn [or_panic rbind].
  eexists. split; [done|]. apply zslice_Some in Hx as (_ & _ & _ & Hxe).
  assert (Hbx : byte_list x) by (subst x; by apply Forall_take, Forall_drop).
  pose proof (le_value_range x Hbx) as Hr. assert (length x = 4%nat) as Hl4 by lia. by rewrite Hl4 in Hr.
Qed.

Lemma u64_at_in o p : 0 <= o -> o + 8 <= plen p -> exists x, u64_at o p = Ok x.
Proof.
  intros Ho Hp. unfold u64_at. destruct (zslice_in p o (o + 8)) as (x & -> & _); [lia|done|]. by eexists.
Qed.

Lemma bytes_at_in i j p : 0 <= i <= j -> j <= plen p -> exists x, bytes_at i j p = Ok x.
Proof. intros Hi Hj. unfold bytes_at. destruct (zslice_in p i j Hi Hj) as (x & -> & _). by eexists. Qed.

Ltac total_step :=
  first
  [ exact I
  | match goal with
    | |- context [if ?a <? ?b then _ else _] => destruct (Z.ltb_spec a b)
    | |- context [u32_at ?o ?p] => destruct (u32_at_in o p) as (? & -> & ?); [lia|lia|done|]
    | |- context [i64_at ?o ?p] => unfold i64_at
    | |- context [u64_at ?o ?p] => destruct (u64_at_in o p) as (? & ->); [lia|lia|]
    | |- context [bytes_at ?i ?j ?p] => destruct (bytes_at_in i j p) as (? & ->); [lia|lia|]
    end; cbn [rbind no_panic]; cbv zeta ].

Lemma decode_op_total k p : byte_list p -> no_panic (decode_op k p).
Proof.
  intros Hb. destruct k; cbn [decode_op];
    unfold decode_put, decode_delete, decode_put_committed, decode_delete_committed, decode_commit, decode_checkpoint, decode_flush_complete;
    repeat total_step.
Qed.

(** ** Properties *)

(** Every record the engine logs reads back as what was logged: its kind
    tag decodes to its kind and its payload, even with bytes after it, to the
    same keys, values and timestamps, as long as lengths fit 32 bits. *)
Theorem record_roundtrip (o : WalOp) (rest : list Z) : op_ok o ->
  from_u16 (kind (record_of o)) = Some (op_kind o) /\ decode_op (op_kind o) (payload (record_of o) ++ rest) = Ok o.
Proof. intros Ho. split; [apply kind_tag|]. by apply decode_op_encode. Qed.

Lemma record_roundtrip_witness :
  from_u16 (kind (record_of (OpPutCommitted [1; 2] [3] (-5)))) = Some PutCommitted /\
  decode_op PutCommitted (payload (record_of (OpPutCommitted [1; 2] [3] (-5))) ++ [9]) = Ok (OpPutCommitted [1; 2] [3] (-5)).
Proof. apply (record_roundtrip (OpPutCommitted [1; 2] [3] (-5)) [9]). by apply (bool_decide_unpack _). Defined.

(** Decoding is total on hostile input: whatever bytes a payload holds,
    every record decoder returns a value or a corruption error and never
    indexes out of range. *)
Theorem record_decode_total (k : WalRecordKind) (payload : list Z) : byte_list payload -> no_panic (decode_op k payload).
Proof. apply decode_op_total. Qed.

Lemma record_decode_total_witness : no_panic (decode_op PutCommitted [255; 255; 255; 255; 0; 0; 0; 0; 0; 0; 0; 0; 0; 0; 0; 1]).
Proof. apply record_decode_total. apply (bool_decide_unpack _). by vm_compute. Defined.
