(* ===== verification/LsmMemtable.v ===== *)
(** * The memtable

    Models nanograph-lsm/src/memtable.rs, with [BlobRef] of bloblog.rs.  The
    [BTreeMap] is a list of bindings sorted by key.  The counters are atomics
    of width 64 and wrap. *)

From Stdlib Require Import ZArith Lia.
From stdpp Require Import sorting gmap option strings base list.
From S2P Require Import Prelude.

Open Scope Z_scope.

(** ** [BTreeMap<Vec<u8>, V>] *)

Module BTreeMap.
Section map.
Context {V : Type}.
Implicit Types l : list (list Z * V).

Fixpoint get (k : list Z) l : option V :=
  match l with
  | [] => None
  | (k', v) :: l' =>
      match bytes_cmp k k' with
      | Lt => None
      | Eq => Some v
      | Gt => get k l'
      end
  end.

(** The old value and the new map. *)
Fixpoint insert (k : list Z) (v : V) l : option V * list (list Z * V) :=
  match l with
  | [] => (None, [(k, v)])
  | (k', v') :: l' =>
      match bytes_cmp k k' with
      | Lt => (None, (k, v) :: l)
      | Eq => (Some v', (k', v) :: l')
      | Gt => let '(old, l'') := insert k v l' in (old, (k', v') :: l'')
      end
  end.

(** [range(start..end)] panics when [start > end]. *)
Definition range (start end_ : list Z) l : option (list (list Z * V)) :=
  match bytes_cmp start end_ with
  | Gt => None
  | _ => Some (filter (fun b => bytes_le start (fst b) /\ bytes_lt (fst b) end_) l)
  end.

Lemma get_to_map k l : sorted_by fst l -> get k l = to_map l !! k.
Proof.
  induction l as [|[k' v] l IH]; intros Hs; [done|]. apply sorted_by_cons in Hs as [Hs Hgt]. cbn [get fst] in *.
  change (to_map ((k', v) :: l)) with (<[k' := v]> (to_map l)). destruct (bytes_cmp k k') eqn:E.
  - apply bytes_cmp_eq in E as ->. by rewrite lookup_insert_eq.
  - rewrite lookup_insert_ne by (intros ->; by rewrite bytes_cmp_refl in E).
    symmetry. apply (to_map_gt_None _ k'); [done|]. by apply bytes_lt_le.
  - rewrite lookup_insert_ne by (intros ->; by rewrite bytes_cmp_refl in E). by apply IH.
Qed.

Lemma insert_view k v l : sorted_by fst l ->
  (exists l1 l2, l = l1 ++ l2 /\ all_lt fst k l1 /\ all_gt fst k l2 /\ insert k v l = (None, l1 ++ (k, v) :: l2)) \/
  (exists l1 v0 l2, l = l1 ++ (k, v0) :: l2 /\ all_lt fst k l1 /\ all_gt fst k l2 /\ insert k v l = (Some v0, l1 ++ (k, v) :: l2)).
Proof.
  induction l as [|[k' v'] l IH]; intros Hs.
  - left. exists [], []. split_and!; auto; apply Forall_nil_2.
  - pose proof Hs as Hs0. apply sorted_by_cons in Hs as [Hs Hgt]. cbn [insert fst] in *. destruct (bytes_cmp k k') eqn:E.
    + apply bytes_cmp_eq in E as ->. right. exists [], v', l. split_and!; auto. apply Forall_nil_2.
    + left. exists [], ((k', v') :: l). split_and!; auto; [apply Forall_nil_2|]. constructor; [done|].
      eapply (all_gt_trans fst k'); [done|]. by apply bytes_lt_le.
    + apply bytes_cmp_gt in E. destruct (IH Hs) as [(l1 & l2 & -> & H1 & H2 & ->)|(l1 & v0 & l2 & -> & H1 & H2 & ->)].
      * left. exists ((k', v') :: l1), l2. split_and!; auto. by constructor.
      * right. exists ((k', v') :: l1), v0, l2. split_and!; auto. by constructor.
Qed.

Lemma insert_old k v l : sorted_by fst l -> (insert k v l).1 = to_map l !! k.
Proof.
  intros Hs. destruct (insert_view k v l Hs) as [(l1 & l2 & -> & H1 & H2 & ->)|(l1 & v0 & l2 & -> & H1 & H2 & ->)]; cbn [fst].
  - symmetry. by apply to_map_split_None.
  - symmetry. by apply to_map_middle_lookup.
Qed.

Lemma insert_to_map k v l : sorted_by fst l -> to_map (insert k v l).2 = <[k := v]> (to_map l).
Proof.
  intros Hs. destruct (insert_view k v l Hs) as [(l1 & l2 & -> & H1 & H2 & ->)|(l1 & v0 & l2 & -> & H1 & H2 & ->)]; cbn [snd].
  - by apply to_map_insert.
  - by apply to_map_replace.
Qed.

Lemma insert_sorted_by k v l : sorted_by fst l -> sorted_by fst (insert k v l).2.
Proof.
  intros Hs. destruct (insert_view k v l Hs) as [(l1 & l2 & -> & H1 & H2 & ->)|(l1 & v0 & l2 & -> & H1 & H2 & ->)]; cbn [snd];
    apply sorted_by_middle; split_and!; auto. by apply sorted_by_middle in Hs as (? & _ & _).
Qed.
End map.
End BTreeMap.

(** ** Entries *)

Record BlobRef : Type := Blob_ { file_id : Z; blob_offset : Z; blob_length : Z }.

Definition serialized_size : Z := 8 + 8 + 4.

Inductive ValueLocation : Type :=
| Inline (data : list Z)
| Blob (r : BlobRef).

#[global] Instance BlobRef_eq_dec : EqDecision BlobRef.
Proof. solve_decision. Defined.
#[global] Instance ValueLocation_eq_dec : EqDecision ValueLocation.
Proof. solve_decision. Defined.

Module Location.
Definition size (v : ValueLocation) : Z := match v with Inline data => Z.of_nat (length data) | Blob _ => serialized_size end.
Definition is_blob (v : ValueLocation) : bool := match v with Blob _ => true | Inline _ => false end.
Definition as_blob (v : ValueLocation) : option BlobRef := match v with Blob r => Some r | _ => None end.
Definition as_inline (v : ValueLocation) : option (list Z) := match v with Inline data => Some data | _ => None end.
Definition to_vec (v : ValueLocation) : option (list Z) := match v with Inline data => Some data | Blob _ => None end.
Definition len (v : ValueLocation) : Z := size v.
Definition is_empty (v : ValueLocation) : bool := match v with Inline data => (length data =? 0)%nat | Blob _ => false end.
End Location.

Module Entry.

(** [value = None] is a deletion, [commit_ts = None] an uncommitted entry. *)
Record t : Type := mk { key : list Z; value : option ValueLocation; sequence : Z; commit_ts : option Z }.

#[global] Instance t_eq_dec : EqDecision t.
Proof. solve_decision. Defined.

Definition new (k : list Z) (v : option (list Z)) (seq : Z) : t := mk k (Inline <$> v) seq None.
Definition new_with_blob (k : list Z) (r : BlobRef) (seq : Z) : t := mk k (Some (Blob r)) seq None.
Definition with_commit_ts (k : list Z) (v : option (list Z)) (seq ts : Z) : t := mk k (Inline <$> v) seq (Some ts).
Definition with_blob_and_commit_ts (k : list Z) (r : BlobRef) (seq ts : Z) : t := mk k (Some (Blob r)) seq (Some ts).

Definition is_visible (e : t) (snapshot_ts : Z) : bool :=
  match commit_ts e with None => false | Some ts => ts <=? snapshot_ts end.

Definition size (e : t) : Z :=
  Z.of_nat (length (key e)) + match value e with Some v => Location.size v | None => 0 end + 16.

Definition has_blob (e : t) : bool := match value e with Some v => Location.is_blob v | None => false end.
Definition blob_ref (e : t) : option BlobRef := v ← value e; Location.as_blob v.
Definition inline_value (e : t) : option (list Z) := v ← value e; Location.as_inline v.
Definition value_as_vec (e : t) : option (list Z) := v ← value e; Location.to_vec v.
Definition is_deletion (e : t) : bool := match value e with None => true | Some _ => false end.

End Entry.

(** ** The table *)

Module MemTable.

Record t : Type := mk { data : list (list Z * Entry.t); size : Z; sequence : Z }.

Definition new : t := mk [] 0 0.

(** The block every writer ends with: insert, and account for the entry it replaces. *)
Definition store (m : t) (k : list Z) (entry : Entry.t) : t :=
  let entry_size := Entry.size entry in
  let '(old, data) := BTreeMap.insert k entry (data m) in
  let size :=
    match old with
    | Some old_entry =>
        let old_size := Entry.size old_entry in
        if old_size <? entry_size then u64 (size m + (entry_size - old_size)) else u64 (size m - (old_size - entry_size))
    | None => u64 (size m + entry_size)
    end in
  mk data size (u64 (sequence m + 1)).

Definition put (m : t) (k v : list Z) : t * Z := (store m k (Entry.new k (Some v) (sequence m)), sequence m).
Definition put_committed (m : t) (k v : list Z) (ts : Z) : t * Z :=
  (store m k (Entry.with_commit_ts k (Some v) (sequence m) ts), sequence m).
Definition delete (m : t) (k : list Z) : t * Z := (store m k (Entry.new k None (sequence m)), sequence m).
Definition delete_committed (m : t) (k : list Z) (ts : Z) : t * Z :=
  (store m k (Entry.with_commit_ts k None (sequence m) ts), sequence m).

Definition get (m : t) (k : list Z) : option Entry.t := BTreeMap.get k (data m).

Definition get_at_snapshot (m : t) (k : list Z) (snapshot_ts : Z) : option Entry.t :=
  match BTreeMap.get k (data m) with
  | Some entry => if Entry.is_visible entry snapshot_ts then Some entry else None
  | None => None
  end.

(** [get_mut] and the assignment through it. *)
Definition commit_entry (m : t) (k : list Z) (ts : Z) : t * bool :=
  match BTreeMap.get k (data m) with
  | Some (Entry.mk key value seq None) =>
      (mk (BTreeMap.insert k (Entry.mk key value seq (Some ts)) (data m)).2 (size m) (sequence m), true)
  | _ => (m, false)
  end.

Definition entry_count (m : t) : nat := length (data m).
Definition is_empty (m : t) : bool := (entry_count m =? 0)%nat.
Definition current_sequence (m : t) : Z := sequence m.

(** [entries] and the snapshot [iter] takes. *)
Definition entries (m : t) : list Entry.t := (data m).*2.
Definition iter (m : t) : list Entry.t * nat := (entries m, 0%nat).
Definition range (m : t) (start end_ : list Z) : option (list Entry.t * nat) :=
  d ← BTreeMap.range start end_ (data m); Some (d.*2, 0%nat).
Definition iter_next (it : list Entry.t * nat) : option Entry.t * (list Entry.t * nat) :=
  match it.1 !! it.2 with Some e => (Some e, (it.1, S it.2)) | None => (None, it) end.

Definition clear (m : t) : t := mk [] 0 0.

End MemTable.

(** ** What the table promises *)

Inductive MemOp : Type :=
| MPut (k v : list Z)
| MPutCommitted (k v : list Z) (ts : Z)
| MDelete (k : list Z)
| MDeleteCommitted (k : list Z) (ts : Z)
| MCommitEntry (k : list Z) (ts : Z)
| MClear.

Definition apply_op (m : MemTable.t) (o : MemOp) : MemTable.t :=
  match o with
  | MPut k v => (MemTable.put m k v).1
  | MPutCommitted k v ts => (MemTable.put_committed m k v ts).1
  | MDelete k => (MemTable.delete m k).1
  | MDeleteCommitted k ts => (MemTable.delete_committed m k ts).1
  | MCommitEntry k ts => (MemTable.commit_entry m k ts).1
  | MClear => MemTable.clear m
  end.

(** The abstract table: the last write of each key, numbered. *)
Definition spec : Type := gmap (list Z) Entry.t * Z.

Definition spec_op (s : spec) (o : MemOp) : spec :=
  match o with
  | MPut k v => (<[k := Entry.mk k (Some (Inline v)) s.2 None]> s.1, s.2 + 1)
  | MPutCommitted k v ts => (<[k := Entry.mk k (Some (Inline v)) s.2 (Some ts)]> s.1, s.2 + 1)
  | MDelete k => (<[k := Entry.mk k None s.2 None]> s.1, s.2 + 1)
  | MDeleteCommitted k ts => (<[k := Entry.mk k None s.2 (Some ts)]> s.1, s.2 + 1)
  | MCommitEntry k ts =>
      (alter (fun e => Entry.mk (Entry.key e) (Entry.value e) (Entry.sequence e) (Some (default ts (Entry.commit_ts e)))) k s.1, s.2)
  | MClear => (∅, 0)
  end.

Definition total_size (l : list (list Z * Entry.t)) : Z := foldr (fun b acc => Entry.size b.2 + acc) 0 l.

Lemma total_size_app l1 l2 : total_size (l1 ++ l2) = total_size l1 + total_size l2.
Proof. induction l1 as [|b l1 IH]; [done|]. cbn [total_size foldr app] in *. unfold total_size in *. lia. Qed.

Lemma total_size_cons k e l : total_size ((k, e) :: l) = Entry.size e + total_size l.
Proof. done. Qed.

(** The simulation relation. *)
Definition mem_rel (m : MemTable.t) (s : spec) : Prop :=
  sorted_by fst (MemTable.data m) /\ to_map (MemTable.data m) = s.1 /\ MemTable.sequence m = s.2 /\
  MemTable.size m = u64 (total_size (MemTable.data m)) /\
  map_Forall (fun k e => Entry.key e = k /\ 0 <= Entry.sequence e < s.2) s.1.

Lemma store_data m k e : MemTable.data (MemTable.store m k e) = (BTreeMap.insert k e (MemTable.data m)).2.
Proof. unfold MemTable.store. by destruct (BTreeMap.insert _ _ _). Qed.

Lemma store_size m k e : sorted_by fst (MemTable.data m) -> MemTable.size m = u64 (total_size (MemTable.data m)) ->
  MemTable.size (MemTable.store m k e) = u64 (total_size (MemTable.data (MemTable.store m k e))).
Proof.
  intros Hs Hsize. rewrite store_data. unfold MemTable.store, u64 in *.
  destruct (BTreeMap.insert_view k e _ Hs) as [(l1 & l2 & Hd & _ & _ & ->)|(l1 & v0 & l2 & Hd & _ & _ & ->)]; cbn [MemTable.size snd];
    rewrite Hd in Hsize; rewrite !total_size_app, ?total_size_cons in *; rewrite Hsize.
  - rewrite wrap_add_l. f_equal. lia.
  - case_match; [rewrite wrap_add_l|rewrite wrap_sub_l]; f_equal; lia.
Qed.

Lemma store_rel m s k v ts : mem_rel m s -> s.2 + 1 < 2 ^ 64 -> 0 <= s.2 ->
  mem_rel (MemTable.store m k (Entry.mk k v (MemTable.sequence m) ts)) (<[k := Entry.mk k v s.2 ts]> s.1, s.2 + 1).
Proof.
  intros (Hs & Hm & Hn & Hsz & Hf) Hmax Hpos. unfold mem_rel. rewrite store_data. cbn [fst snd]. split_and!.
  - by apply BTreeMap.insert_sorted_by.
  - rewrite BTreeMap.insert_to_map by done. by rewrite Hm, Hn.
  - unfold MemTable.store. destruct (BTreeMap.insert _ _ _). cbn. rewrite Hn. apply wrap_small. lia.
  - rewrite store_size by done. by rewrite store_data.
  - apply map_Forall_insert_2; [cbn; split; [done|lia]|]. eapply map_Forall_impl; [exact Hf|]. cbn. intros k' e' [? ?]. split; [done|lia].
Qed.

Lemma commit_rel m s k ts : mem_rel m s -> mem_rel (MemTable.commit_entry m k ts).1 (spec_op s (MCommitEntry k ts)).
Proof.
  intros (Hs & Hm & Hn & Hsz & Hf). unfold MemTable.commit_entry. rewrite BTreeMap.get_to_map, Hm by done. cbn [spec_op].
  destruct (s.1 !! k) as [[ke v seq [ts'|]]|] eqn:E; unfold mem_rel; cbn [fst snd MemTable.data MemTable.size MemTable.sequence].
  - replace (alter _ k s.1) with s.1; [done|]. symmetry. apply map_eq. intros k'. rewrite lookup_alter.
    case_decide; subst; by rewrite ?E.
  - set (e' := Entry.mk ke v seq (Some ts)). split_and!.
    + by apply BTreeMap.insert_sorted_by.
    + rewrite BTreeMap.insert_to_map, Hm by done. apply map_eq. intros k'.
      rewrite lookup_alter, lookup_insert. case_decide; subst; by rewrite ?E.
    + done.
    + rewrite Hsz. f_equal. rewrite <- Hm in E.
      destruct (BTreeMap.insert_view k e' _ Hs) as [(l1 & l2 & Hd & H1 & H2 & ->)|(l1 & v0 & l2 & Hd & H1 & H2 & ->)]; rewrite Hd in E |- *; cbn [snd].
      * by rewrite to_map_split_None in E.
      * rewrite to_map_middle_lookup in E by done. injection E as ->. by rewrite !total_size_app, !total_size_cons.
    + intros k' e'' Hk'. destruct (decide (k' = k)) as [->|Hne].
      * rewrite lookup_alter_eq, E in Hk'. cbn in Hk'. injection Hk' as <-. exact (Hf _ _ E).
      * rewrite lookup_alter_ne in Hk' by done. exact (Hf _ _ Hk').
  - replace (alter _ k s.1) with s.1; [done|]. symmetry. apply map_eq. intros k'. rewrite lookup_alter.
    case_decide; subst; by rewrite ?E.
Qed.

Lemma apply_rel m s o : mem_rel m s -> s.2 + 1 < 2 ^ 64 -> 0 <= s.2 -> mem_rel (apply_op m o) (spec_op s o).
Proof.
  intros Hm Hmax Hpos. destruct o; try (by apply (store_rel m s)).
  - by apply commit_rel.
  - unfold mem_rel. cbn. split_and!; [apply sorted_by_nil|done..|]. apply map_Forall_empty.
Qed.

Lemma run_rel ops : forall m s, mem_rel m s -> 0 <= s.2 -> s.2 + Z.of_nat (length ops) < 2 ^ 64 ->
  mem_rel (foldl apply_op m ops) (foldl spec_op s ops).
Proof.
  induction ops as [|o ops IH]; intros m s Hm Hpos Hmax; [done|]. cbn [foldl length] in *. apply IH.
  - apply apply_rel; [done|lia..].
  - destruct o; cbn; lia.
  - destruct o; cbn; lia.
Qed.

Lemma new_rel : mem_rel MemTable.new (∅, 0).
Proof. unfold mem_rel. cbn. split_and!; [apply sorted_by_nil|done..|apply map_Forall_empty]. Qed.

(** Entries carry their own key, so a sorted list of bindings is a sorted list of entries. *)
Lemma rel_entries m s : mem_rel m s -> (MemTable.data m).*1 = Entry.key <$> MemTable.entries m.
Proof.
  intros (Hs & Hm & _ & _ & Hf). unfold MemTable.entries. rewrite <- list_fmap_compose. apply list_fmap_ext.
  intros i [k e] Hi. cbn. apply list_elem_of_lookup_2, (to_map_elem _ _ _ Hs) in Hi. rewrite Hm in Hi. by destruct (Hf _ _ Hi).
Qed.

Lemma rel_elem m s k e : mem_rel m s -> (k, e) ∈ MemTable.data m <-> s.1 !! k = Some e.
Proof. intros (Hs & Hm & _). rewrite <- Hm. symmetry. by apply to_map_elem. Qed.

(** C10. The memtable refines the map of last writes: after any sequence of
    writes, commits and clears, [get] returns the last write of a key with the
    sequence number it was given, [current_sequence] counts the writes,
    [entries] lists exactly the live bindings in strictly increasing key order
    (what a flush writes to disk), and [size] is the sum of the entries' sizes
    modulo [2^64]. *)
Theorem memtable_refines (ops : list MemOp) : Z.of_nat (length ops) < 2 ^ 64 ->
  let m := foldl apply_op MemTable.new ops in
  let s := foldl spec_op (∅, 0) ops in
  (forall k, MemTable.get m k = s.1 !! k) /\ MemTable.current_sequence m = s.2 /\
  StronglySorted bytes_lt (Entry.key <$> MemTable.entries m) /\
  (forall e, e ∈ MemTable.entries m <-> s.1 !! Entry.key e = Some e) /\
  MemTable.size m = u64 (foldr (fun e acc => Entry.size e + acc) 0 (MemTable.entries m)).
Proof.
  intros Hlen m s. assert (Hrel : mem_rel m s) by (apply run_rel; [apply new_rel|cbn; lia..]).
  pose proof Hrel as (Hs & Hm & Hn & Hsz & Hf). split_and!.
  - intros k. unfold MemTable.get. by rewrite BTreeMap.get_to_map, Hm.
  - done.
  - rewrite <- (rel_entries _ _ Hrel). exact Hs.
  - intros e. unfold MemTable.entries. rewrite list_elem_of_fmap. split.
    + intros ([k e'] & -> & Hin). apply (rel_elem _ _ _ _ Hrel) in Hin. cbn [snd]. destruct (Hf _ _ Hin) as [-> _]. done.
    + intros He. exists (Entry.key e, e). split; [done|]. by apply (rel_elem _ _ _ _ Hrel).
  - rewrite Hsz. f_equal. unfold MemTable.entries, total_size. generalize (MemTable.data m) as l. intros l.
    induction l as [|b l IH]; [done|]. cbn. by rewrite IH.
Qed.

Lemma memtable_refines_witness :
  let ops := [MPut [2] [7; 7]; MPutCommitted [1] [] 5; MDelete [2]; MCommitEntry [2] 9] in
  MemTable.get (foldl apply_op MemTable.new ops) [2] = Some (Entry.mk [2] None 2 (Some 9)).
Proof.
  intros ops. destruct (memtable_refines ops) as [Hget _]; [done|]. rewrite Hget. reflexivity.
Defined.

(** A range of the memtable panics exactly when its bounds are reversed;
    otherwise it yields, in key order, exactly the entries whose key lies in
    [start, end). *)
Theorem memtable_range (ops : list MemOp) (start end_ : list Z) : Z.of_nat (length ops) < 2 ^ 64 ->
  let m := foldl apply_op MemTable.new ops in
  let s := foldl spec_op (∅, 0) ops in
  match MemTable.range m start end_ with
  | None => bytes_lt end_ start
  | Some (es, i) =>
      bytes_le start end_ /\ i = 0%nat /\ StronglySorted bytes_lt (Entry.key <$> es) /\
      forall e, e ∈ es <-> s.1 !! Entry.key e = Some e /\ bytes_le start (Entry.key e) /\ bytes_lt (Entry.key e) end_
  end.
Proof.
  intros Hlen m s. assert (Hrel : mem_rel m s) by (apply run_rel; [apply new_rel|cbn; lia..]).
  pose proof Hrel as (Hs & Hm & Hn & Hsz & Hf). unfold MemTable.range, BTreeMap.range.
  assert (Hle : bytes_le start end_ <-> bytes_cmp start end_ <> Gt) by done.
  assert (Hkey : forall k e, (k, e) ∈ MemTable.data m -> Entry.key e = k).
  { intros k e Hin. apply (rel_elem _ _ _ _ Hrel) in Hin. by destruct (Hf _ _ Hin). }
  set (P := fun b : list Z * Entry.t => bytes_le start b.1 /\ bytes_lt b.1 end_).
  assert (Hmain : StronglySorted bytes_lt (Entry.key <$> (filter P (MemTable.data m)).*2) /\
    forall e, e ∈ (filter P (MemTable.data m)).*2 <-> s.1 !! Entry.key e = Some e /\ bytes_le start (Entry.key e) /\ bytes_lt (Entry.key e) end_).
  { split.
    - pose proof (sorted_by_filter fst P _ Hs) as Hsf. replace (Entry.key <$> _) with (filter P (MemTable.data m)).*1; [done|].
      rewrite <- list_fmap_compose. apply list_fmap_ext. intros i [k e] Hi. cbn. symmetry. apply Hkey.
      by apply list_elem_of_lookup_2, list_elem_of_filter in Hi as [_ Hi].
    - intros e. rewrite list_elem_of_fmap. split.
      + intros ([k e'] & -> & [HP Hin]%list_elem_of_filter). cbn [snd]. rewrite (Hkey _ _ Hin). split; [|done]. by apply (rel_elem _ _ _ _ Hrel).
      + intros (He & HP). exists (Entry.key e, e). split; [done|]. apply list_elem_of_filter. split; [done|]. by apply (rel_elem _ _ _ _ Hrel). }
  destruct (bytes_cmp start end_) eqn:E; cbn [mbind option_bind].
  - split_and!; try apply Hmain; try done. by rewrite Hle.
  - split_and!; try apply Hmain; try done. by rewrite Hle.
  - by apply bytes_cmp_gt.
Qed.

Lemma memtable_range_witness :
  let m := foldl apply_op MemTable.new [MPut [2] [7]; MPut [1] []; MDelete [3]] in
  match MemTable.range m [1] [3] with
  | None => bytes_lt [3] [1]
  | Some (es, i) => bytes_le [1] [3] /\ i = 0%nat /\ StronglySorted bytes_lt (Entry.key <$> es) /\
      forall e, e ∈ es <-> (foldl spec_op (∅, 0) [MPut [2] [7]; MPut [1] []; MDelete [3]]).1 !! Entry.key e = Some e /\
        bytes_le [1] (Entry.key e) /\ bytes_lt (Entry.key e) [3]
  end.
Proof. apply (memtable_range [MPut [2] [7]; MPut [1] []; MDelete [3]] [1] [3]). done. Defined.
