(* ===== verification/LsmSSTable.v ===== *)
(** * Sorted string tables

    Models nanograph-lsm/src/sstable.rs: varints, the footer, data blocks with
    prefix compression, the index, the bloom filter, writing a table, point
    lookup and iteration.  A table is written by appending to a buffer and read
    by seeking in its bytes, as [std::io::Cursor] does; I/O failures of the
    device and failed allocations are not modelled.  Slicing and indexing out
    of range panic, and so does [usize] underflow. *)

From Stdlib Require Import ZArith Lia.
From stdpp Require Import option strings base list.
From S2P Require Import Prelude Integrity LsmMemtable.

Open Scope Z_scope.

Inductive IoError : Type :=
| InvalidData (msg : string)
| InvalidInput (msg : string)
| UnexpectedEof (msg : string)
| OtherError.

Abbreviation io_result := (result IoError).

Definition MAGIC_NUMBER : Z := 0x4E414E4F4C534D54.
Definition VERSION : Z := 1.
Definition RESTART_INTERVAL : nat := 16.

Definition zlen {A} (l : list A) : Z := Z.of_nat (length l).

(** ** Varints *)

(** [while value >= 0x80]: ten bytes are enough for a [u64]. *)
Fixpoint write_varint_loop (fuel : nat) (value : Z) : list Z :=
  match fuel with
  | O => []
  | S fuel' =>
      if 0x80 <=? value then Z.lor (value mod 256) 0x80 :: write_varint_loop fuel' (Z.shiftr value 7)
      else [value mod 256]
  end.
Definition write_varint (value : Z) : list Z := write_varint_loop 10 value.

Fixpoint read_varint_loop (data : list Z) (result shift bytes_read : Z) : io_result (Z * Z) :=
  match data with
  | [] => Err (UnexpectedEof "Incomplete varint")
  | byte :: data' =>
      let bytes_read := bytes_read + 1 in
      let result := Z.lor result (u64 (Z.shiftl (Z.land byte 0x7F) shift)) in
      if Z.land byte 0x80 =? 0 then Ok (result, bytes_read)
      else if 64 <=? shift + 7 then Err (InvalidData "Varint too large")
      else read_varint_loop data' result (shift + 7) bytes_read
  end.
Definition read_varint (data : list Z) : io_result (Z * Z) := read_varint_loop data 0 0 0.

(** [read_varint(&data[cursor..])] and the cursor after it. *)
Definition varint_at (data : list Z) (cursor : Z) : io_result (Z * Z) :=
  let! rest := or_panic (zslice cursor (zlen data) data) in
  let! (v, n) := read_varint rest in
  Ok (v, cursor + n).

Definition uint_at (n : Z) (data : list Z) (cursor : Z) : io_result Z :=
  let! b := or_panic (zslice cursor (cursor + n) data) in Ok (le_value b).

(** ** Footer *)

Record BlockHandle : Type := Handle { offset : Z; size : Z }.

Module Footer.

Record t : Type := mk { meta_index_handle : BlockHandle; index_handle : BlockHandle; magic : Z; version : Z; checksum : Z }.

Definition SIZE : Z := 48.

Definition encode (f : t) : list Z :=
  le_bytes 8 (offset (meta_index_handle f)) ++ le_bytes 8 (size (meta_index_handle f)) ++
  le_bytes 8 (offset (index_handle f)) ++ le_bytes 8 (size (index_handle f)) ++
  le_bytes 8 (magic f) ++ le_bytes 4 (version f) ++ le_bytes 4 (checksum f).

Definition decode (data : list Z) : io_result t :=
  if negb (zlen data =? SIZE) then Err (InvalidData "Invalid footer size")
  else
    let! meta_index_offset := uint_at 8 data 0 in
    let! meta_index_size := uint_at 8 data 8 in
    let! index_offset := uint_at 8 data 16 in
    let! index_size := uint_at 8 data 24 in
    let! magic := uint_at 8 data 32 in
    let! version := uint_at 4 data 40 in
    let! checksum := uint_at 4 data 44 in
    if negb (magic =? MAGIC_NUMBER) then Err (InvalidData "Invalid magic number")
    else Ok (mk (Handle meta_index_offset meta_index_size) (Handle index_offset index_size) magic version checksum).

End Footer.

(** ** Checksummed sections

    Every block ends with the CRC of what precedes it, little-endian. *)

Section crc.
Context `{!Integrity.Hashes}.

Definition append_crc (buf : list Z) : list Z :=
  match Integrity.hash Crc32c buf with Hash32 crc => buf ++ le_bytes 4 crc | NoHash => buf end.

(** [split_at(len - 4)] and the comparison; [what] begins the message. *)
Definition check_crc (data : list Z) (what : string) : io_result (list Z) :=
  let at_ := (length data - 4)%nat in
  let stored_crc := le_value (drop at_ data) in
  let body := take at_ data in
  match Integrity.hash Crc32c body with
  | Hash32 calculated => if calculated =? stored_crc then Ok body else Err (InvalidData (what +:+ " CRC32 mismatch"))
  | NoHash => Err (InvalidData "CRC32 algorithm returned None")
  end.
End crc.

(** ** Data blocks *)

Fixpoint common_prefix_len (a b : list Z) : nat :=
  match a, b with
  | x :: a', y :: b' => if x =? y then S (common_prefix_len a' b') else 0%nat
  | _, _ => 0%nat
  end.

Module DataBlock.

Record t : Type := mk { entries : list Entry.t; restart_points : list Z }.

Definition new : t := mk [] [].

Definition add_entry (b : t) (e : Entry.t) : t :=
  mk (entries b ++ [e])
     (if (length (entries b) mod RESTART_INTERVAL =? 0)%nat
      then restart_points b ++ [u32 (zlen (entries b))] else restart_points b).

Definition encode_value (v : option ValueLocation) : list Z :=
  match v with
  | Some (Inline data) => 1 :: data
  | Some (Blob r) => 2 :: le_bytes 8 (file_id r) ++ le_bytes 8 (blob_offset r) ++ le_bytes 4 (blob_length r)
  | None => [0]
  end.

Definition encode_entry (i : nat) (prev_key : list Z) (e : Entry.t) : list Z :=
  let shared_len := if (i mod RESTART_INTERVAL =? 0)%nat then 0%nat else common_prefix_len prev_key (Entry.key e) in
  let unshared_len := (length (Entry.key e) - shared_len)%nat in
  let value_len := match Entry.value e with Some v => Location.len v | None => 0 end in
  write_varint (Z.of_nat shared_len) ++ write_varint (Z.of_nat unshared_len) ++ write_varint value_len ++
  write_varint (Entry.sequence e) ++ drop shared_len (Entry.key e) ++ encode_value (Entry.value e).

Fixpoint encode_entries (i : nat) (prev_key : list Z) (es : list Entry.t) : list Z :=
  match es with
  | [] => []
  | e :: es' => encode_entry i prev_key e ++ encode_entries (S i) (Entry.key e) es'
  end.

(** The block before compression. *)
Definition raw (b : t) : list Z :=
  encode_entries 0 [] (entries b) ++ concat (le_bytes 4 <$> restart_points b) ++ le_bytes 4 (u32 (zlen (restart_points b))).

Section codec.
Context `{!Integrity.Hashes} `{!Codecs}.

Definition encode (b : t) (compression : CompressionAlgorithm) : io_result (list Z) :=
  let! compressed :=
    match compression with
    | NoCompression => Ok (raw b)
    | _ => ok_or (Compression.compress compression (raw b)) OtherError
    end in
  Ok (append_crc (Compression.as_u8 compression :: compressed)).

Fixpoint read_restarts (data : list Z) (restart_offset : Z) (i n : nat) : io_result (list Z) :=
  match n with
  | O => Ok []
  | S n' =>
      let! point := uint_at 4 data (restart_offset + Z.of_nat i * 4) in
      let! points := read_restarts data restart_offset (S i) n' in
      Ok (point :: points)
  end.

(** The value at [cursor] and the cursor after it. *)
Definition decode_value (data : list Z) (cursor value_len : Z) : io_result (option ValueLocation * Z) :=
  let! value_type := or_panic (data !! Z.to_nat cursor) in
  let cursor := cursor + 1 in
  if value_type =? 1 then
    let! v := or_panic (zslice cursor (cursor + value_len) data) in
    Ok (Some (Inline v), cursor + value_len)
  else if value_type =? 2 then
    if zlen data <? cursor + 20 then Err (InvalidData "Insufficient data for blob reference")
    else
      let! file_id := uint_at 8 data cursor in
      let! offset := uint_at 8 data (cursor + 8) in
      let! length := uint_at 4 data (cursor + 16) in
      Ok (Some (Blob (Blob_ file_id offset length)), cursor + 20)
  else if value_type =? 0 then Ok (None, cursor)
  else Err (InvalidData "Invalid value type").

Definition decode_entry (data : list Z) (cursor : Z) (prev_key : list Z) : io_result (Entry.t * Z) :=
  let! (shared_len, cursor) := varint_at data cursor in
  let! (unshared_len, cursor) := varint_at data cursor in
  let! (value_len, cursor) := varint_at data cursor in
  let! (sequence, cursor) := varint_at data cursor in
  let! shared := or_panic (zslice 0 shared_len prev_key) in
  let! unshared := or_panic (zslice cursor (cursor + unshared_len) data) in
  let key := shared ++ unshared in
  let! (value, cursor) := decode_value data (cursor + unshared_len) value_len in
  Ok (Entry.mk key value sequence None, cursor).

(** Every entry takes at least five bytes, so the block's length bounds the loop. *)
Fixpoint decode_entries (fuel : nat) (data : list Z) (restart_offset cursor : Z) (prev_key : list Z) : io_result (list Entry.t) :=
  if cursor <? restart_offset then
    match fuel with
    | O => Timeout
    | S fuel' =>
        let! (e, cursor) := decode_entry data cursor prev_key in
        let! es := decode_entries fuel' data restart_offset cursor (Entry.key e) in
        Ok (e :: es)
    end
  else Ok [].

Definition decode_raw (data : list Z) : io_result t :=
  if zlen data <? 4 then Err (InvalidData "Invalid block data")
  else
    let restart_count := le_value (drop (length data - 4) data) in
    let restart_offset := zlen data - 4 - restart_count * 4 in
    if restart_offset <? 0 then Panic
    else
      let! restart_points := read_restarts data restart_offset 0 (Z.to_nat restart_count) in
      let! entries := decode_entries (length data) data restart_offset 0 [] in
      Ok (mk entries restart_points).

Definition decode (data : list Z) : io_result t :=
  if zlen data <? 5 then Err (InvalidData "Block data too short")
  else
    let! block_data := check_crc data "Block" in
    let! compression_byte := or_panic (block_data !! 0%nat) in
    let! compression := ok_or (Compression.from_u8 compression_byte) (InvalidData "Invalid compression algorithm") in
    let compressed_data := drop 1 block_data in
    let! decompressed :=
      match compression with
      | NoCompression => Ok compressed_data
      | _ => ok_or (Compression.decompress compression compressed_data None) OtherError
      end in
    decode_raw decompressed.
End codec.

End DataBlock.

(** ** Index block *)

Module IndexBlock.

Definition t : Type := list (list Z * BlockHandle).

Definition new : t := [].

Definition add_entry (b : t) (last_key : list Z) (handle : BlockHandle) : t := b ++ [(last_key, handle)].

Definition encode_entry (e : list Z * BlockHandle) : list Z :=
  write_varint (zlen e.1) ++ e.1 ++ write_varint (offset e.2) ++ write_varint (size e.2).

(** Every entry takes at least three bytes. *)
Fixpoint decode_loop (fuel : nat) (data : list Z) (cursor : Z) : io_result t :=
  if cursor <? zlen data then
    match fuel with
    | O => Timeout
    | S fuel' =>
        let! (key_len, cursor) := varint_at data cursor in
        let! key := or_panic (zslice cursor (cursor + key_len) data) in
        let cursor := cursor + key_len in
        let! (offset, cursor) := varint_at data cursor in
        let! (size, cursor) := varint_at data cursor in
        let! es := decode_loop fuel' data cursor in
        Ok ((key, Handle offset size) :: es)
    end
  else Ok [].

Section codec.
Context `{!Integrity.Hashes}.

Definition encode (b : t) : list Z := append_crc (concat (encode_entry <$> b)).

Definition decode (data : list Z) : io_result t :=
  if zlen data <? 4 then Err (InvalidData "Index block data too short")
  else
    let! index_data := check_crc data "Index block" in
    decode_loop (length index_data) index_data 0.
End codec.

(** The first block whose last key is at least [key]. *)
Definition find_block (b : t) (key : list Z) : option BlockHandle :=
  let idx := match binary_search_by (key_probe fst key) b with Found i | NotFound i => i end in
  snd <$> b !! idx.

End IndexBlock.

(** ** Bloom filter *)

(** FNV-1a. *)
Definition hash_key (key : list Z) : Z :=
  fold_left (fun hash byte => u64 (Z.lxor hash byte * 0x100000001b3)) key 0xcbf29ce484222325.

(** [(x as f64 * 0.69) as usize] for [x < 2^53]: [0.69] is [6214967485771284 / 2^53],
    the product is rounded to 53 bits, ties to even, and then truncated. *)
Definition f64_times_069 (x : Z) : Z :=
  let p := x * 6214967485771284 in
  let s := Z.log2 p + 1 - 53 in
  let rounded :=
    if s <=? 0 then p
    else
      let q := p / 2 ^ s in
      let r := p mod 2 ^ s in
      let half := 2 ^ (s - 1) in
      (if (half <? r) || ((r =? half) && Z.odd q) then q + 1 else q) * 2 ^ s in
  rounded / 2 ^ 53.

Module BloomFilter.

Record t : Type := mk { bits : list Z; num_hash_functions : nat }.

Definition new (num_keys bits_per_key : nat) : t :=
  let num_bits := (num_keys * bits_per_key)%nat in
  let num_bytes := ((num_bits + 7) / 8)%nat in
  mk (replicate num_bytes 0) (Z.to_nat (Z.min (Z.max (f64_times_069 (Z.of_nat bits_per_key)) 1) 30)).

(** [hash.wrapping_add(i.wrapping_mul(delta)) % (len * 8)]: the remainder by zero panics. *)
Definition bit_pos (len : nat) (key : list Z) (i : nat) : option Z :=
  let hash := hash_key key in
  let delta := Z.lor (Z.shiftr hash 17) (u64 (Z.shiftl hash 15)) in
  if (len =? 0)%nat then None
  else Some (u64 (hash + u64 (Z.of_nat i * delta)) mod (Z.of_nat len * 8)).

Definition set_bit (bits : list Z) (pos : Z) : list Z :=
  alter (fun b => Z.lor b (Z.shiftl 1 (pos mod 8))) (Z.to_nat (pos / 8)) bits.

Definition get_bit (bits : list Z) (pos : Z) : bool :=
  negb (Z.land (default 0 (bits !! Z.to_nat (pos / 8))) (Z.shiftl 1 (pos mod 8)) =? 0).

Fixpoint add_loop (bits : list Z) (key : list Z) (i n : nat) : io_result (list Z) :=
  match n with
  | O => Ok bits
  | S n' => let! pos := or_panic (bit_pos (length bits) key i) in add_loop (set_bit bits pos) key (S i) n'
  end.

Definition add (f : t) (key : list Z) : io_result t :=
  let! b := add_loop (bits f) key 0 (num_hash_functions f) in Ok (mk b (num_hash_functions f)).

Fixpoint may_contain_loop (bits : list Z) (key : list Z) (i n : nat) : io_result bool :=
  match n with
  | O => Ok true
  | S n' =>
      let! pos := or_panic (bit_pos (length bits) key i) in
      if get_bit bits pos then may_contain_loop bits key (S i) n' else Ok false
  end.

Definition may_contain (f : t) (key : list Z) : io_result bool := may_contain_loop (bits f) key 0 (num_hash_functions f).

Section codec.
Context `{!Integrity.Hashes}.

Definition encode (f : t) : list Z := append_crc (Z.of_nat (num_hash_functions f) mod 256 :: bits f).

Definition decode (data : list Z) : io_result t :=
  if zlen data <? 5 then Err (InvalidData "Bloom filter data too short")
  else
    let! bloom_data := check_crc data "Bloom filter" in
    let! n := or_panic (bloom_data !! 0%nat) in
    Ok (mk (drop 1 bloom_data) (Z.to_nat n)).
End codec.

End BloomFilter.

(** ** Tables *)

Record SSTableMetadata : Type := Metadata {
  file_number : Z;
  level : nat;
  min_key : list Z;
  max_key : list Z;
  min_sequence : Z;
  max_sequence : Z;
  entry_count : Z;
  file_size : Z;
  created_at : Z
}.

(** [Read::read_exact] after a seek to [pos]. *)
Definition read_exact_at (file : list Z) (pos n : Z) : io_result (list Z) :=
  if zlen file <? pos + n then Err (UnexpectedEof "failed to fill whole buffer")
  else Ok (take (Z.to_nat n) (drop (Z.to_nat pos) file)).

(** [seek(SeekFrom::End(-48))]: before the start is an error. *)
Definition read_footer (file : list Z) : io_result Footer.t :=
  if zlen file <? Footer.SIZE then Err (InvalidInput "invalid seek to a negative or overflowing position")
  else
    let! footer_data := read_exact_at file (zlen file - Footer.SIZE) Footer.SIZE in
    Footer.decode footer_data.

Module SSTable.
Section ops.
Context `{!Integrity.Hashes} `{!Codecs}.

(** The blocks written so far: their bytes and the index over them. *)
Record builder : Type := Builder { written : list Z; index : IndexBlock.t }.

Definition write_block (w : builder) (block : DataBlock.t) (compression : CompressionAlgorithm) : io_result builder :=
  let! block_data := DataBlock.encode block compression in
  let! e := or_panic (last (DataBlock.entries block)) in
  Ok (Builder (written w ++ block_data) (IndexBlock.add_entry (index w) (Entry.key e) (Handle (zlen (written w)) (zlen block_data)))).

Fixpoint write_blocks (es : list Entry.t) (w : builder) (block : DataBlock.t) (block_bytes block_size : Z)
    (compression : CompressionAlgorithm) : io_result builder :=
  match es with
  | [] =>
      match DataBlock.entries block with
      | [] => Ok w
      | _ => write_block w block compression
      end
  | e :: es' =>
      let entry_size := Entry.size e in
      if (block_size <? block_bytes + entry_size) && negb (bool_decide (DataBlock.entries block = [])) then
        let! w := write_block w block compression in
        write_blocks es' w (DataBlock.add_entry DataBlock.new e) entry_size block_size compression
      else write_blocks es' w (DataBlock.add_entry block e) (block_bytes + entry_size) block_size compression
  end.

Fixpoint build_bloom (f : BloomFilter.t) (es : list Entry.t) : io_result BloomFilter.t :=
  match es with
  | [] => Ok f
  | e :: es' => let! f := BloomFilter.add f (Entry.key e) in build_bloom f es'
  end.

(** [now] is the clock in seconds.  The file-wide checksum is always zero. *)
Definition create (entries : list Entry.t) (file_number : Z) (level : nat) (block_size : Z)
    (compression : CompressionAlgorithm) (now : Z) : io_result (list Z * SSTableMetadata) :=
  match entries with
  | [] => Err (InvalidInput "Cannot create SSTable from empty entries")
  | first :: _ =>
      let! bloom := build_bloom (BloomFilter.new (length entries) 10) entries in
      let! w := write_blocks entries (Builder [] IndexBlock.new) DataBlock.new 0 block_size compression in
      let bloom_data := BloomFilter.encode bloom in
      let meta_index_handle := Handle (zlen (written w)) (zlen bloom_data) in
      let index_data := IndexBlock.encode (index w) in
      let index_handle := Handle (zlen (written w) + zlen bloom_data) (zlen index_data) in
      let footer := Footer.mk meta_index_handle index_handle MAGIC_NUMBER VERSION 0 in
      let bytes := written w ++ bloom_data ++ index_data ++ Footer.encode footer in
      let! last_entry := or_panic (last entries) in
      let seqs := Entry.sequence <$> entries in
      Ok (bytes, Metadata file_number level (Entry.key first) (Entry.key last_entry)
                   (foldr Z.min (Entry.sequence first) seqs) (foldr Z.max (Entry.sequence first) seqs)
                   (zlen entries) (zlen bytes) now)
  end.

(** The whole-file checksum, when the footer carries one. *)
Definition verify_file (file : list Z) (footer : Footer.t) (integrity : IntegrityAlgorithm) : io_result unit :=
  if negb (bool_decide (integrity = NoIntegrity)) && negb (Footer.checksum footer =? 0) then
    let calculated := Integrity.checksum integrity (take (length file - Z.to_nat Footer.SIZE) file) in
    if calculated =? Footer.checksum footer then Ok tt else Err (InvalidData "Checksum mismatch")
  else Ok tt.

Definition read_index (file : list Z) (footer : Footer.t) : io_result IndexBlock.t :=
  let! index_data := read_exact_at file (offset (Footer.index_handle footer)) (size (Footer.index_handle footer)) in
  IndexBlock.decode index_data.

Definition read_block (file : list Z) (handle : BlockHandle) : io_result DataBlock.t :=
  let! block_data := read_exact_at file (offset handle) (size handle) in
  DataBlock.decode block_data.

Definition get (file : list Z) (key : list Z) (integrity : IntegrityAlgorithm) : io_result (option Entry.t) :=
  let! footer := read_footer file in
  let! _ := verify_file file footer integrity in
  let! bloom_data := read_exact_at file (offset (Footer.meta_index_handle footer)) (size (Footer.meta_index_handle footer)) in
  let! bloom_filter := BloomFilter.decode bloom_data in
  let! maybe := BloomFilter.may_contain bloom_filter key in
  if negb maybe then Ok None
  else
    let! index := read_index file footer in
    match IndexBlock.find_block index key with
    | None => Ok None
    | Some block_handle =>
        let! block := read_block file block_handle in
        match binary_search_by (key_probe Entry.key key) (DataBlock.entries block) with
        | Found idx => Ok (DataBlock.entries block !! idx)
        | NotFound _ => Ok None
        end
    end.
End ops.
End SSTable.

(** ** Iteration *)

Module SSTableIterator.
Section ops.
Context `{!Integrity.Hashes} `{!Codecs}.

Record t : Type := mk {
  reader : list Z;
  index : IndexBlock.t;
  current_block_idx : nat;
  current_block : option DataBlock.t;
  current_entry_idx : nat
}.

Definition new (file : list Z) : io_result t :=
  let! footer := read_footer file in
  let! index := SSTable.read_index file footer in
  Ok (mk file index 0 None 0).

Definition load_next_block (it : t) : io_result bool * t :=
  match index it !! current_block_idx it with
  | None => (Ok false, it)
  | Some (_, block_handle) =>
      match SSTable.read_block (reader it) block_handle with
      | Ok block => (Ok true, mk (reader it) (index it) (S (current_block_idx it)) (Some block) 0)
      | Err e => (Err e, it)
      | Panic => (Panic, it)
      | Timeout => (Timeout, it)
      end
  end.

(** [next]: [None] is the end, [Some (Err _)] an error; each round of the loop loads a block. *)
Fixpoint next (fuel : nat) (it : t) : option (io_result Entry.t) * t :=
  let current :=
    match current_block it with
    | Some block => DataBlock.entries block !! current_entry_idx it
    | None => None
    end in
  match current with
  | Some entry => (Some (Ok entry), mk (reader it) (index it) (current_block_idx it) (current_block it) (S (current_entry_idx it)))
  | None =>
      match fuel with
      | O => (Some Timeout, it)
      | S fuel' =>
          match load_next_block it with
          | (Ok true, it) => next fuel' it
          | (Ok false, it) => (None, it)
          | (Err e, it) => (Some (Err e), it)
          | (Panic, it) => (Some Panic, it)
          | (Timeout, it) => (Some Timeout, it)
          end
      end
  end.

(** Collecting the iterator, stopping at the first error. *)
Fixpoint collect (fuel : nat) (it : t) : io_result (list Entry.t) :=
  match fuel with
  | O => Timeout
  | S fuel' =>
      match next (S (length (index it))) it with
      | (None, _) => Ok []
      | (Some (Ok e), it) => let! es := collect fuel' it in Ok (e :: es)
      | (Some (Err e), _) => Err e
      | (Some Panic, _) => Panic
      | (Some Timeout, _) => Timeout
      end
  end.
End ops.
End SSTableIterator.
