(* ===== verification/LsmSSTableSpec.v ===== *)
(** * What a sorted string table promises

    Every section of the file reads back as it was written, the bloom filter
    has no false negatives, and so a point lookup returns exactly the entry
    written for the key and iteration returns all of them in order. *)

From Stdlib Require Import ZArith Lia.
From stdpp Require Import sorting option strings base list.
From S2P Require Import Prelude Integrity LsmMemtable LsmSSTable.

Open Scope Z_scope.

Lemma Ok_inj {E A} (a b : A) : @Ok E A a = Ok b -> a = b.
Proof. by intros [= ->]. Qed.

(** ** Lengths and slices at a cursor *)

Lemma zlen_app {A} (l1 l2 : list A) : zlen (l1 ++ l2) = zlen l1 + zlen l2.
Proof. unfold zlen. rewrite length_app. lia. Qed.

Lemma zlen_nonneg {A} (l : list A) : 0 <= zlen l.
Proof. unfold zlen. lia. Qed.

Lemma zlen_cons {A} (x : A) l : zlen (x :: l) = 1 + zlen l.
Proof. unfold zlen. cbn [length]. lia. Qed.

Lemma zlen_nil {A} : zlen (@nil A) = 0.
Proof. done. Qed.

Lemma zlen_le_bytes n x : zlen (le_bytes n x) = Z.of_nat n.
Proof. unfold zlen. by rewrite length_le_bytes. Qed.

Ltac zlens :=
  rewrite ?zlen_app, ?zlen_cons, ?zlen_app, ?zlen_le_bytes, ?zlen_nil in *;
  repeat match goal with
  | |- context [zlen ?l] => lazymatch goal with H : 0 <= zlen l |- _ => fail | _ => pose proof (zlen_nonneg l) end
  | H : context [zlen ?l] |- _ => lazymatch goal with H : 0 <= zlen l |- _ => fail | _ => pose proof (zlen_nonneg l) end
  end; try lia.

Lemma slice_here {A} (pre x rest : list A) n : n = zlen x -> zslice (zlen pre) (zlen pre + n) (pre ++ x ++ rest) = Some x.
Proof. intros ->. by apply zslice_app. Qed.

Lemma uint_here n pre x rest : 0 <= x < 2 ^ (8 * Z.of_nat n) ->
  uint_at (Z.of_nat n) (pre ++ le_bytes n x ++ rest) (zlen pre) = Ok x.
Proof. intros Hx. unfold uint_at. rewrite slice_here by (by rewrite zlen_le_bytes). cbn [or_panic rbind]. by rewrite le_value_small. Qed.

Lemma uint8_here pre x rest o : o = zlen pre -> 0 <= x < 2 ^ 64 -> uint_at 8 (pre ++ le_bytes 8 x ++ rest) o = Ok x.
Proof. intros ->. exact (uint_here 8 pre x rest). Qed.

Lemma uint8_first x rest : 0 <= x < 2 ^ 64 -> uint_at 8 (le_bytes 8 x ++ rest) 0 = Ok x.
Proof. exact (uint_here 8 [] x rest). Qed.

Lemma uint4_here pre x rest o : o = zlen pre -> 0 <= x < 2 ^ 32 -> uint_at 4 (pre ++ le_bytes 4 x ++ rest) o = Ok x.
Proof. intros ->. exact (uint_here 4 pre x rest). Qed.

(** Read the next integer with the given lemma, once the cursor is the length of the prefix. *)
Ltac uint_step lem :=
  match goal with
  | |- context [uint_at _ (?pre ++ le_bytes _ ?x ++ ?rest) ?o] =>
      rewrite (lem pre x rest o) by (done || zlens); cbn [rbind]
  end.

(** ** Varints *)

Lemma low7 v : 0 <= v -> Z.land (Z.lor (v mod 256) 128) 127 = v mod 128.
Proof.
  intros Hv. rewrite Z.land_lor_distr_l. change (Z.land 128 127) with 0. rewrite Z.lor_0_r.
  change 127 with (Z.ones 7). rewrite Z.land_ones by lia. change (2 ^ 7) with 128.
  rewrite <- Znumtheory.Zmod_div_mod; [done|lia..|]. exists 2. lia.
Qed.

Lemma high7 x : Z.land (Z.lor x 128) 128 <> 0.
Proof.
  rewrite Z.land_lor_distr_l, Z.land_diag. intros H. apply Z.lor_eq_0_iff in H as [_ H]. lia.
Qed.

Lemma lor_shift acc a s : 0 <= s -> 0 <= acc < 2 ^ s -> 0 <= a -> Z.lor acc (Z.shiftl a s) = acc + a * 2 ^ s.
Proof.
  intros Hs Hacc Ha. rewrite <- Z.shiftl_mul_pow2 by done.
  assert (Hl : Z.land acc (Z.shiftl a s) = 0).
  { apply Z.bits_inj'. intros n Hn. rewrite Z.land_spec, Z.bits_0. destruct (Z.lt_ge_cases n s).
    - by rewrite Z.shiftl_spec_low, andb_false_r.
    - destruct (decide (acc = 0)) as [->|]; [by rewrite Z.bits_0|]. rewrite (Z.bits_above_log2 acc n); [done|lia|].
      apply Z.log2_lt_pow2; [lia|]. apply Z.lt_le_trans with (2 ^ s); [lia|]. apply Z.pow_le_mono_r; lia. }
  pose proof (Z.add_lor_land acc (Z.shiftl a s)). lia.
Qed.

Lemma small_byte v : 0 <= v < 128 -> Z.land (v mod 256) 128 = 0 /\ Z.land (v mod 256) 127 = v.
Proof.
  intros Hv. rewrite Z.mod_small by lia. split.
  - change 128 with (Z.shiftl 1 7). apply Z.bits_inj'. intros n Hn. rewrite Z.land_spec, Z.bits_0.
    destruct (Z.lt_ge_cases n 7); [by rewrite Z.shiftl_spec_low, andb_false_r by lia|].
    destruct (decide (v = 0)) as [->|]; [by rewrite Z.bits_0|].
    rewrite (Z.bits_above_log2 v n); [done|lia|]. apply Z.log2_lt_pow2; [lia|]. apply Z.lt_le_trans with (2 ^ 7); [lia|]. apply Z.pow_le_mono_r; lia.
  - change 127 with (Z.ones 7). rewrite Z.land_ones by lia. apply Z.mod_small. lia.
Qed.

Lemma read_write_loop fuel : forall v acc s n rest, 0 <= v < 2 ^ (7 * Z.of_nat fuel) -> (0 < fuel)%nat ->
  0 <= s -> 0 <= acc < 2 ^ s -> v * 2 ^ s < 2 ^ 64 ->
  read_varint_loop (write_varint_loop fuel v ++ rest) acc s n = Ok (acc + v * 2 ^ s, n + zlen (write_varint_loop fuel v)).
Proof.
  induction fuel as [|fuel IH]; intros v acc s n rest Hv Hf Hs Hacc Hmax; [lia|].
  pose proof (Z.pow_pos_nonneg 2 s) as Hpos. cbn [write_varint_loop].
  destruct (Z.leb_spec 128 v) as [Hbig|Hsmall]; cbn [app read_varint_loop].
  - rewrite (proj2 (Z.eqb_neq _ _)) by apply high7. rewrite low7 by lia.
    assert (Hmod : 0 <= v mod 128 < 128) by (apply Z.mod_pos_bound; lia).
    assert (Hdiv : v = 128 * (v / 128) + v mod 128) by (apply Z.div_mod; lia).
    assert (Hs7 : s + 7 < 64).
    { apply (Z.pow_lt_mono_r_iff 2); [lia..|]. rewrite Z.pow_add_r by lia. change (2 ^ 7) with 128. nia. }
    rewrite (proj2 (Z.leb_gt _ _)) by lia.
    assert (Hu : u64 (Z.shiftl (v mod 128) s) = Z.shiftl (v mod 128) s).
    { rewrite Z.shiftl_mul_pow2 by done. apply wrap_small. nia. }
    rewrite Hu, lor_shift by lia. rewrite Z.shiftr_div_pow2 by lia. change (2 ^ 7) with 128.
    assert (Hf' : (0 < fuel)%nat).
    { destruct fuel; [|lia]. change (7 * Z.of_nat 1) with 7 in Hv. lia. }
    rewrite IH.
    + rewrite zlen_cons. do 2 f_equal; [|lia]. rewrite Z.pow_add_r by lia. change (2 ^ 7) with 128. nia.
    + split; [apply Z.div_pos; lia|]. apply Z.div_lt_upper_bound; [lia|].
      replace (7 * Z.of_nat (S fuel)) with (7 + 7 * Z.of_nat fuel) in Hv by lia. rewrite Z.pow_add_r in Hv by lia. change (2 ^ 7) with 128 in Hv. lia.
    + done.
    + lia.
    + rewrite Z.pow_add_r by lia. change (2 ^ 7) with 128. nia.
    + rewrite Z.pow_add_r by lia. change (2 ^ 7) with 128. nia.
  - destruct (small_byte v) as [-> ->]; [lia|]. cbn [Z.eqb].
    assert (Hu : u64 (Z.shiftl v s) = Z.shiftl v s).
    { rewrite Z.shiftl_mul_pow2 by done. apply wrap_small. nia. }
    by rewrite Hu, lor_shift by lia.
Qed.

Lemma read_write_varint v rest : 0 <= v < 2 ^ 64 -> read_varint (write_varint v ++ rest) = Ok (v, zlen (write_varint v)).
Proof.
  intros Hv. unfold read_varint, write_varint. rewrite read_write_loop; [|split; [lia|]|lia..].
  - do 2 f_equal. lia.
  - apply Z.lt_trans with (2 ^ 64); [lia|]. by vm_compute.
Qed.

Lemma varint_here pre v rest : 0 <= v < 2 ^ 64 ->
  varint_at (pre ++ write_varint v ++ rest) (zlen pre) = Ok (v, zlen (pre ++ write_varint v)).
Proof.
  intros Hv. unfold varint_at. rewrite (zlen_app pre (write_varint v ++ rest)).
  rewrite (zslice_app_end pre (write_varint v ++ rest)) by (unfold zlen; lia).
  cbn [or_panic rbind]. rewrite read_write_varint by done. cbn [rbind]. by rewrite zlen_app.
Qed.

Lemma varint_pos v : 0 <= v -> 1 <= zlen (write_varint v).
Proof. intros Hv. unfold write_varint. cbn [write_varint_loop]. case_match; zlens. Qed.

Lemma varint_loop_len n v : zlen (write_varint_loop n v) <= Z.of_nat n.
Proof. revert v. induction n as [|n IH]; intros v; cbn [write_varint_loop]; [done|]. case_match; [|zlens]. rewrite zlen_cons. specialize (IH (Z.shiftr v 7)). lia. Qed.

(** ** Footer *)

Definition u64_ok (x : Z) : Prop := 0 <= x < 2 ^ 64.
Definition handle_ok (h : BlockHandle) : Prop := u64_ok (offset h) /\ u64_ok (size h).

Lemma footer_roundtrip f : handle_ok (Footer.meta_index_handle f) -> handle_ok (Footer.index_handle f) ->
  Footer.magic f = MAGIC_NUMBER -> 0 <= Footer.version f < 2 ^ 32 -> 0 <= Footer.checksum f < 2 ^ 32 ->
  Footer.decode (Footer.encode f) = Ok f.
Proof.
  destruct f as [[mo ms] [io isz] mg v c]. unfold handle_ok, u64_ok.
  cbn [Footer.meta_index_handle Footer.index_handle Footer.magic Footer.version Footer.checksum offset size]. intros [H1 H2] [H3 H4] -> H5 H6.
  unfold Footer.decode. set (data := Footer.encode _). assert (Hl : zlen data = Footer.SIZE) by (unfold data, Footer.encode, Footer.SIZE; zlens). rewrite Hl, Z.eqb_refl. unfold data.
  unfold Footer.encode. cbn [Footer.meta_index_handle Footer.index_handle Footer.magic Footer.version Footer.checksum offset size negb].
  rewrite uint8_first by done. cbn [rbind].
  uint_step uint8_here. do 3 (rewrite app_assoc; uint_step uint8_here). rewrite app_assoc. uint_step uint4_here.
  rewrite app_assoc. rewrite <- (app_nil_r (le_bytes 4 c)). uint_step uint4_here. by rewrite Z.eqb_refl.
Qed.

Section crc.
Context `{!Integrity.Hashes} `{!Integrity.HashLaws}.

Lemma check_append_crc buf what : check_crc (append_crc buf) what = Ok buf.
Proof using All.
  unfold check_crc, append_crc. cbn [Integrity.hash]. rewrite length_app, length_le_bytes.
  replace (length buf + 4 - 4)%nat with (length buf) by lia. rewrite take_app_length, drop_app_length.
  rewrite le_value_small by apply Integrity.crc_u32. by rewrite Z.eqb_refl.
Qed.

Lemma zlen_append_crc buf : zlen (append_crc buf) = zlen buf + 4.
Proof. unfold append_crc. cbn [Integrity.hash]. by rewrite zlen_app, zlen_le_bytes. Qed.
End crc.

(** ** Data blocks *)

(** What the table keeps of an entry: everything but the commit timestamp. *)
Definition strip (e : Entry.t) : Entry.t := Entry.mk (Entry.key e) (Entry.value e) (Entry.sequence e) None.

Definition value_ok (v : option ValueLocation) : Prop :=
  match v with
  | Some (Inline data) => zlen data < 2 ^ 64
  | Some (Blob r) => u64_ok (file_id r) /\ u64_ok (blob_offset r) /\ 0 <= blob_length r < 2 ^ 32
  | None => True
  end.

(** The entry fits the format. *)
Definition entry_ok (e : Entry.t) : Prop := zlen (Entry.key e) < 2 ^ 64 /\ value_ok (Entry.value e) /\ u64_ok (Entry.sequence e).

#[global] Instance entry_ok_dec e : Decision (entry_ok e).
Proof. unfold entry_ok, value_ok, u64_ok. destruct (Entry.value e) as [[]|]; apply _. Defined.

Lemma common_prefix_take a b : take (common_prefix_len a b) a = take (common_prefix_len a b) b /\
  (common_prefix_len a b <= length a)%nat /\ (common_prefix_len a b <= length b)%nat.
Proof.
  revert b. induction a as [|x a IH]; intros [|y b]; cbn; try (split_and!; (done || lia)).
  destruct (Z.eqb_spec x y) as [->|]; cbn; [|split_and!; (done || lia)]. destruct (IH b) as (-> & ? & ?). split_and!; (done || lia).
Qed.

Lemma zslice_prefix {A} (l : list A) n : (n <= length l)%nat -> zslice 0 (Z.of_nat n) l = Some (take n l).
Proof.
  intros Hn. rewrite <- (take_drop n l) at 1. pose proof (zslice_app [] (take n l) (drop n l) 0 (Z.of_nat n)) as H. cbn [app] in H.
  apply H; [done|]. rewrite length_take. lia.
Qed.

Lemma lookup_here {A} (pre : list A) x rest : (pre ++ x :: rest) !! Z.to_nat (zlen pre) = Some x.
Proof. unfold zlen. rewrite Nat2Z.id. apply lookup_app_here. Qed.

Lemma decode_value_here pre v rest : value_ok v ->
  DataBlock.decode_value (pre ++ DataBlock.encode_value v ++ rest) (zlen pre) (match v with Some v => Location.len v | None => 0 end) =
    Ok (v, zlen (pre ++ DataBlock.encode_value v)).
Proof.
  intros Hv. unfold DataBlock.decode_value. destruct v as [[data|r]|]; cbn [DataBlock.encode_value].
  - cbn [app]. rewrite lookup_here. cbn [or_panic rbind]. cbn [Z.eqb Pos.eqb].
    change (1 :: data ++ rest) with ([1] ++ data ++ rest). rewrite app_assoc.
    replace (zlen pre + 1) with (zlen (pre ++ [1])) by zlens. unfold Location.len, Location.size.
    rewrite slice_here by done. cbn [or_panic rbind]. do 2 f_equal. zlens. unfold zlen. lia.
  - destruct r as [f o l]. cbn in Hv. destruct Hv as (Hf & Ho & Hl). cbn [app file_id blob_offset blob_length]. rewrite lookup_here.
    cbn [or_panic rbind Z.eqb Pos.eqb].
    match goal with |- context [pre ++ 2 :: ?l] => change (pre ++ 2 :: l) with (pre ++ [2] ++ l) end. rewrite <- !app_assoc, app_assoc.
    rewrite (proj2 (Z.ltb_ge _ _)) by zlens.
    uint_step uint8_here. rewrite (app_assoc _ (le_bytes 8 f)). uint_step uint8_here.
    rewrite (app_assoc _ (le_bytes 8 o)). uint_step uint4_here.
    do 2 f_equal. zlens.
  - cbn [app]. rewrite lookup_here. cbn [or_panic rbind Z.eqb]. do 2 f_equal. zlens.
Qed.

Lemma location_len_ok v : value_ok v -> u64_ok (match v with Some v => Location.len v | None => 0 end).
Proof.
  unfold u64_ok. destruct v as [[data|r]|]; cbn; unfold zlen; try lia. unfold serialized_size. lia.
Qed.

Lemma decode_entry_here pre i prev e rest : entry_ok e -> zlen prev < 2 ^ 64 ->
  DataBlock.decode_entry (pre ++ DataBlock.encode_entry i prev e ++ rest) (zlen pre) prev =
    Ok (strip e, zlen (pre ++ DataBlock.encode_entry i prev e)).
Proof.
  intros (Hk & Hv & Hs) Hp. unfold DataBlock.decode_entry, DataBlock.encode_entry. cbv zeta.
  set (sh := if (i mod RESTART_INTERVAL =? 0)%nat then 0%nat else common_prefix_len prev (Entry.key e)).
  set (vl := match Entry.value e with Some v => Location.len v | None => 0 end).
  assert (Hsh : take sh prev = take sh (Entry.key e) /\ (sh <= length prev)%nat /\ (sh <= length (Entry.key e))%nat).
  { unfold sh. case_match; [by rewrite !take_0; split_and!; (done || lia)|]. apply common_prefix_take. }
  destruct Hsh as (Htk & Hsp & Hsk). unfold zlen in Hk, Hp.
  rewrite <- !app_assoc. rewrite varint_here by lia. cbn [rbind].
  rewrite (app_assoc pre), varint_here by lia. cbn [rbind].
  rewrite (app_assoc _ (write_varint (Z.of_nat (length (Entry.key e) - sh)))), varint_here by (apply location_len_ok; done). cbn [rbind].
  rewrite (app_assoc _ (write_varint vl)), varint_here by done. cbn [rbind].
  rewrite zslice_prefix by done. cbn [or_panic rbind].
  rewrite (app_assoc _ (write_varint (Entry.sequence e))).
  assert (Hun : Z.of_nat (length (Entry.key e) - sh) = zlen (drop sh (Entry.key e))) by (unfold zlen; rewrite length_drop; lia).
  rewrite Hun, slice_here by done. cbn [or_panic rbind]. rewrite <- zlen_app.
  rewrite (app_assoc _ (drop sh (Entry.key e))), decode_value_here by done. cbn [rbind].
  unfold strip. rewrite Htk, take_drop. by rewrite <- !app_assoc.
Qed.

Lemma encode_entry_pos i prev e : 1 <= zlen (DataBlock.encode_entry i prev e).
Proof.
  unfold DataBlock.encode_entry. cbv zeta. rewrite zlen_app.
  match goal with |- context [write_varint (Z.of_nat ?s)] => pose proof (varint_pos (Z.of_nat s) ltac:(lia)) end.
  match goal with |- context [_ + zlen ?l] => pose proof (zlen_nonneg l) end. lia.
Qed.

Lemma decode_entries_here es : forall fuel pre i prev rest, Forall entry_ok es -> zlen prev < 2 ^ 64 -> (length es <= fuel)%nat ->
  DataBlock.decode_entries fuel (pre ++ DataBlock.encode_entries i prev es ++ rest) (zlen (pre ++ DataBlock.encode_entries i prev es)) (zlen pre) prev =
    Ok (strip <$> es).
Proof.
  induction es as [|e es IH]; intros fuel pre i prev rest Hes Hp Hf; cbn [DataBlock.encode_entries].
  - rewrite app_nil_r. destruct fuel; cbn [DataBlock.decode_entries]; by rewrite Z.ltb_irrefl.
  - apply Forall_cons in Hes as [He Hes]. destruct fuel as [|fuel]; [cbn in Hf; lia|]. cbn [DataBlock.decode_entries].
    pose proof (encode_entry_pos i prev e). rewrite (proj2 (Z.ltb_lt _ _)) by (rewrite !zlen_app; zlens).
    rewrite <- app_assoc, decode_entry_here by done. cbn [rbind]. rewrite (app_assoc pre), (app_assoc pre).
    rewrite IH; [done|done| |cbn in Hf; lia]. by destruct He.
Qed.

Lemma encode_entries_len es : forall i prev, Z.of_nat (length es) <= zlen (DataBlock.encode_entries i prev es).
Proof.
  induction es as [|e es IH]; intros i prev; cbn [DataBlock.encode_entries length]; [zlens|]. rewrite zlen_app.
  pose proof (encode_entry_pos i prev e). pose proof (IH (S i) (Entry.key e)). lia.
Qed.

Lemma read_restarts_here ps : forall pre i rest, Forall (fun p => 0 <= p < 2 ^ 32) ps ->
  forall base, base + Z.of_nat i * 4 = zlen pre ->
  DataBlock.read_restarts (pre ++ concat (le_bytes 4 <$> ps) ++ rest) base i (length ps) = Ok ps.
Proof.
  induction ps as [|p ps IH]; intros pre i rest Hps base Hb; [done|]. apply Forall_cons in Hps as [Hp Hps].
  cbn [fmap list_fmap concat length DataBlock.read_restarts]. rewrite <- app_assoc, uint4_here by done. cbn [rbind].
  rewrite (app_assoc pre), IH; [done|done|]. zlens.
Qed.

Lemma zlen_restarts ps : zlen (concat (le_bytes 4 <$> ps)) = 4 * zlen ps.
Proof. induction ps as [|p ps IH]; [done|]. cbn [fmap list_fmap concat]. fold (le_bytes 4 <$> ps). zlens. Qed.

(** A block the builder makes. *)
Definition block_ok (b : DataBlock.t) : Prop :=
  Forall entry_ok (DataBlock.entries b) /\ Forall (fun p => 0 <= p < 2 ^ 32) (DataBlock.restart_points b) /\
  zlen (DataBlock.restart_points b) < 2 ^ 32.

Definition strip_block (b : DataBlock.t) : DataBlock.t := DataBlock.mk (strip <$> DataBlock.entries b) (DataBlock.restart_points b).

Lemma decode_raw_here b : block_ok b -> DataBlock.decode_raw (DataBlock.raw b) = Ok (strip_block b).
Proof.
  intros (He & Hr & Hn). unfold DataBlock.decode_raw, DataBlock.raw.
  set (ents := DataBlock.encode_entries 0 [] (DataBlock.entries b)). set (rs := concat _).
  pose proof (zlen_restarts (DataBlock.restart_points b)) as Hrs. fold rs in Hrs.
  pose proof (zlen_nonneg (DataBlock.restart_points b)).
  assert (Hlast : le_value (drop (length (ents ++ rs ++ le_bytes 4 (u32 (zlen (DataBlock.restart_points b)))) - 4)
    (ents ++ rs ++ le_bytes 4 (u32 (zlen (DataBlock.restart_points b))))) = zlen (DataBlock.restart_points b)).
  { rewrite app_assoc, length_app, length_le_bytes. replace (_ + 4 - 4)%nat with (length (ents ++ rs)) by lia. rewrite drop_app_length.
    unfold u32. rewrite wrap_small by lia. apply le_value_small. cbn. lia. }
  rewrite Hlast. rewrite (proj2 (Z.ltb_ge _ _)) by zlens.
  replace (zlen (ents ++ rs ++ le_bytes 4 _) - 4 - _) with (zlen ents) by zlens.
  rewrite (proj2 (Z.ltb_ge _ _)) by zlens. cbv zeta. unfold zlen at 3. rewrite Nat2Z.id.
  unfold rs at 1. rewrite read_restarts_here by (done || lia). cbn [rbind].
  pose proof (decode_entries_here (DataBlock.entries b) (length (ents ++ rs ++ le_bytes 4 (u32 (zlen (DataBlock.restart_points b))))) [] 0 []
    (rs ++ le_bytes 4 (u32 (zlen (DataBlock.restart_points b)))) He ltac:(done)) as Hdec.
  cbn [app] in Hdec. change (zlen (@nil Z)) with 0 in Hdec. fold ents in Hdec. rewrite Hdec; [done|].
  pose proof (encode_entries_len (DataBlock.entries b) 0 []) as Hl. fold ents in Hl. unfold zlen in Hl. rewrite length_app. lia.
Qed.

Section blocks.
Context `{!Integrity.Hashes} `{!Integrity.HashLaws} `{!Codecs} `{!CodecLaws}.

(** Compression that a block survives: anything but LZ4, or LZ4 that saves at
    most three quarters (and a block below 512 MiB). *)
Definition survives (c : CompressionAlgorithm) (raw : list Z) : Prop :=
  match c with
  | Lz4 => forall z, lz4_compress raw = Some z -> zlen raw <= zlen z * 4 < 2 ^ 31
  | _ => True
  end.

Lemma decompress_compress c raw z : survives c raw -> Compression.compress c raw = Some z -> Compression.decompress c z None = Some raw.
Proof using All.
  intros Hs Hz. destruct c; cbn in *; [by simplify_eq| |by apply zstd_law|by apply snappy_law].
  rewrite (lz4_law _ _ _ Hz). specialize (Hs _ Hz). unfold zlen in Hs. cbn [default].
  unfold u32. rewrite signed_wrap by lia. by rewrite (proj2 (Z.leb_le _ _)) by lia.
Qed.

Lemma decode_block b c d : block_ok b -> survives c (DataBlock.raw b) -> DataBlock.encode b c = Ok d ->
  DataBlock.decode d = Ok (strip_block b) /\ 5 <= zlen d.
Proof using All.
  intros Hb Hs Henc. unfold DataBlock.encode in Henc. apply rbind_ok in Henc as (z & Hz & [= <-]).
  assert (Hlen : 5 <= zlen (append_crc (Compression.as_u8 c :: z))) by (rewrite zlen_append_crc; zlens).
  split; [|done]. unfold DataBlock.decode. rewrite (proj2 (Z.ltb_ge _ _)) by lia.
  rewrite check_append_crc. cbn [rbind lookup list_lookup or_panic].
  rewrite (proj2 (compression_tag _ c)) by done. cbn [ok_or rbind]. cbv zeta. change (drop 1 (Compression.as_u8 c :: z)) with z.
  assert (Hraw : match c with NoCompression => Ok z | _ => ok_or (Compression.decompress c z None) OtherError end = Ok (DataBlock.raw b)).
  { destruct c; [by simplify_eq| | |];
      (destruct (Compression.compress _ _) as [z'|] eqn:E; [|done]; cbn in Hz; injection Hz as ->; by rewrite (decompress_compress _ (DataBlock.raw b))). }
  rewrite Hraw. cbn [rbind]. by apply decode_raw_here.
Qed.

Lemma encode_block_total b : exists d, DataBlock.encode b NoCompression = Ok d.
Proof. unfold DataBlock.encode. cbn [rbind]. by eexists. Qed.

(** ** Index block *)

Definition index_ok (idx : IndexBlock.t) : Prop := Forall (fun e => zlen e.1 < 2 ^ 64 /\ handle_ok e.2) idx.

Lemma decode_index_loop idx : forall fuel pre, index_ok idx -> (length idx <= fuel)%nat ->
  IndexBlock.decode_loop fuel (pre ++ concat (IndexBlock.encode_entry <$> idx)) (zlen pre) = Ok idx.
Proof using.
  induction idx as [|[k [o s]] idx IH]; intros fuel pre Hidx Hf.
  - cbn [fmap list_fmap concat]. rewrite app_nil_r. destruct fuel; cbn [IndexBlock.decode_loop]; by rewrite Z.ltb_irrefl.
  - apply Forall_cons in Hidx as [(Hk & Ho & Hs) Hidx]. cbn [fst snd offset size] in *. destruct fuel as [|fuel]; [cbn in Hf; lia|].
    cbn [fmap list_fmap concat IndexBlock.decode_loop]. fold (IndexBlock.encode_entry <$> idx).
    change (IndexBlock.encode_entry (k, Handle o s)) with (write_varint (zlen k) ++ k ++ write_varint o ++ write_varint s).
    pose proof (zlen_nonneg k). pose proof (varint_pos (zlen k) ltac:(lia)).
    rewrite (proj2 (Z.ltb_lt _ _)) by (rewrite !zlen_app; zlens).
    rewrite <- !app_assoc. rewrite varint_here by done. cbn [rbind].
    rewrite (app_assoc pre), slice_here by done. cbn [or_panic rbind]. rewrite <- zlen_app.
    rewrite (app_assoc _ k), varint_here by done. cbn [rbind].
    rewrite (app_assoc _ (write_varint o)), varint_here by done. cbn [rbind].
    rewrite (app_assoc _ (write_varint s)), IH; [done|done|cbn in Hf; lia].
Qed.

Lemma index_len idx : Z.of_nat (length idx) <= zlen (concat (IndexBlock.encode_entry <$> idx)).
Proof using.
  induction idx as [|[k h] idx IH]; [done|]. cbn [fmap list_fmap concat length]. fold (IndexBlock.encode_entry <$> idx). rewrite zlen_app.
  unfold IndexBlock.encode_entry at 1. pose proof (varint_pos (zlen k) ltac:(zlens)). cbn [fst]. rewrite zlen_app. zlens.
Qed.

Lemma index_roundtrip idx : index_ok idx -> IndexBlock.decode (IndexBlock.encode idx) = Ok idx.
Proof using All.
  intros Hidx. unfold IndexBlock.decode, IndexBlock.encode. rewrite zlen_append_crc, (proj2 (Z.ltb_ge _ _)) by zlens.
  rewrite check_append_crc. cbn [rbind].
  pose proof (decode_index_loop idx (length (concat (IndexBlock.encode_entry <$> idx))) [] Hidx) as H'. cbn [app] in H'. apply H'.
  pose proof (index_len idx). unfold zlen in *. lia.
Qed.
End blocks.

(** ** Bloom filter *)

Module BloomSpec.
Import BloomFilter.

Lemma shiftl_bit_nonzero p : 0 <= p -> Z.shiftl 1 p <> 0.
Proof. intros Hp. rewrite Z.shiftl_mul_pow2 by done. pose proof (Z.pow_pos_nonneg 2 p). lia. Qed.

Lemma get_set_same bits pos : 0 <= pos < Z.of_nat (length bits) * 8 -> get_bit (set_bit bits pos) pos = true.
Proof.
  intros Hp. unfold get_bit, set_bit. rewrite list_lookup_alter_eq.
  destruct (lookup_lt_is_Some_2 bits (Z.to_nat (pos / 8))) as [b Hb].
  { apply Nat2Z.inj_lt. rewrite Z2Nat.id by (apply Z.div_pos; lia). apply Z.div_lt_upper_bound; lia. }
  rewrite Hb. cbn [fmap option_fmap default from_option]. apply negb_true_iff, Z.eqb_neq. cbn.
  rewrite Z.land_lor_distr_l, Z.land_diag. intros H. apply Z.lor_eq_0_iff in H as [_ H]. revert H. apply shiftl_bit_nonzero.
  apply Z.mod_pos_bound. lia.
Qed.

Lemma get_set_mono bits pos q : get_bit bits q = true -> get_bit (set_bit bits pos) q = true.
Proof.
  unfold get_bit, set_bit. intros Hq. apply negb_true_iff, Z.eqb_neq in Hq. apply negb_true_iff, Z.eqb_neq. intros H. apply Hq. clear Hq.
  destruct (decide (Z.to_nat (pos / 8) = Z.to_nat (q / 8))) as [Heq|Hne].
  - rewrite Heq, list_lookup_alter_eq in H. destruct (bits !! Z.to_nat (q / 8)) as [b|]; [|done]. cbn in *.
    rewrite Z.land_lor_distr_l in H. by apply Z.lor_eq_0_iff in H as [H _].
  - by rewrite list_lookup_alter_ne in H.
Qed.

Lemma length_set_bit bits pos : length (set_bit bits pos) = length bits.
Proof. apply length_alter. Qed.

Lemma bit_pos_range n key i p : bit_pos n key i = Some p -> 0 <= p < Z.of_nat n * 8.
Proof.
  unfold bit_pos. cbv zeta. destruct (Nat.eqb_spec n 0); [done|]. intros [= <-]. apply Z.mod_pos_bound. lia.
Qed.

Lemma add_loop_spec key n : forall bits i, bits <> [] -> exists bits', add_loop bits key i n = Ok bits' /\ length bits' = length bits /\
  (forall q, get_bit bits q = true -> get_bit bits' q = true) /\
  (forall j p, (i <= j < i + n)%nat -> bit_pos (length bits) key j = Some p -> get_bit bits' p = true).
Proof.
  induction n as [|n IH]; intros bits i Hne.
  - exists bits. split_and!; auto. intros. lia.
  - cbn [add_loop]. destruct (bit_pos (length bits) key i) as [pos|] eqn:E.
    2:{ unfold bit_pos in E. cbv zeta in E. destruct bits; done. }
    cbn [or_panic rbind].
    destruct (IH (set_bit bits pos) (S i)) as (bits' & Hb' & Hl & Hm & Hj).
    { intros H. apply Hne. apply nil_length_inv. by rewrite <- (length_set_bit bits pos), H. }
    rewrite length_set_bit in Hl, Hj. exists bits'. split_and!; auto.
    + intros q Hq. by apply Hm, get_set_mono.
    + intros j p Hij Hp. destruct (decide (j = i)) as [->|]; [|apply (Hj j); [lia|done]].
      rewrite E in Hp. injection Hp as ->. apply Hm, get_set_same. by apply (bit_pos_range _ key i).
Qed.

Lemma may_contain_loop_spec key n : forall bits i, bits <> [] ->
  exists r, may_contain_loop bits key i n = Ok r /\
    ((forall j p, (i <= j < i + n)%nat -> bit_pos (length bits) key j = Some p -> get_bit bits p = true) -> r = true).
Proof.
  induction n as [|n IH]; intros bits i Hne; cbn [may_contain_loop]; [by exists true|].
  destruct (bit_pos (length bits) key i) as [pos|] eqn:E.
  2:{ unfold bit_pos in E. cbv zeta in E. destruct bits; done. }
  cbn [or_panic rbind]. destruct (get_bit bits pos) eqn:Eg.
  - destruct (IH bits (S i) Hne) as (r & Hr & Himp). exists r. split; [done|]. intros Hall. apply Himp. intros j p Hj. apply Hall. lia.
  - exists false. split; [done|]. intros Hall. rewrite (Hall i pos) in Eg; [done|lia|done].
Qed.

(** The filter says yes to [key]: all its bits are set. *)
Definition covers (f : t) (key : list Z) : Prop :=
  forall j p, (j < num_hash_functions f)%nat -> bit_pos (length (bits f)) key j = Some p -> get_bit (bits f) p = true.

Lemma add_spec f key : bits f <> [] -> exists f', add f key = Ok f' /\ bits f' <> [] /\ num_hash_functions f' = num_hash_functions f /\
  length (bits f') = length (bits f) /\ covers f' key /\ (forall k, covers f k -> covers f' k).
Proof.
  intros Hne. unfold add. destruct (add_loop_spec key (num_hash_functions f) (bits f) 0 Hne) as (b & -> & Hl & Hm & Hj).
  cbn [rbind]. eexists. split; [done|]. cbn [bits num_hash_functions]. split_and!; try done.
  - intros ->. apply Hne. apply nil_length_inv. by rewrite <- Hl.
  - intros j p Hlt Hp. cbn in *. rewrite Hl in Hp. apply (Hj j); [lia|done].
  - intros k Hk j p Hlt Hp. cbn in *. rewrite Hl in Hp. by apply Hm, (Hk j).
Qed.

Lemma may_contain_spec f key : bits f <> [] -> exists r, may_contain f key = Ok r /\ (covers f key -> r = true).
Proof.
  intros Hne. destruct (may_contain_loop_spec key (num_hash_functions f) (bits f) 0 Hne) as (r & Hr & Himp). exists r. split; [done|].
  intros Hc. apply Himp. intros j p Hj. apply Hc. lia.
Qed.

Lemma build_spec es : forall f, bits f <> [] -> exists f', SSTable.build_bloom f es = Ok f' /\ bits f' <> [] /\
  num_hash_functions f' = num_hash_functions f /\ length (bits f') = length (bits f) /\
  (forall k, covers f k \/ k ∈ Entry.key <$> es -> covers f' k).
Proof.
  induction es as [|e es IH]; intros f Hne; cbn [SSTable.build_bloom].
  - exists f. split_and!; auto. intros k [?|H]; [done|]. by apply not_elem_of_nil in H.
  - destruct (add_spec f (Entry.key e) Hne) as (f1 & -> & Hne1 & Hn1 & Hl1 & Hc1 & Hm1). cbn [rbind].
    destruct (IH f1 Hne1) as (f2 & H2 & Hne2 & Hn2 & Hl2 & Hc2). exists f2. split_and!; auto; try congruence.
    intros k Hk. apply Hc2. destruct Hk as [Hk|Hk]; [left; auto|]. rewrite fmap_cons in Hk. apply elem_of_cons in Hk as [->|Hk]; auto.
Qed.

Section codec.
Context `{!Integrity.Hashes} `{!Integrity.HashLaws}.

Lemma bloom_roundtrip f : (num_hash_functions f < 256)%nat -> decode (encode f) = Ok f.
Proof using All.
  intros Hn. unfold decode, encode. rewrite zlen_append_crc, (proj2 (Z.ltb_ge _ _)) by zlens.
  rewrite check_append_crc. cbn [rbind lookup list_lookup or_panic drop]. rewrite Z.mod_small, Nat2Z.id by lia. by destruct f.
Qed.
End codec.

Lemma bloom_new_ok n : (0 < n)%nat -> bits (new n 10) <> [] /\ num_hash_functions (new n 10) = 6%nat /\
  Z.of_nat (length (bits (new n 10))) <= 2 * Z.of_nat n.
Proof.
  intros Hn. unfold new. cbn [bits num_hash_functions]. rewrite length_replicate. split_and!; [|by vm_compute|].
  - intros H. apply (f_equal length) in H. rewrite length_replicate in H. cbn [length] in H.
    pose proof (Nat.div_str_pos (n * 10 + 7) 8). lia.
  - pose proof (Nat.Div0.div_lt_upper_bound (n * 10 + 7) 8 (2 * n + 1)). lia.
Qed.
End BloomSpec.

(** ** Tables *)

Module TableSpec.

Lemma read_exact_here pre x rest n : n = zlen x -> read_exact_at (pre ++ x ++ rest) (zlen pre) n = Ok x.
Proof.
  intros ->. unfold read_exact_at. rewrite (proj2 (Z.ltb_ge _ _)) by zlens.
  unfold zlen. by rewrite !Nat2Z.id, drop_app_length, take_app_length.
Qed.

(** The entry of a key in a list without duplicates. *)
Definition find_key (k : list Z) (es : list Entry.t) : option Entry.t := snd <$> list_find (fun e => Entry.key e = k) es.

Lemma find_key_None k es : Forall (fun e => Entry.key e <> k) es -> find_key k es = None.
Proof. intros H. unfold find_key. by rewrite (proj2 (list_find_None _ _) H). Qed.

Lemma find_key_Some k es e : sorted_by Entry.key es -> e ∈ es -> Entry.key e = k -> find_key k es = Some e.
Proof.
  intros Hs He <-. unfold find_key. destruct (list_find _ es) as [[i e']|] eqn:E.
  - apply list_find_Some in E as (Hi & Hk & _). apply list_elem_of_lookup in He as [j Hj]. cbn.
    pose proof (sorted_by_NoDup _ _ Hs) as Hnd.
    assert (i = j) as ->; [|congruence].
    eapply (NoDup_lookup _ i j (Entry.key e)); [exact Hnd|by rewrite list_lookup_fmap, Hi, <- Hk|by rewrite list_lookup_fmap, Hj].
  - apply list_find_None in E. rewrite Forall_forall in E. by destruct (E e He).
Qed.

Lemma last_max {A} (pi : A -> list Z) l e x : sorted_by pi l -> last l = Some e -> x ∈ l -> bytes_le (pi x) (pi e).
Proof.
  intros Hs Hl Hx. apply last_Some in Hl as [l' ->]. apply sorted_by_app in Hs as (_ & _ & Hlt).
  apply elem_of_app in Hx as [Hx|Hx]; [|apply list_elem_of_singleton in Hx as ->; apply bytes_le_refl].
  apply bytes_lt_le, Hlt; [done|]. apply list_elem_of_here.
Qed.

Lemma last_elem {A} (l : list A) e : last l = Some e -> e ∈ l.
Proof. intros [l' ->]%last_Some. apply elem_of_app. right. apply list_elem_of_here. Qed.

Definition ends_with (ie : list Z * BlockHandle) (b : DataBlock.t) : Prop :=
  exists e, last (DataBlock.entries b) = Some e /\ ie.1 = Entry.key e.

Definition all_entries (bs : list DataBlock.t) : list Entry.t := concat (DataBlock.entries <$> bs).

Lemma all_entries_app bs1 bs2 : all_entries (bs1 ++ bs2) = all_entries bs1 ++ all_entries bs2.
Proof. unfold all_entries. by rewrite fmap_app, concat_app. Qed.

Lemma all_entries_cons b bs : all_entries (b :: bs) = DataBlock.entries b ++ all_entries bs.
Proof. done. Qed.

Lemma elem_all_entries e b bs : b ∈ bs -> e ∈ DataBlock.entries b -> e ∈ all_entries bs.
Proof.
  intros Hb He. induction bs as [|b' bs IH]; [by apply not_elem_of_nil in Hb|]. rewrite all_entries_cons. apply elem_of_app.
  apply elem_of_cons in Hb as [->|Hb]; auto.
Qed.

(** Blocks whose last keys are below [key] hold only keys below it. *)
Lemma blocks_below key idx bs : Forall2 ends_with idx bs -> sorted_by Entry.key (all_entries bs) -> all_lt fst key idx ->
  all_lt Entry.key key (all_entries bs).
Proof.
  induction 1 as [|ie b idx bs (e & Hl & Hk) _ IH]; intros Hs Hlt; [apply Forall_nil_2|].
  rewrite all_entries_cons in *. apply sorted_by_app in Hs as (Hsb & Hs & _). apply Forall_cons in Hlt as [Hk' Hlt].
  apply Forall_app. split; [|by apply IH]. apply Forall_forall. intros x Hx. rewrite Hk in Hk'.
  eapply bytes_le_lt_trans; [|exact Hk']. by apply (last_max _ _ _ _ Hsb).
Qed.

Lemma index_sorted idx bs : Forall2 ends_with idx bs -> sorted_by Entry.key (all_entries bs) -> sorted_by fst idx.
Proof.
  induction 1 as [|ie b idx bs (e & Hl & Hk) HF IH]; intros Hs; [apply sorted_by_nil|].
  rewrite all_entries_cons in Hs. apply sorted_by_app in Hs as (_ & Hs & Hlt). apply sorted_by_cons. split; [by apply IH|].
  rewrite Hk. clear IH Hs. apply Forall_forall. intros ie' Hin. apply list_elem_of_lookup in Hin as [i Hi].
  destruct (Forall2_lookup_l _ _ _ _ _ HF Hi) as (b' & Hb' & e' & Hl' & ->). apply Hlt; [by apply last_elem|].
  apply (elem_all_entries _ b'); [by apply list_elem_of_lookup_2 in Hb'|by apply last_elem].
Qed.

(** Where the index sends a lookup. *)
Lemma find_block_view idx bs key : Forall2 ends_with idx bs -> sorted_by Entry.key (all_entries bs) ->
  match IndexBlock.find_block idx key with
  | None => find_key key (all_entries bs) = None
  | Some h => exists i k b, idx !! i = Some (k, h) /\ bs !! i = Some b /\ sorted_by Entry.key (DataBlock.entries b) /\
      find_key key (all_entries bs) = find_key key (DataBlock.entries b)
  end.
Proof.
  intros HF Hs. pose proof (search_key_view fst key idx (index_sorted _ _ HF Hs)) as Hv. unfold IndexBlock.find_block.
  assert (Hmain : forall l1 l2, idx = l1 ++ l2 -> all_lt fst key l1 -> match l2 with [] => True | x :: _ => bytes_le key x.1 end ->
    match snd <$> idx !! length l1 with
    | None => find_key key (all_entries bs) = None
    | Some h => exists i k b, idx !! i = Some (k, h) /\ bs !! i = Some b /\ sorted_by Entry.key (DataBlock.entries b) /\
        find_key key (all_entries bs) = find_key key (DataBlock.entries b)
    end).
  { intros l1 l2 Heq Hlt Hge. rewrite Heq. rewrite Heq in HF. clear Heq. apply Forall2_app_inv_l in HF as (bs1 & bs2 & HF1 & HF2 & ->).
    rewrite all_entries_app in *. pose proof Hs as Hs'. apply sorted_by_app in Hs' as (Hs1 & Hs2 & _).
    pose proof (blocks_below _ _ _ HF1 Hs1 Hlt) as Hbelow.
    assert (Hno1 : Forall (fun e => Entry.key e <> key) (all_entries bs1)).
    { eapply Forall_impl; [exact Hbelow|]. intros x Hx. by apply bytes_lt_neq. }
    destruct l2 as [|[k h] l2].
    - apply Forall2_nil_inv_l in HF2 as ->. rewrite app_nil_r, lookup_ge_None_2 by lia. cbn. apply find_key_None. by rewrite app_nil_r.
    - apply Forall2_cons_inv_l in HF2 as (b & bs2' & (e & Hl & Hk) & HF2 & ->). cbn [fst] in Hk. subst k.
      rewrite lookup_app_here. cbn [fmap option_fmap snd]. exists (length l1), (Entry.key e), b.
      rewrite lookup_app_here, (Forall2_length _ _ _ HF1), lookup_app_here. rewrite all_entries_cons in *.
      apply sorted_by_app in Hs2 as (Hsb & Hs2 & Hlt2). split_and!; try done.
      destruct (decide (Forall (fun e => Entry.key e <> key) (DataBlock.entries b))) as [Hno|Hyes].
      + rewrite (find_key_None key (DataBlock.entries b)) by done. apply find_key_None. rewrite !Forall_app. split_and!; [done..|].
        apply Forall_forall. intros x Hx ->%eq_sym. eapply bytes_lt_irrefl, bytes_le_lt_trans; [exact Hge|]. cbn. by apply Hlt2; [apply last_elem|].
      + apply not_Forall_Exists, Exists_exists in Hyes as (x & Hx & Hxk); [|apply _]. cbn in Hxk. apply dec_stable in Hxk.
        rewrite (find_key_Some _ _ x Hsb Hx Hxk). apply find_key_Some; [done| |done]. apply elem_of_app. right. apply elem_of_app. by left. }
  destruct Hv as [l1 x l2 Heq Hx H1 H2|l1 l2 Heq H1 H2]; apply (Hmain l1 _ Heq H1).
  - rewrite Hx. apply bytes_le_refl.
  - destruct l2 as [|x l2]; [done|]. apply Forall_cons in H2 as [H2 _]. by apply bytes_lt_le.
Qed.

(** A block answers for its own keys. *)
Lemma search_block b key : sorted_by Entry.key (DataBlock.entries b) ->
  match binary_search_by (key_probe Entry.key key) (DataBlock.entries (strip_block b)) with
  | Found i => DataBlock.entries (strip_block b) !! i
  | NotFound _ => None
  end = strip <$> find_key key (DataBlock.entries b).
Proof.
  intros Hs. cbn [strip_block DataBlock.entries].
  assert (Hs' : sorted_by Entry.key (strip <$> DataBlock.entries b)).
  { unfold sorted_by in *. rewrite <- list_fmap_compose. exact Hs. }
  destruct (search_key_view Entry.key key _ Hs') as [l1 x l2 Heq Hx H1 H2|l1 l2 Heq H1 H2]; rewrite ?Heq.
  - rewrite lookup_app_here. assert (Hin : x ∈ strip <$> DataBlock.entries b) by (rewrite Heq; apply elem_of_app; right; apply list_elem_of_here).
    apply list_elem_of_fmap in Hin as (e & -> & He). by rewrite (find_key_Some _ _ e Hs He Hx).
  - rewrite find_key_None; [done|]. apply Forall_forall. intros e He Hk.
    assert (Hin : strip e ∈ l1 ++ l2) by (rewrite <- Heq; apply list_elem_of_fmap; eauto).
    apply elem_of_app in Hin as [Hin|Hin]; [apply (all_lt_elem Entry.key key) in Hin|apply (all_gt_elem Entry.key key) in Hin]; try done;
      cbn in Hin; rewrite Hk in Hin; by apply bytes_lt_irrefl in Hin.
Qed.

(** *** Writing blocks *)

(** A block under construction. *)
Definition block_inv (b : DataBlock.t) : Prop :=
  Forall entry_ok (DataBlock.entries b) /\ Forall (fun p => 0 <= p < 2 ^ 32) (DataBlock.restart_points b) /\
  zlen (DataBlock.restart_points b) <= zlen (DataBlock.entries b).

Lemma block_inv_ok b : block_inv b -> zlen (DataBlock.entries b) < 2 ^ 32 -> block_ok b.
Proof. intros (H1 & H2 & H3) H4. split_and!; [done..|lia]. Qed.

Lemma new_inv : block_inv DataBlock.new.
Proof. split_and!; [apply Forall_nil_2..|done]. Qed.

Lemma add_entry_inv b e : block_inv b -> entry_ok e -> block_inv (DataBlock.add_entry b e).
Proof.
  intros (H1 & H2 & H3) He. unfold DataBlock.add_entry, block_inv. cbn [DataBlock.entries DataBlock.restart_points]. split_and!.
  - apply Forall_app. split; [done|]. constructor; [done|apply Forall_nil_2].
  - case_match; [|done]. apply Forall_app. split; [done|]. constructor; [|apply Forall_nil_2]. apply wrap_range. lia.
  - case_match; zlens.
Qed.

Section tables.
Context `{!Integrity.Hashes} `{!Integrity.HashLaws} `{!Codecs} `{!CodecLaws}.
Context (c : CompressionAlgorithm).

(** [bs] are laid out one after the other in [w], and [idx] is the index over them. *)
Inductive laid : list Z -> IndexBlock.t -> list DataBlock.t -> Prop :=
| laid_nil : laid [] [] []
| laid_snoc w idx bs b d e : laid w idx bs -> block_ok b -> survives c (DataBlock.raw b) ->
    DataBlock.encode b c = Ok d -> last (DataBlock.entries b) = Some e ->
    laid (w ++ d) (idx ++ [(Entry.key e, Handle (zlen w) (zlen d))]) (bs ++ [b]).

Lemma laid_ends w idx bs : laid w idx bs -> Forall2 ends_with idx bs.
Proof using.
  induction 1 as [|w idx bs b d e _ IH _ _ _ Hl]; [constructor|]. apply Forall2_app; [done|]. constructor; [|constructor]. by exists e.
Qed.

Lemma laid_read w idx bs : laid w idx bs -> forall i k h b rest, idx !! i = Some (k, h) -> bs !! i = Some b ->
  SSTable.read_block (w ++ rest) h = Ok (strip_block b).
Proof using All.
  induction 1 as [|w idx bs b d e Hlaid IH Hok Hsv Henc Hl]; intros i k h b' rest Hi Hb; [done|].
  pose proof (Forall2_length _ _ _ (laid_ends _ _ _ Hlaid)) as Hlen. rewrite <- app_assoc. unfold IndexBlock.t in *.
  destruct (decide (i < length idx)%nat) as [Hlt|Hge].
  - rewrite lookup_app_l in Hi by done. rewrite lookup_app_l in Hb by lia. by apply (IH i k).
  - pose proof (lookup_lt_Some _ _ _ Hi) as Hr. rewrite length_app in Hr. cbn in Hr. assert (i = length idx) as -> by lia.
    rewrite lookup_app_here in Hi. rewrite Hlen, lookup_app_here in Hb. simplify_eq.
    unfold SSTable.read_block. cbn [offset size]. rewrite read_exact_here by done. cbn [rbind]. by apply (decode_block b' c d).
Qed.

Lemma laid_index_ok w idx bs : laid w idx bs -> zlen w < 2 ^ 64 -> index_ok idx.
Proof using.
  induction 1 as [|w idx bs b d e Hlaid IH [Hok _] Hsv Henc Hl]; intros Hw; [apply Forall_nil_2|]. rewrite zlen_app in Hw.
  pose proof (zlen_nonneg d). pose proof (zlen_nonneg w).
  apply Forall_app. split; [apply IH; lia|]. constructor; [|apply Forall_nil_2]. cbn. unfold handle_ok, u64_ok. cbn. split_and!; try lia.
  apply last_elem in Hl. rewrite Forall_forall in Hok. by destruct (Hok e Hl).
Qed.

Lemma write_block_laid w idx bs b w' : laid w idx bs -> block_ok b -> survives c (DataBlock.raw b) ->
  SSTable.write_block (SSTable.Builder w idx) b c = Ok w' ->
  laid (SSTable.written w') (SSTable.index w') (bs ++ [b]).
Proof using.
  intros Hlaid Hok Hsv Hw. unfold SSTable.write_block in Hw. apply rbind_ok in Hw as (d & Hd & Hw). apply rbind_ok in Hw as (e & He & Hw).
  injection Hw as <-. cbn. unfold IndexBlock.add_entry. apply laid_snoc; try done. revert He. destruct (last _); cbn; congruence.
Qed.

Lemma write_blocks_laid es : forall w idx bs b n bsz w', (forall b, survives c (DataBlock.raw b)) ->
  laid w idx bs -> block_inv b -> Forall entry_ok es -> zlen (DataBlock.entries b) + zlen es < 2 ^ 32 ->
  SSTable.write_blocks es (SSTable.Builder w idx) b n bsz c = Ok w' ->
  exists bs', laid (SSTable.written w') (SSTable.index w') (bs ++ bs') /\ all_entries bs' = DataBlock.entries b ++ es.
Proof using All.
  induction es as [|e es IH]; intros w idx bs b n bsz w' Hsv Hlaid Hb Hes Hlen Hw; cbn [SSTable.write_blocks] in Hw.
  - rewrite app_nil_r. destruct (DataBlock.entries b) as [|e0 es0] eqn:Eb.
    + injection Hw as <-. exists []. by rewrite app_nil_r.
    + exists [b]. split; [|by rewrite all_entries_cons, app_nil_r]. eapply write_block_laid; eauto. apply block_inv_ok; [done|]. rewrite Eb. zlens.
  - apply Forall_cons in Hes as [He Hes]. rewrite zlen_cons in Hlen.
    destruct (_ && _) eqn:Ec.
    + apply rbind_ok in Hw as ([w1 idx1] & Hw1 & Hw). assert (Hok : block_ok b) by (apply block_inv_ok; [done|zlens]).
      apply (write_block_laid _ _ _ _ _ Hlaid Hok (Hsv b)) in Hw1. cbn in Hw1.
      destruct (IH _ _ _ _ _ _ _ Hsv Hw1 (add_entry_inv _ _ new_inv He) Hes ltac:(cbn; zlens) Hw) as (bs' & Hl' & He').
      exists (b :: bs'). rewrite <- app_assoc in Hl'. split; [done|]. by rewrite all_entries_cons, He'.
    + destruct (IH _ _ _ _ _ _ _ Hsv Hlaid (add_entry_inv _ _ Hb He) Hes ltac:(cbn; rewrite zlen_app; zlens) Hw) as (bs' & Hl' & He').
      exists bs'. split; [done|]. rewrite He'. cbn. by rewrite <- app_assoc.
Qed.
End tables.

Section total.
Context `{!Integrity.Hashes} `{!Codecs}.

Lemma write_block_total w b : DataBlock.entries b <> [] -> exists w', SSTable.write_block w b NoCompression = Ok w'.
Proof.
  intros Hne. unfold SSTable.write_block. destruct (encode_block_total b) as [d ->]. cbn [rbind].
  destruct (last (DataBlock.entries b)) eqn:E; [by eexists|]. by apply last_None in E.
Qed.

Lemma write_blocks_total es : forall w b n bsz, exists w', SSTable.write_blocks es w b n bsz NoCompression = Ok w'.
Proof.
  induction es as [|e es IH]; intros w b n bsz; cbn [SSTable.write_blocks].
  - destruct (DataBlock.entries b) eqn:E; [by eexists|]. apply write_block_total. by rewrite E.
  - destruct (_ && _) eqn:Ec; [|apply IH]. apply andb_prop in Ec as [_ Ec]. apply negb_true_iff, bool_decide_eq_false in Ec.
    destruct (write_block_total w b Ec) as [w' ->]. cbn [rbind]. apply IH.
Qed.
End total.
End TableSpec.

(** ** A whole file *)

Module FileSpec.
Import TableSpec.

Section file.
Context `{!Integrity.Hashes} `{!Integrity.HashLaws} `{!Codecs} `{!CodecLaws}.
Context (c : CompressionAlgorithm).

(** The sections of a table that holds [es]. *)
Record layout (es : list Entry.t) (bytes : list Z) (w : list Z) (idx : IndexBlock.t) (bs : list DataBlock.t) (bloom : BloomFilter.t) : Prop := {
  lay_bytes : bytes = w ++ BloomFilter.encode bloom ++ IndexBlock.encode idx ++
    Footer.encode (Footer.mk (Handle (zlen w) (zlen (BloomFilter.encode bloom)))
      (Handle (zlen w + zlen (BloomFilter.encode bloom)) (zlen (IndexBlock.encode idx))) MAGIC_NUMBER VERSION 0);
  lay_blocks : laid c w idx bs;
  lay_entries : all_entries bs = es;
  lay_bloom : BloomFilter.bits bloom <> [] /\ BloomFilter.num_hash_functions bloom = 6%nat /\
    forall k, k ∈ Entry.key <$> es -> BloomSpec.covers bloom k;
  lay_size : zlen bytes < 2 ^ 64
}.

Lemma create_layout es fn lvl bsz now bytes meta : (forall b, survives c (DataBlock.raw b)) -> Forall entry_ok es -> zlen es < 2 ^ 32 ->
  SSTable.create es fn lvl bsz c now = Ok (bytes, meta) -> zlen bytes < 2 ^ 64 ->
  exists w idx bs bloom, layout es bytes w idx bs bloom.
Proof using All.
  intros Hsv Hes Hlen Hc Hsize. unfold SSTable.create in Hc. destruct es as [|e0 es0] eqn:E; [done|]. rewrite <- E in *.
  apply rbind_ok in Hc as (bloom & Hbl & Hc). apply rbind_ok in Hc as ([w idx] & Hw & Hc). cbv zeta in Hc.
  apply rbind_ok in Hc as (le & Hle & Hc). apply Ok_inj, pair_equal_spec in Hc as [<- <-].
  destruct (BloomSpec.bloom_new_ok (length es)) as (Hb1 & Hb2 & _); [rewrite E; cbn; lia|].
  destruct (BloomSpec.build_spec es _ Hb1) as (bloom' & Hbl' & Hne & Hnum & _ & Hcov). rewrite Hbl in Hbl'. injection Hbl' as <-.
  destruct (write_blocks_laid c es [] [] [] DataBlock.new 0 bsz _ Hsv (laid_nil c) new_inv Hes ltac:(cbn; zlens) Hw) as (bs & Hlaid & Hall).
  exists w, idx, bs, bloom. cbn [SSTable.written SSTable.index app] in Hlaid, Hsize |- *.
  split; [reflexivity|exact Hlaid|exact Hall| |exact Hsize]. split_and!; [exact Hne|congruence|]. intros k Hk. apply Hcov. by right.
Qed.

Lemma create_total es fn lvl bsz now : es <> [] -> exists out, SSTable.create es fn lvl bsz NoCompression now = Ok out.
Proof.
  intros Hne. unfold SSTable.create. destruct es as [|e0 es0] eqn:E; [done|]. rewrite <- E in *.
  destruct (BloomSpec.bloom_new_ok (length es)) as (Hb1 & _); [rewrite E; cbn; lia|].
  destruct (BloomSpec.build_spec es _ Hb1) as (bloom & -> & _). cbn [rbind].
  destruct (write_blocks_total es (SSTable.Builder [] IndexBlock.new) DataBlock.new 0 bsz) as [w ->]. cbn [rbind]. cbv zeta.
  destruct (last es) eqn:El; [by eexists|]. by apply last_None in El.
Qed.

(** Reading the sections back. *)
Lemma layout_footer es bytes w idx bs bloom : layout es bytes w idx bs bloom ->
  read_footer bytes = Ok (Footer.mk (Handle (zlen w) (zlen (BloomFilter.encode bloom)))
      (Handle (zlen w + zlen (BloomFilter.encode bloom)) (zlen (IndexBlock.encode idx))) MAGIC_NUMBER VERSION 0).
Proof using All.
  intros [Hb _ _ _ Hsz]. unfold read_footer. rewrite Hb in *. set (f := Footer.mk _ _ _ _ _) in *.
  assert (Hf : zlen (Footer.encode f) = 48) by (unfold Footer.encode; zlens).
  rewrite !zlen_app in Hsz. pose proof (zlen_nonneg w). pose proof (zlen_nonneg (BloomFilter.encode bloom)). pose proof (zlen_nonneg (IndexBlock.encode idx)).
  rewrite (proj2 (Z.ltb_ge _ _)) by (unfold Footer.SIZE; rewrite !zlen_app; lia).
  rewrite !app_assoc. rewrite (zlen_app _ (Footer.encode f)), Hf. unfold Footer.SIZE. rewrite Z.add_simpl_r.
  rewrite <- (app_nil_r (Footer.encode f)) at 1. rewrite read_exact_here by done. cbn [rbind]. apply footer_roundtrip; try done.
  - split; cbn [Footer.meta_index_handle f offset size]; unfold u64_ok; lia.
  - split; cbn [Footer.index_handle f offset size]; unfold u64_ok; lia.
Qed.

Lemma layout_bloom es bytes w idx bs bloom : layout es bytes w idx bs bloom ->
  (let! d := read_exact_at bytes (zlen w) (zlen (BloomFilter.encode bloom)) in BloomFilter.decode d) = Ok bloom.
Proof using All.
  intros [Hb _ _ (_ & Hn & _) _]. rewrite Hb, read_exact_here by done. cbn [rbind]. apply BloomSpec.bloom_roundtrip. lia.
Qed.

Lemma layout_index es bytes w idx bs bloom f : layout es bytes w idx bs bloom ->
  Footer.index_handle f = Handle (zlen w + zlen (BloomFilter.encode bloom)) (zlen (IndexBlock.encode idx)) ->
  SSTable.read_index bytes f = Ok idx.
Proof using All.
  intros [Hb Hl _ _ Hsz] Hf. unfold SSTable.read_index. rewrite Hf. cbn [offset size]. rewrite Hb in Hsz |- *.
  rewrite app_assoc, <- zlen_app, read_exact_here by done. cbn [rbind]. apply index_roundtrip.
  apply (laid_index_ok c w idx bs Hl). rewrite zlen_app in Hsz. pose proof (zlen_nonneg (BloomFilter.encode bloom ++ IndexBlock.encode idx ++ Footer.encode f)).
  match type of Hsz with _ + zlen ?l < _ => pose proof (zlen_nonneg l) end. lia.
Qed.

Lemma layout_get es bytes w idx bs bloom key alg : layout es bytes w idx bs bloom -> sorted_by Entry.key es ->
  SSTable.get bytes key alg = Ok (strip <$> find_key key es).
Proof using All.
  intros Hlay Hs. unfold SSTable.get. rewrite (layout_footer _ _ _ _ _ _ Hlay). cbn [rbind].
  unfold SSTable.verify_file. cbn [Footer.checksum Z.eqb negb]. rewrite andb_false_r. cbn [rbind Footer.meta_index_handle offset size].
  pose proof (layout_bloom _ _ _ _ _ _ Hlay) as Hbl. apply rbind_ok in Hbl as (d & Hd & Hbl). rewrite Hd. cbn [rbind]. rewrite Hbl. cbn [rbind].
  pose proof Hlay as [Hb Hl Hall (Hne & Hn & Hcov) Hsz].
  destruct (BloomSpec.may_contain_spec bloom key Hne) as (r & -> & Hr). cbn [rbind].
  destruct r; cbn [negb].
  2:{ rewrite find_key_None; [done|]. apply Forall_forall. intros e He Hk. enough (false = true) by done. apply Hr, Hcov.
      apply list_elem_of_fmap. by exists e. }
  rewrite (layout_index _ _ _ _ _ _ _ Hlay) by done. cbn [rbind].
  pose proof (find_block_view idx bs key (laid_ends c _ _ _ Hl)) as Hv. rewrite Hall in Hv. specialize (Hv Hs).
  destruct (IndexBlock.find_block idx key) as [h|]; [|by rewrite Hv].
  destruct Hv as (i & k & b & Hi & Hbi & Hsb & Hfk). rewrite Hb, (laid_read c w idx bs Hl i k h b _ Hi Hbi). cbn [rbind].
  rewrite Hfk, <- (search_block b key Hsb). by destruct (binary_search_by _ _).
Qed.

(** *** Iteration *)

Definition iter_ok (rest w : list Z) (idx : IndexBlock.t) (bs : list DataBlock.t) (it : SSTableIterator.t) (remaining : list Entry.t) : Prop :=
  SSTableIterator.reader it = w ++ rest /\ SSTableIterator.index it = idx /\
  remaining = match SSTableIterator.current_block it with
              | Some b => drop (SSTableIterator.current_entry_idx it) (DataBlock.entries b)
              | None => []
              end ++ (strip <$> all_entries (drop (SSTableIterator.current_block_idx it) bs)).

(** An entry at hand is returned. *)
Lemma next_here rest w idx bs it e rem fuel : iter_ok rest w idx bs it (e :: rem) ->
  (exists b, SSTableIterator.current_block it = Some b /\ DataBlock.entries b !! SSTableIterator.current_entry_idx it = Some e) ->
  exists it', SSTableIterator.next fuel it = (Some (Ok e), it') /\ iter_ok rest w idx bs it' rem.
Proof using.
  intros (Hi1 & Hi2 & Hi3) (b & Hb & He). destruct fuel; cbn [SSTableIterator.next]; rewrite Hb, He; eexists; (split; [done|]);
    unfold iter_ok; cbn; rewrite Hb in *; (split_and!; try done);
    rewrite (drop_S _ _ _ He) in Hi3; by injection Hi3 as ->.
Qed.

Lemma next_spec rest w idx bs it rem fuel : laid c w idx bs -> iter_ok rest w idx bs it rem -> (length idx < fuel)%nat ->
  match rem with
  | [] => exists it', SSTableIterator.next fuel it = (None, it')
  | e :: rem' => exists it', SSTableIterator.next fuel it = (Some (Ok e), it') /\ iter_ok rest w idx bs it' rem'
  end.
Proof using All.
  intros Hl Hok Hf. pose proof Hok as (Hi1 & Hi2 & Hi3). pose proof (laid_ends c _ _ _ Hl) as HF. pose proof (Forall2_length _ _ _ HF) as Hlen.
  destruct (match SSTableIterator.current_block it with Some b => DataBlock.entries b !! SSTableIterator.current_entry_idx it | None => None end) as [e|] eqn:Ecur.
  - destruct (SSTableIterator.current_block it) as [b|] eqn:Eb; [|done]. rewrite (drop_S _ _ _ Ecur) in Hi3. subst rem. cbn.
    eapply next_here; [exact Hok|]. by exists b.
  - assert (Hdrop : match SSTableIterator.current_block it with Some b => drop (SSTableIterator.current_entry_idx it) (DataBlock.entries b) | None => [] end = []).
    { destruct (SSTableIterator.current_block it); [|done]. apply drop_ge. by apply lookup_ge_None. }
    rewrite Hdrop in Hi3. cbn [app] in Hi3. destruct fuel as [|fuel]; [lia|]. cbn [SSTableIterator.next]. rewrite Ecur.
    unfold SSTableIterator.load_next_block. rewrite Hi2.
    destruct (idx !! SSTableIterator.current_block_idx it) as [[k h]|] eqn:Ei.
    + destruct (Forall2_lookup_l _ _ _ _ _ HF Ei) as (b & Hbi & e & He & _).
      rewrite Hi1, (laid_read c w idx bs Hl _ k h b rest Ei Hbi).
      rewrite (drop_S _ _ _ Hbi), all_entries_cons, fmap_app in Hi3.
      destruct (DataBlock.entries b) as [|e0 es0] eqn:Eb; [done|]. rewrite fmap_cons in Hi3. cbn [app] in Hi3. subst rem.
      apply next_here; [|by exists (strip_block b); cbn; rewrite Eb]. unfold iter_ok. cbn. rewrite Eb. done.
    + assert (Hge : (length bs <= SSTableIterator.current_block_idx it)%nat) by (rewrite <- Hlen; by apply lookup_ge_None).
      rewrite (drop_ge bs) in Hi3 by done. cbn in Hi3. subst rem. by eexists.
Qed.

Lemma collect_spec rest w idx bs : laid c w idx bs -> forall rem it fuel, iter_ok rest w idx bs it rem -> (length rem < fuel)%nat ->
  SSTableIterator.collect fuel it = Ok rem.
Proof using All.
  intros Hl rem. induction rem as [|e rem IH]; intros it fuel Hok Hf; (destruct fuel as [|fuel]; [lia|]); cbn [SSTableIterator.collect].
  - destruct (next_spec rest w idx bs it [] (S (length (SSTableIterator.index it))) Hl Hok) as (it' & ->); [|done].
    destruct Hok as (_ & -> & _). lia.
  - destruct (next_spec rest w idx bs it (e :: rem) (S (length (SSTableIterator.index it))) Hl Hok) as (it' & -> & Hok').
    { destruct Hok as (_ & -> & _). lia. }
    rewrite (IH it' fuel Hok') by (cbn in Hf; lia). done.
Qed.

Lemma layout_iter es bytes w idx bs bloom fuel : layout es bytes w idx bs bloom -> (length es < fuel)%nat ->
  (let! it := SSTableIterator.new bytes in SSTableIterator.collect fuel it) = Ok (strip <$> es).
Proof using All.
  intros Hlay Hf. unfold SSTableIterator.new. rewrite (layout_footer _ _ _ _ _ _ Hlay). cbn [rbind].
  rewrite (layout_index _ _ _ _ _ _ _ Hlay) by done. cbn [rbind]. destruct Hlay as [Hb Hl Hall _ _].
  eapply collect_spec; [exact Hl| |by rewrite length_fmap]. unfold iter_ok.
  cbn [SSTableIterator.reader SSTableIterator.index SSTableIterator.current_block SSTableIterator.current_block_idx app]. by rewrite drop_0, Hall.
Qed.
End file.
End FileSpec.

(** ** Properties *)

Section properties.
Context `{!Integrity.Hashes} `{!Integrity.HashLaws} `{!Codecs} `{!CodecLaws}.

Lemma not_lz4_survives c : c <> Lz4 -> forall b, survives c (DataBlock.raw b).
Proof using. by destruct c. Qed.

Lemma foldr_min_le x l : foldr Z.min x l <= x /\ Forall (fun y => foldr Z.min x l <= y) l.
Proof using.
  induction l as [|y l [IH1 IH2]]; cbn; [split; [lia|constructor]|]. split; [lia|]. constructor; [lia|].
  eapply Forall_impl; [exact IH2|]. intros z Hz. cbn in Hz. lia.
Qed.

Lemma foldr_max_ge x l : x <= foldr Z.max x l /\ Forall (fun y => y <= foldr Z.max x l) l.
Proof using.
  induction l as [|y l [IH1 IH2]]; cbn; [split; [lia|constructor]|]. split; [lia|]. constructor; [lia|].
  eapply Forall_impl; [exact IH2|]. intros z Hz. cbn in Hz. lia.
Qed.

(** What a created table answers and what its metadata says. *)
Lemma created_get (es : list Entry.t) file_number level block_size (c : CompressionAlgorithm) now (key : list Z) (alg : IntegrityAlgorithm) bytes meta :
  es <> [] -> sorted_by Entry.key es -> Forall entry_ok es -> zlen es < 2 ^ 32 -> c <> Lz4 ->
  SSTable.create es file_number level block_size c now = Ok (bytes, meta) -> zlen bytes < 2 ^ 64 ->
  SSTable.get bytes key alg = Ok (strip <$> TableSpec.find_key key es).
Proof using All.
  intros Hne Hs Hes Hlen Hc Hcr Hsz.
  destruct (FileSpec.create_layout c es _ _ _ _ _ _ (not_lz4_survives c Hc) Hes Hlen Hcr Hsz) as (w & idx & bs & bloom & Hlay).
  by apply (FileSpec.layout_get c es bytes w idx bs bloom).
Qed.

Lemma created_metadata (es : list Entry.t) fnum lvl block_size (c : CompressionAlgorithm) now bytes meta :
  sorted_by Entry.key es -> SSTable.create es fnum lvl block_size c now = Ok (bytes, meta) ->
  entry_count meta = zlen es /\ file_size meta = zlen bytes /\ file_number meta = fnum /\ level meta = lvl /\
  Forall (fun e => bytes_le (min_key meta) (Entry.key e) /\ bytes_le (Entry.key e) (max_key meta) /\
                   min_sequence meta <= Entry.sequence e <= max_sequence meta) es.
Proof using.
  intros Hs Hcr. unfold SSTable.create in Hcr. destruct es as [|e0 es0]; [done|].
  apply rbind_ok in Hcr as (bloom & _ & Hcr). apply rbind_ok in Hcr as (w & _ & Hcr). cbv zeta in Hcr.
  apply rbind_ok in Hcr as (el & Hel & Hcr). apply Ok_inj, pair_equal_spec in Hcr as [<- <-].
  cbn [entry_count file_size file_number level min_key max_key min_sequence max_sequence]. split_and!; try done.
  assert (Hlast : last (e0 :: es0) = Some el) by (revert Hel; destruct (last _); cbn; congruence).
  apply Forall_forall. intros e He.
  destruct (foldr_min_le (Entry.sequence e0) (Entry.sequence <$> e0 :: es0)) as [_ Hmin].
  destruct (foldr_max_ge (Entry.sequence e0) (Entry.sequence <$> e0 :: es0)) as [_ Hmax].
  rewrite Forall_forall in Hmin, Hmax. assert (Hin : Entry.sequence e ∈ Entry.sequence <$> e0 :: es0) by (apply list_elem_of_fmap; eauto).
  split_and!; [|by apply (TableSpec.last_max Entry.key (e0 :: es0))|by apply Hmin|by apply Hmax].
  apply sorted_by_cons in Hs as [_ Hgt]. apply elem_of_cons in He as [->|He]; [apply bytes_le_refl|].
  apply bytes_lt_le. by apply (all_gt_elem Entry.key _ es0).
Qed.



(** The metadata of a new table bounds its contents: every key lies
    between [min_key] and [max_key], every sequence number between
    [min_sequence] and [max_sequence], and the entry count and file size are
    exact, so skipping a table by its key range never loses an entry. *)
Theorem sstable_metadata (es : list Entry.t) fnum lvl block_size (c : CompressionAlgorithm) now bytes meta :
  sorted_by Entry.key es -> SSTable.create es fnum lvl block_size c now = Ok (bytes, meta) ->
  entry_count meta = zlen es /\ file_size meta = zlen bytes /\ file_number meta = fnum /\ level meta = lvl /\
  Forall (fun e => bytes_le (min_key meta) (Entry.key e) /\ bytes_le (Entry.key e) (max_key meta) /\
                   min_sequence meta <= Entry.sequence e <= max_sequence meta) es.
Proof using. apply created_metadata. Qed.

(** LZ4 blocks that compress better than four to one are written but
    cannot be read: decoding passes no size hint, so the buffer is four times
    the compressed length, and reading fails although nothing is corrupt. *)
Theorem lz4_block_unreadable (b : DataBlock.t) (z : list Z) :
  lz4_compress (DataBlock.raw b) = Some z -> zlen z * 4 < zlen (DataBlock.raw b) -> zlen z * 4 < 2 ^ 31 ->
  exists d, DataBlock.encode b Lz4 = Ok d /\ DataBlock.decode d = Err OtherError.
Proof using All.
  intros Hz Hlt Hmax. unfold DataBlock.encode. cbn [Compression.compress]. rewrite Hz. cbn [ok_or rbind]. eexists. split; [done|].
  unfold DataBlock.decode. rewrite zlen_append_crc. pose proof (zlen_nonneg z). rewrite (proj2 (Z.ltb_ge _ _)) by zlens.
  rewrite check_append_crc. cbn [rbind lookup list_lookup or_panic]. rewrite (proj2 (compression_tag _ Lz4)) by done. cbn [ok_or rbind]. cbv zeta.
  change (drop 1 (Compression.as_u8 Lz4 :: z)) with z. cbn [Compression.decompress]. rewrite (lz4_law _ _ _ Hz).
  unfold zlen in *. cbn [default]. unfold u32. rewrite signed_wrap by lia. by rewrite (proj2 (Z.leb_gt _ _)) by lia.
Qed.
End properties.

(** The bloom filter has no false negatives: whatever keys are added to a
    filter sized for at least one key, none of the operations panics and every
    added key is reported as possibly present. *)
Theorem bloom_no_false_negatives (n : nat) (es : list Entry.t) (key : list Z) : (0 < n)%nat -> key ∈ Entry.key <$> es ->
  exists f, SSTable.build_bloom (BloomFilter.new n 10) es = Ok f /\ BloomFilter.may_contain f key = Ok true.
Proof.
  intros Hn Hk. destruct (BloomSpec.bloom_new_ok n Hn) as (Hne & _). destruct (BloomSpec.build_spec es _ Hne) as (f & Hf & Hne' & _ & _ & Hc).
  exists f. split; [done|]. destruct (BloomSpec.may_contain_spec f key Hne') as (r & -> & Hr). f_equal. apply Hr, Hc. by right.
Qed.

(** Varints round-trip: every 64-bit value is written in one to ten bytes
    and read back with the number of bytes it took, whatever follows. *)
Theorem varint_roundtrip (v : Z) (rest : list Z) : 0 <= v < 2 ^ 64 ->
  read_varint (write_varint v ++ rest) = Ok (v, zlen (write_varint v)) /\ 1 <= zlen (write_varint v) <= 10.
Proof.
  intros Hv. split; [by apply read_write_varint|]. split; [apply varint_pos; lia|]. apply (varint_loop_len 10).
Qed.

(** ** Instances at concrete inputs *)

Module TableWitness.

Import PolyHash.
#[local] Existing Instances poly_hashes poly_laws.

(** A run-length code standing for LZ4. *)
Fixpoint rle (x : list Z) : list Z :=
  match x with
  | [] => []
  | b :: x' =>
      match rle x' with
      | n :: b' :: z => if b =? b' then n + 1 :: b' :: z else 1 :: b :: n :: b' :: z
      | z => 1 :: b :: z
      end
  end.

Fixpoint unrle (z : list Z) : list Z :=
  match z with
  | n :: b :: z' => replicate (Z.to_nat n) b ++ unrle z'
  | _ => []
  end.

Lemma unrle_rle x : unrle (rle x) = x /\ match rle x with n :: _ => 1 <= n | [] => True end.
Proof.
  induction x as [|b x [IH Hn]]; [done|]. cbn [rle]. destruct (rle x) as [|n [|b' z]] eqn:E; cbn in IH |- *.
  - rewrite <- IH. done.
  - rewrite <- IH. done.
  - destruct (Z.eqb_spec b b') as [->|]; cbn; rewrite <- IH; split; try lia; [|done].
    replace (Z.to_nat (n + 1)) with (S (Z.to_nat n)) by lia. done.
Qed.

(** Identity codecs for Zstd and Snappy, run lengths with an output limit for LZ4. *)
#[local] Instance toy_codecs : Codecs := {|
  lz4_compress x := Some (rle x);
  lz4_decompress z n := if zlen (unrle z) <=? n then Some (unrle z) else None;
  zstd_encode_all := Some; zstd_decode_all := Some; snappy_compress := Some; snappy_decompress := Some
|}.

#[local] Instance toy_codec_laws : CodecLaws.
Proof. split; cbn; [|congruence..]. intros x z n [= <-]. by rewrite (proj1 (unrle_rle x)). Qed.

Definition es : list Entry.t :=
  [Entry.with_commit_ts [1; 2] (Some [5; 6]) 3 8; Entry.new [1; 2; 3] None 4;
   Entry.with_blob_and_commit_ts [1; 4] (Blob_ 1 2 3) 300 8; Entry.new [7] (Some []) 200000].

Definition table : list Z * SSTableMetadata :=
  match SSTable.create es 1 0 40 Zstd 0 with Ok out => out | _ => ([], Metadata 0 0 [] [] 0 0 0 0 0) end.

Lemma es_sorted : sorted_by Entry.key es.
Proof. unfold sorted_by. repeat (constructor; [|repeat (constructor; [by vm_compute|]); constructor]). constructor. Qed.

Lemma es_ok : Forall entry_ok es.
Proof. apply (bool_decide_unpack _). by vm_compute. Qed.



Lemma sstable_metadata_witness : entry_count table.2 = 4 /\ file_size table.2 = zlen table.1 /\
  file_number table.2 = 1 /\ level table.2 = 0%nat /\
  Forall (fun e => bytes_le (min_key table.2) (Entry.key e) /\ bytes_le (Entry.key e) (max_key table.2) /\
                   min_sequence table.2 <= Entry.sequence e <= max_sequence table.2) es.
Proof. apply (sstable_metadata es 1 0 40 Zstd 0 table.1 table.2 es_sorted). by vm_compute. Defined.

(** A block with one value of a hundred zero bytes. *)
Definition zeros : DataBlock.t := DataBlock.add_entry DataBlock.new (Entry.new [1] (Some (replicate 100 0)) 1).

Lemma lz4_block_unreadable_witness : exists d, DataBlock.encode zeros Lz4 = Ok d /\ DataBlock.decode d = Err OtherError.
Proof. apply (lz4_block_unreadable zeros (rle (DataBlock.raw zeros))); by vm_compute. Defined.

Lemma bloom_no_false_negatives_witness :
  exists f, SSTable.build_bloom (BloomFilter.new 2 10) es = Ok f /\ BloomFilter.may_contain f [1; 2; 3] = Ok true.
Proof. apply (bloom_no_false_negatives 2 es [1; 2; 3]); [lia|]. apply (bool_decide_unpack _). by vm_compute. Defined.

Lemma varint_roundtrip_witness : read_varint (write_varint 300 ++ [9]) = Ok (300, zlen (write_varint 300)) /\ 1 <= zlen (write_varint 300) <= 10.
Proof. apply (varint_roundtrip 300 [9]). lia. Defined.

End TableWitness.
