(* ===== verification/KvtRange.v ===== *)
(** * Key ranges

    Models [KeyRange] of nanograph-core/src/object/shard.rs, the range a scan
    of any store takes, the test of a key against it, and the range
    [scan_prefix] of nanograph-kvt/src/kvstore.rs builds. *)

From Stdlib Require Import ZArith Lia.
From stdpp Require Import sorting gmap option base list.
From S2P Require Import Prelude.

Open Scope Z_scope.

Module KeyRange.

(** [std::ops::Bound]. *)
Inductive Bound : Type :=
| Included (k : list Z)
| Excluded (k : list Z)
| Unbounded.

Record t : Type := mk { start : Bound; end_ : Bound; limit : option nat; reverse : bool }.

Definition all : t := mk Unbounded Unbounded None false.
Definition new (s e : Bound) : t := mk s e None false.
Definition from_to (s e : list Z) : t := mk (Included s) (Excluded e) None false.

(** The exclusive end of a prefix: [last_mut], incremented when it is below 255. *)
Definition prefix_end (p : list Z) : list Z :=
  match last p with
  | None => p
  | Some b => if b <? 255 then removelast p ++ [b + 1] else p ++ [0]
  end.

Definition prefix (p : list Z) : t := mk (Included p) (Excluded (prefix_end p)) None false.
Definition scan_prefix (p : list Z) (l : option nat) : t := mk (Included p) (Excluded (prefix_end p)) l false.
Definition with_limit (r : t) (l : nat) : t := mk (start r) (end_ r) (Some l) (reverse r).
Definition reversed (r : t) : t := mk (start r) (end_ r) (limit r) true.

Definition after_start (key : list Z) (b : Bound) : bool :=
  match b with
  | Included s => bool_decide (bytes_le s key)
  | Excluded s => bool_decide (bytes_lt s key)
  | Unbounded => true
  end.

Definition before_end (key : list Z) (b : Bound) : bool :=
  match b with
  | Included e => bool_decide (bytes_le key e)
  | Excluded e => bool_decide (bytes_lt key e)
  | Unbounded => true
  end.

Definition key_in_range (key : list Z) (r : t) : bool := after_start key (start r) && before_end key (end_ r).

(** Whether [BTreeMap::range] accepts the bounds: it panics on a start past the
    end, and on equal bounds that are both excluded. *)
Definition valid_bounds (s e : Bound) : bool :=
  match s, e with
  | Unbounded, _ | _, Unbounded => true
  | Excluded a, Excluded b => bool_decide (bytes_lt a b)
  | Included a, Included b | Included a, Excluded b | Excluded a, Included b => bool_decide (bytes_le a b)
  end.

End KeyRange.

(** ** Prefixes *)

Lemma bytes_cmp_app p a b : bytes_cmp (p ++ a) (p ++ b) = bytes_cmp a b.
Proof. induction p as [|x p IH]; [done|]. cbn. by rewrite Z.compare_refl. Qed.

(** A key between a prefix and its incremented last byte has the prefix. *)
Lemma bytes_between p b k : bytes_le (p ++ [b]) k -> bytes_lt k (p ++ [b + 1]) -> exists r, k = p ++ b :: r.
Proof.
  revert k. induction p as [|x p IH]; intros k; unfold bytes_le, bytes_lt in *; destruct k as [|y k]; cbn; try done.
  - destruct (Z.compare_spec b y) as [->|Hlt|Hgt]; try done; [by eexists|]. destruct (Z.compare_spec y (b + 1)); try done; [|lia]. by destruct k.
  - destruct (Z.compare_spec x y) as [->|Hlt|Hgt]; try done.
    + rewrite Z.compare_refl. intros H1 H2. destruct (IH k H1 H2) as [r ->]. by exists r.
    + destruct (Z.compare_spec y x); try done; lia.
Qed.

Lemma bytes_successor p k : byte_list k -> bytes_le p k -> bytes_lt k (p ++ [0]) -> k = p.
Proof.
  intros Hk. revert k Hk. induction p as [|x p IH]; intros k Hk; unfold bytes_le, bytes_lt in *; destruct k as [|y k]; cbn; try done.
  - apply Forall_cons_1 in Hk as [Hy _]. destruct (Z.compare_spec y 0); try done; [by destruct k|lia].
  - apply Forall_cons_1 in Hk as [_ Hk]. destruct (Z.compare_spec x y) as [->|Hlt|Hgt]; try done.
    + rewrite Z.compare_refl. intros H1 H2. by rewrite (IH k Hk H1 H2).
    + destruct (Z.compare_spec y x); try done; lia.
Qed.


