(* ===== verification/KvtMemory.v ===== *)
(** * The in-memory store

    Models nanograph-kvt/src/memory.rs: the reference implementation of the
    store trait, its iterator and its transactions.

    A [BTreeMap] is a finite map; what is visited in order is its bindings
    sorted by key.  A transaction shares the map of shards with its store, so
    its operations take and return it.  The locks guard whole operations and
    are never poisoned: nothing panics under a write guard.  The order in which
    a [HashMap] is visited is a parameter. *)

From Stdlib Require Import ZArith Lia.
From stdpp Require Import sorting gmap option base list.
From S2P Require Import Prelude BTreeError KvtRange.

Open Scope Z_scope.

Abbreviation kv_result := (result KeyValueError).
Abbreviation ShardData := (gmap (list Z) (list Z)).
Abbreviation Shards := (gmap Z ShardData).

(** ** Ordered maps *)

Definition binding_le (a b : list Z * list Z) : Prop := bytes_le a.1 b.1.

#[global] Instance binding_le_dec : RelDecision binding_le.
Proof. intros a b. unfold binding_le. apply _. Defined.

(** The bindings in the order [iter] visits them. *)
Definition ordered (m : ShardData) : list (list Z * list Z) := merge_sort binding_le (map_to_list m).

(** [range], which panics on bad bounds. *)
Definition range (m : ShardData) (s e : KeyRange.Bound) : option (list (list Z * list Z)) :=
  if KeyRange.valid_bounds s e
  then Some (filter (fun b => KeyRange.after_start b.1 s = true /\ KeyRange.before_end b.1 e = true) (ordered m))
  else None.

Definition take_limit {A} (l : option nat) (xs : list A) : list A := match l with Some n => take n xs | None => xs end.

Module MemoryKeyValueIterator.

Record t : Type := mk { items : list (list Z * list Z); index : nat }.

Definition new (l : list (list Z * list Z)) : t := mk l 0.

Definition poll_next (it : t) : option (list Z * list Z) * t :=
  match items it !! index it with
  | Some x => (Some x, mk (items it) (S (index it)))
  | None => (None, it)
  end.

Definition seek (it : t) (key : list Z) : t :=
  mk (items it) (match list_find (fun b => bytes_le key b.1) (items it) with Some (pos, _) => pos | None => length (items it) end).

Definition position (it : t) : option (list Z) := fst <$> items it !! index it.
Definition valid (it : t) : bool := (index it <? length (items it))%nat.

End MemoryKeyValueIterator.

(** The items of a scan of one map. *)
Definition scan_items (m : ShardData) (r : KeyRange.t) : kv_result MemoryKeyValueIterator.t :=
  let! bs := or_panic (range m (KeyRange.start r) (KeyRange.end_ r)) in
  Ok (MemoryKeyValueIterator.new (take_limit (KeyRange.limit r) (if KeyRange.reverse r then rev bs else bs))).

(** ** The store *)

Record ShardStats : Type := StatsMk { key_count_ : Z; total_bytes : Z; data_bytes : Z; index_bytes : Z }.

Module MemoryKeyValueShardStore.

Record t : Type := mk { shards : Shards }.

Definition new : t := mk ∅.

Definition get_shard (s : t) (shard : Z) : kv_result ShardData := ok_or (shards s !! shard) KvShardNotFound.

(** Replace the contents of a shard under its write guard. *)
Definition on_shard {A} (s : t) (shard : Z) (f : ShardData -> A * ShardData) : kv_result A * t :=
  match get_shard s shard with
  | Ok data => let '(a, data) := f data in (Ok a, mk (<[shard := data]> (shards s)))
  | Err x => (Err x, s)
  | Panic => (Panic, s)
  | Timeout => (Timeout, s)
  end.

Definition get (s : t) (shard : Z) (key : list Z) : kv_result (option (list Z)) :=
  let! data := get_shard s shard in Ok (data !! key).

Definition put (s : t) (shard : Z) (key value : list Z) : kv_result unit * t :=
  on_shard s shard (fun data => (tt, <[key := value]> data)).

Definition delete (s : t) (shard : Z) (key : list Z) : kv_result bool * t :=
  on_shard s shard (fun data => (bool_decide (is_Some (data !! key)), base.delete key data)).

Definition exists_ (s : t) (shard : Z) (key : list Z) : kv_result bool :=
  let! data := get_shard s shard in Ok (bool_decide (is_Some (data !! key))).

Definition batch_get (s : t) (shard : Z) (keys : list (list Z)) : kv_result (list (option (list Z))) :=
  let! data := get_shard s shard in Ok (map (fun key => data !! key) keys).

Definition batch_put (s : t) (shard : Z) (pairs : list (list Z * list Z)) : kv_result unit * t :=
  on_shard s shard (fun data => (tt, foldl (fun d p => <[p.1 := p.2]> d) data pairs)).

(** The loop counts the keys it finds. *)
Fixpoint remove_all (keys : list (list Z)) (count : Z) (data : ShardData) : Z * ShardData :=
  match keys with
  | [] => (count, data)
  | key :: keys' => remove_all keys' (match data !! key with Some _ => count + 1 | None => count end) (base.delete key data)
  end.

Definition batch_delete (s : t) (shard : Z) (keys : list (list Z)) : kv_result Z * t := on_shard s shard (remove_all keys 0).

Definition scan (s : t) (shard : Z) (r : KeyRange.t) : kv_result MemoryKeyValueIterator.t :=
  let! data := get_shard s shard in scan_items data r.

Definition key_count (s : t) (shard : Z) : kv_result Z := let! data := get_shard s shard in Ok (Z.of_nat (size data)).

Definition shard_stats (s : t) (shard : Z) : kv_result ShardStats :=
  let! data := get_shard s shard in
  let bytes := foldr (fun b n => Z.of_nat (length b.1 + length b.2) + n) 0 (ordered data) in
  Ok (StatsMk (Z.of_nat (size data)) bytes bytes 0).

Definition create_shard (s : t) (shard : Z) : kv_result unit * t :=
  (Ok tt, match shards s !! shard with Some _ => s | None => mk (<[shard := ∅]> (shards s)) end).

Definition drop_shard (s : t) (shard : Z) : kv_result unit * t := (Ok tt, mk (base.delete shard (shards s))).
Definition clear (s : t) (shard : Z) : kv_result unit * t := on_shard s shard (fun _ => (tt, ∅)).
Definition shard_exists (s : t) (shard : Z) : kv_result bool := Ok (bool_decide (is_Some (shards s !! shard))).
Definition flush (s : t) : kv_result unit * t := (Ok tt, s).
Definition compact (s : t) (_ : option Z) : kv_result unit * t := (Ok tt, s).

Section hash_order.
Context (hash_keys : Shards -> list Z).
Definition list_shards (s : t) : kv_result (list Z) := Ok (hash_keys (shards s)).
End hash_order.

End MemoryKeyValueShardStore.
Abbreviation Store := MemoryKeyValueShardStore.t.

(** ** Transactions *)

Module MemoryTransaction.

Abbreviation Pending := (gmap (list Z) (option (list Z))).

(** [id] is random, [ts] the wall clock. *)
Record t : Type := mk { pending_writes : gmap Z Pending; id : Z; ts : Z }.

Definition new (random now : Z) : t := mk ∅ random now.
Definition set_pending (tx : t) (p : gmap Z Pending) : t := mk p (id tx) (ts tx).

Definition get (tx : t) (s : Store) (shard : Z) (key : list Z) : kv_result (option (list Z)) :=
  match (p ← pending_writes tx !! shard; p !! key) with
  | Some v => Ok v
  | None =>
      match MemoryKeyValueShardStore.shards s !! shard with
      | Some data => Ok (data !! key)
      | None => Err KvShardNotFound
      end
  end.

(** [entry(shard).or_default().insert(..)]. *)
Definition schedule (tx : t) (shard : Z) (key : list Z) (v : option (list Z)) : t :=
  set_pending tx (<[shard := <[key := v]> (default ∅ (pending_writes tx !! shard))]> (pending_writes tx)).

Definition put (tx : t) (shard : Z) (key value : list Z) : kv_result unit * t := (Ok tt, schedule tx shard key (Some value)).
Definition delete (tx : t) (shard : Z) (key : list Z) : kv_result bool * t := (Ok true, schedule tx shard key None).
Definition rollback (tx : t) : kv_result unit * t := (Ok tt, set_pending tx ∅).

Definition apply_write (data : ShardData) (w : list Z * option (list Z)) : ShardData :=
  match w.2 with Some v => <[w.1 := v]> data | None => base.delete w.1 data end.

Section hash_order.
Context (hash_shards : gmap Z Pending -> list (Z * Pending)) (hash_writes : Pending -> list (list Z * option (list Z))).

Definition apply_writes (data : ShardData) (p : Pending) : ShardData := foldl apply_write data (hash_writes p).

Definition scan (tx : t) (s : Store) (shard : Z) (r : KeyRange.t) : kv_result MemoryKeyValueIterator.t :=
  let! data := ok_or (MemoryKeyValueShardStore.shards s !! shard) KvShardNotFound in
  let merged_data := match pending_writes tx !! shard with Some p => apply_writes data p | None => data end in
  scan_items merged_data r.

(** The loop over shards stops at one that does not exist. *)
Fixpoint apply_shards (ps : list (Z * Pending)) (s : Store) : kv_result unit * Store :=
  match ps with
  | [] => (Ok tt, s)
  | (shard, p) :: ps' =>
      match MemoryKeyValueShardStore.shards s !! shard with
      | None => (Err KvShardNotFound, s)
      | Some data =>
          apply_shards ps' (MemoryKeyValueShardStore.mk (<[shard := apply_writes data p]> (MemoryKeyValueShardStore.shards s)))
      end
  end.

Definition commit (tx : t) (s : Store) : kv_result unit * Store := apply_shards (hash_shards (pending_writes tx)) s.
End hash_order.

End MemoryTransaction.

(** ** Scans *)

#[local] Instance binding_le_total : Total binding_le.
Proof. intros a b. unfold binding_le. destruct (bytes_trichotomy a.1 b.1) as [H|[H|H]]; [left|left|right]; rewrite ?H; auto using bytes_lt_le, bytes_le_refl. Qed.
#[local] Instance binding_le_trans : Transitive binding_le.
Proof.
  unfold binding_le. intros a b c H1 H2. apply bytes_le_lt_eq in H1 as [H1| ->]; [|done]. apply bytes_lt_le. by eapply bytes_lt_le_trans.
Qed.

Lemma ordered_elem m k v : (k, v) ∈ ordered m <-> m !! k = Some v.
Proof. unfold ordered. by rewrite merge_sort_Permutation, elem_of_map_to_list. Qed.

Lemma sorted_bindings l : StronglySorted binding_le l -> NoDup l.*1 -> sorted_by fst l.
Proof.
  induction 1 as [|a l Hs IH Ha]; intros Hn; [constructor|]. cbn in Hn. apply NoDup_cons in Hn as [Hna Hn].
  apply sorted_by_cons. split; [by apply IH|]. apply Forall_forall. intros x Hx. rewrite Forall_forall in Ha.
  destruct (proj1 (bytes_le_lt_eq _ _) (Ha x Hx)) as [Hlt|Heq]; [done|]. destruct Hna. rewrite Heq. apply list_elem_of_fmap. by exists x.
Qed.

Lemma ordered_sorted m : sorted_by fst (ordered m).
Proof.
  apply sorted_bindings.
  - apply Sorted_StronglySorted; [apply _|]. apply Sorted_merge_sort. apply _.
  - unfold ordered. rewrite merge_sort_Permutation. apply NoDup_fst_map_to_list.
Qed.

Lemma scan_items_spec m r : KeyRange.valid_bounds (KeyRange.start r) (KeyRange.end_ r) = true ->
  exists es, scan_items m r = Ok (MemoryKeyValueIterator.new (take_limit (KeyRange.limit r) (if KeyRange.reverse r then rev es else es))) /\
    sorted_by fst es /\ forall k v, (k, v) ∈ es <-> m !! k = Some v /\ KeyRange.key_in_range k r = true.
Proof.
  intros Hv. unfold scan_items, range. rewrite Hv. eexists. split; [reflexivity|]. split; [apply sorted_by_filter, ordered_sorted|].
  intros k v. rewrite list_elem_of_filter, ordered_elem. cbn [fst]. unfold KeyRange.key_in_range. rewrite andb_true_iff. tauto.
Qed.

(** ** Transactions *)

Section transactions.
Import MemoryTransaction.
Context (hash_shards : gmap Z Pending -> list (Z * Pending)) (hash_writes : Pending -> list (list Z * option (list Z))).
Hypothesis hash_shards_law : forall p, hash_shards p ≡ₚ map_to_list p.
Hypothesis hash_writes_law : forall p, hash_writes p ≡ₚ map_to_list p.
Implicit Types (tx : t) (s : Store).

Lemma foldl_writes l data k : NoDup l.*1 ->
  foldl apply_write data l !! k = match (list_to_map l : Pending) !! k with Some v => v | None => data !! k end.
Proof.
  revert data. induction l as [|[k0 v0] l IH]; intros data Hn; [done|]. cbn in Hn. apply NoDup_cons in Hn as [Hk0 Hn]. cbn [foldl list_to_map foldr].
  rewrite IH by done. destruct (decide (k = k0)) as [->|Hne].
  - rewrite not_elem_of_list_to_map_1 by done. rewrite lookup_insert_eq. unfold apply_write. cbn. destruct v0; [apply lookup_insert_eq|apply lookup_delete_eq].
  - rewrite lookup_insert_ne by done. destruct (_ !! k); [done|]. unfold apply_write. cbn. destruct v0; [by apply lookup_insert_ne|by apply lookup_delete_ne].
Qed.

Lemma apply_writes_lookup data p k : apply_writes hash_writes data p !! k = match p !! k with Some v => v | None => data !! k end.
Proof. unfold apply_writes. destruct (map_visits p _ (hash_writes_law p)) as [Hn Hl]. by rewrite foldl_writes, Hl. Qed.

Lemma apply_shards_spec ps : forall s, NoDup ps.*1 -> Forall (fun q => is_Some (MemoryKeyValueShardStore.shards s !! q.1)) ps ->
  exists s', apply_shards hash_writes ps s = (Ok tt, s') /\ forall shard, MemoryKeyValueShardStore.shards s' !! shard =
    match (list_to_map ps : gmap Z Pending) !! shard with
    | Some p => (fun d => apply_writes hash_writes d p) <$> MemoryKeyValueShardStore.shards s !! shard
    | None => MemoryKeyValueShardStore.shards s !! shard
    end.
Proof.
  induction ps as [|[sh p] ps IH]; intros s Hn Hs; [by exists s|]. cbn in Hn. apply NoDup_cons in Hn as [Hsh Hn]. apply Forall_cons in Hs as [[d Hd] Hs].
  cbn [apply_shards fst] in *. rewrite Hd. destruct (IH (MemoryKeyValueShardStore.mk (<[sh := apply_writes hash_writes d p]> (MemoryKeyValueShardStore.shards s)))) as (s' & -> & Hs'); [done| |].
  { eapply Forall_impl; [exact Hs|]. intros q Hq. cbn. destruct (decide (sh = q.1)) as [->|]; [by rewrite lookup_insert_eq|by rewrite lookup_insert_ne]. }
  exists s'. split; [done|]. intros shard. rewrite Hs'. cbn [list_to_map foldr fst snd MemoryKeyValueShardStore.shards]. destruct (decide (shard = sh)) as [->|].
  - rewrite not_elem_of_list_to_map_1 by done. by rewrite !lookup_insert_eq, Hd.
  - by rewrite !lookup_insert_ne.
Qed.

Lemma apply_shards_missing ps : forall s, (exists q, q ∈ ps /\ MemoryKeyValueShardStore.shards s !! q.1 = None) ->
  (apply_shards hash_writes ps s).1 = Err KvShardNotFound.
Proof.
  induction ps as [|[sh p] ps IH]; intros s (q & Hq & Hn); [by apply not_elem_of_nil in Hq|]. cbn [apply_shards].
  destruct (MemoryKeyValueShardStore.shards s !! sh) eqn:Hd; [|done]. apply IH. exists q. apply elem_of_cons in Hq as [->|Hq]; [cbn in Hn; congruence|].
  split; [done|]. cbn. rewrite lookup_insert_ne; [done|]. intros Heq. rewrite <- Heq in Hn. congruence.
Qed.

(** C25. A scan inside a transaction of the in-memory store lists, in key order
    or reversed and cut at the limit, exactly the pairs in range that [get]
    returns inside the same transaction, pending writes included, whatever
    order the pending writes are visited in. *)
Theorem memory_txn_scan tx s shard r : KeyRange.valid_bounds (KeyRange.start r) (KeyRange.end_ r) = true ->
  is_Some (MemoryKeyValueShardStore.shards s !! shard) ->
  exists es, scan hash_writes tx s shard r =
      Ok (MemoryKeyValueIterator.new (take_limit (KeyRange.limit r) (if KeyRange.reverse r then rev es else es))) /\
    sorted_by fst es /\ forall k v, (k, v) ∈ es <-> get tx s shard k = Ok (Some v) /\ KeyRange.key_in_range k r = true.
Proof using hash_writes_law.
  intros Hv [data Hd]. unfold scan. rewrite Hd. cbn [ok_or rbind].
  destruct (scan_items_spec (match pending_writes tx !! shard with Some p => apply_writes hash_writes data p | None => data end) r Hv) as (es & -> & Hs & Hes).
  exists es. split; [done|]. split; [done|]. intros k v. rewrite Hes. unfold get. rewrite Hd.
  destruct (pending_writes tx !! shard) as [p|]; cbn [mbind option_bind]; [rewrite apply_writes_lookup; destruct (p !! k)|]; (split; intros [H1 H2]; split; congruence).
Qed.

(** Committing a transaction of the in-memory store: when every shard it
    wrote to exists, the commit succeeds and from then on the store returns for
    every key of every shard what the transaction returned; otherwise it
    reports a missing shard. *)
Theorem memory_txn_commit tx s :
  ((forall shard, is_Some (pending_writes tx !! shard) -> is_Some (MemoryKeyValueShardStore.shards s !! shard)) ->
   exists s', commit hash_shards hash_writes tx s = (Ok tt, s') /\
     forall shard k, MemoryKeyValueShardStore.get s' shard k = get tx s shard k) /\
  (forall shard, is_Some (pending_writes tx !! shard) -> MemoryKeyValueShardStore.shards s !! shard = None ->
   (commit hash_shards hash_writes tx s).1 = Err KvShardNotFound).
Proof using hash_shards_law hash_writes_law.
  unfold commit. destruct (map_visits _ _ (hash_shards_law (pending_writes tx))) as [Hn Hl]. split.
  - intros Hall. destruct (apply_shards_spec (hash_shards (pending_writes tx)) s Hn) as (s' & -> & Hs').
    { apply Forall_forall. intros [sh p] Hq. rewrite hash_shards_law in Hq. apply elem_of_map_to_list in Hq. cbn. apply Hall. by exists p. }
    exists s'. split; [done|]. intros shard k. unfold MemoryKeyValueShardStore.get, MemoryKeyValueShardStore.get_shard, get. rewrite Hs', Hl.
    destruct (pending_writes tx !! shard) as [p|] eqn:Ep; cbn [mbind option_bind].
    + destruct (Hall shard) as [d Hd]; [by exists p|]. rewrite Hd. cbn [fmap option_fmap option_map ok_or rbind]. rewrite apply_writes_lookup. by destruct (p !! k).
    + by destruct (MemoryKeyValueShardStore.shards s !! shard).
  - intros shard [p Hp] Hd. apply apply_shards_missing. exists (shard, p). split; [|done]. rewrite hash_shards_law. by apply elem_of_map_to_list.
Qed.
End transactions.

(** ** Concrete transactions *)

Module MemoryDemo.

Definition shards : Store := MemoryKeyValueShardStore.mk {[ 1 := {[ [1] := [10]; [2] := [20]; [3] := [30] ]} ]}.

(** A deletion, an update and an insertion in shard 1. *)
Definition tx : MemoryTransaction.t :=
  let tx := (MemoryTransaction.delete (MemoryTransaction.new 77 1000) 1 [2]).2 in
  let tx := (MemoryTransaction.put tx 1 [3] [31]).2 in
  (MemoryTransaction.put tx 1 [4] [40]).2.

Definition descending : KeyRange.t := KeyRange.reversed (KeyRange.with_limit (KeyRange.from_to [1] [9]) 2).

Lemma memory_txn_scan_witness :
  exists es, MemoryTransaction.scan map_to_list tx shards 1 descending =
      Ok (MemoryKeyValueIterator.new (take_limit (Some 2%nat) (rev es))) /\
    sorted_by fst es /\ forall k v, (k, v) ∈ es <-> MemoryTransaction.get tx shards 1 k = Ok (Some v) /\ KeyRange.key_in_range k descending = true.
Proof. apply (memory_txn_scan map_to_list (fun p => reflexivity _) tx shards 1 descending); [reflexivity|]. by eexists. Defined.

Lemma scan_result : MemoryTransaction.scan map_to_list tx shards 1 descending = Ok (MemoryKeyValueIterator.new [([4], [40]); ([3], [31])]).
Proof. vm_compute. reflexivity. Qed.

Lemma memory_txn_commit_witness :
  exists s', MemoryTransaction.commit map_to_list map_to_list tx shards = (Ok tt, s') /\ MemoryKeyValueShardStore.get s' 1 [3] = Ok (Some [31]).
Proof.
  destruct (memory_txn_commit map_to_list map_to_list (fun p => reflexivity _) (fun p => reflexivity _) tx shards) as [H _].
  destruct H as (s' & Hc & Hg).
  - intros shard [p Hp]. unfold tx in Hp. cbn in Hp. apply lookup_insert_Some in Hp as [[<- _]|[Hne Hp]]; [by eexists|].
    apply lookup_insert_Some in Hp as [[<- _]|[_ Hp]]; [by eexists|]. apply lookup_insert_Some in Hp as [[<- _]|[_ Hp]]; [by eexists|done].
  - exists s'. split; [exact Hc|]. exact (Hg 1 [3]).
Defined.

(** A commit that fails leaves the writes of the shards visited before. *)
Definition torn : MemoryTransaction.t := (MemoryTransaction.put tx 5 [1] [1]).2.
Definition visits (p : gmap Z MemoryTransaction.Pending) : list (Z * MemoryTransaction.Pending) := omap (fun k => pair k <$> p !! k) [1; 5].

Lemma commit_not_atomic :
  let '(r, s') := MemoryTransaction.commit visits map_to_list torn shards in
  visits (MemoryTransaction.pending_writes torn) ≡ₚ map_to_list (MemoryTransaction.pending_writes torn) /\
  r = Err KvShardNotFound /\ MemoryKeyValueShardStore.get s' 1 [2] = Ok None /\ MemoryKeyValueShardStore.get shards 1 [2] = Ok (Some [20]).
Proof. vm_compute. split_and!; first [reflexivity | apply Permutation_swap]. Qed.
End MemoryDemo.
