(* ===== verification/LsmBlob.v ===== *)
(** * Blob log

    Models nanograph-lsm/src/bloblog.rs: the record codec, the log that hands
    out references to values stored in blob files, and its accounting of live
    data.  A blob file is a stream with a position, as [std::io::Cursor] is.
    The ratio tests that choose files to collect compare [f64]s and are left
    out; they change no state. *)

From Stdlib Require Import ZArith Lia.
From stdpp Require Import gmap option strings base list.
From S2P Require Import Prelude VfsFile Integrity LsmMemtable LsmSSTable LsmSSTableSpec.

Open Scope Z_scope.

Definition BLOB_MAGIC : Z := 0x424C4F42.
Definition BLOB_RECORD_HEADER_SIZE : Z := 12.
Definition BLOB_RECORD_FOOTER_SIZE : Z := 4.

(** A seekable stream over a buffer. *)
Record stream : Type := Stream { stream_position : Z; stream_bytes : list Z }.

Definition seek (s : stream) (pos : Z) : stream := Stream pos (stream_bytes s).

(** [write_all] at the position; a hole is filled with zeros. *)
Definition write_all (s : stream) (buf : list Z) : stream :=
  Stream (stream_position s + zlen buf) (overwrite (Z.to_nat (stream_position s)) buf (stream_bytes s)).

Definition read_exact (s : stream) (n : Z) : io_result (list Z) := read_exact_at (stream_bytes s) (stream_position s) n.

Module BlobRecord.
Section codec.
Context `{!Integrity.Hashes}.

Record t : Type := mk { key : list Z; value : list Z }.

Definition new (k v : list Z) : t := mk k v.

Definition encoded_size (r : t) : Z :=
  BLOB_RECORD_HEADER_SIZE + zlen (key r) + zlen (value r) + BLOB_RECORD_FOOTER_SIZE.

Definition encode (r : t) : list Z :=
  append_crc (le_bytes 4 BLOB_MAGIC ++ le_bytes 4 (u32 (zlen (key r))) ++ le_bytes 4 (u32 (zlen (value r))) ++ key r ++ value r).

Definition decode (data : list Z) : io_result t :=
  if zlen data <? BLOB_RECORD_HEADER_SIZE + BLOB_RECORD_FOOTER_SIZE then Err (InvalidData "Blob record too short")
  else
    let at_ := (length data - 4)%nat in
    let record_data := take at_ data in
    let stored_crc := le_value (drop at_ data) in
    let! _ :=
      (match Integrity.hash Crc32c record_data with
       | Hash32 calculated_crc =>
           if calculated_crc =? stored_crc then Ok tt else Err (InvalidData "Blob record CRC32 mismatch")
       | NoHash => Ok tt
       end) in
    let! magic := uint_at 4 record_data 0 in
    if negb (magic =? BLOB_MAGIC) then Err (InvalidData "Invalid blob magic")
    else
      let! key_len := uint_at 4 record_data 4 in
      let! value_len := uint_at 4 record_data 8 in
      if negb (zlen record_data =? BLOB_RECORD_HEADER_SIZE + key_len + value_len) then Err (InvalidData "Blob record length mismatch")
      else
        let! key := or_panic (zslice BLOB_RECORD_HEADER_SIZE (BLOB_RECORD_HEADER_SIZE + key_len) record_data) in
        let! value := or_panic (zslice (BLOB_RECORD_HEADER_SIZE + key_len) (zlen record_data) record_data) in
        Ok (mk key value).
End codec.
End BlobRecord.

Record BlobFileMetadata : Type := BlobFile {
  meta_file_id : Z;
  meta_file_size : Z;
  blob_count : Z;
  live_blob_count : Z;
  live_data_size : Z;
  meta_created_at : Z
}.

Definition saturating_sub (a b : Z) : Z := Z.max 0 (a - b).

Module BlobLog.

Record t : Type := mk { next_file_id : Z; file_metadata : gmap Z BlobFileMetadata; live_refs : gset (Z * Z) }.

Definition new : t := mk 0 ∅ ∅.

Definition allocate_file_id (l : t) : Z * t :=
  (next_file_id l, mk (u64 (next_file_id l + 1)) (file_metadata l) (live_refs l)).

Section ops.
Context `{!Integrity.Hashes}.

(** [now] is the clock in seconds. *)
Definition write_blob (l : t) (writer : stream) (now fid : Z) (key value : list Z) : io_result BlobRef * stream * t :=
  let encoded := BlobRecord.encode (BlobRecord.new key value) in
  let offset := stream_position writer in
  let writer := write_all writer encoded in
  let m := default (BlobFile fid 0 0 0 0 now) (file_metadata l !! fid) in
  let m := BlobFile (meta_file_id m) (u64 (meta_file_size m + zlen encoded)) (u64 (blob_count m + 1))
             (u64 (live_blob_count m + 1)) (u64 (live_data_size m + zlen encoded)) (meta_created_at m) in
  (Ok (Blob_ fid offset (u32 (zlen encoded))), writer,
   mk (next_file_id l) (<[fid := m]> (file_metadata l)) ({[(fid, offset)]} ∪ live_refs l)).

Definition read_blob (reader : stream) (r : BlobRef) : io_result (list Z) :=
  let! buf := read_exact (seek reader (blob_offset r)) (blob_length r) in
  let! record := BlobRecord.decode buf in
  Ok (BlobRecord.value record).
End ops.

(** The counters are reduced whether or not the reference was live. *)
Definition mark_dead (l : t) (r : BlobRef) : t :=
  mk (next_file_id l)
     (alter (fun m => BlobFile (meta_file_id m) (meta_file_size m) (blob_count m) (saturating_sub (live_blob_count m) 1)
                        (saturating_sub (live_data_size m) (blob_length r)) (meta_created_at m)) (file_id r) (file_metadata l))
     (live_refs l ∖ {[(file_id r, blob_offset r)]}).

Definition get_file_metadata (l : t) (fid : Z) : option BlobFileMetadata := file_metadata l !! fid.

Definition remove_file (l : t) (fid : Z) : t :=
  mk (next_file_id l) (delete fid (file_metadata l)) (filter (fun p => p.1 <> fid) (live_refs l)).

Definition file_count (l : t) : nat := base.size (file_metadata l).
Definition total_size (l : t) : Z := map_fold (fun _ m acc => u64 (meta_file_size m + acc)) 0 (file_metadata l).
Definition total_live_data_size (l : t) : Z := map_fold (fun _ m acc => u64 (live_data_size m + acc)) 0 (file_metadata l).

End BlobLog.

(** ** The codec *)

Section codec.
Context `{!Integrity.Hashes} `{!Integrity.HashLaws}.

Lemma append_crc_zlen b : zlen (append_crc b) = zlen b + 4.
Proof. unfold append_crc. cbn [Integrity.hash]. zlens. Qed.

Lemma encode_zlen r : zlen (BlobRecord.encode r) = BlobRecord.encoded_size r.
Proof.
  unfold BlobRecord.encode. rewrite append_crc_zlen. unfold BlobRecord.encoded_size, BLOB_RECORD_HEADER_SIZE, BLOB_RECORD_FOOTER_SIZE. zlens.
Qed.

Lemma u32_id x : 0 <= x < 2 ^ 32 -> u32 x = x.
Proof. apply wrap_small. Qed.

Lemma uint4_first x rest : 0 <= x < 2 ^ 32 -> uint_at 4 (le_bytes 4 x ++ rest) 0 = Ok x.
Proof. exact (uint_here 4 [] x rest). Qed.

Lemma blob_decode_encode r : zlen (BlobRecord.key r) < 2 ^ 32 -> zlen (BlobRecord.value r) < 2 ^ 32 ->
  BlobRecord.decode (BlobRecord.encode r) = Ok r.
Proof.
  intros Hk Hv. pose proof (encode_zlen r) as Hl. unfold BlobRecord.decode. rewrite Hl.
  unfold BlobRecord.encoded_size, BLOB_RECORD_HEADER_SIZE, BLOB_RECORD_FOOTER_SIZE in *.
  pose proof (zlen_nonneg (BlobRecord.key r)). pose proof (zlen_nonneg (BlobRecord.value r)).
  rewrite (proj2 (Z.ltb_ge _ _)) by lia. unfold BlobRecord.encode in *. rewrite !u32_id in * by lia.
  set (body := le_bytes 4 BLOB_MAGIC ++ le_bytes 4 (zlen (BlobRecord.key r)) ++ le_bytes 4 (zlen (BlobRecord.value r)) ++ BlobRecord.key r ++ BlobRecord.value r) in *.
  unfold append_crc. cbn [Integrity.hash].
  assert (Hat : (length (body ++ le_bytes 4 (Integrity.crc body)) - 4)%nat = length body) by (rewrite length_app, length_le_bytes; lia).
  rewrite Hat, take_app_length, drop_app_length, le_value_small, Z.eqb_refl by apply Integrity.crc_u32. cbn [rbind].
  assert (Hbl : zlen body = 12 + zlen (BlobRecord.key r) + zlen (BlobRecord.value r)) by (unfold body; zlens).
  unfold body at 1. rewrite uint4_first by (by vm_compute). cbn [rbind]. rewrite Z.eqb_refl. cbn [negb].
  unfold body at 1. rewrite (uint4_here (le_bytes 4 BLOB_MAGIC)) by (done || lia). cbn [rbind].
  unfold body at 1. rewrite (app_assoc (le_bytes 4 BLOB_MAGIC)), uint4_here by (rewrite ?zlen_app, ?zlen_le_bytes; lia). cbn [rbind].
  rewrite Hbl, Z.eqb_refl. cbn [negb].
  assert (Hb : body = (le_bytes 4 BLOB_MAGIC ++ le_bytes 4 (zlen (BlobRecord.key r)) ++ le_bytes 4 (zlen (BlobRecord.value r))) ++ BlobRecord.key r ++ BlobRecord.value r)
    by (unfold body; by rewrite <- !app_assoc).
  rewrite Hb. rewrite zslice_app by (unfold zlen in *; rewrite ?length_app, ?length_le_bytes; lia). cbn [or_panic rbind].
  rewrite app_assoc, zslice_app_end by (unfold zlen in *; rewrite ?length_app, ?length_le_bytes; lia). cbn [or_panic rbind]. by destruct r.
Qed.
End codec.

(** ** Writing a file of blobs *)

Section log.
Context `{!Integrity.Hashes} `{!Integrity.HashLaws}.

(** The pairs written one after the other to file [fid], with the references returned. *)
Fixpoint write_blobs (l : BlobLog.t) (s : stream) (now fid : Z) (kvs : list (list Z * list Z)) : list BlobRef * stream * BlobLog.t :=
  match kvs with
  | [] => ([], s, l)
  | (k, v) :: kvs' =>
      match BlobLog.write_blob l s now fid k v with
      | (Ok r, s, l) => let '(rs, s, l) := write_blobs l s now fid kvs' in (r :: rs, s, l)
      | (_, s, l) => ([], s, l)
      end
  end.

Definition pair_ok (p : list Z * list Z) : Prop := zlen p.1 + zlen p.2 < 2 ^ 32 - 16.

Definition record_size (p : list Z * list Z) : Z := 16 + zlen p.1 + zlen p.2.

Lemma pair_encode_zlen p : zlen (BlobRecord.encode (BlobRecord.new p.1 p.2)) = record_size p.
Proof. rewrite encode_zlen. unfold BlobRecord.encoded_size, record_size, BLOB_RECORD_HEADER_SIZE, BLOB_RECORD_FOOTER_SIZE. cbn. lia. Qed.

(** The metadata of a file to which [kvs] more were written. *)
Definition meta_after (m : BlobFileMetadata) (kvs : list (list Z * list Z)) : BlobFileMetadata :=
  let n := foldr (fun p acc => record_size p + acc) 0 kvs in
  BlobFile (meta_file_id m) (u64 (meta_file_size m + n)) (u64 (blob_count m + zlen kvs)) (u64 (live_blob_count m + zlen kvs))
    (u64 (live_data_size m + n)) (meta_created_at m).

Lemma u64_step a b c : u64 (u64 (a + b) + c) = u64 (a + (b + c)).
Proof. unfold u64. rewrite wrap_add_l. f_equal. lia. Qed.

Lemma meta_after_cons m p kvs : meta_after (meta_after m [p]) kvs = meta_after m (p :: kvs).
Proof.
  unfold meta_after. cbn [foldr meta_file_id meta_file_size blob_count live_blob_count live_data_size meta_created_at].
  rewrite !u64_step, !zlen_cons. f_equal; f_equal; unfold zlen; cbn [length]; lia.
Qed.

Lemma write_blob_spec l s now fid k v : stream_position s = zlen (stream_bytes s) -> pair_ok (k, v) ->
  exists l', BlobLog.write_blob l s now fid k v =
    (Ok (Blob_ fid (zlen (stream_bytes s)) (record_size (k, v))),
     Stream (zlen (stream_bytes s) + record_size (k, v)) (stream_bytes s ++ BlobRecord.encode (BlobRecord.new k v)), l') /\
  BlobLog.live_refs l' = {[(fid, zlen (stream_bytes s))]} ∪ BlobLog.live_refs l /\
  BlobLog.file_metadata l' = <[fid := meta_after (default (BlobFile fid 0 0 0 0 now) (BlobLog.file_metadata l !! fid)) [(k, v)]]> (BlobLog.file_metadata l).
Proof.
  intros Hpos Hok. pose proof (pair_encode_zlen (k, v)) as Hl. cbn [fst snd] in Hl. unfold pair_ok in Hok. cbn in Hok.
  pose proof (zlen_nonneg k). pose proof (zlen_nonneg v).
  unfold BlobLog.write_blob, write_all. rewrite Hl, Hpos, u32_id by (unfold record_size; cbn; lia).
  rewrite overwrite_end by (unfold zlen; lia). eexists. split; [done|]. split; [done|]. cbn [BlobLog.file_metadata]. f_equal.
  unfold meta_after. cbn [foldr]. by rewrite Z.add_0_r.
Qed.

(** What is known of the references [rs] handed out for [kvs] in a file of bytes [b]. *)
Definition refs_in (fid : Z) (b : list Z) (rs : list BlobRef) (kvs : list (list Z * list Z)) : Prop :=
  Forall2 (fun r p => file_id r = fid /\ blob_length r = record_size p /\
    exists pre post, b = pre ++ BlobRecord.encode (BlobRecord.new p.1 p.2) ++ post /\ zlen pre = blob_offset r) rs kvs.

Lemma write_blobs_spec kvs : forall l s now fid rs s' l',
  Forall pair_ok kvs -> stream_position s = zlen (stream_bytes s) -> write_blobs l s now fid kvs = (rs, s', l') ->
  (exists tail, stream_bytes s' = stream_bytes s ++ tail) /\ refs_in fid (stream_bytes s') rs kvs /\
  BlobLog.live_refs l' = list_to_set ((fun r => (file_id r, blob_offset r)) <$> rs) ∪ BlobLog.live_refs l /\
  (kvs <> [] -> BlobLog.file_metadata l' !! fid = Some (meta_after (default (BlobFile fid 0 0 0 0 now) (BlobLog.file_metadata l !! fid)) kvs)).
Proof.
  induction kvs as [|[k v] kvs IH]; intros l s now fid rs s' l' Hok Hpos Hw.
  { injection Hw as <- <- <-. split_and!; [exists []; by rewrite app_nil_r|constructor|set_solver|done]. }
  apply Forall_cons in Hok as [Hok Hoks]. cbn [write_blobs] in Hw.
  destruct (write_blob_spec l s now fid k v Hpos Hok) as (l1 & Hrun & Hlive & Hmeta). rewrite Hrun in Hw.
  destruct (write_blobs l1 _ now fid kvs) as [[rs1 s1] l2] eqn:Hrest. injection Hw as <- <- <-. pose proof Hrest as Hrest1.
  eapply IH in Hrest1 as ((tail & Htail) & Hrefs & Hlive2 & Hmeta2);
    [|done|cbn [stream_position stream_bytes]; rewrite zlen_app; f_equal; symmetry; apply (pair_encode_zlen (k, v))]. cbn [stream_bytes] in Htail. rewrite <- app_assoc in Htail.
  split_and!.
  - eexists. exact Htail.
  - constructor; [|exact Hrefs]. split; [done|]. split; [done|]. by exists (stream_bytes s), tail.
  - rewrite Hlive2, Hlive. cbn. set_solver.
  - intros _. destruct kvs as [|p kvs].
    + cbn in Hrest. injection Hrest as _ _ <-. by rewrite Hmeta, lookup_insert_eq.
    + rewrite Hmeta2, Hmeta, lookup_insert_eq by done. apply f_equal, meta_after_cons.
Qed.

Lemma write_blobs_zlen kvs : forall l s now fid rs s' l',
  Forall pair_ok kvs -> stream_position s = zlen (stream_bytes s) -> write_blobs l s now fid kvs = (rs, s', l') ->
  zlen (stream_bytes s') = zlen (stream_bytes s) + foldr (fun p acc => record_size p + acc) 0 kvs.
Proof.
  induction kvs as [|[k v] kvs IH]; intros l s now fid rs s' l' Hok Hpos Hw; [injection Hw as _ <- _; cbn; lia|].
  apply Forall_cons in Hok as [Hok Hoks]. cbn [write_blobs] in Hw.
  destruct (write_blob_spec l s now fid k v Hpos Hok) as (l1 & Hrun & _). rewrite Hrun in Hw.
  destruct (write_blobs l1 _ now fid kvs) as [[rs1 s1] l2] eqn:Hrest. injection Hw as _ <- _.
  pose proof (pair_encode_zlen (k, v)) as Hl. cbn [fst snd] in Hl.
  eapply IH in Hrest as ->; [|done|cbn [stream_position stream_bytes]; by rewrite zlen_app, Hl].
  cbn [stream_bytes foldr]. rewrite zlen_app, Hl. lia.
Qed.

Lemma read_back b fid rs kvs : Forall pair_ok kvs -> refs_in fid b rs kvs ->
  Forall2 (fun r p => forall pos, BlobLog.read_blob (Stream pos b) r = Ok p.2) rs kvs.
Proof.
  intros Hok Hrefs. induction Hrefs as [|r p rs kvs (_ & Hlen & pre & post & -> & Hpre) Hrefs IH]; [constructor|].
  apply Forall_cons in Hok as [Hp Hok]. constructor; [|by apply IH]. intros pos. unfold BlobLog.read_blob, read_exact, seek, read_exact_at.
  cbn [stream_bytes stream_position]. rewrite Hlen, <- Hpre, !zlen_app, pair_encode_zlen.
  rewrite (proj2 (Z.ltb_ge _ _)) by (pose proof (zlen_nonneg post); lia). cbn [rbind].
  unfold zlen at 1. rewrite Nat2Z.id, drop_app_length.
  assert (Hl : Z.to_nat (record_size p) = length (BlobRecord.encode (BlobRecord.new p.1 p.2))) by (rewrite <- pair_encode_zlen; unfold zlen; lia).
  rewrite Hl, take_app_length. unfold pair_ok in Hp. pose proof (zlen_nonneg p.1). pose proof (zlen_nonneg p.2).
  rewrite blob_decode_encode by (cbn; lia). done.
Qed.
End log.

(** ** Properties *)

Section properties.
Context `{!Integrity.Hashes} `{!Integrity.HashLaws}.

(** Every reference the blob log hands out reads back its value: writing
    any list of pairs to an empty file returns one reference per pair, each of
    which reads the pair's value from the finished file wherever the reader
    stands; the references are recorded as live, and the file's metadata counts
    them and their bytes exactly. *)
Theorem blob_log_roundtrip (now fid : Z) (kvs : list (list Z * list Z)) (l : BlobLog.t) :
  kvs <> [] -> Forall pair_ok kvs -> zlen kvs < 2 ^ 64 -> BlobLog.file_metadata l !! fid = None ->
  let '(rs, s, l') := write_blobs l (Stream 0 []) now fid kvs in
  zlen (stream_bytes s) < 2 ^ 64 ->
  Forall2 (fun r p => forall pos, BlobLog.read_blob (Stream pos (stream_bytes s)) r = Ok p.2) rs kvs /\
  Forall (fun r => (file_id r, blob_offset r) ∈ BlobLog.live_refs l') rs /\
  BlobLog.get_file_metadata l' fid =
    Some (BlobFile fid (zlen (stream_bytes s)) (zlen kvs) (zlen kvs) (zlen (stream_bytes s)) now).
Proof using All.
  intros Hne Hok Hlen Hnew. destruct (write_blobs l (Stream 0 []) now fid kvs) as [[rs s] l'] eqn:Hw. intros Hsz.
  pose proof (write_blobs_zlen kvs l (Stream 0 []) now fid rs s l' Hok eq_refl Hw) as Hbytes. cbn [stream_bytes] in Hbytes. rewrite zlen_nil, Z.add_0_l in Hbytes.
  destruct (write_blobs_spec kvs l (Stream 0 []) now fid rs s l' Hok eq_refl Hw) as (_ & Hrefs & Hlive & Hmeta). split_and!.
  - by eapply read_back.
  - apply Forall_forall. intros r Hr. rewrite Hlive. apply elem_of_union_l, elem_of_list_to_set, list_elem_of_fmap. eauto.
  - unfold BlobLog.get_file_metadata. rewrite (Hmeta Hne), Hnew, Hbytes. unfold meta_after.
    cbn [default from_option meta_file_id meta_file_size blob_count live_blob_count live_data_size meta_created_at].
    pose proof (zlen_nonneg kvs). pose proof (zlen_nonneg (stream_bytes s)).
    rewrite !Z.add_0_l. unfold u64. rewrite !wrap_small by lia. done.
Qed.
End properties.

(** ** A concrete log *)

Module BlobWitness.

Import PolyHash.
#[local] Existing Instances poly_hashes poly_laws.

Lemma blob_log_roundtrip_witness :
  let '(rs, s, l') := write_blobs BlobLog.new (Stream 0 []) 5 3 [([1], [10; 20]); ([2], [])] in
  Forall2 (fun r p => forall pos, BlobLog.read_blob (Stream pos (stream_bytes s)) r = Ok p.2) rs [([1], [10; 20]); ([2], [])] /\
  Forall (fun r => (file_id r, blob_offset r) ∈ BlobLog.live_refs l') rs /\
  BlobLog.get_file_metadata l' 3 = Some (BlobFile 3 (zlen (stream_bytes s)) 2 2 (zlen (stream_bytes s)) 5).
Proof.
  apply (blob_log_roundtrip 5 3 [([1], [10; 20]); ([2], [])] BlobLog.new).
  - done.
  - repeat constructor.
  - done.
  - done.
  - by vm_compute.
Defined.

End BlobWitness.
