(* ===== verification/LsmMerge.v ===== *)
(** * Merging sorted sources

    Models nanograph-lsm/src/iterator.rs (range scans over memtables and
    tables) and nanograph-lsm/src/compaction.rs.  Both drain a [BinaryHeap] that
    holds the head of every source; [pops] is that loop, the two clients differ
    in the order of heap entries and in what they keep.  The table directory is
    a map from file numbers to contents. *)

From Stdlib Require Import ZArith Lia.
From stdpp Require Import sorting gmap option strings base list.
From S2P Require Import Prelude BTreeError Integrity LsmMemtable LsmSSTable.

Open Scope Z_scope.

(** ** The heap loop *)

Section kway.
Context {P T : Type} (entry_of : P -> Entry.t -> T) (cmp : T -> T -> comparison).

(** An entry of [iterators]: its tag, its entries and the position in them. *)
Record source : Type := Source { tag : P; items : list Entry.t; pos : nat }.

(** Heap entries are pairs [(T, usize)] with the derived lexicographic order. *)
Definition greater (a b : T * nat) : bool :=
  match cmp a.1 b.1 with
  | Gt => true
  | Lt => false
  | Eq => (b.2 <? a.2)%nat
  end.

(** [BinaryHeap::pop]: a greatest element and the others. *)
Fixpoint heap_pop (h : list (T * nat)) : option ((T * nat) * list (T * nat)) :=
  match h with
  | [] => None
  | x :: h' =>
      match heap_pop h' with
      | None => Some (x, [])
      | Some (y, r) => if greater y x then Some (y, x :: r) else Some (x, y :: r)
      end
  end.

(** The head of a source, as it is pushed. *)
Definition head_of (s : source) : option T := entry_of (tag s) <$> items s !! pos s.

Fixpoint initial_heap (idx : nat) (its : list source) : list (T * nat) :=
  match its with
  | [] => []
  | s :: its' =>
      match head_of s with
      | Some t => (t, idx) :: initial_heap (S idx) its'
      | None => initial_heap (S idx) its'
      end
  end.

(** [*pos += 1] and the push of the next entry. *)
Definition advance (s : source) : source := Source (tag s) (items s) (S (pos s)).

Fixpoint pops (fuel : nat) (its : list source) (h : list (T * nat)) : list T :=
  match fuel with
  | O => []
  | S fuel' =>
      match heap_pop h with
      | None => []
      | Some ((t, idx), h) =>
          match advance <$> its !! idx with
          | None => []
          | Some s =>
              t :: pops fuel' (<[idx := s]> its) (match head_of s with Some t' => (t', idx) :: h | None => h end)
          end
      end
  end.

Definition remaining (its : list source) : nat := foldr (fun s n => (length (items s) - pos s + n)%nat) 0%nat its.

(** Every round takes one entry from a source. *)
Definition merged (its : list source) : list T := pops (S (remaining its)) its (initial_heap 0 its).
End kway.
Arguments Source {P} _ _ _.
Arguments tag {P} _.
Arguments items {P} _.
Arguments pos {P} _.

(** ** Range scans *)

Module LSMIterator.

Record IteratorEntry : Type := IEntry { key : list Z; value : option (list Z); sequence : Z; source_priority : nat }.

(** [Ord]: reversed, so that the heap yields the smallest key first, and of one key the lowest priority number. *)
Definition cmp (self other : IteratorEntry) : comparison :=
  match bytes_cmp (key other) (key self) with
  | Eq =>
      match Nat.compare (source_priority other) (source_priority self) with
      | Eq => Z.compare (sequence other) (sequence self)
      | o => o
      end
  | o => o
  end.

Definition inline (v : option ValueLocation) : option (list Z) := v ≫= Location.as_inline.

Definition entry_of (priority : nat) (e : Entry.t) : IteratorEntry :=
  IEntry (Entry.key e) (inline (Entry.value e)) (Entry.sequence e) priority.

Record t : Type := mk { entries : list (list Z * list Z); position : nat; reverse : bool; limit : option nat }.

(** [sort_by] is a stable sort on keys. *)
Fixpoint sort_insert (b : list Z * list Z) (l : list (list Z * list Z)) : list (list Z * list Z) :=
  match l with
  | [] => [b]
  | b' :: l' => match bytes_cmp b.1 b'.1 with Gt => b' :: sort_insert b l' | _ => b :: l end
  end.
Definition sort_by_key (l : list (list Z * list Z)) : list (list Z * list Z) := foldr sort_insert [] l.

Definition kv_of (e : Entry.t) : option (list Z * list Z) := (fun v => (Entry.key e, v)) <$> inline (Entry.value e).

Definition new (es : list Entry.t) (reverse : bool) : t :=
  let kv_pairs := sort_by_key (omap kv_of es) in
  mk (if reverse then rev kv_pairs else kv_pairs) 0 reverse None.

Definition set_limit (it : t) (l : nat) : t := mk (entries it) (position it) (reverse it) (Some l).

(** Sources are numbered from the newest; the empty ones are dropped. *)
Definition sources (ls : list (list Entry.t)) : list (@source nat) :=
  omap (fun p : nat * list Entry.t => match p.2 with [] => None | _ => Some (Source p.1 p.2 0) end) (zip (seq 0 (length ls)) ls).

(** The body of the loop: skip a key already seen, keep the others that have a value. *)
Fixpoint keep_first (last_key : option (list Z)) (l : list IteratorEntry) : list (list Z * list Z) :=
  match l with
  | [] => []
  | e :: l' =>
      if decide (last_key = Some (key e)) then keep_first last_key l'
      else
        match value e with
        | Some v => (key e, v) :: keep_first (Some (key e)) l'
        | None => keep_first (Some (key e)) l'
        end
  end.

Definition merge (ls : list (list Entry.t)) (reverse : bool) : t :=
  let result := keep_first None (merged entry_of cmp (sources ls)) in
  mk (if reverse then rev result else result) 0 reverse None.

Definition poll_next (it : t) : option (list Z * list Z) * t :=
  if match limit it with Some l => (l <=? position it)%nat | None => false end then (None, it)
  else
    match entries it !! position it with
    | Some e => (Some e, mk (entries it) (S (position it)) (reverse it) (limit it))
    | None => (None, it)
    end.

Definition seek (it : t) (k : list Z) : t :=
  mk (entries it) (match binary_search_by (key_probe fst k) (entries it) with Found i | NotFound i => i end) (reverse it) (limit it).

Definition position_key (it : t) : option (list Z) :=
  if (0 <? position it)%nat && (position it <=? length (entries it))%nat then fst <$> entries it !! (position it - 1)%nat else None.

Definition valid (it : t) : bool := (position it <? length (entries it))%nat.

Definition get_cursor (it : t) : nat := position it.
Definition from_cursor (es : list (list Z * list Z)) (cursor : nat) (reverse : bool) : t := mk es cursor reverse None.

End LSMIterator.

(** ** Compaction *)

Module Compaction.

Record MergeEntry : Type := MEntry { entry : Entry.t; source_level : nat; source_file : Z }.

(** [Ord], reversed for keys and for sequence numbers alike. *)
Definition cmp (self other : MergeEntry) : comparison :=
  match bytes_cmp (Entry.key (entry other)) (Entry.key (entry self)) with
  | Eq => Z.compare (Entry.sequence (entry other)) (Entry.sequence (entry self))
  | o => o
  end.

Definition entry_of (p : nat * Z) (e : Entry.t) : MergeEntry := MEntry e p.1 p.2.

Record CompactionTask : Type := Task {
  task_source_level : nat;
  task_target_level : nat;
  source_sstables : list SSTableMetadata;
  target_sstables : list SSTableMetadata
}.

Record CompactionStrategy : Type := Strategy { level_size_multiplier : Z; max_level : nat; level0_file_num_compaction_trigger : nat }.

Definition default_strategy : CompactionStrategy := Strategy 10 7 4.

(** [u64] arithmetic that panics on overflow in debug builds; it is left unbounded here. *)
Definition target_size (s : CompactionStrategy) (lvl : nat) (base_size : Z) : Z :=
  if (lvl =? 0)%nat then 0 else base_size * level_size_multiplier s ^ Z.of_nat lvl.

Definition bytes_min (a b : list Z) : list Z := match bytes_cmp a b with Gt => b | _ => a end.
Definition bytes_max (a b : list Z) : list Z := match bytes_cmp a b with Gt => a | _ => b end.

Definition find_overlapping_sstables (src target : list SSTableMetadata) : list SSTableMetadata :=
  match src with
  | [] => []
  | s0 :: _ =>
      let lo := foldr (fun s => bytes_min (min_key s)) (min_key s0) src in
      let hi := foldr (fun s => bytes_max (max_key s)) (max_key s0) src in
      filter (fun t => ~ (bytes_lt (max_key t) lo \/ bytes_lt hi (min_key t))) target
  end.

(** The levels from [lvl] on, by size. *)
Fixpoint select_by_size (s : CompactionStrategy) (levels : list (list SSTableMetadata)) (base_size : Z) (fuel lvl : nat) : option CompactionTask :=
  match fuel with
  | O => None
  | S fuel' =>
      if (max_level s <=? lvl)%nat then None
      else
        match levels !! lvl with
        | None => None
        | Some tables =>
            let current_size := foldr (fun t n => file_size t + n) 0 tables in
            match (if target_size s lvl base_size <? current_size then head tables else None) with
            | Some sstable =>
                Some (Task lvl (S lvl) [sstable]
                        (match levels !! S lvl with Some next => find_overlapping_sstables [sstable] next | None => [] end))
            | None => select_by_size s levels base_size fuel' (S lvl)
            end
        end
  end.

(** [levels[0]] and [levels[1]] panic when missing. *)
Definition select_compaction (s : CompactionStrategy) (levels : list (list SSTableMetadata)) (base_size : Z) :
    result KeyValueError (option CompactionTask) :=
  let! l0 := or_panic (levels !! 0%nat) in
  if (level0_file_num_compaction_trigger s <=? length l0)%nat then
    let! l1 := or_panic (levels !! 1%nat) in
    Ok (Some (Task 0 1 l0 (find_overlapping_sstables l0 l1)))
  else Ok (select_by_size s levels base_size (max_level s) 1).

(** The sources in order: first the source tables, then the target tables. *)
Definition iterators (source_lvl : nat) (src target : list (Z * list Entry.t)) : list (@source (nat * Z)) :=
  omap (fun p : Z * list Entry.t => match p.2 with [] => None | _ => Some (Source (source_lvl, p.1) p.2 0) end) src ++
  omap (fun p : Z * list Entry.t => match p.2 with [] => None | _ => Some (Source (S source_lvl, p.1) p.2 0) end) target.

Definition merge_loaded (source_lvl : nat) (src target : list (Z * list Entry.t)) : list Entry.t :=
  entry <$> merged entry_of cmp (iterators source_lvl src target).

Fixpoint dedup_loop (prev_key : option (list Z)) (l : list Entry.t) : list Entry.t :=
  match l with
  | [] => []
  | e :: l' =>
      if decide (prev_key = Some (Entry.key e)) then dedup_loop prev_key l'
      else
        match Entry.value e with
        | Some _ => e :: dedup_loop (Some (Entry.key e)) l'
        | None => dedup_loop (Some (Entry.key e)) l'
        end
  end.
Definition deduplicate_and_filter (l : list Entry.t) : list Entry.t := dedup_loop None l.

Section executor.
Context `{!Integrity.Hashes} `{!Codecs}.

Record CompactionExecutor : Type := Executor { block_size : Z; compression : CompressionAlgorithm }.

(** The directory: file number to contents. *)
Abbreviation dir := (gmap Z (list Z)).

Definition corruption {A} (msg : string) (r : io_result A) : result KeyValueError A :=
  match r with
  | Ok a => Ok a
  | Err _ => Err (KvStorageCorruption msg)
  | Panic => Panic
  | Timeout => Timeout
  end.

(** The number of bytes of the file bounds the number of its entries. *)
Definition load_sstable_entries (files : dir) (m : SSTableMetadata) : result KeyValueError (list Entry.t) :=
  let! file := ok_or (files !! file_number m) (KvStorageCorruption "Failed to open SSTable") in
  let! it := corruption "Failed to create SSTable iterator" (SSTableIterator.new file) in
  corruption "Failed to read entry from SSTable" (SSTableIterator.collect (S (length file)) it).

Fixpoint load_all (files : dir) (ms : list SSTableMetadata) : result KeyValueError (list (Z * list Entry.t)) :=
  match ms with
  | [] => Ok []
  | m :: ms' =>
      let! es := load_sstable_entries files m in
      let! rest := load_all files ms' in
      Ok ((file_number m, es) :: rest)
  end.

Definition merge_sstables (files : dir) (src target : list SSTableMetadata) (source_lvl : nat) : result KeyValueError (list Entry.t) :=
  let! s := load_all files src in
  let! t := load_all files target in
  Ok (merge_loaded source_lvl s t).

(** [create_file] refuses an existing path. *)
Definition write_sstable (x : CompactionExecutor) (now : Z) (files : dir) (es : list Entry.t) (fnum : Z) (lvl : nat) :
    result KeyValueError (SSTableMetadata * dir) :=
  match files !! fnum with
  | Some _ => Err (KvStorageCorruption "PathExists")
  | None =>
      let! (bytes, meta) := corruption "SSTable" (SSTable.create es fnum lvl (block_size x) (compression x) now) in
      Ok (meta, <[fnum := bytes]> files)
  end.

Fixpoint write_batches (x : CompactionExecutor) (now : Z) (lvl : nat) (es batch : list Entry.t) (batch_size : Z) (files : dir)
    (next_file_number : Z) : result KeyValueError (list SSTableMetadata * dir * Z) :=
  match es with
  | [] =>
      match batch with
      | [] => Ok ([], files, next_file_number)
      | _ =>
          let! (meta, files) := write_sstable x now files batch next_file_number lvl in
          Ok ([meta], files, next_file_number + 1)
      end
  | e :: es' =>
      if (block_size x * 1024 <? batch_size + Entry.size e) && negb (bool_decide (batch = [])) then
        let! (meta, files) := write_sstable x now files batch next_file_number lvl in
        let! (metas, files, n) := write_batches x now lvl es' [e] (Entry.size e) files (next_file_number + 1) in
        Ok (meta :: metas, files, n)
      else write_batches x now lvl es' (batch ++ [e]) (batch_size + Entry.size e) files next_file_number
  end.

Definition execute (x : CompactionExecutor) (now : Z) (files : dir) (task : CompactionTask) (next_file_number : Z) :
    result KeyValueError (list SSTableMetadata * dir * Z) :=
  let! es := merge_sstables files (source_sstables task) (target_sstables task) (task_source_level task) in
  match deduplicate_and_filter es with
  | [] => Ok ([], files, next_file_number)
  | es => write_batches x now (task_target_level task) es [] 0 files next_file_number
  end.
End executor.

End Compaction.
