(* ===== verification/LsmMergeSpec.v ===== *)
(** * What merging promises

    The heap loop is a k-way merge: its output is sorted and holds exactly the
    entries of the sources.  From that, a range scan sees the newest version of
    every key, and compaction keeps the version with the lowest sequence
    number. *)

From Stdlib Require Import ZArith Lia.
From stdpp Require Import sorting gmap option strings base list.
From S2P Require Import Prelude BTreeError Integrity LsmMemtable LsmSSTable LsmSSTableSpec LsmMerge.

Open Scope Z_scope.

(** ** The heap loop *)

Section kway.
Context {P T : Type} (entry_of : P -> Entry.t -> T) (cmp : T -> T -> comparison).

(** [a] leaves the heap no later than [b]. *)
Definition before (a b : T) : Prop := cmp a b <> Lt.

Hypothesis cmp_antisym : forall a b, cmp b a = CompOpp (cmp a b).
Hypothesis before_trans : forall a b c, before a b -> before b c -> before a c.

Implicit Types (s : @source P) (its : list (@source P)) (h : list (T * nat)).

Lemma before_refl a : before a a.
Proof using cmp_antisym. unfold before. pose proof (cmp_antisym a a). destruct (cmp a a); done. Qed.

Lemma not_greater a b : greater cmp b a = false -> before a.1 b.1.
Proof using cmp_antisym. unfold greater, before. rewrite (cmp_antisym a.1 b.1). destruct (cmp a.1 b.1); done. Qed.

Lemma is_greater a b : greater cmp a b = true -> before a.1 b.1.
Proof using. unfold greater, before. destruct (cmp a.1 b.1); done. Qed.

Lemma heap_pop_spec h x r : heap_pop cmp h = Some (x, r) -> h ≡ₚ x :: r /\ Forall (fun y => before x.1 y.1) r.
Proof using cmp_antisym before_trans.
  revert x r. induction h as [|y h IH]; intros x r Hpop; cbn [heap_pop] in Hpop; [done|].
  destruct (heap_pop cmp h) as [[z r']|] eqn:E.
  - destruct (IH _ _ eq_refl) as [Hp Hf]. destruct (greater cmp z y) eqn:Eg; injection Hpop as <- <-.
    + split; [rewrite Hp; apply Permutation_swap|]. constructor; [by apply is_greater|done].
    + split; [by rewrite Hp|]. apply not_greater in Eg. constructor; [done|]. eapply Forall_impl; [exact Hf|]. intros w Hw. eauto.
  - injection Hpop as <- <-. destruct h as [|w h]; [done|]. cbn [heap_pop] in E. destruct (heap_pop cmp h) as [[? ?]|]; [by destruct (greater _ _ _)|done].
Qed.

Lemma heap_pop_None h : heap_pop cmp h = None -> h = [].
Proof using. destruct h as [|w h]; [done|]. cbn [heap_pop]. destruct (heap_pop cmp h) as [[? ?]|]; [by destruct (greater _ _ _)|done]. Qed.

(** What a source still holds. *)
Definition rest_of s : list T := entry_of (tag s) <$> drop (pos s) (items s).
Definition all_rest its : list T := concat (rest_of <$> its).

Lemma all_rest_app its1 its2 : all_rest (its1 ++ its2) = all_rest its1 ++ all_rest its2.
Proof using. unfold all_rest. by rewrite fmap_app, concat_app. Qed.

Lemma all_rest_cons s its : all_rest (s :: its) = rest_of s ++ all_rest its.
Proof using. done. Qed.

Lemma head_rest s t : head_of entry_of s = Some t -> rest_of s = t :: rest_of (advance s).
Proof using.
  unfold head_of, rest_of. destruct (items s !! pos s) as [e|] eqn:E; [|done]. intros [= <-]. by rewrite (drop_S _ _ _ E).
Qed.

Lemma head_None s : head_of entry_of s = None -> rest_of s = [].
Proof using.
  unfold head_of, rest_of. destruct (items s !! pos s) as [e|] eqn:E; [done|]. intros _. by rewrite drop_ge by (by apply lookup_ge_None).
Qed.

Lemma initial_heap_app k its1 its2 :
  initial_heap entry_of k (its1 ++ its2) = initial_heap entry_of k its1 ++ initial_heap entry_of (k + length its1) its2.
Proof using.
  revert k. induction its1 as [|s its1 IH]; intros k; cbn [initial_heap app length]; [by rewrite Nat.add_0_r|].
  replace (k + S (length its1))%nat with (S k + length its1)%nat by lia. rewrite IH. by destruct (head_of entry_of s).
Qed.

Lemma initial_heap_elem k its t i : (t, i) ∈ initial_heap entry_of k its -> exists its1 s its2, its = its1 ++ s :: its2 /\
  i = (k + length its1)%nat /\ head_of entry_of s = Some t.
Proof using.
  revert k. induction its as [|s its IH]; intros k Hin; cbn [initial_heap] in Hin; [by apply not_elem_of_nil in Hin|].
  destruct (head_of entry_of s) as [t'|] eqn:E; [apply elem_of_cons in Hin as [[= -> ->]|Hin]|].
  1: exists [], s, its; cbn; split_and!; auto; lia.
  all: destruct (IH _ Hin) as (its1 & s' & its2 & -> & -> & Hs); exists (s :: its1), s', its2; cbn; split_and!; auto; lia.
Qed.

(** Every entry still to come is behind the head of its source. *)
Definition sources_sorted its : Prop := Forall (fun s => StronglySorted before (rest_of s)) its.

Lemma max_before_all its t r : sources_sorted its -> initial_heap entry_of 0 its ≡ₚ r ->
  Forall (fun y => before t y.1) r -> Forall (before t) (all_rest its).
Proof using before_trans cmp_antisym.
  intros Hs Hp Hf. rewrite <- Hp in Hf. clear Hp. revert Hf. generalize 0%nat as k.
  induction its as [|s its IH]; intros k Hf; [apply Forall_nil_2|].
  apply Forall_cons in Hs as [Hss Hs]. rewrite all_rest_cons. cbn [initial_heap] in Hf.
  apply Forall_app. destruct (head_of entry_of s) as [t'|] eqn:E.
  - apply Forall_cons in Hf as [Ht Hf]. cbn in Ht. split; [|by apply (IH Hs (S k))].
    rewrite (head_rest _ _ E) in Hss |- *. constructor; [done|]. apply StronglySorted_inv in Hss as [_ Hss].
    eapply Forall_impl; [exact Hss|]. intros x Hx. eauto.
  - rewrite (head_None _ E). split; [apply Forall_nil_2|]. by apply (IH Hs (S k)).
Qed.

Lemma remaining_app its1 its2 : remaining (its1 ++ its2) = (remaining its1 + remaining its2)%nat.
Proof using. unfold remaining. induction its1 as [|s its1 IH]; cbn; [done|]. rewrite IH. lia. Qed.

Lemma pops_spec fuel : forall its h, h ≡ₚ initial_heap entry_of 0 its -> sources_sorted its -> (remaining its < fuel)%nat ->
  StronglySorted before (pops entry_of cmp fuel its h) /\ pops entry_of cmp fuel its h ≡ₚ all_rest its.
Proof using before_trans cmp_antisym.
  induction fuel as [|fuel IH]; intros its h Hh Hs Hf; [lia|]. cbn [pops].
  destruct (heap_pop cmp h) as [[[t idx] r]|] eqn:Epop.
  - apply heap_pop_spec in Epop as [Hp Hbest]. cbn [fst] in Hbest.
    assert (Hin : (t, idx) ∈ initial_heap entry_of 0 its) by (rewrite <- Hh, Hp; apply list_elem_of_here).
    destruct (initial_heap_elem _ _ _ _ Hin) as (its1 & s & its2 & -> & -> & Hhead). cbn [Nat.add].
    rewrite lookup_app_here. cbn [fmap option_fmap option_map]. rewrite insert_app_here.
    assert (Hr : r ≡ₚ initial_heap entry_of 0 its1 ++ initial_heap entry_of (S (length its1)) its2).
    { apply (Permutation_cons_inv (a := (t, length its1))). rewrite <- Hp, Hh, initial_heap_app. cbn [initial_heap Nat.add]. rewrite Hhead.
      symmetry. apply Permutation_middle. }
    assert (Hh' : match head_of entry_of (advance s) with Some t' => (t', length its1) :: r | None => r end ≡ₚ
      initial_heap entry_of 0 (its1 ++ advance s :: its2)).
    { rewrite initial_heap_app. cbn [initial_heap Nat.add]. destruct (head_of entry_of (advance s)); rewrite Hr; [apply Permutation_middle|done]. }
    assert (Hs' : sources_sorted (its1 ++ advance s :: its2)).
    { unfold sources_sorted in *. rewrite !Forall_app, !Forall_cons in *. destruct Hs as (? & Hss & ?). split_and!; try done.
      rewrite (head_rest _ _ Hhead) in Hss. by apply StronglySorted_inv in Hss as [? _]. }
    assert (Hlt : (pos s < length (items s))%nat).
    { unfold head_of in Hhead. destruct (items s !! pos s) eqn:E; [|done]. by apply lookup_lt_Some in E. }
    destruct (IH _ _ Hh' Hs') as [Hsort Hperm].
    { rewrite remaining_app in *. cbn [remaining foldr] in *. fold (remaining its2) in *. cbn [advance items pos] in *. lia. }
    assert (Hall : all_rest (its1 ++ s :: its2) ≡ₚ t :: all_rest (its1 ++ advance s :: its2)).
    { rewrite !all_rest_app, !all_rest_cons, (head_rest _ _ Hhead). cbn [app]. symmetry. apply Permutation_middle. }
    split; [|by rewrite Hperm, Hall]. constructor; [done|].
    assert (Hmax : Forall (before t) (all_rest (its1 ++ s :: its2))).
    { apply (max_before_all _ t ((t, length its1) :: r) Hs); [by rewrite <- Hp, Hh|]. constructor; [apply before_refl|done]. }
    rewrite Hall in Hmax. apply Forall_cons in Hmax as [_ Hmax]. by rewrite Hperm.
  - apply heap_pop_None in Epop as ->. apply Permutation_nil in Hh. split; [constructor|].
    assert (Hnil : forall k, initial_heap entry_of k its = [] -> all_rest its = []).
    { clear. induction its as [|s its IH]; intros k Hk; [done|]. cbn [initial_heap] in Hk. rewrite all_rest_cons.
      destruct (head_of entry_of s) eqn:E; [done|]. by rewrite (head_None _ E), (IH _ Hk). }
    by rewrite (Hnil _ Hh).
Qed.

(** The loop merges: sorted output, nothing lost, nothing added. *)
Lemma merged_spec its : sources_sorted its ->
  StronglySorted before (merged entry_of cmp its) /\ merged entry_of cmp its ≡ₚ all_rest its.
Proof using before_trans cmp_antisym. intros Hs. apply pops_spec; auto. Qed.
End kway.

Lemma sorted_weaken {A} (R1 R2 : A -> A -> Prop) l : (forall x y, R1 x y -> R2 x y) -> StronglySorted R1 l -> StronglySorted R2 l.
Proof. intros HR. induction 1 as [|x l _ IH Hall]; constructor; [done|]. eapply Forall_impl; [exact Hall|]. auto. Qed.

(** ** Keeping the first of every key *)

Section first.
Context {T : Type} (key_of : T -> list Z).
Implicit Types l : list T.

Definition first_of (k : list Z) l : option T := snd <$> list_find (fun e => key_of e = k) l.

Lemma first_of_cons k e l : first_of k (e :: l) = if decide (key_of e = k) then Some e else first_of k l.
Proof. unfold first_of. cbn. case_decide; [done|]. by destruct (list_find _ l) as [[? ?]|]. Qed.

Lemma first_of_Some k l e : first_of k l = Some e -> e ∈ l /\ key_of e = k.
Proof.
  induction l as [|x l IH]; [done|]. rewrite first_of_cons. case_decide as Hk; [intros [= <-]; split; [apply list_elem_of_here|done]|].
  intros [? ?]%IH. split; [by apply list_elem_of_further|done].
Qed.

Lemma first_of_None k l : first_of k l = None -> Forall (fun e => key_of e <> k) l.
Proof.
  induction l as [|x l IH]; [intros _; apply Forall_nil_2|]. rewrite first_of_cons. case_decide as Hk; [done|]. intros H. constructor; auto.
Qed.

(** The first of a key comes before every other of that key. *)
Lemma first_of_least (R : T -> T -> Prop) k l e x : (forall y, R y y) -> StronglySorted R l -> first_of k l = Some e -> x ∈ l -> key_of x = k -> R e x.
Proof.
  intros Hrefl. induction l as [|y l IH]; intros Hs Hf Hx Hk; [done|]. apply StronglySorted_inv in Hs as [Hs Hall]. rewrite first_of_cons in Hf.
  apply elem_of_cons in Hx as [->|Hx].
  - rewrite decide_True in Hf by done. by injection Hf as ->.
  - case_decide; [|by apply IH]. injection Hf as ->. rewrite Forall_forall in Hall. auto.
Qed.

(** Keys never decrease, and none is below [last_key]. *)
Definition keys_from (last_key : option (list Z)) l : Prop :=
  StronglySorted (fun a b => bytes_le (key_of a) (key_of b)) l /\
  match last_key with Some k => Forall (fun e => bytes_le k (key_of e)) l | None => True end.

Lemma keys_from_tail lk e l : keys_from lk (e :: l) -> keys_from (Some (key_of e)) l /\ keys_from lk l.
Proof.
  intros [Hs Hlk]. apply StronglySorted_inv in Hs as [Hs Hall]. split; (split; [done|]).
  - exact Hall.
  - destruct lk; [|done]. by apply Forall_cons in Hlk as [_ Hlk].
Qed.

Lemma keys_from_fresh lk e l x : keys_from lk (e :: l) -> lk <> Some (key_of e) -> x ∈ l -> lk <> Some (key_of x).
Proof.
  intros [Hs Hlk] Hne Hx ->. apply StronglySorted_inv in Hs as [_ Hall]. rewrite Forall_forall in Hall. specialize (Hall x Hx).
  apply Forall_cons in Hlk as [Hle _]. apply Hne. f_equal. apply bytes_le_lt_eq in Hle as [Hlt|Heq]; [|done].
  exfalso. apply (bytes_lt_irrefl (key_of x)). by eapply bytes_lt_le_trans.
Qed.

Lemma keys_from_head lk e l : keys_from lk (e :: l) -> lk <> Some (key_of e) -> match lk with Some k => bytes_lt k (key_of e) | None => True end.
Proof.
  destruct lk as [k|]; [|done]. intros [_ Hle] Hne. apply Forall_cons in Hle as [Hle _]. apply bytes_le_lt_eq in Hle as [?|Heq]; [done|congruence].
Qed.
End first.

(** ** Range scans *)

Module ScanSpec.
Import LSMIterator.

(** The newest source that knows the key decides. *)
Fixpoint lookup_sources (k : list Z) (ls : list (list Entry.t)) : option Entry.t :=
  match ls with
  | [] => None
  | l :: ls' => match TableSpec.find_key k l with Some e => Some e | None => lookup_sources k ls' end
  end.

Lemma keep_first_elem l : forall lk k v, keys_from key lk l ->
  (k, v) ∈ keep_first lk l <-> lk <> Some k /\ exists e, first_of key k l = Some e /\ value e = Some v.
Proof.
  induction l as [|e l IH]; intros lk k v Hkf; cbn [keep_first].
  { split; [intros H; by apply not_elem_of_nil in H|]. intros (_ & ? & ? & _). done. }
  pose proof (keys_from_tail key lk e l Hkf) as [Hkf1 Hkf2]. rewrite first_of_cons.
  destruct (decide (lk = Some (key e))) as [->|Hne].
  - rewrite (IH _ _ _ Hkf2). case_decide; [|done]. subst k. naive_solver.
  - assert (Hin : forall tail, tail = keep_first (Some (key e)) l ->
      (k, v) ∈ tail <-> key e <> k /\ lk <> Some k /\ exists e', first_of key k l = Some e' /\ value e' = Some v).
    { intros tail ->. rewrite (IH _ _ _ Hkf1). split.
      - intros (Hk & e' & Hf & Hv). split_and!; [congruence| |by exists e']. apply first_of_Some in Hf as [He' <-]. by eapply keys_from_fresh.
      - intros (Hk & _ & He'). split; [congruence|done]. }
    case_decide as Hk.
    + subst k. destruct (value e) as [v'|] eqn:Ev; [rewrite elem_of_cons|]; rewrite (Hin _ eq_refl); naive_solver.
    + destruct (value e) as [v'|] eqn:Ev; [rewrite elem_of_cons|]; rewrite (Hin _ eq_refl); naive_solver.
Qed.

Lemma keep_first_sorted l : forall lk, keys_from key lk l -> sorted_by fst (keep_first lk l) /\
  match lk with Some k => all_gt fst k (keep_first lk l) | None => True end.
Proof.
  induction l as [|e l IH]; intros lk Hkf; cbn [keep_first]; [split; [apply sorted_by_nil|destruct lk; [apply Forall_nil_2|done]]|].
  pose proof (keys_from_tail key lk e l Hkf) as [Hkf1 Hkf2]. destruct (decide (lk = Some (key e))) as [->|Hne]; [by apply IH|].
  destruct (IH _ Hkf1) as [Hs Hgt].
  pose proof (keys_from_head key lk e l Hkf Hne) as Hlk.
  assert (Hlk' : match lk with Some k => all_gt fst k (keep_first (Some (key e)) l) | None => True end).
  { destruct lk as [k|]; [|done]. eapply all_gt_trans; [exact Hgt|]. by apply bytes_lt_le. }
  destruct (value e) as [v|]; [|by split]. split; [by apply sorted_by_cons|]. destruct lk; [|done]. by constructor.
Qed.

Lemma scan_cmp_antisym a b : cmp b a = CompOpp (cmp a b).
Proof.
  unfold cmp. rewrite (bytes_cmp_antisym (key b) (key a)). destruct (bytes_cmp (key b) (key a)); cbn; try done.
  rewrite (Nat.compare_antisym (source_priority b) (source_priority a)). destruct (Nat.compare (source_priority b) (source_priority a)); cbn; try done.
  apply Z.compare_antisym.
Qed.

(** Keys first, then priorities, then sequence numbers. *)
Lemma scan_before_iff a b : before cmp a b <->
  bytes_lt (key a) (key b) \/ key a = key b /\ ((source_priority a < source_priority b)%nat \/
    source_priority a = source_priority b /\ sequence a <= sequence b).
Proof.
  unfold before, cmp. destruct (bytes_cmp (key b) (key a)) eqn:E.
  - apply bytes_cmp_eq in E as ->. destruct (Nat.compare_spec (source_priority b) (source_priority a)).
    + destruct (Z.compare_spec (sequence b) (sequence a)); split; intros; try lia; try done;
        try (right; split; [done|]; right; lia). destruct H1 as [H1|[_ [H1|H1]]]; [by apply bytes_lt_irrefl in H1|lia|lia].
    + split; [done|]. intros [H1|[_ [H1|H1]]]; [by apply bytes_lt_irrefl in H1|lia|lia].
    + split; [|done]. intros _. right. split; [done|]. by left.
  - split; [done|]. intros [H1|[H1 _]].
    + exfalso. apply (bytes_lt_irrefl (key a)). by eapply bytes_lt_trans.
    + rewrite H1, bytes_cmp_refl in E. done.
  - apply bytes_cmp_gt in E. split; [|done]. intros _. by left.
Qed.

Lemma scan_before_trans a b c : before cmp a b -> before cmp b c -> before cmp a c.
Proof.
  rewrite !scan_before_iff. intros [H1|[H1 H1']] [H2|[H2 H2']].
  - left. by eapply bytes_lt_trans.
  - left. by rewrite <- H2.
  - left. by rewrite H1.
  - right. split; [congruence|]. lia.
Qed.

Lemma entries_before p l : sorted_by Entry.key l -> StronglySorted (before cmp) (entry_of p <$> l).
Proof.
  induction l as [|e l IH]; intros Hs; [constructor|]. apply sorted_by_cons in Hs as [Hs Hgt]. cbn. constructor; [auto|].
  apply Forall_fmap. eapply Forall_impl; [exact Hgt|]. intros x Hx. cbn. apply scan_before_iff. by left.
Qed.

Definition sources_from (k : nat) (ls : list (list Entry.t)) : list (@source nat) :=
  omap (fun p : nat * list Entry.t => match p.2 with [] => None | _ => Some (Source p.1 p.2 0) end) (zip (seq k (length ls)) ls).

Lemma sources_from_cons k l ls : all_rest entry_of (sources_from k (l :: ls)) = (entry_of k <$> l) ++ all_rest entry_of (sources_from (S k) ls).
Proof. unfold sources_from. cbn. by destruct l. Qed.

Lemma sources_from_elem ls : forall k x, x ∈ all_rest entry_of (sources_from k ls) <->
  exists i l e, ls !! i = Some l /\ e ∈ l /\ x = entry_of (k + i) e.
Proof.
  induction ls as [|l ls IH]; intros k x.
  - split; [intros H; by apply not_elem_of_nil in H|]. intros (i & l & e & H & _). done.
  - rewrite sources_from_cons, elem_of_app, IH, list_elem_of_fmap. split.
    + intros [(e & -> & He)|(i & l' & e & Hi & He & ->)].
      * exists 0%nat, l, e. by rewrite Nat.add_0_r.
      * exists (S i), l', e. split_and!; try done. f_equal. lia.
    + intros (i & l' & e & Hi & He & ->). destruct i as [|i]; cbn in Hi.
      * injection Hi as ->. left. exists e. by rewrite Nat.add_0_r.
      * right. exists i, l', e. split_and!; try done. f_equal. lia.
Qed.

Lemma sources_sorted_from ls : forall k, Forall (sorted_by Entry.key) ls -> sources_sorted entry_of cmp (sources_from k ls).
Proof.
  induction ls as [|l ls IH]; intros k Hs; [apply Forall_nil_2|]. apply Forall_cons in Hs as [Hl Hs]. specialize (IH (S k) Hs).
  unfold sources_from in *. cbn. destruct l as [|e l]; [done|]. constructor; [|exact IH]. unfold rest_of. cbn [tag items pos]. rewrite drop_0.
  by apply entries_before.
Qed.

(** The source that decides is the first one that has the key. *)
Lemma lookup_sources_first k ls i l e : Forall (sorted_by Entry.key) ls -> ls !! i = Some l -> e ∈ l -> Entry.key e = k ->
  (forall j l' e', ls !! j = Some l' -> e' ∈ l' -> Entry.key e' = k -> (i <= j)%nat) -> lookup_sources k ls = Some e.
Proof.
  revert i. induction ls as [|l0 ls IH]; intros i Hs Hi He Hk Hmin; [done|]. apply Forall_cons in Hs as [Hl0 Hs]. cbn [lookup_sources].
  destruct i as [|i]; cbn in Hi.
  - injection Hi as ->. by rewrite (TableSpec.find_key_Some k l e Hl0 He Hk).
  - rewrite TableSpec.find_key_None.
    + apply (IH i); auto. intros j l' e' Hj He' Hk'. specialize (Hmin (S j) l' e' Hj He' Hk'). lia.
    + apply Forall_forall. intros e' He' Hk'. specialize (Hmin 0%nat l0 e' eq_refl He' Hk'). lia.
Qed.

Lemma lookup_sources_None k ls : (forall i l e, ls !! i = Some l -> e ∈ l -> Entry.key e <> k) -> lookup_sources k ls = None.
Proof.
  induction ls as [|l0 ls IH]; intros Hno; [done|]. cbn [lookup_sources]. rewrite TableSpec.find_key_None.
  - apply IH. intros i l e Hi. by apply (Hno (S i) l e).
  - apply Forall_forall. intros e He. by apply (Hno 0%nat l0 e).
Qed.

Lemma merged_first k ls : Forall (sorted_by Entry.key) ls ->
  (fun e => (value e)) <$> first_of key k (merged entry_of cmp (sources ls)) = (fun e => inline (Entry.value e)) <$> lookup_sources k ls.
Proof.
  intros Hs. destruct (merged_spec entry_of cmp scan_cmp_antisym scan_before_trans (sources ls) (sources_sorted_from ls 0 Hs)) as [Hsort Hperm].
  assert (Helem : forall x, x ∈ merged entry_of cmp (sources ls) <-> exists i l e, ls !! i = Some l /\ e ∈ l /\ x = entry_of i e).
  { intros x. rewrite Hperm. apply (sources_from_elem ls 0). }
  destruct (first_of key k _) as [x|] eqn:Ef.
  - pose proof (first_of_Some _ _ _ _ Ef) as [Hx Hk]. apply Helem in Hx as (i & l & e & Hi & He & ->).
    rewrite (lookup_sources_first k ls i l e Hs Hi He Hk); [done|]. intros j l' e' Hj He' Hk'.
    assert (Hb : before cmp (entry_of i e) (entry_of j e')).
    { apply (first_of_least key (before cmp) k _ _ _ (before_refl cmp scan_cmp_antisym) Hsort Ef); [|done]. apply Helem. eauto 10. }
    apply scan_before_iff in Hb as [Hlt|[_ Hp]].
    + cbn in Hlt. cbn in Hk. rewrite Hk, Hk' in Hlt. by apply bytes_lt_irrefl in Hlt.
    + cbn in Hp. lia.
  - rewrite lookup_sources_None; [done|]. intros i l e Hi He Hk. apply first_of_None in Ef. rewrite Forall_forall in Ef.
    apply (Ef (entry_of i e)); [|done]. apply Helem. eauto 10.
Qed.

Lemma merged_keys ls : Forall (sorted_by Entry.key) ls -> keys_from key None (merged entry_of cmp (sources ls)).
Proof.
  intros Hs. destruct (merged_spec entry_of cmp scan_cmp_antisym scan_before_trans (sources ls) (sources_sorted_from ls 0 Hs)) as [Hsort _].
  split; [|done]. eapply sorted_weaken; [|exact Hsort]. cbn. intros a b Hb. apply scan_before_iff in Hb as [Hlt|[-> _]]; [by apply bytes_lt_le|apply bytes_le_refl].
Qed.
End ScanSpec.

(** ** Compaction *)

Module CompactionSpec.
Import Compaction.

Abbreviation mkey := (fun e : MergeEntry => Entry.key (entry e)).

Lemma merge_cmp_antisym a b : cmp b a = CompOpp (cmp a b).
Proof.
  unfold cmp. rewrite (bytes_cmp_antisym (mkey b) (mkey a)). destruct (bytes_cmp (mkey b) (mkey a)); cbn; try done. apply Z.compare_antisym.
Qed.

Lemma merge_before_iff a b : before cmp a b <-> bytes_lt (mkey a) (mkey b) \/ mkey a = mkey b /\ Entry.sequence (entry a) <= Entry.sequence (entry b).
Proof.
  unfold before, cmp. destruct (bytes_cmp (mkey b) (mkey a)) eqn:E.
  - apply bytes_cmp_eq in E as ->. destruct (Z.compare_spec (Entry.sequence (entry b)) (Entry.sequence (entry a))) as [Hz|Hz|Hz].
    + split; [|done]. intros _. right. split; [done|lia].
    + split; [done|]. intros [H1|[_ H1]]; [by apply bytes_lt_irrefl in H1|lia].
    + split; [|done]. intros _. right. split; [done|lia].
  - split; [done|]. intros [H1|[H1 _]].
    + exfalso. apply (bytes_lt_irrefl (mkey a)). by eapply bytes_lt_trans.
    + rewrite H1, bytes_cmp_refl in E. done.
  - apply bytes_cmp_gt in E. split; [|done]. intros _. by left.
Qed.

Lemma merge_before_trans a b c : before cmp a b -> before cmp b c -> before cmp a c.
Proof.
  rewrite !merge_before_iff. intros [H1|[H1 H1']] [H2|[H2 H2']].
  - left. by eapply bytes_lt_trans.
  - left. by rewrite <- H2.
  - left. by rewrite H1.
  - right. split; [congruence|lia].
Qed.

(** The sources made from a list of loaded tables. *)
Definition tagged (f : Z -> nat * Z) (ps : list (Z * list Entry.t)) : list (@source (nat * Z)) :=
  omap (fun p : Z * list Entry.t => match p.2 with [] => None | _ => Some (Source (f p.1) p.2 0) end) ps.

Lemma tagged_sorted f ps : Forall (fun p : Z * list Entry.t => sorted_by Entry.key p.2) ps -> sources_sorted entry_of cmp (tagged f ps).
Proof.
  induction ps as [|[n es] ps IH]; intros Hps; [apply Forall_nil_2|]. apply Forall_cons in Hps as [Hes Hps]. specialize (IH Hps).
  cbn in *. destruct es as [|e es]; [done|]. constructor; [|done]. unfold rest_of. cbn [tag items pos]. rewrite drop_0.
  clear IH. revert Hes. generalize (e :: es) as l. induction l as [|x l IHl]; intros Hes; [constructor|]. apply sorted_by_cons in Hes as [Hes Hgt].
  cbn. constructor; [auto|]. apply Forall_fmap. eapply Forall_impl; [exact Hgt|]. intros y Hy. apply merge_before_iff. by left.
Qed.

Lemma tagged_elem f ps e : e ∈ entry <$> all_rest entry_of (tagged f ps) <-> exists p, p ∈ ps /\ e ∈ p.2.
Proof.
  induction ps as [|[n es] ps IH].
  - split; [intros H; by apply not_elem_of_nil in H|]. intros (p & Hp & _). by apply not_elem_of_nil in Hp.
  - assert (Hcons : all_rest entry_of (tagged f ((n, es) :: ps)) = (entry_of (f n) <$> es) ++ all_rest entry_of (tagged f ps)) by (cbn; by destruct es).
    rewrite Hcons, fmap_app, elem_of_app, IH, <- list_fmap_compose.
    replace (entry ∘ entry_of (f n) <$> es) with es by (symmetry; apply list_fmap_id).
    split; [intros [He|(p & Hp & He)]; [exists (n, es)|exists p]; split; try done; [apply list_elem_of_here|by apply list_elem_of_further]|].
    intros (p & Hp & He). apply elem_of_cons in Hp as [->|Hp]; eauto.
Qed.

Lemma dedup_elem l : forall pk e, keys_from Entry.key pk l -> e ∈ dedup_loop pk l <->
  pk <> Some (Entry.key e) /\ first_of Entry.key (Entry.key e) l = Some e /\ is_Some (Entry.value e).
Proof.
  induction l as [|x l IH]; intros pk e Hkf; cbn [dedup_loop].
  { split; [intros H; by apply not_elem_of_nil in H|]. intros (_ & H & _). done. }
  pose proof (keys_from_tail Entry.key pk x l Hkf) as [Hkf1 Hkf2]. rewrite first_of_cons.
  destruct (decide (pk = Some (Entry.key x))) as [->|Hne].
  - rewrite (IH _ _ Hkf2). case_decide as Hk; [|done]. rewrite Hk. naive_solver.
  - assert (Hin : e ∈ dedup_loop (Some (Entry.key x)) l <->
      Entry.key x <> Entry.key e /\ pk <> Some (Entry.key e) /\ first_of Entry.key (Entry.key e) l = Some e /\ is_Some (Entry.value e)).
    { rewrite (IH _ _ Hkf1). split.
      - intros (Hk & Hf & Hv). split_and!; [congruence| |done|done]. apply first_of_Some in Hf as [He' _]. by eapply keys_from_fresh.
      - intros (Hk & _ & Hf & Hv). split_and!; [congruence|done|done]. }
    case_decide as Hk; destruct (Entry.value x) as [v|] eqn:Ev; rewrite ?elem_of_cons, Hin; split.
    + intros [->|?]; [|naive_solver]. rewrite Ev. split_and!; [done|done|by eexists].
    + intros (_ & [= ->] & _). by left.
    + naive_solver.
    + intros (_ & [= ->] & [w Hw]). congruence.
    + intros [->|?]; naive_solver.
    + naive_solver.
    + naive_solver.
    + naive_solver.
Qed.

Lemma dedup_sorted l : forall pk, keys_from Entry.key pk l -> sorted_by Entry.key (dedup_loop pk l) /\
  match pk with Some k => all_gt Entry.key k (dedup_loop pk l) | None => True end.
Proof.
  induction l as [|e l IH]; intros pk Hkf; cbn [dedup_loop]; [split; [apply sorted_by_nil|destruct pk; [apply Forall_nil_2|done]]|].
  pose proof (keys_from_tail Entry.key pk e l Hkf) as [Hkf1 Hkf2]. destruct (decide (pk = Some (Entry.key e))) as [->|Hne]; [by apply IH|].
  destruct (IH _ Hkf1) as [Hs Hgt]. pose proof (keys_from_head Entry.key pk e l Hkf Hne) as Hpk.
  assert (Hpk' : match pk with Some k => all_gt Entry.key k (dedup_loop (Some (Entry.key e)) l) | None => True end).
  { destruct pk as [k|]; [|done]. eapply all_gt_trans; [exact Hgt|]. by apply bytes_lt_le. }
  destruct (Entry.value e) as [v|]; [|by split]. split; [by apply sorted_by_cons|]. destruct pk; [|done]. by constructor.
Qed.

(** An entry of the tables with the lowest sequence number of its key. *)
Definition oldest_of (ps : list (Z * list Entry.t)) (e : Entry.t) : Prop :=
  (exists p, p ∈ ps /\ e ∈ p.2) /\
  forall p e', p ∈ ps -> e' ∈ p.2 -> Entry.key e' = Entry.key e -> Entry.sequence e <= Entry.sequence e'.
End CompactionSpec.

(** The loop of the merge, for sorted tables. *)
Lemma compaction_merged lvl src tgt : Forall (fun p : Z * list Entry.t => sorted_by Entry.key p.2) (src ++ tgt) ->
  let l := Compaction.merge_loaded lvl src tgt in
  StronglySorted (fun a b => bytes_lt (Entry.key a) (Entry.key b) \/ Entry.key a = Entry.key b /\ Entry.sequence a <= Entry.sequence b) l /\
  forall e, e ∈ l <-> exists p, p ∈ src ++ tgt /\ e ∈ p.2.
Proof.
  intros [Hsrc Htgt]%Forall_app l.
  destruct (merged_spec Compaction.entry_of Compaction.cmp CompactionSpec.merge_cmp_antisym CompactionSpec.merge_before_trans
    (Compaction.iterators lvl src tgt)) as [Hsort Hperm].
  { apply Forall_app. split; [by apply (CompactionSpec.tagged_sorted (fun n => (lvl, n)))|by apply (CompactionSpec.tagged_sorted (fun n => (S lvl, n)))]. }
  split.
  - clear Hperm. unfold l, Compaction.merge_loaded. induction Hsort as [|x r _ IH Hall]; cbn; constructor; auto. apply Forall_fmap.
    eapply Forall_impl; [exact Hall|]. intros y Hy. by apply CompactionSpec.merge_before_iff.
  - intros e. unfold l, Compaction.merge_loaded. rewrite Hperm. unfold Compaction.iterators. rewrite all_rest_app, fmap_app, elem_of_app.
    pose proof (CompactionSpec.tagged_elem (fun n => (lvl, n)) src e) as E1. pose proof (CompactionSpec.tagged_elem (fun n => (S lvl, n)) tgt e) as E2.
    unfold CompactionSpec.tagged in E1, E2. rewrite E1, E2. setoid_rewrite elem_of_app. naive_solver.
Qed.

Lemma compaction_keys lvl src tgt : Forall (fun p : Z * list Entry.t => sorted_by Entry.key p.2) (src ++ tgt) ->
  keys_from Entry.key None (Compaction.merge_loaded lvl src tgt).
Proof.
  intros Hs. destruct (compaction_merged lvl src tgt Hs) as [Hsort _].
  split; [|done]. eapply sorted_weaken; [|exact Hsort]. cbn. intros a b [Hlt|[-> _]]; [by apply bytes_lt_le|apply bytes_le_refl].
Qed.

(** The first entry of a key in the merge is the oldest of the inputs. *)
Lemma compaction_first lvl src tgt e : Forall (fun p : Z * list Entry.t => sorted_by Entry.key p.2) (src ++ tgt) ->
  first_of Entry.key (Entry.key e) (Compaction.merge_loaded lvl src tgt) = Some e -> CompactionSpec.oldest_of (src ++ tgt) e.
Proof.
  intros Hs Hf. destruct (compaction_merged lvl src tgt Hs) as [Hsort Hin]. split.
  - apply Hin. by apply first_of_Some in Hf as [? _].
  - intros p e' Hp He' Hk. assert (Hin' : e' ∈ Compaction.merge_loaded lvl src tgt) by (apply Hin; eauto).
    eapply (first_of_least Entry.key) in Hsort as [Hlt|[_ Hle]]; [|exact Hle|intros y; right; split; [done|lia]|exact Hf|exact Hin'|exact Hk].
    rewrite Hk in Hlt. by apply bytes_lt_irrefl in Hlt.
Qed.

(** ** Properties *)

(** C13. A range scan sees the newest version of every key: merging sources
    ordered from newest to oldest, each sorted by key, yields the keys in
    strictly increasing order (decreasing when reversed), each with the inline
    value of the first source that has the key; a key whose newest version is a
    tombstone or a blob reference is left out. *)
Theorem scan_merge (ls : list (list Entry.t)) : Forall (sorted_by Entry.key) ls ->
  let es := LSMIterator.entries (LSMIterator.merge ls false) in
  sorted_by fst es /\
  (forall k, to_map es !! k = e ← ScanSpec.lookup_sources k ls; LSMIterator.inline (Entry.value e)) /\
  LSMIterator.entries (LSMIterator.merge ls true) = rev es.
Proof.
  intros Hs es. pose proof (ScanSpec.merged_keys ls Hs) as Hkf.
  destruct (ScanSpec.keep_first_sorted _ _ Hkf) as [Hsort _]. split_and!; [exact Hsort| |done].
  intros k. apply option_eq. intros v. rewrite (to_map_elem es k v Hsort). unfold es. cbn [LSMIterator.merge LSMIterator.entries].
  rewrite (ScanSpec.keep_first_elem _ None k v Hkf). pose proof (ScanSpec.merged_first k ls Hs) as Hf.
  destruct (first_of LSMIterator.key k _) as [x|] eqn:E1, (ScanSpec.lookup_sources k ls) as [e|] eqn:E2; cbn in *; [|done|done|].
  - injection Hf as Hf. rewrite <- Hf. split; [intros (_ & e0 & [= <-] & Hv); done|]. intros Hv. split; [done|]. by exists x.
  - split; [|done]. intros (_ & ? & ? & _). done.
Qed.


(** Compaction undoes updates and deletions: of two versions of a key the
    one with the lower sequence number is kept, although the comment says the
    newest is; a newer value or tombstone is dropped. *)
Theorem compaction_keeps_oldest (k v_old : list Z) (v_new : option (list Z)) (s_old s_new : Z) : s_old < s_new ->
  Compaction.deduplicate_and_filter
    (Compaction.merge_loaded 0 [(2, [Entry.new k v_new s_new])] [(1, [Entry.new k (Some v_old) s_old])]) = [Entry.new k (Some v_old) s_old].
Proof.
  intros Hlt. unfold Compaction.merge_loaded, merged, Compaction.iterators. cbn.
  unfold greater, Compaction.cmp. cbn. rewrite bytes_cmp_refl. rewrite (proj2 (Z.compare_gt_iff s_new s_old)) by done. cbn.
  unfold Compaction.deduplicate_and_filter. cbn. by rewrite decide_False, decide_True.
Qed.

(** ** Instances at concrete inputs *)

Module MergeWitness.

Definition mem : list Entry.t := [Entry.new [1] (Some [10]) 5; Entry.new [3] None 6].
Definition old : list Entry.t := [Entry.new [1] (Some [9]) 1; Entry.new [2] (Some [20]) 2; Entry.new [3] (Some [30]) 3].

Lemma mem_old_sorted : Forall (sorted_by Entry.key) [mem; old].
Proof.
  repeat constructor; unfold sorted_by; cbn; repeat (constructor; [|repeat (constructor; [by vm_compute|]); constructor]); constructor.
Qed.

Lemma scan_merge_witness : LSMIterator.entries (LSMIterator.merge [mem; old] true) = [([2], [20]); ([1], [10])].
Proof. destruct (scan_merge [mem; old] mem_old_sorted) as (_ & _ & ->). reflexivity. Defined.


Lemma compaction_keeps_oldest_witness :
  Compaction.deduplicate_and_filter
    (Compaction.merge_loaded 0 [(2, [Entry.new [7] None 9])] [(1, [Entry.new [7] (Some [1]) 4])]) = [Entry.new [7] (Some [1]) 4].
Proof. apply (compaction_keeps_oldest [7] [1] None 4 9). lia. Defined.

End MergeWitness.
