(* ===== verification/LsmEngine.v ===== *)
(** * LSM engine

    Models nanograph-lsm/src/engine.rs and options.rs: logging, the active and
    the immutable memtable, flushing to level 0, the manifest, recovery from
    the log, point reads through every level, compaction and clearing.

    The engine's state is explicit; its locks and atomics are fields.  A
    method is a state and error action.  The tables, the manifest and the blob
    files live on a [Disk] whose operations fail only on missing or existing
    paths, as the in-memory file system's do; the log lives in files of any
    [File].  serde_json, which writes the manifest, is a parameter.  Error
    messages are abbreviated and metrics left out. *)

From Stdlib Require Import ZArith Lia.
From stdpp Require Import gmap option strings base list.
From S2P Require Import Prelude BTreeError VfsFile Integrity Wal LsmRecord LsmMemtable LsmSSTable LsmBlob LsmMerge.

Open Scope Z_scope.

(** The options the engine reads; encryption and value separation are never
    consulted. *)
Record LSMTreeOptions : Type := Options {
  opt_shard_id : Z;
  opt_integrity : IntegrityAlgorithm;
  opt_compression : CompressionAlgorithm;
  opt_memtable_size : Z;
  opt_block_size : Z;
  opt_durability : Durability
}.

Definition default_options : LSMTreeOptions := Options 0 NoIntegrity NoCompression (64 * 1024 * 1024) 4096 Buffered.

Definition with_shard_id (o : LSMTreeOptions) (s : Z) : LSMTreeOptions :=
  Options s (opt_integrity o) (opt_compression o) (opt_memtable_size o) (opt_block_size o) (opt_durability o).

Module Level.

Record t : Type := mk { level_number : nat; sstables : list SSTableMetadata; total_size : Z }.

Definition new (n : nat) : t := mk n [] 0.

Definition add_sstable (l : t) (m : SSTableMetadata) : t :=
  mk (level_number l) (sstables l ++ [m]) (u64 (total_size l + file_size m)).

(** [position] and [remove]. *)
Definition remove_sstable (l : t) (n : Z) : t :=
  match list_find (fun s => file_number s = n) (sstables l) with
  | Some (pos, removed) => mk (level_number l) (vec_remove pos (sstables l)) (u64 (total_size l - file_size removed))
  | None => l
  end.

Definition needs_compaction (l : t) (max_size : Z) : bool :=
  if (level_number l =? 0)%nat then (4 <=? length (sstables l))%nat else max_size <? total_size l.

End Level.

Record ManifestEntry : Type := MEntryOf { entry_file_number : Z; entry_level : nat; entry_metadata : SSTableMetadata }.

(** serde_json on the manifest; a failure is [None]. *)
Class ManifestCodec : Type := {
  to_vec_pretty : list ManifestEntry -> option (list Z);
  from_slice : list Z -> option (list ManifestEntry)
}.

(** A manifest can be written, and reads back as what was written. *)
Class ManifestLaws `{!ManifestCodec} : Prop := {
  manifest_law m : exists b, to_vec_pretty m = Some b /\ from_slice b = Some m
}.

(** The files under [base_path]: [<n>.sst], [MANIFEST] and [blobs/<id>.blob]. *)
Record Disk : Type := DiskOf { sst : gmap Z (list Z); manifest : option (list Z); blobs : gmap Z (list Z) }.

Definition with_sst (d : Disk) (m : gmap Z (list Z)) : Disk := DiskOf m (manifest d) (blobs d).

Record LevelStats : Type := LStats { stat_level : nat; num_sstables : nat; stat_total_size : Z }.

Record EngineStats : Type := EStats {
  stat_memtable_size : Z;
  stat_immutable_size : Z;
  stat_writes : Z;
  stat_reads : Z;
  stat_flushes : Z;
  stat_compactions : Z;
  stat_levels : list LevelStats
}.

Module LSMTreeEngine.

Record t (FS F : Type) : Type := mk {
  options : LSMTreeOptions;
  wal : WriteAheadLogManager.t FS F;
  flushed_lsn : option LogSequenceNumber;
  blob_log : BlobLog.t;
  memtable : MemTable.t;
  immutable_memtable : option MemTable.t;
  levels : list Level.t;
  next_file_number : Z;
  flush_in_progress : bool;
  compaction_in_progress : bool;
  disk : Disk;
  global_timestamp : Z;
  wall_clock : Z;
  total_writes : Z;
  total_reads : Z;
  total_flushes : Z;
  total_compactions : Z
}.
Arguments mk {FS F} _ _ _ _ _ _ _ _ _ _ _ _ _ _ _ _ _.
Arguments options {FS F} _.
Arguments wal {FS F} _.
Arguments flushed_lsn {FS F} _.
Arguments blob_log {FS F} _.
Arguments memtable {FS F} _.
Arguments immutable_memtable {FS F} _.
Arguments levels {FS F} _.
Arguments next_file_number {FS F} _.
Arguments flush_in_progress {FS F} _.
Arguments compaction_in_progress {FS F} _.
Arguments disk {FS F} _.
Arguments global_timestamp {FS F} _.
Arguments wall_clock {FS F} _.
Arguments total_writes {FS F} _.
Arguments total_reads {FS F} _.
Arguments total_flushes {FS F} _.
Arguments total_compactions {FS F} _.

Section setters.
Context {FS F : Type}.

Definition set_wal (v : WriteAheadLogManager.t FS F) (e : t FS F) : t FS F :=
  mk (options e) v (flushed_lsn e) (blob_log e) (memtable e) (immutable_memtable e) (levels e) (next_file_number e) (flush_in_progress e) (compaction_in_progress e) (disk e) (global_timestamp e) (wall_clock e) (total_writes e) (total_reads e) (total_flushes e) (total_compactions e).
Definition set_flushed_lsn (v : option LogSequenceNumber) (e : t FS F) : t FS F :=
  mk (options e) (wal e) v (blob_log e) (memtable e) (immutable_memtable e) (levels e) (next_file_number e) (flush_in_progress e) (compaction_in_progress e) (disk e) (global_timestamp e) (wall_clock e) (total_writes e) (total_reads e) (total_flushes e) (total_compactions e).
Definition set_memtable (v : MemTable.t) (e : t FS F) : t FS F :=
  mk (options e) (wal e) (flushed_lsn e) (blob_log e) v (immutable_memtable e) (levels e) (next_file_number e) (flush_in_progress e) (compaction_in_progress e) (disk e) (global_timestamp e) (wall_clock e) (total_writes e) (total_reads e) (total_flushes e) (total_compactions e).
Definition set_immutable_memtable (v : option MemTable.t) (e : t FS F) : t FS F :=
  mk (options e) (wal e) (flushed_lsn e) (blob_log e) (memtable e) v (levels e) (next_file_number e) (flush_in_progress e) (compaction_in_progress e) (disk e) (global_timestamp e) (wall_clock e) (total_writes e) (total_reads e) (total_flushes e) (total_compactions e).
Definition set_levels (v : list Level.t) (e : t FS F) : t FS F :=
  mk (options e) (wal e) (flushed_lsn e) (blob_log e) (memtable e) (immutable_memtable e) v (next_file_number e) (flush_in_progress e) (compaction_in_progress e) (disk e) (global_timestamp e) (wall_clock e) (total_writes e) (total_reads e) (total_flushes e) (total_compactions e).
Definition set_next_file_number (v : Z) (e : t FS F) : t FS F :=
  mk (options e) (wal e) (flushed_lsn e) (blob_log e) (memtable e) (immutable_memtable e) (levels e) v (flush_in_progress e) (compaction_in_progress e) (disk e) (global_timestamp e) (wall_clock e) (total_writes e) (total_reads e) (total_flushes e) (total_compactions e).
Definition set_flush_in_progress (v : bool) (e : t FS F) : t FS F :=
  mk (options e) (wal e) (flushed_lsn e) (blob_log e) (memtable e) (immutable_memtable e) (levels e) (next_file_number e) v (compaction_in_progress e) (disk e) (global_timestamp e) (wall_clock e) (total_writes e) (total_reads e) (total_flushes e) (total_compactions e).
Definition set_compaction_in_progress (v : bool) (e : t FS F) : t FS F :=
  mk (options e) (wal e) (flushed_lsn e) (blob_log e) (memtable e) (immutable_memtable e) (levels e) (next_file_number e) (flush_in_progress e) v (disk e) (global_timestamp e) (wall_clock e) (total_writes e) (total_reads e) (total_flushes e) (total_compactions e).
Definition set_disk (v : Disk) (e : t FS F) : t FS F :=
  mk (options e) (wal e) (flushed_lsn e) (blob_log e) (memtable e) (immutable_memtable e) (levels e) (next_file_number e) (flush_in_progress e) (compaction_in_progress e) v (global_timestamp e) (wall_clock e) (total_writes e) (total_reads e) (total_flushes e) (total_compactions e).
Definition set_global_timestamp (v : Z) (e : t FS F) : t FS F :=
  mk (options e) (wal e) (flushed_lsn e) (blob_log e) (memtable e) (immutable_memtable e) (levels e) (next_file_number e) (flush_in_progress e) (compaction_in_progress e) (disk e) v (wall_clock e) (total_writes e) (total_reads e) (total_flushes e) (total_compactions e).
Definition set_total_writes (v : Z) (e : t FS F) : t FS F :=
  mk (options e) (wal e) (flushed_lsn e) (blob_log e) (memtable e) (immutable_memtable e) (levels e) (next_file_number e) (flush_in_progress e) (compaction_in_progress e) (disk e) (global_timestamp e) (wall_clock e) v (total_reads e) (total_flushes e) (total_compactions e).
Definition set_total_reads (v : Z) (e : t FS F) : t FS F :=
  mk (options e) (wal e) (flushed_lsn e) (blob_log e) (memtable e) (immutable_memtable e) (levels e) (next_file_number e) (flush_in_progress e) (compaction_in_progress e) (disk e) (global_timestamp e) (wall_clock e) (total_writes e) v (total_flushes e) (total_compactions e).
Definition set_total_flushes (v : Z) (e : t FS F) : t FS F :=
  mk (options e) (wal e) (flushed_lsn e) (blob_log e) (memtable e) (immutable_memtable e) (levels e) (next_file_number e) (flush_in_progress e) (compaction_in_progress e) (disk e) (global_timestamp e) (wall_clock e) (total_writes e) (total_reads e) v (total_compactions e).
Definition set_total_compactions (v : Z) (e : t FS F) : t FS F :=
  mk (options e) (wal e) (flushed_lsn e) (blob_log e) (memtable e) (immutable_memtable e) (levels e) (next_file_number e) (flush_in_progress e) (compaction_in_progress e) (disk e) (global_timestamp e) (wall_clock e) (total_writes e) (total_reads e) (total_flushes e) v.
End setters.

(** ** The state and error monad of [&self] methods *)

Section monad.
Context {FS F : Type}.

Definition eng (A : Type) : Type := t FS F -> kv_result A * t FS F.

Definition ret {A} (a : A) : eng A := fun e => (Ok a, e).
Definition lift {A} (r : kv_result A) : eng A := fun e => (r, e).
Definition read {A} (f : t FS F -> A) : eng A := fun e => (Ok (f e), e).
Definition modify (f : t FS F -> t FS F) : eng unit := fun e => (Ok tt, f e).

Definition bind {A B} (m : eng A) (k : A -> eng B) : eng B :=
  fun e =>
    match m e with
    | (Ok a, e') => k a e'
    | (Err x, e') => (Err x, e')
    | (Panic, e') => (Panic, e')
    | (Timeout, e') => (Timeout, e')
    end.

(** Run [m], then [f] whatever [m] returned; a panic unwinds past [f]. *)
Definition finally {A} (m : eng A) (f : t FS F -> t FS F) : eng A :=
  fun e =>
    match m e with
    | (Panic, e') => (Panic, e')
    | (r, e') => (r, f e')
    end.
End monad.
Arguments eng : clear implicits.

#[local] Notation "x <~ m ;; k" := (bind m (fun x => k)) (at level 100, m at next level, right associativity).
#[local] Notation "m ;;; k" := (bind m (fun _ => k)) (at level 100, right associativity).

Section engine.
Context `{!Integrity.Hashes} `{!Codecs} `{!ManifestCodec}.
Context {FS F : Type} `{!File F} `{!WriteAheadLogManager.FileSystemOps FS F}.
Context (segment_path : string -> Z -> string).

Abbreviation eng := (eng FS F).

(** ** Time and the log *)

(** [fetch_add] on an [i64]. *)
Definition next_timestamp : eng Z :=
  fun e => (Ok (global_timestamp e), set_global_timestamp (signed 64 (global_timestamp e + 1)) e).

Definition wal_err {A} (r : wal_result A) : kv_result A :=
  match r with
  | Ok a => Ok a
  | Err _ => Err (KvStorageCorruption "WAL")
  | Panic => Panic
  | Timeout => Timeout
  end.

(** The writer shares the manager's active segment. *)
Definition append_record (k : WalRecordKind) (payload : list Z) (d : Durability) : eng unit :=
  fun e =>
    let m := wal e in
    let '(r, w) := WriteAheadLogWriter.append (WriteAheadLogManager.active_segment m) (Record_ (to_u16 k) payload) d in
    (wal_err (let! _ := r in Ok tt),
     set_wal (WriteAheadLogManager.mk (WriteAheadLogManager.file_system m) (WriteAheadLogManager.root_folder m)
                (WriteAheadLogManager.shard_id m) w (WriteAheadLogManager.archived_segments m)) e).

Definition write_checkpoint (sequence file_number : Z) : eng unit :=
  d <~ read (fun e => opt_durability (options e));;
  append_record Checkpoint (encode_checkpoint sequence file_number) d.

Definition write_flush_complete (file_number level : Z) : eng unit :=
  d <~ read (fun e => opt_durability (options e));;
  append_record FlushComplete (encode_flush_complete file_number level) d.

(** ** Manifest *)

Definition manifest_of (ls : list Level.t) : list ManifestEntry :=
  ls ≫= (fun l => (fun m => MEntryOf (file_number m) (Level.level_number l) m) <$> Level.sstables l).

Definition save_manifest : eng unit :=
  fun e =>
    match to_vec_pretty (manifest_of (levels e)) with
    | None => (Err (KvStorageCorruption "serde_json"), e)
    | Some contents => (Ok tt, set_disk (DiskOf (sst (disk e)) (Some contents) (blobs (disk e))) e)
    end.

Definition restore_entry (e : t FS F) (m : ManifestEntry) : t FS F :=
  match levels e !! entry_level m with
  | None => e
  | Some l =>
      let e := set_levels (<[entry_level m := Level.add_sstable l (entry_metadata m)]> (levels e)) e in
      if next_file_number e <=? entry_file_number m then set_next_file_number (u64 (entry_file_number m + 1)) e else e
  end.

Definition load_manifest : eng unit :=
  fun e =>
    match manifest (disk e) with
    | None => (Ok tt, e)
    | Some contents =>
        match from_slice contents with
        | None => (Err (KvStorageCorruption "serde_json"), e)
        | Some ms => (Ok tt, foldl restore_entry e ms)
        end
    end.

(** ** Writes *)

Definition apply_memtable (f : MemTable.t -> MemTable.t) : eng unit := modify (fun e => set_memtable (f (memtable e)) e).

Definition count_write : eng unit := modify (fun e => set_total_writes (u64 (total_writes e + 1)) e).

(** ** Compaction *)

(** The files of replaced tables; a missing one is ignored. *)
Definition remove_files (ms : list SSTableMetadata) (e : t FS F) : t FS F :=
  set_disk (with_sst (disk e) (foldl (fun d m => delete (file_number m) d) (sst (disk e)) ms)) e.

Definition update_level (i : nat) (f : Level.t -> Level.t) : eng unit :=
  fun e =>
    match levels e !! i with
    | Some l => (Ok tt, set_levels (<[i := f l]> (levels e)) e)
    | None => (Panic, e)
    end.

(** [for m in ms { levels[i]... }]: no index is taken when there is nothing to do. *)
Fixpoint update_each {A} (i : nat) (f : Level.t -> A -> Level.t) (ms : list A) : eng unit :=
  match ms with
  | [] => ret tt
  | m :: ms' => update_level i (fun l => f l m);;; update_each i f ms'
  end.

Definition compact_level : eng unit :=
  modify (fun e => set_total_compactions (u64 (total_compactions e + 1)) e);;;
  snapshots <~ read (fun e => Level.sstables <$> levels e);;
  base <~ read (fun e => opt_memtable_size (options e));;
  task <~ lift (Compaction.select_compaction Compaction.default_strategy snapshots base);;
  match task with
  | None => ret tt
  | Some task =>
      opts <~ read options;;
      files <~ read (fun e => sst (disk e));;
      next <~ read next_file_number;;
      now <~ read wall_clock;;
      out <~ lift (Compaction.execute (Compaction.Executor (opt_block_size opts) (opt_compression opts)) now files task next);;
      let '(new_sstables, files, next) := out in
      modify (fun e => set_disk (with_sst (disk e) files) e);;;
      modify (set_next_file_number next);;;
      update_each (Compaction.task_source_level task) (fun l m => Level.remove_sstable l (file_number m)) (Compaction.source_sstables task);;;
      update_each (Compaction.task_target_level task) (fun l m => Level.remove_sstable l (file_number m)) (Compaction.target_sstables task);;;
      update_each (Compaction.task_target_level task) Level.add_sstable new_sstables;;;
      save_manifest;;;
      modify (remove_files (Compaction.source_sstables task ++ Compaction.target_sstables task))
  end.

Fixpoint compact_first (i : nat) (ls : list Level.t) : eng unit :=
  match ls with
  | [] => ret tt
  | l :: ls' =>
      size <~ read (fun e => opt_memtable_size (options e));;
      let max_size := if (i =? 0)%nat then 0 else u64 (size * 10 ^ Z.of_nat i) in
      if Level.needs_compaction l max_size then compact_level else compact_first (S i) ls'
  end.

Definition compact_if_needed : eng unit := ls <~ read levels;; compact_first 0 ls.

Definition maybe_compact : eng unit :=
  busy <~ read compaction_in_progress;;
  if (busy : bool) then ret tt
  else
    modify (set_compaction_in_progress true);;;
    finally compact_if_needed (set_compaction_in_progress false).

Definition compact : eng unit := maybe_compact.

(** ** Flush *)

Definition rotate_wal : eng unit :=
  tail <~ read (fun e => WriteAheadLogManager.tail_lsn (wal e));;
  modify (set_flushed_lsn (Some tail));;;
  fun e =>
    let '(r, m) := WriteAheadLogManager.truncate_before segment_path (wal e) tail in
    (wal_err r, set_wal m e).

(** A file left by an earlier process is removed first.  What a failed write
    leaves in the new file is not modelled: no table refers to it. *)
Definition write_table (es : list Entry.t) (n : Z) : eng SSTableMetadata :=
  fun e =>
    let o := options e in
    match SSTable.create es n 0 (opt_block_size o) (opt_compression o) (wall_clock e) with
    | Ok (bytes, meta) => (Ok meta, set_disk (with_sst (disk e) (<[n := bytes]> (sst (disk e)))) e)
    | Err _ => (Err (KvStorageCorruption "SSTable"), set_disk (with_sst (disk e) (<[n := []]> (sst (disk e)))) e)
    | Panic => (Panic, e)
    | Timeout => (Timeout, e)
    end.

Definition flush_immutable_memtable : eng unit :=
  immutable <~ read immutable_memtable;;
  match immutable with
  | None => ret tt
  | Some mt =>
      if MemTable.is_empty mt then ret tt
      else
        let sequence := MemTable.current_sequence mt in
        match MemTable.entries mt with
        | [] => ret tt
        | es =>
            n <~ read next_file_number;;
            modify (set_next_file_number (u64 (n + 1)));;;
            meta <~ write_table es n;;
            write_checkpoint sequence n;;;
            update_level 0 (fun l => Level.add_sstable l meta);;;
            write_flush_complete n 0;;;
            modify (fun e => set_total_flushes (u64 (total_flushes e + 1)) e);;;
            save_manifest;;;
            rotate_wal;;;
            maybe_compact
        end
  end.

(** The two critical sections around the flush; [begin_flush] says whether the
    caller goes on. *)
Definition begin_flush : eng bool :=
  fun e =>
    if flush_in_progress e then (Ok false, e)
    else
      match immutable_memtable e with
      | Some _ => (Ok false, set_flush_in_progress false e)
      | None => (Ok true, set_immutable_memtable (Some (memtable e)) (set_memtable MemTable.new (set_flush_in_progress true e)))
      end.

Definition end_flush (e : t FS F) : t FS F := set_flush_in_progress false (set_immutable_memtable None e).

Definition maybe_flush_memtable : eng unit :=
  go <~ begin_flush;;
  if (go : bool) then finally flush_immutable_memtable end_flush else ret tt.

Definition flush : eng unit := maybe_flush_memtable.

(** The end of every write: flush when the memtable has reached its size. *)
Definition flush_if_full : eng unit :=
  full <~ read (fun e => opt_memtable_size (options e) <=? MemTable.size (memtable e));;
  if (full : bool) then maybe_flush_memtable else ret tt.

Definition put (key value : list Z) : eng unit :=
  d <~ read (fun e => opt_durability (options e));;
  append_record Put (encode_put key value) d;;;
  commit_ts <~ next_timestamp;;
  apply_memtable (fun m => (MemTable.put_committed m key value commit_ts).1);;;
  count_write;;;
  flush_if_full.

Definition put_committed (key value : list Z) (commit_ts : Z) (d : Durability) : eng unit :=
  append_record PutCommitted (encode_put_committed key value commit_ts) d;;;
  apply_memtable (fun m => (MemTable.put_committed m key value commit_ts).1);;;
  count_write;;;
  flush_if_full.

Definition delete (key : list Z) : eng unit :=
  d <~ read (fun e => opt_durability (options e));;
  append_record Delete (encode_delete key) d;;;
  commit_ts <~ next_timestamp;;
  apply_memtable (fun m => (MemTable.delete_committed m key commit_ts).1);;;
  count_write;;;
  flush_if_full.

Definition delete_committed (key : list Z) (commit_ts : Z) (d : Durability) : eng unit :=
  append_record DeleteCommitted (encode_delete_committed key commit_ts) d;;;
  apply_memtable (fun m => (MemTable.delete_committed m key commit_ts).1);;;
  count_write;;;
  flush_if_full.

Definition checkpoint : eng unit :=
  sequence <~ read (fun e => MemTable.current_sequence (memtable e));;
  n <~ read next_file_number;;
  append_record Checkpoint (encode_checkpoint sequence n) Sync;;;
  save_manifest.

(** Commit a pending entry where it is found first. *)
Definition commit_entry (key : list Z) (commit_ts : Z) : eng unit :=
  fun e =>
    match MemTable.commit_entry (memtable e) key commit_ts with
    | (m, true) => (Ok tt, set_memtable m e)
    | (_, false) =>
        match immutable_memtable e with
        | Some im => (Ok tt, set_immutable_memtable (Some (MemTable.commit_entry im key commit_ts).1) e)
        | None => (Ok tt, e)
        end
    end.

(** ** Reads *)

Definition resolve_value (e : t FS F) (v : ValueLocation) : kv_result (list Z) :=
  match v with
  | Inline data => Ok data
  | Blob r =>
      let! file := ok_or (blobs (disk e) !! file_id r) (KvStorageCorruption "Failed to open blob file") in
      Compaction.corruption "Failed to read blob" (BlobLog.read_blob (Stream 0 file) r)
  end.

Definition resolve_entry (e : t FS F) (entry : Entry.t) : kv_result (option (list Z)) :=
  match Entry.value entry with
  | Some v => let! data := resolve_value e v in Ok (Some data)
  | None => Ok None
  end.

(** [if let Ok(mut file) = .. { if let Ok(Some(entry)) = .. }]: errors are passed over. *)
Definition table_get (e : t FS F) (m : SSTableMetadata) (key : list Z) : kv_result (option Entry.t) :=
  match sst (disk e) !! file_number m with
  | None => Ok None
  | Some file =>
      match SSTable.get file key (opt_integrity (options e)) with
      | Ok r => Ok r
      | Err _ => Ok None
      | Panic => Panic
      | Timeout => Timeout
      end
  end.

Fixpoint search_level0 (e : t FS F) (key : list Z) (ms : list SSTableMetadata) : kv_result (option Entry.t) :=
  match ms with
  | [] => Ok None
  | m :: ms' =>
      if bool_decide (bytes_le (min_key m) key) && bool_decide (bytes_le key (max_key m)) then
        let! r := table_get e m key in
        match r with Some entry => Ok (Some entry) | None => search_level0 e key ms' end
      else search_level0 e key ms'
  end.

Definition range_probe (key : list Z) (m : SSTableMetadata) : comparison :=
  if bool_decide (bytes_lt key (min_key m)) then Gt
  else if bool_decide (bytes_lt (max_key m) key) then Lt else Eq.

Fixpoint search_levels (e : t FS F) (key : list Z) (ls : list Level.t) : kv_result (option Entry.t) :=
  match ls with
  | [] => Ok None
  | l :: ls' =>
      match binary_search_by (range_probe key) (Level.sstables l) with
      | Found idx =>
          let! m := or_panic (Level.sstables l !! idx) in
          let! r := table_get e m key in
          match r with Some entry => Ok (Some entry) | None => search_levels e key ls' end
      | NotFound _ => search_levels e key ls'
      end
  end.

Definition search_tables (e : t FS F) (key : list Z) : kv_result (option Entry.t) :=
  match levels e with
  | [] => Panic
  | l0 :: ls =>
      let! r := search_level0 e key (rev (Level.sstables l0)) in
      match r with Some entry => Ok (Some entry) | None => search_levels e key ls end
  end.

Definition count_read : eng unit := modify (fun e => set_total_reads (u64 (total_reads e + 1)) e).

(** [get] and [get_at_snapshot] differ in how they read a memtable. *)
Definition read_with (look : MemTable.t -> option Entry.t) (key : list Z) : eng (option (list Z)) :=
  count_read;;;
  fun e =>
    match look (memtable e) with
    | Some entry => (resolve_entry e entry, e)
    | None =>
        match (im ← immutable_memtable e; look im) with
        | Some entry => (resolve_entry e entry, e)
        | None =>
            (let! r := search_tables e key in
             match r with Some entry => resolve_entry e entry | None => Ok None end, e)
        end
    end.

Definition get (key : list Z) : eng (option (list Z)) := read_with (fun m => MemTable.get m key) key.
Definition get_at_snapshot (key : list Z) (snapshot_ts : Z) : eng (option (list Z)) :=
  read_with (fun m => MemTable.get_at_snapshot m key snapshot_ts) key.

(** ** Recovery *)

Definition recovery_fuel (file : F) : nat :=
  match get_size file with Ok n => S (Z.to_nat n) | _ => 1 end.

(** The error text names segment 0, offset 0. *)
Definition at_log_start (x : WriteAheadLogError) : bool :=
  match x with Corruption lsn => (lsn_segment lsn =? 0) && (lsn_offset lsn =? 0) | _ => false end.

(** A record replayed by [recover_from_wal]; one that does not decode is an error. *)
Definition replay_record (kind : Z) (payload : list Z) : eng unit :=
  match from_u16 kind with
  | Some Put =>
      kv <~ lift (decode_put payload);;
      ts <~ next_timestamp;;
      apply_memtable (fun m => (MemTable.put_committed m kv.1 kv.2 ts).1)
  | Some PutCommitted =>
      kvt <~ lift (decode_put_committed payload);;
      apply_memtable (fun m => (MemTable.put_committed m kvt.1.1 kvt.1.2 kvt.2).1)
  | Some Delete =>
      key <~ lift (decode_delete payload);;
      ts <~ next_timestamp;;
      apply_memtable (fun m => (MemTable.delete_committed m key ts).1)
  | Some DeleteCommitted =>
      kt <~ lift (decode_delete_committed payload);;
      apply_memtable (fun m => (MemTable.delete_committed m kt.1 kt.2).1)
  | Some Commit | Some Checkpoint | Some FlushComplete | None => ret tt
  end.

Fixpoint recover_loop (fuel : nat) (file : F) (r : WriteAheadLogReader.t) : eng unit :=
  match fuel with
  | O => lift Timeout
  | S fuel' =>
      match WriteAheadLogReader.next file r with
      | (Ok (Some entry), r) => replay_record (entry_kind entry) (entry_payload entry);;; recover_loop fuel' file r
      | (Ok None, _) => ret tt
      | (Err x, _) => if at_log_start x then ret tt else lift (Err (KvStorageCorruption "WAL read error"))
      | (Panic, _) => lift Panic
      | (Timeout, _) => lift Timeout
      end
  end.

Definition recover_from_wal : eng unit :=
  rd <~ (fun e => (wal_err (WriteAheadLogManager.reader_from (wal e) LSN_ZERO), e));;
  recover_loop (recovery_fuel rd.2) rd.2 rd.1.

(** A record replayed by [recover]; one that does not decode is skipped. *)
Definition recover_record (kind : Z) (payload : list Z) : eng unit :=
  let skip {A} (r : kv_result A) (k : A -> eng unit) : eng unit :=
    match r with Ok a => k a | Err _ => ret tt | Panic => lift Panic | Timeout => lift Timeout end in
  match from_u16 kind with
  | Some Put => skip (decode_put payload) (fun kv => apply_memtable (fun m => (MemTable.put m kv.1 kv.2).1))
  | Some Delete => skip (decode_delete payload) (fun key => apply_memtable (fun m => (MemTable.delete m key).1))
  | Some PutCommitted =>
      skip (decode_put_committed payload) (fun kvt => apply_memtable (fun m => (MemTable.put_committed m kvt.1.1 kvt.1.2 kvt.2).1))
  | Some DeleteCommitted =>
      skip (decode_delete_committed payload) (fun kt => apply_memtable (fun m => (MemTable.delete_committed m kt.1 kt.2).1))
  | Some Commit => skip (decode_commit payload) (fun _ => ret tt)
  | Some Checkpoint => skip (decode_checkpoint payload) (fun _ => ret tt)
  | Some FlushComplete => skip (decode_flush_complete payload) (fun _ => ret tt)
  | None => ret tt
  end.

Fixpoint recover_all (fuel : nat) (file : F) (r : WriteAheadLogReader.t) : eng unit :=
  match fuel with
  | O => lift Timeout
  | S fuel' =>
      match WriteAheadLogReader.next file r with
      | (Ok (Some entry), r) => recover_record (entry_kind entry) (entry_payload entry);;; recover_all fuel' file r
      | (Ok None, _) | (Err _, _) => ret tt
      | (Panic, _) => lift Panic
      | (Timeout, _) => lift Timeout
      end
  end.

Definition recover : eng unit :=
  rd <~ (fun e => (wal_err (WriteAheadLogManager.reader_from (wal e) (WriteAheadLogManager.head_lsn (wal e))), e));;
  recover_all (recovery_fuel rd.2) rd.2 rd.1.

(** [clock] is the process-wide timestamp counter the engine continues. *)
Definition new (d : Disk) (opts : LSMTreeOptions) (w : WriteAheadLogManager.t FS F) (clock now : Z) : kv_result unit * t FS F :=
  let e := mk opts w None BlobLog.new MemTable.new None (Level.new <$> seq 0 7) 1 false false d clock now 0 0 0 0 in
  (load_manifest;;; recover_from_wal) e.

(** ** The rest *)

Definition clear : eng unit :=
  modify (fun e => set_immutable_memtable None (set_memtable (MemTable.clear (memtable e)) e));;;
  modify (fun e => remove_files (levels e ≫= Level.sstables) e);;;
  modify (fun e => set_levels ((fun l => Level.mk (Level.level_number l) [] 0) <$> levels e) e);;;
  save_manifest;;;
  fun e =>
    let '(_, m) := WriteAheadLogManager.truncate_before segment_path (wal e) (WriteAheadLogManager.head_lsn (wal e)) in
    (Ok tt, set_wal m e).

Definition shard_id (e : t FS F) : Z := opt_shard_id (options e).

Definition stats (e : t FS F) : EngineStats :=
  EStats (MemTable.size (memtable e)) (match immutable_memtable e with Some m => MemTable.size m | None => 0 end)
    (total_writes e) (total_reads e) (total_flushes e) (total_compactions e)
    ((fun l => LStats (Level.level_number l) (length (Level.sstables l)) (Level.total_size l)) <$> levels e).
End engine.

End LSMTreeEngine.
