(* ===== verification/LsmEngineInv.v ===== *)
(** * The invariant of the LSM engine

    Ties the state of LsmEngine.v to the operations in its log: replaying the
    log gives the map of last writes, and so does looking a key up in the
    memtable, the immutable memtable and the tables of level 0, newest first.
    Every step of the engine that does not compact keeps it. *)

From Stdlib Require Import ZArith Lia.
From stdpp Require Import sorting gmap option strings base list.
From S2P Require Import Prelude BTreeError VfsFile Integrity Wal WalSpec LsmRecord LsmMemtable LsmSSTable LsmSSTableSpec LsmBlob LsmMerge LsmEngine.

Open Scope Z_scope.

(** The last write of every key; [Some None] is a deletion. *)
Abbreviation writes := (gmap (list Z) (option (list Z))).

Definition write_op (m : writes) (o : WalOp) : writes :=
  match o with
  | OpPut k v | OpPutCommitted k v _ => <[k := Some v]> m
  | OpDelete k | OpDeleteCommitted k _ => <[k := None]> m
  | OpCommit _ | OpCheckpoint _ _ | OpFlushComplete _ _ => m
  end.

Definition last_writes (ops : list WalOp) : writes := foldl write_op ∅ ops.

Lemma last_writes_snoc ops o : last_writes (ops ++ [o]) = write_op (last_writes ops) o.
Proof. unfold last_writes. by rewrite foldl_app. Qed.

Lemma rev_fmap {A B} (f : A -> B) (l : list A) : rev (f <$> l) = f <$> rev l.
Proof. induction l as [|x l IH]; [done|]. cbn. by rewrite IH, fmap_app. Qed.

(** ** Memtables *)

(** An entry the engine makes: its value is inline and fits the formats. *)
Definition plain (e : Entry.t) : Prop :=
  entry_ok e /\ match Entry.value e with Some (Blob _) => False | _ => True end.

Definition mem_ok (m : MemTable.t) : Prop :=
  sorted_by fst (MemTable.data m) /\ Forall (fun b => Entry.key b.2 = b.1 /\ plain b.2) (MemTable.data m) /\ u64_ok (MemTable.sequence m).

Definition mem_view (m : MemTable.t) (k : list Z) : option (option (list Z)) := Entry.inline_value <$> MemTable.get m k.

Lemma new_mem_ok : mem_ok MemTable.new.
Proof. split_and!; [apply sorted_by_nil|constructor|done]. Qed.

Lemma u64_range x : u64_ok (u64 x).
Proof. apply (wrap_range 64). lia. Qed.

Lemma store_mem_ok m k e : mem_ok m -> Entry.key e = k -> plain e -> mem_ok (MemTable.store m k e).
Proof.
  intros (Hs & Hf & Hq) Hk He. unfold mem_ok. rewrite store_data. split_and!.
  - by apply BTreeMap.insert_sorted_by.
  - destruct (BTreeMap.insert_view k e _ Hs) as [(l1 & l2 & Hd & _ & _ & ->)|(l1 & v0 & l2 & Hd & _ & _ & ->)]; cbn [snd]; rewrite Hd in Hf;
      rewrite !Forall_app, ?Forall_cons in *; naive_solver.
  - unfold MemTable.store. destruct (BTreeMap.insert _ _ _). apply u64_range.
Qed.

Lemma store_view m k e k' : mem_ok m ->
  mem_view (MemTable.store m k e) k' = if decide (k = k') then Some (Entry.inline_value e) else mem_view m k'.
Proof.
  intros (Hs & _). unfold mem_view, MemTable.get. rewrite !BTreeMap.get_to_map, store_data by (rewrite ?store_data; auto using BTreeMap.insert_sorted_by).
  rewrite BTreeMap.insert_to_map, lookup_insert by done. by case_decide.
Qed.

Lemma store_length m k e : mem_ok m -> (length (MemTable.data (MemTable.store m k e)) <= S (length (MemTable.data m)))%nat.
Proof.
  intros (Hs & _). rewrite store_data.
  destruct (BTreeMap.insert_view k e _ Hs) as [(l1 & l2 & Hd & _ & _ & ->)|(l1 & v0 & l2 & Hd & _ & _ & ->)]; cbn [snd]; rewrite Hd, !length_app; cbn; lia.
Qed.

(** What a flush writes. *)
Lemma mem_entries m : mem_ok m -> sorted_by Entry.key (MemTable.entries m) /\ Forall plain (MemTable.entries m) /\
  forall k, TableSpec.find_key k (MemTable.entries m) = MemTable.get m k.
Proof.
  intros (Hs & Hf & _). assert (Hk : Entry.key <$> MemTable.entries m = (MemTable.data m).*1).
  { unfold MemTable.entries. rewrite <- list_fmap_compose. apply list_fmap_ext. intros i b Hb. cbn.
    rewrite Forall_forall in Hf. apply (Hf b). by eapply list_elem_of_lookup_2. }
  assert (Hse : sorted_by Entry.key (MemTable.entries m)) by (unfold sorted_by; by rewrite Hk).
  split_and!; [done| |].
  - unfold MemTable.entries. apply Forall_fmap. eapply Forall_impl; [exact Hf|]. by intros b [_ ?].
  - intros k. unfold MemTable.get. rewrite BTreeMap.get_to_map by done. destruct (to_map (MemTable.data m) !! k) as [e|] eqn:E.
    + apply (to_map_elem _ _ _ Hs) in E. apply TableSpec.find_key_Some; [done| |].
      * unfold MemTable.entries. apply list_elem_of_fmap. by exists (k, e).
      * rewrite Forall_forall in Hf. by apply (Hf (k, e)).
    + apply TableSpec.find_key_None, Forall_forall. intros e He Hke. unfold MemTable.entries in He.
      apply list_elem_of_fmap in He as ([k' e'] & -> & He). pose proof He as Hin. rewrite Forall_forall in Hf. apply Hf in He as [He _]. cbn in *. subst.
      apply (to_map_elem _ _ _ Hs) in Hin. congruence.
Qed.

(** ** The log *)

Section log.
Context `{!Integrity.Hashes} `{!Integrity.HashLaws} `{!Codecs} `{!CodecLaws} `{!ManifestCodec} `{!ManifestLaws}.
Context {FS F : Type} `{!File F} `{!FileLaws F} `{!WriteAheadLogManager.FileSystemOps FS F}.
Abbreviation manager := (WriteAheadLogManager.t FS F).
Abbreviation engine := (LSMTreeEngine.t FS F).
Implicit Types (e : engine) (m : manager) (ops : list WalOp) (mt : MemTable.t) (lw : writes).

(** Operations whose record fits the log format. *)
Definition logged (o : WalOp) : Prop := op_ok o /\ plen (encode_op o) < 2 ^ 32.

(** The manager's one segment holds the records of [ops] behind a valid header. *)
Definition log_ok m ops : Prop :=
  WriteAheadLogManager.archived_segments m = [] /\ Forall logged ops /\
  exists header h, LogSpec.holds (WriteAheadLogManager.active_segment m) header (record_of <$> ops) /\
    length header = HEADER_SIZE /\ HeaderSpec.header_ok h /\
    WriteAheadLogSegmentHeader.encode h (replicate HEADER_SIZE 0) = Some header /\
    WriteAheadLogFile.shard_id (WriteAheadLogManager.active_segment m) = WriteAheadLogSegmentHeader.shard_id h /\
    WriteAheadLogFile.segment_id (WriteAheadLogManager.active_segment m) = 0 /\ WriteAheadLogSegmentHeader.segment_id h = 0 /\
    WriteAheadLogFile.start_offset (WriteAheadLogManager.active_segment m) = WriteAheadLogSegmentHeader.start_offset h /\
    WriteAheadLogFile.integrity (WriteAheadLogManager.active_segment m) = WriteAheadLogSegmentHeader.integrity h.

Definition log_tail m : Z := WriteAheadLogFile.write_offset (WriteAheadLogManager.active_segment m).

Lemma logged_record o : logged o -> LogSpec.record_ok (record_of o).
Proof. intros [_ Hl]. split; [destruct o; cbn; lia|exact Hl]. Qed.

Lemma append_spec e ops o d : log_ok (LSMTreeEngine.wal e) ops -> logged o -> log_tail (LSMTreeEngine.wal e) + plen (encode_op o) + 14 < 2 ^ 64 ->
  exists m, LSMTreeEngine.append_record (op_kind o) (encode_op o) d e = (Ok tt, LSMTreeEngine.set_wal m e) /\ log_ok m (ops ++ [o]) /\
    log_tail m = log_tail (LSMTreeEngine.wal e) + plen (encode_op o) + 14.
Proof using All.
  intros (Harch & Hops & header & h & Hw & Hlen & Hh & Henc & Hs & Hg & Hgh & Hst & Hi) Ho Hroom. unfold LSMTreeEngine.append_record, WriteAheadLogWriter.append.
  set (w := WriteAheadLogManager.active_segment (LSMTreeEngine.wal e)) in *. change (Record_ (to_u16 (op_kind o)) (encode_op o)) with (record_of o).
  assert (Hb : Z.of_nat (length (WriteAheadLogFile.record_bytes (WriteAheadLogFile.integrity w) (record_of o))) = plen (encode_op o) + 14).
  { rewrite LogSpec.length_record_bytes. unfold plen. cbn. lia. }
  destruct (LogSpec.append_holds w header _ (record_of o) Hw) as (w1 & -> & Hw1 & Hoff & Hs1 & Hg1 & Hst1 & Hi1).
  { rewrite Hb. unfold log_tail in Hroom. fold w in Hroom. lia. }
  unfold WriteAheadLogWriter.finish.
  destruct (LogSpec.apply_durability_holds w1 header _ d Hw1) as (w2 & -> & Hw2 & Hs2 & Hg2 & Hst2 & Hi2). cbn [rbind LSMTreeEngine.wal_err].
  eexists. split; [done|]. split.
  - split_and!; [done|by apply Forall_app; split; [|constructor]|]. exists header, h. rewrite fmap_app. cbn. split_and!; try done; congruence.
  - unfold log_tail in *. fold w in Hroom |- *. cbn. destruct Hw1 as (Hb1 & Ho1 & _), Hw2 as (Hb2 & Ho2 & _). rewrite Ho2, Hb2, Hi2, <- Hb1, <- Ho1, Hoff, Hb. lia.
Qed.

(** ** Recovery *)

(** An engine with another memtable and clock. *)
Definition evolve (mt : MemTable.t) (ts : Z) e : engine := LSMTreeEngine.set_global_timestamp ts (LSMTreeEngine.set_memtable mt e).

Lemma evolve_evolve mt ts mt' ts' e : evolve mt' ts' (evolve mt ts e) = evolve mt' ts' e.
Proof. done. Qed.

Lemma evolve_id e : e = evolve (LSMTreeEngine.memtable e) (LSMTreeEngine.global_timestamp e) e.
Proof. by destruct e. Qed.

(** The entry a write of [v] makes. *)
Lemma plain_entry mt k v ts : mem_ok mt -> len_ok k -> match v with Some v => len_ok v | None => True end ->
  plain (Entry.with_commit_ts k v (MemTable.sequence mt) ts) /\ Entry.inline_value (Entry.with_commit_ts k v (MemTable.sequence mt) ts) = v.
Proof.
  intros (_ & _ & Hq) Hk Hv. unfold plain, entry_ok, u64_ok, len_ok, plen, zlen in *.
  destruct v as [v|]; cbn [Entry.with_commit_ts Entry.key Entry.value Entry.sequence fmap option_fmap option_map value_ok]; unfold zlen; split_and!; try done; lia.
Qed.

Lemma write_entry mt k v ts : mem_ok mt -> len_ok k -> match v with Some v => len_ok v | None => True end ->
  let mt' := MemTable.store mt k (Entry.with_commit_ts k v (MemTable.sequence mt) ts) in
  mem_ok mt' /\ (forall k', mem_view mt' k' = if decide (k = k') then Some v else mem_view mt k') /\
  (length (MemTable.data mt') <= S (length (MemTable.data mt)))%nat.
Proof.
  intros Hm Hk Hv mt'. destruct (plain_entry mt k v ts Hm Hk Hv) as [Hp Hi]. split_and!; [by apply store_mem_ok| |by apply store_length].
  intros k'. unfold mt'. rewrite store_view by done. by rewrite Hi.
Qed.

Definition views (mt : MemTable.t) (lw : writes) : Prop := mem_ok mt /\ forall k, mem_view mt k = lw !! k.

Lemma views_store mt lw k v ts : views mt lw -> len_ok k -> match v with Some v => len_ok v | None => True end ->
  views (MemTable.store mt k (Entry.with_commit_ts k v (MemTable.sequence mt) ts)) (<[k := v]> lw).
Proof.
  intros [Hm Hv] Hk Hval. destruct (write_entry mt k v ts Hm Hk Hval) as (Hm' & Hv' & _). split; [done|].
  intros k'. rewrite Hv', lookup_insert. by case_decide.
Qed.

Lemma replay_record_spec o e lw : op_ok o -> views (LSMTreeEngine.memtable e) lw ->
  exists mt ts, LSMTreeEngine.replay_record (to_u16 (op_kind o)) (encode_op o) e = (Ok tt, evolve mt ts e) /\ views mt (write_op lw o).
Proof.
  intros Ho Hv. unfold LSMTreeEngine.replay_record. rewrite kind_tag.
  pose proof (decode_op_encode o [] Ho) as Hd. rewrite app_nil_r in Hd.
  destruct o; cbn [op_kind encode_op decode_op write_op op_ok] in *; destruct_and?; try (eexists _, _; split; [rewrite (evolve_id e) at 1; done|done]).
  - apply rbind_ok in Hd as ([k' v'] & Hd & [= -> ->]). unfold LSMTreeEngine.bind at 1, LSMTreeEngine.lift. rewrite Hd.
    eexists _, _. split; [done|]. by apply views_store.
  - apply rbind_ok in Hd as (k' & Hd & [= ->]). unfold LSMTreeEngine.bind at 1, LSMTreeEngine.lift. rewrite Hd.
    eexists _, _. split; [done|]. by apply (views_store _ _ _ None).
  - apply rbind_ok in Hd as ([[k' v'] ts'] & Hd & [= -> -> ->]). unfold LSMTreeEngine.bind at 1, LSMTreeEngine.lift. rewrite Hd.
    eexists _, (LSMTreeEngine.global_timestamp e). split; [done|]. by apply views_store.
  - apply rbind_ok in Hd as ([k' ts'] & Hd & [= -> ->]). unfold LSMTreeEngine.bind at 1, LSMTreeEngine.lift. rewrite Hd.
    eexists _, (LSMTreeEngine.global_timestamp e). split; [done|]. by apply (views_store _ _ _ None).
Qed.

Lemma recover_loop_spec f alg ops : forall pre fuel e lw, bytes_of f = pre ++ LogSpec.log_bytes alg (record_of <$> ops) ->
  Forall logged ops -> Z.of_nat (length (bytes_of f)) < 2 ^ 64 -> (length ops < fuel)%nat -> views (LSMTreeEngine.memtable e) lw ->
  exists mt ts, LSMTreeEngine.recover_loop fuel f (WriteAheadLogReader.mk 0 (Z.of_nat (length pre)) alg) e = (Ok tt, evolve mt ts e) /\
    views mt (foldl write_op lw ops).
Proof using All.
  induction ops as [|o ops IH]; intros pre [|fuel] e lw Hf Hops Hmax Hfuel Hv; try (cbn in Hfuel; lia).
  - cbn [LSMTreeEngine.recover_loop]. rewrite LogSpec.next_end by (cbn; by rewrite Hf, app_nil_r). eexists _, _. split; [|done].
    unfold LSMTreeEngine.ret. by rewrite <- evolve_id.
  - apply Forall_cons in Hops as [Ho Hops]. cbn [LSMTreeEngine.recover_loop]. rewrite fmap_cons, LogSpec.log_bytes_cons in Hf.
    rewrite (LogSpec.next_record _ _ _ _ _ _ Hf (logged_record o Ho) Hmax). cbn [entry_kind entry_payload kind payload record_of].
    destruct (replay_record_spec o e lw (proj1 Ho) Hv) as (mt & ts & Hrun & Hv'). unfold LSMTreeEngine.bind. rewrite Hrun.
    rewrite app_assoc in Hf. cbn [length] in Hfuel.
    destruct (IH _ fuel (evolve mt ts e) _ Hf Hops Hmax ltac:(lia) Hv') as (mt2 & ts2 & -> & Hv2). rewrite evolve_evolve. eauto.
Qed.

Lemma log_bytes_length alg ops : (length ops <= length (LogSpec.log_bytes alg (record_of <$> ops)))%nat.
Proof.
  induction ops as [|o ops IH]; [done|]. rewrite fmap_cons, LogSpec.log_bytes_cons, length_app, LogSpec.length_record_bytes. cbn [length]. lia.
Qed.

Lemma recover_spec e ops : log_ok (LSMTreeEngine.wal e) ops -> views (LSMTreeEngine.memtable e) ∅ ->
  exists mt ts, LSMTreeEngine.recover_from_wal e = (Ok tt, evolve mt ts e) /\ views mt (last_writes ops).
Proof using All.
  intros (_ & Hops & header & h & (Hb & Hwo & Hw64) & Hlen & _ & _ & _ & Hg & _ & _ & Hi) Hv.
  unfold LSMTreeEngine.recover_from_wal, LSMTreeEngine.bind, WriteAheadLogManager.reader_from.
  rewrite Hg. cbn [lsn_segment LSN_ZERO Z.eqb LSMTreeEngine.wal_err fst snd]. unfold WriteAheadLogFile.reader_from_offset. rewrite Hg.
  change (lsn_offset LSN_ZERO) with (Z.of_nat HEADER_SIZE). rewrite <- Hlen.
  unfold LSMTreeEngine.recovery_fuel. rewrite get_size_law, Nat2Z.id.
  apply recover_loop_spec; auto; [lia|]. rewrite Hb, length_app. pose proof (log_bytes_length (WriteAheadLogFile.integrity (WriteAheadLogManager.active_segment (LSMTreeEngine.wal e))) ops). lia.
Qed.

(** ** Tables *)

Abbreviation table := (SSTableMetadata * list Entry.t)%type.

(** The file of a table on disk, as it was created from its entries. *)
Definition table_ok (d : gmap Z (list Z)) (tb : table) : Prop :=
  exists bytes bsz now, d !! file_number tb.1 = Some bytes /\
    SSTable.create tb.2 (file_number tb.1) 0 bsz NoCompression now = Ok (bytes, tb.1) /\
    zlen bytes < 2 ^ 64 /\ tb.2 <> [] /\ sorted_by Entry.key tb.2 /\ Forall plain tb.2 /\ zlen tb.2 < 2 ^ 32.

Definition table_view (k : list Z) (tb : table) : option (option (list Z)) := Entry.inline_value <$> TableSpec.find_key k tb.2.

(** Tables listed from newest to oldest. *)
Fixpoint newest_view (k : list Z) (tbs : list table) : option (option (list Z)) :=
  match tbs with
  | [] => None
  | tb :: tbs' => table_view k tb ∪ newest_view k tbs'
  end.

Definition tables_view (tbs : list table) (k : list Z) : option (option (list Z)) := newest_view k (rev tbs).

Lemma tables_view_snoc tbs tb k : tables_view (tbs ++ [tb]) k = table_view k tb ∪ tables_view tbs k.
Proof. unfold tables_view. by rewrite rev_app_distr. Qed.

Lemma find_key_elem k es x : TableSpec.find_key k es = Some x -> x ∈ es /\ Entry.key x = k.
Proof.
  unfold TableSpec.find_key. destruct (list_find _ es) as [[i y]|] eqn:E; [|done]. intros [= <-].
  apply list_find_Some in E as (Hi & Hk & _). split; [by eapply list_elem_of_lookup_2|done].
Qed.

Lemma plain_ok (x : Entry.t) : plain x -> entry_ok x.
Proof. by intros [? _]. Qed.

(** What one table contributes to a lookup. *)
Lemma table_get_spec e tb k : table_ok (sst (LSMTreeEngine.disk e)) tb ->
  LSMTreeEngine.table_get e tb.1 k = Ok (strip <$> TableSpec.find_key k tb.2) /\
  (bool_decide (bytes_le (min_key tb.1) k) && bool_decide (bytes_le k (max_key tb.1)) = false -> TableSpec.find_key k tb.2 = None).
Proof using All.
  intros (bytes & bsz & now & Hd & Hcr & Hsz & Hne & Hs & Hp & Hlen). split.
  - unfold LSMTreeEngine.table_get. rewrite Hd.
    rewrite (created_get tb.2 _ _ _ NoCompression _ k _ _ _ Hne Hs (Forall_impl _ _ _ Hp plain_ok) Hlen ltac:(done) Hcr Hsz). done.
  - intros Hout. apply created_metadata in Hcr as (_ & _ & _ & _ & Hb); [|done].
    destruct (TableSpec.find_key k tb.2) as [x|] eqn:E; [|done]. apply find_key_elem in E as [Hx <-].
    rewrite Forall_forall in Hb. destruct (Hb x Hx) as (H1' & H2' & _). by rewrite !bool_decide_eq_true_2 in Hout.
Qed.

(** A value of a plain entry, and what is found in a table, resolves without a blob. *)
Lemma resolve_plain e x : plain x -> LSMTreeEngine.resolve_entry e x = Ok (Entry.inline_value x) /\
  LSMTreeEngine.resolve_entry e (strip x) = Ok (Entry.inline_value x).
Proof. intros [_ Hv]. unfold LSMTreeEngine.resolve_entry, Entry.inline_value. destruct x as [kx [[d|b]|] sx cx]; done. Qed.

Lemma search_level0_spec e k tbs : Forall (table_ok (sst (LSMTreeEngine.disk e))) tbs ->
  exists r, LSMTreeEngine.search_level0 e k (fst <$> tbs) = Ok (strip <$> r) /\ Entry.inline_value <$> r = newest_view k tbs /\
    match r with Some x => plain x | None => True end.
Proof using All.
  induction tbs as [|tb tbs IH]; intros Ht; [by exists None|]. apply Forall_cons in Ht as [Htb Ht].
  destruct (IH Ht) as (r & Hr & Hv & Hp). destruct (table_get_spec e tb k Htb) as [Hget Hout].
  cbn [fmap list_fmap LSMTreeEngine.search_level0 newest_view]. unfold table_view. destruct (_ && _) eqn:E.
  - rewrite Hget. cbn [rbind]. destruct (TableSpec.find_key k tb.2) as [x|] eqn:Ex; cbn.
    + exists (Some x). split_and!; [done|cbn; by destruct (newest_view k tbs)|]. apply find_key_elem in Ex as [Hx _]. destruct Htb as (? & ? & ? & _ & _ & _ & _ & _ & Hpl & _).
      by rewrite Forall_forall in Hpl; apply Hpl.
    + exists r. rewrite Hv. split_and!; [done| |done]. by destruct (newest_view k tbs).
  - rewrite (Hout eq_refl). exists r. rewrite Hr, Hv. split_and!; [done| |done]. cbn. by destruct (newest_view k tbs).
Qed.

Definition level0 (tbs : list table) : Level.t := foldl Level.add_sstable (Level.new 0) (fst <$> tbs).

Lemma level0_snoc tbs tb : level0 (tbs ++ [tb]) = Level.add_sstable (level0 tbs) tb.1.
Proof. unfold level0. by rewrite fmap_app, foldl_app. Qed.

Lemma level0_sstables tbs : Level.sstables (level0 tbs) = fst <$> tbs /\ Level.level_number (level0 tbs) = 0%nat.
Proof.
  induction tbs as [|tb tbs [IH1 IH2]] using rev_ind; [done|]. rewrite level0_snoc, fmap_app. cbn. by rewrite IH1, IH2.
Qed.

Definition empty_levels : list Level.t := Level.new <$> seq 1 6.

Lemma search_tables_spec e k tbs : LSMTreeEngine.levels e = level0 tbs :: empty_levels -> Forall (table_ok (sst (LSMTreeEngine.disk e))) tbs ->
  exists r, LSMTreeEngine.search_tables e k = Ok (strip <$> r) /\ Entry.inline_value <$> r = tables_view tbs k /\
    match r with Some x => plain x | None => True end.
Proof using All.
  intros Hl Ht. unfold LSMTreeEngine.search_tables. rewrite Hl, (proj1 (level0_sstables tbs)).
  destruct (search_level0_spec e k (rev tbs)) as (r & Hr & Hv & Hp); [by apply Forall_rev|].
  rewrite rev_fmap, Hr. cbn [rbind]. exists r. split_and!; [|done|done]. by destruct r.
Qed.

(** ** The invariant *)

(** Where a flush stands: none, its memtable set aside, or its table written. *)
Inductive phase : Type := Idle | Writing (mt : MemTable.t) | Written (mt : MemTable.t).

Definition imm_view e (k : list Z) : option (option (list Z)) := mt ← LSMTreeEngine.immutable_memtable e; mem_view mt k.

Definition flushing e mt : Prop :=
  LSMTreeEngine.flush_in_progress e = true /\ LSMTreeEngine.immutable_memtable e = Some mt /\ mem_ok mt.

Definition phase_ok e (tbs : list table) (lw : writes) (ph : phase) : Prop :=
  match ph with
  | Idle => LSMTreeEngine.flush_in_progress e = false /\ LSMTreeEngine.immutable_memtable e = None
  | Writing mt => flushing e mt
  | Written mt => flushing e mt /\ forall k, mem_view (LSMTreeEngine.memtable e) k ∪ tables_view tbs k = lw !! k
  end.

Definition manifest_ok e (tbs : list table) : Prop :=
  match manifest (LSMTreeEngine.disk e) with
  | None => tbs = []
  | Some b => from_slice b = Some (LSMTreeEngine.manifest_of (LSMTreeEngine.levels e))
  end.

Record inv e ops (tbs : list table) (ph : phase) : Prop := {
  inv_opts : opt_compression (LSMTreeEngine.options e) = NoCompression;
  inv_log : log_ok (LSMTreeEngine.wal e) ops;
  inv_mem : mem_ok (LSMTreeEngine.memtable e);
  inv_levels : LSMTreeEngine.levels e = level0 tbs :: empty_levels;
  inv_tables : Forall (table_ok (sst (LSMTreeEngine.disk e))) tbs;
  inv_numbers : 0 < LSMTreeEngine.next_file_number e < 2 ^ 64 /\ Forall (fun tb => 0 <= file_number tb.1 < LSMTreeEngine.next_file_number e) tbs;
  inv_manifest : manifest_ok e tbs;
  inv_compaction : LSMTreeEngine.compaction_in_progress e = false;
  inv_phase : phase_ok e tbs (last_writes ops) ph;
  inv_view k : mem_view (LSMTreeEngine.memtable e) k ∪ (imm_view e k ∪ tables_view tbs k) = last_writes ops !! k
}.

Lemma eng_bind_ok {A B} (x : LSMTreeEngine.eng FS F A) (f : A -> LSMTreeEngine.eng FS F B) e a e' :
  x e = (Ok a, e') -> LSMTreeEngine.bind x f e = f a e'.
Proof. unfold LSMTreeEngine.bind. by intros ->. Qed.

Lemma union_None (x : option (option (list Z))) : None ∪ x = x.
Proof. by destruct x. Qed.

Lemma union_Some (v : option (list Z)) x : Some v ∪ x = Some v.
Proof. by destruct x. Qed.

(** *** Reading *)

Lemma read_spec e ops tbs ph k : inv e ops tbs ph ->
  exists e', LSMTreeEngine.get k e = (Ok (mjoin (last_writes ops !! k)), e') /\ inv e' ops tbs ph.
Proof using All.
  intros Hinv. pose proof (inv_view _ _ _ _ Hinv k) as Hv. pose proof (inv_mem _ _ _ _ Hinv) as Hm.
  set (e' := LSMTreeEngine.set_total_reads (u64 (LSMTreeEngine.total_reads e + 1)) e). exists e'. split; [|by destruct Hinv].
  unfold LSMTreeEngine.get, LSMTreeEngine.read_with. rewrite (eng_bind_ok _ _ e tt e') by done.
  assert (Hplain : forall mt x, mem_ok mt -> MemTable.get mt k = Some x -> plain x).
  { intros mt x Hmt Hx. destruct (mem_entries mt Hmt) as (_ & Hp & Hf). rewrite <- Hf in Hx. apply find_key_elem in Hx as [Hx _].
    rewrite Forall_forall in Hp. auto. }
  unfold mem_view in Hv. change (LSMTreeEngine.memtable e') with (LSMTreeEngine.memtable e).
  destruct (MemTable.get (LSMTreeEngine.memtable e) k) as [x|] eqn:Ex.
  { cbn [fmap option_fmap option_map] in Hv. rewrite union_Some in Hv. rewrite <- Hv.
    by rewrite (proj1 (resolve_plain e' x (Hplain _ _ Hm Ex))). }
  cbn [fmap option_fmap option_map] in Hv. rewrite union_None in Hv. unfold imm_view in Hv.
  change (LSMTreeEngine.immutable_memtable e') with (LSMTreeEngine.immutable_memtable e).
  assert (Him : forall mt, LSMTreeEngine.immutable_memtable e = Some mt -> mem_ok mt).
  { intros mt Hmt. pose proof (inv_phase _ _ _ _ Hinv) as Hph. unfold phase_ok, flushing in Hph. destruct ph; naive_solver congruence. }
  destruct (LSMTreeEngine.immutable_memtable e) as [mt|] eqn:Eim; cbn [mbind option_bind] in Hv |- *.
  - unfold mem_view in Hv. destruct (MemTable.get mt k) as [x|] eqn:Ey.
    { cbn [fmap option_fmap option_map] in Hv. rewrite union_Some in Hv. rewrite <- Hv.
      by rewrite (proj1 (resolve_plain e' x (Hplain _ _ (Him _ eq_refl) Ey))). }
    cbn [fmap option_fmap option_map] in Hv. rewrite union_None in Hv.
    destruct (search_tables_spec e' k tbs (inv_levels _ _ _ _ Hinv) (inv_tables _ _ _ _ Hinv)) as (r & -> & Hr & Hp). cbn [rbind].
    rewrite <- Hv, <- Hr. destruct r as [x|]; [|done]. cbn. by rewrite (proj2 (resolve_plain e' x Hp)).
  - rewrite union_None in Hv.
    destruct (search_tables_spec e' k tbs (inv_levels _ _ _ _ Hinv) (inv_tables _ _ _ _ Hinv)) as (r & -> & Hr & Hp). cbn [rbind].
    rewrite <- Hv, <- Hr. destruct r as [x|]; [|done]. cbn. by rewrite (proj2 (resolve_plain e' x Hp)).
Qed.

(** *** Flushing *)

Context (segment_path : string -> Z -> string).

Lemma compact_nothing e tbs : LSMTreeEngine.levels e = level0 tbs :: empty_levels -> (length tbs < 4)%nat ->
  LSMTreeEngine.compaction_in_progress e = false -> LSMTreeEngine.maybe_compact e = (Ok tt, e).
Proof.
  intros Hl Hlen Hc. unfold LSMTreeEngine.maybe_compact. rewrite (eng_bind_ok _ _ e false e) by (unfold LSMTreeEngine.read; by rewrite Hc).
  cbv beta iota. erewrite eng_bind_ok by done. unfold LSMTreeEngine.finally, LSMTreeEngine.compact_if_needed.
  assert (H0' : forall n, Level.needs_compaction (level0 tbs) n = false).
  { intros n. unfold Level.needs_compaction. destruct (level0_sstables tbs) as [-> ->]. cbn [Nat.eqb]. rewrite length_fmap. by apply Nat.leb_gt. }
  assert (Hi : forall (i : nat) n, Level.needs_compaction (Level.new (S i)) (u64 n) = false).
  { intros i n. unfold Level.needs_compaction. cbn [Level.level_number Level.new Nat.eqb Level.total_size]. apply Z.ltb_ge. apply (u64_range n). }
  erewrite eng_bind_ok by done. cbn [LSMTreeEngine.levels LSMTreeEngine.set_compaction_in_progress]. rewrite Hl.
  cbn [LSMTreeEngine.compact_first]. erewrite eng_bind_ok by done. rewrite H0'.
  unfold empty_levels. cbn [seq fmap list_fmap LSMTreeEngine.compact_first]. do 6 (erewrite eng_bind_ok by done; cbn [Nat.eqb]; rewrite Hi).
  destruct e. cbn in *. by subst.
Qed.

Lemma rotate_spec e : WriteAheadLogManager.archived_segments (LSMTreeEngine.wal e) = [] ->
  exists lsn, LSMTreeEngine.rotate_wal segment_path e = (Ok tt, LSMTreeEngine.set_flushed_lsn lsn e).
Proof.
  intros Ha. unfold LSMTreeEngine.rotate_wal. exists (Some (WriteAheadLogManager.tail_lsn (LSMTreeEngine.wal e))). erewrite eng_bind_ok by done. cbv beta. erewrite eng_bind_ok by done. cbv beta.
  unfold WriteAheadLogManager.truncate_before. cbn [LSMTreeEngine.wal LSMTreeEngine.set_flushed_lsn]. rewrite Ha. cbn. do 2 f_equal.
  destruct e as [? [] ? ? ? ? ? ? ? ? ? ? ? ? ? ? ?]. cbn in *. by subst.
Qed.

Lemma save_spec e : exists b, LSMTreeEngine.save_manifest e =
    (Ok tt, LSMTreeEngine.set_disk (DiskOf (sst (LSMTreeEngine.disk e)) (Some b) (blobs (LSMTreeEngine.disk e))) e) /\
  from_slice b = Some (LSMTreeEngine.manifest_of (LSMTreeEngine.levels e)).
Proof using All - segment_path.
  destruct (manifest_law (LSMTreeEngine.manifest_of (LSMTreeEngine.levels e))) as (b & Hb & Hs). exists b.
  unfold LSMTreeEngine.save_manifest. by rewrite Hb.
Qed.

(** Room for one more table: file numbers, level 0 and the log's marker records. *)
Definition flush_room e (mt : MemTable.t) (tbs : list table) : Prop :=
  LSMTreeEngine.next_file_number e + 1 < 2 ^ 64 /\ (length tbs < 3)%nat /\ log_tail (LSMTreeEngine.wal e) + 100 < 2 ^ 64 /\
  Z.of_nat (MemTable.entry_count mt) < 2 ^ 32.

Definition files_fit e : Prop := map_Forall (fun _ (b : list Z) => zlen b < 2 ^ 64) (sst (LSMTreeEngine.disk e)).

Lemma table_ok_insert d n b tb : table_ok d tb -> file_number tb.1 <> n -> table_ok (<[n := b]> d) tb.
Proof. intros (b' & bsz & now & Hd & H') Hne. exists b', bsz, now. by rewrite lookup_insert_ne. Qed.

Lemma logged_checkpoint s n : u64_ok s -> u64_ok n -> logged (OpCheckpoint s n) /\ plen (encode_op (OpCheckpoint s n)) = 16.
Proof.
  intros Hs Hn. assert (Hl : plen (encode_op (OpCheckpoint s n)) = 16)
    by (unfold plen; cbn [encode_op]; unfold encode_checkpoint; by rewrite length_app, !length_le_bytes).
  split; [split; [done|rewrite Hl; lia]|done].
Qed.

Lemma logged_flush n : u64_ok n -> logged (OpFlushComplete n 0) /\ plen (encode_op (OpFlushComplete n 0)) = 12.
Proof.
  intros Hn. assert (Hl : plen (encode_op (OpFlushComplete n 0)) = 12)
    by (unfold plen; cbn [encode_op]; unfold encode_flush_complete; by rewrite length_app, !length_le_bytes).
  split; [split; [done|rewrite Hl; lia]|done].
Qed.

Lemma flush_spec e ops tbs mt : inv e ops tbs (Writing mt) -> flush_room e mt tbs ->
  exists e' ops' tbs', LSMTreeEngine.flush_immutable_memtable segment_path e = (Ok tt, e') /\
    last_writes ops' = last_writes ops /\ (files_fit e' -> inv e' ops' tbs' (Written mt)).
Proof using All.
  intros Hinv (Hnf & Hlen & Hlog & Hcount). destruct (inv_phase _ _ _ _ Hinv) as (Hflag & Him & Hmt).
  destruct (mem_entries mt Hmt) as (Hse & Hpe & Hfe). unfold LSMTreeEngine.flush_immutable_memtable.
  erewrite eng_bind_ok by done. cbv beta. rewrite Him.
  destruct (MemTable.data mt) as [|b0 data0] eqn:Edata.
  { (* an empty memtable *)
    unfold MemTable.is_empty, MemTable.entry_count. rewrite Edata. exists e, ops, tbs. split_and!; [done|done|]. intros _.
    destruct Hinv as [? ? ? ? ? ? ? ? ? Hview]. constructor; try done. split; [done|]. intros k. rewrite <- Hview.
    unfold imm_view. rewrite Him. cbn [mbind option_bind]. unfold mem_view at 3, MemTable.get. rewrite Edata. cbn. by rewrite union_None. }
  assert (Hne : MemTable.is_empty mt = false) by (unfold MemTable.is_empty, MemTable.entry_count; by rewrite Edata). rewrite Hne.
  destruct (MemTable.entries mt) as [|x0 xs0] eqn:Ees; [unfold MemTable.entries in Ees; by rewrite Edata in Ees|]. cbv beta iota zeta. rewrite <- Ees in *.
  assert (Hes : MemTable.entries mt <> []) by (by rewrite Ees).
  set (n := LSMTreeEngine.next_file_number e). erewrite eng_bind_ok by done. cbv beta. erewrite eng_bind_ok by done. cbv beta.
  destruct (inv_numbers _ _ _ _ Hinv) as [Hn0 Hnums]. fold n in Hn0, Hnums, Hnf.
  assert (Hn1 : u64 (n + 1) = n + 1) by (apply wrap_small; lia).
  (* the table *)
  destruct (FileSpec.create_total (MemTable.entries mt) n 0 (opt_block_size (LSMTreeEngine.options e)) (LSMTreeEngine.wall_clock e) Hes) as ([bytes meta] & Hcr).
  pose proof Hcr as Hmeta. apply created_metadata in Hmeta as (_ & _ & Hfn & _ & _); [|done].
  set (e1 := LSMTreeEngine.set_next_file_number (u64 (n + 1)) e).
  set (e2 := LSMTreeEngine.set_disk (with_sst (LSMTreeEngine.disk e1) (<[n := bytes]> (sst (LSMTreeEngine.disk e1)))) e1).
  rewrite (eng_bind_ok _ _ e1 meta e2).
  2:{ unfold LSMTreeEngine.write_table. change (LSMTreeEngine.options e1) with (LSMTreeEngine.options e). change (LSMTreeEngine.wall_clock e1) with (LSMTreeEngine.wall_clock e).
      cbv zeta. fold n. by rewrite (inv_opts _ _ _ _ Hinv), Hcr. }
  cbv beta.
  (* the two log records *)
  assert (Hseq : u64_ok (MemTable.current_sequence mt)) by apply Hmt.
  assert (Hnu : u64_ok n) by (unfold u64_ok; lia).
  destruct (logged_checkpoint _ _ Hseq Hnu) as [Hlc Hll]. destruct (logged_flush _ Hnu) as [Hlf Hlfl].
  destruct (append_spec e2 ops _ (opt_durability (LSMTreeEngine.options e)) (inv_log _ _ _ _ Hinv) Hlc) as (m1 & Hap1 & Hm1 & Ht1); [cbn [LSMTreeEngine.wal e2 e1 LSMTreeEngine.set_disk LSMTreeEngine.set_next_file_number]; lia|].
  rewrite (eng_bind_ok _ _ e2 tt (LSMTreeEngine.set_wal m1 e2)) by exact Hap1. cbv beta.
  set (e3 := LSMTreeEngine.set_levels (level0 (tbs ++ [(meta, MemTable.entries mt)]) :: empty_levels) (LSMTreeEngine.set_wal m1 e2)).
  rewrite (eng_bind_ok _ _ _ tt e3).
  2:{ unfold LSMTreeEngine.update_level, e3. cbn. rewrite (inv_levels _ _ _ _ Hinv). cbn. by rewrite level0_snoc. }
  cbv beta.
  destruct (append_spec e3 _ _ (opt_durability (LSMTreeEngine.options e)) Hm1 Hlf) as (m2 & Hap2 & Hm2 & Ht2);
    [change (LSMTreeEngine.wal e2) with (LSMTreeEngine.wal e) in Ht1; change (LSMTreeEngine.wal e3) with m1; lia|].
  rewrite (eng_bind_ok _ _ e3 tt (LSMTreeEngine.set_wal m2 e3)) by exact Hap2. cbv beta. erewrite eng_bind_ok by done. cbv beta.
  set (e4 := LSMTreeEngine.set_total_flushes _ _).
  destruct (save_spec e4) as (b & Hsave & Hslice). rewrite (eng_bind_ok _ _ _ _ _ Hsave). cbv beta. set (e5 := LSMTreeEngine.set_disk _ e4).
  destruct (rotate_spec e5) as (lsn & Hrot); [apply Hm2|]. rewrite (eng_bind_ok _ _ _ _ _ Hrot). cbv beta.
  rewrite (compact_nothing _ (tbs ++ [(meta, MemTable.entries mt)])); [|done|rewrite length_app; cbn; lia|apply (inv_compaction _ _ _ _ Hinv)].
  eexists _, ((ops ++ [OpCheckpoint (MemTable.current_sequence mt) n]) ++ [OpFlushComplete n 0]), (tbs ++ [(meta, MemTable.entries mt)]). split_and!; [reflexivity|rewrite !last_writes_snoc; reflexivity|]. intros Hfit.
  assert (Htv : forall k, table_view k (meta, MemTable.entries mt) = mem_view mt k) by (intros k; unfold table_view, mem_view; cbn [snd]; by rewrite Hfe).
  destruct Hinv as [Hopts _ Hmem _ Htables _ _ Hcomp _ Hview]. constructor; try done.
  - cbn. apply Forall_app. split.
    + apply Forall_forall. intros tb Htb. rewrite Forall_forall in Htables, Hnums. specialize (Hnums tb Htb). cbn in Hnums. apply table_ok_insert; [auto|lia].
    + constructor; [|constructor]. exists bytes, (opt_block_size (LSMTreeEngine.options e)), (LSMTreeEngine.wall_clock e). cbn [fst snd]. rewrite Hfn, lookup_insert_eq.
      split_and!; try done. apply (Hfit n). cbn. by rewrite lookup_insert_eq. unfold zlen, MemTable.entries. by rewrite length_fmap.
  - cbn. rewrite Hn1. split; [lia|]. apply Forall_app. split; [eapply Forall_impl; [exact Hnums|]; cbn; lia|]. constructor; [cbn; lia|constructor].
  - cbn. split; [done|]. intros k. rewrite !last_writes_snoc, tables_view_snoc, Htv. cbn [write_op]. rewrite <- Hview. unfold imm_view. rewrite Him. done.
  - intros k. rewrite !last_writes_snoc, tables_view_snoc, Htv. cbn [write_op]. rewrite <- Hview. unfold imm_view. cbn. rewrite Him. cbn [mbind option_bind].
    destruct (mem_view mt k); [by rewrite !union_Some|by rewrite !union_None].
Qed.

Lemma end_spec e ops tbs mt : inv e ops tbs (Written mt) -> inv (LSMTreeEngine.end_flush e) ops tbs Idle.
Proof.
  intros [? ? ? ? ? ? ? ? [_ Hcov] _]. constructor; try done. intros k. rewrite <- Hcov. unfold imm_view. cbn. by rewrite union_None.
Qed.

Lemma begin_spec e ops tbs : inv e ops tbs Idle ->
  exists e', LSMTreeEngine.begin_flush e = (Ok true, e') /\ inv e' ops tbs (Writing (LSMTreeEngine.memtable e)) /\
    LSMTreeEngine.next_file_number e' = LSMTreeEngine.next_file_number e /\ LSMTreeEngine.wal e' = LSMTreeEngine.wal e.
Proof.
  intros [? ? Hm ? ? ? ? ? [Hf Hi] Hview]. unfold LSMTreeEngine.begin_flush. rewrite Hf, Hi. eexists. split_and!; [done| |done|done].
  constructor; try done; [apply new_mem_ok|]. intros k. rewrite <- Hview. unfold imm_view. rewrite Hi.
  change (mem_view (LSMTreeEngine.memtable _) k) with (@None (option (list Z))) at 1. rewrite !union_None. done.
Qed.

Lemma maybe_flush_spec e ops tbs ph : inv e ops tbs ph -> flush_room e (LSMTreeEngine.memtable e) tbs ->
  exists e' ops' tbs', LSMTreeEngine.maybe_flush_memtable segment_path e = (Ok tt, e') /\ last_writes ops' = last_writes ops /\
    (files_fit e' -> inv e' ops' tbs' ph).
Proof using All.
  intros Hinv Hroom. unfold LSMTreeEngine.maybe_flush_memtable.
  assert (Hbusy : forall mt, flushing e mt -> LSMTreeEngine.begin_flush e = (Ok false, e))
    by (intros mt (Hf & _); unfold LSMTreeEngine.begin_flush; by rewrite Hf).
  destruct ph as [|mt|mt].
  - destruct (begin_spec e ops tbs Hinv) as (e1 & Hb & Hinv1 & Hn & Hw). rewrite (eng_bind_ok _ _ _ _ _ Hb). cbv beta iota.
    destruct (flush_spec e1 ops tbs _ Hinv1) as (e2 & ops' & tbs' & Hf & Hlw & Hinv2); [by unfold flush_room; rewrite Hn, Hw|].
    unfold LSMTreeEngine.finally. rewrite Hf. eexists _, ops', tbs'. split_and!; [done|done|]. intros Hfit. eapply end_spec, Hinv2, Hfit.
  - pose proof (inv_phase _ _ _ _ Hinv) as Hph. rewrite (eng_bind_ok _ _ _ _ _ (Hbusy mt Hph)). by exists e, ops, tbs.
  - pose proof (inv_phase _ _ _ _ Hinv) as [Hph _]. rewrite (eng_bind_ok _ _ _ _ _ (Hbusy mt Hph)). by exists e, ops, tbs.
Qed.

(** *** Writing *)

(** Two engines that differ in the log, the memtable, the clock and counters only. *)
Definition same_rest e e' : Prop :=
  LSMTreeEngine.options e' = LSMTreeEngine.options e /\ LSMTreeEngine.immutable_memtable e' = LSMTreeEngine.immutable_memtable e /\
  LSMTreeEngine.levels e' = LSMTreeEngine.levels e /\ LSMTreeEngine.next_file_number e' = LSMTreeEngine.next_file_number e /\
  LSMTreeEngine.flush_in_progress e' = LSMTreeEngine.flush_in_progress e /\
  LSMTreeEngine.compaction_in_progress e' = LSMTreeEngine.compaction_in_progress e /\ LSMTreeEngine.disk e' = LSMTreeEngine.disk e.

Lemma overlay_insert (k k' : list Z) (v : option (list Z)) (a b : option (option (list Z))) (lw : writes) :
  a ∪ b = lw !! k' -> (if decide (k = k') then Some v else a) ∪ b = <[k := v]> lw !! k'.
Proof. intros Heq. rewrite lookup_insert. case_decide; [apply union_Some|done]. Qed.

Lemma write_inv e e' ops tbs ph o k v : inv e ops tbs ph -> same_rest e e' -> log_ok (LSMTreeEngine.wal e') (ops ++ [o]) ->
  (forall lw, write_op lw o = <[k := v]> lw) -> mem_ok (LSMTreeEngine.memtable e') ->
  (forall k', mem_view (LSMTreeEngine.memtable e') k' = if decide (k = k') then Some v else mem_view (LSMTreeEngine.memtable e) k') ->
  inv e' (ops ++ [o]) tbs ph.
Proof.
  intros [Hop _ Hm Hl Ht Hn Hmf Hc Hph Hv] (Eo & Ei & El & En & Ef & Ec & Ed) Hlog Hw Hm' Hv'.
  assert (Himm : forall k, imm_view e' k = imm_view e k) by (intros k0; unfold imm_view; by rewrite Ei).
  constructor; try (rewrite ?Eo, ?El, ?En, ?Ec, ?Ed; done).
  - unfold manifest_ok in *. by rewrite Ed, El.
  - unfold phase_ok, flushing in *. rewrite Ei, Ef. destruct ph; [done|done|]. destruct Hph as [Hfl Hcov]. split; [done|].
    intros k'. rewrite last_writes_snoc, Hw, Hv'. by apply overlay_insert.
  - intros k'. rewrite last_writes_snoc, Hw, Hv', Himm. by apply overlay_insert.
Qed.

Inductive ClientOp : Type :=
| CPut (k v : list Z)
| CPutCommitted (k v : list Z) (ts : Z) (d : Durability)
| CDelete (k : list Z)
| CDeleteCommitted (k : list Z) (ts : Z) (d : Durability).

Definition run_client (c : ClientOp) : LSMTreeEngine.eng FS F unit :=
  match c with
  | CPut k v => LSMTreeEngine.put segment_path k v
  | CPutCommitted k v ts d => LSMTreeEngine.put_committed segment_path k v ts d
  | CDelete k => LSMTreeEngine.delete segment_path k
  | CDeleteCommitted k ts d => LSMTreeEngine.delete_committed segment_path k ts d
  end.

Definition op_of (c : ClientOp) : WalOp :=
  match c with
  | CPut k v => OpPut k v
  | CPutCommitted k v ts _ => OpPutCommitted k v ts
  | CDelete k => OpDelete k
  | CDeleteCommitted k ts _ => OpDeleteCommitted k ts
  end.

(** Room for one write and the flush it may start. *)
Definition room e : Prop :=
  LSMTreeEngine.next_file_number e + 1 < 2 ^ 64 /\
  match LSMTreeEngine.levels e with l0 :: _ => (length (Level.sstables l0) < 3)%nat | [] => False end /\
  log_tail (LSMTreeEngine.wal e) + 2 ^ 33 < 2 ^ 64 /\
  Z.of_nat (MemTable.entry_count (LSMTreeEngine.memtable e)) + 1 < 2 ^ 32 /\
  match LSMTreeEngine.immutable_memtable e with Some mt => Z.of_nat (MemTable.entry_count mt) < 2 ^ 32 | None => True end.

Lemma flush_if_full_spec e ops tbs ph : inv e ops tbs ph -> flush_room e (LSMTreeEngine.memtable e) tbs ->
  exists e' ops' tbs', LSMTreeEngine.flush_if_full segment_path e = (Ok tt, e') /\ last_writes ops' = last_writes ops /\
    (files_fit e' -> inv e' ops' tbs' ph).
Proof using All.
  intros Hinv Hroom. unfold LSMTreeEngine.flush_if_full. erewrite eng_bind_ok by done. cbv beta. destruct (_ <=? _).
  - by eapply maybe_flush_spec.
  - by exists e, ops, tbs.
Qed.

Lemma client_spec e ops tbs ph c : inv e ops tbs ph -> logged (op_of c) -> room e ->
  exists e' ops' tbs', run_client c e = (Ok tt, e') /\ last_writes ops' = write_op (last_writes ops) (op_of c) /\
    (files_fit e' -> inv e' ops' tbs' ph).
Proof using All.
  intros Hinv Hlog (Hn & Hl0 & Htail & Hcount & _). rewrite (inv_levels _ _ _ _ Hinv) in Hl0. rewrite (proj1 (level0_sstables tbs)), length_fmap in Hl0.
  pose proof (inv_mem _ _ _ _ Hinv) as Hm. pose proof Hlog as [Hok Hplen].
  (* every write ends in a state related to the first by [write_inv] *)
  assert (Hend : forall e1 k v, same_rest e e1 -> (exists m, LSMTreeEngine.wal e1 = m /\ log_ok m (ops ++ [op_of c]) /\ log_tail m = log_tail (LSMTreeEngine.wal e) + plen (encode_op (op_of c)) + 14) ->
    (exists ts, LSMTreeEngine.memtable e1 = MemTable.store (LSMTreeEngine.memtable e) k (Entry.with_commit_ts k v (MemTable.sequence (LSMTreeEngine.memtable e)) ts)) ->
    (forall lw, write_op lw (op_of c) = <[k := v]> lw) -> len_ok k -> match v with Some v => len_ok v | None => True end ->
    exists e' ops' tbs', LSMTreeEngine.flush_if_full segment_path e1 = (Ok tt, e') /\ last_writes ops' = write_op (last_writes ops) (op_of c) /\
      (files_fit e' -> inv e' ops' tbs' ph)).
  { intros e1 k v Hrest (m & Em & Hm1 & Ht1) (ts & Emt) Hw Hk Hv. destruct (write_entry _ k v ts Hm Hk Hv) as (Hm' & Hview & Hcnt). rewrite <- Emt in *.
    assert (Hinv1 : inv e1 (ops ++ [op_of c]) tbs ph) by (eapply write_inv; eauto; by rewrite Em).
    destruct (flush_if_full_spec e1 _ _ _ Hinv1) as (e' & ops' & tbs' & Hrun & Hlw & Hinv').
    { destruct Hrest as (_ & _ & _ & En & _). unfold flush_room, MemTable.entry_count in *. rewrite En, Em. split_and!; lia. }
    exists e', ops', tbs'. rewrite last_writes_snoc in Hlw. eauto. }
  destruct (append_spec e ops (op_of c) (match c with CPutCommitted _ _ _ d | CDeleteCommitted _ _ d => d | _ => opt_durability (LSMTreeEngine.options e) end)
    (inv_log _ _ _ _ Hinv) Hlog) as (m & Hap & Hm1 & Ht1); [lia|].
  destruct c as [k v|k v ts d|k|k ts d]; cbn [run_client op_of op_kind encode_op op_ok] in *.
  - unfold LSMTreeEngine.put. erewrite eng_bind_ok by done. cbv beta. rewrite (eng_bind_ok _ _ _ _ _ Hap). cbv beta. do 3 (erewrite eng_bind_ok by done; cbv beta).
    eapply (Hend _ k (Some v)); try done; [by exists m|by eexists|apply Hok..].
  - unfold LSMTreeEngine.put_committed. rewrite (eng_bind_ok _ _ _ _ _ Hap). cbv beta. do 2 (erewrite eng_bind_ok by done; cbv beta).
    eapply (Hend _ k (Some v)); try done; [by exists m|by eexists|apply Hok..].
  - unfold LSMTreeEngine.delete. erewrite eng_bind_ok by done. cbv beta. rewrite (eng_bind_ok _ _ _ _ _ Hap). cbv beta. do 3 (erewrite eng_bind_ok by done; cbv beta).
    eapply (Hend _ k None); try done; [by exists m|by eexists].
  - unfold LSMTreeEngine.delete_committed. rewrite (eng_bind_ok _ _ _ _ _ Hap). cbv beta. do 2 (erewrite eng_bind_ok by done; cbv beta).
    eapply (Hend _ k None); try done; [by exists m|by eexists|apply Hok].
Qed.

Lemma checkpoint_spec e ops tbs ph : inv e ops tbs ph -> room e ->
  exists e' ops', LSMTreeEngine.checkpoint e = (Ok tt, e') /\ last_writes ops' = last_writes ops /\ inv e' ops' tbs ph.
Proof using All - segment_path.
  intros Hinv (Hn & _ & Htail & _). destruct (inv_mem _ _ _ _ Hinv) as (_ & _ & Hseq). destruct (inv_numbers _ _ _ _ Hinv) as [Hn0 _].
  destruct (logged_checkpoint _ (LSMTreeEngine.next_file_number e) Hseq ltac:(unfold u64_ok; lia)) as [Hl Hll].
  unfold LSMTreeEngine.checkpoint. do 2 (erewrite eng_bind_ok by done; cbv beta).
  destruct (append_spec e ops _ Sync (inv_log _ _ _ _ Hinv) Hl) as (m & Hap & Hm & _); [lia|]. rewrite (eng_bind_ok _ _ _ _ _ Hap). cbv beta.
  destruct (save_spec (LSMTreeEngine.set_wal m e)) as (b & -> & Hb). eexists _, (ops ++ [OpCheckpoint (MemTable.sequence (LSMTreeEngine.memtable e)) (LSMTreeEngine.next_file_number e)]). split_and!; [reflexivity|rewrite last_writes_snoc; reflexivity|].
  destruct Hinv as [? ? ? ? ? ? ? ? Hph Hv]. constructor; try done.
  - unfold phase_ok in *. destruct ph; [done|done|]. rewrite last_writes_snoc. exact Hph.
  - intros k. rewrite last_writes_snoc. exact (Hv k).
Qed.

(** *** Restarting

    The process dies, with a flush under way or not; the files survive.  The
    log segment is opened again and a new engine made over the same disk. *)
Definition restart e (clock now : Z) : kv_result unit * engine :=
  let m := LSMTreeEngine.wal e in
  match WriteAheadLogFile.open_existing (WriteAheadLogFile.file (WriteAheadLogManager.active_segment m)) with
  | Ok w =>
      LSMTreeEngine.new (LSMTreeEngine.disk e) (LSMTreeEngine.options e)
        (WriteAheadLogManager.mk (WriteAheadLogManager.file_system m) (WriteAheadLogManager.root_folder m) (WriteAheadLogManager.shard_id m) w []) clock now
  | _ => (Err (KvStorageCorruption "WAL"), e)
  end.

Lemma manifest_entries tbs : LSMTreeEngine.manifest_of (level0 tbs :: empty_levels) = (fun tb : table => MEntryOf (file_number tb.1) 0 tb.1) <$> tbs.
Proof.
  unfold LSMTreeEngine.manifest_of. destruct (level0_sstables tbs) as [Hs Hn]. cbn [mbind list_bind]. rewrite Hs, Hn. cbn [seq fmap list_fmap empty_levels].
  cbn. rewrite app_nil_r. by rewrite <- list_fmap_compose.
Qed.

(** Loading the manifest rebuilds level 0 and a file number past every table. *)
Lemma restore_spec tbs : forall done_ e n, LSMTreeEngine.levels e = level0 done_ :: empty_levels ->
  Forall (fun tb : table => 0 <= file_number tb.1 < n) tbs -> n < 2 ^ 64 -> 0 < LSMTreeEngine.next_file_number e <= n ->
  Forall (fun tb : table => 0 <= file_number tb.1 < LSMTreeEngine.next_file_number e) done_ ->
  exists nf, let e' := LSMTreeEngine.set_next_file_number nf (LSMTreeEngine.set_levels (level0 (done_ ++ tbs) :: empty_levels) e) in
    foldl LSMTreeEngine.restore_entry e ((fun tb : table => MEntryOf (file_number tb.1) 0 tb.1) <$> tbs) = e' /\
    0 < nf <= n /\ Forall (fun tb : table => 0 <= file_number tb.1 < nf) (done_ ++ tbs).
Proof.
  induction tbs as [|tb tbs IH]; intros done_ e n Hl Hb Hn Hnf Hd.
  - exists (LSMTreeEngine.next_file_number e). cbv zeta. cbn [foldl fmap list_fmap]. rewrite app_nil_r, <- Hl. split_and!; try done; try lia. by destruct e.
  - apply Forall_cons in Hb as [Hb1 Hb]. cbn [fmap list_fmap foldl]. unfold LSMTreeEngine.restore_entry at 2. cbn [entry_level entry_metadata entry_file_number].
    rewrite Hl. cbn [lookup list_lookup insert list_insert]. rewrite <- level0_snoc.
    set (e1 := LSMTreeEngine.set_levels _ e). cbn [LSMTreeEngine.next_file_number e1 LSMTreeEngine.set_levels].
    assert (Hu : u64 (file_number tb.1 + 1) = file_number tb.1 + 1) by (apply wrap_small; lia).
    assert (Hsnoc : forall nf, LSMTreeEngine.next_file_number e <= nf -> file_number tb.1 < nf ->
      Forall (fun tb0 : table => 0 <= file_number tb0.1 < nf) (done_ ++ [tb])).
    { intros nf H1' H2'. apply Forall_app. split; [eapply Forall_impl; [exact Hd|]; cbn; lia|]. constructor; [lia|constructor]. }
    destruct (Z.leb_spec (LSMTreeEngine.next_file_number e) (file_number tb.1)).
    + destruct (IH (done_ ++ [tb]) (LSMTreeEngine.set_next_file_number (u64 (file_number tb.1 + 1)) e1) n) as (nf & Hrun & H1' & H2'); try done; [cbn; lia|cbn; rewrite Hu; apply Hsnoc; lia|].
      rewrite <- app_assoc in *. exists nf. by rewrite Hrun.
    + destruct (IH (done_ ++ [tb]) e1 n) as (nf & Hrun & H1' & H2'); try done; [apply Hsnoc; cbn; lia|].
      rewrite <- app_assoc in *. exists nf. by rewrite Hrun.
Qed.

Lemma load_spec e tbs n : LSMTreeEngine.levels e = level0 [] :: empty_levels -> LSMTreeEngine.next_file_number e = 1 -> 0 < n < 2 ^ 64 ->
  match manifest (LSMTreeEngine.disk e) with None => tbs = [] | Some b => from_slice b = Some (LSMTreeEngine.manifest_of (level0 tbs :: empty_levels)) end ->
  Forall (fun tb : table => 0 <= file_number tb.1 < n) tbs ->
  exists nf, LSMTreeEngine.load_manifest e = (Ok tt, LSMTreeEngine.set_next_file_number nf (LSMTreeEngine.set_levels (level0 tbs :: empty_levels) e)) /\
    0 < nf < 2 ^ 64 /\ Forall (fun tb : table => 0 <= file_number tb.1 < nf) tbs.
Proof.
  intros Hl Hnf Hn Hman Hb. unfold LSMTreeEngine.load_manifest. destruct (manifest (LSMTreeEngine.disk e)) as [b|] eqn:E.
  - rewrite Hman, manifest_entries.
    destruct (restore_spec tbs [] e n) as (nf & Hrun & H1' & H2'); try done; [lia|lia|]. exists nf. rewrite Hrun. split_and!; try done; lia.
  - subst. exists 1. split_and!; try done; try lia. rewrite <- Hl. destruct e. cbn in *. by subst.
Qed.

(** What a restart needs: the log, the manifest and the tables it names, which
    know no key the log does not. *)
Lemma restart_core e ops tbs clock now : opt_compression (LSMTreeEngine.options e) = NoCompression -> log_ok (LSMTreeEngine.wal e) ops ->
  LSMTreeEngine.levels e = level0 tbs :: empty_levels -> Forall (table_ok (sst (LSMTreeEngine.disk e))) tbs ->
  0 < LSMTreeEngine.next_file_number e < 2 ^ 64 /\ Forall (fun tb => 0 <= file_number tb.1 < LSMTreeEngine.next_file_number e) tbs ->
  manifest_ok e tbs -> (forall k, last_writes ops !! k = None -> tables_view tbs k = None) ->
  exists e', restart e clock now = (Ok tt, e') /\ inv e' ops tbs Idle.
Proof using All - segment_path.
  intros Ho Hlog Hl Ht [Hn Hnums] Hman Hnone. unfold manifest_ok in Hman. rewrite Hl in Hman.
  pose proof Hlog as (Harch & Hops & header & h & Hw & Hlen & Hh & Henc & Hs & Hg & Hgh & Hst & Hi).
  unfold restart. rewrite (LogSpec.open_holds _ header _ h Hw Hlen Hh Henc Hs) by congruence.
  set (m := WriteAheadLogManager.mk _ _ _ _ _).
  assert (Hm : log_ok m ops) by (split_and!; [done|done|]; exists header, h; by split_and!).
  unfold LSMTreeEngine.new. set (e0 := LSMTreeEngine.mk _ _ _ _ _ _ _ _ _ _ _ _ _ _ _ _ _).
  destruct (load_spec e0 tbs (LSMTreeEngine.next_file_number e)) as (nf & Hload & Hnf & Hnums'); try done.
  rewrite (eng_bind_ok _ _ _ _ _ Hload). set (e1 := LSMTreeEngine.set_next_file_number _ _).
  destruct (recover_spec e1 ops Hm) as (mt & ts & Hrec & Hmt & Hview); [split; [apply new_mem_ok|done]|]. rewrite Hrec. eexists. split; [done|].
  constructor; try done. intros k. change (imm_view _ k) with (@None (option (list Z))). rewrite union_None. cbn. rewrite Hview.
  destruct (last_writes ops !! k) as [v|] eqn:E; [apply union_Some|]. rewrite union_None. by apply Hnone.
Qed.

Lemma restart_spec e ops tbs ph clock now : inv e ops tbs ph -> exists e', restart e clock now = (Ok tt, e') /\ inv e' ops tbs Idle.
Proof using All - segment_path.
  intros [Ho Hlog _ Hl Ht Hn Hman _ _ Hv]. apply restart_core; try done. intros k Hk. specialize (Hv k). rewrite Hk in Hv.
  by destruct (mem_view (LSMTreeEngine.memtable e) k), (imm_view e k), (tables_view tbs k).
Qed.

(** *** Clearing *)

Lemma clear_spec e ops tbs ph : inv e ops tbs ph ->
  exists e', LSMTreeEngine.clear segment_path e = (Ok tt, e') /\ (forall k, fst (LSMTreeEngine.get k e') = Ok None) /\
    forall clock now, exists e2, restart e' clock now = (Ok tt, e2) /\ inv e2 ops [] Idle.
Proof using All.
  intros Hinv. unfold LSMTreeEngine.clear. do 3 (erewrite eng_bind_ok by done; cbv beta). set (e1 := LSMTreeEngine.set_levels _ _).
  assert (Hl1 : LSMTreeEngine.levels e1 = level0 [] :: empty_levels).
  { unfold e1. cbn [LSMTreeEngine.levels LSMTreeEngine.set_levels LSMTreeEngine.remove_files LSMTreeEngine.set_disk LSMTreeEngine.set_immutable_memtable LSMTreeEngine.set_memtable].
    rewrite (inv_levels _ _ _ _ Hinv). cbn [fmap list_fmap]. by rewrite (proj2 (level0_sstables tbs)). }
  destruct (save_spec e1) as (b & Hsave & Hb). rewrite (eng_bind_ok _ _ _ _ _ Hsave). cbv beta. set (e2 := LSMTreeEngine.set_disk _ e1).
  pose proof (inv_log _ _ _ _ Hinv) as Hlog. destruct Hlog as [Harch Hlog'].
  assert (Htr : WriteAheadLogManager.truncate_before segment_path (LSMTreeEngine.wal e2) (WriteAheadLogManager.head_lsn (LSMTreeEngine.wal e2)) = (Ok tt, LSMTreeEngine.wal e)).
  { change (LSMTreeEngine.wal e2) with (LSMTreeEngine.wal e). unfold WriteAheadLogManager.truncate_before. rewrite Harch. cbn. destruct (LSMTreeEngine.wal e). cbn in *. by subst. }
  rewrite Htr. eexists. split; [done|]. split.
  - intros k. unfold LSMTreeEngine.get, LSMTreeEngine.read_with. erewrite eng_bind_ok by done. cbn [LSMTreeEngine.set_total_reads LSMTreeEngine.memtable LSMTreeEngine.set_wal e2 e1].
    set (e3 := LSMTreeEngine.set_total_reads _ _). change (MemTable.get (LSMTreeEngine.memtable e3) k) with (@None Entry.t). cbn [LSMTreeEngine.immutable_memtable].
    change (LSMTreeEngine.immutable_memtable e3) with (@None MemTable.t). cbn [mbind option_bind fst].
    destruct (search_tables_spec e3 k [] Hl1 (Forall_nil_2 _)) as (r & -> & Hr & _). by destruct r.
  - intros clock now. apply (restart_core _ ops []); [apply (inv_opts _ _ _ _ Hinv)|by split|exact Hl1|constructor| |exact Hb|done].
    split; [apply (inv_numbers _ _ _ _ Hinv)|constructor].
Qed.
End log.
