(* ===== verification/LsmEngineSpec.v ===== *)
(** * What the LSM engine promises

    The engine refines the map of last writes through flushes, in the caller's
    thread or in another one, checkpoints and restarts at any moment; clearing
    it does not survive a restart, and snapshot reads lose overwritten
    versions. *)

From Stdlib Require Import ZArith Lia.
From stdpp Require Import sorting gmap option strings base list.
From S2P Require Import Prelude BTreeError VfsFile Integrity Wal WalSpec LsmRecord LsmMemtable LsmSSTable LsmSSTableSpec LsmBlob LsmMerge LsmEngine LsmEngineInv.

Open Scope Z_scope.

Section properties.
Context `{!Integrity.Hashes} `{!Integrity.HashLaws} `{!Codecs} `{!CodecLaws} `{!ManifestCodec} `{!ManifestLaws}.
Context {FS F : Type} `{!File F} `{!FileLaws F} `{!WriteAheadLogManager.FileSystemOps FS F}.
Context (segment_path : string -> Z -> string).
Abbreviation engine := (LSMTreeEngine.t FS F).
Implicit Types (e : engine) (lw : writes) (ph : phase).

(** The states of an engine over one directory and one log, with the map of
    last writes a client expects of them and where a background flush stands.
    A flush is three critical sections, and writes of other threads may fall
    between them. *)
Inductive reaches (opts : LSMTreeOptions) : engine -> writes -> phase -> Prop :=
| reaches_new (f : F) fs root now shard alg comp enc w clock wall r e :
    bytes_of f = [] -> 0 <= now < 2 ^ 64 -> 0 <= shard < 2 ^ 128 ->
    WriteAheadLogFile.create f now shard 0 0 alg comp enc 0 = Ok w ->
    LSMTreeEngine.new (DiskOf ∅ None ∅) opts (WriteAheadLogManager.mk fs root shard w []) clock wall = (r, e) ->
    reaches opts e ∅ Idle
| reaches_write e lw ph c r e' :
    reaches opts e lw ph -> room e -> logged (op_of c) -> run_client segment_path c e = (r, e') -> files_fit e' ->
    reaches opts e' (write_op lw (op_of c)) ph
| reaches_flush e lw ph r e' :
    reaches opts e lw ph -> room e -> LSMTreeEngine.flush segment_path e = (r, e') -> files_fit e' -> reaches opts e' lw ph
| reaches_begin e lw r e' :
    reaches opts e lw Idle -> LSMTreeEngine.begin_flush e = (r, e') -> reaches opts e' lw (Writing (LSMTreeEngine.memtable e))
| reaches_table e lw mt r e' :
    reaches opts e lw (Writing mt) -> room e -> LSMTreeEngine.flush_immutable_memtable segment_path e = (r, e') -> files_fit e' ->
    reaches opts e' lw (Written mt)
| reaches_end e lw mt : reaches opts e lw (Written mt) -> reaches opts (LSMTreeEngine.end_flush e) lw Idle
| reaches_checkpoint e lw ph r e' :
    reaches opts e lw ph -> room e -> LSMTreeEngine.checkpoint e = (r, e') -> reaches opts e' lw ph
| reaches_restart e lw ph clock now r e' :
    reaches opts e lw ph -> restart e clock now = (r, e') -> reaches opts e' lw Idle.

Lemma room_flush e ops tbs ph : inv e ops tbs ph -> room e -> flush_room e (LSMTreeEngine.memtable e) tbs /\
  forall mt, LSMTreeEngine.immutable_memtable e = Some mt -> flush_room e mt tbs.
Proof.
  intros Hinv (Hn & Hl0 & Htail & Hcount & Him). rewrite (inv_levels _ _ _ _ Hinv), (proj1 (level0_sstables tbs)), length_fmap in Hl0.
  split; [|intros mt Hmt; rewrite Hmt in Him]; unfold flush_room; split_and!; lia.
Qed.

Lemma engine_new_inv opts (f : F) fs root now shard alg comp enc w clock wall :
  opt_compression opts = NoCompression -> bytes_of f = [] -> 0 <= now < 2 ^ 64 -> 0 <= shard < 2 ^ 128 ->
  WriteAheadLogFile.create f now shard 0 0 alg comp enc 0 = Ok w ->
  exists e, LSMTreeEngine.new (FS := FS) (DiskOf ∅ None ∅) opts (WriteAheadLogManager.mk fs root shard w []) clock wall = (Ok tt, e) /\ inv e [] [] Idle.
Proof using All.
  intros Ho Hf Hnow Hshard Hcr.
  destruct (LogSpec.create_holds f now shard 0 0 alg comp enc 0 Hf) as (w' & header & Hw & Hh & Hlen & Hoff & Hs & Hg & Hst & Hi & Henc).
  rewrite Hcr in Hw. injection Hw as <-. unfold LSMTreeEngine.new. set (m := WriteAheadLogManager.mk _ _ _ _ _). set (e0 := LSMTreeEngine.mk _ _ _ _ _ _ _ _ _ _ _ _ _ _ _ _ _).
  assert (Hm : log_ok m []).
  { split_and!; [done|constructor|]. eexists header, _. split_and!; [exact Hh|done| |exact Henc|done..].
    unfold HeaderSpec.header_ok. cbn. lia. }
  rewrite (eng_bind_ok _ _ e0 tt e0) by done.
  destruct (recover_spec e0 [] Hm) as (mt & ts & Hrec & Hmt & Hview); [split; [apply new_mem_ok|done]|]. rewrite Hrec. eexists. split; [done|].
  constructor; try done. intros k. change (imm_view _ k) with (@None (option (list Z))). cbn. by rewrite Hview.
Qed.

Lemma reaches_inv opts e lw ph : opt_compression opts = NoCompression -> reaches opts e lw ph ->
  exists ops tbs, inv e ops tbs ph /\ last_writes ops = lw.
Proof using All.
  intros Ho Hr. induction Hr as [f fs root now shard alg comp enc w clock wall r e Hf Hnow Hshard Hcr Hnew
    |e lw ph c r e' _ (ops & tbs & Hinv & <-) Hroom Hlog Hrun Hfit|e lw ph r e' _ (ops & tbs & Hinv & <-) Hroom Hrun Hfit
    |e lw r e' _ (ops & tbs & Hinv & <-) Hrun|e lw mt r e' _ (ops & tbs & Hinv & <-) Hroom Hrun Hfit
    |e lw mt _ (ops & tbs & Hinv & <-)|e lw ph r e' _ (ops & tbs & Hinv & <-) Hroom Hrun|e lw ph clock now r e' _ (ops & tbs & Hinv & <-) Hrun].
  - destruct (engine_new_inv opts f fs root now shard alg comp enc w clock wall Ho Hf Hnow Hshard Hcr) as (e1 & He1 & Hinv). rewrite He1 in Hnew. injection Hnew as <- <-. by exists [], [].
  - destruct (client_spec segment_path e ops tbs ph c Hinv Hlog Hroom) as (e1 & ops' & tbs' & Hc & Hlw & Hinv'). rewrite Hc in Hrun. injection Hrun as <- <-. eauto.
  - destruct (maybe_flush_spec segment_path e ops tbs ph Hinv (proj1 (room_flush _ _ _ _ Hinv Hroom))) as (e1 & ops' & tbs' & Hc & Hlw & Hinv').
    unfold LSMTreeEngine.flush in Hrun. rewrite Hc in Hrun. injection Hrun as <- <-. eauto.
  - destruct (begin_spec e ops tbs Hinv) as (e1 & Hc & Hinv' & _). rewrite Hc in Hrun. injection Hrun as <- <-. eauto.
  - destruct (inv_phase _ _ _ _ Hinv) as (_ & Him & _).
    destruct (flush_spec segment_path e ops tbs mt Hinv (proj2 (room_flush _ _ _ _ Hinv Hroom) mt Him)) as (e1 & ops' & tbs' & Hc & Hlw & Hinv').
    rewrite Hc in Hrun. injection Hrun as <- <-. eauto.
  - exists ops, tbs. split; [by eapply end_spec|done].
  - destruct (checkpoint_spec e ops tbs ph Hinv Hroom) as (e1 & ops' & Hc & Hlw & Hinv'). rewrite Hc in Hrun. injection Hrun as <- <-. eauto.
  - destruct (restart_spec e ops tbs ph clock now Hinv) as (e1 & Hc & Hinv'). rewrite Hc in Hrun. injection Hrun as <- <-. eauto.
Qed.

(** C15. The engine refines the map of last writes.  Without compression and
    until a fourth table would start a compaction, through any sequence of
    puts, deletes, flushes in the caller's thread, flushes in another thread
    with writes in between, checkpoints and restarts: [get] returns the last
    value written for a key, nothing when it was deleted or never written, and
    every write with room for its record succeeds. *)
Theorem engine_refines_map opts e lw ph : opt_compression opts = NoCompression -> reaches opts e lw ph ->
  (forall k, fst (LSMTreeEngine.get k e) = Ok (mjoin (lw !! k))) /\
  (forall c, logged (op_of c) -> room e -> fst (run_client segment_path c e) = Ok tt).
Proof using All.
  intros Ho Hr. destruct (reaches_inv opts e lw ph Ho Hr) as (ops & tbs & Hinv & <-). split.
  - intros k. by destruct (read_spec e ops tbs ph k Hinv) as (e' & -> & _).
  - intros c Hlog Hroom. by destruct (client_spec segment_path e ops tbs ph c Hinv Hlog Hroom) as (e' & ops' & tbs' & -> & _).
Qed.


(** [clear] is undone by a restart: it succeeds and every key reads as
    absent, but the log keeps all records, so after a restart every key has
    the value it had before. *)
Theorem clear_undone_by_restart opts e lw ph clock now : opt_compression opts = NoCompression -> reaches opts e lw ph ->
  exists e1 e2, LSMTreeEngine.clear segment_path e = (Ok tt, e1) /\ (forall k, fst (LSMTreeEngine.get k e1) = Ok None) /\
    restart e1 clock now = (Ok tt, e2) /\ forall k, fst (LSMTreeEngine.get k e2) = Ok (mjoin (lw !! k)).
Proof using All.
  intros Ho Hr. destruct (reaches_inv opts e lw ph Ho Hr) as (ops & tbs & Hinv & <-).
  destruct (clear_spec segment_path e ops tbs ph Hinv) as (e1 & Hc & Hget & Hre). destruct (Hre clock now) as (e2 & Hrun & Hinv2).
  exists e1, e2. split_and!; try done. intros k. by destruct (read_spec e2 ops [] Idle k Hinv2) as (e3 & -> & _).
Qed.
End properties.

(** ** Concrete engines *)

Module EngineDemo.
Import PolyHash.
#[local] Existing Instances poly_hashes poly_laws TableWitness.toy_codecs TableWitness.toy_codec_laws.

(** A manifest codec: one number per field, byte strings behind their length. *)
Definition put_string (s : list Z) (rest : list Z) : list Z := zlen s :: s ++ rest.
Definition get_string (l : list Z) : option (list Z * list Z) :=
  match l with [] => None | n :: l' => Some (take (Z.to_nat n) l', drop (Z.to_nat n) l') end.

Lemma get_put_string s rest : get_string (put_string s rest) = Some (s, rest).
Proof. unfold get_string, put_string, zlen. by rewrite Nat2Z.id, take_app_length, drop_app_length. Qed.

Definition put_entry (m : ManifestEntry) (rest : list Z) : list Z :=
  let d := entry_metadata m in
  entry_file_number m :: Z.of_nat (entry_level m) :: file_number d :: Z.of_nat (level d) ::
  put_string (min_key d) (put_string (max_key d)
    (min_sequence d :: max_sequence d :: entry_count d :: file_size d :: created_at d :: rest)).

Definition get_entry (l : list Z) : option (ManifestEntry * list Z) :=
  match l with
  | a :: b :: c :: d :: l1 =>
      '(kmin, l2) ← get_string l1;
      '(kmax, l3) ← get_string l2;
      match l3 with
      | s0 :: s1 :: n :: z :: t :: rest =>
          Some (MEntryOf a (Z.to_nat b) (Metadata c (Z.to_nat d) kmin kmax s0 s1 n z t), rest)
      | _ => None
      end
  | _ => None
  end.

Lemma get_put_entry m rest : get_entry (put_entry m rest) = Some (m, rest).
Proof.
  destruct m as [a b [c d kmin kmax s0 s1 n z t]]. unfold put_entry. cbn [entry_file_number entry_level entry_metadata file_number level min_key max_key].
  unfold get_entry. rewrite get_put_string. cbn [mbind option_bind]. rewrite get_put_string. cbn. by rewrite !Nat2Z.id.
Qed.

Definition put_entries (ms : list ManifestEntry) : list Z := zlen ms :: foldr put_entry [] ms.

Fixpoint get_entries (n : nat) (l : list Z) : option (list ManifestEntry) :=
  match n with
  | O => Some []
  | S n' => '(m, l') ← get_entry l; ms ← get_entries n' l'; Some (m :: ms)
  end.

#[local] Instance demo_codec : ManifestCodec := {|
  to_vec_pretty ms := Some (put_entries ms);
  from_slice l := match l with [] => None | n :: l' => get_entries (Z.to_nat n) l' end
|}.

#[local] Instance demo_codec_laws : ManifestLaws.
Proof.
  constructor. intros ms. eexists. split; [done|]. cbn. unfold zlen. rewrite Nat2Z.id.
  induction ms as [|m ms IH]; [done|]. cbn [length foldr get_entries]. rewrite get_put_entry. cbn [mbind option_bind]. by rewrite IH.
Qed.

(** The log never removes a segment here, so its file system is not called. *)
#[local] Instance no_fs : WriteAheadLogManager.FileSystemOps unit MemoryFile.t := {|
  WriteAheadLogManager.fs_exists _ _ := Ok true;
  WriteAheadLogManager.fs_create_directory_all _ _ := (Ok tt, tt);
  WriteAheadLogManager.fs_open_file _ _ := Err PathMissing;
  WriteAheadLogManager.fs_create_file _ _ := (Err PathExists, tt);
  WriteAheadLogManager.fs_remove_file _ _ := (Ok tt, tt)
|}.

Definition path (root : string) (n : Z) : string := root.

Definition segment : wal_result (WriteAheadLogFile.t MemoryFile.t) :=
  WriteAheadLogFile.create (MemoryFile.new "segment") 1700 7 0 0 Crc32c NoCompression NoEncryption 0.

Definition the_segment : WriteAheadLogFile.t MemoryFile.t := Eval vm_compute in
  match segment with Ok w => w | _ => WriteAheadLogFile.mk (MemoryFile.new "segment") 7 0 0 69 Crc32c end.

Abbreviation engine := (LSMTreeEngine.t unit MemoryFile.t).

Definition e0 : engine := snd (LSMTreeEngine.new (DiskOf ∅ None ∅) default_options (WriteAheadLogManager.mk tt "wal" 7 the_segment []) 1 42).
Definition run (e : engine) (c : ClientOp) : engine := snd (run_client path c e).

(** One key written, flushed to a table, and overwritten. *)
Definition e1 : engine := run e0 (CPut [1] [10; 11]).
Definition e2 : engine := snd (LSMTreeEngine.flush path e1).
Definition e3 : engine := run e2 (CPutCommitted [1] [20] 5 Sync).

Ltac fits := apply (bool_decide_unpack _); by vm_compute.
Ltac roomy := unfold room; split_and!; vm_compute; first [done | lia].

Lemma e0_reaches : reaches path default_options e0 ∅ Idle.
Proof.
  eapply (reaches_new path default_options (MemoryFile.new "segment") tt "wal" 1700 7 Crc32c NoCompression NoEncryption the_segment 1 42 (Ok tt) e0); by vm_compute.
Qed.

Lemma e1_reaches : reaches path default_options e1 {[[1] := Some [10; 11]]} Idle.
Proof.
  apply (reaches_write path default_options e0 ∅ Idle (CPut [1] [10; 11]) (Ok tt) e1 e0_reaches).
  - roomy.
  - fits.
  - unfold e1, run. by vm_compute.
  - fits.
Qed.

Lemma e2_reaches : reaches path default_options e2 {[[1] := Some [10; 11]]} Idle.
Proof.
  apply (reaches_flush path default_options e1 _ Idle (Ok tt) e2 e1_reaches).
  - roomy.
  - by vm_compute.
  - fits.
Qed.

Lemma e3_reaches : reaches path default_options e3 {[[1] := Some [20]]} Idle.
Proof.
  assert (Hw : write_op {[[1] := Some [10; 11]]} (op_of (CPutCommitted [1] [20] 5 Sync)) = {[[1] := Some [20]]}) by (by vm_compute).
  rewrite <- Hw. apply (reaches_write path default_options e2 _ Idle (CPutCommitted [1] [20] 5 Sync) (Ok tt) e3 e2_reaches).
  - roomy.
  - fits.
  - by vm_compute.
  - fits.
Qed.

Lemma engine_refines_map_witness :
  fst (LSMTreeEngine.get [1] e2) = Ok (Some [10; 11]) /\ fst (LSMTreeEngine.get [1] e3) = Ok (Some [20]) /\
  fst (run_client path (CDelete [1]) e3) = Ok tt.
Proof.
  split; [|split].
  - exact (proj1 (engine_refines_map path default_options e2 _ Idle eq_refl e2_reaches) [1]).
  - exact (proj1 (engine_refines_map path default_options e3 _ Idle eq_refl e3_reaches) [1]).
  - apply (engine_refines_map path default_options e3 _ Idle eq_refl e3_reaches); [fits|roomy].
Defined.


Lemma clear_undone_by_restart_witness : exists e4 e5, LSMTreeEngine.clear path e3 = (Ok tt, e4) /\ fst (LSMTreeEngine.get [1] e4) = Ok None /\
  restart e4 100 43 = (Ok tt, e5) /\ fst (LSMTreeEngine.get [1] e5) = Ok (Some [20]).
Proof.
  destruct (clear_undone_by_restart path default_options e3 _ Idle 100 43 eq_refl e3_reaches) as (e4 & e5 & Hc & Hn & Hr & Hg).
  exists e4, e5. split_and!; [exact Hc|exact (Hn [1])|exact Hr|exact (Hg [1])].
Defined.

(** A snapshot read of the engine is not repeatable: a value committed at
    timestamp 1 is read at snapshot 3; after the key is overwritten by a commit
    at timestamp 5 the same read returns nothing, because the memtable keeps
    one version per key and hides it from older snapshots. *)
Theorem snapshot_read_loses_version :
  let old := run e0 (CPutCommitted [1] [10] 1 Sync) in
  let new := run old (CPutCommitted [1] [20] 5 Sync) in
  fst (LSMTreeEngine.get_at_snapshot [1] 3 old) = Ok (Some [10]) /\
  fst (LSMTreeEngine.get_at_snapshot [1] 3 new) = Ok None.
Proof. by vm_compute. Qed.
End EngineDemo.
