(* ===== verification/LsmStore.v ===== *)
(** * The LSM store and its transactions

    Models nanograph-lsm/src/kvstore.rs and transaction.rs: the store trait
    over one engine per shard, and transactions that buffer writes and apply
    them when they commit.

    The store, its transaction manager and every transaction refer to each
    other through [Arc]; here the store's state holds the engines and the
    manager, a transaction is a value of its own, and an operation takes and
    returns what it changes.  The timestamp counter is static in the code, so
    it belongs to the store and an engine borrows it for a call.  Instants, in
    nanoseconds, and wall-clock times, in milliseconds, are arguments, as is
    the order in which a [HashMap] is visited.  [shard_stats] is left out: it
    only formats numbers. *)

From Stdlib Require Import ZArith Lia.
From stdpp Require Import gmap option strings pretty base list.
From S2P Require Import Prelude BTreeError VfsFile Integrity Wal LsmRecord LsmMemtable LsmSSTable KvtRange LsmBlob LsmMerge LsmEngine.

Open Scope Z_scope.

(** ** State *)

Module TransactionManager.

(** [active_snapshots] maps the running transactions to their snapshots. *)
Record t : Type := mk { next_tx_id : Z; active_snapshots : gmap Z Z; default_deadline : option Z }.

Definition new : t := mk 1 ∅ (Some (5 * 60 * 10 ^ 9)).
Definition set_default_deadline (m : t) (d : option Z) : t := mk (next_tx_id m) (active_snapshots m) d.

(** [values().min()]. *)
Definition min_active_snapshot_seq (m : t) : option Z :=
  match (map_to_list (active_snapshots m)).*2 with [] => None | x :: l => Some (foldr Z.min x l) end.
Definition active_transaction_count (m : t) : nat := base.size (active_snapshots m).
Definition remove_transaction (m : t) (tx_id : Z) : t := mk (next_tx_id m) (delete tx_id (active_snapshots m)) (default_deadline m).

End TransactionManager.

(** Directories resolved from a tablespace, and the options of an engine. *)
Module LSMStorageConfig.

Record t : Type := mk { data_dir : string; wal_dir : string; options : LSMTreeOptions }.

Definition new (data_dir wal_dir : string) : t := mk data_dir wal_dir default_options.
Definition with_options (data_dir wal_dir : string) (o : LSMTreeOptions) : t := mk data_dir wal_dir o.
Definition default : t := mk "/lsm/data" "/lsm/wal" default_options.

End LSMStorageConfig.

Inductive WriteOp : Type :=
| PutOp (key value : list Z)
| DeleteOp (key : list Z).

Definition op_key (o : WriteOp) : list Z := match o with PutOp k _ | DeleteOp k => k end.

Module LSMKeyValueStore.

Record t (FS F : Type) : Type := mk {
  engines : gmap Z (LSMTreeEngine.t FS F);
  tx_manager : option TransactionManager.t;
  global_timestamp : Z
}.
Arguments mk {FS F} _ _ _.
Arguments engines {FS F} _.
Arguments tx_manager {FS F} _.
Arguments global_timestamp {FS F} _.

Section monad.
Context {FS F : Type}.

Definition op (A : Type) : Type := t FS F -> kv_result A * t FS F.

Definition ret {A} (a : A) : op A := fun s => (Ok a, s).
Definition bind {A B} (m : op A) (k : A -> op B) : op B :=
  fun s =>
    match m s with
    | (Ok a, s') => k a s'
    | (Err x, s') => (Err x, s')
    | (Panic, s') => (Panic, s')
    | (Timeout, s') => (Timeout, s')
    end.

Fixpoint for_each {A} (l : list A) (body : A -> op unit) : op unit :=
  match l with
  | [] => ret tt
  | a :: l' => bind (body a) (fun _ => for_each l' body)
  end.
End monad.
Arguments op : clear implicits.

#[local] Notation "x <~ m ;; k" := (bind m (fun x => k)) (at level 100, m at next level, right associativity).
#[local] Notation "m ;;; k" := (bind m (fun _ => k)) (at level 100, right associativity).

Definition new {FS F} (clock : Z) : t FS F := mk ∅ None clock.

Section store.
Context `{!Integrity.Hashes} `{!Codecs} `{!ManifestCodec}.
Context {FS F : Type} `{!File F} `{!WriteAheadLogManager.FileSystemOps FS F}.
Context (segment_path : string -> Z -> string).
Abbreviation op := (op FS F).
Abbreviation engine := (LSMTreeEngine.t FS F).
Implicit Types (s : t FS F) (shard : Z) (key value : list Z).

Definition init_tx_manager s : t FS F := mk (engines s) (Some TransactionManager.new) (global_timestamp s).
Definition get_tx_manager s : kv_result TransactionManager.t := or_panic (tx_manager s).
Definition set_tx_manager (m : TransactionManager.t) s : t FS F := mk (engines s) (Some m) (global_timestamp s).

Definition get_engine s shard : kv_result engine := ok_or (engines s !! shard) KvShardNotFound.

(** A call of a method of the shard's engine. *)
Definition on_engine {A} shard (f : LSMTreeEngine.eng FS F A) : op A :=
  fun s =>
    match get_engine s shard with
    | Ok e =>
        let '(r, e) := f (LSMTreeEngine.set_global_timestamp (global_timestamp s) e) in
        (r, mk (<[shard := e]> (engines s)) (tx_manager s) (LSMTreeEngine.global_timestamp e))
    | Err x => (Err x, s)
    | Panic => (Panic, s)
    | Timeout => (Timeout, s)
    end.

(** [WriteAheadLogConfig::new]. *)
Definition wal_config shard : WriteAheadLogManager.WriteAheadLogConfig :=
  WriteAheadLogManager.Config shard Crc32c NoCompression NoEncryption.

(** The log goes to a file system of its own, [fresh]; the tables to another. *)
Definition create_engine_for_table (fresh : FS) (now : Z) s shard : kv_result engine * Z :=
  match WriteAheadLogManager.new segment_path fresh now ("/wal_" +:+ pretty shard) (wal_config shard) with
  | Ok wal =>
      let '(r, e) := LSMTreeEngine.new (DiskOf ∅ None ∅) (with_shard_id default_options shard) wal (global_timestamp s) now in
      ((let! _ := r in Ok e), LSMTreeEngine.global_timestamp e)
  | Err _ => (Err (KvStorageCorruption "WAL"), global_timestamp s)
  | Panic => (Panic, global_timestamp s)
  | Timeout => (Timeout, global_timestamp s)
  end.

(** One file system for both; [d] is what it holds under [data_dir]. *)
Definition create_engine_with_config (vfs : FS) (now : Z) (d : Disk) (config : LSMStorageConfig.t) s shard : kv_result engine * Z :=
  let directory fs dir :=
    match WriteAheadLogManager.fs_create_directory_all fs dir with
    | (Ok _, fs) => Ok fs
    | (Err _, _) => Err (KvStorageCorruption "VFS")
    | (Panic, _) => Panic
    | (Timeout, _) => Timeout
    end in
  let wal :=
    let! fs := directory vfs (LSMStorageConfig.data_dir config) in
    let! fs := directory fs (LSMStorageConfig.wal_dir config) in
    LSMTreeEngine.wal_err (WriteAheadLogManager.new segment_path fs now (LSMStorageConfig.wal_dir config) (wal_config shard)) in
  match wal with
  | Ok wal =>
      let '(r, e) := LSMTreeEngine.new d (with_shard_id (LSMStorageConfig.options config) shard) wal (global_timestamp s) now in
      ((let! _ := r in Ok e), LSMTreeEngine.global_timestamp e)
  | Err x => (Err x, global_timestamp s)
  | Panic => (Panic, global_timestamp s)
  | Timeout => (Timeout, global_timestamp s)
  end.

Definition create_shard (fresh : FS) (now : Z) shard : op unit :=
  fun s =>
    let '(r, clock) := create_engine_for_table fresh now s shard in
    match r with
    | Ok e => (Ok tt, mk (<[shard := e]> (engines s)) (tx_manager s) clock)
    | Err x => (Err x, mk (engines s) (tx_manager s) clock)
    | Panic => (Panic, mk (engines s) (tx_manager s) clock)
    | Timeout => (Timeout, mk (engines s) (tx_manager s) clock)
    end.

Definition drop_shard shard : op unit := fun s => (Ok tt, mk (base.delete shard (engines s)) (tx_manager s) (global_timestamp s)).

(** *** Reads and writes *)

Definition get_at_snapshot shard key (snapshot_ts : Z) : op (option (list Z)) := on_engine shard (LSMTreeEngine.get_at_snapshot key snapshot_ts).
Definition commit_entry shard key (commit_ts : Z) : op unit := on_engine shard (LSMTreeEngine.commit_entry key commit_ts).
Definition put_committed shard key value (commit_ts : Z) (d : Durability) : op unit :=
  on_engine shard (LSMTreeEngine.put_committed segment_path key value commit_ts d).
Definition delete_committed shard key (commit_ts : Z) (d : Durability) : op unit :=
  on_engine shard (LSMTreeEngine.delete_committed segment_path key commit_ts d).
Definition checkpoint_shard shard : op unit := on_engine shard LSMTreeEngine.checkpoint.

Definition get shard key : op (option (list Z)) := on_engine shard (LSMTreeEngine.get key).
Definition put shard key value : op unit := on_engine shard (LSMTreeEngine.put segment_path key value).
Definition delete shard key : op bool := _ <~ on_engine shard (LSMTreeEngine.delete segment_path key);; ret true.
Definition exists_ shard key : op bool := v <~ on_engine shard (LSMTreeEngine.get key);; ret (bool_decide (is_Some v)).

Fixpoint get_each (keys : list (list Z)) : LSMTreeEngine.eng FS F (list (option (list Z))) :=
  match keys with
  | [] => LSMTreeEngine.ret []
  | key :: keys' => LSMTreeEngine.bind (LSMTreeEngine.get key) (fun v => LSMTreeEngine.bind (get_each keys') (fun vs => LSMTreeEngine.ret (v :: vs)))
  end.
Definition batch_get shard (keys : list (list Z)) : op (list (option (list Z))) := on_engine shard (get_each keys).

Fixpoint put_each (pairs : list (list Z * list Z)) : LSMTreeEngine.eng FS F unit :=
  match pairs with
  | [] => LSMTreeEngine.ret tt
  | p :: pairs' => LSMTreeEngine.bind (LSMTreeEngine.put segment_path p.1 p.2) (fun _ => put_each pairs')
  end.
Definition batch_put shard (pairs : list (list Z * list Z)) : op unit := on_engine shard (put_each pairs).

(** Every key counts, found or not. *)
Fixpoint delete_each (keys : list (list Z)) (count : Z) : LSMTreeEngine.eng FS F Z :=
  match keys with
  | [] => LSMTreeEngine.ret count
  | key :: keys' => LSMTreeEngine.bind (LSMTreeEngine.delete segment_path key) (fun _ => delete_each keys' (count + 1))
  end.
Definition batch_delete shard (keys : list (list Z)) : op Z := on_engine shard (delete_each keys 0).

(** [retain]: the entries of a memtable in a range. *)
Definition entries_in (r : KeyRange.t) (m : MemTable.t) : list Entry.t :=
  filter (fun x => KeyRange.key_in_range (Entry.key x) r = true) (MemTable.entries m).

Definition scan_sources (r : KeyRange.t) (e : engine) : list (list Entry.t) :=
  entries_in r (LSMTreeEngine.memtable e) ::
  match LSMTreeEngine.immutable_memtable e with Some im => [entries_in r im] | None => [] end.

Definition scan shard (r : KeyRange.t) : op LSMIterator.t :=
  fun s =>
    (let! e := get_engine s shard in
     let iterator := LSMIterator.merge (scan_sources r e) (KeyRange.reverse r) in
     Ok (match KeyRange.limit r with Some l => LSMIterator.set_limit iterator l | None => iterator end), s).

Definition key_count shard : op Z :=
  fun s =>
    (let! e := get_engine s shard in
     let count := foldl (fun n l => u64 (n + u64 (Z.of_nat (num_sstables l) * 1000))) 0 (stat_levels (LSMTreeEngine.stats e)) in
     Ok (u64 (count + Z.of_nat (MemTable.entry_count (LSMTreeEngine.memtable e)))), s).

Definition clear shard : op unit := on_engine shard (LSMTreeEngine.clear segment_path).
Definition shard_exists shard : op bool := fun s => (Ok (bool_decide (is_Some (engines s !! shard))), s).

(** *** All shards *)

Section hash_order.
Context (hash_keys : gmap Z engine -> list Z).

Definition list_shards : op (list Z) := fun s => (Ok (hash_keys (engines s)), s).
Definition checkpoint_all : op unit := fun s => for_each (hash_keys (engines s)) checkpoint_shard s.
Definition flush : op unit := fun s => for_each (hash_keys (engines s)) (fun shard => on_engine shard (LSMTreeEngine.flush segment_path)) s.
Definition compact (table : option Z) : op unit :=
  match table with
  | Some shard => on_engine shard LSMTreeEngine.compact
  | None => fun s => for_each (hash_keys (engines s)) (fun shard => on_engine shard LSMTreeEngine.compact) s
  end.
End hash_order.
End store.

End LSMKeyValueStore.
Abbreviation Lsm := LSMKeyValueStore.t.

(** ** Transactions *)

Module LSMTransaction.

Record t : Type := mk {
  id : Z;
  snapshot_ts : Z;
  write_buffer : gmap Z (list WriteOp);
  committed : bool;
  rolled_back : bool;
  created_at : Z;
  deadline : option Z
}.

Definition new (id snapshot_ts : Z) (now : Z) (deadline : option Z) : t :=
  mk id snapshot_ts ∅ false false now ((fun d => now + d) <$> deadline).

Definition set_buffer (tx : t) (b : gmap Z (list WriteOp)) : t :=
  mk (id tx) (snapshot_ts tx) b (committed tx) (rolled_back tx) (created_at tx) (deadline tx).
Definition set_committed (tx : t) : t :=
  mk (id tx) (snapshot_ts tx) (write_buffer tx) true (rolled_back tx) (created_at tx) (deadline tx).
Definition set_rolled_back (tx : t) : t :=
  mk (id tx) (snapshot_ts tx) (write_buffer tx) (committed tx) true (created_at tx) (deadline tx).

Definition check_active (now : Z) (tx : t) : kv_result unit :=
  if committed tx then Err KvWriteConflict
  else if rolled_back tx then Err KvWriteConflict
  else match deadline tx with
       | Some d => if d <? now then Err KvSnapshotExpired else Ok tt
       | None => Ok tt
       end.

(** The last operation on the key. *)
Fixpoint find_op (key : list Z) (ops : list WriteOp) : option WriteOp :=
  match ops with
  | [] => None
  | o :: ops' => if decide (op_key o = key) then Some o else find_op key ops'
  end.
Definition get_from_buffer (tx : t) (table : Z) (key : list Z) : option WriteOp :=
  ops ← write_buffer tx !! table; find_op key (rev ops).

(** [entry(table).or_insert_with(Vec::new)] and [push]. *)
Definition push_op (tx : t) (table : Z) (o : WriteOp) : t :=
  set_buffer tx (<[table := default [] (write_buffer tx !! table) ++ [o]]> (write_buffer tx)).

Section ops.
Context `{!Integrity.Hashes} `{!Codecs} `{!ManifestCodec}.
Context {FS F : Type} `{!File F} `{!WriteAheadLogManager.FileSystemOps FS F}.
Context (segment_path : string -> Z -> string).
Context (hash_buffer : gmap Z (list WriteOp) -> list (Z * list WriteOp)).
Implicit Types (tx : t) (s : Lsm FS F).

Definition get (now : Z) tx (table : Z) (key : list Z) s : kv_result (option (list Z)) * Lsm FS F :=
  match check_active now tx with
  | Ok _ =>
      match get_from_buffer tx table key with
      | Some (PutOp _ value) => (Ok (Some value), s)
      | Some (DeleteOp _) => (Ok None, s)
      | None => LSMKeyValueStore.get_at_snapshot table key (snapshot_ts tx) s
      end
  | Err x => (Err x, s)
  | Panic => (Panic, s)
  | Timeout => (Timeout, s)
  end.

Definition put (now : Z) tx (table : Z) (key value : list Z) : kv_result unit * t :=
  match check_active now tx with
  | Ok _ => (Ok tt, push_op tx table (PutOp key value))
  | r => (r, tx)
  end.

(** The clock is read again by [get]. *)
Definition delete (now now' : Z) tx (table : Z) (key : list Z) s : kv_result bool * t * Lsm FS F :=
  match check_active now tx with
  | Ok _ =>
      match get now' tx table key s with
      | (Ok (Some _), s) => (Ok true, push_op tx table (DeleteOp key), s)
      | (Ok None, s) => (Ok false, tx, s)
      | (Err x, s) => (Err x, tx, s)
      | (Panic, s) => (Panic, tx, s)
      | (Timeout, s) => (Timeout, tx, s)
      end
  | Err x => (Err x, tx, s)
  | Panic => (Panic, tx, s)
  | Timeout => (Timeout, tx, s)
  end.

(** The buffered entries are collected and dropped: both branches return the
    store's iterator. *)
Definition scan (now : Z) tx (table : Z) (range : KeyRange.t) s : kv_result LSMIterator.t * Lsm FS F :=
  match check_active now tx with
  | Ok _ => LSMKeyValueStore.scan table range s
  | Err x => (Err x, s)
  | Panic => (Panic, s)
  | Timeout => (Timeout, s)
  end.

Definition apply_op (commit_ts : Z) (d : Durability) (table : Z) (o : WriteOp) : LSMKeyValueStore.op FS F unit :=
  match o with
  | PutOp key value => LSMKeyValueStore.put_committed segment_path table key value commit_ts d
  | DeleteOp key => LSMKeyValueStore.delete_committed segment_path table key commit_ts d
  end.

Definition apply_buffer (commit_ts : Z) (d : Durability) (b : list (Z * list WriteOp)) : LSMKeyValueStore.op FS F unit :=
  LSMKeyValueStore.for_each b (fun tb => LSMKeyValueStore.for_each tb.2 (apply_op commit_ts d tb.1)).

(** [commit_ts] is the wall clock.  The flag is set before the writes. *)
Definition commit (now commit_ts : Z) (d : Durability) tx s : kv_result unit * t * Lsm FS F :=
  match check_active now tx with
  | Ok _ => let '(r, s) := apply_buffer commit_ts d (hash_buffer (write_buffer tx)) s in (r, set_committed tx, s)
  | r => (r, tx, s)
  end.

Definition rollback (now : Z) tx : kv_result unit * t :=
  match check_active now tx with
  | Ok _ => (Ok tt, set_buffer (set_rolled_back tx) ∅)
  | r => (r, tx)
  end.
End ops.

End LSMTransaction.

(** ** Transactions registered with the manager *)

Module TransactionWithCleanup.
Section ops.
Context `{!Integrity.Hashes} `{!Codecs} `{!ManifestCodec}.
Context {FS F : Type} `{!File F} `{!WriteAheadLogManager.FileSystemOps FS F}.
Context (segment_path : string -> Z -> string).
Context (hash_buffer : gmap Z (list WriteOp) -> list (Z * list WriteOp)).
Implicit Types (tx : LSMTransaction.t) (s : Lsm FS F).

(** [begin_with_deadline]: take an id, register the snapshot. *)
Definition begin_with_deadline (now snapshot_ts : Z) (deadline : option Z) : LSMKeyValueStore.op FS F LSMTransaction.t :=
  fun s =>
    match LSMKeyValueStore.get_tx_manager s with
    | Ok m =>
        let id := TransactionManager.next_tx_id m in
        let m := TransactionManager.mk (u64 (id + 1)) (<[id := snapshot_ts]> (TransactionManager.active_snapshots m)) (TransactionManager.default_deadline m) in
        (Ok (LSMTransaction.new id snapshot_ts now deadline), LSMKeyValueStore.set_tx_manager m s)
    | Err x => (Err x, s)
    | Panic => (Panic, s)
    | Timeout => (Timeout, s)
    end.

Definition begin (now snapshot_ts : Z) : LSMKeyValueStore.op FS F LSMTransaction.t :=
  LSMKeyValueStore.bind (fun s => (LSMKeyValueStore.get_tx_manager s, s))
    (fun m => begin_with_deadline now snapshot_ts (TransactionManager.default_deadline m)).

Definition remove_transaction (tx_id : Z) s : Lsm FS F :=
  match LSMKeyValueStore.tx_manager s with
  | Some m => LSMKeyValueStore.set_tx_manager (TransactionManager.remove_transaction m tx_id) s
  | None => s
  end.

Definition commit (now commit_ts : Z) (d : Durability) tx s : kv_result unit * LSMTransaction.t * Lsm FS F :=
  let '(r, tx', s) := LSMTransaction.commit segment_path hash_buffer now commit_ts d tx s in
  (r, tx', match r with Panic => s | _ => remove_transaction (LSMTransaction.id tx) s end).

Definition rollback (now : Z) tx s : kv_result unit * LSMTransaction.t * Lsm FS F :=
  let '(r, tx') := LSMTransaction.rollback now tx in
  (r, tx', remove_transaction (LSMTransaction.id tx) s).
End ops.
End TransactionWithCleanup.
