(* ===== verification/LsmTxn.v ===== *)
(** * What LSM transactions promise

    Over shards that hold their last writes, a transaction reads its own writes
    first, and a commit makes the store return what the transaction returned,
    for every order the buffer is visited in; a finished transaction refuses
    every call. *)

From Stdlib Require Import ZArith Lia.
From stdpp Require Import sorting gmap option strings base list.
From S2P Require Import Prelude BTreeError VfsFile Integrity Wal WalSpec LsmRecord LsmMemtable LsmSSTable LsmSSTableSpec KvtRange LsmBlob LsmMerge LsmEngine LsmEngineInv LsmEngineSpec LsmStore.

Open Scope Z_scope.

(** ** Buffers *)

Definition op_value (o : WriteOp) : option (list Z) := match o with PutOp _ v => Some v | DeleteOp _ => None end.
Definition write_buffered (lw : writes) (o : WriteOp) : writes := <[op_key o := op_value o]> lw.

Lemma find_op_app key l1 l2 : LSMTransaction.find_op key (l1 ++ l2) =
  match LSMTransaction.find_op key l1 with Some o => Some o | None => LSMTransaction.find_op key l2 end.
Proof. induction l1 as [|o l1 IH]; [done|]. cbn. by case_decide. Qed.

Lemma writes_lookup ops lw k : foldl write_buffered lw ops !! k =
  match LSMTransaction.find_op k (rev ops) with Some o => Some (op_value o) | None => lw !! k end.
Proof.
  revert lw. induction ops as [|o ops IH]; intros lw; [done|]. cbn [foldl rev]. rewrite IH, find_op_app.
  destruct (LSMTransaction.find_op k (rev ops)); [done|]. cbn. unfold write_buffered.
  case_decide as E; [rewrite E; apply lookup_insert_eq|by apply lookup_insert_ne].
Qed.

(** Every buffered operation with its shard, in the order a commit applies them. *)
Definition flat (b : list (Z * list WriteOp)) : list (Z * WriteOp) := b ≫= (fun tb => pair tb.1 <$> tb.2).

Definition write_shard (m : gmap Z writes) (x : Z * WriteOp) : gmap Z writes := alter (fun lw => write_buffered lw x.2) x.1 m.

Lemma foldl_shard sh ops m : foldl write_shard m (pair sh <$> ops) = alter (fun lw => foldl write_buffered lw ops) sh m.
Proof.
  apply map_eq. intros i. revert m. induction ops as [|o ops IH]; intros m; cbn [foldl fmap list_fmap]; [|rewrite IH; unfold write_shard; cbn];
    (destruct (decide (i = sh)) as [->|]; [rewrite !lookup_alter_eq|by rewrite !lookup_alter_ne]); by destruct (m !! sh).
Qed.

Lemma foldl_flat b m sh : NoDup b.*1 -> foldl write_shard m (flat b) !! sh =
  match (list_to_map b : gmap Z (list WriteOp)) !! sh with
  | Some ops => (fun lw => foldl write_buffered lw ops) <$> m !! sh
  | None => m !! sh
  end.
Proof.
  revert m. induction b as [|[t ops] b IH]; intros m Hn; [done|]. cbn in Hn. apply NoDup_cons in Hn as [Ht Hn].
  unfold flat. cbn [mbind list_bind fst snd]. rewrite foldl_app, foldl_shard. fold (flat b). rewrite IH by done. cbn [list_to_map foldr fst snd].
  destruct (decide (sh = t)) as [->|Hne].
  - rewrite not_elem_of_list_to_map_1 by done. by rewrite lookup_insert_eq, lookup_alter_eq.
  - by rewrite lookup_insert_ne, lookup_alter_ne.
Qed.

Section properties.
Context `{!Integrity.Hashes} `{!Integrity.HashLaws} `{!Codecs} `{!CodecLaws} `{!ManifestCodec} `{!ManifestLaws}.
Context {FS F : Type} `{!File F} `{!FileLaws F} `{!WriteAheadLogManager.FileSystemOps FS F}.
Context (segment_path : string -> Z -> string).
Context (hash_buffer : gmap Z (list WriteOp) -> list (Z * list WriteOp)).
Hypothesis hash_buffer_law : forall b, hash_buffer b ≡ₚ map_to_list b.
Abbreviation engine := (LSMTreeEngine.t FS F).
Abbreviation store := (Lsm FS F).
Implicit Types (e : engine) (s : store) (tx : LSMTransaction.t).

(** An engine that meets its invariant, with the writes it was given. *)
Definition engine_holds e (lw : writes) : Prop := exists ops tbs ph, inv e ops tbs ph /\ last_writes ops = lw.
Definition holds s (m : gmap Z writes) : Prop := forall sh, option_Forall2 engine_holds (LSMKeyValueStore.engines s !! sh) (m !! sh).

Lemma inv_clock e ops tbs ph ts : inv e ops tbs ph -> inv (LSMTreeEngine.set_global_timestamp ts e) ops tbs ph.
Proof. intros []. by constructor. Qed.

Lemma holds_insert s m sh e lw mgr clock : holds s m -> engine_holds e lw ->
  holds (LSMKeyValueStore.mk (<[sh := e]> (LSMKeyValueStore.engines s)) mgr clock) (<[sh := lw]> m).
Proof.
  intros Hs He sh'. cbn. destruct (decide (sh' = sh)) as [->|Hne]; [rewrite !lookup_insert_eq; by constructor|]. by rewrite !lookup_insert_ne.
Qed.

Lemma on_engine_some {A} s sh e (f : LSMTreeEngine.eng FS F A) : LSMKeyValueStore.engines s !! sh = Some e ->
  LSMKeyValueStore.on_engine sh f s =
  (let '(r, e') := f (LSMTreeEngine.set_global_timestamp (LSMKeyValueStore.global_timestamp s) e) in
   (r, LSMKeyValueStore.mk (<[sh := e']> (LSMKeyValueStore.engines s)) (LSMKeyValueStore.tx_manager s) (LSMTreeEngine.global_timestamp e'))).
Proof. intros He. unfold LSMKeyValueStore.on_engine, LSMKeyValueStore.get_engine. by rewrite He. Qed.

Lemma on_engine_none {A} s sh (f : LSMTreeEngine.eng FS F A) : LSMKeyValueStore.engines s !! sh = None ->
  LSMKeyValueStore.on_engine sh f s = (Err KvShardNotFound, s).
Proof. intros He. unfold LSMKeyValueStore.on_engine, LSMKeyValueStore.get_engine. by rewrite He. Qed.

Lemma store_get s m sh k : holds s m -> (LSMKeyValueStore.get sh k s).1 =
  match m !! sh with Some lw => Ok (mjoin (lw !! k)) | None => Err KvShardNotFound end.
Proof using All - (segment_path hash_buffer hash_buffer_law).
  intros Hs. pose proof (Hs sh) as Hsh. unfold LSMKeyValueStore.get. inversion Hsh as [e lw (ops & tbs & ph & Hinv & <-) He Hm|He Hm]; symmetry in He.
  - rewrite (on_engine_some _ _ e) by done. apply (inv_clock _ _ _ _ (LSMKeyValueStore.global_timestamp s)) in Hinv.
    destruct (read_spec _ _ _ _ k Hinv) as (e' & -> & _). done.
  - by rewrite on_engine_none.
Qed.

(** ** Commits *)

Definition client_of (ts : Z) (d : Durability) (o : WriteOp) : ClientOp :=
  match o with PutOp k v => CPutCommitted k v ts d | DeleteOp k => CDeleteCommitted k ts d end.

Lemma apply_op_client ts d sh o s : LSMTransaction.apply_op segment_path ts d sh o s =
  LSMKeyValueStore.on_engine sh (run_client segment_path (client_of ts d o)) s.
Proof. by destruct o. Qed.

(** Room for each write of a commit where it is applied. *)
Fixpoint roomy (ts : Z) (d : Durability) (l : list (Z * WriteOp)) s : Prop :=
  match l with
  | [] => True
  | (sh, o) :: l' =>
      let s' := snd (LSMTransaction.apply_op segment_path ts d sh o s) in
      logged (op_of (client_of ts d o)) /\
      match LSMKeyValueStore.engines s !! sh with Some e => room e | None => False end /\
      match LSMKeyValueStore.engines s' !! sh with Some e => files_fit e | None => True end /\
      roomy ts d l' s'
  end.

Lemma apply_op_spec ts d sh o s m : holds s m -> roomy ts d [(sh, o)] s ->
  exists s', LSMTransaction.apply_op segment_path ts d sh o s = (Ok tt, s') /\ holds s' (write_shard m (sh, o)).
Proof using All - (hash_buffer hash_buffer_law).
  intros Hs (Hlog & Hroom & Hfit & _). rewrite apply_op_client in *. pose proof (Hs sh) as Hsh.
  inversion Hsh as [e lw (ops & tbs & ph & Hinv & <-) He Hm|He Hm]; symmetry in He; rewrite He in Hroom; [|done].
  rewrite (on_engine_some _ _ e) in * by done.
  destruct (client_spec segment_path _ ops tbs ph (client_of ts d o) (inv_clock _ _ _ _ (LSMKeyValueStore.global_timestamp s) Hinv) Hlog Hroom) as (e' & ops' & tbs' & Hrun & Hlw & Hinv').
  rewrite Hrun in *. cbn in Hfit. rewrite lookup_insert_eq in Hfit. eexists. split; [done|].
  unfold write_shard. cbn [fst snd]. replace (alter _ sh m) with (<[sh := write_buffered (last_writes ops) o]> m).
  - apply holds_insert; [done|]. exists ops', tbs', ph. split; [by apply Hinv'|]. rewrite Hlw. by destruct o.
  - symmetry. apply map_eq. intros i. destruct (decide (i = sh)) as [->|]; [rewrite lookup_alter_eq, lookup_insert_eq, <- Hm; done|by rewrite lookup_alter_ne, lookup_insert_ne].
Qed.

Lemma roomy_cons ts d x l s : roomy ts d (x :: l) s -> roomy ts d [x] s /\ roomy ts d l (snd (LSMTransaction.apply_op segment_path ts d x.1 x.2 s)).
Proof. destruct x as [sh o]. cbn. tauto. Qed.

Lemma roomy_one ts d sh o s e e' : LSMKeyValueStore.engines s !! sh = Some e ->
  LSMKeyValueStore.engines (LSMTransaction.apply_op segment_path ts d sh o s).2 !! sh = Some e' ->
  logged (op_of (client_of ts d o)) -> room e -> files_fit e' -> roomy ts d [(sh, o)] s.
Proof. intros He He' Hl Hr Hf. cbn [roomy]. by rewrite He, He'. Qed.

Lemma apply_ops_spec ts d l : forall s m, holds s m -> roomy ts d l s ->
  exists s', LSMKeyValueStore.for_each l (fun x => LSMTransaction.apply_op segment_path ts d x.1 x.2) s = (Ok tt, s') /\ holds s' (foldl write_shard m l).
Proof using All - (hash_buffer hash_buffer_law).
  induction l as [|[sh o] l IH]; intros s m Hs Hr; [by exists s|]. apply roomy_cons in Hr as [Hr1 Hr2].
  destruct (apply_op_spec ts d sh o s m Hs Hr1) as (s1 & Hrun & Hs1). cbn [LSMKeyValueStore.for_each]. unfold LSMKeyValueStore.bind.
  cbn [fst snd] in *. rewrite Hrun in *. by apply IH.
Qed.

Lemma for_each_app {A} (l1 l2 : list A) (f : A -> LSMKeyValueStore.op FS F unit) s :
  LSMKeyValueStore.for_each (l1 ++ l2) f s = LSMKeyValueStore.bind (LSMKeyValueStore.for_each l1 f) (fun _ => LSMKeyValueStore.for_each l2 f) s.
Proof.
  revert s. induction l1 as [|a l1 IH]; intros s; [done|]. cbn. unfold LSMKeyValueStore.bind in *. destruct (f a s) as [[] s']; done.
Qed.

Lemma for_each_map {A B} (g : A -> B) (l : list A) (f : B -> LSMKeyValueStore.op FS F unit) s :
  LSMKeyValueStore.for_each (g <$> l) f s = LSMKeyValueStore.for_each l (fun a => f (g a)) s.
Proof. revert s. induction l as [|a l IH]; intros s; [done|]. cbn. unfold LSMKeyValueStore.bind. destruct (f (g a) s) as [[] s']; done. Qed.

Lemma apply_buffer_flat ts d b s : LSMTransaction.apply_buffer segment_path ts d b s =
  LSMKeyValueStore.for_each (flat b) (fun x => LSMTransaction.apply_op segment_path ts d x.1 x.2) s.
Proof.
  unfold LSMTransaction.apply_buffer. revert s. induction b as [|[t ops] b IH]; intros s; [done|]. unfold flat. cbn [mbind list_bind fst snd].
  rewrite for_each_app. cbn [LSMKeyValueStore.for_each fst snd]. unfold LSMKeyValueStore.bind. rewrite for_each_map. cbn [fst snd].
  destruct (LSMKeyValueStore.for_each ops _ s) as [[] s']; done.
Qed.

Lemma buffer_map tx : NoDup (hash_buffer (LSMTransaction.write_buffer tx)).*1 /\ list_to_map (hash_buffer (LSMTransaction.write_buffer tx)) = LSMTransaction.write_buffer tx.
Proof using hash_buffer_law. apply map_visits, hash_buffer_law. Qed.

(** ** Reads *)

(** What a transaction returns for a key it wrote. *)
Definition own_write tx (sh : Z) (k : list Z) : option (option (list Z)) := op_value <$> LSMTransaction.get_from_buffer tx sh k.

(** Every entry still in memory was committed at or before the snapshot. *)
Definition fresh_snapshot (ts : Z) e : Prop :=
  Forall (fun x => Entry.is_visible x ts = true) (MemTable.entries (LSMTreeEngine.memtable e)) /\
  match LSMTreeEngine.immutable_memtable e with
  | Some im => Forall (fun x => Entry.is_visible x ts = true) (MemTable.entries im)
  | None => True
  end.

Lemma get_elem {V} k l (v : V) : BTreeMap.get k l = Some v -> v ∈ l.*2.
Proof.
  induction l as [|[k' v'] l IH]; [done|]. cbn. destruct (bytes_cmp k k'); intros Hg; [injection Hg as ->; left|done|right; by apply IH].
Qed.

Lemma snapshot_memtable mt k ts : Forall (fun x => Entry.is_visible x ts = true) (MemTable.entries mt) ->
  MemTable.get_at_snapshot mt k ts = MemTable.get mt k.
Proof.
  intros Hf. unfold MemTable.get_at_snapshot, MemTable.get. destruct (BTreeMap.get k (MemTable.data mt)) as [x|] eqn:E; [|done].
  rewrite Forall_forall in Hf. by rewrite (Hf x (get_elem k _ x E)).
Qed.

Lemma snapshot_engine e k ts : fresh_snapshot ts e -> LSMTreeEngine.get_at_snapshot k ts e = LSMTreeEngine.get k e.
Proof.
  intros [Hm Hi]. unfold LSMTreeEngine.get_at_snapshot, LSMTreeEngine.get, LSMTreeEngine.read_with, LSMTreeEngine.count_read, LSMTreeEngine.bind, LSMTreeEngine.modify.
  cbn [LSMTreeEngine.memtable LSMTreeEngine.immutable_memtable LSMTreeEngine.set_total_reads]. rewrite snapshot_memtable by done.
  destruct (LSMTreeEngine.immutable_memtable e) as [im|]; [|done]. cbn [mbind option_bind]. by rewrite snapshot_memtable.
Qed.

(** Reads inside an active transaction: a key the transaction wrote reads
    as its last write, a deleted one as absent, and any other key as the store
    holds it, provided the snapshot is not older than what is in memory. *)
Theorem lsm_txn_read now tx sh k s :
  LSMTransaction.check_active now tx = Ok tt ->
  (forall e, LSMKeyValueStore.engines s !! sh = Some e -> fresh_snapshot (LSMTransaction.snapshot_ts tx) e) ->
  (LSMTransaction.get now tx sh k s).1 =
  match own_write tx sh k with Some v => Ok v | None => (LSMKeyValueStore.get sh k s).1 end.
Proof using Type.
  intros Ha Hf. unfold LSMTransaction.get, own_write. rewrite Ha. destruct (LSMTransaction.get_from_buffer tx sh k) as [[]|]; [done..|]. cbn [fmap option_fmap option_map].
  unfold LSMKeyValueStore.get_at_snapshot, LSMKeyValueStore.get. destruct (LSMKeyValueStore.engines s !! sh) as [e|] eqn:He.
  - rewrite !(on_engine_some _ _ e) by done. rewrite snapshot_engine; [done|]. exact (Hf e eq_refl).
  - by rewrite !on_engine_none.
Qed.


(** ** Finished transactions *)

Inductive Call : Type :=
| CallGet (sh : Z) (k : list Z)
| CallPut (sh : Z) (k v : list Z)
| CallDelete (sh : Z) (k : list Z)
| CallScan (sh : Z) (r : KeyRange.t)
| CallCommit (ts : Z) (d : Durability)
| CallRollback.

Definition status {A} (r : kv_result A) : kv_result unit := let! _ := r in Ok tt.

(** A call at an instant, as the manager's wrapper makes it. *)
Definition call (now : Z) (c : Call) (x : LSMTransaction.t * store) : kv_result unit * (LSMTransaction.t * store) :=
  let '(tx, s) := x in
  match c with
  | CallGet sh k => let '(r, s) := LSMTransaction.get now tx sh k s in (status r, (tx, s))
  | CallPut sh k v => let '(r, tx) := LSMTransaction.put now tx sh k v in (r, (tx, s))
  | CallDelete sh k => let '(r, tx, s) := LSMTransaction.delete now now tx sh k s in (status r, (tx, s))
  | CallScan sh r => let '(r, s) := LSMTransaction.scan now tx sh r s in (status r, (tx, s))
  | CallCommit ts d => let '(r, tx, s) := TransactionWithCleanup.commit segment_path hash_buffer now ts d tx s in (r, (tx, s))
  | CallRollback => let '(r, tx, s) := TransactionWithCleanup.rollback now tx s in (r, (tx, s))
  end.

Fixpoint calls (cs : list (Z * Call)) (x : LSMTransaction.t * store) : list (kv_result unit) * (LSMTransaction.t * store) :=
  match cs with
  | [] => ([], x)
  | (now, c) :: cs' => let '(r, x) := call now c x in let '(rs, x) := calls cs' x in (r :: rs, x)
  end.

Definition finished tx : Prop := LSMTransaction.committed tx = true \/ LSMTransaction.rolled_back tx = true.

Lemma finished_inactive now tx : finished tx -> LSMTransaction.check_active now tx = Err KvWriteConflict.
Proof. intros [Hc|Hc]; unfold LSMTransaction.check_active; rewrite Hc; [done|]. by destruct (LSMTransaction.committed tx). Qed.

Lemma finished_call now c tx s : finished tx ->
  exists s', call now c (tx, s) = (Err KvWriteConflict, (tx, s')) /\ LSMKeyValueStore.engines s' = LSMKeyValueStore.engines s.
Proof.
  intros Hf. pose proof (finished_inactive now tx Hf) as Hi.
  destruct c; cbn [call]; unfold LSMTransaction.get, LSMTransaction.put, LSMTransaction.delete, LSMTransaction.scan, TransactionWithCleanup.commit,
    TransactionWithCleanup.rollback, LSMTransaction.commit, LSMTransaction.rollback; rewrite Hi; eexists; (split; [reflexivity|]); try reflexivity;
    unfold TransactionWithCleanup.remove_transaction; by destruct (LSMKeyValueStore.tx_manager s).
Qed.

(** A transaction that has committed or rolled back is final: every later
    call on it, in any sequence and at any instant, is refused with a write
    conflict, and changes neither the transaction nor any shard.  A commit or
    rollback that was not refused finishes the transaction, even when applying
    its writes failed. *)
Theorem lsm_txn_final tx s :
  (finished tx -> forall cs, exists s', calls cs (tx, s) = ((fun _ => Err KvWriteConflict) <$> cs, (tx, s')) /\
     LSMKeyValueStore.engines s' = LSMKeyValueStore.engines s) /\
  (forall now ts d, LSMTransaction.check_active now tx = Ok tt ->
     finished (call now (CallCommit ts d) (tx, s)).2.1 /\ finished (call now CallRollback (tx, s)).2.1).
Proof using Type.
  split.
  - intros Hf cs. revert s. induction cs as [|[now c] cs IH]; intros s; [by exists s|]. cbn [calls].
    destruct (finished_call now c tx s Hf) as (s1 & -> & He). destruct (IH s1) as (s2 & -> & He2). exists s2. split; [done|congruence].
  - intros now ts d Ha. cbn [call]. unfold TransactionWithCleanup.commit, TransactionWithCleanup.rollback, LSMTransaction.commit, LSMTransaction.rollback. rewrite Ha.
    destruct (LSMTransaction.apply_buffer _ _ _ _ _) as [r s1]. split; [by left|by right].
Qed.
End properties.

(** ** A concrete store *)

Module TxnDemo.
Import PolyHash EngineDemo.
#[local] Existing Instances poly_hashes poly_laws TableWitness.toy_codecs TableWitness.toy_codec_laws demo_codec demo_codec_laws.

(** A file system on which nothing exists and every file can be created. *)
#[local] Instance empty_fs : WriteAheadLogManager.FileSystemOps unit MemoryFile.t := {|
  WriteAheadLogManager.fs_exists _ _ := Ok false;
  WriteAheadLogManager.fs_create_directory_all _ _ := (Ok tt, tt);
  WriteAheadLogManager.fs_open_file _ _ := Err PathMissing;
  WriteAheadLogManager.fs_create_file _ p := (Ok (MemoryFile.new p), tt);
  WriteAheadLogManager.fs_remove_file _ _ := (Err PathMissing, tt)
|}.

Abbreviation store := (Lsm unit MemoryFile.t).

Definition s0 : store := LSMKeyValueStore.init_tx_manager (snd (LSMKeyValueStore.create_shard path tt 1700 7 (LSMKeyValueStore.new 1))).

Definition the_log : WriteAheadLogFile.t MemoryFile.t := Eval vm_compute in
  match WriteAheadLogFile.create (MemoryFile.new "/wal_7") 1700 7 0 0 Crc32c NoCompression NoEncryption 0 with
  | Ok w => w
  | _ => WriteAheadLogFile.mk (MemoryFile.new "/wal_7") 7 0 0 69 Crc32c
  end.

Definition fresh_engine : engine :=
  snd (LSMTreeEngine.new (DiskOf ∅ None ∅) (with_shard_id default_options 7) (WriteAheadLogManager.mk tt "/wal_7" 7 the_log []) 1 1700).

Lemma s0_holds : holds s0 {[7 := ∅]}.
Proof.
  assert (He : LSMKeyValueStore.engines s0 = {[7 := fresh_engine]}) by (by vm_compute). intros sh. rewrite He.
  destruct (decide (sh = 7)) as [->|Hne]; [|rewrite !lookup_singleton_ne by done; constructor]. rewrite !lookup_singleton_eq. constructor.
  assert (Hb : bytes_of (MemoryFile.new "/wal_7") = []) by reflexivity.
  assert (Hc : WriteAheadLogFile.create (MemoryFile.new "/wal_7") 1700 7 0 0 Crc32c NoCompression NoEncryption 0 = Ok the_log) by (by vm_compute).
  destruct (engine_new_inv path (with_shard_id default_options 7) (MemoryFile.new "/wal_7") tt "/wal_7" 1700 7 Crc32c NoCompression NoEncryption the_log 1 1700
    eq_refl Hb ltac:(lia) ltac:(lia) Hc) as (e & Hnew & Hinv).
  exists [], [], Idle. split; [|done]. unfold fresh_engine. by rewrite Hnew.
Qed.

(** Two transactions that start together and write one key. *)
Definition begun (s : store) : LSMTransaction.t * store :=
  match TransactionWithCleanup.begin 0 2000 s with (Ok tx, s) => (tx, s) | (_, s) => (LSMTransaction.new 0 0 0 None, s) end.
Definition tx1 : LSMTransaction.t := snd (LSMTransaction.put 1 (begun s0).1 7 [1] [11]).
Definition tx2 : LSMTransaction.t := snd (LSMTransaction.put 1 (begun (begun s0).2).1 7 [1] [22]).
Definition s2 : store := (begun (begun s0).2).2.

Lemma s2_holds : holds s2 {[7 := ∅]}.
Proof. intros sh. replace (LSMKeyValueStore.engines s2) with (LSMKeyValueStore.engines s0) by (by vm_compute). apply s0_holds. Qed.

Definition engine_of (s : store) : engine := default fresh_engine (LSMKeyValueStore.engines s !! 7).

Lemma tx1_roomy : roomy path 3000 Sync (flat (map_to_list (LSMTransaction.write_buffer tx1))) s2.
Proof.
  replace (flat _) with [(7, PutOp [1] [11])] by (by vm_compute).
  apply (roomy_one path 3000 Sync 7 (PutOp [1] [11]) s2 fresh_engine (engine_of (LSMTransaction.apply_op path 3000 Sync 7 (PutOp [1] [11]) s2).2)); [by vm_compute..| | |].
  - fits.
  - roomy.
  - fits.
Qed.

Lemma lsm_txn_read_witness : (LSMTransaction.get 2 tx1 7 [1] s2).1 = Ok (Some [11]) /\ (LSMTransaction.get 2 tx2 7 [9] s2).1 = (LSMKeyValueStore.get 7 [9] s2).1.
Proof.
  assert (Hf : forall e ts, LSMKeyValueStore.engines s2 !! 7 = Some e -> fresh_snapshot ts e).
  { intros e ts He. replace (LSMKeyValueStore.engines s2 !! 7) with (Some fresh_engine) in He by (by vm_compute). injection He as <-.
    split; vm_compute; constructor. }
  split.
  - exact (lsm_txn_read 2 tx1 7 [1] s2 eq_refl (fun e => Hf e _)).
  - exact (lsm_txn_read 2 tx2 7 [9] s2 eq_refl (fun e => Hf e _)).
Defined.


Lemma lsm_txn_final_witness : exists s', calls path map_to_list [(9, CallPut 7 [1] [2]); (9, CallCommit 1 Sync)] (LSMTransaction.set_committed tx1, s2) =
  ([Err KvWriteConflict; Err KvWriteConflict], (LSMTransaction.set_committed tx1, s')).
Proof.
  destruct (proj1 (lsm_txn_final path map_to_list (LSMTransaction.set_committed tx1) s2) (or_introl eq_refl) [(9, CallPut 7 [1] [2]); (9, CallCommit 1 Sync)]) as (s' & Hc & _).
  exists s'. exact Hc.
Defined.

(** Both transactions commit: the write of the first is lost. *)
Lemma lost_update :
  let '(r1, _, s3) := TransactionWithCleanup.commit path map_to_list 5 3000 Sync tx1 s2 in
  let '(r2, _, s4) := TransactionWithCleanup.commit path map_to_list 6 3001 Sync tx2 s3 in
  r1 = Ok tt /\ r2 = Ok tt /\ (LSMKeyValueStore.get 7 [1] s4).1 = Ok (Some [22]).
Proof. by vm_compute. Qed.

Definition items (r : kv_result LSMIterator.t) : option (list (list Z * list Z)) := match r with Ok it => Some (LSMIterator.entries it) | _ => None end.

(** Scans of the LSM store read the memtables only: a key that was written
    and listed by a scan disappears from scans once a flush has moved it to a
    table, while [get] still returns it; and a scan inside a transaction does
    not list what the transaction wrote. *)
Theorem scan_misses_data :
  let s := snd (LSMKeyValueStore.put path 7 [1] [10] s0) in
  let s' := snd (LSMKeyValueStore.flush path (fun m => (map_to_list m).*1) s) in
  items (LSMKeyValueStore.scan 7 KeyRange.all s).1 = Some [([1], [10])] /\
  items (LSMKeyValueStore.scan 7 KeyRange.all s').1 = Some [] /\ (LSMKeyValueStore.get 7 [1] s').1 = Ok (Some [10]) /\
  items (LSMTransaction.scan 2 tx1 7 KeyRange.all s2).1 = Some [] /\ (LSMTransaction.get 2 tx1 7 [1] s2).1 = Ok (Some [11]).
Proof. by vm_compute. Qed.
End TxnDemo.
