(* ===== verification/Art.v ===== *)
(** * Adaptive radix tree

    Models nanograph-art/src/node.rs, tree.rs and iterator.rs: the five node
    kinds, lookup, insertion with path splitting and node growth, removal with
    shrinking and path compression, and iteration.

    A Rust array is a list of its fixed length.  Nodes keep [num_children]
    within their capacity, so an array access by it is in range; indexing the
    searched key can be out of range and panics.  [Arc]s share immutable nodes
    and are transparent.  Recursion that consumes the key takes as fuel the
    length of the key plus one. *)

From Stdlib Require Import ZArith Lia.
From stdpp Require Import option strings base list.
From S2P Require Import Prelude BTreeError.

Open Scope Z_scope.

Inductive ArtError : Type :=
| InvalidKey (msg : string)
| NodeCapacityExceeded
| ArtShardNotFound
| ArtStorageCorruption (msg : string)
| ArtInternal (msg : string).

Abbreviation art_result := (result ArtError).

Definition art_display (e : ArtError) : string :=
  match e with
  | InvalidKey m => "Invalid Key: " +:+ m
  | NodeCapacityExceeded => "Node capacity exceeded"
  | ArtShardNotFound => "Shard not found: "
  | ArtStorageCorruption m => "Storage Corruption: " +:+ m
  | ArtInternal m => "Internal Error: " +:+ m
  end.

Definition art_error_from (e : ArtError) : KeyValueError :=
  match e with
  | InvalidKey v => KvInvalidKey v
  | NodeCapacityExceeded => KvInternal "Node capacity exceeded"
  | ArtShardNotFound => KvShardNotFound
  | ArtStorageCorruption m => KvStorageCorruption m
  | other => KvInternal (art_display other)
  end.

(** ** Nodes *)

Record NodeHeader (V : Type) : Type := Header { num_children : nat; partial_key : list Z; node_value : option V }.
Arguments Header {V} _ _ _.
Arguments num_children {V} _.
Arguments partial_key {V} _.
Arguments node_value {V} _.

Inductive Node (V : Type) : Type :=
| Leaf (key : list Z) (value : V)
| Node4 (header : NodeHeader V) (keys : list Z) (children : list (option (Node V)))
| Node16 (header : NodeHeader V) (keys : list Z) (children : list (option (Node V)))
| Node48 (header : NodeHeader V) (child_index : list Z) (children : list (option (Node V)))
| Node256 (header : NodeHeader V) (children : list (option (Node V))).
Arguments Leaf {V} _ _.
Arguments Node4 {V} _ _ _.
Arguments Node16 {V} _ _ _.
Arguments Node48 {V} _ _ _.
Arguments Node256 {V} _ _.

Section node.
Context {V : Type}.
Implicit Types (n c : Node V) (h : NodeHeader V) (b : Z).

Definition new_leaf (k : list Z) (v : V) : Node V := Leaf k v.
Definition new_node4 (p : list Z) : Node V := Node4 (Header 0 p None) (replicate 4 0) (replicate 4 None).
Definition new_node16 (p : list Z) : Node V := Node16 (Header 0 p None) (replicate 16 0) (replicate 16 None).
Definition new_node48 (p : list Z) : Node V := Node48 (Header 0 p None) (replicate 256 255) (replicate 48 None).
Definition new_node256 (p : list Z) : Node V := Node256 (Header 0 p None) (replicate 256 None).

Definition is_leaf n : bool := match n with Leaf _ _ => true | _ => false end.

Definition header_of n : option (NodeHeader V) :=
  match n with
  | Leaf _ _ => None
  | Node4 h _ _ | Node16 h _ _ | Node48 h _ _ | Node256 h _ => Some h
  end.

Definition partial n : list Z := match header_of n with Some h => partial_key h | None => [] end.
Definition children_count n : nat := match header_of n with Some h => num_children h | None => 0%nat end.
Definition inner_value n : option V := h ← header_of n; node_value h.

(** The first of the used keys that equals [b]. *)
Definition find_key4 (count : nat) (keys : list Z) b : option nat := fst <$> list_find (fun x => x = b) (take count keys).

(** The loop [while left < right] of [Node16]; an interval of [fuel] keys. *)
Fixpoint find_key16 (fuel : nat) (keys : list Z) b (left right : nat) : option nat :=
  match fuel with
  | O => None
  | S fuel' =>
      if (left <? right)%nat then
        let mid := ((left + right) / 2)%nat in
        match keys !! mid with
        | None => None
        | Some x =>
            if x <? b then find_key16 fuel' keys b (S mid) right
            else if b <? x then find_key16 fuel' keys b left mid
            else Some mid
        end
      else None
  end.

(** Slot of a byte in a [Node48]; 255 is none. *)
Definition slot (index : list Z) b : option nat :=
  match index !! Z.to_nat b with
  | Some i => if i =? 255 then None else Some (Z.to_nat i)
  | None => None
  end.

Definition find_child n b : option (Node V) :=
  match n with
  | Leaf _ _ => None
  | Node4 h keys cs => i ← find_key4 (num_children h) keys b; mjoin (cs !! i)
  | Node16 h keys cs => i ← find_key16 (S (num_children h)) keys b 0 (num_children h); mjoin (cs !! i)
  | Node48 _ index cs => i ← slot index b; mjoin (cs !! i)
  | Node256 _ cs => mjoin (cs !! Z.to_nat b)
  end.

Definition with_header n h : Node V :=
  match n with
  | Leaf _ _ => n
  | Node4 _ ks cs => Node4 h ks cs
  | Node16 _ ks cs => Node16 h ks cs
  | Node48 _ ix cs => Node48 h ix cs
  | Node256 _ cs => Node256 h cs
  end.

Definition map_header (f : NodeHeader V -> NodeHeader V) n : Node V :=
  match header_of n with Some h => with_header n (f h) | None => n end.

Definition set_value (v : option V) h : NodeHeader V := Header (num_children h) (partial_key h) v.
Definition set_partial (p : list Z) h : NodeHeader V := Header (num_children h) p (node_value h).
Definition set_count (k : nat) h : NodeHeader V := Header k (partial_key h) (node_value h).

Definition set_node_value n (v : V) : Node V := map_header (set_value (Some v)) n.
Definition set_node_value_unchecked n (v : V) : Node V := map_header (set_value (Some v)) n.
Definition update_partial n (p : list Z) : Node V := map_header (set_partial p) n.

(** ** Adding children *)

(** Shift the used entries from [pos] on one to the right and store [x]. *)
Definition array_insert {A} (pos count : nat) (x : A) (l : list A) : list A :=
  take pos l ++ x :: take (count - pos) (drop pos l) ++ drop (S count) l.

(** The first used key greater than [b], or the end. *)
Definition insert_pos (count : nat) (keys : list Z) b : nat :=
  match list_find (fun x => b < x) (take count keys) with Some (i, _) => i | None => count end.

Definition add_child_unchecked n b c : Node V :=
  match n with
  | Node4 h keys cs =>
      let idx := num_children h in
      Node4 (set_count (S idx) h) (<[idx := b]> keys) (<[idx := Some c]> cs)
  | _ => n
  end.

Definition add_child_to_node4 h (keys : list Z) (cs : list (option (Node V))) b c : Node V :=
  let idx := num_children h in
  let pos := insert_pos idx keys b in
  Node4 (set_count (S idx) h) (array_insert pos idx b keys) (array_insert pos idx (Some c) cs).

Definition add_child_to_node16 h (keys : list Z) (cs : list (option (Node V))) b c : Node V :=
  let idx := num_children h in
  let pos := insert_pos idx keys b in
  Node16 (set_count (S idx) h) (array_insert pos idx b keys) (array_insert pos idx (Some c) cs).

(** [idx as u8]. *)
Definition add_child_to_node48 h (index : list Z) (cs : list (option (Node V))) b c : Node V :=
  let idx := num_children h in
  Node48 (set_count (S idx) h) (<[Z.to_nat b := Z.of_nat idx mod 256]> index) (<[idx := Some c]> cs).

Definition add_child_to_node256 h (cs : list (option (Node V))) b c : Node V :=
  Node256 (set_count (S (num_children h)) h) (<[Z.to_nat b := Some c]> cs).

Definition grow_node4_to_node16 h (keys : list Z) (cs : list (option (Node V))) : list Z * list (option (Node V)) :=
  let k := num_children h in (take k keys ++ replicate (16 - k) 0, take k cs ++ replicate (16 - k) None).

(** [for i in 0..num_children]. *)
Definition grow_node16_to_node48 h (keys : list Z) (cs : list (option (Node V))) : list Z * list (option (Node V)) :=
  let k := num_children h in
  (foldl (fun index p => <[Z.to_nat p.2 := Z.of_nat p.1 mod 256]> index) (replicate 256 255) (zip (seq 0 k) (take k keys)),
   take k cs ++ replicate (48 - k) None).

Definition grow_node48_to_node256 (index : list Z) (cs : list (option (Node V))) : list (option (Node V)) :=
  (fun j : nat => i ← slot index (Z.of_nat j); mjoin (cs !! i)) <$> seq 0 256.

Definition add_child n b c : art_result (Node V) :=
  match n with
  | Leaf _ _ => Err (ArtInternal "Cannot add child to leaf")
  | Node4 h keys cs =>
      if (num_children h <? 4)%nat then Ok (add_child_to_node4 h keys cs b c)
      else let '(keys, cs) := grow_node4_to_node16 h keys cs in Ok (add_child_to_node16 h keys cs b c)
  | Node16 h keys cs =>
      if (num_children h <? 16)%nat then Ok (add_child_to_node16 h keys cs b c)
      else let '(index, cs) := grow_node16_to_node48 h keys cs in Ok (add_child_to_node48 h index cs b c)
  | Node48 h index cs =>
      if (num_children h <? 48)%nat then Ok (add_child_to_node48 h index cs b c)
      else Ok (add_child_to_node256 h (grow_node48_to_node256 index cs) b c)
  | Node256 h cs =>
      if (num_children h <? 256)%nat then Ok (add_child_to_node256 h cs b c)
      else Err NodeCapacityExceeded
  end.

Definition replace_child n b c : Node V :=
  match n with
  | Leaf _ _ => n
  | Node4 h keys cs => match find_key4 (num_children h) keys b with Some i => Node4 h keys (<[i := Some c]> cs) | None => n end
  | Node16 h keys cs => match find_key4 (num_children h) keys b with Some i => Node16 h keys (<[i := Some c]> cs) | None => n end
  | Node48 h index cs => match slot index b with Some i => Node48 h index (<[i := Some c]> cs) | None => n end
  | Node256 h cs => Node256 h (<[Z.to_nat b := Some c]> cs)
  end.

(** ** Removing children *)

(** Shift the used entries after [i] one to the left; the last used one becomes [last]. *)
Definition array_remove {A} (i count : nat) (last : list A) (l : list A) : list A :=
  take i l ++ take (count - 1 - i) (drop (S i) l) ++ last ++ drop count l.

(** In [keys] the last used key stays where it was. *)
Definition remove_sorted h (keys : list Z) (cs : list (option (Node V))) b : NodeHeader V * list Z * list (option (Node V)) :=
  let k := num_children h in
  match find_key4 k keys b with
  | Some i => (set_count (k - 1) h, array_remove i k (take 1 (drop (k - 1) keys)) keys, array_remove i k [None] cs)
  | None => (h, keys, cs)
  end.

Definition remove_child_from_node48 h (index : list Z) (cs : list (option (Node V))) b : NodeHeader V * list Z * list (option (Node V)) :=
  match slot index b with
  | Some i => (set_count (num_children h - 1) h, <[Z.to_nat b := 255]> index, <[i := None]> cs)
  | None => (h, index, cs)
  end.

Definition remove_child_from_node256 h (cs : list (option (Node V))) b : NodeHeader V * list (option (Node V)) :=
  match mjoin (cs !! Z.to_nat b) with
  | Some _ => (set_count (num_children h - 1) h, <[Z.to_nat b := None]> cs)
  | None => (h, cs)
  end.

(** The present children in order, with the key byte of each. *)
Definition present (keys : list Z) (cs : list (option (Node V))) : list (Z * Node V) :=
  omap (fun p => c ← p.2; Some (p.1, c)) (zip keys cs).

Definition pack (size : nat) (ps : list (Z * Node V)) : list Z * list (option (Node V)) :=
  (take size (ps.*1 ++ replicate size 0), take size ((Some <$> ps.*2) ++ replicate size None)).

Definition shrink_node16_to_node4 h (keys : list Z) (cs : list (option (Node V))) : Node V :=
  let '(keys, cs) := pack 4 (present (take (num_children h) keys) cs) in Node4 h keys cs.

Definition bytes_of_index (index : list Z) : list nat := filter (fun j : nat => is_Some (slot index (Z.of_nat j))) (seq 0 256).

(** Here an entry is copied even when its slot is empty. *)
Definition shrink_node48_to_node16 h (index : list Z) (cs : list (option (Node V))) : Node V :=
  let bs := bytes_of_index index in
  Node16 h (take 16 ((Z.of_nat <$> bs) ++ replicate 16 0))
    (take 16 (((fun j : nat => i ← slot index (Z.of_nat j); mjoin (cs !! i)) <$> bs) ++ replicate 16 None)).

Definition shrink_node256_to_node48 h (cs : list (option (Node V))) : Node V :=
  let ps := present (Z.of_nat <$> seq 0 256) cs in
  Node48 h
    (foldl (fun index p => <[Z.to_nat p.2 := Z.of_nat p.1 mod 256]> index) (replicate 256 255) (zip (seq 0 (length ps)) ps.*1))
    (take 48 ((Some <$> ps.*2) ++ replicate 48 None)).

Definition compress_node n : Node V :=
  match n with
  | Node4 h keys cs =>
      if (num_children h =? 1)%nat && match node_value h with None => true | Some _ => false end then
        match mjoin (cs !! 0%nat), keys !! 0%nat with
        | Some child, Some key_byte => update_partial child (partial_key h ++ key_byte :: partial child)
        | _, _ => n
        end
      else n
  | _ => n
  end.

Definition remove_child n b : art_result (option (Node V)) :=
  match n with
  | Leaf _ _ => Err (ArtInternal "Cannot remove child from leaf")
  | Node4 h keys cs =>
      let '(h, keys, cs) := remove_sorted h keys cs b in
      if (num_children h =? 1)%nat then Ok (Some (compress_node (Node4 h keys cs)))
      else if (num_children h =? 0)%nat then
        match node_value h with Some _ => Ok (Some (Node4 h keys cs)) | None => Ok None end
      else Ok (Some (Node4 h keys cs))
  | Node16 h keys cs =>
      let '(h, keys, cs) := remove_sorted h keys cs b in
      if (num_children h <=? 4)%nat then Ok (Some (shrink_node16_to_node4 h keys cs)) else Ok (Some (Node16 h keys cs))
  | Node48 h index cs =>
      let '(h, index, cs) := remove_child_from_node48 h index cs b in
      if (num_children h <=? 16)%nat then Ok (Some (shrink_node48_to_node16 h index cs)) else Ok (Some (Node48 h index cs))
  | Node256 h cs =>
      let '(h, cs) := remove_child_from_node256 h cs b in
      if (num_children h <=? 48)%nat then Ok (Some (shrink_node256_to_node48 h cs)) else Ok (Some (Node256 h cs))
  end.
End node.

(** ** The tree *)

Module AdaptiveRadixTree.

Record t (V : Type) : Type := mk { root : option (Node V); size : Z }.
Arguments mk {V} _ _.
Arguments root {V} _.
Arguments size {V} _.

Section tree.
Context {V : Type}.
Implicit Types (n c : Node V) (tr : t V).

Definition new : t V := mk None 0.
Definition len tr : Z := size tr.
Definition is_empty tr : bool := size tr =? 0.
Definition clear (tr : t V) : t V := mk None 0.

(** [partial] and [key] compared from [depth] on. *)
Fixpoint common_len (a b : list Z) : nat :=
  match a, b with
  | x :: a', y :: b' => if x =? y then S (common_len a' b') else 0%nat
  | _, _ => 0%nat
  end.

Definition check_prefix (p key : list Z) (depth : nat) : nat := common_len p (drop depth key).

(** The loop of [get]: a round consumes at least one byte of the key. *)
Fixpoint get_from (fuel : nat) n (key : list Z) (depth : nat) : result ArtError (option V) :=
  match fuel with
  | O => Timeout
  | S fuel' =>
      let p := partial n in
      if (depth + length p <=? length key)%nat then
        if decide (take (length p) (drop depth key) = p) then
          let depth := (depth + length p)%nat in
          match n with
          | Leaf k v => Ok (if decide (k = key) then Some v else None)
          | _ =>
              if (length key <=? depth)%nat then Ok (inner_value n)
              else
                match key !! depth with
                | None => Panic
                | Some key_byte =>
                    match find_child n key_byte with
                    | None => Ok None
                    | Some c => get_from fuel' c key (S depth)
                    end
                end
          end
        else Ok None
      else Ok None
  end.

Definition get tr (key : list Z) : result ArtError (option V) :=
  match key, root tr with
  | [], _ | _, None => Ok None
  | _, Some n => get_from (S (length key)) n key 0
  end.

Definition split_node n (key : list Z) (depth mismatch_idx : nat) (v : V) : art_result (Node V * option V) :=
  let p := partial n in
  let! old_key_byte := or_panic (p !! mismatch_idx) in
  let updated_old := update_partial n (drop (S mismatch_idx) p) in
  let! new_key_byte := or_panic (key !! (depth + mismatch_idx)%nat) in
  let parent := new_node4 (take mismatch_idx p) in
  Ok (add_child_unchecked (add_child_unchecked parent old_key_byte updated_old) new_key_byte (new_leaf key v), None).

Definition create_inner_node_from_leaves (existing_key : list Z) (existing_value : V) (new_key : list Z) (depth : nat) (v : V) :
    art_result (Node V * option V) :=
  let existing := Leaf existing_key existing_value in
  let k := common_len (drop depth existing_key) (drop depth new_key) in
  let! common_prefix := or_panic (slice depth (depth + k) existing_key) in
  if (length existing_key <=? depth + k)%nat then
    let! new_byte := or_panic (new_key !! (depth + k)%nat) in
    Ok (add_child_unchecked (map_header (set_value (Some existing_value)) (new_node4 common_prefix)) new_byte (new_leaf new_key v), None)
  else if (length new_key <=? depth + k)%nat then
    let! existing_byte := or_panic (existing_key !! (depth + k)%nat) in
    Ok (add_child_unchecked (map_header (set_value (Some v)) (new_node4 common_prefix)) existing_byte existing, None)
  else
    let! existing_byte := or_panic (existing_key !! (depth + k)%nat) in
    let! new_byte := or_panic (new_key !! (depth + k)%nat) in
    Ok (add_child_unchecked (add_child_unchecked (new_node4 common_prefix) existing_byte existing) new_byte (new_leaf new_key v), None).

Fixpoint insert_recursive (fuel : nat) n (key : list Z) (depth : nat) (v : V) : art_result (Node V * option V) :=
  match fuel with
  | O => Timeout
  | S fuel' =>
      let mismatch_idx := check_prefix (partial n) key depth in
      if (mismatch_idx <? length (partial n))%nat then split_node n key depth mismatch_idx v
      else
        let new_depth := (depth + length (partial n))%nat in
        match n with
        | Leaf k old =>
            if decide (k = key) then Ok (new_leaf key v, Some old)
            else create_inner_node_from_leaves k old key new_depth v
        | _ =>
            if (length key <=? new_depth)%nat then Ok (set_node_value n v, inner_value n)
            else
              let! key_byte := or_panic (key !! new_depth) in
              match find_child n key_byte with
              | Some child =>
                  let! (new_child, old_value) := insert_recursive fuel' child key (S new_depth) v in
                  Ok (replace_child n key_byte new_child, old_value)
              | None =>
                  let! n := add_child n key_byte (new_leaf key v) in
                  Ok (n, None)
              end
        end
  end.

(** [self.root.take()] comes first: an error or a panic leaves the tree without a root. *)
Definition insert tr (key : list Z) (v : V) : art_result (option V) * t V :=
  match key with
  | [] => (Err (InvalidKey "Key cannot be empty"), tr)
  | _ =>
      match root tr with
      | None => (Ok None, mk (Some (new_leaf key v)) (size tr + 1))
      | Some n =>
          match insert_recursive (S (length key)) n key 0 v with
          | Ok (n, old) => (Ok old, mk (Some n) (match old with None => size tr + 1 | Some _ => size tr end))
          | Err x => (Err x, mk None (size tr))
          | Panic => (Panic, mk None (size tr))
          | Timeout => (Timeout, mk None (size tr))
          end
      end
  end.

Fixpoint remove_recursive (fuel : nat) n (key : list Z) (depth : nat) : art_result (option (Node V) * option V) :=
  match fuel with
  | O => Timeout
  | S fuel' =>
      let mismatch_idx := check_prefix (partial n) key depth in
      if (mismatch_idx <? length (partial n))%nat then Ok (Some n, None)
      else
        let new_depth := (depth + length (partial n))%nat in
        match n with
        | Leaf k v => if decide (k = key) then Ok (None, Some v) else Ok (Some n, None)
        | _ =>
            if (length key <=? new_depth)%nat then
              match inner_value n with
              | Some old => Ok (Some (map_header (set_value None) n), Some old)
              | None => Ok (Some n, None)
              end
            else
              let! key_byte := or_panic (key !! new_depth) in
              match find_child n key_byte with
              | Some child =>
                  let! (new_child, value) := remove_recursive fuel' child key (S new_depth) in
                  match new_child with
                  | Some new_child => Ok (Some (replace_child n key_byte new_child), value)
                  | None => let! rest := remove_child n key_byte in Ok (rest, value)
                  end
              | None => Ok (Some n, None)
              end
        end
  end.

Definition remove tr (key : list Z) : art_result (option V) * t V :=
  match key with
  | [] => (Err (InvalidKey "Key cannot be empty"), tr)
  | _ =>
      match root tr with
      | None => (Ok None, tr)
      | Some n =>
          match remove_recursive (S (length key)) n key 0 with
          | Ok (n, v) => (Ok v, mk n (match v with Some _ => size tr - 1 | None => size tr end))
          | Err x => (Err x, mk None (size tr))
          | Panic => (Panic, mk None (size tr))
          | Timeout => (Timeout, mk None (size tr))
          end
      end
  end.

Definition contains_key tr (key : list Z) : bool :=
  match get tr key with Ok (Some _) => true | _ => false end.
End tree.

End AdaptiveRadixTree.

(** ** Iteration *)

Module ArtIterator.
Section iterator.
Context {V : Type}.
Implicit Types (n c : Node V).

Record IteratorFrame : Type := Frame { frame_node : Node V; frame_index : nat }.

(** The stack, its top first. *)
Definition t : Type := list IteratorFrame.

(** The children of a node in the order of its key bytes, as far as the node keeps them so. *)
Definition get_first_child n : option (Node V) :=
  match n with
  | Leaf _ _ => None
  | Node4 h _ cs | Node16 h _ cs => if (0 <? num_children h)%nat then mjoin (cs !! 0%nat) else None
  | Node48 _ index cs => b ← head (bytes_of_index index); i ← slot index (Z.of_nat b); mjoin (cs !! i)
  | Node256 _ cs => head (omap id cs)
  end.

(** For the indexed nodes the index counts the present children; past the last
    one the count starts again behind byte 0. *)
Definition after_key (present_at : nat -> bool) (index : nat) : list nat :=
  let current_key := default 0%nat (filter (fun b => present_at b) (seq 0 256) !! index) in
  filter (fun b => present_at b) (seq (S current_key) (255 - current_key)).

Definition get_next_child n (index : nat) : option (Node V * nat) :=
  match n with
  | Leaf _ _ => None
  | Node4 h _ cs | Node16 h _ cs =>
      if (S index <? num_children h)%nat then c ← mjoin (cs !! S index); Some (c, S index) else None
  | Node48 _ ix cs =>
      b ← head (after_key (fun b => bool_decide (is_Some (slot ix (Z.of_nat b)))) index);
      i ← slot ix (Z.of_nat b); c ← mjoin (cs !! i); Some (c, S index)
  | Node256 _ cs =>
      b ← head (after_key (fun b => bool_decide (is_Some (mjoin (cs !! b)))) index);
      c ← mjoin (cs !! b); Some (c, S index)
  end.

(** [fuel] bounds the height of the tree. *)
Fixpoint descend_leftmost (fuel : nat) n (stack : t) : t :=
  match fuel with
  | O => stack
  | S fuel' =>
      let stack := Frame n 0 :: stack in
      if is_leaf n then stack
      else match get_first_child n with Some c => descend_leftmost fuel' c stack | None => stack end
  end.

Definition new (fuel : nat) (root : option (Node V)) : t :=
  match root with Some n => descend_leftmost fuel n [] | None => [] end.

(** [rounds] bounds the loop, [fuel] each descent. *)
Fixpoint next (rounds fuel : nat) (stack : t) : option (list Z * V) * t :=
  match rounds with
  | O => (None, stack)
  | S rounds' =>
      match stack with
      | [] => (None, [])
      | Frame (Leaf k v) _ :: rest => (Some (k, v), rest)
      | Frame n i :: rest =>
          match get_next_child n i with
          | Some (c, j) => next rounds' fuel (descend_leftmost fuel c (Frame n j :: rest))
          | None => next rounds' fuel rest
          end
      end
  end.

(** Polling until the end; [fuel] also bounds the number of entries and rounds. *)
Fixpoint collect (steps fuel : nat) (stack : t) : list (list Z * V) :=
  match steps with
  | O => []
  | S steps' => match next fuel fuel stack with (Some e, stack) => e :: collect steps' fuel stack | (None, _) => [] end
  end.

(** *** Ranges *)

Record range : Type := Range { inner : t; end_key : option (list Z); inclusive : bool }.

(** The first key at or after the start is taken from the iterator and dropped. *)
Fixpoint skip_to (steps fuel : nat) (start : list Z) (stack : t) : t :=
  match steps with
  | O => stack
  | S steps' =>
      match next fuel fuel stack with
      | (Some (k, _), stack) => if bool_decide (bytes_le start k) then stack else skip_to steps' fuel start stack
      | (None, stack) => stack
      end
  end.

Definition new_range (fuel : nat) (root : option (Node V)) (start end_ : option (list Z)) (incl : bool) : range :=
  let it := new fuel root in
  Range (match start with Some s => skip_to fuel fuel s it | None => it end) end_ incl.

Definition range_next (fuel : nat) (r : range) : option (list Z * V) * range :=
  match next fuel fuel (inner r) with
  | (Some (k, v), it) =>
      let r := Range it (end_key r) (inclusive r) in
      match end_key r with
      | Some e =>
          if (if inclusive r then bool_decide (bytes_lt e k) else bool_decide (bytes_le e k)) then (None, r) else (Some (k, v), r)
      | None => (Some (k, v), r)
      end
  | (None, it) => (None, Range it (end_key r) (inclusive r))
  end.
End iterator.
End ArtIterator.
