(* ===== verification/ArtNode.v ===== *)
(** * Children of radix tree nodes

    Whatever its kind, a node of nanograph-art/src/node.rs is a finite map from
    key bytes to children: adding and replacing a child update that map, also
    when the node grows into the next kind, as long as the keys of a full
    [Node4] are in order when it becomes a [Node16]. *)

From Stdlib Require Import ZArith Lia.
From stdpp Require Import option strings base list.
From S2P Require Import Prelude BTreeError Art.

Open Scope Z_scope.

(** ** Linear and binary search agree *)

Lemma find_key4_Some k keys b i : find_key4 k keys b = Some i <->
  (i < k)%nat /\ keys !! i = Some b /\ forall j, (j < i)%nat -> keys !! j <> Some b.
Proof.
  unfold find_key4. rewrite fmap_Some. split.
  - intros ([j x] & Hf & ->). apply list_find_Some in Hf as (Hj & -> & Hlt). cbn [fst]. apply lookup_take_Some in Hj as [Hj Hjk].
    split_and!; [done|done|]. intros j' Hj' Hin. apply (Hlt j' b); [|done|done]. apply lookup_take_Some. split; [done|lia].
  - intros (Hi & Hk & Hlt). exists (i, b). split; [|done]. apply list_find_Some. split_and!; [apply lookup_take_Some; done|done|].
    intros j x Hj Hji ->. apply lookup_take_Some in Hj as [Hj _]. by apply (Hlt j).
Qed.

Lemma find_key4_None k keys b : find_key4 k keys b = None <-> forall i, (i < k)%nat -> keys !! i <> Some b.
Proof.
  unfold find_key4. rewrite fmap_None, list_find_None, Forall_lookup. split.
  - intros H i Hi Hk. apply (H i b); [|done]. apply lookup_take_Some. done.
  - intros H i x Hx ->. apply lookup_take_Some in Hx as [Hx Hi]. by apply (H i).
Qed.

Definition sorted_keys (k : nat) (keys : list Z) : Prop := forall i j x y, (i < j < k)%nat -> keys !! i = Some x -> keys !! j = Some y -> x < y.
Definition distinct_keys (k : nat) (keys : list Z) : Prop := forall i j x, (i < k)%nat -> (j < k)%nat -> keys !! i = Some x -> keys !! j = Some x -> i = j.

Lemma sorted_distinct k keys : sorted_keys k keys -> distinct_keys k keys.
Proof.
  intros Hs i j x Hi Hj Hx Hy. destruct (lt_eq_lt_dec i j) as [[Hlt| ->]|Hlt]; [|done|].
  - specialize (Hs i j x x ltac:(lia) Hx Hy). lia.
  - specialize (Hs j i x x ltac:(lia) Hy Hx). lia.
Qed.

Lemma find_key16_loop k keys b : sorted_keys k keys -> (k <= length keys)%nat ->
  forall fuel l r, (l <= r <= k)%nat -> (r - l < fuel)%nat ->
  (forall i x, (i < l)%nat -> keys !! i = Some x -> x < b) -> (forall i x, (r <= i < k)%nat -> keys !! i = Some x -> b < x) ->
  find_key16 fuel keys b l r = find_key4 k keys b.
Proof.
  intros Hs Hlen. induction fuel as [|fuel IH]; intros l r Hlr Hf Hl Hr; [lia|]. cbn [find_key16].
  destruct (Nat.ltb_spec l r) as [Hlt|Hge].
  - assert (Hmid : (l <= (l + r) / 2 < r)%nat) by (pose proof (Nat.div_mod (l + r) 2); pose proof (Nat.mod_upper_bound (l + r) 2); lia).
    set (mid := ((l + r) / 2)%nat) in *. destruct (keys !! mid) as [x|] eqn:Ex; [|apply lookup_ge_None in Ex; lia].
    destruct (Z.ltb_spec x b) as [Hxb|Hxb]; [|destruct (Z.ltb_spec b x) as [Hbx|Hbx]].
    + apply IH; [lia|lia| |done]. intros i y Hi Hy. destruct (decide (i = mid)) as [->|]; [congruence|].
      specialize (Hs i mid y x ltac:(lia) Hy Ex). lia.
    + apply IH; [lia|lia|done|]. intros i y Hi Hy. destruct (decide (i = mid)) as [->|]; [congruence|].
      specialize (Hs mid i x y ltac:(lia) Ex Hy). lia.
    + symmetry. apply find_key4_Some. assert (x = b) as -> by lia. split_and!; [lia|done|]. intros j Hj Hk.
      specialize (Hs j mid b b ltac:(lia) Hk Ex). lia.
  - symmetry. apply find_key4_None. intros i Hi Hk. destruct (decide (i < l)%nat) as [Hil|Hil].
    + specialize (Hl i b Hil Hk). lia.
    + specialize (Hr i b ltac:(lia) Hk). lia.
Qed.

(** The binary search of [Node16] finds what the linear one of [Node4] does. *)
Lemma find_key16_spec k keys b : sorted_keys k keys -> (k <= length keys)%nat -> find_key16 (S k) keys b 0 k = find_key4 k keys b.
Proof. intros Hs Hl. apply find_key16_loop; auto; try lia. Qed.

(** ** Shifting insertion *)

Section array.
Context {A : Type}.
Implicit Types (l : list A).

Lemma length_array_insert pos k x l : (pos <= k < length l)%nat -> length (array_insert pos k x l) = length l.
Proof. intros H. unfold array_insert. rewrite length_app. cbn [length]. rewrite length_app, !length_take, !length_drop. lia. Qed.

Lemma lookup_array_insert pos k x l i : (pos <= k < length l)%nat ->
  array_insert pos k x l !! i =
    if (i <? pos)%nat then l !! i else if (i =? pos)%nat then Some x else if (i <=? k)%nat then l !! (i - 1)%nat else l !! i.
Proof.
  intros H. unfold array_insert. destruct (Nat.ltb_spec i pos) as [Hi|Hi].
  { rewrite lookup_app_l, lookup_take by (rewrite length_take; lia). by rewrite decide_True by lia. }
  rewrite lookup_app_r, length_take by (rewrite length_take; lia). replace (i - Nat.min pos (length l))%nat with (i - pos)%nat by lia.
  destruct (Nat.eqb_spec i pos) as [->|Hne]; [by rewrite Nat.sub_diag|]. replace (i - pos)%nat with (S (i - pos - 1)) by lia. rewrite lookup_cons.
  destruct (Nat.leb_spec i k) as [Hk|Hk].
  - rewrite lookup_app_l by (rewrite length_take, length_drop; lia). rewrite lookup_take, decide_True by lia. rewrite lookup_drop. f_equal. lia.
  - rewrite lookup_app_r, length_take, length_drop by (rewrite length_take, length_drop; lia). rewrite lookup_drop. f_equal. lia.
Qed.
End array.

Lemma insert_pos_spec k keys b : (k <= length keys)%nat ->
  (insert_pos k keys b <= k)%nat /\ (forall i x, (i < insert_pos k keys b)%nat -> keys !! i = Some x -> x <= b) /\
  ((insert_pos k keys b < k)%nat -> exists x, keys !! insert_pos k keys b = Some x /\ b < x).
Proof.
  intros Hlen. unfold insert_pos. destruct (list_find (fun x => b < x) (take k keys)) as [[i x]|] eqn:E.
  - apply list_find_Some in E as (Hi & Hx & Hlt). apply lookup_take_Some in Hi as [Hi Hik]. split_and!; [lia| |by eexists].
    intros j y Hj Hy. destruct (Z.le_gt_cases y b); [done|]. exfalso. apply (Hlt j y); [apply lookup_take_Some; split; [done|lia]|done|lia].
  - apply list_find_None in E. rewrite Forall_lookup in E. split_and!; [lia| |lia]. intros j y Hj Hy.
    destruct (Z.le_gt_cases y b); [done|]. exfalso. apply (E j y); [apply lookup_take_Some; done|lia].
Qed.

Lemma lookup_array_remove {A} i k (last l : list A) j : (i < k <= length l)%nat -> (j < k - 1)%nat ->
  array_remove i k last l !! j = if (j <? i)%nat then l !! j else l !! S j.
Proof.
  intros H Hj. unfold array_remove. destruct (Nat.ltb_spec j i) as [Hi|Hi].
  - rewrite lookup_app_l, lookup_take by (rewrite length_take; lia). by rewrite decide_True by lia.
  - rewrite lookup_app_r, length_take by (rewrite length_take; lia). rewrite lookup_app_l by (rewrite length_take, length_drop; lia).
    rewrite lookup_take, decide_True by lia. rewrite lookup_drop. f_equal. lia.
Qed.

Lemma length_array_remove {A} i k (last l : list A) : (i < k <= length l)%nat -> length last = 1%nat -> length (array_remove i k last l) = length l.
Proof. intros H Hl. unfold array_remove. rewrite !length_app, !length_take, !length_drop. lia. Qed.

(** ** Small nodes: parallel arrays *)

Definition full_slots {A} (k : nat) (cs : list (option A)) : Prop := forall i, (i < k)%nat -> exists c, cs !! i = Some (Some c).
Definition byte_keys (k : nat) (keys : list Z) : Prop := forall i x, (i < k)%nat -> keys !! i = Some x -> 0 <= x < 256.
(** The arrays hold [c] for [b] at one of the first [k] places. *)
Definition entry {A} (k : nat) (keys : list Z) (cs : list (option A)) (b : Z) (c : A) : Prop :=
  exists i, (i < k)%nat /\ keys !! i = Some b /\ cs !! i = Some (Some c).

Section small.
Context {A : Type}.
Implicit Types (keys : list Z) (cs : list (option A)) (c : A).

Record small_ok (cap k : nat) keys cs : Prop := {
  small_cap : (k <= cap)%nat;
  small_keys : length keys = cap;
  small_children : length cs = cap;
  small_full : full_slots k cs;
  small_bytes : byte_keys k keys;
  small_distinct : distinct_keys k keys }.

Lemma find4_entry cap k keys cs b c : small_ok cap k keys cs ->
  (i ← find_key4 k keys b; mjoin (cs !! i)) = Some c <-> entry k keys cs b c.
Proof.
  intros Hok. split.
  - intros Hf. apply bind_Some in Hf as (i & Hi & Hc). apply find_key4_Some in Hi as (Hi & Hk & _). exists i.
    destruct (small_full _ _ _ _ Hok i Hi) as [c' E]. rewrite E in *. cbn in Hc. by simplify_eq.
  - intros (i & Hi & Hk & Hc). apply bind_Some. exists i. rewrite Hc. split; [|done]. apply find_key4_Some. split_and!; [done|done|].
    intros j Hj Hkj. assert (i = j) as -> by (eapply (small_distinct _ _ _ _ Hok); eauto; lia). lia.
Qed.

Lemma entry_insert cap k keys cs b c b' c' pos : (k < cap)%nat -> length keys = cap -> length cs = cap -> (pos <= k)%nat ->
  entry (S k) (array_insert pos k b keys) (array_insert pos k (Some c) cs) b' c' <-> b' = b /\ c' = c \/ entry k keys cs b' c'.
Proof.
  intros Hcap Hk Hc Hpos. split.
  - intros (i & Hi & E1 & E2). rewrite lookup_array_insert in E1 by lia. rewrite lookup_array_insert in E2 by lia. destruct (Nat.ltb_spec i pos); [right; exists i; split_and!; [lia|done|done]|].
    destruct (Nat.eqb_spec i pos); [left; by simplify_eq|]. right. exists (i - 1)%nat. destruct (Nat.leb_spec i k); [|lia]. split_and!; [lia|done|done].
  - intros [[-> ->]|(i & Hi & E1 & E2)].
    + exists pos. rewrite (lookup_array_insert _ _ b), (lookup_array_insert _ _ (Some c)), Nat.ltb_irrefl, Nat.eqb_refl by lia. split_and!; [lia|done|done].
    + destruct (decide (i < pos)%nat) as [Hip|Hip]; [exists i|exists (S i)]; rewrite (lookup_array_insert _ _ b), (lookup_array_insert _ _ (Some c)) by lia.
      * destruct (Nat.ltb_spec i pos); [|lia]. split_and!; [lia|done|done].
      * destruct (Nat.ltb_spec (S i) pos); [lia|]. destruct (Nat.eqb_spec (S i) pos); [lia|]. destruct (Nat.leb_spec (S i) k); [|lia].
        cbn [Nat.sub]. rewrite Nat.sub_0_r. split_and!; [lia|done|done].
Qed.

Lemma entry_remove cap k keys cs last last' i b b' c' : (k <= cap)%nat -> length keys = cap -> length cs = cap -> (i < k)%nat -> keys !! i = Some b ->
  distinct_keys k keys ->
  entry (k - 1) (array_remove i k last keys) (array_remove i k last' cs) b' c' <-> b' <> b /\ entry k keys cs b' c'.
Proof.
  intros Hcap Hlk Hlc Hi Hb Hd. split.
  - intros (j & Hj & E1 & E2). rewrite lookup_array_remove in E1 by lia. rewrite lookup_array_remove in E2 by lia.
    destruct (Nat.ltb_spec j i); (split; [intros ->|]).
    + assert (i = j) by (apply (Hd i j b); auto; lia). lia.
    + exists j. split_and!; [lia|done|done].
    + assert (i = S j) by (apply (Hd i (S j) b); auto; lia). lia.
    + exists (S j). split_and!; [lia|done|done].
  - intros (Hne & j & Hj & E1 & E2). assert (i <> j) by (intros ->; congruence).
    destruct (decide (j < i)%nat) as [Hji|Hji]; [exists j|exists (j - 1)%nat]; rewrite (lookup_array_remove _ _ last), (lookup_array_remove _ _ last') by lia.
    + destruct (Nat.ltb_spec j i); [|lia]. split_and!; [lia|done|done].
    + destruct (Nat.ltb_spec (j - 1) i); [lia|]. replace (S (j - 1)) with j by lia. split_and!; [lia|done|done].
Qed.

Lemma small_insert cap k keys cs b c pos : small_ok cap k keys cs -> (k < cap)%nat -> (pos <= k)%nat -> 0 <= b < 256 ->
  (forall i, (i < k)%nat -> keys !! i <> Some b) -> small_ok cap (S k) (array_insert pos k b keys) (array_insert pos k (Some c) cs).
Proof.
  intros [H1 H2 H3 H4 H5 H6] Hk Hpos Hb Hnew. split; [lia|rewrite length_array_insert; lia|rewrite length_array_insert; lia| | |].
  - intros i Hi. rewrite lookup_array_insert by lia. destruct (Nat.ltb_spec i pos); [apply H4; lia|]. destruct (Nat.eqb_spec i pos); [by eexists|].
    destruct (Nat.leb_spec i k); [apply H4; lia|lia].
  - intros i x Hi. rewrite lookup_array_insert by lia. destruct (Nat.ltb_spec i pos); [apply H5; lia|]. destruct (Nat.eqb_spec i pos); [by intros; simplify_eq|].
    destruct (Nat.leb_spec i k); [apply H5; lia|lia].
  - intros i j x Hi Hj. rewrite !lookup_array_insert by lia. intros E1 E2.
    repeat match goal with H : context [(?a <? ?b)%nat] |- _ => destruct (Nat.ltb_spec a b) | H : context [(?a =? ?b)%nat] |- _ => destruct (Nat.eqb_spec a b)
      | H : context [(?a <=? ?b)%nat] |- _ => destruct (Nat.leb_spec a b) end;
      simplify_eq; try lia; try (exfalso; eapply Hnew; [|eassumption]; lia); try (assert (i = j - 1)%nat by (eapply H6; eauto; lia); lia);
      try (assert (i - 1 = j)%nat by (eapply H6; eauto; lia); lia); try (assert (i - 1 = j - 1)%nat by (eapply H6; eauto; lia); lia).
    eapply H6; eauto; lia.
Qed.

Lemma sorted_insert cap k keys b : length keys = cap -> (k < cap)%nat -> sorted_keys k keys -> (forall i, (i < k)%nat -> keys !! i <> Some b) ->
  sorted_keys (S k) (array_insert (insert_pos k keys b) k b keys).
Proof.
  intros Hl Hk Hs Hnew. destruct (insert_pos_spec k keys b ltac:(lia)) as (Hp & Hlo & Hhi). set (pos := insert_pos k keys b) in *.
  intros i j x y Hij. rewrite !lookup_array_insert by lia. intros E1 E2.
  assert (Hlo' : forall m z, (m < pos)%nat -> keys !! m = Some z -> z < b).
  { intros m z Hm Hz. specialize (Hlo m z Hm Hz). assert (z <> b) by (intros ->; apply (Hnew m); [lia|done]). lia. }
  assert (Hhi' : forall m z, (pos <= m < k)%nat -> keys !! m = Some z -> b < z).
  { intros m z Hm Hz. destruct (Hhi ltac:(lia)) as (w & Hw & Hbw). destruct (decide (m = pos)) as [->|]; [congruence|].
    specialize (Hs pos m w z ltac:(lia) Hw Hz). lia. }
  destruct (Nat.ltb_spec i pos), (Nat.ltb_spec j pos); try lia; [by apply (Hs i j x y); [lia|..]| |].
  - specialize (Hlo' i x ltac:(lia) E1). destruct (Nat.eqb_spec j pos); [by simplify_eq|]. destruct (Nat.leb_spec j k); [|lia].
    specialize (Hhi' (j - 1)%nat y ltac:(lia) E2). lia.
  - destruct (Nat.eqb_spec j pos); [lia|]. destruct (Nat.leb_spec j k); [|lia]. destruct (Nat.eqb_spec i pos).
    + simplify_eq. apply (Hhi' (j - 1)%nat y); [lia|done].
    + destruct (Nat.leb_spec i k); [|lia]. apply (Hs (i - 1)%nat (j - 1)%nat x y); [lia|done|done].
Qed.

Lemma small_remove cap k keys cs i b last last' : small_ok cap k keys cs -> (i < k)%nat -> keys !! i = Some b -> length last = 1%nat -> length last' = 1%nat ->
  small_ok cap (k - 1) (array_remove i k last keys) (array_remove i k last' cs).
Proof.
  intros [H1 H2 H3 H4 H5 H6] Hi Hb Hl Hl'. split; [lia|rewrite length_array_remove; lia|rewrite length_array_remove; lia| | |].
  - intros j Hj. rewrite lookup_array_remove by lia. case_match; apply H4; lia.
  - intros j x Hj. rewrite lookup_array_remove by lia. case_match; apply H5; lia.
  - intros j1 j2 x Hj1 Hj2. rewrite !lookup_array_remove by lia. destruct (Nat.ltb_spec j1 i), (Nat.ltb_spec j2 i); intros E1 E2.
    + eapply H6; eauto; lia.
    + assert (j1 = S j2) by (eapply H6; eauto; lia). lia.
    + assert (S j1 = j2) by (eapply H6; eauto; lia). lia.
    + assert (S j1 = S j2) by (eapply H6; eauto; lia). lia.
Qed.

Lemma sorted_remove k keys i last : (i < k <= length keys)%nat -> sorted_keys k keys -> sorted_keys (k - 1) (array_remove i k last keys).
Proof.
  intros Hi Hs j1 j2 x y Hj. rewrite !lookup_array_remove by lia. destruct (Nat.ltb_spec j1 i), (Nat.ltb_spec j2 i); intros E1 E2;
    [apply (Hs j1 j2 x y)|apply (Hs j1 (S j2) x y)|lia|apply (Hs (S j1) (S j2) x y)]; auto; lia.
Qed.
End small.

(** ** Large nodes: families indexed by a byte *)

Section family.
Context {A : Type}.
Implicit Types (f g : nat -> option A).

Definition dom f : list nat := filter (fun j => is_Some (f j)) (seq 0 256).

Lemma elem_of_dom f j : j ∈ dom f <-> (j < 256)%nat /\ is_Some (f j).
Proof. unfold dom. rewrite list_elem_of_filter, elem_of_seq. intuition lia. Qed.

Lemma NoDup_dom f : NoDup (dom f).
Proof. apply NoDup_filter, NoDup_seq. Qed.

Lemma dom_add f g j : (j < 256)%nat -> f j = None -> is_Some (g j) -> (forall i, i <> j -> g i = f i) -> length (dom g) = S (length (dom f)).
Proof.
  intros Hj Hf Hg Heq. change (S (length (dom f))) with (length (j :: dom f)). apply Permutation_length, NoDup_Permutation; [apply NoDup_dom| |].
  - constructor; [|apply NoDup_dom]. rewrite elem_of_dom, Hf. by intros [_ [? ?]].
  - intros i. rewrite elem_of_cons, !elem_of_dom. destruct (decide (i = j)) as [->|Hne]; [tauto|]. rewrite Heq by done. tauto.
Qed.

Lemma dom_remove f g j : (j < 256)%nat -> is_Some (f j) -> g j = None -> (forall i, i <> j -> g i = f i) -> length (dom g) = (length (dom f) - 1)%nat.
Proof. intros Hj Hf Hg Heq. rewrite (dom_add g f j Hj Hg Hf) by (intros i Hi; by rewrite Heq). lia. Qed.

Lemma dom_room f j : (j < 256)%nat -> f j = None -> (length (dom f) < 256)%nat.
Proof.
  intros Hj Hf. assert (Hl : (length (j :: dom f) <= length (seq 0 256))%nat); [|rewrite length_seq in Hl; cbn [length] in Hl; lia].
  apply submseteq_length, NoDup_submseteq.
  - constructor; [|apply NoDup_dom]. rewrite elem_of_dom, Hf. by intros [_ [? ?]].
  - intros i [->|Hi%elem_of_dom]%elem_of_cons; apply elem_of_seq; lia.
Qed.

Lemma seq_filter_sorted (P : nat -> Prop) `{!forall x, Decision (P x)} m i j x y : (i < j)%nat ->
  filter P (seq 0 m) !! i = Some x -> filter P (seq 0 m) !! j = Some y -> (x < y)%nat.
Proof.
  revert i j x y. induction m as [|m IH]; intros i j x y Hij; [done|]. rewrite seq_S, filter_app. cbn [plus]. intros Hx Hy.
  assert (Hb : forall k z, filter P (seq 0 m) !! k = Some z -> (z < m)%nat).
  { intros k z Hz. apply list_elem_of_lookup_2, list_elem_of_filter in Hz as [_ Hz%elem_of_seq]. lia. }
  destruct (decide (j < length (filter P (seq 0 m)))%nat) as [Hj|Hj].
  - rewrite lookup_app_l in Hx by lia. rewrite lookup_app_l in Hy by lia. by apply (IH i j x y).
  - rewrite lookup_app_r in Hy by lia. assert ((j - length (filter P (seq 0 m)) < 1)%nat /\ y = m) as [Hl ->].
    { destruct (decide (P m)); rewrite ?filter_cons_True, ?filter_cons_False, filter_nil in Hy by done; [|done].
      apply list_lookup_singleton_Some in Hy as [E <-]. split; [lia|done]. }
    rewrite lookup_app_l in Hx by lia. by apply (Hb i).
Qed.
End family.

Lemma dom_ext {A B} (f : nat -> option A) (g : nat -> option B) : (forall j, (j < 256)%nat -> is_Some (f j) <-> is_Some (g j)) -> length (dom f) = length (dom g).
Proof.
  intros H. apply Permutation_length, NoDup_Permutation; [apply NoDup_dom|apply NoDup_dom|]. intros j. rewrite !elem_of_dom.
  split; intros [Hj Hs]; (split; [done|]); by apply (H j Hj).
Qed.

Section large.
Context {A : Type}.
Implicit Types (index : list Z) (cs : list (option A)).

Definition slots index (j : nat) : option nat := slot index (Z.of_nat j).

Record large_ok (k : nat) index cs : Prop := {
  large_index : length index = 256%nat;
  large_children : length cs = 48%nat;
  large_full : forall j i, slots index j = Some i -> exists c, cs !! i = Some (Some c);
  large_inj : forall j j' i, slots index j = Some i -> slots index j' = Some i -> j = j';
  large_count : length (dom (slots index)) = k }.

Definition dense (k : nat) index : Prop := forall j i, slots index j = Some i -> (i < k)%nat.

Lemma slots_insert index j k j' : length index = 256%nat -> (j < 256)%nat -> (k < 255)%nat ->
  slots (<[j := Z.of_nat k mod 256]> index) j' = if decide (j' = j) then Some k else slots index j'.
Proof.
  intros Hl Hj Hk. unfold slots, slot. rewrite Nat2Z.id, Z.mod_small by lia. case_decide as E.
  - subst. rewrite list_lookup_insert_eq by lia. destruct (Z.eqb_spec (Z.of_nat k) 255); [lia|]. by rewrite Nat2Z.id.
  - by rewrite list_lookup_insert_ne by done.
Qed.

Lemma slots_delete index j j' : length index = 256%nat -> (j < 256)%nat ->
  slots (<[j := 255]> index) j' = if decide (j' = j) then None else slots index j'.
Proof.
  intros Hl Hj. unfold slots, slot. rewrite Nat2Z.id. case_decide as E.
  - subst. by rewrite list_lookup_insert_eq by lia.
  - by rewrite list_lookup_insert_ne by done.
Qed.

Lemma slots_bound index j i : length index = 256%nat -> slots index j = Some i -> (j < 256)%nat.
Proof.
  intros Hl. unfold slots, slot. rewrite Nat2Z.id. destruct (index !! j) eqn:E; [|done]. apply lookup_lt_Some in E. lia.
Qed.

(** The index of an array of distinct bytes, as growing and shrinking build it. *)
Definition index_of (keys : list Z) : list Z :=
  foldl (fun index p => <[Z.to_nat p.2 := Z.of_nat p.1 mod 256]> index) (replicate 256 255) (zip (seq 0 (length keys)) keys).

Lemma index_of_snoc keys b : index_of (keys ++ [b]) = <[Z.to_nat b := Z.of_nat (length keys) mod 256]> (index_of keys).
Proof. unfold index_of. rewrite length_app. cbn [length]. rewrite Nat.add_1_r, seq_S, zip_with_app by (by rewrite length_seq). by rewrite foldl_app. Qed.

Lemma index_of_spec keys : (length keys <= 48)%nat -> byte_list keys -> NoDup keys ->
  length (index_of keys) = 256%nat /\ forall j i, slots (index_of keys) j = Some i <-> keys !! i = Some (Z.of_nat j).
Proof.
  induction keys as [|b keys IH] using rev_ind; intros Hl Hb Hd.
  { split; [done|]. intros j i. rewrite lookup_nil. split; [|done]. unfold slots, slot, index_of. cbn [length seq zip zip_with foldl].
    destruct (replicate 256 255 !! Z.to_nat (Z.of_nat j)) eqn:E; [|done]. apply lookup_replicate in E as [-> _]. done. }
  rewrite index_of_snoc. rewrite length_app in Hl. cbn [length] in Hl. unfold byte_list in Hb. rewrite Forall_app, Forall_singleton in Hb.
  apply NoDup_app in Hd as (Hd & Hnew & _). destruct IH as [Hlen IH]; [lia|tauto|done|]. split; [by rewrite length_insert|]. intros j i.
  rewrite slots_insert by lia. case_decide as E.
  - subst j. rewrite Z2Nat.id by lia. split.
    + intros [= <-]. by rewrite lookup_app_r, Nat.sub_diag by done.
    + intros Hi. destruct (decide (i < length keys)%nat) as [Hlt|Hge].
      * rewrite lookup_app_l in Hi by done. destruct (Hnew b); [by eapply list_elem_of_lookup_2|]. by apply list_elem_of_singleton.
      * rewrite lookup_app_r in Hi by lia. apply list_lookup_singleton_Some in Hi as [Hi _]. f_equal. lia.
  - rewrite IH. split; intros Hi.
    + rewrite lookup_app_l; [done|]. by eapply lookup_lt_Some.
    + apply lookup_app_Some in Hi as [Hi|[_ [_ Hi]%list_lookup_singleton_Some]]; [done|]. lia.
Qed.

(** A node built from an array of distinct bytes and their children. *)
Lemma index_of_large keys (cs : list (option A)) : (length keys <= 48)%nat -> byte_list keys -> NoDup keys -> length cs = 48%nat -> full_slots (length keys) cs ->
  large_ok (length keys) (index_of keys) cs /\ dense (length keys) (index_of keys).
Proof.
  intros Hl Hb Hd Hc Hfull. destruct (index_of_spec keys Hl Hb Hd) as [Hlen Hs].
  assert (Hdense : dense (length keys) (index_of keys)) by (intros j i Hi%Hs; by eapply lookup_lt_Some). split; [|done]. split; [done|done| | |].
  - intros j i Hi. apply Hfull. by apply (Hdense j).
  - intros j j' i Hi%Hs Hi'%Hs. simplify_eq. lia.
  - replace (length keys) with (length (Z.to_nat <$> keys)) by apply length_fmap. apply Permutation_length, NoDup_Permutation; [apply NoDup_dom| |].
    + unfold byte_list in Hb. rewrite Forall_forall in Hb. apply NoDup_fmap_2_strong; [|done]. intros x y Hx%Hb Hy%Hb. lia.
    + unfold byte_list in Hb. rewrite Forall_forall in Hb. intros j. rewrite elem_of_dom, list_elem_of_fmap. split.
      * intros [_ [i Hi%Hs]]. exists (Z.of_nat j). split; [by rewrite Nat2Z.id|]. by eapply list_elem_of_lookup_2.
      * intros (x & -> & Hx). pose proof (Hb x Hx). split; [lia|]. apply list_elem_of_lookup in Hx as [i Hi]. exists i. apply Hs. by rewrite Z2Nat.id by lia.
Qed.
End large.

(** ** Nodes as maps from bytes to children *)

Section nodes.
Context {V : Type}.
Implicit Types (n c : Node V) (h : NodeHeader V) (b : Z) (cs : list (option (Node V))).

Definition family cs (j : nat) : option (Node V) := mjoin (cs !! j).

(** The invariant of every node. *)
Definition node_ok n : Prop :=
  match n with
  | Leaf _ _ => True
  | Node4 h keys cs => small_ok 4 (num_children h) keys cs
  | Node16 h keys cs => small_ok 16 (num_children h) keys cs /\ sorted_keys (num_children h) keys
  | Node48 h index cs => large_ok (num_children h) index cs
  | Node256 h cs => length cs = 256%nat /\ length (dom (family cs)) = num_children h
  end.

(** What adding a child relies on beyond it: the keys of a [Node4] that is about
    to grow are in order, the slots of a [Node48] are used from the front. *)
Definition tidy_node n : Prop :=
  match n with
  | Node4 h keys _ => num_children h = 4%nat -> sorted_keys 4 keys
  | Node48 h index _ => (num_children h < 48)%nat -> dense (num_children h) index
  | _ => True
  end.

(** [n'] is [n] with the child for [b] set to [o]. *)
Definition updates n n' b (o : option (Node V)) : Prop :=
  forall b', 0 <= b' < 256 -> find_child n' b' = if decide (b' = b) then o else find_child n b'.

Lemma find_child4 h keys cs b c : small_ok 4 (num_children h) keys cs ->
  find_child (Node4 h keys cs) b = Some c <-> entry (num_children h) keys cs b c.
Proof. apply find4_entry. Qed.

Lemma find_child16 h keys cs b c : small_ok 16 (num_children h) keys cs -> sorted_keys (num_children h) keys ->
  find_child (Node16 h keys cs) b = Some c <-> entry (num_children h) keys cs b c.
Proof.
  intros Hok Hs. cbn [find_child]. rewrite find_key16_spec; [by eapply find4_entry|done|]. rewrite (small_keys _ _ _ _ Hok). apply (small_cap _ _ _ _ Hok).
Qed.

Lemma find_child48 h index cs b : 0 <= b < 256 -> find_child (Node48 h index cs) b = i ← slots index (Z.to_nat b); family cs i.
Proof. intros Hb. unfold slots. by rewrite Z2Nat.id by lia. Qed.

Lemma entry_absent cap k keys cs b : small_ok cap k keys cs -> (forall c, ~ entry k keys cs b c) -> forall i, (i < k)%nat -> keys !! i <> Some b.
Proof. intros Hok Hno i Hi Hk. destruct (small_full _ _ _ _ Hok i Hi) as [c Hc]. apply (Hno c). by exists i. Qed.

(** An update of the entries is one of the map. *)
Lemma updates_entry n n' b o (E E' : Z -> Node V -> Prop) :
  (forall b c, find_child n b = Some c <-> E b c) -> (forall b c, find_child n' b = Some c <-> E' b c) ->
  (forall b' c', E' b' c' <-> (b' = b /\ o = Some c') \/ (b' <> b /\ E b' c')) -> updates n n' b o.
Proof.
  intros H H' HE b' _. apply option_eq. intros c'. rewrite H', HE. case_decide as Hd; [|rewrite <- H]; naive_solver.
Qed.

Lemma entry_new k keys cs b c (E : Z -> Node V -> Prop) : (forall c, ~ entry k keys cs b c) ->
  (forall b' c', E b' c' <-> b' = b /\ c' = c \/ entry k keys cs b' c') ->
  forall b' c', E b' c' <-> (b' = b /\ Some c = Some c') \/ (b' <> b /\ entry k keys cs b' c').
Proof. intros Hno HE b' c'. rewrite HE. destruct (decide (b' = b)) as [->|]; naive_solver. Qed.

(** Arrays of another capacity that agree on the used entries. *)
Lemma small_agree cap cap' k keys cs keys' cs' : small_ok cap k keys cs -> (k <= cap')%nat -> length keys' = cap' -> length cs' = cap' ->
  (forall i, (i < k)%nat -> keys' !! i = keys !! i) -> (forall i, (i < k)%nat -> cs' !! i = cs !! i) ->
  small_ok cap' k keys' cs' /\ (sorted_keys k keys -> sorted_keys k keys') /\ forall b c, entry k keys' cs' b c <-> entry k keys cs b c.
Proof.
  intros [H1 H2 H3 H4 H5 H6] Hk Hl Hc E1 E2. split_and!.
  - split; [done|done|done| | |].
    + intros i Hi. rewrite E2 by done. by apply H4.
    + intros i x Hi. rewrite E1 by done. by apply H5.
    + intros i j x Hi Hj. rewrite !E1 by done. by apply H6.
  - intros Hs i j x y Hij. rewrite !E1 by lia. by apply Hs.
  - intros b c. unfold entry. split; intros (i & Hi & Hx & Hy); exists i; [rewrite E1 in Hx by done; rewrite E2 in Hy by done|rewrite E1, E2 by done]; done.
Qed.

Lemma lookup_padded {A} k m (x : A) l i : (i < k <= length l)%nat -> (take k l ++ replicate m x) !! i = l !! i.
Proof. intros Hi. rewrite lookup_app_l, lookup_take by (rewrite length_take; lia). by rewrite decide_True by lia. Qed.

Lemma small_grow k keys cs : small_ok 4 k keys cs -> small_ok 16 k (take k keys ++ replicate (16 - k) 0) (take k cs ++ replicate (16 - k) None) /\
  (sorted_keys k keys -> sorted_keys k (take k keys ++ replicate (16 - k) 0)) /\
  forall b c, entry k (take k keys ++ replicate (16 - k) 0) (take k cs ++ replicate (16 - k) None) b c <-> entry k keys cs b c.
Proof.
  intros Hok. pose proof Hok as [H1 H2 H3 H4 H5 H6].
  eapply small_agree; [exact Hok|lia| | | |]; try (rewrite length_app, length_take, length_replicate; lia); intros; apply lookup_padded; lia.
Qed.

(** *** Replacing a child *)

Lemma small_replace cap k keys cs i c : small_ok cap k keys cs -> (i < k)%nat -> small_ok cap k keys (<[i := Some c]> cs).
Proof.
  intros [H1 H2 H3 H4 H5 H6] Hi. split; auto; [by rewrite length_insert|]. intros j Hj.
  destruct (decide (j = i)) as [->|Hne]; [rewrite list_lookup_insert_eq by lia; by eexists|]. rewrite list_lookup_insert_ne by done. by apply H4.
Qed.

Lemma entry_replace cap k keys cs i b c b' c' : small_ok cap k keys cs -> (i < k)%nat -> keys !! i = Some b ->
  entry k keys (<[i := Some c]> cs) b' c' <-> (b' = b /\ Some c = Some c') \/ (b' <> b /\ entry k keys cs b' c').
Proof.
  intros [H1 H2 H3 H4 H5 H6] Hi Hb. split.
  - intros (j & Hj & E1 & E2). destruct (decide (j = i)) as [->|Hne].
    + rewrite list_lookup_insert_eq in E2 by lia. left. split; congruence.
    + rewrite list_lookup_insert_ne in E2 by done. right. split; [intros ->; apply Hne; by eapply H6|]. by exists j.
  - intros [[-> [= <-]]|(Hne & j & Hj & E1 & E2)].
    + exists i. by rewrite list_lookup_insert_eq by lia.
    + exists j. rewrite list_lookup_insert_ne; [done|]. intros ->. congruence.
Qed.

Lemma find_key4_entry cap k keys cs b c : small_ok cap k keys cs -> entry k keys cs b c -> exists i, find_key4 k keys b = Some i /\ (i < k)%nat /\ keys !! i = Some b.
Proof.
  intros Hok He. apply (find4_entry _ _ _ _ _ _ Hok) in He. apply bind_Some in He as (i & Hi & _). exists i. split; [done|].
  apply find_key4_Some in Hi. tauto.
Qed.
End nodes.
