(* ===== verification/ArtChildren.v ===== *)
(** * Operations on the children of a radix tree node

    [add_child], [replace_child] and [remove_child] of nanograph-art/src/node.rs
    as updates of the map from bytes to children, through growth and shrinking
    of the node. *)

From Stdlib Require Import ZArith Lia.
From stdpp Require Import option strings base list.
From S2P Require Import Prelude BTreeError Art ArtNode.

Open Scope Z_scope.

Section children.
Context {V : Type}.
Implicit Types (n c : Node V) (h : NodeHeader V) (b : Z) (cs : list (option (Node V))).

(** What every operation on children keeps of the node. *)
Definition same_top n n' : Prop := is_leaf n = false /\ is_leaf n' = false /\ partial n' = partial n /\ inner_value n' = inner_value n.

Lemma family_insert cs j o j' : (j < length cs)%nat -> family (<[j := o]> cs) j' = if decide (j' = j) then o else family cs j'.
Proof.
  intros Hj. unfold family. case_decide as E; [subst; by rewrite list_lookup_insert_eq|]. by rewrite list_lookup_insert_ne.
Qed.

Lemma byte_nat_eq b b' : 0 <= b < 256 -> 0 <= b' < 256 -> Z.to_nat b' = Z.to_nat b <-> b' = b.
Proof. lia. Qed.

(** *** Replacing *)

Lemma replace_large k index cs b i c : large_ok k index cs -> slots index (Z.to_nat b) = Some i -> large_ok k index (<[i := Some c]> cs).
Proof.
  intros [H1 H2 H3 H4 H5] Hi. split; auto; [by rewrite length_insert|]. intros j i' Hj. destruct (H3 j i' Hj) as [c' E].
  destruct (decide (i' = i)) as [->|Hne]; [|rewrite list_lookup_insert_ne by done; by eexists].
  apply lookup_lt_Some in E. rewrite list_lookup_insert_eq by done. by eexists.
Qed.

Lemma replace_child_spec n b c c0 : node_ok n -> 0 <= b < 256 -> find_child n b = Some c0 ->
  node_ok (replace_child n b c) /\ updates n (replace_child n b c) b (Some c) /\ same_top n (replace_child n b c) /\
  (tidy_node n -> tidy_node (replace_child n b c)).
Proof.
  intros Hok Hb Hf. destruct n as [k v|h keys cs|h keys cs|h index cs|h cs]; [done| | | |].
  - pose proof Hf as He. apply (find_child4 _ _ _ _ _ Hok) in He. destruct (find_key4_entry _ _ _ _ _ _ Hok He) as (i & Hi & Hik & Hk).
    cbn [replace_child]. rewrite Hi. pose proof (small_replace _ _ _ _ i c Hok Hik) as Hok'. split_and!; [done| |done|done].
    eapply updates_entry; [intros; by apply find_child4|intros; by apply find_child4|]. intros. by eapply entry_replace.
  - destruct Hok as [Hok Hs]. pose proof Hf as He. apply (find_child16 _ _ _ _ _ Hok Hs) in He.
    destruct (find_key4_entry _ _ _ _ _ _ Hok He) as (i & Hi & Hik & Hk). cbn [replace_child]. rewrite Hi.
    pose proof (small_replace _ _ _ _ i c Hok Hik) as Hok'. split_and!; [done| |done|done].
    eapply updates_entry; [intros; by apply find_child16|intros; by apply find_child16|]. intros. by eapply entry_replace.
  - rewrite find_child48 in Hf by done. apply bind_Some in Hf as (i & Hi & Hc). cbn [replace_child].
    assert (Hi' : slot index b = Some i) by (unfold slots in Hi; by rewrite Z2Nat.id in Hi by lia). rewrite Hi'.
    split_and!; [by eapply replace_large| |done|done]. intros b' Hb'. rewrite !find_child48 by done.
    destruct (large_full _ _ _ Hok _ _ Hi) as [c1 Hc1]. apply lookup_lt_Some in Hc1. case_decide as E.
    + subst. rewrite Hi. cbn [mbind option_bind]. by rewrite family_insert, decide_True by done.
    + destruct (slots index (Z.to_nat b')) as [i'|] eqn:Ei; [|done]. cbn [mbind option_bind]. rewrite family_insert, decide_False; [done| |done].
      intros ->. apply E. pose proof (large_inj _ _ _ Hok _ _ _ Hi Ei). lia.
  - destruct Hok as [Hl Hk]. cbn [replace_child find_child] in *. split_and!; [split; [by rewrite length_insert|]| |done|done].
    + rewrite <- Hk. apply dom_ext. intros j Hj. rewrite family_insert by lia. case_decide; [|done]. subst. unfold family. rewrite Hf.
      split; by eexists.
    + intros b' Hb'. cbn [find_child]. fold (family (<[Z.to_nat b := Some c]> cs) (Z.to_nat b')). rewrite family_insert by lia.
      pose proof (byte_nat_eq b b' Hb Hb'). repeat case_decide; tauto.
Qed.

(** *** Adding *)

Lemma add4 h keys cs b c : small_ok 4 (num_children h) keys cs -> (num_children h < 4)%nat -> 0 <= b < 256 ->
  find_child (Node4 h keys cs) b = None ->
  node_ok (add_child_to_node4 h keys cs b c) /\ updates (Node4 h keys cs) (add_child_to_node4 h keys cs b c) b (Some c).
Proof.
  intros Hok Hk Hb Hf. assert (Hno : forall c, ~ entry (num_children h) keys cs b c) by (intros c' He; apply (find_child4 _ _ _ _ _ Hok) in He; congruence).
  pose proof (entry_absent _ _ _ _ _ Hok Hno) as Habs. assert (Hp : (insert_pos (num_children h) keys b <= num_children h)%nat).
  { apply insert_pos_spec. rewrite (small_keys _ _ _ _ Hok). lia. }
  assert (Hok' : node_ok (add_child_to_node4 h keys cs b c)) by (by apply small_insert). split; [done|].
  eapply updates_entry; [intros; by apply find_child4|intros; by apply (find_child4 (set_count (S (num_children h)) h))|].
  apply entry_new; [done|]. intros. destruct Hok. by eapply entry_insert.
Qed.

Lemma add16 h keys cs b c : small_ok 16 (num_children h) keys cs -> sorted_keys (num_children h) keys -> (num_children h < 16)%nat -> 0 <= b < 256 ->
  find_child (Node16 h keys cs) b = None ->
  node_ok (add_child_to_node16 h keys cs b c) /\ updates (Node16 h keys cs) (add_child_to_node16 h keys cs b c) b (Some c).
Proof.
  intros Hok Hs Hk Hb Hf. assert (Hno : forall c, ~ entry (num_children h) keys cs b c) by (intros c' He; apply (find_child16 _ _ _ _ _ Hok Hs) in He; congruence).
  pose proof (entry_absent _ _ _ _ _ Hok Hno) as Habs. assert (Hp : (insert_pos (num_children h) keys b <= num_children h)%nat).
  { apply insert_pos_spec. rewrite (small_keys _ _ _ _ Hok). lia. }
  assert (Hok' : node_ok (add_child_to_node16 h keys cs b c)).
  { split; [by apply small_insert|]. eapply sorted_insert; [by apply (small_keys _ _ _ _ Hok)|done|done|done]. }
  split; [done|]. destruct Hok' as [Hok1 Hs1].
  eapply updates_entry; [intros; by apply find_child16|intros; by apply (find_child16 (set_count (S (num_children h)) h))|].
  apply entry_new; [done|]. intros. destruct Hok. by eapply entry_insert.
Qed.

Lemma add48 h index cs b c : large_ok (num_children h) index cs -> dense (num_children h) index -> (num_children h < 48)%nat -> 0 <= b < 256 ->
  find_child (Node48 h index cs) b = None ->
  node_ok (add_child_to_node48 h index cs b c) /\ updates (Node48 h index cs) (add_child_to_node48 h index cs b c) b (Some c).
Proof.
  intros Hok Hd Hk Hb Hf. pose proof Hok as [H1 H2 H3 H4 H5]. rewrite find_child48 in Hf by done.
  assert (Hfree : slots index (Z.to_nat b) = None).
  { destruct (slots index (Z.to_nat b)) as [i|] eqn:E; [|done]. destruct (H3 _ _ E) as [c' Hc']. cbn in Hf. unfold family in Hf. by rewrite Hc' in Hf. }
  assert (Hs : forall j, slots (<[Z.to_nat b := Z.of_nat (num_children h) mod 256]> index) j = if decide (j = Z.to_nat b) then Some (num_children h) else slots index j).
  { intros j. apply slots_insert; lia. }
  split.
  - split; [by rewrite length_insert|by rewrite length_insert| | |].
    + intros j i. rewrite Hs. case_decide; [intros [= <-]; rewrite list_lookup_insert_eq by lia; by eexists|]. intros Hi. pose proof (Hd _ _ Hi).
      rewrite list_lookup_insert_ne by lia. by eapply H3.
    + intros j j' i. rewrite !Hs. repeat case_decide; subst; [done|intros [= <-] Hi%Hd; lia|intros Hi%Hd [= <-]; lia|by apply H4].
    + cbn [num_children set_count]. rewrite <- H5 at 2. apply (dom_add _ _ (Z.to_nat b)); [lia|done|rewrite Hs, decide_True by done; by eexists|].
      intros i Hi. by rewrite Hs, decide_False by done.
  - intros b' Hb'. unfold add_child_to_node48. rewrite !find_child48 by done. rewrite Hs. pose proof (byte_nat_eq b b' Hb Hb').
    repeat case_decide; try tauto.
    + cbn. rewrite family_insert by lia. by rewrite decide_True.
    + destruct (slots index (Z.to_nat b')) as [i|] eqn:E; [|done]. cbn. pose proof (Hd _ _ E). rewrite family_insert by lia. by rewrite decide_False by lia.
Qed.

Lemma add256 h cs b c : length cs = 256%nat -> length (dom (family cs)) = num_children h -> 0 <= b < 256 -> find_child (Node256 h cs) b = None ->
  node_ok (add_child_to_node256 h cs b c) /\ updates (Node256 h cs) (add_child_to_node256 h cs b c) b (Some c).
Proof.
  intros Hl Hk Hb Hf. split; [split; [by rewrite length_insert|]|].
  - cbn [num_children set_count]. rewrite <- Hk. apply (dom_add _ _ (Z.to_nat b)); [lia|done|rewrite family_insert, decide_True by (lia || done); by eexists|].
    intros i Hi. by rewrite family_insert, decide_False by (lia || done).
  - intros b' Hb'. unfold add_child_to_node256. cbn [find_child]. fold (family (<[Z.to_nat b := Some c]> cs) (Z.to_nat b')). rewrite family_insert by lia.
    pose proof (byte_nat_eq b b' Hb Hb'). repeat case_decide; tauto.
Qed.

(** *** Growing *)

Lemma grow16 h keys cs : small_ok 16 (num_children h) keys cs -> sorted_keys (num_children h) keys ->
  let '(index, cs') := grow_node16_to_node48 h keys cs in
  large_ok (num_children h) index cs' /\ dense (num_children h) index /\
  forall b, 0 <= b < 256 -> find_child (Node48 h index cs') b = find_child (Node16 h keys cs) b.
Proof.
  intros Hok Hs. pose proof Hok as [H1 H2 H3 H4 H5 H6]. unfold grow_node16_to_node48. set (k := num_children h) in *.
  assert (Hlen : length (take k keys) = k) by (rewrite length_take; lia).
  assert (Hidx : foldl (fun index p => <[Z.to_nat p.2 := Z.of_nat p.1 mod 256]> index) (replicate 256 255) (zip (seq 0 k) (take k keys)) = index_of (take k keys)).
  { unfold index_of. by rewrite Hlen. }
  rewrite Hidx. clear Hidx. assert (Hb : byte_list (take k keys)).
  { apply Forall_lookup. intros i x Hi. apply lookup_take_Some in Hi as [Hi Hik]. by eapply H5. }
  assert (Hnd : NoDup (take k keys)).
  { apply NoDup_alt. intros i j x Hi Hj. apply lookup_take_Some in Hi as [Hi Hik]. apply lookup_take_Some in Hj as [Hj Hjk]. by eapply H6. }
  assert (Hcs : forall i, (i < k)%nat -> (take k cs ++ replicate (48 - k) None) !! i = cs !! i).
  { intros i Hi. apply lookup_padded. lia. }
  destruct (index_of_large (take k keys) (take k cs ++ replicate (48 - k) None)) as [Hl Hd]; [lia|done|done| | |].
  { rewrite length_app, length_take, length_replicate. lia. }
  { intros i Hi. rewrite Hcs by lia. apply H4. lia. }
  rewrite Hlen in Hl, Hd. split_and!; [done|done|]. intros b Hbb. rewrite find_child48 by done. apply option_eq. intros c.
  rewrite (find_child16 _ _ _ _ _ Hok Hs), bind_Some. destruct (index_of_spec (take k keys)) as [_ Hspec]; [lia|done|done|]. split.
  - intros (i & Hi%Hspec & Hc). rewrite Z2Nat.id in Hi by lia. apply lookup_take_Some in Hi as [Hi Hik]. exists i. split_and!; [done|done|].
    unfold family in Hc. rewrite Hcs in Hc by done. destruct (H4 i Hik) as [c' Ec]. rewrite Ec in *. cbn in Hc. by simplify_eq.
  - intros (i & Hi & Hk & Hc). exists i. split; [apply Hspec; rewrite Z2Nat.id by lia; by apply lookup_take_Some|]. unfold family. by rewrite Hcs, Hc.
Qed.

Lemma grow48 h index cs : large_ok (num_children h) index cs ->
  length (grow_node48_to_node256 index cs) = 256%nat /\ length (dom (family (grow_node48_to_node256 index cs))) = num_children h /\
  forall b, 0 <= b < 256 -> find_child (Node256 h (grow_node48_to_node256 index cs)) b = find_child (Node48 h index cs) b.
Proof.
  intros [H1 H2 H3 H4 H5]. assert (Hfam : forall j, (j < 256)%nat -> family (grow_node48_to_node256 index cs) j = i ← slots index j; family cs i).
  { intros j Hj. unfold family, grow_node48_to_node256. rewrite list_lookup_fmap, lookup_seq_lt by done. done. }
  split_and!; [by unfold grow_node48_to_node256; rewrite length_fmap, length_seq| |].
  - rewrite <- H5. apply dom_ext. intros j Hj. rewrite Hfam by done. destruct (slots index j) as [i|] eqn:E; [|split; by intros [? ?]].
    destruct (H3 _ _ E) as [c Hc]. cbn. unfold family. rewrite Hc. split; by eexists.
  - intros b Hb. rewrite find_child48 by done. cbn [find_child]. fold (family (grow_node48_to_node256 index cs) (Z.to_nat b)). apply Hfam. lia.
Qed.

Lemma updates_from n1 n n' b o : (forall b, 0 <= b < 256 -> find_child n1 b = find_child n b) -> updates n1 n' b o -> updates n n' b o.
Proof. intros H Hu b' Hb'. rewrite (Hu b' Hb'). case_decide; auto. Qed.

(** Adding a child to a node that has none for the byte. *)
Lemma add_child_spec n b c : node_ok n -> tidy_node n -> is_leaf n = false -> 0 <= b < 256 -> find_child n b = None ->
  exists n', add_child n b c = Ok n' /\ node_ok n' /\ updates n n' b (Some c) /\ same_top n n'.
Proof.
  intros Hok Ht Hleaf Hb Hf. destruct n as [k v|h keys cs|h keys cs|h index cs|h cs]; [done| | | |]; cbn [add_child node_ok tidy_node] in *.
  - destruct (Nat.ltb_spec (num_children h) 4) as [Hk|Hk].
    + destruct (add4 h keys cs b c Hok Hk Hb Hf) as [H1 H2]. by eexists.
    + assert (Hk4 : num_children h = 4%nat) by (pose proof (small_cap _ _ _ _ Hok); lia). specialize (Ht Hk4). rewrite <- Hk4 in Ht.
      destruct (small_grow _ _ _ Hok) as (Hg & Hgs & Hge). specialize (Hgs Ht). unfold grow_node4_to_node16.
      assert (Hsame : forall b, 0 <= b < 256 -> find_child (Node16 h (take (num_children h) keys ++ replicate (16 - num_children h) 0)
        (take (num_children h) cs ++ replicate (16 - num_children h) None)) b = find_child (Node4 h keys cs) b).
      { intros b' _. apply option_eq. intros c'. rewrite (find_child16 _ _ _ _ _ Hg Hgs), (find_child4 _ _ _ _ _ Hok). apply Hge. }
      destruct (add16 h _ _ b c Hg Hgs ltac:(lia) Hb) as [H1 H2]; [by rewrite Hsame|]. eexists. split_and!; [done|done|by eapply updates_from|done].
  - destruct Hok as [Hok Hs]. destruct (Nat.ltb_spec (num_children h) 16) as [Hk|Hk].
    + destruct (add16 h keys cs b c Hok Hs Hk Hb Hf) as [H1 H2]. by eexists.
    + pose proof (small_cap _ _ _ _ Hok). pose proof (grow16 h keys cs Hok Hs) as Hg. destruct (grow_node16_to_node48 h keys cs) as [index cs'].
      destruct Hg as (Hl & Hd & Hsame). destruct (add48 h index cs' b c Hl Hd ltac:(lia) Hb) as [H1 H2]; [by rewrite Hsame|].
      eexists. split_and!; [done|done|by eapply updates_from|done].
  - destruct (Nat.ltb_spec (num_children h) 48) as [Hk|Hk].
    + destruct (add48 h index cs b c Hok (Ht Hk) Hk Hb Hf) as [H1 H2]. by eexists.
    + destruct (grow48 h index cs Hok) as (Hl & Hc & Hsame). destruct (add256 h _ b c Hl Hc Hb) as [H1 H2]; [by rewrite Hsame|].
      eexists. split_and!; [done|done|by eapply updates_from|done].
  - destruct Hok as [Hl Hk]. pose proof (dom_room (family cs) (Z.to_nat b) ltac:(lia) Hf). destruct (Nat.ltb_spec (num_children h) 256); [|lia].
    destruct (add256 h cs b c Hl Hk Hb Hf) as [H1 H2]. by eexists.
Qed.

(** *** Shrinking *)

Lemma present_full keys cs : full_slots (length keys) cs -> (present keys cs).*1 = keys /\ Some <$> (present keys cs).*2 = take (length keys) cs.
Proof.
  revert cs. induction keys as [|b keys IH]; intros cs Hf; [done|]. destruct (Hf 0%nat ltac:(cbn; lia)) as [c Hc]. destruct cs as [|o cs]; [done|].
  injection Hc as ->. destruct (IH cs) as [E1 E2]; [intros i Hi; apply (Hf (S i)); cbn; lia|].
  change (present (b :: keys) (Some c :: cs)) with ((b, c) :: present keys cs). by rewrite !fmap_cons, E1, E2.
Qed.

Lemma lookup_packed {A} size (x : A) l i : (length l <= size)%nat -> (i < length l)%nat -> take size (l ++ replicate size x) !! i = l !! i.
Proof. intros Hl Hi. by rewrite lookup_take, decide_True, lookup_app_l by lia. Qed.

Lemma length_packed {A} size (x : A) l : length (take size (l ++ replicate size x)) = size.
Proof. rewrite length_take, length_app, length_replicate. lia. Qed.

Lemma shrink16 h keys cs : small_ok 16 (num_children h) keys cs -> sorted_keys (num_children h) keys -> (num_children h <= 4)%nat ->
  node_ok (shrink_node16_to_node4 h keys cs) /\ forall b, find_child (shrink_node16_to_node4 h keys cs) b = find_child (Node16 h keys cs) b.
Proof.
  intros Hok Hs Hk. pose proof Hok as [H1 H2 H3 H4 H5 H6]. unfold shrink_node16_to_node4, pack. set (k := num_children h) in *.
  assert (Hlk : length (take k keys) = k) by (rewrite length_take; lia). assert (Hlc : length (take k cs) = k) by (rewrite length_take; lia).
  destruct (present_full (take k keys) cs) as [-> ->]; [by rewrite Hlk|]. rewrite Hlk.
  destruct (small_agree _ 4 k keys cs (take 4 (take k keys ++ replicate 4 0)) (take 4 (take k cs ++ replicate 4 None)) Hok Hk) as (Hok' & _ & He).
  { apply length_packed. } { apply length_packed. }
  { intros i Hi. rewrite lookup_packed, lookup_take, decide_True by lia. done. } { intros i Hi. rewrite lookup_packed, lookup_take, decide_True by lia. done. }
  split; [done|]. intros b. apply option_eq. intros c. rewrite (find_child4 _ _ _ _ _ Hok'), (find_child16 _ _ _ _ _ Hok Hs). apply He.
Qed.

(** The arrays a family packs into, its keys in order. *)
Lemma packed_family {B} (f : nat -> option B) (g : nat -> option (Node V)) size : (length (dom f) <= size)%nat -> (forall j, j ∈ dom f -> is_Some (g j)) ->
  let keys := take size ((Z.of_nat <$> dom f) ++ replicate size 0) in let cs := take size ((g <$> dom f) ++ replicate size None) in
  small_ok size (length (dom f)) keys cs /\ sorted_keys (length (dom f)) keys /\
  forall b c, 0 <= b < 256 -> entry (length (dom f)) keys cs b c <-> is_Some (f (Z.to_nat b)) /\ g (Z.to_nat b) = Some c.
Proof.
  intros Hl Hg keys cs.
  assert (Ek : forall i, (i < length (dom f))%nat -> keys !! i = Z.of_nat <$> dom f !! i).
  { intros i Hi. unfold keys. rewrite lookup_packed by (rewrite length_fmap; lia). by rewrite list_lookup_fmap. }
  assert (Ec : forall i, (i < length (dom f))%nat -> cs !! i = g <$> dom f !! i).
  { intros i Hi. unfold cs. rewrite lookup_packed by (rewrite length_fmap; lia). by rewrite list_lookup_fmap. }
  assert (Hs : sorted_keys (length (dom f)) keys).
  { intros i j x y Hij. rewrite !Ek by lia. intros (x' & Hx & ->)%fmap_Some (y' & Hy & ->)%fmap_Some.
    pose proof (seq_filter_sorted _ _ _ _ _ _ (proj1 Hij) Hx Hy). lia. }
  split_and!; [split; [done|apply length_packed|apply length_packed| | |by apply sorted_distinct]|done|].
  - intros i Hi. rewrite Ec by done. destruct (lookup_lt_is_Some_2 _ _ Hi) as [j Hj]. rewrite Hj. cbn.
    destruct (Hg j) as [c Hc]; [by eapply list_elem_of_lookup_2|]. exists c. by rewrite Hc.
  - intros i x Hi. rewrite Ek by assumption. intros (j & Hj & ->)%fmap_Some. apply list_elem_of_lookup_2, elem_of_dom in Hj. lia.
  - intros b c Hb. split.
    + intros (i & Hi & Hx & Hc). rewrite Ek in Hx by assumption. rewrite Ec in Hc by assumption. apply fmap_Some in Hx as (j & Hj & ->). rewrite Hj in Hc.
      cbn in Hc. rewrite Nat2Z.id. apply list_elem_of_lookup_2, elem_of_dom in Hj. split; [tauto|congruence].
    + intros [Hf Hgc]. assert (Hj : Z.to_nat b ∈ dom f) by (apply elem_of_dom; split; [lia|done]). apply list_elem_of_lookup in Hj as [i Hi].
      pose proof (lookup_lt_Some _ _ _ Hi). exists i. rewrite Ek, Ec, Hi by assumption. cbn [fmap option_fmap option_map]. rewrite Hgc, Z2Nat.id by lia. split_and!; [assumption|reflexivity|reflexivity].
Qed.

Lemma shrink48 h index cs : large_ok (num_children h) index cs -> (num_children h <= 16)%nat ->
  node_ok (shrink_node48_to_node16 h index cs) /\
  forall b, 0 <= b < 256 -> find_child (shrink_node48_to_node16 h index cs) b = find_child (Node48 h index cs) b.
Proof.
  intros [H1 H2 H3 H4 H5] Hk. destruct (packed_family (slots index) (fun j => i ← slots index j; family cs i) 16) as (Hok & Hs & He); [lia| |].
  { intros j [_ [i Hi]]%elem_of_dom. rewrite Hi. cbn. destruct (H3 _ _ Hi) as [c Hc]. unfold family. rewrite Hc. by eexists. }
  rewrite H5 in *. split; [by split|]. intros b Hb. rewrite find_child48 by done. apply option_eq. intros c.
  unfold shrink_node48_to_node16. etransitivity; [by apply find_child16|]. etransitivity; [by apply He|].
  destruct (slots index (Z.to_nat b)) as [i|]; cbn; [|split; [tauto|done]]. split; [tauto|]. intros ->. split; [by eexists|done].
Qed.

(** The children of a [Node256] with their bytes. *)
Lemma present_dom cs : length cs = 256%nat ->
  (present (Z.of_nat <$> seq 0 256) cs).*1 = Z.of_nat <$> dom (family cs) /\ Some <$> (present (Z.of_nat <$> seq 0 256) cs).*2 = family cs <$> dom (family cs).
Proof.
  intros Hl. assert (H : forall m, (m <= 256)%nat -> let ps := present (Z.of_nat <$> seq 0 m) (take m cs) in let js := filter (fun j => is_Some (family cs j)) (seq 0 m) in
    ps.*1 = Z.of_nat <$> js /\ Some <$> ps.*2 = family cs <$> js).
  { induction m as [|m IH]; intros Hm; [done|]. destruct (lookup_lt_is_Some_2 cs m) as [o Ho]; [lia|]. specialize (IH ltac:(lia)) as [E1 E2].
    assert (Hp : present (Z.of_nat <$> seq 0 (S m)) (take (S m) cs) = present (Z.of_nat <$> seq 0 m) (take m cs) ++ present [Z.of_nat m] [o]).
    { unfold present. rewrite seq_S, (take_S_r _ _ _ Ho), fmap_app, zip_with_app by (rewrite length_fmap, length_seq, length_take; lia). by rewrite omap_app. }
    cbv zeta. rewrite Hp, seq_S, filter_app, !fmap_app, E1, E2. cbn [Nat.add].
    assert (Hfm : family cs m = o) by (unfold family; rewrite Ho; done).
    destruct o as [c|]; [rewrite filter_cons_True by (rewrite Hfm; by eexists)|rewrite filter_cons_False by (rewrite Hfm; by intros [? ?])];
      rewrite filter_nil; cbn; rewrite ?Hfm; done. }
  destruct (H 256%nat ltac:(lia)) as [E1 E2]. rewrite take_ge in E1, E2 by lia. by split.
Qed.

Lemma shrink256 h cs : length cs = 256%nat -> length (dom (family cs)) = num_children h -> (num_children h <= 48)%nat ->
  node_ok (shrink_node256_to_node48 h cs) /\ forall b, 0 <= b < 256 -> find_child (shrink_node256_to_node48 h cs) b = find_child (Node256 h cs) b.
Proof.
  intros Hl Hn Hk. destruct (present_dom cs Hl) as [E1 E2]. unfold shrink_node256_to_node48. set (ps := present (Z.of_nat <$> seq 0 256) cs) in *.
  assert (Hlp : length ps = length ps.*1) by (by rewrite length_fmap). rewrite Hlp, E1, E2. clear Hlp E1 E2. set (js := dom (family cs)) in *.
  assert (Hb : byte_list (Z.of_nat <$> js)).
  { apply Forall_fmap, Forall_forall. intros j [Hj _]%elem_of_dom. cbn. lia. }
  assert (Hnd : NoDup (Z.of_nat <$> js)) by (apply NoDup_fmap_2; [intros ? ?; lia|apply NoDup_dom]).
  assert (Hlen : length (Z.of_nat <$> js) = num_children h) by (by rewrite length_fmap).
  change (foldl _ _ _) with (index_of (Z.of_nat <$> js)). set (cs' := take 48 ((family cs <$> js) ++ replicate 48 None)).
  assert (Hc : forall i, (i < num_children h)%nat -> cs' !! i = family cs <$> js !! i).
  { intros i Hi. unfold cs'. rewrite lookup_packed by (rewrite length_fmap; lia). apply list_lookup_fmap. }
  assert (Hjs : forall i j, js !! i = Some j -> exists c, family cs j = Some c).
  { intros i j Hj. apply list_elem_of_lookup_2, elem_of_dom in Hj as [_ [c Hj]]. by exists c. }
  destruct (index_of_large (Z.of_nat <$> js) cs') as [Hok _]; [lia|done|done|apply length_packed| |].
  { rewrite Hlen. intros i Hi. rewrite Hc by done. destruct (lookup_lt_is_Some_2 js i) as [j Hj]; [lia|]. destruct (Hjs i j Hj) as [c Hjc].
    exists c. rewrite Hj. cbn. by rewrite Hjc. }
  rewrite Hlen in Hok. split; [done|]. intros b Hbb. rewrite find_child48 by done. cbn [find_child]. fold (family cs (Z.to_nat b)).
  destruct (index_of_spec (Z.of_nat <$> js)) as [_ Hspec]; [lia|done|done|]. apply option_eq. intros c. rewrite bind_Some. split.
  - intros (i & Hi%Hspec & Hfc). rewrite list_lookup_fmap in Hi. apply fmap_Some in Hi as (j & Hj & Eb).
    assert (Hik : (i < num_children h)%nat) by (rewrite <- Hn; by eapply lookup_lt_Some). unfold family at 1 in Hfc. rewrite Hc, Hj in Hfc by done. cbn in Hfc.
    by replace (Z.to_nat b) with j by lia.
  - intros Hfc. assert (Hj : Z.to_nat b ∈ js) by (apply elem_of_dom; split; [lia|by eexists]). apply list_elem_of_lookup in Hj as [i Hi].
    assert (Hik : (i < num_children h)%nat) by (rewrite <- Hn; by eapply lookup_lt_Some).
    exists i. split; [apply Hspec; rewrite list_lookup_fmap, Hi; done|]. unfold family at 1. rewrite Hc, Hi by done. done.
Qed.

(** *** Removing *)

Lemma remove_sorted_spec cap h keys cs b c : small_ok cap (num_children h) keys cs -> entry (num_children h) keys cs b c ->
  exists keys' cs', remove_sorted h keys cs b = (set_count (num_children h - 1) h, keys', cs') /\
    small_ok cap (num_children h - 1) keys' cs' /\ (sorted_keys (num_children h) keys -> sorted_keys (num_children h - 1) keys') /\
    forall b' c', entry (num_children h - 1) keys' cs' b' c' <-> (b' = b /\ None = Some c') \/ (b' <> b /\ entry (num_children h) keys cs b' c').
Proof.
  intros Hok He. pose proof Hok as [H1 H2 H3 H4 H5 H6]. destruct (find_key4_entry _ _ _ _ _ _ Hok He) as (i & Hi & Hik & Hk).
  unfold remove_sorted. rewrite Hi. do 2 eexists. split_and!; [done| | |].
  - eapply small_remove; [done|done|done|rewrite length_take, length_drop; lia|done].
  - apply sorted_remove. lia.
  - intros b' c'. etransitivity; [by apply (entry_remove cap)|]. naive_solver.
Qed.

Lemma remove48 h index cs b c : large_ok (num_children h) index cs -> 0 <= b < 256 -> find_child (Node48 h index cs) b = Some c ->
  exists index' cs', remove_child_from_node48 h index cs b = (set_count (num_children h - 1) h, index', cs') /\
    large_ok (num_children h - 1) index' cs' /\ forall h', updates (Node48 h index cs) (Node48 h' index' cs') b None.
Proof.
  intros [H1 H2 H3 H4 H5] Hb Hf. rewrite find_child48 in Hf by done. apply bind_Some in Hf as (i & Hi & Hc).
  assert (Hi' : slot index b = Some i) by (unfold slots in Hi; by rewrite Z2Nat.id in Hi by lia). unfold remove_child_from_node48. rewrite Hi'.
  do 2 eexists. split; [done|].
  assert (Hs : forall j, slots (<[Z.to_nat b := 255]> index) j = if decide (j = Z.to_nat b) then None else slots index j) by (intros; apply slots_delete; lia).
  assert (Hother : forall j i', j <> Z.to_nat b -> slots index j = Some i' -> i' <> i) by (intros j i' Hj Hi'' ->; apply Hj; by eapply H4).
  split.
  - split; [by rewrite length_insert|by rewrite length_insert| | |].
    + intros j i'. rewrite Hs. case_decide; [done|]. intros Hj. rewrite list_lookup_insert_ne by (by apply not_eq_sym, (Hother j)). by eapply H3.
    + intros j j' i'. rewrite !Hs. repeat case_decide; [done|done|done|by apply H4].
    + rewrite <- H5. apply (dom_remove _ _ (Z.to_nat b)); [lia|by eexists|by rewrite Hs, decide_True|]. intros j Hj. by rewrite Hs, decide_False.
  - intros h' b' Hb'. rewrite !find_child48 by done. rewrite Hs. pose proof (byte_nat_eq b b' Hb Hb') as Heq.
    destruct (decide (b' = b)) as [->|Hne]; [by rewrite decide_True|]. rewrite decide_False by tauto.
    destruct (slots index (Z.to_nat b')) as [i'|] eqn:E; [|done]. cbn [mbind option_bind].
    destruct (H3 _ _ Hi) as [c1 Hc1%lookup_lt_Some]. rewrite family_insert, decide_False; [done| |done]. apply (Hother (Z.to_nat b')); [tauto|done].
Qed.

Lemma remove256 h cs b c : length cs = 256%nat -> length (dom (family cs)) = num_children h -> 0 <= b < 256 -> find_child (Node256 h cs) b = Some c ->
  exists cs', remove_child_from_node256 h cs b = (set_count (num_children h - 1) h, cs') /\
    length cs' = 256%nat /\ length (dom (family cs')) = (num_children h - 1)%nat /\ forall h', updates (Node256 h cs) (Node256 h' cs') b None.
Proof.
  intros Hl Hk Hb Hf. cbn [find_child] in Hf. unfold remove_child_from_node256. rewrite Hf. eexists. split_and!; [done|by rewrite length_insert| |].
  - rewrite <- Hk. apply (dom_remove _ _ (Z.to_nat b)); [lia|by eexists|by rewrite family_insert, decide_True by (lia || done)|].
    intros j Hj. by rewrite family_insert, decide_False by (lia || done).
  - intros h' b' Hb'. cbn [find_child]. fold (family (<[Z.to_nat b := None]> cs) (Z.to_nat b')). rewrite family_insert by lia.
    pose proof (byte_nat_eq b b' Hb Hb'). repeat case_decide; tauto.
Qed.

(** What is left of a node [n] whose children are those of [n1]: the node itself,
    nothing when it is empty, or its only child with the path to it. *)
Definition leftover n n1 (r : option (Node V)) : Prop :=
  match r with
  | None => inner_value n = None /\ forall b, 0 <= b < 256 -> find_child n1 b = None
  | Some r => r = n1 \/ exists kb c, r = update_partial c (partial n ++ kb :: partial c) /\ inner_value n = None /\ 0 <= kb < 256 /\
      forall b, 0 <= b < 256 -> find_child n1 b = if decide (b = kb) then Some c else None
  end.

Lemma leftover4 h keys cs : small_ok 4 (num_children h) keys cs ->
  exists r, leftover (Node4 h keys cs) (Node4 h keys cs) r /\
    (if (num_children h =? 1)%nat then Ok (Some (compress_node (Node4 h keys cs)))
     else if (num_children h =? 0)%nat then match node_value h with Some _ => Ok (Some (Node4 h keys cs)) | None => Ok None end
     else Ok (Some (Node4 h keys cs)) : art_result _) = Ok r.
Proof.
  intros Hok. pose proof Hok as [H1 H2 H3 H4 H5 H6]. destruct (Nat.eqb_spec (num_children h) 1) as [Hk|Hk].
  - eexists. split; [|done]. cbn [compress_node leftover]. rewrite Hk, Nat.eqb_refl. cbn [andb]. destruct (node_value h) as [v|] eqn:Ev; [by left|].
    destruct (H4 0%nat ltac:(lia)) as [c Hc]. destruct (lookup_lt_is_Some_2 keys 0%nat) as [kb Hkb]; [lia|]. rewrite Hc, Hkb. cbn [mjoin option_join]. right.
    exists kb, c. split_and!; [done|done|apply (H5 0%nat); [lia|done]|apply (H5 0%nat); [lia|done]|]. intros b _. apply option_eq. intros c'.
    rewrite (find_child4 _ _ _ _ _ Hok). unfold entry. rewrite Hk. split.
    + intros (i & Hi & Hx & Hy). assert (i = 0%nat) as -> by lia. simplify_eq. by rewrite decide_True.
    + case_decide; [|done]. intros [= <-]. exists 0%nat. subst. split_and!; [lia|done|done].
  - destruct (Nat.eqb_spec (num_children h) 0) as [Hk0|Hk0]; [|eexists; split; [|done]; by left].
    destruct (node_value h) as [v|] eqn:Ev; [eexists; split; [|done]; by left|]. exists None. split; [|done]. split; [done|]. intros b _.
    destruct (find_child _ b) as [c|] eqn:E; [|done]. apply (find_child4 _ _ _ _ _ Hok) in E as (i & Hi & _). lia.
Qed.

(** Removing the child for a byte. *)
Lemma remove_child_spec n b c : node_ok n -> 0 <= b < 256 -> find_child n b = Some c ->
  exists n1 r, remove_child n b = Ok r /\ node_ok n1 /\ updates n n1 b None /\ same_top n n1 /\ leftover n n1 r.
Proof.
  intros Hok Hb Hf. destruct n as [k v|h keys cs|h keys cs|h index cs|h cs]; [done| | | |]; cbn [remove_child node_ok] in *.
  - pose proof Hf as He. apply (find_child4 _ _ _ _ _ Hok) in He. destruct (remove_sorted_spec _ _ _ _ _ _ Hok He) as (keys' & cs' & -> & Hok' & _ & HE).
    destruct (leftover4 (set_count (num_children h - 1) h) keys' cs' Hok') as (r & Hleft & ->). exists (Node4 (set_count (num_children h - 1) h) keys' cs'), r.
    split_and!; [done|done| |done|exact Hleft]. eapply updates_entry; [intros; by apply find_child4|intros; by apply (find_child4 (set_count _ h))|exact HE].
  - destruct Hok as [Hok Hs]. pose proof Hf as He. apply (find_child16 _ _ _ _ _ Hok Hs) in He.
    destruct (remove_sorted_spec _ _ _ _ _ _ Hok He) as (keys' & cs' & -> & Hok' & Hs' & HE). specialize (Hs' Hs).
    assert (Hu : updates (Node16 h keys cs) (Node16 (set_count (num_children h - 1) h) keys' cs') b None).
    { eapply updates_entry; [intros; by apply find_child16|intros; by apply (find_child16 (set_count _ h))|exact HE]. }
    destruct (Nat.leb_spec (num_children (set_count (num_children h - 1) h)) 4) as [Hk|Hk].
    + destruct (shrink16 (set_count (num_children h - 1) h) keys' cs' Hok' Hs' Hk) as [Hn Hsame]. do 2 eexists.
      split_and!; [done|exact Hn| |done|by (cbn [leftover]; left)]. intros b' Hb'. rewrite Hsame. by apply Hu.
    + eexists (Node16 (set_count (num_children h - 1) h) keys' cs'), _. split_and!; [done|by split|exact Hu|done|by (cbn [leftover]; left)].
  - destruct (remove48 _ _ _ _ _ Hok Hb Hf) as (index' & cs' & -> & Hok' & Hu). specialize (Hu (set_count (num_children h - 1) h)).
    destruct (Nat.leb_spec (num_children (set_count (num_children h - 1) h)) 16) as [Hk|Hk].
    + destruct (shrink48 (set_count (num_children h - 1) h) index' cs' Hok' Hk) as [Hn Hsame]. do 2 eexists.
      split_and!; [done|exact Hn| |done|by (cbn [leftover]; left)]. intros b' Hb'. rewrite Hsame by done. by apply Hu.
    + eexists (Node48 (set_count (num_children h - 1) h) index' cs'), _. split_and!; [done|exact Hok'|exact Hu|done|by (cbn [leftover]; left)].
  - destruct Hok as [Hl Hk]. destruct (remove256 _ _ _ _ Hl Hk Hb Hf) as (cs' & -> & Hl' & Hk' & Hu). specialize (Hu (set_count (num_children h - 1) h)).
    destruct (Nat.leb_spec (num_children (set_count (num_children h - 1) h)) 48) as [Hle|Hle].
    + destruct (shrink256 (set_count (num_children h - 1) h) cs' Hl' Hk' Hle) as [Hn Hsame]. do 2 eexists.
      split_and!; [done|exact Hn| |done|by (cbn [leftover]; left)]. intros b' Hb'. rewrite Hsame by done. by apply Hu.
    + eexists (Node256 (set_count (num_children h - 1) h) cs'), _. split_and!; [done|by split|exact Hu|done|by (cbn [leftover]; left)].
Qed.
End children.
