(* ===== verification/ArtSpec.v ===== *)
(** * The radix tree as a map

    The tree of nanograph-art/src/tree.rs against the map it stands for: a
    well-formed tree answers lookups totally, removal deletes one key and keeps
    the tree well formed, insertion updates one key when the nodes it may grow
    are tidy and panics exactly when the new key ends inside a compressed path.
    The last part evaluates the tree where these conditions fail. *)

From Stdlib Require Import ZArith Lia.
From stdpp Require Import option strings base list.
From S2P Require Import Prelude BTreeError Art ArtNode ArtChildren.

Open Scope Z_scope.
Import AdaptiveRadixTree.

(** ** Stripping a path from a key *)

Fixpoint strip (p s : list Z) : option (list Z) :=
  match p, s with
  | [], _ => Some s
  | x :: p', y :: s' => if decide (x = y) then strip p' s' else None
  | _ :: _, [] => None
  end.

Lemma strip_Some p s r : strip p s = Some r <-> s = p ++ r.
Proof.
  revert s. induction p as [|x p IH]; intros s; cbn [strip app]; [naive_solver|]. destruct s as [|y s]; [done|].
  case_decide as E; [subst; rewrite IH|]; naive_solver.
Qed.

Lemma strip_app p s : strip p (p ++ s) = Some s.
Proof. by apply strip_Some. Qed.

Lemma strip_cons q x p s : strip (q ++ x :: p) s = match strip q s with Some (y :: r) => if decide (y = x) then strip p r else None | _ => None end.
Proof.
  revert s. induction q as [|z q IH]; intros s; cbn [strip app].
  - destruct s as [|y s]; [done|]. repeat case_decide; congruence.
  - destruct s as [|y s]; [done|]. case_decide; [apply IH|done].
Qed.

(** The common prefix of two lists, and where they part. *)
Lemma common_len_split (p s : list Z) : exists q p' s', p = q ++ p' /\ s = q ++ s' /\ common_len p s = length q /\
  match p', s' with x :: _, y :: _ => x <> y | _, _ => True end.
Proof.
  revert s. induction p as [|x p IH]; intros s; [by exists [], [], s|]. destruct s as [|y s]; [by exists [], (x :: p), []|]. cbn [common_len].
  destruct (Z.eqb_spec x y) as [->|Hne]; [|by exists [], (x :: p), (y :: s)]. destruct (IH s) as (q & p' & s' & -> & -> & -> & H). by exists (y :: q), p', s'.
Qed.

Section map.
Context {V : Type}.
Implicit Types (n c : Node V) (tr : t V) (pre s : list Z) (v : V).

Lemma drop_pre pre s : drop (length pre) (pre ++ s) = s.
Proof. by rewrite drop_app_length. Qed.

Lemma app_byte pre p (b : Z) s : pre ++ p ++ b :: s = (pre ++ p ++ [b]) ++ s.
Proof. by rewrite <- !app_assoc. Qed.

(** ** Lookup *)

Lemma get_step fuel n pre s : is_leaf n = false ->
  get_from (S fuel) n (pre ++ s) (length pre) =
    match strip (partial n) s with
    | None => Ok None
    | Some [] => Ok (inner_value n)
    | Some (b :: r) =>
        match find_child n b with
        | None => Ok None
        | Some c => get_from fuel c ((pre ++ partial n ++ [b]) ++ r) (length (pre ++ partial n ++ [b]))
        end
    end.
Proof.
  intros Hn. cbn [get_from]. rewrite drop_pre. destruct (strip (partial n) s) as [r|] eqn:E.
  - apply strip_Some in E. rewrite E. rewrite !length_app, (proj2 (Nat.leb_le _ _)) by lia. rewrite take_app_length, decide_True by done.
    assert (Hr : match n with Leaf k v => Ok (if decide (k = pre ++ partial n ++ r) then Some v else None) | _ =>
        if (length pre + (length (partial n) + length r) <=? length pre + length (partial n))%nat then Ok (inner_value n)
        else match (pre ++ partial n ++ r) !! (length pre + length (partial n))%nat with
             | None => Panic
             | Some b => match find_child n b with None => Ok None | Some c => get_from fuel c (pre ++ partial n ++ r) (S (length pre + length (partial n))) end
             end end = match r with [] => Ok (inner_value n) | b :: r => match find_child n b with None => Ok None
               | Some c => get_from fuel c ((pre ++ partial n ++ [b]) ++ r) (length (pre ++ partial n ++ [b])) end end); [|destruct n; done].
    destruct r as [|b r].
    + cbn [length]. rewrite Nat.add_0_r, Nat.leb_refl. by destruct n.
    + cbn [length]. rewrite (proj2 (Nat.leb_gt _ _)) by lia. rewrite app_assoc, <- length_app, list_lookup_middle by done. rewrite <- app_assoc, app_byte.
      rewrite length_app. replace (length (pre ++ partial n ++ [b])) with (S (length pre + length (partial n))) by (rewrite !length_app; cbn; lia). by destruct n.
  - case_match eqn:El; [|done]. case_decide as Et; [|done]. rewrite <- Et in E at 1. exfalso.
    assert (H : strip (partial n) s = Some (drop (length (partial n)) s)) by (apply strip_Some; rewrite <- Et at 1; by rewrite take_drop).
    rewrite Et in E. congruence.
Qed.

Lemma get_leaf fuel k v pre s : get_from (S fuel) (Leaf k v) (pre ++ s) (length pre) = Ok (if decide (k = pre ++ s) then Some v else None).
Proof.
  cbn [get_from partial header_of length]. rewrite Nat.add_0_r, length_app, (proj2 (Nat.leb_le _ _)) by lia. rewrite take_0. by rewrite decide_True.
Qed.

Lemma get_fuel f1 : forall f2 n pre s, (length s < f1)%nat -> (length s < f2)%nat ->
  exists o, get_from f1 n (pre ++ s) (length pre) = Ok o /\ get_from f2 n (pre ++ s) (length pre) = Ok o.
Proof.
  induction f1 as [|f1 IH]; intros [|f2] n pre s H1 H2; [lia|lia|lia|]. destruct (is_leaf n) eqn:El.
  { destruct n; [|done..]. rewrite !get_leaf. by eexists. }
  rewrite !get_step by done. destruct (strip (partial n) s) as [[|b r]|] eqn:E; [by eexists| |by eexists]. destruct (find_child n b); [|by eexists].
  apply strip_Some in E. apply IH; rewrite E, length_app in H1, H2; cbn in *; lia.
Qed.

(** The value a node at [pre] holds for the key [pre ++ s]. *)
Definition val n pre s : option V := match get_from (S (length s)) n (pre ++ s) (length pre) with Ok o => o | _ => None end.

Lemma get_total fuel n pre s : (length s < fuel)%nat -> get_from fuel n (pre ++ s) (length pre) = Ok (val n pre s).
Proof. intros Hf. unfold val. destruct (get_fuel fuel (S (length s)) n pre s Hf ltac:(lia)) as (o & -> & ->). done. Qed.

Lemma val_leaf k v pre s : val (Leaf k v) pre s = if decide (k = pre ++ s) then Some v else None.
Proof. unfold val. by rewrite get_leaf. Qed.

Lemma val_inner n pre s : is_leaf n = false ->
  val n pre s = match strip (partial n) s with
    | None => None
    | Some [] => inner_value n
    | Some (b :: r) => match find_child n b with None => None | Some c => val c (pre ++ partial n ++ [b]) r end
    end.
Proof.
  intros Hn. unfold val at 1. rewrite get_step by done. destruct (strip (partial n) s) as [[|b r]|] eqn:E; [done| |done].
  destruct (find_child n b); [|done]. apply strip_Some in E. rewrite get_total; [done|]. rewrite E, length_app. cbn. lia.
Qed.

(** ** Well-formed trees *)

Inductive wf : list Z -> Node V -> Prop :=
| wf_leaf pre s v : byte_list (pre ++ s) -> wf pre (Leaf (pre ++ s) v)
| wf_inner pre n : is_leaf n = false -> node_ok n -> byte_list (pre ++ partial n) ->
    (forall b c, 0 <= b < 256 -> find_child n b = Some c -> wf (pre ++ partial n ++ [b]) c) -> wf pre n.

Inductive tidy : Node V -> Prop :=
| tidy_intro n : tidy_node n -> (forall b c, 0 <= b < 256 -> find_child n b = Some c -> tidy c) -> tidy n.

(** The bytes [s] end inside the compressed path of a node below [n]. *)
Inductive stops_inside : Node V -> list Z -> Prop :=
| stops_here n q x p : partial n = q ++ x :: p -> stops_inside n q
| stops_below n b c r : find_child n b = Some c -> stops_inside c r -> stops_inside n (partial n ++ b :: r).

Lemma wf_inner_inv pre n : wf pre n -> is_leaf n = false ->
  node_ok n /\ byte_list (pre ++ partial n) /\ forall b c, 0 <= b < 256 -> find_child n b = Some c -> wf (pre ++ partial n ++ [b]) c.
Proof. intros Hw Hl. by inversion Hw; subst. Qed.

Lemma wf_leaf_inv pre k v : wf pre (Leaf k v) -> exists s, k = pre ++ s /\ byte_list (pre ++ s).
Proof. intros Hw. inversion Hw as [? s ? Hb|]; subst; [by exists s|done]. Qed.

Lemma stops_inside_inv n s : stops_inside n s ->
  (exists x p, partial n = s ++ x :: p) \/ exists b c r, s = partial n ++ b :: r /\ find_child n b = Some c /\ stops_inside c r.
Proof. intros [? q x p H|? b c r H1 H2]; [left; by eexists _, _|right; by eexists _, _, _]. Qed.

(** ** Moving a node along its path *)

Lemma update_partial_inner n p : is_leaf n = false ->
  is_leaf (update_partial n p) = false /\ partial (update_partial n p) = p /\ inner_value (update_partial n p) = inner_value n /\
  (node_ok n -> node_ok (update_partial n p)) /\ (forall b, find_child (update_partial n p) b = find_child n b) /\ update_partial (update_partial n p) (partial n) = n.
Proof. intros Hn. destruct n as [k v|h ks cs|h ks cs|h ix cs|h cs]; [done|destruct h; by split_and!..]. Qed.

(** A node at [pre ++ q ++ [x]] becomes one at [pre] that starts with [q ++ [x]]. *)
Definition lift q (x : Z) c : Node V := update_partial c (q ++ x :: partial c).

Lemma val_lift pre q x c s : wf (pre ++ q ++ [x]) c ->
  val (lift q x c) pre s = match strip q s with Some (y :: r) => if decide (y = x) then val c (pre ++ q ++ [x]) r else None | _ => None end.
Proof.
  intros Hw. unfold lift. destruct (is_leaf c) eqn:El.
  - destruct c as [k v| | | |]; [|done..]. apply wf_leaf_inv in Hw as (t & -> & _). cbn [update_partial map_header header_of]. rewrite val_leaf.
    destruct (strip q s) as [[|y r]|] eqn:E.
    + apply strip_Some in E as ->. rewrite decide_False; [done|]. rewrite <- app_byte, app_nil_r. intros H%(f_equal length). rewrite !length_app in H. cbn in H. lia.
    + apply strip_Some in E as ->. rewrite val_leaf. rewrite <- !app_byte. repeat case_decide; naive_solver.
    + rewrite decide_False; [done|]. rewrite <- app_byte. intros H%app_inv_head. rewrite <- H in E. by rewrite strip_app in E.
  - destruct (update_partial_inner c (q ++ x :: partial c) El) as (H1 & H2 & H3 & _ & H5 & _). rewrite val_inner, H2, H3, strip_cons by done.
    destruct (strip q s) as [[|y r]|]; [done| |done]. case_decide as Ey; [subst|done]. rewrite (val_inner c) by done.
    destruct (strip (partial c) r) as [[|b r']|]; [done| |done]. rewrite H5. destruct (find_child c b); [|done]. f_equal. by rewrite <- !app_assoc.
Qed.

Lemma wf_lift pre q x c : wf (pre ++ q ++ [x]) c -> wf pre (lift q x c).
Proof.
  intros Hw. unfold lift. destruct (is_leaf c) eqn:El.
  - destruct c as [k v| | | |]; [|done..]. apply wf_leaf_inv in Hw as (t & -> & Hb). cbn. rewrite <- app_byte in *. by constructor.
  - destruct (wf_inner_inv _ _ Hw El) as (Hok & Hb & Hch). destruct (update_partial_inner c (q ++ x :: partial c) El) as (H1 & H2 & H3 & H4 & H5 & _).
    apply wf_inner; [done|auto|by rewrite H2, app_byte|].
    intros b d Hbb. rewrite H5, H2. intros Hd%Hch; [|done]. by rewrite <- !app_assoc in *.
Qed.

Lemma wf_lower pre q x p n : wf pre n -> is_leaf n = false -> partial n = q ++ x :: p ->
  wf (pre ++ q ++ [x]) (update_partial n p) /\ lift q x (update_partial n p) = n.
Proof.
  intros Hw El Hp. destruct (wf_inner_inv _ _ Hw El) as (Hok & Hb & Hch). destruct (update_partial_inner n p El) as (H1 & H2 & H3 & H4 & H5 & H6).
  split; [|unfold lift; by rewrite H2, <- Hp]. apply wf_inner; [done|auto|rewrite H2, <- app_byte, <- Hp; done|].
  intros b c Hbb. rewrite H5, H2. intros Hc%Hch; [|done]. rewrite Hp in Hc. by rewrite <- !app_assoc in *.
Qed.

(** ** New inner nodes *)

Definition branch q (x : Z) c (y : Z) d : Node V := add_child_unchecked (add_child_unchecked (new_node4 q) x c) y d.
Definition stem q v (x : Z) c : Node V := add_child_unchecked (map_header (set_value (Some v)) (new_node4 q)) x c.

Lemma find_key4_one x l b : find_key4 1 (x :: l) b = if decide (x = b) then Some 0%nat else None.
Proof. unfold find_key4. cbn [take]. rewrite take_0. cbn. by case_decide. Qed.

Lemma find_key4_two x y l b : find_key4 2 (x :: y :: l) b = if decide (x = b) then Some 0%nat else if decide (y = b) then Some 1%nat else None.
Proof. unfold find_key4. cbn [take]. rewrite take_0. cbn. repeat case_decide; done. Qed.

Lemma branch_ok q x c y d : 0 <= x < 256 -> 0 <= y < 256 -> x <> y -> node_ok (branch q x c y d).
Proof.
  intros Hx Hy Hne. split; cbn; [lia|done|done| | |].
  - intros [|[|i]] Hi; [by eexists..|lia].
  - intros [|[|i]] z Hi; cbn; [intros [= <-]; lia..|lia].
  - intros [|[|i]] [|[|j]] z Hi Hj; cbn; intros; simplify_eq; lia.
Qed.

Lemma branch_find q x c y d b : find_child (branch q x c y d) b = if decide (b = x) then Some c else if decide (b = y) then Some d else None.
Proof. change (find_child (branch q x c y d) b) with (i ← find_key4 2 [x; y; 0; 0] b; mjoin ([Some c; Some d; None; None] !! i)). rewrite find_key4_two. repeat case_decide; naive_solver. Qed.

Lemma stem_ok q v x c : 0 <= x < 256 -> node_ok (stem q v x c).
Proof.
  intros Hx. split; cbn; [lia|done|done| | |].
  - intros [|i] Hi; [by eexists|lia].
  - intros [|i] z Hi; cbn; [intros [= <-]; lia|lia].
  - intros [|i] [|j] z Hi Hj; cbn; intros; simplify_eq; lia.
Qed.

Lemma stem_find q v x c b : find_child (stem q v x c) b = if decide (b = x) then Some c else None.
Proof. change (find_child (stem q v x c) b) with (i ← find_key4 1 [x; 0; 0; 0] b; mjoin ([Some c; None; None; None] !! i)). rewrite find_key4_one. repeat case_decide; naive_solver. Qed.

Lemma wf_branch pre q x c y d : 0 <= x < 256 -> 0 <= y < 256 -> x <> y -> byte_list (pre ++ q) ->
  wf (pre ++ q ++ [x]) c -> wf (pre ++ q ++ [y]) d -> wf pre (branch q x c y d).
Proof.
  intros Hx Hy Hne Hb Hc Hd. apply wf_inner; [done|by apply branch_ok|done|]. intros b e _. rewrite branch_find. change (partial _) with q.
  repeat case_decide; naive_solver.
Qed.

Lemma wf_stem pre q v x c : 0 <= x < 256 -> byte_list (pre ++ q) -> wf (pre ++ q ++ [x]) c -> wf pre (stem q v x c).
Proof.
  intros Hx Hb Hc. apply wf_inner; [done|by apply stem_ok|done|]. intros b e _. rewrite stem_find. change (partial _) with q. case_decide; naive_solver.
Qed.

Lemma val_branch pre q x c y d s : val (branch q x c y d) pre s =
  match strip q s with
  | Some (b :: r) => if decide (b = x) then val c (pre ++ q ++ [x]) r else if decide (b = y) then val d (pre ++ q ++ [y]) r else None
  | _ => None
  end.
Proof.
  rewrite val_inner by done. change (partial _) with q. destruct (strip q s) as [[|b r]|]; [done| |done]. rewrite branch_find. by repeat case_decide; subst.
Qed.

Lemma val_stem pre q v x c s : val (stem q v x c) pre s =
  match strip q s with Some [] => Some v | Some (b :: r) => if decide (b = x) then val c (pre ++ q ++ [x]) r else None | None => None end.
Proof.
  rewrite val_inner by done. change (partial _) with q. destruct (strip q s) as [[|b r]|]; [done| |done]. rewrite stem_find. by case_decide; subst.
Qed.

(** ** Insertion *)

Lemma check_prefix_strip p pre s : check_prefix p (pre ++ s) (length pre) = common_len p s.
Proof. unfold check_prefix. by rewrite drop_pre. Qed.

Lemma common_len_strip p s : match strip p s with Some _ => common_len p s = length p | None => (common_len p s < length p)%nat end.
Proof.
  revert s. induction p as [|x p IH]; intros s; [done|]. destruct s as [|y s]; cbn [strip common_len length]; [lia|].
  destruct (decide (x = y)) as [->|Hne]; [|destruct (Z.eqb_spec x y); [done|lia]]. rewrite Z.eqb_refl. specialize (IH s). destruct (strip p s); lia.
Qed.

Lemma insert_step fuel n pre s v : is_leaf n = false ->
  insert_recursive (S fuel) n (pre ++ s) (length pre) v =
    match strip (partial n) s with
    | None => split_node n (pre ++ s) (length pre) (common_len (partial n) s) v
    | Some [] => Ok (set_node_value n v, inner_value n)
    | Some (b :: r) =>
        match find_child n b with
        | Some c => let! (c', old) := insert_recursive fuel c ((pre ++ partial n ++ [b]) ++ r) (length (pre ++ partial n ++ [b])) v in Ok (replace_child n b c', old)
        | None => let! n := add_child n b (new_leaf (pre ++ s) v) in Ok (n, None)
        end
    end.
Proof.
  intros Hn. cbn [insert_recursive]. rewrite check_prefix_strip. pose proof (common_len_strip (partial n) s) as Hc. destruct (strip (partial n) s) as [r|] eqn:E.
  - rewrite Hc, Nat.ltb_irrefl. apply strip_Some in E. destruct r as [|b r].
    + rewrite (proj2 (Nat.leb_le (length (pre ++ s)) _)) by (rewrite E, !length_app; cbn; lia). by destruct n.
    + rewrite (proj2 (Nat.leb_gt (length (pre ++ s)) _)) by (rewrite E, !length_app; cbn; lia).
      assert (Hl : (pre ++ s) !! (length pre + length (partial n))%nat = Some b) by (rewrite E, app_assoc, <- length_app; by apply list_lookup_middle).
      rewrite Hl. cbn [or_panic rbind]. replace (length (pre ++ partial n ++ [b])) with (S (length pre + length (partial n))) by (rewrite !length_app; cbn; lia).
      rewrite <- app_byte, <- E. by destruct n.
  - rewrite (proj2 (Nat.ltb_lt _ _)) by done. done.
Qed.

(** [n'] holds what [n] holds, and [v] for [s]. *)
Definition inserted pre n s v n' : Prop :=
  wf pre n' /\ forall s', byte_list s' -> val n' pre s' = if decide (s' = s) then Some v else val n pre s'.

Lemma strip_self q : strip q q = Some [].
Proof. apply strip_Some. by rewrite app_nil_r. Qed.

Lemma byte_list_app l1 l2 : byte_list (l1 ++ l2) <-> byte_list l1 /\ byte_list l2.
Proof. apply Forall_app. Qed.

Lemma byte_list_cons b l : byte_list (b :: l) <-> 0 <= b < 256 /\ byte_list l.
Proof. unfold byte_list. by rewrite Forall_cons. Qed.

Lemma val_leaf_at pre q t w s : val (Leaf (pre ++ q ++ t) w) pre s = match strip q s with Some r => if decide (r = t) then Some w else None | None => None end.
Proof.
  rewrite val_leaf. destruct (strip q s) as [r|] eqn:E; [apply strip_Some in E; subst|]; repeat case_decide; try naive_solver.
  apply app_inv_head in H. subst. by rewrite strip_app in E.
Qed.

Lemma val_leaf_below pre q x t w r : val (Leaf (pre ++ q ++ x :: t) w) (pre ++ q ++ [x]) r = if decide (r = t) then Some w else None.
Proof. rewrite app_byte. etransitivity; [apply (val_leaf_at _ [] t)|]. done. Qed.

Lemma decide_strip {A} q s0 s (a b : A) :
  (if decide (s = q ++ s0) then a else b) = match strip q s with Some r => if decide (r = s0) then a else b | None => b end.
Proof.
  destruct (strip q s) as [r|] eqn:E; [apply strip_Some in E; subst|]; repeat case_decide; try naive_solver. subst. by rewrite strip_app in E.
Qed.

Lemma wf_leaf_below pre q x t v : byte_list (pre ++ q ++ x :: t) -> wf (pre ++ q ++ [x]) (Leaf (pre ++ q ++ x :: t) v).
Proof. rewrite app_byte. constructor. done. Qed.

Ltac by_bytes := rewrite ?byte_list_app, ?byte_list_cons in *; tauto.

Lemma create_spec pre t w s v : byte_list (pre ++ t) -> byte_list (pre ++ s) -> t <> s ->
  exists n', create_inner_node_from_leaves (pre ++ t) w (pre ++ s) (length pre) v = Ok (n', None) /\ inserted pre (Leaf (pre ++ t) w) s v n'.
Proof.
  intros Hbt Hbs Hne. destruct (common_len_split t s) as (q & t' & s' & -> & -> & Hc & Hd). unfold create_inner_node_from_leaves.
  rewrite !drop_pre, Hc, slice_app by done. cbn [or_panic rbind].
  destruct t' as [|x t1], s' as [|y s1]; [done|rewrite (proj2 (Nat.leb_le _ _)) by (rewrite !length_app; cbn; lia)|..];
    try rewrite (proj2 (Nat.leb_gt (length (pre ++ q ++ x :: t1)) _)) by (rewrite !length_app; cbn; lia);
    [|rewrite (proj2 (Nat.leb_le _ _)) by (rewrite !length_app; cbn; lia)|rewrite (proj2 (Nat.leb_gt _ _)) by (rewrite !length_app; cbn; lia)];
    rewrite ?(app_assoc pre q (_ :: _)), <- ?length_app, ?list_lookup_middle by done; cbn [or_panic rbind]; rewrite <- ?(app_assoc pre q (_ :: _)).
  - exists (stem q w y (Leaf (pre ++ q ++ y :: s1) v)). split; [done|]. split; [apply wf_stem; [by_bytes|by_bytes|by apply wf_leaf_below]|].
    intros s'' _. rewrite val_stem, val_leaf_at, decide_strip. destruct (strip q s'') as [[|b r]|]; [done|rewrite !val_leaf_below|done].
    repeat case_decide; naive_solver.
  - exists (stem q v x (Leaf (pre ++ q ++ x :: t1) w)). split; [done|]. split; [apply wf_stem; [by_bytes|by_bytes|by apply wf_leaf_below]|].
    intros s'' _. rewrite val_stem, val_leaf_at, decide_strip. destruct (strip q s'') as [[|b r]|]; [done|rewrite !val_leaf_below|done].
    repeat case_decide; naive_solver.
  - exists (branch q x (Leaf (pre ++ q ++ x :: t1) w) y (Leaf (pre ++ q ++ y :: s1) v)). split; [done|].
    split; [apply wf_branch; [by_bytes|by_bytes|done|by_bytes|by apply wf_leaf_below|by apply wf_leaf_below]|].
    intros s'' _. rewrite val_branch, val_leaf_at, decide_strip. destruct (strip q s'') as [[|b r]|]; [done|rewrite !val_leaf_below|done].
    repeat case_decide; naive_solver.
Qed.

(** What inserting [pre ++ s] into a node at [pre] comes to. *)
Definition insert_post pre n s v (res : art_result (Node V * option V)) : Prop :=
  (stops_inside n s /\ res = Panic) \/ (~ stops_inside n s /\ exists n', res = Ok (n', val n pre s) /\ inserted pre n s v n').

Lemma val_outside n pre s : is_leaf n = false -> strip (partial n) s = None -> val n pre s = None.
Proof. intros Hn E. by rewrite val_inner, E. Qed.

Lemma split_spec pre n s v : wf pre n -> is_leaf n = false -> byte_list (pre ++ s) -> strip (partial n) s = None ->
  insert_post pre n s v (split_node n (pre ++ s) (length pre) (common_len (partial n) s) v).
Proof.
  intros Hw Hn Hb Hs. pose proof (val_outside n pre s Hn Hs) as Hv. destruct (common_len_split (partial n) s) as (q & p' & s' & Hp & -> & Hc & Hd).
  unfold split_node. rewrite Hc. destruct p' as [|x p1]; [rewrite Hp, app_nil_r, strip_app in Hs; done|].
  rewrite Hp at 1. rewrite list_lookup_middle by done. cbn [or_panic rbind]. destruct s' as [|y s1].
  { left. rewrite app_nil_r in *. split; [by econstructor|]. by rewrite lookup_ge_None_2 by (rewrite length_app; lia). }
  right. split.
  { intros [(x' & p2 & E)|(b & c & r & E & _)]%stops_inside_inv; [rewrite Hp, <- app_assoc in E; naive_solver|]. by rewrite E, strip_app in Hs. }
  rewrite (app_assoc pre), <- length_app, list_lookup_middle by done. cbn [or_panic rbind]. rewrite <- app_assoc.
  assert (Hdrop : drop (S (length q)) (partial n) = p1) by (rewrite Hp; change (x :: p1) with ([x] ++ p1); rewrite app_assoc; apply drop_app_length'; rewrite length_app; cbn; lia).
  assert (Htake : take (length q) (partial n) = q) by (rewrite Hp; apply take_app_length). rewrite Hdrop, Htake, Hv.
  destruct (wf_lower pre q x p1 n Hw Hn Hp) as [Hlow Hlift]. destruct (wf_inner_inv _ _ Hw Hn) as (_ & Hbn & _). rewrite Hp in Hbn.
  exists (branch q x (update_partial n p1) y (Leaf (pre ++ q ++ y :: s1) v)). split; [done|].
  split; [apply wf_branch; [by_bytes|by_bytes|done|by_bytes|done|by apply wf_leaf_below]|]. intros s'' _.
  pose proof (val_lift pre q x (update_partial n p1) s'' Hlow) as Hvn. rewrite Hlift in Hvn. rewrite val_branch, decide_strip, Hvn. destruct (strip q s'') as [[|b r]|]; [done| |done].
  rewrite val_leaf_below. repeat case_decide; naive_solver.
Qed.

Lemma inserted_child pre n b s v o n' c' : wf pre n -> is_leaf n = false -> 0 <= b < 256 -> node_ok n' -> updates n n' b (Some c') -> same_top n n' ->
  find_child n b = o -> wf (pre ++ partial n ++ [b]) c' ->
  (forall r, byte_list r -> val c' (pre ++ partial n ++ [b]) r = if decide (r = s) then Some v else c ← o; val c (pre ++ partial n ++ [b]) r) ->
  inserted pre n (partial n ++ b :: s) v n'.
Proof.
  intros Hw Hn Hb Hok Hu (_ & Hn' & Hp & Hv) Ho Hc Hval. destruct (wf_inner_inv _ _ Hw Hn) as (_ & Hbn & Hch). split.
  - apply wf_inner; [done|done|by rewrite Hp|]. intros b' d Hb'. rewrite (Hu b' Hb'), Hp. case_decide; [naive_solver|by apply Hch].
  - intros s' Hs'. rewrite (val_inner n'), (val_inner n), Hp, Hv, decide_strip by done. destruct (strip (partial n) s') as [[|b' r]|] eqn:E; [done| |done].
    apply strip_Some in E. subst s'. apply byte_list_app in Hs' as [_ [Hb' Hr]%byte_list_cons]. rewrite (Hu b' Hb').
    destruct (decide (b' = b)) as [->|Hne]; [rewrite Hval, Ho by done|]; repeat case_decide; try naive_solver; by destruct o.
Qed.

Lemma set_value_inserted pre n v : wf pre n -> is_leaf n = false -> inserted pre n (partial n) v (set_node_value n v).
Proof.
  intros Hw Hn. assert (H : is_leaf (set_node_value n v) = false /\ partial (set_node_value n v) = partial n /\ inner_value (set_node_value n v) = Some v /\
    (node_ok n -> node_ok (set_node_value n v)) /\ forall b, find_child (set_node_value n v) b = find_child n b).
  { destruct n as [k w|h ks cs|h ks cs|h ix cs|h cs]; [done|destruct h; by split_and!..]. }
  destruct H as (H1 & H2 & H3 & H4 & H5). destruct (wf_inner_inv _ _ Hw Hn) as (Hok & Hbn & Hch). split.
  - apply wf_inner; [done|auto|by rewrite H2|]. intros b c Hb. rewrite H5, H2. by apply Hch.
  - intros s _. rewrite (val_inner (set_node_value n v)), (val_inner n), H2, H3 by done.
    pose proof (decide_strip (partial n) [] s (Some v) (val n pre s)) as Hd. rewrite app_nil_r, (val_inner n) in Hd by done. rewrite Hd.
    destruct (strip (partial n) s) as [[|b r]|]; [done| |done]. by rewrite H5.
Qed.

Lemma insert_spec fuel : forall n pre s v, wf pre n -> tidy n -> byte_list (pre ++ s) -> (length s < fuel)%nat ->
  insert_post pre n s v (insert_recursive fuel n (pre ++ s) (length pre) v).
Proof.
  induction fuel as [|fuel IH]; intros n pre s v Hw Ht Hb Hf; [lia|]. destruct (is_leaf n) eqn:Hn.
  - destruct n as [k w| | | |]; [|done..]. apply wf_leaf_inv in Hw as (t & -> & Hbt). right.
    split; [intros [(x & p & H)|(b & c & r & _ & H & _)]%stops_inside_inv; [by destruct s|done]|].
    cbn [insert_recursive partial header_of length]. rewrite (proj2 (Nat.ltb_ge _ 0)), Nat.add_0_r, val_leaf by lia. case_decide as E.
    + apply app_inv_head in E as ->. eexists. split; [done|]. split; [by constructor|]. intros s' _. rewrite !val_leaf. repeat case_decide; naive_solver.
    + apply create_spec; [done|done|by intros ->].
  - rewrite insert_step by done. destruct (strip (partial n) s) as [[|b r]|] eqn:E; [| |by apply split_spec].
    + apply strip_Some in E. rewrite app_nil_r in E. subst s. right.
      split; [intros [(x & p & H)|(b & c & r & H & _)]%stops_inside_inv; apply (f_equal length) in H; rewrite length_app in H; cbn in H; lia|].
      exists (set_node_value n v). rewrite val_inner, strip_self by done. split; [done|]. by apply set_value_inserted.
    + pose proof E as E'. apply strip_Some in E'. destruct (wf_inner_inv _ _ Hw Hn) as (Hok & Hbn & Hch). inversion Ht as [? Htn Htc]; subst.
      assert (Hbb : 0 <= b < 256) by by_bytes. assert (Hbr : byte_list ((pre ++ partial n ++ [b]) ++ r)) by (rewrite <- app_byte; done).
      unfold insert_post. rewrite val_inner, E by done. destruct (find_child n b) as [c|] eqn:Ec.
      * destruct (IH c (pre ++ partial n ++ [b]) r v (Hch b c Hbb Ec) (Htc b c Hbb Ec) Hbr) as [[Hst Hr]|(Hst & c' & Hr & Hwc & Hvc)];
          [rewrite length_app in Hf; cbn in Hf; lia|left|right]; rewrite Hr; cbn [rbind].
        { split; [|done]. by eapply stops_below. }
        split; [intros [(x & p & H)|(b' & d & r' & H & Hd & Hs)]%stops_inside_inv; [apply (f_equal length) in H; rewrite !length_app in H; cbn in H; lia|naive_solver]|].
        destruct (replace_child_spec n b c' c Hok Hbb Ec) as (Hok' & Hu & Htop & _). exists (replace_child n b c'). split; [done|].
        by eapply (inserted_child pre n b r v (Some c)).
      * right. split; [intros [(x & p & H)|(b' & d & r' & H & Hd & Hs)]%stops_inside_inv; [apply (f_equal length) in H; rewrite !length_app in H; cbn in H; lia|naive_solver]|].
        destruct (add_child_spec n b (new_leaf (pre ++ partial n ++ b :: r) v) Hok Htn Hn Hbb Ec) as (n' & -> & Hok' & Hu & Htop). cbn [rbind]. exists n'. split; [done|].
        eapply (inserted_child pre n b r v None); [done|done|done|done|exact Hu|done|done|by apply wf_leaf_below|]. intros r' _. apply val_leaf_below.
Qed.

(** ** Removal *)

Lemma remove_step fuel n pre s : is_leaf n = false ->
  remove_recursive (S fuel) n (pre ++ s) (length pre) =
    match strip (partial n) s with
    | None => Ok (Some n, None)
    | Some [] => match inner_value n with Some old => Ok (Some (map_header (set_value None) n), Some old) | None => Ok (Some n, None) end
    | Some (b :: r) =>
        match find_child n b with
        | Some c =>
            let! (new_child, w) := remove_recursive fuel c ((pre ++ partial n ++ [b]) ++ r) (length (pre ++ partial n ++ [b])) in
            match new_child with Some c' => Ok (Some (replace_child n b c'), w) | None => let! rest := remove_child n b in Ok (rest, w) end
        | None => Ok (Some n, None)
        end
    end.
Proof.
  intros Hn. cbn [remove_recursive]. rewrite check_prefix_strip. pose proof (common_len_strip (partial n) s) as Hc. destruct (strip (partial n) s) as [r|] eqn:E.
  - rewrite Hc, Nat.ltb_irrefl. apply strip_Some in E. destruct r as [|b r].
    + rewrite (proj2 (Nat.leb_le (length (pre ++ s)) _)) by (rewrite E, !length_app; cbn; lia). by destruct n.
    + rewrite (proj2 (Nat.leb_gt (length (pre ++ s)) _)) by (rewrite E, !length_app; cbn; lia).
      assert (Hl : (pre ++ s) !! (length pre + length (partial n))%nat = Some b) by (rewrite E, app_assoc, <- length_app; by apply list_lookup_middle).
      rewrite Hl. cbn [or_panic rbind]. replace (length (pre ++ partial n ++ [b])) with (S (length pre + length (partial n))) by (rewrite !length_app; cbn; lia).
      rewrite <- app_byte, <- E. by destruct n.
  - rewrite (proj2 (Nat.ltb_lt _ _)) by done. done.
Qed.

Definition wf_opt pre (r : option (Node V)) : Prop := match r with Some n => wf pre n | None => True end.
Definition val_opt (r : option (Node V)) pre s : option V := n ← r; val n pre s.

(** [r] holds what [n] holds but for [s]. *)
Definition removed pre n s (r : option (Node V)) : Prop :=
  wf_opt pre r /\ forall s', byte_list s' -> val_opt r pre s' = if decide (s' = s) then None else val n pre s'.

Lemma removed_same pre n s : wf pre n -> val n pre s = None -> removed pre n s (Some n).
Proof. intros Hw Hv. split; [done|]. intros s' _. cbn. case_decide; by subst. Qed.

Lemma clear_value_removed pre n : wf pre n -> is_leaf n = false -> removed pre n (partial n) (Some (map_header (set_value None) n)).
Proof.
  intros Hw Hn. set (n' := map_header (set_value None) n). assert (H : is_leaf n' = false /\ partial n' = partial n /\ inner_value n' = None /\
    (node_ok n -> node_ok n') /\ forall b, find_child n' b = find_child n b).
  { destruct n as [k w|h ks cs|h ks cs|h ix cs|h cs]; [done|destruct h; by split_and!..]. }
  destruct H as (H1 & H2 & H3 & H4 & H5). destruct (wf_inner_inv _ _ Hw Hn) as (Hok & Hbn & Hch). split.
  - apply wf_inner; [done|auto|by rewrite H2|]. intros b c Hb. rewrite H5, H2. by apply Hch.
  - intros s _. cbn [val_opt mbind option_bind]. rewrite (val_inner n'), H2, H3 by done.
    pose proof (decide_strip (partial n) [] s None (val n pre s)) as Hd. rewrite app_nil_r, (val_inner n) in Hd by done. rewrite (val_inner n), Hd by done.
    destruct (strip (partial n) s) as [[|b r]|]; [done| |done]. by rewrite H5.
Qed.

(** A child changed in place or taken away, before the node is cleaned up. *)
Lemma removed_child pre n b s c n' o : wf pre n -> is_leaf n = false -> 0 <= b < 256 -> node_ok n' -> updates n n' b o -> same_top n n' ->
  find_child n b = Some c -> removed (pre ++ partial n ++ [b]) c s o -> removed pre n (partial n ++ b :: s) (Some n').
Proof.
  intros Hw Hn Hb Hok Hu (_ & Hn' & Hp & Hv) Hc [Hwo Hval]. destruct (wf_inner_inv _ _ Hw Hn) as (_ & Hbn & Hch). split.
  - apply wf_inner; [done|done|by rewrite Hp|]. intros b' d Hb'. rewrite (Hu b' Hb'), Hp. case_decide; [|by apply Hch]. subst. by intros ->.
  - intros s' Hs'. cbn [val_opt mbind option_bind]. rewrite (val_inner n'), (val_inner n), Hp, Hv, decide_strip by done.
    destruct (strip (partial n) s') as [[|b' r]|] eqn:E; [done| |done]. apply strip_Some in E. subst s'. apply byte_list_app in Hs' as [_ [Hb' Hr]%byte_list_cons].
    rewrite (Hu b' Hb'). destruct (decide (b' = b)) as [->|Hne]; [|repeat case_decide; naive_solver].
    rewrite Hc. specialize (Hval r Hr). destruct o; cbn in Hval; rewrite Hval; repeat case_decide; naive_solver.
Qed.

(** Cleaning up keeps what the node holds. *)
Lemma leftover_removed pre n n1 r s : removed pre n s (Some n1) -> same_top n n1 -> leftover n n1 r -> removed pre n s r.
Proof.
  intros [Hw Hval] (_ & Hn1 & Hp & Hv) Hl. cbn [wf_opt val_opt mbind option_bind] in *. destruct (wf_inner_inv _ _ Hw Hn1) as (_ & Hbn & Hch). destruct r as [r|].
  - destruct Hl as [->|(kb & c & -> & Hiv & Hkb & Hf)]; [by split|]. change (update_partial c _) with (lift (partial n) kb c).
    assert (Hwc : wf (pre ++ partial n ++ [kb]) c) by (rewrite <- Hp; apply Hch; [done|]; by rewrite Hf, decide_True).
    split; [by apply wf_lift|]. intros s' Hs'. rewrite <- Hval by done. cbn [val_opt mbind option_bind]. rewrite val_lift, val_inner, Hp, Hv, Hiv by done.
    destruct (strip (partial n) s') as [[|b r]|] eqn:E; [done| |done]. apply strip_Some in E. subst s'. apply byte_list_app in Hs' as [_ [Hb Hr]%byte_list_cons].
    rewrite Hf by done. by case_decide; subst.
  - destruct Hl as [Hiv Hf]. split; [done|]. intros s' Hs'. rewrite <- Hval, val_inner, Hp, Hv, Hiv by done. cbn.
    destruct (strip (partial n) s') as [[|b r]|] eqn:E; [done| |done]. apply strip_Some in E. subst s'. apply byte_list_app in Hs' as [_ [Hb Hr]%byte_list_cons].
    by rewrite Hf.
Qed.

Lemma remove_spec fuel : forall n pre s, wf pre n -> byte_list (pre ++ s) -> (length s < fuel)%nat ->
  exists r, remove_recursive fuel n (pre ++ s) (length pre) = Ok (r, val n pre s) /\ removed pre n s r.
Proof.
  induction fuel as [|fuel IH]; intros n pre s Hw Hb Hf; [lia|]. destruct (is_leaf n) eqn:Hn.
  - destruct n as [k w| | | |]; [|done..]. cbn [remove_recursive partial header_of length]. rewrite (proj2 (Nat.ltb_ge _ 0)), val_leaf by lia. case_decide as E.
    + subst. eexists. split; [done|]. split; [done|]. intros s' _. rewrite val_leaf. cbn. repeat case_decide; naive_solver.
    + eexists. split; [done|]. apply removed_same; [done|]. rewrite val_leaf. by case_decide.
  - rewrite remove_step by done. rewrite (val_inner n) by done. destruct (strip (partial n) s) as [[|b r]|] eqn:E.
    + apply strip_Some in E. rewrite app_nil_r in E. subst s. pose proof (clear_value_removed pre n Hw Hn).
      destruct (inner_value n) eqn:Ev; eexists; split; [done|done|done|]. apply removed_same; [done|]. by rewrite val_inner, strip_self.
    + pose proof E as E'. apply strip_Some in E'. destruct (wf_inner_inv _ _ Hw Hn) as (Hok & Hbn & Hch). subst s.
      assert (Hbb : 0 <= b < 256) by by_bytes. assert (Hbr : byte_list ((pre ++ partial n ++ [b]) ++ r)) by (rewrite <- app_byte; done).
      destruct (find_child n b) as [c|] eqn:Ec; [|eexists; split; [done|]; apply removed_same; [done|]; by rewrite val_inner, E, Ec by done].
      destruct (IH c (pre ++ partial n ++ [b]) r (Hch b c Hbb Ec) Hbr) as (r' & -> & Hrem); [rewrite length_app in Hf; cbn in Hf; lia|]. cbn [rbind].
      destruct r' as [c'|].
      * destruct (replace_child_spec n b c' c Hok Hbb Ec) as (Hok' & Hu & Htop & _). eexists. split; [done|]. by eapply removed_child.
      * destruct (remove_child_spec n b c Hok Hbb Ec) as (n1 & r' & -> & Hok1 & Hu & Htop & Hleft). cbn [rbind]. eexists. split; [done|].
        eapply leftover_removed; [|done|done]. by eapply removed_child.
    + eexists. split; [done|]. apply removed_same; [done|]. by apply val_outside.
Qed.
End map.
