(* ===== verification/ArtMap.v ===== *)
(** * Insertion and removal of the radix tree

    The operations of [AdaptiveRadixTree] (nanograph-art/src/tree.rs) on whole
    trees, as updates of the map a well-formed tree stands for, and what they do
    on trees whose nodes are not tidy. *)

From Stdlib Require Import ZArith Lia.
From stdpp Require Import option strings base list.
From S2P Require Import Prelude BTreeError Art ArtNode ArtChildren ArtSpec.

Open Scope Z_scope.
Import AdaptiveRadixTree.

Section tree.
Context {V : Type}.
Implicit Types (tr : t V) (key : list Z) (v : V).

Definition tree_wf tr : Prop := match root tr with Some n => wf [] n | None => True end.
Definition tree_tidy tr : Prop := match root tr with Some n => tidy n | None => True end.
Definition tree_stops tr key : Prop := match root tr with Some n => stops_inside n key | None => False end.

Lemma get_val tr key : get tr key = Ok (match key with [] => None | _ => val_opt (root tr) [] key end).
Proof. unfold get. destruct key as [|b key]; [done|]. destruct (root tr) as [n|]; [|done]. apply (get_total _ n []). lia. Qed.

(** C17. On a well-formed tree whose full [Node4]s are in order and whose
    [Node48]s have no holes, inserting a key returns the value it had, keeps the
    tree well formed, counts a new key once and changes the answer of [get] for
    that key alone; when the key ends inside the compressed path of a node it
    panics instead, and the tree is left without its root. *)
Theorem art_insert_get tr key v : tree_wf tr -> tree_tidy tr -> byte_list key -> key <> [] ->
  let '(res, tr') := insert tr key v in
  (tree_stops tr key /\ res = Panic /\ root tr' = None) \/
  (~ tree_stops tr key /\ exists old, get tr key = Ok old /\ res = Ok old /\ tree_wf tr' /\
     size tr' = size tr + (match old with None => 1 | Some _ => 0 end) /\
     forall k, byte_list k -> get tr' k = if decide (k = key) then Ok (Some v) else get tr k).
Proof.
  intros Hw Ht Hb Hne. unfold insert, tree_wf, tree_tidy, tree_stops in *. destruct key as [|b key]; [done|]. set (key' := b :: key) in *. rewrite get_val. unfold val_opt.
  destruct (root tr) as [n|] eqn:Er.
  - destruct (insert_spec (S (length key')) n [] key' v Hw Ht Hb ltac:(lia)) as [[Hs Hr]|(Hs & n' & Hr & Hw' & Hval)];
      cbn [app length] in Hr; rewrite Hr; [by left|right]. split; [done|]. eexists. split_and!; [done|done|done|cbn; destruct (val n [] key'); lia|].
    intros k Hk. rewrite !get_val, Er. cbn [root val_opt mbind option_bind]. destruct k as [|b' k]; [done|]. rewrite Hval by done. by case_decide.
  - right. split; [tauto|]. eexists. split_and!; [done|done| |done|].
    + apply (wf_leaf [] key'). done.
    + intros k _. rewrite !get_val, Er. cbn [root val_opt mbind option_bind]. destruct k as [|b' k]; [done|]. unfold new_leaf. rewrite val_leaf. repeat case_decide; naive_solver.
Qed.

(** C18. On every well-formed tree removing a key returns the value it had,
    keeps the tree well formed whatever nodes shrink, disappear or are merged
    with their only child, counts a removed key once and changes the answer of
    [get] for that key alone. *)
Theorem art_remove_get tr key : tree_wf tr -> byte_list key -> key <> [] ->
  exists old tr', get tr key = Ok old /\ remove tr key = (Ok old, tr') /\ tree_wf tr' /\
    size tr' = size tr - (match old with Some _ => 1 | None => 0 end) /\
    forall k, byte_list k -> get tr' k = if decide (k = key) then Ok None else get tr k.
Proof.
  intros Hw Hb Hne. unfold remove, tree_wf in *. destruct key as [|b key]; [done|]. set (key' := b :: key) in *. rewrite get_val. unfold val_opt.
  destruct (root tr) as [n|] eqn:Er.
  - destruct (remove_spec (S (length key')) n [] key' Hw Hb ltac:(lia)) as (r & Hr & Hw' & Hval). cbn [app length] in Hr. rewrite Hr.
    do 2 eexists. split_and!; [done|done|done|unfold key'; cbn [mbind option_bind size]; destruct (val n [] (b :: key)); lia|]. intros k Hk. rewrite !get_val, Er. cbn [root].
    destruct k as [|b' k]; [done|]. rewrite Hval by done. by case_decide.
  - do 2 eexists. split_and!; [done|done|by rewrite Er|cbn; lia|]. intros k _. rewrite get_val, Er. cbn. destruct k; by case_decide.
Qed.
End tree.

(** ** Concrete trees *)

Module ArtDemo.

Definition small : t Z := mk (Some (branch [1; 2] 3 (Leaf [1; 2; 3] 30) 4 (Leaf [1; 2; 4] 40))) 2.

Lemma small_wf : tree_wf small.
Proof. apply wf_branch; [lia|lia|lia|by repeat constructor|apply (wf_leaf [1; 2; 3] [])|apply (wf_leaf [1; 2; 4] [])]; by repeat constructor. Qed.

Lemma small_tidy : tree_tidy small.
Proof.
  constructor; [done|]. intros b c _. rewrite branch_find. intros H. constructor; [by repeat case_decide; simplify_eq|]. by intros; repeat case_decide; simplify_eq.
Qed.

Lemma art_insert_get_witness :
  (let '(res, tr) := insert small [1; 2; 5; 6] 50 in res = Ok None /\ forall k, byte_list k -> get tr k = if decide (k = [1; 2; 5; 6]) then Ok (Some 50) else get small k) /\
  insert small [1] 10 = (Panic, mk None 2).
Proof.
  split.
  - pose proof (art_insert_get small [1; 2; 5; 6] 50 small_wf small_tidy ltac:(by repeat constructor) ltac:(done)) as H.
    destruct (insert small [1; 2; 5; 6] 50) as [res tr] eqn:E. vm_compute in E. injection E as <- Htr.
    destruct H as [(_ & H & _)|(_ & old & Hold & Hres & _ & _ & Hget)]; [discriminate H|]. injection Hres as <-. split; [reflexivity|exact Hget].
  - pose proof (art_insert_get small [1] 10 small_wf small_tidy ltac:(by repeat constructor) ltac:(done)) as H. reflexivity.
Defined.

Lemma art_remove_get_witness : exists tr, remove small [1; 2; 3] = (Ok (Some 30), tr) /\ tree_wf tr /\
  forall k, byte_list k -> get tr k = if decide (k = [1; 2; 3]) then Ok None else get small k.
Proof.
  destruct (art_remove_get small [1; 2; 3] small_wf ltac:(by repeat constructor) ltac:(done)) as (old & tr & Hg & Hr & Hw & _ & Hget).
  exists tr. vm_compute in Hg. injection Hg as <-. split; [exact Hr|]. split; [exact Hw|exact Hget].
Defined.

(** Keys inserted in turn, each as its own value. *)
Definition build (keys : list (list Z)) : t (list Z) := foldl (fun tr k => (insert tr k k).2) new keys.

(** Two keys that part in descending order leave a [Node4] out of order; once it
    grows into a [Node16], the binary search no longer finds its first key. *)
Lemma unsorted_node_loses_key :
  get (build [[98]; [97]; [99]; [100]]) [98] = Ok (Some [98]) /\ get (build [[98]; [97]; [99]; [100]; [101]]) [98] = Ok None.
Proof. by vm_compute. Qed.

(** A child added to a [Node48] after a removal takes the slot of another child. *)
Lemma node48_slot_reused :
  let tr := (remove (build ((fun i : nat => [Z.of_nat i]) <$> seq 0 20)) [0]).2 in
  get tr [19] = Ok (Some [19]) /\ get (insert tr [77] [77]).2 [19] = Ok None.
Proof. by vm_compute. Qed.

(** A key that is a prefix of another is stored, but iteration passes over it. *)
Lemma iteration_skips_prefix :
  let tr := build [[1]; [1; 2]] in get tr [1] = Ok (Some [1]) /\ ArtIterator.collect 10 10 (ArtIterator.new 10 (root tr)) = [([1; 2], [1; 2])].
Proof. by vm_compute. Qed.

(** A range iterator with a start key drops the first key of its range. *)
Lemma range_drops_first :
  let tr := build [[1]; [2]; [3]] in (ArtIterator.range_next 10 (ArtIterator.new_range 10 (root tr) (Some [2]) None false)).1 = Some ([3], [3]).
Proof. by vm_compute. Qed.
End ArtDemo.
