(* ===== verification/TreeStore.v ===== *)
(** * Stores that log and then write to a tree

    What nanograph-btree/src/kvstore.rs and nanograph-art/src/kvstore.rs have in
    common, statement for statement: the log records of their wal_record.rs, a
    shard as a tree with an optional write-ahead log, writes that go to the log
    and then to the tree, and recovery, which reads the log into a tree.  The
    tree is behind an interface; metrics are left out.  A formatted message is
    its literal part and the message of the error it shows, except for errors of
    the log, which are left out. *)

From Stdlib Require Import ZArith Lia.
From stdpp Require Import gmap option strings base list.
From S2P Require Import Prelude BTreeError VfsFile Integrity Wal LsmRecord.

Open Scope Z_scope.

(** ** Log records *)

Module TreeRecord.

Inductive WalRecordKind : Type := Put | Delete | Checkpoint | Clear.

Definition from_u16 (value : Z) : option WalRecordKind :=
  match value with
  | 1 => Some Put
  | 2 => Some Delete
  | 3 => Some Checkpoint
  | 4 => Some Clear
  | _ => None
  end.

Definition to_u16 (k : WalRecordKind) : Z := match k with Put => 1 | Delete => 2 | Checkpoint => 3 | Clear => 4 end.

Definition encode_put (key value : list Z) : list Z := put_bytes key ++ put_bytes value.
Definition encode_delete (key : list Z) : list Z := put_bytes key.
Definition encode_checkpoint : list Z := [].
Definition encode_clear : list Z := [].

Section decode.
(** [Internal] of the crate's error type. *)
Context {TE : Type} (Internal : string -> TE).

(** [u32::from_le_bytes([p[o], .., p[o + 3]])] and a slice: out of range they panic. *)
Definition field_at (o : Z) (payload : list Z) : result TE Z := let! b := or_panic (zslice o (o + 4) payload) in Ok (le_value b).
Definition slice_at (i j : Z) (payload : list Z) : result TE (list Z) := or_panic (zslice i j payload).

Definition decode_put (payload : list Z) : result TE (list Z * list Z) :=
  if plen payload <? 8 then Err (Internal "WAL Put record too short")
  else
    let! key_len := field_at 0 payload in
    if plen payload <? 4 + key_len then Err (Internal "WAL Put record key length exceeds payload")
    else
      let! key := slice_at 4 (4 + key_len) payload in
      let offset := 4 + key_len in
      if plen payload <? offset + 4 then Err (Internal "WAL Put record missing value length")
      else
        let! value_len := field_at offset payload in
        let offset := offset + 4 in
        if plen payload <? offset + value_len then Err (Internal "WAL Put record value length exceeds payload")
        else let! value := slice_at offset (offset + value_len) payload in Ok (key, value).

Definition decode_delete (payload : list Z) : result TE (list Z) :=
  if plen payload <? 4 then Err (Internal "WAL Delete record too short")
  else
    let! key_len := field_at 0 payload in
    if plen payload <? 4 + key_len then Err (Internal "WAL Delete record key length exceeds payload")
    else slice_at 4 (4 + key_len) payload.

Definition decode_checkpoint (payload : list Z) : result TE unit := Ok tt.
Definition decode_clear (payload : list Z) : result TE unit := Ok tt.
End decode.
End TreeRecord.

(** ** Trees *)

(** What a store needs of its tree: errors, their text and what becomes of them
    in an operation of the store. *)
Class Tree (T TE : Type) : Type := {
  tree_get : T -> list Z -> result TE (option (list Z));
  tree_insert : T -> list Z -> list Z -> result TE unit * T;
  tree_remove : T -> list Z -> result TE bool * T;
  tree_clear : T -> result TE unit * T;
  tree_display : TE -> string;
  tree_internal : string -> TE;
  tree_kv_error : TE -> KeyValueError }.

(** ** Shards *)

Module LoggedStore.
Import TreeRecord.

Section store.
Context `{!Integrity.Hashes} {T TE : Type} `{!Tree T TE}.
Context {FS F : Type} `{!File F} `{!WriteAheadLogManager.FileSystemOps FS F}.
Abbreviation manager := (WriteAheadLogManager.t FS F).

(** [tree_ref] tells the trees apart that a shard has had, as the address of an
    [Arc] does.  The writer appends to the manager's active segment. *)
Record ShardData : Type := Shard { tree_ref : Z; tree : T; wal : option manager; flushed_lsn : option LogSequenceNumber }.

Abbreviation shards := (gmap Z ShardData).

Definition with_tree (d : ShardData) (x : T) : ShardData := Shard (tree_ref d) x (wal d) (flushed_lsn d).
Definition with_wal (d : ShardData) (m : manager) : ShardData := Shard (tree_ref d) (tree d) (Some m) (flushed_lsn d).

Definition map_err {E E' A} (f : E -> E') (r : result E A) : result E' A :=
  match r with Ok a => Ok a | Err e => Err (f e) | Panic => Panic | Timeout => Timeout end.

Definition corruption (prefix : string) (e : TE) : KeyValueError := KvStorageCorruption (prefix +:+ tree_display e).
Definition wal_corruption (message : string) (_ : WriteAheadLogError) : KeyValueError := KvStorageCorruption message.

Definition get_shard (sh : shards) (s : Z) : kv_result ShardData := ok_or (sh !! s) KvShardNotFound.
Definition get_tree (sh : shards) (s : Z) : kv_result T := let! d := get_shard sh s in Ok (tree d).

(** [writer.append(record, d)] on the shard's log. *)
Definition append_to (m : manager) (k : WalRecordKind) (payload : list Z) (d : Durability) : wal_result unit * manager :=
  let '(r, w) := WriteAheadLogWriter.append (WriteAheadLogManager.active_segment m) (Record_ (to_u16 k) payload) d in
  (let! _ := r in Ok tt,
   WriteAheadLogManager.mk (WriteAheadLogManager.file_system m) (WriteAheadLogManager.root_folder m) (WriteAheadLogManager.shard_id m) w (WriteAheadLogManager.archived_segments m)).

(** The log of a shard that exists, when it has one. *)
Definition log_shard (sh : shards) (s : Z) (x : ShardData) (k : WalRecordKind) (payload : list Z) (d : Durability) (message : string) : kv_result unit * shards :=
  match wal x with
  | None => (Ok tt, sh)
  | Some m => let '(r, m) := append_to m k payload d in (map_err (wal_corruption message) r, <[s := with_wal x m]> sh)
  end.

Definition wal_write (enabled : bool) (d : Durability) (k : WalRecordKind) (payload : list Z) (sh : shards) (s : Z) : kv_result unit * shards :=
  if enabled then
    match get_shard sh s with
    | Ok x => log_shard sh s x k payload d "WAL write failed: "
    | Err e => (Err e, sh)
    | Panic => (Panic, sh)
    | Timeout => (Timeout, sh)
    end
  else (Ok tt, sh).

Definition wal_write_put (enabled : bool) (d : Durability) (sh : shards) (s : Z) (key value : list Z) : kv_result unit * shards := wal_write enabled d Put (encode_put key value) sh s.
Definition wal_write_delete (enabled : bool) (d : Durability) (sh : shards) (s : Z) (key : list Z) : kv_result unit * shards := wal_write enabled d Delete (encode_delete key) sh s.

(** Go on after success, with the shards as they are by then. *)
Definition after {A B} (r : kv_result A * shards) (k : A -> shards -> kv_result B * shards) : kv_result B * shards :=
  match r with
  | (Ok a, sh) => k a sh
  | (Err e, sh) => (Err e, sh)
  | (Panic, sh) => (Panic, sh)
  | (Timeout, sh) => (Timeout, sh)
  end.

(** A change of the shard's tree. *)
Definition on_tree {A} (sh : shards) (s : Z) (f : T -> kv_result A * T) : kv_result A * shards :=
  match get_shard sh s with
  | Ok x => let '(r, t) := f (tree x) in (r, <[s := with_tree x t]> sh)
  | Err e => (Err e, sh)
  | Panic => (Panic, sh)
  | Timeout => (Timeout, sh)
  end.

Definition get (sh : shards) (s : Z) (key : list Z) : kv_result (option (list Z)) := let! t := get_tree sh s in map_err tree_kv_error (tree_get t key).
Definition exists_ (sh : shards) (s : Z) (key : list Z) : kv_result bool := let! v := get sh s key in Ok (if v then true else false).

Fixpoint get_all (t : T) (keys : list (list Z)) : kv_result (list (option (list Z))) :=
  match keys with
  | [] => Ok []
  | k :: keys => let! v := map_err tree_kv_error (tree_get t k) in let! vs := get_all t keys in Ok (v :: vs)
  end.
Definition batch_get (sh : shards) (s : Z) (keys : list (list Z)) : kv_result (list (option (list Z))) := let! t := get_tree sh s in get_all t keys.

(** The lookup that tells an update from an insertion, and the insertion. *)
Definition insert_one (key value : list Z) (t : T) : kv_result unit * T :=
  match map_err tree_kv_error (tree_get t key) with
  | Ok _ => let '(r, t) := tree_insert t key value in (map_err tree_kv_error r, t)
  | Err e => (Err e, t)
  | Panic => (Panic, t)
  | Timeout => (Timeout, t)
  end.

Definition remove_one (key : list Z) (t : T) : kv_result bool * T := let '(r, t) := tree_remove t key in (map_err tree_kv_error r, t).

Definition put (enabled : bool) (d : Durability) (sh : shards) (s : Z) (key value : list Z) : kv_result unit * shards :=
  after (wal_write_put enabled d sh s key value) (fun _ sh => on_tree sh s (insert_one key value)).

Definition delete (enabled : bool) (d : Durability) (sh : shards) (s : Z) (key : list Z) : kv_result bool * shards :=
  after (wal_write_delete enabled d sh s key) (fun _ sh => on_tree sh s (remove_one key)).

Fixpoint insert_all (pairs : list (list Z * list Z)) (t : T) : kv_result unit * T :=
  match pairs with
  | [] => (Ok tt, t)
  | kv :: pairs => match insert_one kv.1 kv.2 t with (Ok _, t) => insert_all pairs t | (r, t) => (r, t) end
  end.

Fixpoint remove_all (keys : list (list Z)) (count : Z) (t : T) : kv_result Z * T :=
  match keys with
  | [] => (Ok count, t)
  | k :: keys =>
      match remove_one k t with
      | (Ok b, t) => remove_all keys (if b then count + 1 else count) t
      | (Err e, t) => (Err e, t)
      | (Panic, t) => (Panic, t)
      | (Timeout, t) => (Timeout, t)
      end
  end.

Fixpoint write_all {A} (w : shards -> A -> kv_result unit * shards) (l : list A) (sh : shards) : kv_result unit * shards :=
  match l with
  | [] => (Ok tt, sh)
  | a :: l => after (w sh a) (fun _ sh => write_all w l sh)
  end.

Definition batch_put (enabled : bool) (d : Durability) (sh : shards) (s : Z) (pairs : list (list Z * list Z)) : kv_result unit * shards :=
  after (write_all (fun sh kv => wal_write_put enabled d sh s kv.1 kv.2) pairs sh) (fun _ sh => on_tree sh s (insert_all pairs)).

Definition batch_delete (enabled : bool) (d : Durability) (sh : shards) (s : Z) (keys : list (list Z)) : kv_result Z * shards :=
  after (write_all (fun sh k => wal_write_delete enabled d sh s k) keys sh) (fun _ sh => on_tree sh s (remove_all keys 0)).

Definition checkpoint_shard (enabled : bool) (sh : shards) (s : Z) : kv_result unit * shards :=
  match get_shard sh s with
  | Ok x => if enabled then log_shard sh s x Checkpoint encode_checkpoint Sync "Checkpoint write failed: " else (Ok tt, sh)
  | Err e => (Err e, sh)
  | Panic => (Panic, sh)
  | Timeout => (Timeout, sh)
  end.

(** [ids]: the keys in the order the map is visited. *)
Definition checkpoint_all (enabled : bool) (ids : list Z) (sh : shards) : kv_result unit * shards := write_all (checkpoint_shard enabled) ids sh.

(** ** Recovery *)

(** One record, applied to the tree.  The result of a removal is ignored. *)
Definition replay_record (kind : Z) (payload : list Z) (t : T) : kv_result unit * T :=
  match from_u16 kind with
  | Some Put =>
      match map_err (corruption "Failed to decode put: ") (decode_put tree_internal payload) with
      | Ok kv => let '(r, t) := tree_insert t kv.1 kv.2 in (map_err (corruption "") r, t)
      | Err e => (Err e, t)
      | Panic => (Panic, t)
      | Timeout => (Timeout, t)
      end
  | Some Delete =>
      match map_err (corruption "Failed to decode delete: ") (decode_delete tree_internal payload) with
      | Ok key =>
          match tree_remove t key with
          | (Ok _, t) | (Err _, t) => (Ok tt, t)
          | (Panic, t) => (Panic, t)
          | (Timeout, t) => (Timeout, t)
          end
      | Err e => (Err e, t)
      | Panic => (Panic, t)
      | Timeout => (Timeout, t)
      end
  | Some Clear => let '(r, t) := tree_clear t in (map_err (corruption "Failed to clear: ") r, t)
  | Some Checkpoint | None => (Ok tt, t)
  end.

Fixpoint recover_loop (fuel : nat) (file : F) (r : WriteAheadLogReader.t) (t : T) : kv_result unit * T :=
  match fuel with
  | O => (Timeout, t)
  | S fuel =>
      match WriteAheadLogReader.next file r with
      | (Ok (Some entry), r) =>
          match replay_record (entry_kind entry) (entry_payload entry) t with
          | (Ok _, t) => recover_loop fuel file r t
          | (x, t) => (x, t)
          end
      | (Ok None, _) => (Ok tt, t)
      | (Err _, _) => (Err (KvStorageCorruption "WAL read error: "), t)
      | (Panic, _) => (Panic, t)
      | (Timeout, _) => (Timeout, t)
      end
  end.

(** One step for every record, of at least 14 bytes, and one for the end. *)
Definition recovery_fuel (file : F) : nat := match get_size file with Ok n => S (Z.to_nat n) | _ => 1 end.

Definition recover_log (m : manager) (t : T) : kv_result unit * T :=
  match map_err (wal_corruption "Failed to create WAL reader: ") (WriteAheadLogManager.reader_from m LSN_ZERO) with
  | Ok rd => recover_loop (recovery_fuel rd.2) rd.2 rd.1 t
  | Err e => (Err e, t)
  | Panic => (Panic, t)
  | Timeout => (Timeout, t)
  end.

(** The log is that of the shard in the table; the tree is an argument. *)
Definition recover_from_wal (enabled : bool) (sh : shards) (s : Z) (t : T) : kv_result unit * T :=
  if enabled then
    match get_shard sh s with
    | Ok x => match wal x with Some m => recover_log m t | None => (Ok tt, t) end
    | Err e => (Err e, t)
    | Panic => (Panic, t)
    | Timeout => (Timeout, t)
    end
  else (Ok tt, t).

(** [WriteAheadLogConfig::new]. *)
Definition wal_config (s : Z) : WriteAheadLogManager.WriteAheadLogConfig := WriteAheadLogManager.Config s Crc32c NoCompression NoEncryption.

(** The log of a new shard, in a file system and directory of its own choice. *)
Definition open_wal (segment_path : string -> Z -> string) (enabled : bool) (message : string) (fs : FS) (now : Z) (dir : string) (s : Z) : kv_result (option manager) :=
  if enabled then let! m := map_err (wal_corruption message) (WriteAheadLogManager.new segment_path fs now dir (wal_config s)) in Ok (Some m) else Ok None.
End store.
Arguments ShardData : clear implicits.
End LoggedStore.
