(* ===== verification/TreeStoreSpec.v ===== *)
(** * What the logged stores keep

    For every tree behind the interface: recovery applies to a tree exactly the
    operations that were logged, in their order, so after any sequence of
    successful operations a restart gives the very tree the store had; and an
    operation that fails after it was logged makes every later recovery fail. *)

From Stdlib Require Import ZArith Lia.
From stdpp Require Import gmap option strings base list.
From S2P Require Import Prelude BTreeError VfsFile Integrity Wal WalSpec LsmRecord TreeStore.

Open Scope Z_scope.
Import TreeRecord.
Import LoggedStore.

(** ** What a record says *)

Inductive TreeOp : Type := TPut (key value : list Z) | TDelete (key : list Z) | TClear | TCheckpoint.

Definition tree_kind (o : TreeOp) : WalRecordKind := match o with TPut _ _ => Put | TDelete _ => Delete | TClear => Clear | TCheckpoint => Checkpoint end.
Definition tree_payload (o : TreeOp) : list Z :=
  match o with TPut k v => TreeRecord.encode_put k v | TDelete k => TreeRecord.encode_delete k | TClear => encode_clear | TCheckpoint => TreeRecord.encode_checkpoint end.
Definition tree_record (o : TreeOp) : WriteAheadLogRecord := Record_ (to_u16 (tree_kind o)) (tree_payload o).

(** The operations of a store on one shard. *)
Inductive StoreOp : Type :=
| SPut (key value : list Z)
| SDelete (key : list Z)
| SBatchPut (pairs : list (list Z * list Z))
| SBatchDelete (keys : list (list Z))
| SClear
| SCheckpoint.

(** The records an operation logs. *)
Definition records (o : StoreOp) : list TreeOp :=
  match o with
  | SPut k v => [TPut k v]
  | SDelete k => [TDelete k]
  | SBatchPut ps => (fun kv => TPut kv.1 kv.2) <$> ps
  | SBatchDelete ks => TDelete <$> ks
  | SClear => [TClear]
  | SCheckpoint => [TCheckpoint]
  end.

(** The record fits the format of the log. *)
Definition tree_op_ok (o : TreeOp) : Prop := plen (tree_payload o) < 2 ^ 32.

#[global] Instance tree_op_ok_dec o : Decision (tree_op_ok o).
Proof. unfold tree_op_ok. apply _. Defined.

Lemma tree_kind_tag o : from_u16 (to_u16 (tree_kind o)) = Some (tree_kind o).
Proof. by destruct o. Qed.

Lemma plen_put_bytes x : plen (put_bytes x) = 4 + plen x.
Proof. unfold put_bytes. rewrite plen_app, plen_le_bytes. lia. Qed.

Section decode.
Context {TE : Type} (I : string -> TE).

Lemma field_at_u32 o p x : u32_at o p = Ok x -> field_at (TE := TE) o p = Ok x.
Proof. unfold u32_at, field_at. destruct (zslice o (o + 4) p) as [b|]; [by intros [= <-]|done]. Qed.

Lemma slice_at_bytes i j p x : bytes_at i j p = Ok x -> slice_at (TE := TE) i j p = Ok x.
Proof. unfold bytes_at, slice_at. destruct (zslice i j p) as [b|]; [by intros [= <-]|done]. Qed.

Lemma tree_decode_put p kv : LsmRecord.decode_put p = Ok kv -> TreeRecord.decode_put I p = Ok kv.
Proof.
  unfold LsmRecord.decode_put, TreeRecord.decode_put. destruct (plen p <? 8); [done|]. intros (kl & ->%field_at_u32 & H)%rbind_ok. cbn [rbind]. destruct (plen p <? 4 + kl); [done|].
  apply rbind_ok in H as (k & ->%slice_at_bytes & H). cbn [rbind]. destruct (plen p <? 4 + kl + 4); [done|].
  apply rbind_ok in H as (vl & ->%field_at_u32 & H). cbn [rbind]. destruct (plen p <? 4 + kl + 4 + vl); [done|]. by apply rbind_ok in H as (v & ->%slice_at_bytes & [= <-]).
Qed.

Lemma tree_decode_delete p k : LsmRecord.decode_delete p = Ok k -> TreeRecord.decode_delete I p = Ok k.
Proof.
  unfold LsmRecord.decode_delete, TreeRecord.decode_delete. destruct (plen p <? 4); [done|]. intros (kl & ->%field_at_u32 & H)%rbind_ok. cbn [rbind]. destruct (plen p <? 4 + kl); [done|].
  by apply slice_at_bytes.
Qed.

Lemma decode_put_back k v : tree_op_ok (TPut k v) -> TreeRecord.decode_put I (TreeRecord.encode_put k v) = Ok (k, v).
Proof.
  unfold tree_op_ok. cbn [tree_payload]. unfold TreeRecord.encode_put. rewrite plen_app, !plen_put_bytes. pose proof (plen_nonneg k). pose proof (plen_nonneg v). intros Hl. apply tree_decode_put.
  pose proof (decode_put_encode k v []) as H1. rewrite app_nil_r in H1. apply H1; unfold len_ok; lia.
Qed.

Lemma decode_delete_back k : tree_op_ok (TDelete k) -> TreeRecord.decode_delete I (TreeRecord.encode_delete k) = Ok k.
Proof.
  unfold tree_op_ok. cbn [tree_payload]. unfold TreeRecord.encode_delete. rewrite plen_put_bytes. intros Hl. apply tree_decode_delete.
  pose proof (decode_delete_encode k []) as H1. rewrite app_nil_r in H1. apply H1. unfold len_ok. lia.
Qed.
End decode.

(** ** Recovery is replay *)

Section store.
Context `{!Integrity.Hashes} `{!Integrity.HashLaws} {T TE : Type} `{!Tree T TE}.
Context {FS F : Type} `{!File F} `{!FileLaws F} `{!WriteAheadLogManager.FileSystemOps FS F}.
Abbreviation manager := (WriteAheadLogManager.t FS F).
Abbreviation shard := (ShardData T FS F).
Implicit Types (x : T) (m : manager) (ops : list TreeOp) (d : shard).

(** What recovery does with an operation, and with all of them until one fails. *)
Definition replay_op (o : TreeOp) x : kv_result unit * T :=
  match o with
  | TPut k v => let '(r, x) := tree_insert x k v in (map_err (corruption "") r, x)
  | TDelete k => match tree_remove x k with (Ok _, x) | (Err _, x) => (Ok tt, x) | (Panic, x) => (Panic, x) | (Timeout, x) => (Timeout, x) end
  | TClear => let '(r, x) := tree_clear x in (map_err (corruption "Failed to clear: ") r, x)
  | TCheckpoint => (Ok tt, x)
  end.

Fixpoint replay ops x : kv_result unit * T :=
  match ops with
  | [] => (Ok tt, x)
  | o :: ops => match replay_op o x with (Ok _, x) => replay ops x | (r, x) => (r, x) end
  end.

Lemma replay_record_op o x : tree_op_ok o -> replay_record (to_u16 (tree_kind o)) (tree_payload o) x = replay_op o x.
Proof.
  intros Ho. unfold replay_record. rewrite tree_kind_tag. destruct o as [k v|k| |]; cbn [tree_kind tree_payload replay_op]; try done.
  - by rewrite decode_put_back.
  - by rewrite decode_delete_back.
Qed.

Lemma replay_app ops1 ops2 x : replay (ops1 ++ ops2) x = match replay ops1 x with (Ok _, x) => replay ops2 x | (r, x) => (r, x) end.
Proof. revert x. induction ops1 as [|o ops1 IH]; intros x; [done|]. cbn [app replay]. destruct (replay_op o x) as [[[]| | |] x']; [apply IH|done..]. Qed.

Lemma replay_one o x x' : replay_op o x = (Ok tt, x') -> replay [o] x = (Ok tt, x').
Proof. intros Ho. cbn [replay]. by rewrite Ho. Qed.

(** The log of the manager is one segment with the records of [ops]. *)
Definition log_of m ops : Prop :=
  WriteAheadLogManager.archived_segments m = [] /\ Forall tree_op_ok ops /\
  exists header h, LogSpec.holds (WriteAheadLogManager.active_segment m) header (tree_record <$> ops) /\
    length header = HEADER_SIZE /\ HeaderSpec.header_ok h /\ WriteAheadLogSegmentHeader.encode h (replicate HEADER_SIZE 0) = Some header /\
    WriteAheadLogFile.shard_id (WriteAheadLogManager.active_segment m) = WriteAheadLogSegmentHeader.shard_id h /\
    WriteAheadLogFile.segment_id (WriteAheadLogManager.active_segment m) = 0 /\ WriteAheadLogSegmentHeader.segment_id h = 0 /\
    WriteAheadLogFile.start_offset (WriteAheadLogManager.active_segment m) = WriteAheadLogSegmentHeader.start_offset h /\
    WriteAheadLogFile.integrity (WriteAheadLogManager.active_segment m) = WriteAheadLogSegmentHeader.integrity h.

Definition log_end m : Z := WriteAheadLogFile.write_offset (WriteAheadLogManager.active_segment m).
Definition record_size (o : TreeOp) : Z := plen (tree_payload o) + 14.

Lemma tree_record_ok o : tree_op_ok o -> LogSpec.record_ok (tree_record o).
Proof. intros Ho. split; [destruct o; cbn; lia|exact Ho]. Qed.

Lemma recover_loop_replay f alg ops : forall pre fuel x, bytes_of f = pre ++ LogSpec.log_bytes alg (tree_record <$> ops) -> Forall tree_op_ok ops ->
  Z.of_nat (length (bytes_of f)) < 2 ^ 64 -> (length ops < fuel)%nat -> recover_loop fuel f (WriteAheadLogReader.mk 0 (Z.of_nat (length pre)) alg) x = replay ops x.
Proof using All.
  induction ops as [|o ops IH]; intros pre [|fuel] x Hf Hops Hmax Hfuel; try (cbn in Hfuel; lia).
  - cbn [recover_loop]. by rewrite LogSpec.next_end by (cbn; by rewrite Hf, app_nil_r).
  - apply Forall_cons in Hops as [Ho Hops]. cbn [recover_loop replay]. rewrite fmap_cons, LogSpec.log_bytes_cons in Hf.
    rewrite (LogSpec.next_record _ _ _ _ _ _ Hf (tree_record_ok o Ho) Hmax). cbn [entry_kind entry_payload kind payload tree_record]. rewrite replay_record_op by done.
    destruct (replay_op o x) as [[[]| | |] x']; [|done..]. rewrite app_assoc in Hf. cbn [length] in Hfuel. apply (IH _ fuel x' Hf); [done|done|lia].
Qed.

Lemma recover_log_replay m ops x : log_of m ops -> recover_log m x = replay ops x.
Proof using All.
  intros (_ & Hops & header & h & (Hb & Hwo & Hw64) & Hlen & _ & _ & _ & Hg & _ & _ & Hi). unfold recover_log, WriteAheadLogManager.reader_from.
  rewrite Hg. cbn [lsn_segment LSN_ZERO Z.eqb map_err fst snd]. unfold WriteAheadLogFile.reader_from_offset. rewrite Hg. change (lsn_offset LSN_ZERO) with (Z.of_nat HEADER_SIZE). rewrite <- Hlen.
  unfold recovery_fuel. rewrite get_size_law, Nat2Z.id. apply recover_loop_replay; auto; [lia|]. rewrite Hb, length_app.
  assert (Hlog : (length ops <= length (LogSpec.log_bytes (WriteAheadLogFile.integrity (WriteAheadLogManager.active_segment m)) (tree_record <$> ops)))%nat); [|lia].
  clear. induction ops as [|o ops IH]; [done|]. rewrite fmap_cons, LogSpec.log_bytes_cons, length_app, LogSpec.length_record_bytes. cbn [length]. lia.
Qed.

(** ** Writing to the log *)

Lemma append_to_log m ops o du : log_of m ops -> tree_op_ok o -> log_end m + record_size o < 2 ^ 64 ->
  exists m', append_to m (tree_kind o) (tree_payload o) du = (Ok tt, m') /\ log_of m' (ops ++ [o]) /\ log_end m' = log_end m + record_size o.
Proof using All.
  intros (Harch & Hops & header & h & Hw & Hlen & Hh & Henc & Hs & Hg & Hgh & Hst & Hi) Ho Hroom. unfold append_to, WriteAheadLogWriter.append.
  set (w := WriteAheadLogManager.active_segment m) in *. change (Record_ (to_u16 (tree_kind o)) (tree_payload o)) with (tree_record o).
  assert (Hb : Z.of_nat (length (WriteAheadLogFile.record_bytes (WriteAheadLogFile.integrity w) (tree_record o))) = record_size o).
  { rewrite LogSpec.length_record_bytes. unfold record_size, plen. cbn. lia. }
  destruct (LogSpec.append_holds w header _ (tree_record o) Hw) as (w1 & -> & Hw1 & Hoff & Hs1 & Hg1 & Hst1 & Hi1); [rewrite Hb; unfold log_end in Hroom; fold w in Hroom; lia|].
  unfold WriteAheadLogWriter.finish. destruct (LogSpec.apply_durability_holds w1 header _ du Hw1) as (w2 & -> & Hw2 & Hs2 & Hg2 & Hst2 & Hi2). cbn [rbind].
  eexists. split; [done|]. split.
  - split_and!; [done|by apply Forall_app; split; [|constructor]|]. exists header, h. rewrite fmap_app. cbn. split_and!; try done; congruence.
  - unfold log_end in *. fold w in Hroom |- *. cbn. destruct Hw1 as (Hb1 & Ho1 & _), Hw2 as (Hb2 & Ho2 & _). rewrite Ho2, Hb2, Hi2, <- Hb1, <- Ho1, Hoff, Hb. lia.
Qed.

Lemma reopen_log m ops : log_of m ops -> WriteAheadLogFile.open_existing (WriteAheadLogFile.file (WriteAheadLogManager.active_segment m)) = Ok (WriteAheadLogManager.active_segment m).
Proof using All. intros (_ & _ & header & h & Hw & Hlen & Hh & Henc & Hs & Hg & Hgh & Hst & Hi). apply (LogSpec.open_holds _ header _ h Hw Hlen Hh Henc Hs); congruence. Qed.

(** ** Shards *)

(** The log of the shard holds [ops], and [ops] make the tree [x0] the tree of
    the shard. *)
Definition durable (x0 : T) d ops : Prop := exists m, wal d = Some m /\ log_of m ops /\ replay ops x0 = (Ok tt, tree d).

Definition shard_end d : Z := match wal d with Some m => log_end m | None => 0 end.
Definition records_size (os : list TreeOp) : Z := foldr (fun o n => record_size o + n) 0 os.

(** What a restart finds: the segment is opened again and read into a new tree. *)
Definition restart_tree d (x0 : T) : kv_result unit * T :=
  match wal d with
  | None => (Ok tt, x0)
  | Some m =>
      match WriteAheadLogFile.open_existing (WriteAheadLogFile.file (WriteAheadLogManager.active_segment m)) with
      | Ok w => recover_log (WriteAheadLogManager.mk (WriteAheadLogManager.file_system m) (WriteAheadLogManager.root_folder m) (WriteAheadLogManager.shard_id m) w []) x0
      | _ => (Err (KvStorageCorruption ""), x0)
      end
  end.

Lemma restart_replay d m ops x0 : wal d = Some m -> log_of m ops -> restart_tree d x0 = replay ops x0.
Proof using All.
  intros Hm Hlog. unfold restart_tree. rewrite Hm, (reopen_log m ops Hlog). apply recover_log_replay.
  destruct Hlog as (Harch & Hops & header & h & Hrest). split_and!; [done|done|]. exists header, h. exact Hrest.
Qed.

Lemma durable_restart x0 d ops : durable x0 d ops -> restart_tree d x0 = (Ok tt, tree d).
Proof using All. intros (m & Hm & Hlog & Hr). by rewrite (restart_replay d m ops x0 Hm Hlog). Qed.

Lemma size_nonneg o : 0 <= record_size o.
Proof. unfold record_size. pose proof (plen_nonneg (tree_payload o)). lia. Qed.

Lemma sizes_nonneg os : 0 <= records_size os.
Proof. induction os as [|o os IH]; [done|]. cbn. pose proof (size_nonneg o). unfold records_size in IH. lia. Qed.

(** The records of [os] go to the log one after the other. *)
Lemma write_all_log {A} (f : A -> TreeOp) du s : forall l (sh : gmap Z shard) d m ops, sh !! s = Some d -> wal d = Some m -> log_of m ops ->
  Forall tree_op_ok (f <$> l) -> log_end m + records_size (f <$> l) < 2 ^ 64 ->
  exists m', write_all (fun sh a => wal_write true du (tree_kind (f a)) (tree_payload (f a)) sh s) l sh = (Ok tt, <[s := with_wal d m']> sh) /\ log_of m' (ops ++ (f <$> l)) /\
    log_end m' = log_end m + records_size (f <$> l).
Proof using All.
  induction l as [|a l IH]; intros sh d m ops Hd Hm Hlog Hok Hroom.
  - exists m. cbn. rewrite app_nil_r. assert (E : with_wal d m = d) by (destruct d as [a b w c]; cbn in Hm; by subst w). rewrite E, insert_id by done. split_and!; [done..|lia].
  - rewrite fmap_cons in Hok, Hroom. apply Forall_cons in Hok as [Ho Hok]. cbn [records_size foldr] in Hroom. fold (records_size (f <$> l)) in Hroom. pose proof (sizes_nonneg (f <$> l)).
    destruct (append_to_log m ops (f a) du Hlog Ho ltac:(lia)) as (m1 & Ha & Hlog1 & He1). cbn [write_all]. unfold wal_write at 1, get_shard. rewrite Hd. cbn [ok_or]. unfold log_shard. rewrite Hm, Ha. cbn [map_err after].
    destruct (IH (<[s := with_wal d m1]> sh) (with_wal d m1) m1 (ops ++ [f a])) as (m2 & Hrun & Hlog2 & He2); [by rewrite lookup_insert_eq|done|done|done|lia|].
    exists m2. rewrite Hrun, insert_insert_eq. rewrite <- app_assoc in Hlog2. split_and!; [done|done|]. rewrite fmap_cons. cbn [records_size foldr]. fold (records_size (f <$> l)). lia.
Qed.

(** One record, for a shard at hand. *)
Lemma log_shard_one o du message s (sh : gmap Z shard) d m ops : wal d = Some m -> log_of m ops -> tree_op_ok o -> log_end m + records_size [o] < 2 ^ 64 ->
  exists m', log_shard sh s d (tree_kind o) (tree_payload o) du message = (Ok tt, <[s := with_wal d m']> sh) /\ log_of m' (ops ++ [o]).
Proof using All.
  intros Hm Hlog Ho Hroom. cbn [records_size foldr] in Hroom. destruct (append_to_log m ops o du Hlog Ho ltac:(lia)) as (m1 & Ha & Hlog1 & _). exists m1. split; [|done]. unfold log_shard. by rewrite Hm, Ha.
Qed.

(** An operation logs its records and then changes the tree, whatever comes of it. *)
Lemma logged_change {A B} (f : A -> TreeOp) du (l : list A) (g : T -> kv_result B * T) (sh : gmap Z shard) s d m ops : sh !! s = Some d -> wal d = Some m -> log_of m ops ->
  Forall tree_op_ok (f <$> l) -> log_end m + records_size (f <$> l) < 2 ^ 64 ->
  exists m', after (write_all (fun sh a => wal_write true du (tree_kind (f a)) (tree_payload (f a)) sh s) l sh) (fun _ sh => on_tree sh s g) =
      ((g (tree d)).1, <[s := with_tree (with_wal d m') (g (tree d)).2]> sh) /\ log_of m' (ops ++ (f <$> l)).
Proof using All.
  intros Hd Hm Hlog Hok Hroom. destruct (write_all_log f du s l sh d m ops Hd Hm Hlog Hok Hroom) as (m' & -> & Hlog' & He).
  exists m'. cbn [after]. unfold on_tree, get_shard. rewrite lookup_insert_eq. cbn [ok_or]. change (tree (with_wal d m')) with (tree d). destruct (g (tree d)) as [r x] eqn:Eg. by rewrite insert_insert_eq.
Qed.

(** The tree changes as recovery would change it. *)
Lemma insert_replay k v x r x' : insert_one k v x = (Ok r, x') -> replay_op (TPut k v) x = (Ok tt, x').
Proof.
  unfold insert_one. destruct (map_err tree_kv_error (tree_get x k)); try done. cbn [replay_op]. destruct (tree_insert x k v) as [[[]| | |] y]; try done. cbn. by intros [= _ <-].
Qed.

Lemma insert_all_replay pairs : forall x r x', insert_all pairs x = (Ok r, x') -> replay ((fun kv => TPut kv.1 kv.2) <$> pairs) x = (Ok tt, x').
Proof.
  induction pairs as [|kv pairs IH]; intros x r x'; [by intros [= _ <-]|]. cbn [insert_all fmap list_fmap replay]. destruct (insert_one kv.1 kv.2 x) as [[u| | |] y] eqn:E; try done.
  rewrite (insert_replay _ _ _ _ _ E). apply IH.
Qed.

Lemma remove_replay k x b x' : remove_one k x = (Ok b, x') -> replay_op (TDelete k) x = (Ok tt, x').
Proof. unfold remove_one. cbn [replay_op]. destruct (tree_remove x k) as [[c| | |] y]; try done. cbn. by intros [= _ <-]. Qed.

Lemma remove_all_replay ks : forall n x b x', remove_all ks n x = (Ok b, x') -> replay (TDelete <$> ks) x = (Ok tt, x').
Proof.
  induction ks as [|k ks IH]; intros n x b x'; [by intros [= _ <-]|]. cbn [remove_all fmap list_fmap replay]. destruct (remove_one k x) as [[u| | |] y] eqn:E; try done.
  rewrite (remove_replay _ _ _ _ E). apply IH.
Qed.

Lemma after_one {A B} (w : gmap Z shard -> A -> kv_result unit * gmap Z shard) a sh (k : unit -> gmap Z shard -> kv_result B * gmap Z shard) :
  after (w sh a) k = after (write_all w [a] sh) k.
Proof. cbn [write_all]. destruct (w sh a) as [[[]| | |] sh']; done. Qed.

(** ** New logs *)

(** A file system that holds nothing, as [MemoryFileSystem::new] makes it: a
    directory can be made, and a file created in it, which is empty. *)
Definition empty_fs (segment_path : string -> Z -> string) (fs : FS) (dir : string) : Prop :=
  WriteAheadLogManager.fs_exists fs dir = Ok false /\
  exists fs1, WriteAheadLogManager.fs_create_directory_all fs dir = (Ok tt, fs1) /\ WriteAheadLogManager.fs_exists fs1 (segment_path dir 0) = Ok false /\
    exists f fs2, WriteAheadLogManager.fs_create_file fs1 (segment_path dir 0) = (Ok f, fs2) /\ bytes_of f = [].

Lemma open_wal_new segment_path message fs now dir s : empty_fs segment_path fs dir -> 0 <= now < 2 ^ 64 -> 0 <= s < 2 ^ 128 ->
  exists m, open_wal segment_path true message fs now dir s = Ok (Some m) /\ log_of m [] /\ log_end m = 69.
Proof using All.
  intros (Hd & fs1 & Hmk & He & f & fs2 & Hcr & Hb) Hnow Hs. unfold open_wal, WriteAheadLogManager.new. rewrite Hd. cbn [fs_err rbind]. rewrite Hmk. cbn [fs_err rbind]. rewrite He. cbn [fs_err rbind].
  rewrite Hcr. cbn [fs_err rbind]. destruct (LogSpec.create_holds f now s 0 0 Crc32c NoCompression NoEncryption 0 Hb) as (w & header & Hw & Hh & Hlen & Hoff & Hsh & Hg & Hst & Hi & Henc).
  change (WriteAheadLogManager.cfg_shard_id (wal_config s)) with s. change (WriteAheadLogManager.cfg_checksum (wal_config s)) with Crc32c.
  change (WriteAheadLogManager.cfg_compression (wal_config s)) with NoCompression. change (WriteAheadLogManager.cfg_encryption (wal_config s)) with NoEncryption. rewrite Hw. cbn [rbind map_err].
  eexists. split; [reflexivity|]. split; [|exact Hoff]. split_and!; [done|constructor|]. eexists header, _. split_and!; [exact Hh|done| |exact Henc|done..].
  unfold HeaderSpec.header_ok. cbn. lia.
Qed.
End store.
