(* ===== verification/BTreeStore.v ===== *)
(** * The B+Tree store and its transactions

    Models nanograph-btree/src/kvstore.rs, transaction.rs and config.rs over the
    tree and the shared part of the stores.  Transactions are shared through
    [Arc], so they are kept in a table by identifier; a transaction refers to the
    tree of one shard by a weak pointer, which is upgraded as long as the shard
    still has that tree.  Metrics and statistics other than the number of keys
    are left out. *)

From Stdlib Require Import ZArith Lia.
From stdpp Require Import gmap option strings pretty base list.
From S2P Require Import Prelude BTreeError VfsFile Integrity Wal LsmRecord BTreeNode BTreeTree BTreeIter KvtRange TreeStore.

Open Scope Z_scope.

(** [Into<KeyValueError>] in the operations of the store. *)
#[global] Instance btree_tree : Tree BPlusTree.t BTreeError := {
  tree_get t key := (BPlusTree.get key t).1;
  tree_insert t key value := BPlusTree.insert key value t;
  tree_remove t key := BPlusTree.delete key t;
  tree_clear := BPlusTree.clear;
  tree_display := display;
  tree_internal := Internal;
  tree_kv_error := kv_error_from }.

Record BTreeStorageConfig : Type := StorageConfig { data_dir : string; wal_dir : string; order : nat; cache_size_mb : nat }.

Definition storage_config (data wal : string) : BTreeStorageConfig := StorageConfig data wal 128 128.
Definition storage_config_with_options (data wal : string) (order cache : nat) : BTreeStorageConfig := StorageConfig data wal order cache.
Definition default_storage_config : BTreeStorageConfig := StorageConfig "/btree/data" "/btree/wal" 128 128.

(** ** Transactions *)

Inductive WriteOp : Type := WPut (key value : list Z) | WDelete (key : list Z).

Module BTreeTransaction.

Record t : Type := mk { id : Z; shard : Z; timestamp : Z; tree : Z; write_buffer : gmap (list Z) WriteOp; active : bool }.

Definition new (id shard tree now : Z) : t := mk id shard now tree ∅ true.

Definition is_active (x : t) : bool := active x.

Definition with_buffer (x : t) (b : gmap (list Z) WriteOp) : t := mk (id x) (shard x) (timestamp x) (tree x) b (active x).
Definition with_active (x : t) (b : bool) : t := mk (id x) (shard x) (timestamp x) (tree x) (write_buffer x) b.

Definition buffer_put (x : t) (key value : list Z) : kv_result unit * t :=
  if is_active x then (Ok tt, with_buffer x (<[key := WPut key value]> (write_buffer x))) else (Err KvWriteConflict, x).
Definition buffer_delete (x : t) (key : list Z) : kv_result unit * t :=
  if is_active x then (Ok tt, with_buffer x (<[key := WDelete key]> (write_buffer x))) else (Err KvWriteConflict, x).

(** [visit]: the bindings in the order the map is visited. *)
Definition get_writes (visit : gmap (list Z) WriteOp -> list (list Z * WriteOp)) (x : t) : list WriteOp := (visit (write_buffer x)).*2.

Definition mark_committed (x : t) : t := with_active x false.
Definition mark_aborted (x : t) : t := with_active x false.

(** The error of the buffer is dropped. *)
Definition put (x : t) (key value : list Z) : kv_result unit * t := (Ok tt, (buffer_put x key value).2).
Definition delete (x : t) (key : list Z) : kv_result bool * t := (Ok true, (buffer_delete x key).2).

Definition scan (x : t) : kv_result unit :=
  if is_active x then Err (KvStorageCorruption "Transaction scan not yet fully implemented - needs B+Tree iterator integration") else Err KvWriteConflict.

Definition rollback (x : t) : kv_result unit * t := if is_active x then (Ok tt, mark_aborted (with_buffer x ∅)) else (Err KvWriteConflict, x).

(** [tree]: the tree, when the weak pointer can be upgraded. *)
Definition get_tree (tree : option BPlusTree.t) : kv_result BPlusTree.t := ok_or tree (KvStorageCorruption "Tree no longer exists").

Definition get (tree : option BPlusTree.t) (x : t) (key : list Z) : kv_result (option (list Z)) :=
  match write_buffer x !! key with
  | Some (WPut _ value) => Ok (Some value)
  | Some (WDelete _) => Ok None
  | None => let! t := get_tree tree in LoggedStore.map_err kv_error_from (BPlusTree.get key t).1
  end.

Definition apply_write (w : WriteOp) (t : BPlusTree.t) : kv_result unit * BPlusTree.t :=
  match w with
  | WPut key value => let '(r, t) := BPlusTree.insert key value t in (LoggedStore.map_err kv_error_from r, t)
  | WDelete key => let '(r, t) := BPlusTree.delete key t in (LoggedStore.map_err kv_error_from (let! _ := r in Ok tt), t)
  end.

Fixpoint apply_writes (ws : list WriteOp) (t : BPlusTree.t) : kv_result unit * BPlusTree.t :=
  match ws with
  | [] => (Ok tt, t)
  | w :: ws => match apply_write w t with (Ok _, t) => apply_writes ws t | (r, t) => (r, t) end
  end.

(** An error leaves the transaction active and part of its writes in the tree. *)
Definition commit (visit : gmap (list Z) WriteOp -> list (list Z * WriteOp)) (tree : option BPlusTree.t) (x : t) : kv_result unit * option BPlusTree.t * t :=
  if is_active x then
    match get_tree tree with
    | Ok t =>
        match apply_writes (get_writes visit x) t with
        | (Ok _, t) => (Ok tt, Some t, mark_committed x)
        | (r, t) => (r, Some t, x)
        end
    | Err e => (Err e, tree, x)
    | Panic => (Panic, tree, x)
    | Timeout => (Timeout, tree, x)
    end
  else (Err KvWriteConflict, tree, x).
End BTreeTransaction.

Module TransactionManager.

(** All transactions that were begun, and those the manager still refers to. *)
Record t : Type := mk { next_tx_id : Z; transactions : gmap Z BTreeTransaction.t; active_transactions : gset Z }.

Definition new : t := mk 1 ∅ ∅.

Definition begin (m : t) (shard tree now : Z) : kv_result Z * t :=
  let id := next_tx_id m in
  if id + 1 <? 2 ^ 64 then (Ok id, mk (id + 1) (<[id := BTreeTransaction.new id shard tree now]> (transactions m)) ({[id]} ∪ active_transactions m))
  else (Panic, m).

Definition get_transaction (m : t) (id : Z) : option BTreeTransaction.t := if decide (id ∈ active_transactions m) then transactions m !! id else None.
Definition remove_transaction (m : t) (id : Z) : t := mk (next_tx_id m) (transactions m) (active_transactions m ∖ {[id]}).
Definition active_count (m : t) : nat := size (active_transactions m).
Definition cleanup_inactive (m : t) : t :=
  mk (next_tx_id m) (transactions m)
    (filter (fun id => from_option BTreeTransaction.is_active false (transactions m !! id) = true) (active_transactions m)).

Definition set_transaction (m : t) (x : BTreeTransaction.t) : t := mk (next_tx_id m) (<[BTreeTransaction.id x := x]> (transactions m)) (active_transactions m).
End TransactionManager.

(** ** The store *)

Module BTreeKeyValueStore.
Module L := LoggedStore.

Section store.
Context `{!Integrity.Hashes} {FS F : Type} `{!File F} `{!WriteAheadLogManager.FileSystemOps FS F}.
Context (segment_path : string -> Z -> string).

Abbreviation ShardData := (L.ShardData BPlusTree.t FS F).

Record t : Type := mk { shards : gmap Z ShardData; tx_manager : TransactionManager.t; config : BPlusTree.BPlusTreeConfig; wal_enabled : bool; next_ref : Z }.

Definition new (c : BPlusTree.BPlusTreeConfig) : t := mk ∅ TransactionManager.new c false 0.
Definition with_wal (c : BPlusTree.BPlusTreeConfig) : t := mk ∅ TransactionManager.new c true 0.

Definition with_shards (s : t) (sh : gmap Z ShardData) : t := mk sh (tx_manager s) (config s) (wal_enabled s) (next_ref s).
Definition with_manager (s : t) (m : TransactionManager.t) : t := mk (shards s) m (config s) (wal_enabled s) (next_ref s).
Definition take_ref (s : t) : t := mk (shards s) (tx_manager s) (config s) (wal_enabled s) (next_ref s + 1).

Definition lift {A} (s : t) (r : kv_result A * gmap Z ShardData) : kv_result A * t := (r.1, with_shards s r.2).

Definition get (s : t) (shard : Z) (key : list Z) : kv_result (option (list Z)) := L.get (shards s) shard key.
Definition put (s : t) (shard : Z) (key value : list Z) : kv_result unit * t := lift s (L.put (wal_enabled s) Sync (shards s) shard key value).
Definition delete (s : t) (shard : Z) (key : list Z) : kv_result bool * t := lift s (L.delete (wal_enabled s) Sync (shards s) shard key).
Definition exists_ (s : t) (shard : Z) (key : list Z) : kv_result bool := L.exists_ (shards s) shard key.
Definition batch_get (s : t) (shard : Z) (keys : list (list Z)) : kv_result (list (option (list Z))) := L.batch_get (shards s) shard keys.
Definition batch_put (s : t) (shard : Z) (pairs : list (list Z * list Z)) : kv_result unit * t := lift s (L.batch_put (wal_enabled s) Sync (shards s) shard pairs).
Definition batch_delete (s : t) (shard : Z) (keys : list (list Z)) : kv_result Z * t := lift s (L.batch_delete (wal_enabled s) Sync (shards s) shard keys).
Definition checkpoint_shard (s : t) (shard : Z) : kv_result unit * t := lift s (L.checkpoint_shard (wal_enabled s) (shards s) shard).
Definition checkpoint_all (s : t) (ids : list Z) : kv_result unit * t := lift s (L.checkpoint_all (wal_enabled s) ids (shards s)).

(** The iterator keeps the tree it was opened on. *)
Definition bound (b : KeyRange.Bound) : BPlusTreeIterator.Bound :=
  match b with KeyRange.Included k => BPlusTreeIterator.Included k | KeyRange.Excluded k => BPlusTreeIterator.Excluded k | KeyRange.Unbounded => BPlusTreeIterator.Unbounded end.
Definition scan (s : t) (shard : Z) (range : KeyRange.t) : kv_result (BPlusTree.t * BPlusTreeIterator.t) :=
  let! tr := L.get_tree (shards s) shard in
  let! it := L.map_err kv_error_from (BPlusTreeIterator.new tr (bound (KeyRange.start range)) (bound (KeyRange.end_ range)) (KeyRange.reverse range) (Z.of_nat <$> KeyRange.limit range)) in
  Ok (tr, it).

Definition key_count (s : t) (shard : Z) : kv_result Z := let! tr := L.get_tree (shards s) shard in Ok (Z.of_nat (BPlusTree.num_keys (BPlusTree.stats tr))).

(** The tree goes first and the log after it. *)
Definition clear (s : t) (shard : Z) : kv_result unit * t :=
  lift s (L.after (match L.get_shard (shards s) shard with
                   | Ok x => let '(r, tr) := BPlusTree.clear (L.tree x) in (L.map_err (fun e => KvStorageCorruption (display e)) r, <[shard := L.with_tree x tr]> (shards s))
                   | Err e => (Err e, shards s)
                   | Panic => (Panic, shards s)
                   | Timeout => (Timeout, shards s)
                   end)
            (fun _ sh => match L.get_shard sh shard with
                         | Ok x => L.log_shard sh shard x TreeRecord.Clear TreeRecord.encode_clear Sync ""
                         | Err e => (Err e, sh)
                         | Panic => (Panic, sh)
                         | Timeout => (Timeout, sh)
                         end)).

Definition drop_shard (s : t) (shard : Z) : t := with_shards s (base.delete shard (shards s)).
Definition shard_exists (s : t) (shard : Z) : bool := bool_decide (is_Some (shards s !! shard)).
Definition list_shards (visit : gmap Z ShardData -> list (Z * ShardData)) (s : t) : list Z := (visit (shards s)).*1.
Definition flush (s : t) : kv_result unit := Ok tt.
Definition compact (s : t) : kv_result unit := Ok tt.

(** *** New shards *)

Definition storage_error {A} (r : fs_result A) : kv_result A := L.map_err (fun _ => KvStorageCorruption "") r.

(** The directory of the log is in a file system of its own, [fresh], that holds
    nothing; the shard is in the table before its log is read. *)
Definition create_shard (fresh : FS) (now : Z) (s : t) (shard : Z) : kv_result unit * t :=
  match L.open_wal segment_path (wal_enabled s) "Failed to create WAL: " fresh now ("/wal_" +:+ pretty (Z.to_N shard)) shard with
  | Ok m =>
      let x := L.Shard (next_ref s) (BPlusTree.new (config s)) m None in
      let s := take_ref (with_shards s (<[shard := x]> (shards s))) in
      let '(r, tr) := L.recover_from_wal (wal_enabled s) (shards s) shard (L.tree x) in
      (r, with_shards s (<[shard := L.with_tree x tr]> (shards s)))
  | Err e => (Err e, s)
  | Panic => (Panic, s)
  | Timeout => (Timeout, s)
  end.

(** Here the log is read before the shard is in the table. *)
Definition create_shard_with_config (fs : FS) (now : Z) (c : BTreeStorageConfig) (s : t) (shard : Z) : kv_result unit * t :=
  let '(r1, fs) := WriteAheadLogManager.fs_create_directory_all fs (data_dir c) in
  match storage_error r1 with
  | Ok _ =>
      let '(r2, fs) := WriteAheadLogManager.fs_create_directory_all fs (wal_dir c) in
      match (let! _ := storage_error r2 in L.open_wal segment_path (wal_enabled s) "" fs now (wal_dir c) shard) with
      | Ok m =>
          let tr := BPlusTree.new (BPlusTree.Config (order c * 2) (order c)) in
          match L.recover_from_wal (wal_enabled s) (shards s) shard tr with
          | (Ok _, tr) => (Ok tt, take_ref (with_shards s (<[shard := L.Shard (next_ref s) tr m None]> (shards s))))
          | (r, _) => (r, s)
          end
      | Err e => (Err e, s)
      | Panic => (Panic, s)
      | Timeout => (Timeout, s)
      end
  | Err e => (Err e, s)
  | Panic => (Panic, s)
  | Timeout => (Timeout, s)
  end.

(** *** Transactions *)

(** On the first shard the map is visited at. *)
Definition begin_transaction (visit : gmap Z ShardData -> list (Z * ShardData)) (now : Z) (s : t) : kv_result Z * t :=
  match visit (shards s) with
  | [] => (Err (KvStorageCorruption "No shards available for transaction"), s)
  | (shard, x) :: _ => let '(r, m) := TransactionManager.begin (tx_manager s) shard (L.tree_ref x) now in (r, with_manager s m)
  end.

(** [Weak::upgrade]. *)
Definition upgrade (s : t) (x : BTreeTransaction.t) : option ShardData :=
  d ← shards s !! BTreeTransaction.shard x; if decide (L.tree_ref d = BTreeTransaction.tree x) then Some d else None.

Definition transaction (s : t) (id : Z) : option BTreeTransaction.t := TransactionManager.transactions (tx_manager s) !! id.

(** An operation on the transaction's own state. *)
Definition on_transaction {A} (s : t) (id : Z) (f : BTreeTransaction.t -> kv_result A * BTreeTransaction.t) : kv_result A * t :=
  match transaction s id with
  | Some x => let '(r, x) := f x in (r, with_manager s (TransactionManager.set_transaction (tx_manager s) x))
  | None => (Panic, s)
  end.

Definition tx_put (s : t) (id : Z) (key value : list Z) : kv_result unit * t := on_transaction s id (fun x => BTreeTransaction.put x key value).
Definition tx_delete (s : t) (id : Z) (key : list Z) : kv_result bool * t := on_transaction s id (fun x => BTreeTransaction.delete x key).
Definition tx_rollback (s : t) (id : Z) : kv_result unit * t := on_transaction s id BTreeTransaction.rollback.
Definition tx_get (s : t) (id : Z) (key : list Z) : kv_result (option (list Z)) :=
  match transaction s id with Some x => BTreeTransaction.get (L.tree <$> upgrade s x) x key | None => Panic end.

Definition tx_commit (visit : gmap (list Z) WriteOp -> list (list Z * WriteOp)) (s : t) (id : Z) : kv_result unit * t :=
  match transaction s id with
  | Some x =>
      let d := upgrade s x in
      let '(r, tr, x') := BTreeTransaction.commit visit (L.tree <$> d) x in
      let s := match d, tr with Some d, Some tr => with_shards s (<[BTreeTransaction.shard x := L.with_tree d tr]> (shards s)) | _, _ => s end in
      (r, with_manager s (TransactionManager.set_transaction (tx_manager s) x'))
  | None => (Panic, s)
  end.
End store.
End BTreeKeyValueStore.
