(* ===== verification/BTreeStoreSpec.v ===== *)
(** * The B+Tree store keeps what is written to it

    With the log on, every operation of the store succeeds and is the operation
    of a map, and a restart reads back the tree as it was; a commit of a
    transaction is not logged and a restart loses it; and the constructor that
    reads the log before the shard exists never succeeds. *)

From Stdlib Require Import ZArith Lia.
From stdpp Require Import gmap option strings pretty base list.
From S2P Require Import Prelude BTreeError VfsFile Integrity Wal WalSpec LsmRecord BTreeNode BTreeTree BTreeShape BTreeInv BTreeInsert BTreeDelete BTreeRebalance BTreeIter BTreeSpec KvtRange TreeStore TreeStoreSpec BTreeStore.

Open Scope Z_scope.
Import BTreeKeyValueStore.

Section store.
Context `{!Integrity.Hashes} `{!Integrity.HashLaws} {FS F : Type} `{!File F} `{!FileLaws F} `{!WriteAheadLogManager.FileSystemOps FS F}.
Context (segment_path : string -> Z -> string).
Abbreviation store := (BTreeKeyValueStore.t (FS := FS) (F := F)).
Abbreviation shard_data := (LoggedStore.ShardData BPlusTree.t FS F).
Implicit Types (s : store) (m : gmap (list Z) (list Z)) (tr : BPlusTree.t).

Definition drop_value {A} (r : kv_result A * store) : kv_result unit * store := ((let! _ := r.1 in Ok tt), r.2).

Definition run s (shard : Z) (o : StoreOp) : kv_result unit * store :=
  match o with
  | SPut k v => put s shard k v
  | SDelete k => drop_value (delete s shard k)
  | SBatchPut ps => batch_put s shard ps
  | SBatchDelete ks => drop_value (batch_delete s shard ks)
  | SClear => clear s shard
  | SCheckpoint => checkpoint_shard s shard
  end.

(** What the operation means. *)
Definition apply_op (o : StoreOp) m : gmap (list Z) (list Z) :=
  match o with
  | SPut k v => <[k := v]> m
  | SDelete k => base.delete k m
  | SBatchPut ps => foldl (fun m kv => <[kv.1 := kv.2]> m) m ps
  | SBatchDelete ks => foldl (fun m k => base.delete k m) m ks
  | SClear => ∅
  | SCheckpoint => m
  end.

(** Node identifiers are left for every insertion. *)
Fixpoint inserts_fit (ps : list (list Z * list Z)) tr : Prop :=
  match ps with [] => True | kv :: ps => id_room tr /\ inserts_fit ps (BPlusTree.insert kv.1 kv.2 tr).2 end.

#[global] Instance inserts_fit_dec ps tr : Decision (inserts_fit ps tr).
Proof. revert tr. induction ps as [|kv ps IH]; intros tr; cbn [inserts_fit]; apply _. Defined.

Definition tree_fits (o : StoreOp) tr : Prop := match o with SPut k v => id_room tr | SBatchPut ps => inserts_fit ps tr | _ => True end.

#[global] Instance tree_fits_dec o tr : Decision (tree_fits o tr).
Proof. destruct o; cbn [tree_fits]; apply _. Defined.

(** Tree and log have room for the operation. *)
Definition fits s (shard : Z) (o : StoreOp) : Prop :=
  forall d, shards s !! shard = Some d -> Forall tree_op_ok (records o) /\ shard_end d + records_size (records o) < 2 ^ 64 /\ tree_fits o (LoggedStore.tree d).

#[global] Instance fits_dec s shard o : Decision (fits s shard o).
Proof.
  unfold fits. destruct (shards s !! shard) as [d|]; [|by left].
  destruct (decide (Forall tree_op_ok (records o) /\ shard_end d + records_size (records o) < 2 ^ 64 /\ tree_fits o (LoggedStore.tree d))) as [H'|H'].
  - left. by intros d' [= <-].
  - right. intros Hn. by apply H', Hn.
Defined.

(** The stores that operations on one shard reach, with the map they describe.
    Whatever an operation returns, the step is taken. *)
Inductive store_reaches (c : BPlusTree.BPlusTreeConfig) (shard : Z) : store -> gmap (list Z) (list Z) -> Prop :=
| store_new fs now r s : empty_fs segment_path fs ("/wal_" +:+ pretty (Z.to_N shard)) -> 0 <= now < 2 ^ 64 -> create_shard segment_path fs now (with_wal c) shard = (r, s) -> store_reaches c shard s ∅
| store_step s m o r s' : store_reaches c shard s m -> fits s shard o -> run s shard o = (r, s') -> store_reaches c shard s' (apply_op o m).

(** The shard is durable and its tree has the map. *)
Definition shard_ok c s (shard : Z) m : Prop :=
  wal_enabled s = true /\ exists d ops, shards s !! shard = Some d /\ durable (BPlusTree.new c) d ops /\ tree_ok (LoggedStore.tree d) /\ contents (LoggedStore.tree d) = m /\ BPlusTree.config (LoggedStore.tree d) = c.

(** A change of the tree that does what the records say. *)
Definition tree_step (c : BPlusTree.BPlusTreeConfig) {B} (g : BPlusTree.t -> kv_result B * BPlusTree.t) (os : list TreeOp) m' tr : Prop :=
  exists b tr', g tr = (Ok b, tr') /\ replay os tr = (Ok tt, tr') /\ tree_ok tr' /\ contents tr' = m' /\ BPlusTree.config tr' = c.

Lemma change_ok {A B} (f : A -> TreeOp) (l : list A) (g : BPlusTree.t -> kv_result B * BPlusTree.t) c s shard m m' d : shard_ok c s shard m -> shards s !! shard = Some d ->
  Forall tree_op_ok (f <$> l) -> shard_end d + records_size (f <$> l) < 2 ^ 64 -> tree_step c g (f <$> l) m' (LoggedStore.tree d) ->
  exists b s', lift s (LoggedStore.after (LoggedStore.write_all (fun sh a => LoggedStore.wal_write (wal_enabled s) Sync (tree_kind (f a)) (tree_payload (f a)) sh shard) l (shards s))
                  (fun _ sh => LoggedStore.on_tree sh shard g)) = (Ok b, s') /\ shard_ok c s' shard m'.
Proof using All.
  intros (Hw & d' & ops & Hd' & Hdur & _) Hd Hok Hroom (b & tr' & Hg & Hrep & Htr & Hc & Hcfg). rewrite Hd in Hd'. injection Hd' as <-. rewrite Hw.
  destruct Hdur as (lm & Hlm & Hlog0 & Hr). unfold shard_end in Hroom. rewrite Hlm in Hroom.
  destruct (logged_change f Sync l g (shards s) shard d lm ops Hd Hlm Hlog0 Hok Hroom) as (m1 & -> & Hlog). rewrite Hg in *. cbn [fst snd lift].
  eexists b, _. split; [reflexivity|]. split; [done|]. eexists _, _. cbn [shards with_shards]. split; [apply lookup_insert_eq|]. split_and!; try done.
  exists m1. split; [done|]. split; [exact Hlog|]. by rewrite replay_app, Hr.
Qed.

(** A record that says what became of the tree. *)
Lemma logged_ok c s (sh : gmap Z shard_data) shard d lm ops o message : wal_enabled s = true -> LoggedStore.wal d = Some lm -> log_of lm ops -> tree_op_ok o -> log_end lm + records_size [o] < 2 ^ 64 ->
  replay (ops ++ [o]) (BPlusTree.new c) = (Ok tt, LoggedStore.tree d) -> tree_ok (LoggedStore.tree d) -> BPlusTree.config (LoggedStore.tree d) = c ->
  exists s', lift s (LoggedStore.log_shard sh shard d (tree_kind o) (tree_payload o) Sync message) = (Ok tt, s') /\ shard_ok c s' shard (contents (LoggedStore.tree d)).
Proof using All.
  intros Hw Hlm Hlog Ho Hroom Hrep Htr Hcfg. destruct (log_shard_one o Sync message shard sh d lm ops Hlm Hlog Ho Hroom) as (lm' & Hrun & Hlog'). rewrite Hrun. eexists. split; [reflexivity|]. split; [done|].
  eexists _, (ops ++ [o]). cbn [lift fst snd shards with_shards]. split; [apply lookup_insert_eq|]. split_and!; try done. by exists lm'.
Qed.

Lemma tree_insert_step c k v tr : tree_ok tr -> BPlusTree.config tr = c -> (2 <= BPlusTree.max_keys c)%nat -> id_room tr ->
  exists tr', BPlusTree.insert k v tr = (Ok tt, tr') /\ LoggedStore.insert_one k v tr = (Ok tt, tr') /\ tree_ok tr' /\ contents tr' = <[k := v]> (contents tr) /\ BPlusTree.config tr' = c.
Proof.
  intros Htr Hcfg Hmax Hroom. rewrite <- Hcfg in Hmax. destruct (insert_contents tr k v Htr Hmax Hroom) as (tr' & Hi & Htr' & Hc & Hcfg'). exists tr'. unfold LoggedStore.insert_one.
  change (tree_get tr k) with (BPlusTree.get k tr).1. change (tree_insert tr k v) with (BPlusTree.insert k v tr). rewrite get_contents by done. cbn [fst LoggedStore.map_err]. rewrite Hi. split_and!; try done. congruence.
Qed.

Lemma inserts_step c ps : forall tr, tree_ok tr -> BPlusTree.config tr = c -> (2 <= BPlusTree.max_keys c)%nat -> inserts_fit ps tr ->
  exists tr', LoggedStore.insert_all ps tr = (Ok tt, tr') /\ tree_ok tr' /\ contents tr' = foldl (fun m kv => <[kv.1 := kv.2]> m) (contents tr) ps /\ BPlusTree.config tr' = c.
Proof.
  induction ps as [|kv ps IH]; intros tr Htr Hcfg Hmax Hfit; [by exists tr|]. destruct Hfit as [Hroom Hfit]. destruct (tree_insert_step c kv.1 kv.2 tr Htr Hcfg Hmax Hroom) as (tr1 & Hi & Hi1 & Htr1 & Hc1 & Hcfg1).
  rewrite Hi in Hfit. destruct (IH tr1 Htr1 Hcfg1 Hmax Hfit) as (tr2 & Hi2 & Htr2 & Hc2 & Hcfg2). exists tr2. cbn [LoggedStore.insert_all foldl]. rewrite Hi1, Hi2, <- Hc1. done.
Qed.

Lemma tree_remove_ok c k tr : tree_ok tr -> BPlusTree.config tr = c ->
  exists b tr', LoggedStore.remove_one k tr = (Ok b, tr') /\ tree_ok tr' /\ contents tr' = base.delete k (contents tr) /\ BPlusTree.config tr' = c.
Proof.
  intros Htr Hcfg. destruct (delete_contents tr k Htr) as (tr' & Hd & Htr' & Hc & Hcfg'). eexists _, tr'. unfold LoggedStore.remove_one. change (tree_remove tr k) with (BPlusTree.delete k tr). rewrite Hd. split; [reflexivity|]. split_and!; try done. congruence.
Qed.

Lemma tree_removes_ok c ks : forall n tr, tree_ok tr -> BPlusTree.config tr = c ->
  exists b tr', LoggedStore.remove_all ks n tr = (Ok b, tr') /\ tree_ok tr' /\ contents tr' = foldl (fun m k => base.delete k m) (contents tr) ks /\ BPlusTree.config tr' = c.
Proof.
  induction ks as [|k ks IH]; intros n tr Htr Hcfg; [by exists n, tr|]. destruct (tree_remove_ok c k tr Htr Hcfg) as (b & tr1 & Hi1 & Htr1 & Hc1 & Hcfg1).
  destruct (IH (if b then n + 1 else n) tr1 Htr1 Hcfg1) as (b2 & tr2 & Hi2 & Htr2 & Hc2 & Hcfg2). exists b2, tr2. cbn [LoggedStore.remove_all foldl]. rewrite Hi1, Hi2, <- Hc1. done.
Qed.

(** Each operation succeeds, does to the tree what it says, and stays durable. *)
Lemma store_run_ok c s shard m o : (2 <= BPlusTree.max_keys c)%nat -> shard_ok c s shard m -> fits s shard o -> exists s', run s shard o = (Ok tt, s') /\ shard_ok c s' shard (apply_op o m).
Proof using All.
  intros Hmax Hs Hfit. pose proof Hs as (Hw & d & ops & Hd & Hdur & Htr & Hc & Hcfg). destruct (Hfit d Hd) as (Hok & Hroom & Htf). subst m. set (tr := LoggedStore.tree d) in *.
  destruct o as [k v|k|ps|ks| |]; cbn [run records apply_op tree_fits] in *.
  - destruct (tree_insert_step c k v tr Htr Hcfg Hmax Htf) as (tr' & _ & Hi & H').
    destruct (change_ok (fun kv : list Z * list Z => TPut kv.1 kv.2) [(k, v)] (LoggedStore.insert_one k v) c s shard _ (<[k := v]> (contents tr)) d Hs Hd Hok Hroom) as ([] & s' & Hrun & Hs').
    { exists tt, tr'. split; [done|]. split; [exact (replay_one _ _ _ (insert_replay k v tr tt tr' Hi))|done]. }
    exists s'. split; [|done]. unfold put, LoggedStore.put, LoggedStore.wal_write_put. etransitivity; [|exact Hrun]. apply (f_equal (lift s)).
    exact (after_one (fun sh (kv : list Z * list Z) => LoggedStore.wal_write (wal_enabled s) Sync TreeRecord.Put (TreeRecord.encode_put kv.1 kv.2) sh shard) (k, v) (shards s) _).
  - destruct (tree_remove_ok c k tr Htr Hcfg) as (b & tr' & Hi & H').
    destruct (change_ok TDelete [k] (LoggedStore.remove_one k) c s shard _ (base.delete k (contents tr)) d Hs Hd Hok Hroom) as (b' & s' & Hrun & Hs').
    { exists b, tr'. split; [done|]. split; [exact (replay_one _ _ _ (remove_replay k tr b tr' Hi))|done]. }
    exists s'. split; [|done]. unfold drop_value, delete, LoggedStore.delete, LoggedStore.wal_write_delete.
    rewrite (after_one (fun sh (k : list Z) => LoggedStore.wal_write (wal_enabled s) Sync TreeRecord.Delete (TreeRecord.encode_delete k) sh shard) k (shards s) _).
    cbn [tree_kind tree_payload] in Hrun. rewrite Hrun. done.
  - destruct (inserts_step c ps tr Htr Hcfg Hmax Htf) as (tr' & Hi & H').
    destruct (change_ok (fun kv : list Z * list Z => TPut kv.1 kv.2) ps (LoggedStore.insert_all ps) c s shard _ (apply_op (SBatchPut ps) (contents tr)) d Hs Hd Hok Hroom) as ([] & s' & Hrun & Hs').
    { exists tt, tr'. split; [done|]. split; [exact (insert_all_replay ps tr tt tr' Hi)|done]. }
    exists s'. done.
  - destruct (tree_removes_ok c ks 0 tr Htr Hcfg) as (b & tr' & Hi & H').
    destruct (change_ok TDelete ks (LoggedStore.remove_all ks 0) c s shard _ (apply_op (SBatchDelete ks) (contents tr)) d Hs Hd Hok Hroom) as (b' & s' & Hrun & Hs').
    { exists b, tr'. split; [done|]. split; [exact (remove_all_replay ks 0 tr b tr' Hi)|done]. }
    exists s'. split; [|done]. unfold drop_value, batch_delete, LoggedStore.batch_delete, LoggedStore.wal_write_delete. cbn [tree_kind tree_payload] in Hrun. rewrite Hrun. done.
  - destruct Hdur as (lm & Hlm & Hlog & Hrep). unfold shard_end in Hroom. rewrite Hlm in Hroom. unfold clear, LoggedStore.get_shard at 1. rewrite Hd. cbn [ok_or]. fold tr. cbn [BPlusTree.clear LoggedStore.map_err LoggedStore.after].
    unfold LoggedStore.get_shard. rewrite lookup_insert_eq. cbn [ok_or]. rewrite Hcfg. rewrite <- (new_contents c).
    apply (logged_ok c s _ shard (LoggedStore.with_tree d (BPlusTree.new c)) lm ops TClear ""); try done; [by rewrite replay_app, Hrep; cbn; fold tr; rewrite Hcfg|apply new_tree_ok].
  - destruct Hdur as (lm & Hlm & Hlog & Hrep). unfold shard_end in Hroom. rewrite Hlm in Hroom. unfold checkpoint_shard, LoggedStore.checkpoint_shard, LoggedStore.get_shard. rewrite Hd, Hw. cbn [ok_or].
    apply (logged_ok c s _ shard d lm ops TCheckpoint); try done. by rewrite replay_app, Hrep.
Qed.

Lemma create_ok c fs now shard : empty_fs segment_path fs ("/wal_" +:+ pretty (Z.to_N shard)) -> 0 <= now < 2 ^ 64 -> 0 <= shard < 2 ^ 128 ->
  exists s, create_shard segment_path fs now (with_wal c) shard = (Ok tt, s) /\ shard_ok c s shard ∅.
Proof using All.
  intros Hfs Hnow Hid. unfold create_shard. destruct (open_wal_new segment_path "Failed to create WAL: " fs now _ shard Hfs Hnow Hid) as (lm & Hopen & Hlog & _).
  change (wal_enabled (with_wal c)) with true. rewrite Hopen. unfold LoggedStore.recover_from_wal, LoggedStore.get_shard.
  cbn [take_ref with_shards wal_enabled shards with_wal]. rewrite lookup_insert_eq. cbn [ok_or LoggedStore.wal]. rewrite (recover_log_replay lm [] _ Hlog). cbn [replay].
  eexists. split; [reflexivity|]. split; [done|]. eexists _, []. cbn [shards]. split; [apply lookup_insert_eq|]. split_and!; [|apply new_tree_ok|apply new_contents|done]. by exists lm.
Qed.

Lemma reaches_ok c shard s m : (2 <= BPlusTree.max_keys c)%nat -> 0 <= shard < 2 ^ 128 -> store_reaches c shard s m -> shard_ok c s shard m.
Proof using All.
  intros Hmax Hid Hr. induction Hr as [fs now r s Hfs Hnow Hc|s m o r s' _ IH Hfit Hrun].
  - destruct (create_ok c fs now shard Hfs Hnow Hid) as (s1 & Hc1 & Hok). congruence.
  - destruct (store_run_ok c s shard m o Hmax IH Hfit) as (s1 & Hrun1 & Hok). congruence.
Qed.

(** C19. The store over the B+Tree, with its log on, is a durable map: after any
    sequence of puts, deletes, batches, clears and checkpoints on a shard made
    in an empty file system, [get] of every key returns the value the sequence
    describes, and opening the segment of the log again and replaying it into
    an empty tree succeeds and gives the very tree of the shard. *)
Theorem btree_store_durable c shard s m : (2 <= BPlusTree.max_keys c)%nat -> 0 <= shard < 2 ^ 128 -> store_reaches c shard s m ->
  exists d, shards s !! shard = Some d /\ (forall k, get s shard k = Ok (m !! k)) /\ restart_tree d (BPlusTree.new c) = (Ok tt, LoggedStore.tree d).
Proof using All.
  intros Hmax Hid Hr. destruct (reaches_ok c shard s m Hmax Hid Hr) as (_ & d & ops & Hd & Hdur & Htr & Hc & _). exists d. split; [done|]. split; [|exact (durable_restart _ d ops Hdur)].
  intros k. unfold get, LoggedStore.get, LoggedStore.get_tree, LoggedStore.get_shard. rewrite Hd. cbn [ok_or rbind]. change (tree_get (LoggedStore.tree d) k) with (BPlusTree.get k (LoggedStore.tree d)).1. rewrite get_contents, Hc by done. done.
Qed.

(** A commit is not logged: whatever the transaction wrote, a restart reads the
    tree from before it. *)
Lemma commit_not_logged c visit s id x d m r s' : shard_ok c s (BTreeTransaction.shard x) m -> transaction s id = Some x -> upgrade s x = Some d ->
  tx_commit visit s id = (r, s') -> exists d', shards s' !! BTreeTransaction.shard x = Some d' /\ restart_tree d' (BPlusTree.new c) = (Ok tt, LoggedStore.tree d).
Proof using All.
  intros (_ & d0 & ops & Hd0 & Hdur & _) Hx Hup. unfold tx_commit. rewrite Hx, Hup. cbn [fmap option_fmap option_map]. assert (d0 = d) as ->.
  { unfold upgrade in Hup. rewrite Hd0 in Hup. cbn in Hup. destruct (decide _); congruence. }
  destruct (BTreeTransaction.commit visit (Some (LoggedStore.tree d)) x) as [[r1 [tr|]] x'] eqn:E; intros [= <- <-]; cbn [shards with_shards with_manager].
  - eexists. split; [apply lookup_insert_eq|]. exact (durable_restart _ d ops Hdur).
  - exists d. split; [done|]. exact (durable_restart _ d ops Hdur).
Qed.

(** The constructor with directories reads the log of the shard before the shard
    is in the table: with the log on it never makes a new one. *)
Lemma create_with_config_fails fs now cfg s shard r s' : wal_enabled s = true -> shards s !! shard = None -> create_shard_with_config segment_path fs now cfg s shard = (r, s') ->
  (forall u, r <> Ok u) /\ s' = s.
Proof using All.
  intros Hw Hd. unfold create_shard_with_config, LoggedStore.recover_from_wal, LoggedStore.get_shard. rewrite Hw, Hd. cbn [ok_or].
  destruct (WriteAheadLogManager.fs_create_directory_all fs (data_dir cfg)) as [[u| | |] fs1]; cbn [storage_error LoggedStore.map_err]; [|by intros [= <- <-]..].
  destruct (WriteAheadLogManager.fs_create_directory_all fs1 (wal_dir cfg)) as [[u2| | |] fs2]; cbn [rbind LoggedStore.map_err]; [|by intros [= <- <-]..].
  destruct (LoggedStore.open_wal segment_path true "" fs2 now (wal_dir cfg) shard) as [lm| | |]; by intros [= <- <-].
Qed.

End store.

(** Writes to a finished transaction are reported as done and go nowhere. *)
Lemma finished_put_ignored x k v : BTreeTransaction.is_active x = false -> BTreeTransaction.put x k v = (Ok tt, x) /\ BTreeTransaction.delete x k = (Ok true, x).
Proof. intros Hx. unfold BTreeTransaction.put, BTreeTransaction.delete, BTreeTransaction.buffer_put, BTreeTransaction.buffer_delete. by rewrite Hx. Qed.

(** ** A store of one shard *)

Module BTreeStoreDemo.
Import PolyHash.
#[local] Existing Instances poly_hashes poly_laws.

(** A file system that holds nothing and creates empty files. *)
#[local] Instance fresh_fs : WriteAheadLogManager.FileSystemOps unit MemoryFile.t := {|
  WriteAheadLogManager.fs_exists _ _ := Ok false;
  WriteAheadLogManager.fs_create_directory_all fs _ := (Ok tt, fs);
  WriteAheadLogManager.fs_open_file _ _ := Err PathMissing;
  WriteAheadLogManager.fs_create_file fs p := (Ok (MemoryFile.new p), fs);
  WriteAheadLogManager.fs_remove_file fs _ := (Ok tt, fs)
|}.

Definition segment (dir : string) (_ : Z) : string := dir +:+ "/segment".
Definition config : BPlusTree.BPlusTreeConfig := BPlusTree.Config 2 1.
Abbreviation store := (BTreeKeyValueStore.t (FS := unit) (F := MemoryFile.t)).

Definition pairs : list (list Z * list Z) := [([1], [10]); ([2], [20]); ([3], [30]); ([4], [40])].
Definition s0 : store := (create_shard segment tt 1700 (with_wal config) 7).2.
Definition s1 : store := (run s0 7 (SBatchPut pairs)).2.
Definition s2 : store := (run s1 7 (SDelete [2])).2.
Definition s3 : store := (run s2 7 SCheckpoint).2.

Lemma s0_fits : fits s0 7 (SBatchPut pairs).
Proof. apply (bool_decide_unpack _). vm_compute. exact I. Qed.

Lemma s1_fits : fits s1 7 (SDelete [2]).
Proof. apply (bool_decide_unpack _). vm_compute. exact I. Qed.

Lemma s2_fits : fits s2 7 SCheckpoint.
Proof. apply (bool_decide_unpack _). vm_compute. exact I. Qed.

Definition m3 : gmap (list Z) (list Z) := apply_op SCheckpoint (apply_op (SDelete [2]) (apply_op (SBatchPut pairs) ∅)).

Lemma s3_reached : store_reaches segment config 7 s3 m3.
Proof.
  refine (store_step segment config 7 s2 _ SCheckpoint (run s2 7 SCheckpoint).1 s3 _ s2_fits (surjective_pairing _)).
  refine (store_step segment config 7 s1 _ (SDelete [2]) (run s1 7 (SDelete [2])).1 s2 _ s1_fits (surjective_pairing _)).
  refine (store_step segment config 7 s0 _ (SBatchPut pairs) (run s0 7 (SBatchPut pairs)).1 s1 _ s0_fits (surjective_pairing _)).
  apply (store_new segment config 7 tt 1700 (create_shard segment tt 1700 (with_wal config) 7).1 s0); [|lia|exact (surjective_pairing _)]. split; [done|]. exists tt. split_and!; [done..|]. by eexists _, tt.
Qed.

Lemma btree_store_durable_witness : exists d, shards s3 !! 7 = Some d /\ get s3 7 [3] = Ok (Some [30]) /\ get s3 7 [2] = Ok None /\
  restart_tree d (BPlusTree.new config) = (Ok tt, LoggedStore.tree d).
Proof.
  destruct (btree_store_durable segment config 7 s3 m3) as (d & Hd & Hget & Hrestart); [cbn; lia|lia|exact s3_reached|].
  exists d. split; [done|]. split_and!; [by rewrite Hget; vm_compute..|done].
Defined.

(** A transaction on the shard, committed: a restart does not know of it. *)
Definition s4 : store := (begin_transaction (fun m => map_to_list m) 1701 s3).2.
Definition s5 : store := (tx_put s4 1 [9] [90]).2.
Definition s6 : store := (tx_commit (fun m => map_to_list m) s5 1).2.

Lemma commit_lost : get s6 7 [9] = Ok (Some [90]) /\ exists d, shards s6 !! 7 = Some d /\ (let '(r, tr) := restart_tree d (BPlusTree.new config) in r = Ok tt /\ (BPlusTree.get [9] tr).1 = Ok None).
Proof. split; [by vm_compute|]. eexists. split; [by vm_compute|]. by vm_compute. Qed.
End BTreeStoreDemo.
