(* ===== verification/ArtStore.v ===== *)
(** * The radix tree store and its transactions

    Models nanograph-art/src/kvstore.rs, transaction.rs and config.rs over the
    tree and the shared part of the stores.  The tree of a shard is behind one
    lock: an operation that panics while it writes poisons the lock, and every
    later access panics.  Metrics and statistics other than the number of keys
    are left out. *)

From Stdlib Require Import ZArith Lia.
From stdpp Require Import gmap option strings pretty base list.
From S2P Require Import Prelude BTreeError VfsFile Integrity Wal LsmRecord KvtRange Art TreeStore.

Open Scope Z_scope.

(** [RwLock<AdaptiveRadixTree>]. *)
Record LockedTree : Type := Locked { content : AdaptiveRadixTree.t (list Z); poisoned : bool }.

(** What is done under the write lock. *)
Definition write_locked {A B} (f : A -> B) (r : art_result A * AdaptiveRadixTree.t (list Z)) : art_result B * LockedTree :=
  match r with
  | (Ok a, t) => (Ok (f a), Locked t false)
  | (Err e, t) => (Err e, Locked t false)
  | (Panic, t) => (Panic, Locked t true)
  | (Timeout, t) => (Timeout, Locked t false)
  end.

#[global] Instance art_tree : Tree LockedTree ArtError := {
  tree_get t key := if poisoned t then Panic else AdaptiveRadixTree.get (content t) key;
  tree_insert t key value := if poisoned t then (Panic, t) else write_locked (fun _ => tt) (AdaptiveRadixTree.insert (content t) key value);
  tree_remove t key := if poisoned t then (Panic, t) else write_locked (fun old : option (list Z) => if old then true else false) (AdaptiveRadixTree.remove (content t) key);
  tree_clear t := if poisoned t then (Panic, t) else (Ok tt, Locked (AdaptiveRadixTree.clear (content t)) false);
  tree_display := art_display;
  tree_internal := ArtInternal;
  tree_kv_error e := KvStorageCorruption (art_display e) }.

Record ARTStorageConfig : Type := ArtConfig { art_data_dir : string; art_wal_dir : string; max_entries : Z; art_cache_size_mb : option Z }.

Definition art_config (data wal : string) : ARTStorageConfig := ArtConfig data wal 1000000 None.
Definition with_max_entries (c : ARTStorageConfig) (n : Z) : ARTStorageConfig := ArtConfig (art_data_dir c) (art_wal_dir c) n (art_cache_size_mb c).
Definition with_cache_size (c : ARTStorageConfig) (n : Z) : ARTStorageConfig := ArtConfig (art_data_dir c) (art_wal_dir c) (max_entries c) (Some n).
Definition default_art_config : ARTStorageConfig := ArtConfig "data/art" "data/wal" 1000000 None.

(** ** The iterator of a scan *)

Module ArtKeyValueIterator.

Record t : Type := mk {
  inner : ArtIterator.t (V := list Z);
  start_bound : KeyRange.Bound;
  end_bound : KeyRange.Bound;
  reverse : bool;
  limit : option nat;
  count : nat;
  current : option (list Z * list Z);
  exhausted : bool }.

(** [fuel] bounds the height of the tree. *)
Definition new (fuel : nat) (tree : AdaptiveRadixTree.t (list Z)) (s e : KeyRange.Bound) (reverse : bool) (limit : option nat) : t :=
  mk (ArtIterator.new fuel (AdaptiveRadixTree.root tree)) s e reverse limit 0 None false.

Definition check_bounds (it : t) (key : list Z) : bool := KeyRange.after_start key (start_bound it) && KeyRange.before_end key (end_bound it).

Definition with_inner (it : t) (x : ArtIterator.t) : t := mk x (start_bound it) (end_bound it) (reverse it) (limit it) (count it) (current it) (exhausted it).
Definition exhaust (it : t) : t := mk (inner it) (start_bound it) (end_bound it) (reverse it) (limit it) (count it) (current it) true.
Definition yield_item (it : t) (kv : list Z * list Z) : t := mk (inner it) (start_bound it) (end_bound it) (reverse it) (limit it) (S (count it)) (Some kv) (exhausted it).

Definition past_end (it : t) (key : list Z) : bool :=
  match end_bound it with
  | KeyRange.Excluded e => bool_decide (bytes_le e key)
  | KeyRange.Included e => bool_decide (bytes_lt e key)
  | KeyRange.Unbounded => false
  end.

(** The loop over the entries of the tree; [steps] bounds their number, [fuel]
    the work of the inner iterator. *)
Fixpoint poll_loop (steps fuel : nat) (it : t) : kv_result (option (list Z * list Z)) * t :=
  match steps with
  | O => (Timeout, it)
  | S steps =>
      match ArtIterator.next fuel fuel (inner it) with
      | (Some (key, value), x) =>
          let it := with_inner it x in
          if check_bounds it key then (Ok (Some (key, value)), yield_item it (key, value))
          else if past_end it key then (Ok None, exhaust it)
          else poll_loop steps fuel it
      | (None, x) => (Ok None, exhaust (with_inner it x))
      end
  end.

Definition poll_next (steps fuel : nat) (it : t) : kv_result (option (list Z * list Z)) * t :=
  if exhausted it then (Ok None, it)
  else match limit it with
       | Some l => if (l <=? count it)%nat then (Ok None, exhaust it) else poll_loop steps fuel it
       | None => poll_loop steps fuel it
       end.

(** Not implemented: the key is ignored. *)
Definition seek (it : t) (key : list Z) : kv_result unit * t := (Ok tt, it).
Definition position (it : t) : option (list Z) := fst <$> current it.
Definition valid (it : t) : bool := negb (exhausted it).
End ArtKeyValueIterator.

(** ** The store *)

Module ArtKeyValueStore.
Module L := LoggedStore.

Section store.
Context `{!Integrity.Hashes} {FS F : Type} `{!File F} `{!WriteAheadLogManager.FileSystemOps FS F}.
Context (segment_path : string -> Z -> string).

Abbreviation ShardData := (L.ShardData LockedTree FS F).

(** [tx_manager]: whether it is there; [next_tx_id] is a static counter. *)
Record t : Type := mk { shards : gmap Z ShardData; wal_enabled : bool; tx_manager : bool; next_tx_id : Z; next_ref : Z }.

Definition new (tx : Z) : t := mk ∅ false false tx 0.
Definition with_wal (tx : Z) : t := mk ∅ true false tx 0.

Definition with_shards (s : t) (sh : gmap Z ShardData) : t := mk sh (wal_enabled s) (tx_manager s) (next_tx_id s) (next_ref s).
Definition take_ref (s : t) : t := mk (shards s) (wal_enabled s) (tx_manager s) (next_tx_id s) (next_ref s + 1).
Definition init_tx_manager (s : t) : t := mk (shards s) (wal_enabled s) true (next_tx_id s) (next_ref s).

Definition lift {A} (s : t) (r : kv_result A * gmap Z ShardData) : kv_result A * t := (r.1, with_shards s r.2).

Definition get (s : t) (shard : Z) (key : list Z) : kv_result (option (list Z)) := L.get (shards s) shard key.
Definition put (s : t) (shard : Z) (key value : list Z) : kv_result unit * t := lift s (L.put (wal_enabled s) Buffered (shards s) shard key value).
Definition delete (s : t) (shard : Z) (key : list Z) : kv_result bool * t := lift s (L.delete (wal_enabled s) Buffered (shards s) shard key).
Definition exists_ (s : t) (shard : Z) (key : list Z) : kv_result bool := L.exists_ (shards s) shard key.
Definition batch_get (s : t) (shard : Z) (keys : list (list Z)) : kv_result (list (option (list Z))) := L.batch_get (shards s) shard keys.
Definition batch_put (s : t) (shard : Z) (pairs : list (list Z * list Z)) : kv_result unit * t := lift s (L.batch_put (wal_enabled s) Buffered (shards s) shard pairs).
Definition batch_delete (s : t) (shard : Z) (keys : list (list Z)) : kv_result Z * t := lift s (L.batch_delete (wal_enabled s) Buffered (shards s) shard keys).
Definition checkpoint_shard (s : t) (shard : Z) : kv_result unit * t := lift s (L.checkpoint_shard (wal_enabled s) (shards s) shard).
Definition checkpoint_all (s : t) (ids : list Z) : kv_result unit * t := lift s (L.checkpoint_all (wal_enabled s) ids (shards s)).

(** The tree under the read lock. *)
Definition read_tree (s : t) (shard : Z) : kv_result (AdaptiveRadixTree.t (list Z)) := let! x := L.get_tree (shards s) shard in if poisoned x then Panic else Ok (content x).

Definition key_count (s : t) (shard : Z) : kv_result Z := let! tr := read_tree s shard in Ok (u64 (AdaptiveRadixTree.len tr)).

Definition scan (fuel : nat) (s : t) (shard : Z) (range : KeyRange.t) : kv_result ArtKeyValueIterator.t :=
  let! tr := read_tree s shard in Ok (ArtKeyValueIterator.new fuel tr (KeyRange.start range) (KeyRange.end_ range) (KeyRange.reverse range) (KeyRange.limit range)).

(** [*last += 1]. *)
Definition prefix_bound (p : list Z) : kv_result KeyRange.Bound :=
  match last p with
  | Some b => if b <? 255 then Ok (KeyRange.Excluded (removelast p ++ [b + 1])) else Panic
  | None => Ok KeyRange.Unbounded
  end.
Definition scan_prefix (fuel : nat) (s : t) (shard : Z) (p : list Z) (limit : option nat) : kv_result ArtKeyValueIterator.t :=
  let! tr := read_tree s shard in
  let! e := prefix_bound p in
  Ok (ArtKeyValueIterator.new fuel tr (KeyRange.Included p) e false limit).

Definition wal_write_clear (s : t) (shard : Z) : kv_result unit * gmap Z ShardData := L.wal_write (wal_enabled s) Buffered TreeRecord.Clear TreeRecord.encode_clear (shards s) shard.

Definition clear (s : t) (shard : Z) : kv_result unit * t :=
  match L.get_tree (shards s) shard with
  | Ok _ => lift s (L.after (wal_write_clear s shard) (fun _ sh => L.on_tree sh shard (fun x => let '(r, x) := tree_clear x in (L.map_err tree_kv_error r, x))))
  | Err e => (Err e, s)
  | Panic => (Panic, s)
  | Timeout => (Timeout, s)
  end.

Definition drop_shard (s : t) (shard : Z) : t := with_shards s (base.delete shard (shards s)).
Definition shard_exists (s : t) (shard : Z) : bool := bool_decide (is_Some (shards s !! shard)).
Definition list_shards (visit : gmap Z ShardData -> list (Z * ShardData)) (s : t) : list Z := (visit (shards s)).*1.
Definition flush (s : t) : kv_result unit := Ok tt.
Definition compact (s : t) : kv_result unit := Ok tt.

(** *** New shards *)

(** Under the write lock of the tree from the first record to the last. *)
Definition recover_from_wal (s : t) (shard : Z) (x : LockedTree) : kv_result unit * LockedTree := L.recover_from_wal (wal_enabled s) (shards s) shard x.

(** A shard with a new tree and the log [m], recovered from it. *)
Definition add_shard (s : t) (shard : Z) (m : option (WriteAheadLogManager.t FS F)) : kv_result unit * t :=
  let x := L.Shard (next_ref s) (Locked AdaptiveRadixTree.new false) m None in
  let s := take_ref (with_shards s (<[shard := x]> (shards s))) in
  let '(r, tr) := recover_from_wal s shard (L.tree x) in
  (r, with_shards s (<[shard := L.with_tree x tr]> (shards s))).

(** The log is in a file system of its own, [fresh], that holds nothing. *)
Definition create_shard (fresh : FS) (now : Z) (s : t) (shard : Z) : kv_result unit * t :=
  match L.open_wal segment_path (wal_enabled s) "Failed to create WAL: " fresh now ("/wal_" +:+ pretty (Z.to_N shard)) shard with
  | Ok m => add_shard s shard m
  | Err e => (Err e, s)
  | Panic => (Panic, s)
  | Timeout => (Timeout, s)
  end.

Definition create_shard_with_config (fs : FS) (now : Z) (c : ARTStorageConfig) (s : t) (shard : Z) : kv_result unit * t :=
  let '(r1, fs) := WriteAheadLogManager.fs_create_directory_all fs (art_data_dir c) in
  match L.map_err (fun _ => KvStorageCorruption "") r1 with
  | Ok _ =>
      let '(r2, fs) := WriteAheadLogManager.fs_create_directory_all fs (art_wal_dir c) in
      match (let! _ := L.map_err (fun _ => KvStorageCorruption "") r2 in L.open_wal segment_path (wal_enabled s) "" fs now (art_wal_dir c) shard) with
      | Ok m => add_shard s shard m
      | Err e => (Err e, s)
      | Panic => (Panic, s)
      | Timeout => (Timeout, s)
      end
  | Err e => (Err e, s)
  | Panic => (Panic, s)
  | Timeout => (Timeout, s)
  end.
End store.
Arguments t : clear implicits.
End ArtKeyValueStore.

(** ** Transactions *)

Inductive ArtWriteOp : Type := ArtPut (key value : list Z) | ArtDelete (key : list Z).

Module ArtTransaction.
Module Store := ArtKeyValueStore.

Record t : Type := mk { id : Z; snapshot_ts : Z; write_buffer : gmap Z (list ArtWriteOp); committed : bool; rolled_back : bool }.

Section transaction.
Context `{!Integrity.Hashes} {FS F : Type} `{!File F} `{!WriteAheadLogManager.FileSystemOps FS F}.
Abbreviation store := (Store.t FS F).

(** [begin_transaction]: [get_tx_manager] unwraps; [fetch_add] wraps around. *)
Definition begin (now : Z) (s : store) : kv_result t * store :=
  if Store.tx_manager s then
    (Ok (mk (Store.next_tx_id s) now ∅ false false),
     Store.mk (Store.shards s) (Store.wal_enabled s) (Store.tx_manager s) (u64 (Store.next_tx_id s + 1)) (Store.next_ref s))
  else (Panic, s).

Definition check_active (x : t) : kv_result unit := if committed x then Err KvWriteConflict else if rolled_back x then Err KvWriteConflict else Ok tt.

Definition op_key (w : ArtWriteOp) : list Z := match w with ArtPut k _ => k | ArtDelete k => k end.

(** The last operation on the key. *)
Definition get_from_buffer (x : t) (shard : Z) (key : list Z) : option ArtWriteOp :=
  ops ← write_buffer x !! shard; snd <$> list_find (fun w => op_key w = key) (rev ops).

Definition push (x : t) (shard : Z) (w : ArtWriteOp) : t :=
  mk (id x) (snapshot_ts x) (<[shard := default [] (write_buffer x !! shard) ++ [w]]> (write_buffer x)) (committed x) (rolled_back x).

Definition get (s : store) (x : t) (shard : Z) (key : list Z) : kv_result (option (list Z)) :=
  let! _ := check_active x in
  match get_from_buffer x shard key with
  | Some (ArtPut _ value) => Ok (Some value)
  | Some (ArtDelete _) => Ok None
  | None => Store.get s shard key
  end.

Definition put (x : t) (shard : Z) (key value : list Z) : kv_result unit * t :=
  match check_active x with Ok _ => (Ok tt, push x shard (ArtPut key value)) | r => (r, x) end.
Definition delete (x : t) (shard : Z) (key : list Z) : kv_result bool * t :=
  match check_active x with Ok _ => (Ok true, push x shard (ArtDelete key)) | Err e => (Err e, x) | Panic => (Panic, x) | Timeout => (Timeout, x) end.

(** The buffer plays no part. *)
Definition scan (fuel : nat) (s : store) (x : t) (shard : Z) (range : KeyRange.t) : kv_result ArtKeyValueIterator.t := let! _ := check_active x in Store.scan fuel s shard range.

Definition apply_op (shard : Z) (w : ArtWriteOp) (s : store) : kv_result unit * store :=
  match w with
  | ArtPut key value => Store.put s shard key value
  | ArtDelete key => let '(r, s) := Store.delete s shard key in ((let! _ := r in Ok tt), s)
  end.

Fixpoint apply_ops (ws : list (Z * ArtWriteOp)) (s : store) : kv_result unit * store :=
  match ws with
  | [] => (Ok tt, s)
  | (shard, w) :: ws => match apply_op shard w s with (Ok _, s) => apply_ops ws s | (r, s) => (r, s) end
  end.

(** [visit]: the bindings in the order the map is visited. *)
Definition apply_writes (visit : gmap Z (list ArtWriteOp) -> list (Z * list ArtWriteOp)) (x : t) (s : store) : kv_result unit * store :=
  apply_ops (visit (write_buffer x) ≫= fun b => (fun w => (b.1, w)) <$> b.2) s.

Definition commit (visit : gmap Z (list ArtWriteOp) -> list (Z * list ArtWriteOp)) (x : t) (s : store) : kv_result unit * t * store :=
  match check_active x with
  | Ok _ => match apply_writes visit x s with
            | (Ok _, s) => (Ok tt, mk (id x) (snapshot_ts x) (write_buffer x) true (rolled_back x), s)
            | (r, s) => (r, x, s)
            end
  | r => (r, x, s)
  end.

Definition rollback (x : t) : kv_result unit * t :=
  match check_active x with Ok _ => (Ok tt, mk (id x) (snapshot_ts x) ∅ (committed x) true) | r => (r, x) end.
End transaction.
End ArtTransaction.
