(* ===== verification/ArtStoreSpec.v ===== *)
(** * When the radix tree store comes back from its log

    The store logs an operation and then changes the tree.  As long as every
    insertion succeeds, a restart gives the very tree of the shard; an insertion
    that fails stays in the log, where it makes every later recovery fail. *)

From Stdlib Require Import ZArith Lia.
From stdpp Require Import gmap option strings pretty base list.
From S2P Require Import Prelude BTreeError VfsFile Integrity Wal WalSpec LsmRecord KvtRange Art TreeStore TreeStoreSpec ArtStore ArtNode ArtChildren ArtSpec ArtMap.

Open Scope Z_scope.
Import ArtKeyValueStore.

(** What an operation does to the tree. *)
Definition drop_result {A S} (r : kv_result A * S) : kv_result unit * S := ((let! _ := r.1 in Ok tt), r.2).

Definition change (o : StoreOp) (x : LockedTree) : kv_result unit * LockedTree :=
  match o with
  | SPut k v => LoggedStore.insert_one k v x
  | SDelete k => drop_result (LoggedStore.remove_one k x)
  | SBatchPut ps => LoggedStore.insert_all ps x
  | SBatchDelete ks => drop_result (LoggedStore.remove_all ks 0 x)
  | SClear => let '(r, x) := tree_clear x in (LoggedStore.map_err tree_kv_error r, x)
  | SCheckpoint => (Ok tt, x)
  end.

(** The operation took place as recovery will repeat it.  A deletion that fails
    with an error does nothing, and does nothing when it is repeated. *)
Definition took (o : StoreOp) (r : kv_result unit) : bool :=
  match r, o with
  | Ok _, _ => true
  | Err _, SDelete _ => true
  | _, _ => false
  end.

(** A batch of deletions that stops at an error is not covered. *)
Definition settled (o : StoreOp) (r : kv_result unit) : bool := match r, o with Err _, SBatchDelete _ => false | _, _ => true end.

Definition failed {A} (r : kv_result A) : Prop := forall a, r <> Ok a.

(** ** Changes and their repetition *)

Lemma insert_one_replay k v x : poisoned x = false ->
  match LoggedStore.insert_one k v x with
  | (Ok _, x') => replay_op (TPut k v) x = (Ok tt, x') /\ poisoned x' = false
  | (r, _) => failed (replay_op (TPut k v) x).1
  end.
Proof.
  intros Hp. unfold LoggedStore.insert_one. cbn [replay_op tree_get tree_insert art_tree]. rewrite Hp, get_val. cbn [LoggedStore.map_err].
  destruct (AdaptiveRadixTree.insert (content x) k v) as [[old|e| |] t]; cbn; done.
Qed.

Lemma insert_all_replays ps : forall x, poisoned x = false ->
  match LoggedStore.insert_all ps x with
  | (Ok _, x') => replay ((fun kv => TPut kv.1 kv.2) <$> ps) x = (Ok tt, x') /\ poisoned x' = false
  | (r, _) => failed (replay ((fun kv => TPut kv.1 kv.2) <$> ps) x).1
  end.
Proof.
  induction ps as [|kv ps IH]; intros x Hp; [done|]. cbn [LoggedStore.insert_all fmap list_fmap replay]. pose proof (insert_one_replay kv.1 kv.2 x Hp) as Hone.
  destruct (LoggedStore.insert_one kv.1 kv.2 x) as [[[]|e| |] x'].
  1: { destruct Hone as [-> Hp']. apply IH, Hp'. }
  all: destruct (replay_op (TPut kv.1 kv.2) x) as [[u| | |] y]; [by destruct (Hone u)|done..].
Qed.

Lemma remove_one_replay k x : poisoned x = false ->
  match LoggedStore.remove_one k x with
  | (Ok _, x') | (Err _, x') => replay_op (TDelete k) x = (Ok tt, x') /\ poisoned x' = false
  | (r, _) => failed (replay_op (TDelete k) x).1
  end.
Proof.
  intros Hp. unfold LoggedStore.remove_one. cbn [replay_op tree_remove art_tree]. rewrite Hp.
  destruct (AdaptiveRadixTree.remove (content x) k) as [[old|e| |] t]; cbn; done.
Qed.

Lemma remove_all_replays ks : forall n x, poisoned x = false ->
  match LoggedStore.remove_all ks n x with
  | (Ok _, x') => replay (TDelete <$> ks) x = (Ok tt, x') /\ poisoned x' = false
  | (Err _, _) => True
  | (r, _) => failed (replay (TDelete <$> ks) x).1
  end.
Proof.
  induction ks as [|k ks IH]; intros n x Hp; [done|]. cbn [LoggedStore.remove_all fmap list_fmap replay]. pose proof (remove_one_replay k x Hp) as Hone.
  destruct (LoggedStore.remove_one k x) as [[b|e| |] x'].
  1: { destruct Hone as [-> Hp']. apply IH, Hp'. }
  1: done.
  all: destruct (replay_op (TDelete k) x) as [[u| | |] y]; [by destruct (Hone u)|done..].
Qed.

Lemma change_replay o x : poisoned x = false -> settled o (change o x).1 = true ->
  if took o (change o x).1 then replay (records o) x = (Ok tt, (change o x).2) /\ poisoned (change o x).2 = false else failed (replay (records o) x).1.
Proof.
  intros Hp Hset. destruct o as [k v|k|ps|ks| |]; cbn [change records] in *.
  - pose proof (insert_one_replay k v x Hp) as H1. cbn [replay]. destruct (LoggedStore.insert_one k v x) as [[[]|e| |] x']; cbn [fst snd took] in *.
    1: by destruct H1 as [-> ?].
    all: destruct (replay_op (TPut k v) x) as [[u| | |] y]; [by destruct (H1 u)|done..].
  - pose proof (remove_one_replay k x Hp) as H1. cbn [replay]. destruct (LoggedStore.remove_one k x) as [[b|e| |] x']; cbn [drop_result rbind fst snd took] in *.
    1-2: by destruct H1 as [-> ?].
    all: destruct (replay_op (TDelete k) x) as [[u| | |] y]; [by destruct (H1 u)|done..].
  - pose proof (insert_all_replays ps x Hp) as H1. destruct (LoggedStore.insert_all ps x) as [[[]|e| |] x']; done.
  - pose proof (remove_all_replays ks 0 x Hp) as H1. destruct (LoggedStore.remove_all ks 0 x) as [[b|e| |] x']; done.
  - cbn [tree_clear art_tree replay replay_op]. rewrite Hp. done.
  - done.
Qed.

(** ** Stores *)

Section store.
Context `{!Integrity.Hashes} `{!Integrity.HashLaws} {FS F : Type} `{!File F} `{!FileLaws F} `{!WriteAheadLogManager.FileSystemOps FS F}.
Context (segment_path : string -> Z -> string).
Abbreviation store := (ArtKeyValueStore.t FS F).
Implicit Types (s : store) (o : StoreOp).

Definition art_run s (shard : Z) o : kv_result unit * store :=
  match o with
  | SPut k v => put s shard k v
  | SDelete k => drop_result (delete s shard k)
  | SBatchPut ps => batch_put s shard ps
  | SBatchDelete ks => drop_result (batch_delete s shard ks)
  | SClear => clear s shard
  | SCheckpoint => checkpoint_shard s shard
  end.

(** The log has room for the operation. *)
Definition art_fits s (shard : Z) o : Prop := forall d, shards s !! shard = Some d -> Forall tree_op_ok (records o) /\ shard_end d + records_size (records o) < 2 ^ 64.

#[global] Instance art_fits_dec s shard o : Decision (art_fits s shard o).
Proof.
  unfold art_fits. destruct (shards s !! shard) as [d|]; [|by left].
  destruct (decide (Forall tree_op_ok (records o) /\ shard_end d + records_size (records o) < 2 ^ 64)) as [H'|H'].
  - left. by intros d' [= <-].
  - right. intros Hn. by apply H', Hn.
Defined.

(** The log of the shard holds [ops]. *)
Definition has_log s (shard : Z) (d : LoggedStore.ShardData LockedTree FS F) (ops : list TreeOp) : Prop :=
  wal_enabled s = true /\ shards s !! shard = Some d /\ exists lm, LoggedStore.wal d = Some lm /\ log_of lm ops.

Lemma change_logged {A B} (f : A -> TreeOp) (l : list A) (g : LockedTree -> kv_result B * LockedTree) s shard d ops : has_log s shard d ops -> Forall tree_op_ok (f <$> l) -> shard_end d + records_size (f <$> l) < 2 ^ 64 ->
  exists s' d', lift s (LoggedStore.after (LoggedStore.write_all (fun sh a => LoggedStore.wal_write (wal_enabled s) Buffered (tree_kind (f a)) (tree_payload (f a)) sh shard) l (shards s))
      (fun _ sh => LoggedStore.on_tree sh shard g)) = ((g (LoggedStore.tree d)).1, s') /\ has_log s' shard d' (ops ++ (f <$> l)) /\ LoggedStore.tree d' = (g (LoggedStore.tree d)).2.
Proof using All.
  intros (Hw & Hd & lm & Hlm & Hlog) Hok Hroom. unfold shard_end in Hroom. rewrite Hlm in Hroom. rewrite Hw.
  destruct (logged_change f Buffered l g (shards s) shard d lm ops Hd Hlm Hlog Hok Hroom) as (m' & -> & Hlog'). eexists _, (LoggedStore.with_tree (LoggedStore.with_wal d m') (g (LoggedStore.tree d)).2). split; [reflexivity|]. split; [|done].
  split; [done|]. split; [apply lookup_insert_eq|]. by exists m'.
Qed.

(** Whatever comes of it, an operation changes the tree after its records are in
    the log. *)
Lemma art_run_log s shard d ops o : has_log s shard d ops -> Forall tree_op_ok (records o) -> shard_end d + records_size (records o) < 2 ^ 64 ->
  exists s' d', art_run s shard o = ((change o (LoggedStore.tree d)).1, s') /\ has_log s' shard d' (ops ++ records o) /\ LoggedStore.tree d' = (change o (LoggedStore.tree d)).2.
Proof using All.
  intros Hs Hok Hroom. destruct o as [k v|k|ps|ks| |]; cbn [art_run records] in *.
  - destruct (change_logged (fun kv : list Z * list Z => TPut kv.1 kv.2) [(k, v)] (LoggedStore.insert_one k v) s shard d ops Hs Hok Hroom) as (s' & d' & Hrun & Hlog & Htr). exists s', d'. split; [|done].
    etransitivity; [|exact Hrun]. apply (f_equal (lift s)). exact (after_one (fun sh (kv : list Z * list Z) => LoggedStore.wal_write (wal_enabled s) Buffered TreeRecord.Put (TreeRecord.encode_put kv.1 kv.2) sh shard) (k, v) (shards s) _).
  - destruct (change_logged TDelete [k] (LoggedStore.remove_one k) s shard d ops Hs Hok Hroom) as (s' & d' & Hrun & Hlog & Htr). exists s', d'. split; [|done].
    unfold delete, LoggedStore.delete, LoggedStore.wal_write_delete. rewrite (after_one (fun sh (k : list Z) => LoggedStore.wal_write (wal_enabled s) Buffered TreeRecord.Delete (TreeRecord.encode_delete k) sh shard) k (shards s) _).
    cbn [tree_kind tree_payload] in Hrun. by rewrite Hrun.
  - exact (change_logged (fun kv : list Z * list Z => TPut kv.1 kv.2) ps (LoggedStore.insert_all ps) s shard d ops Hs Hok Hroom).
  - destruct (change_logged TDelete ks (LoggedStore.remove_all ks 0) s shard d ops Hs Hok Hroom) as (s' & d' & Hrun & Hlog & Htr). exists s', d'. split; [|done].
    unfold batch_delete, LoggedStore.batch_delete, LoggedStore.wal_write_delete. cbn [tree_kind tree_payload] in Hrun. by rewrite Hrun.
  - destruct (change_logged (fun _ : unit => TClear) [tt] (change SClear) s shard d ops Hs Hok Hroom) as (s' & d' & Hrun & Hlog & Htr). exists s', d'. split; [|done].
    unfold clear, LoggedStore.get_tree, LoggedStore.get_shard. destruct Hs as (Hw & Hd & _). rewrite Hd. cbn [ok_or rbind].
    etransitivity; [|exact Hrun]. apply (f_equal (lift s)). exact (after_one (fun sh (_ : unit) => LoggedStore.wal_write (wal_enabled s) Buffered TreeRecord.Clear TreeRecord.encode_clear sh shard) tt (shards s) _).
  - destruct Hs as (Hw & Hd & lm & Hlm & Hlog). unfold shard_end in Hroom. rewrite Hlm in Hroom. apply Forall_cons in Hok as [Hok _].
    destruct (log_shard_one TCheckpoint Sync "Checkpoint write failed: " shard (shards s) d lm ops Hlm Hlog Hok Hroom) as (lm' & Hrun & Hlog').
    eexists _, (LoggedStore.with_wal d lm'). unfold checkpoint_shard, LoggedStore.checkpoint_shard, LoggedStore.get_shard. rewrite Hd, Hw. cbn [ok_or tree_kind tree_payload] in *. rewrite Hrun. split; [reflexivity|]. split; [|done].
    split; [done|]. split; [apply lookup_insert_eq|]. by exists lm'.
Qed.

(** The stores that operations on one shard reach, and whether every operation
    took place. *)
Inductive art_reaches (shard : Z) : store -> bool -> Prop :=
| art_new tx fs now r s : empty_fs segment_path fs ("/wal_" +:+ pretty (Z.to_N shard)) -> 0 <= now < 2 ^ 64 -> create_shard segment_path fs now (with_wal tx) shard = (r, s) -> art_reaches shard s true
| art_step s b o r s' : art_reaches shard s b -> art_fits s shard o -> art_run s shard o = (r, s') -> settled o r = true -> art_reaches shard s' (b && took o r).

(** The log makes the tree, or cannot be replayed. *)
Definition art_ok (b : bool) (x : LockedTree) (ops : list TreeOp) : Prop :=
  if b then replay ops (Locked AdaptiveRadixTree.new false) = (Ok tt, x) /\ poisoned x = false else failed (replay ops (Locked AdaptiveRadixTree.new false)).1.

Lemma art_ok_step b x ops o : art_ok b x ops -> settled o (change o x).1 = true -> art_ok (b && took o (change o x).1) (change o x).2 (ops ++ records o).
Proof.
  unfold art_ok. destruct b; cbn [andb]; rewrite replay_app.
  - intros [-> Hp] Hset. exact (change_replay o x Hp Hset).
  - intros Hf _. destruct (replay ops _) as [[u| | |] y]; [by destruct (Hf u)|done..].
Qed.

Lemma art_reaches_ok shard s b : 0 <= shard < 2 ^ 128 -> art_reaches shard s b -> exists d ops, has_log s shard d ops /\ art_ok b (LoggedStore.tree d) ops.
Proof using All.
  intros Hid Hr. induction Hr as [tx fs now r s Hfs Hnow Hc|s b o r s' _ (d & ops & Hs & Hok) Hfit Hrun Hset].
  - unfold create_shard in Hc. destruct (open_wal_new segment_path "Failed to create WAL: " fs now _ shard Hfs Hnow Hid) as (lm & Hopen & Hlog & _).
    change (wal_enabled (with_wal tx)) with true in Hc. rewrite Hopen in Hc. unfold add_shard, recover_from_wal, LoggedStore.recover_from_wal, LoggedStore.get_shard in Hc.
    cbn [take_ref with_shards wal_enabled shards with_wal] in Hc. rewrite lookup_insert_eq in Hc. cbn [ok_or LoggedStore.wal] in Hc. rewrite (recover_log_replay lm [] _ Hlog) in Hc. injection Hc as <- <-.
    exists (LoggedStore.Shard 0 (Locked AdaptiveRadixTree.new false) (Some lm) None), []. split; [|done]. split; [done|]. split; [apply lookup_insert_eq|]. by exists lm.
  - destruct (Hfit d) as [Hro Hroom]; [apply Hs|]. destruct (art_run_log s shard d ops o Hs Hro Hroom) as (s1 & d1 & Hrun1 & Hs1 & Htr1). rewrite Hrun1 in Hrun. injection Hrun as <- <-.
    exists d1, (ops ++ records o). split; [done|]. rewrite Htr1. by apply art_ok_step.
Qed.

(** C20. The store over the radix tree, with its log on, comes back from a
    restart exactly as long as every operation took place: after any sequence
    of puts, deletes, batches, clears and checkpoints on a shard made in an
    empty file system, replaying the log gives the very tree of the shard when
    no operation failed, and fails for good once one did: a put of the empty
    key, which returns an error, or of a key that ends inside a compressed
    path, which panics.  Deletions that return an error do no harm; a batch of
    deletions that stops at one is not covered. *)
Theorem art_store_restart shard s b : 0 <= shard < 2 ^ 128 -> art_reaches shard s b ->
  exists d, shards s !! shard = Some d /\
    (b = true -> restart_tree d (Locked AdaptiveRadixTree.new false) = (Ok tt, LoggedStore.tree d)) /\
    (b = false -> failed (restart_tree d (Locked AdaptiveRadixTree.new false)).1).
Proof using All.
  intros Hid Hr. destruct (art_reaches_ok shard s b Hid Hr) as (d & ops & (_ & Hd & lm & Hlm & Hlog) & Hok). exists d. split; [done|]. rewrite (restart_replay d lm ops _ Hlm Hlog).
  split; intros ->; apply Hok.
Qed.
End store.

(** ** A store of one shard *)

Module ArtStoreDemo.
Import PolyHash.
#[local] Existing Instances poly_hashes poly_laws.

(** A file system that holds nothing and creates empty files. *)
#[local] Instance blank_fs : WriteAheadLogManager.FileSystemOps unit MemoryFile.t := {|
  WriteAheadLogManager.fs_exists _ _ := Ok false;
  WriteAheadLogManager.fs_create_directory_all fs _ := (Ok tt, fs);
  WriteAheadLogManager.fs_open_file _ _ := Err PathMissing;
  WriteAheadLogManager.fs_create_file fs p := (Ok (MemoryFile.new p), fs);
  WriteAheadLogManager.fs_remove_file fs _ := (Ok tt, fs)
|}.

Definition segment (dir : string) (_ : Z) : string := dir +:+ "/segment".
Abbreviation store := (ArtKeyValueStore.t unit MemoryFile.t).

Definition s0 : store := (create_shard segment tt 1700 (with_wal 1) 7).2.
Definition s1 : store := (art_run s0 7 (SBatchPut [([1; 2], [12]); ([1; 3], [13])])).2.
Definition s2 : store := (art_run s1 7 (SDelete [1; 3])).2.
Definition s3 : store := (art_run s2 7 (SPut [] [0])).2.
Definition s4 : store := (art_run s3 7 (SPut [7] [70])).2.

Lemma art_s0_fits : art_fits s0 7 (SBatchPut [([1; 2], [12]); ([1; 3], [13])]).
Proof. apply (bool_decide_unpack _). vm_compute. exact I. Qed.
Lemma art_s1_fits : art_fits s1 7 (SDelete [1; 3]).
Proof. apply (bool_decide_unpack _). vm_compute. exact I. Qed.
Lemma art_s2_fits : art_fits s2 7 (SPut [] [0]).
Proof. apply (bool_decide_unpack _). vm_compute. exact I. Qed.
Lemma art_s3_fits : art_fits s3 7 (SPut [7] [70]).
Proof. apply (bool_decide_unpack _). vm_compute. exact I. Qed.

Lemma s2_reached : art_reaches segment 7 s2 true.
Proof.
  refine (art_step segment 7 s1 true (SDelete [1; 3]) (Ok tt) s2 _ art_s1_fits _ _); [|by vm_compute|done].
  refine (art_step segment 7 s0 true (SBatchPut [([1; 2], [12]); ([1; 3], [13])]) (Ok tt) s1 _ art_s0_fits _ _); [|by vm_compute|done].
  apply (art_new segment 7 1 tt 1700 (create_shard segment tt 1700 (with_wal 1) 7).1 s0); [|lia|exact (surjective_pairing _)]. split; [done|]. exists tt. split_and!; [done..|]. by eexists _, tt.
Qed.

Lemma s4_reached : art_reaches segment 7 s4 false.
Proof.
  refine (art_step segment 7 s3 false (SPut [7] [70]) (Ok tt) s4 _ art_s3_fits _ _); [|by vm_compute|done].
  refine (art_step segment 7 s2 true (SPut [] [0]) (art_run s2 7 (SPut [] [0])).1 s3 s2_reached art_s2_fits (surjective_pairing _) _). by vm_compute.
Qed.

(** With [s2] a restart gives the tree; after the put of the empty key, which is
    in [s4], it fails, although the store itself still works. *)
Lemma art_store_restart_witness :
  (exists d, shards s2 !! 7 = Some d /\ restart_tree d (Locked AdaptiveRadixTree.new false) = (Ok tt, LoggedStore.tree d)) /\
  (exists d, shards s4 !! 7 = Some d /\ failed (restart_tree d (Locked AdaptiveRadixTree.new false)).1) /\
  get s2 7 [1; 2] = Ok (Some [12]) /\ get s4 7 [7] = Ok (Some [70]).
Proof.
  destruct (art_store_restart segment 7 s2 true ltac:(lia) s2_reached) as (d & Hd & Hok & _). destruct (art_store_restart segment 7 s4 false ltac:(lia) s4_reached) as (d' & Hd' & _ & Hbad).
  split_and!; [exists d; auto|exists d'; auto|by vm_compute..].
Defined.

(** A batch of deletions is logged as a whole and stops at its first error: a
    restart deletes what the store has not deleted. *)
Definition s5 : store := (art_run s1 7 (SBatchDelete [[]; [1; 2]])).2.

Lemma batch_delete_diverges : get s5 7 [1; 2] = Ok (Some [12]) /\
  exists d, shards s5 !! 7 = Some d /\ (let '(r, x) := restart_tree d (Locked AdaptiveRadixTree.new false) in r = Ok tt /\ tree_get x [1; 2] = Ok None).
Proof. split; [by vm_compute|]. eexists. split; [by vm_compute|]. by vm_compute. Qed.
End ArtStoreDemo.
