(* ===== verification/KvmCache.v ===== *)
(** * Metadata caches

    Models nanograph-util/src/cache.rs and nanograph-kvm/src/cache/system.rs.

    A [CacheMap] is a map whose entries carry the instant they were last
    touched; the instant of an operation is an argument.  A [HashMap] is visited
    in an unspecified order, here that of [map_to_list]. *)

From Stdlib Require Import ZArith Lia.
From stdpp Require Import option strings base gmap list.
From S2P Require Import Prelude Objects Security.

Open Scope Z_scope.

Module CacheMap.

Record t (K V : Type) `{Countable K} : Type := mk { map : gmap K (Z * V); ttl : Z }.
Arguments mk {K V _ _} _ _.
Arguments map {K V _ _} _.
Arguments ttl {K V _ _} _.

Section cache.
Context {K V : Type} `{Countable K}.
Implicit Types (m : t K V) (k : K) (v : V) (now : Z).

Definition new (ttl : Z) : t K V := mk ∅ ttl.
Definition with_map m (g : gmap K (Z * V)) : t K V := mk g (ttl m).

Definition peek m k : option V := snd <$> map m !! k.

(** [get] touches the entry through a shared reference. *)
Definition get now m k : option V * t K V :=
  match map m !! k with
  | Some (_, v) => (Some v, with_map m (<[k := (now, v)]> (map m)))
  | None => (None, m)
  end.

(** [get_mut], with what the caller does to the value. *)
Definition modify now m k (f : V -> V) : t K V :=
  match map m !! k with
  | Some (_, v) => with_map m (<[k := (now, f v)]> (map m))
  | None => m
  end.

(** [entry(k).or_insert(d)], with what the caller does to the value. *)
Definition or_insert now m k (d : V) (f : V -> V) : t K V :=
  match map m !! k with
  | Some (_, v) => with_map m (<[k := (now, f v)]> (map m))
  | None => with_map m (<[k := (now, f d)]> (map m))
  end.

Definition insert now m k v : option V * t K V := (peek m k, with_map m (<[k := (now, v)]> (map m))).
Definition remove m k : option V * t K V := (peek m k, with_map m (delete k (map m))).
Definition contains_key m k : bool := bool_decide (is_Some (map m !! k)).
Definition len m : nat := size (map m).
Definition is_empty m : bool := (len m =? 0)%nat.
Definition iter m : list (K * V) := (fun p => (p.1, p.2.2)) <$> map_to_list (map m).
Definition values m : list V := (iter m).*2.
Definition clear m : t K V := with_map m ∅.

(** [duration_since] is zero for an instant in the future. *)
Definition prune now m : t K V := with_map m (filter (fun p => Z.max 0 (now - p.2.1) < ttl m) (map m)).
End cache.
End CacheMap.

Module SystemMetadataCache.

Record t : Type := mk {
  node_id : Z;
  shard_id : Z;
  cache_ttl : Z;
  cluster : option ClusterRecord;
  regions : CacheMap.t Z RegionRecord;
  servers : CacheMap.t Z ServerRecord;
  tenants : CacheMap.t Z TenantRecord;
  databases : CacheMap.t Z DatabaseRecord;
  tablespaces : CacheMap.t Z TablespaceRecord;
  system_users : CacheMap.t Z SystemUserRecord;
  system_roles : CacheMap.t Z SystemRoleRecord;
  system_groups : CacheMap.t Z GroupRecord;
  tenant_users : CacheMap.t Z (CacheMap.t Z TenantUserRecord);
  tenant_roles : CacheMap.t Z (CacheMap.t Z TenantRoleRecord);
  tenant_groups : CacheMap.t Z (CacheMap.t Z GroupRecord);
  username_index : CacheMap.t string Z;
  tablespace_index : CacheMap.t string Z;
  system_role_index : CacheMap.t string Z;
  system_group_index : CacheMap.t string Z;
  tenant_index : CacheMap.t string Z;
  tenant_role_index : CacheMap.t string Z;
  tenant_group_index : CacheMap.t string Z;
  database_index : CacheMap.t Z (CacheMap.t string Z);
  root_namespace_index : CacheMap.t Z Z }.

Definition with_cluster (c : t) (x : option ClusterRecord) : t :=
  mk (node_id c) (shard_id c) (cache_ttl c) x (regions c) (servers c) (tenants c) (databases c) (tablespaces c) (system_users c) (system_roles c) (system_groups c) (tenant_users c) (tenant_roles c) (tenant_groups c) (username_index c) (tablespace_index c) (system_role_index c) (system_group_index c) (tenant_index c) (tenant_role_index c) (tenant_group_index c) (database_index c) (root_namespace_index c).
Definition with_regions (c : t) (x : CacheMap.t Z RegionRecord) : t :=
  mk (node_id c) (shard_id c) (cache_ttl c) (cluster c) x (servers c) (tenants c) (databases c) (tablespaces c) (system_users c) (system_roles c) (system_groups c) (tenant_users c) (tenant_roles c) (tenant_groups c) (username_index c) (tablespace_index c) (system_role_index c) (system_group_index c) (tenant_index c) (tenant_role_index c) (tenant_group_index c) (database_index c) (root_namespace_index c).
Definition with_servers (c : t) (x : CacheMap.t Z ServerRecord) : t :=
  mk (node_id c) (shard_id c) (cache_ttl c) (cluster c) (regions c) x (tenants c) (databases c) (tablespaces c) (system_users c) (system_roles c) (system_groups c) (tenant_users c) (tenant_roles c) (tenant_groups c) (username_index c) (tablespace_index c) (system_role_index c) (system_group_index c) (tenant_index c) (tenant_role_index c) (tenant_group_index c) (database_index c) (root_namespace_index c).
Definition with_tenants (c : t) (x : CacheMap.t Z TenantRecord) : t :=
  mk (node_id c) (shard_id c) (cache_ttl c) (cluster c) (regions c) (servers c) x (databases c) (tablespaces c) (system_users c) (system_roles c) (system_groups c) (tenant_users c) (tenant_roles c) (tenant_groups c) (username_index c) (tablespace_index c) (system_role_index c) (system_group_index c) (tenant_index c) (tenant_role_index c) (tenant_group_index c) (database_index c) (root_namespace_index c).
Definition with_databases (c : t) (x : CacheMap.t Z DatabaseRecord) : t :=
  mk (node_id c) (shard_id c) (cache_ttl c) (cluster c) (regions c) (servers c) (tenants c) x (tablespaces c) (system_users c) (system_roles c) (system_groups c) (tenant_users c) (tenant_roles c) (tenant_groups c) (username_index c) (tablespace_index c) (system_role_index c) (system_group_index c) (tenant_index c) (tenant_role_index c) (tenant_group_index c) (database_index c) (root_namespace_index c).
Definition with_tablespaces (c : t) (x : CacheMap.t Z TablespaceRecord) : t :=
  mk (node_id c) (shard_id c) (cache_ttl c) (cluster c) (regions c) (servers c) (tenants c) (databases c) x (system_users c) (system_roles c) (system_groups c) (tenant_users c) (tenant_roles c) (tenant_groups c) (username_index c) (tablespace_index c) (system_role_index c) (system_group_index c) (tenant_index c) (tenant_role_index c) (tenant_group_index c) (database_index c) (root_namespace_index c).
Definition with_system_users (c : t) (x : CacheMap.t Z SystemUserRecord) : t :=
  mk (node_id c) (shard_id c) (cache_ttl c) (cluster c) (regions c) (servers c) (tenants c) (databases c) (tablespaces c) x (system_roles c) (system_groups c) (tenant_users c) (tenant_roles c) (tenant_groups c) (username_index c) (tablespace_index c) (system_role_index c) (system_group_index c) (tenant_index c) (tenant_role_index c) (tenant_group_index c) (database_index c) (root_namespace_index c).
Definition with_system_roles (c : t) (x : CacheMap.t Z SystemRoleRecord) : t :=
  mk (node_id c) (shard_id c) (cache_ttl c) (cluster c) (regions c) (servers c) (tenants c) (databases c) (tablespaces c) (system_users c) x (system_groups c) (tenant_users c) (tenant_roles c) (tenant_groups c) (username_index c) (tablespace_index c) (system_role_index c) (system_group_index c) (tenant_index c) (tenant_role_index c) (tenant_group_index c) (database_index c) (root_namespace_index c).
Definition with_system_groups (c : t) (x : CacheMap.t Z GroupRecord) : t :=
  mk (node_id c) (shard_id c) (cache_ttl c) (cluster c) (regions c) (servers c) (tenants c) (databases c) (tablespaces c) (system_users c) (system_roles c) x (tenant_users c) (tenant_roles c) (tenant_groups c) (username_index c) (tablespace_index c) (system_role_index c) (system_group_index c) (tenant_index c) (tenant_role_index c) (tenant_group_index c) (database_index c) (root_namespace_index c).
Definition with_tenant_users (c : t) (x : CacheMap.t Z (CacheMap.t Z TenantUserRecord)) : t :=
  mk (node_id c) (shard_id c) (cache_ttl c) (cluster c) (regions c) (servers c) (tenants c) (databases c) (tablespaces c) (system_users c) (system_roles c) (system_groups c) x (tenant_roles c) (tenant_groups c) (username_index c) (tablespace_index c) (system_role_index c) (system_group_index c) (tenant_index c) (tenant_role_index c) (tenant_group_index c) (database_index c) (root_namespace_index c).
Definition with_tenant_roles (c : t) (x : CacheMap.t Z (CacheMap.t Z TenantRoleRecord)) : t :=
  mk (node_id c) (shard_id c) (cache_ttl c) (cluster c) (regions c) (servers c) (tenants c) (databases c) (tablespaces c) (system_users c) (system_roles c) (system_groups c) (tenant_users c) x (tenant_groups c) (username_index c) (tablespace_index c) (system_role_index c) (system_group_index c) (tenant_index c) (tenant_role_index c) (tenant_group_index c) (database_index c) (root_namespace_index c).
Definition with_tenant_groups (c : t) (x : CacheMap.t Z (CacheMap.t Z GroupRecord)) : t :=
  mk (node_id c) (shard_id c) (cache_ttl c) (cluster c) (regions c) (servers c) (tenants c) (databases c) (tablespaces c) (system_users c) (system_roles c) (system_groups c) (tenant_users c) (tenant_roles c) x (username_index c) (tablespace_index c) (system_role_index c) (system_group_index c) (tenant_index c) (tenant_role_index c) (tenant_group_index c) (database_index c) (root_namespace_index c).
Definition with_username_index (c : t) (x : CacheMap.t string Z) : t :=
  mk (node_id c) (shard_id c) (cache_ttl c) (cluster c) (regions c) (servers c) (tenants c) (databases c) (tablespaces c) (system_users c) (system_roles c) (system_groups c) (tenant_users c) (tenant_roles c) (tenant_groups c) x (tablespace_index c) (system_role_index c) (system_group_index c) (tenant_index c) (tenant_role_index c) (tenant_group_index c) (database_index c) (root_namespace_index c).
Definition with_tablespace_index (c : t) (x : CacheMap.t string Z) : t :=
  mk (node_id c) (shard_id c) (cache_ttl c) (cluster c) (regions c) (servers c) (tenants c) (databases c) (tablespaces c) (system_users c) (system_roles c) (system_groups c) (tenant_users c) (tenant_roles c) (tenant_groups c) (username_index c) x (system_role_index c) (system_group_index c) (tenant_index c) (tenant_role_index c) (tenant_group_index c) (database_index c) (root_namespace_index c).
Definition with_tenant_index (c : t) (x : CacheMap.t string Z) : t :=
  mk (node_id c) (shard_id c) (cache_ttl c) (cluster c) (regions c) (servers c) (tenants c) (databases c) (tablespaces c) (system_users c) (system_roles c) (system_groups c) (tenant_users c) (tenant_roles c) (tenant_groups c) (username_index c) (tablespace_index c) (system_role_index c) (system_group_index c) x (tenant_role_index c) (tenant_group_index c) (database_index c) (root_namespace_index c).

Definition new (node_id shard_id cache_ttl : Z) : t :=
  mk node_id shard_id cache_ttl None (CacheMap.new cache_ttl) (CacheMap.new cache_ttl) (CacheMap.new cache_ttl) (CacheMap.new cache_ttl) (CacheMap.new cache_ttl) (CacheMap.new cache_ttl) (CacheMap.new cache_ttl) (CacheMap.new cache_ttl) (CacheMap.new cache_ttl) (CacheMap.new cache_ttl) (CacheMap.new cache_ttl) (CacheMap.new cache_ttl) (CacheMap.new cache_ttl) (CacheMap.new cache_ttl) (CacheMap.new cache_ttl) (CacheMap.new cache_ttl) (CacheMap.new cache_ttl) (CacheMap.new cache_ttl) (CacheMap.new cache_ttl) (CacheMap.new cache_ttl).

(** *** The cluster *)
Definition get_cluster_record (c : t) : option ClusterRecord := cluster c.
Definition set_cluster_record (c : t) (r : ClusterRecord) : t := with_cluster c (Some r).
Definition clear_cluster_record (c : t) : t := with_cluster c None.

(** *** Records of the system; removing one leaves the name index alone *)
Definition list_region_records (c : t) : list RegionRecord := CacheMap.values (regions c).
Definition get_region_record (now : Z) (c : t) (id : Z) : option RegionRecord * t :=
  let (r, m) := CacheMap.get now (regions c) id in (r, with_regions c m).
Definition set_region_record (now : Z) (c : t) (r : RegionRecord) : t :=
  with_regions c (CacheMap.insert now (regions c) (rr_id r) r).2.
Definition clear_region_record (c : t) (id : Z) : t := with_regions c (CacheMap.remove (regions c) id).2.
Definition clear_region_records (c : t) : t := with_regions c (CacheMap.clear (regions c)).

Definition list_server_records (c : t) : list ServerRecord := CacheMap.values (servers c).
Definition get_server_record (now : Z) (c : t) (id : Z) : option ServerRecord * t :=
  let (r, m) := CacheMap.get now (servers c) id in (r, with_servers c m).
Definition set_server_record (now : Z) (c : t) (r : ServerRecord) : t :=
  with_servers c (CacheMap.insert now (servers c) (sr_id r) r).2.
Definition clear_server_record (c : t) (id : Z) : t := with_servers c (CacheMap.remove (servers c) id).2.
Definition clear_server_records (c : t) : t := with_servers c (CacheMap.clear (servers c)).

Definition list_tenant_records (c : t) : list TenantRecord := CacheMap.values (tenants c).
Definition get_tenant_record (now : Z) (c : t) (id : Z) : option TenantRecord * t :=
  let (r, m) := CacheMap.get now (tenants c) id in (r, with_tenants c m).
Definition set_tenant_record (now : Z) (c : t) (r : TenantRecord) : t :=
  let c := with_tenant_index c (CacheMap.insert now (tenant_index c) (tr_name r) (tr_id r)).2 in
  with_tenants c (CacheMap.insert now (tenants c) (tr_id r) r).2.
Definition clear_tenant_record (c : t) (id : Z) : t := with_tenants c (CacheMap.remove (tenants c) id).2.
Definition clear_tenant_records (c : t) : t := with_tenants c (CacheMap.clear (tenants c)).
Definition get_tenant_by_name (now : Z) (c : t) (name : string) : option TenantRecord * t :=
  let (id, m) := CacheMap.get now (tenant_index c) name in
  let c := with_tenant_index c m in
  match id with Some id => get_tenant_record now c id | None => (None, c) end.

Definition list_database_records (c : t) : list DatabaseRecord := CacheMap.values (databases c).
Definition get_database_record (now : Z) (c : t) (id : Z) : option DatabaseRecord * t :=
  let (r, m) := CacheMap.get now (databases c) id in (r, with_databases c m).
Definition set_database_record (now : Z) (c : t) (r : DatabaseRecord) : t :=
  with_databases c (CacheMap.insert now (databases c) (ContainerId.from_parts (dr_tenant r) (dr_id r)) r).2.
Definition clear_database_record (c : t) (id : Z) : t := with_databases c (CacheMap.remove (databases c) id).2.
Definition clear_database_records (c : t) : t := with_databases c (CacheMap.clear (databases c)).

Definition list_tablespace_records (c : t) : list TablespaceRecord := CacheMap.values (tablespaces c).
Definition get_tablespace_record (now : Z) (c : t) (id : Z) : option TablespaceRecord * t :=
  let (r, m) := CacheMap.get now (tablespaces c) id in (r, with_tablespaces c m).
Definition set_tablespace_record (now : Z) (c : t) (r : TablespaceRecord) : t :=
  let c := with_tablespace_index c (CacheMap.insert now (tablespace_index c) (lr_name r) (lr_id r)).2 in
  with_tablespaces c (CacheMap.insert now (tablespaces c) (lr_id r) r).2.
Definition clear_tablespace_record (c : t) (id : Z) : t := with_tablespaces c (CacheMap.remove (tablespaces c) id).2.
Definition clear_tablespace_records (c : t) : t := with_tablespaces c (CacheMap.clear (tablespaces c)).
Definition get_tablespace_by_name (now : Z) (c : t) (name : string) : option TablespaceRecord * t :=
  let (id, m) := CacheMap.get now (tablespace_index c) name in
  let c := with_tablespace_index c m in
  match id with Some id => get_tablespace_record now c id | None => (None, c) end.

Definition list_system_user_records (c : t) : list SystemUserRecord := CacheMap.values (system_users c).
Definition get_system_user_record (now : Z) (c : t) (id : Z) : option SystemUserRecord * t :=
  let (r, m) := CacheMap.get now (system_users c) id in (r, with_system_users c m).
Definition set_system_user_record (now : Z) (c : t) (r : SystemUserRecord) : t :=
  let c := with_username_index c (CacheMap.insert now (username_index c) (ur_username r) (ur_id r)).2 in
  with_system_users c (CacheMap.insert now (system_users c) (ur_id r) r).2.
Definition clear_system_user_record (c : t) (id : Z) : t := with_system_users c (CacheMap.remove (system_users c) id).2.
Definition clear_system_user_records (c : t) : t := with_system_users c (CacheMap.clear (system_users c)).
Definition get_system_user_by_name (now : Z) (c : t) (name : string) : option SystemUserRecord * t :=
  let (id, m) := CacheMap.get now (username_index c) name in
  let c := with_username_index c m in
  match id with Some id => get_system_user_record now c id | None => (None, c) end.

Definition list_system_role_records (c : t) : list SystemRoleRecord := CacheMap.values (system_roles c).
Definition get_system_role_record (now : Z) (c : t) (id : Z) : option SystemRoleRecord * t :=
  let (r, m) := CacheMap.get now (system_roles c) id in (r, with_system_roles c m).
Definition set_system_role_record (now : Z) (c : t) (r : SystemRoleRecord) : t :=
  with_system_roles c (CacheMap.insert now (system_roles c) (sro_id r) r).2.
Definition clear_system_role_record (c : t) (id : Z) : t := with_system_roles c (CacheMap.remove (system_roles c) id).2.
Definition clear_system_role_records (c : t) : t := with_system_roles c (CacheMap.clear (system_roles c)).

Definition list_system_group_records (c : t) : list GroupRecord := CacheMap.values (system_groups c).
Definition get_system_group_record (now : Z) (c : t) (id : Z) : option GroupRecord * t :=
  let (r, m) := CacheMap.get now (system_groups c) id in (r, with_system_groups c m).
Definition set_system_groups_record (now : Z) (c : t) (r : GroupRecord) : t :=
  with_system_groups c (CacheMap.insert now (system_groups c) (gr_id r) r).2.
Definition clear_system_group_record (c : t) (id : Z) : t := with_system_groups c (CacheMap.remove (system_groups c) id).2.
Definition clear_system_group_records (c : t) : t := with_system_groups c (CacheMap.clear (system_groups c)).

(** *** Records of tenants *)
Definition list_tenant_user_records (c : t) (tenant : Z) : list TenantUserRecord :=
  match CacheMap.peek (tenant_users c) tenant with Some m => CacheMap.values m | None => [] end.
Definition get_tenant_user_record (now : Z) (c : t) (tenant id : Z) : option TenantUserRecord * t :=
  let (inner, outer) := CacheMap.get now (tenant_users c) tenant in
  match inner with
  | None => (None, with_tenant_users c outer)
  | Some m => let (r, m) := CacheMap.get now m id in (r, with_tenant_users c (CacheMap.modify now outer tenant (fun _ => m)))
  end.
Definition set_tenant_user_record (now : Z) (c : t) (tenant : Z) (r : TenantUserRecord) : t :=
  with_tenant_users c (CacheMap.or_insert now (tenant_users c) tenant (CacheMap.new (cache_ttl c)) (fun m => (CacheMap.insert now m (vr_id r) r).2)).
Definition clear_tenant_user_record (now : Z) (c : t) (tenant id : Z) : t :=
  with_tenant_users c (CacheMap.modify now (tenant_users c) tenant (fun m => (CacheMap.remove m id).2)).
Definition clear_tenant_user_records (now : Z) (c : t) (tenant : Z) : t := with_tenant_users c (CacheMap.modify now (tenant_users c) tenant CacheMap.clear).

Definition list_tenant_role_records (c : t) (tenant : Z) : list TenantRoleRecord :=
  match CacheMap.peek (tenant_roles c) tenant with Some m => CacheMap.values m | None => [] end.
Definition get_tenant_role_record (now : Z) (c : t) (tenant id : Z) : option TenantRoleRecord * t :=
  let (inner, outer) := CacheMap.get now (tenant_roles c) tenant in
  match inner with
  | None => (None, with_tenant_roles c outer)
  | Some m => let (r, m) := CacheMap.get now m id in (r, with_tenant_roles c (CacheMap.modify now outer tenant (fun _ => m)))
  end.
Definition set_tenant_role_record (now : Z) (c : t) (r : TenantRoleRecord) : t :=
  with_tenant_roles c (CacheMap.modify now (tenant_roles c) (tro_tenant r) (fun m => (CacheMap.insert now m (tro_id r) r).2)).
Definition clear_tenant_role_record (now : Z) (c : t) (tenant id : Z) : t :=
  with_tenant_roles c (CacheMap.modify now (tenant_roles c) tenant (fun m => (CacheMap.remove m id).2)).
Definition clear_tenant_role_records (now : Z) (c : t) (tenant : Z) : t := with_tenant_roles c (CacheMap.modify now (tenant_roles c) tenant CacheMap.clear).

Definition list_tenant_group_records (c : t) (tenant : Z) : list GroupRecord :=
  match CacheMap.peek (tenant_groups c) tenant with Some m => CacheMap.values m | None => [] end.
Definition get_tenant_group_record (now : Z) (c : t) (tenant id : Z) : option GroupRecord * t :=
  let (inner, outer) := CacheMap.get now (tenant_groups c) tenant in
  match inner with
  | None => (None, with_tenant_groups c outer)
  | Some m => let (r, m) := CacheMap.get now m id in (r, with_tenant_groups c (CacheMap.modify now outer tenant (fun _ => m)))
  end.
Definition set_tenant_group_record (now : Z) (c : t) (tenant : Z) (r : GroupRecord) : t :=
  with_tenant_groups c (CacheMap.or_insert now (tenant_groups c) tenant (CacheMap.new (cache_ttl c)) (fun m => (CacheMap.insert now m (gr_id r) r).2)).
Definition clear_tenant_group_record (now : Z) (c : t) (tenant id : Z) : t :=
  with_tenant_groups c (CacheMap.modify now (tenant_groups c) tenant (fun m => (CacheMap.remove m id).2)).
Definition clear_tenant_group_records (now : Z) (c : t) (tenant : Z) : t := with_tenant_groups c (CacheMap.modify now (tenant_groups c) tenant CacheMap.clear).

End SystemMetadataCache.
