(* ===== verification/KvmContext.v ===== *)
(** * The database context

    Models the cluster, user, tenant, database and tablespace operations of
    nanograph-kvm/src/context.rs and the parts of nanograph-kvm/src/shardmgr.rs
    they reach.

    An operation acts on the state of the context: the shard manager with its
    engines, and the metadata cache.  Engines stand behind the trait
    [KeyValueShardStore] and serialization behind postcard, so both are
    parameters ([Engine], [Codec]).  The clock an operation reads is an
    argument.  The locks are held for the whole of each access, so an operation
    is a sequence of state changes; what other tasks do in between is a
    different sequence of operations. *)

From Stdlib Require Import ZArith Lia Ascii.
From stdpp Require Import option base gmap list strings.
From S2P Require Import Prelude Objects Security BTreeError KvmCache.

Open Scope Z_scope.

Abbreviation kv_result := (result KeyValueError).

(** ** Engines and serialization *)

(** [KeyValueShardStore], as far as the context uses it. *)
Class Engine (E : Type) : Type := {
  engine_get : E -> Z -> list Z -> kv_result (option (list Z)) * E;
  engine_put : E -> Z -> list Z -> list Z -> kv_result unit * E;
  engine_delete : E -> Z -> list Z -> kv_result bool * E;
  engine_drop_shard : E -> Z -> kv_result unit * E }.

(** [nanograph_util::serialize] and [deserialize]; an [io::Error] is [None]. *)
Class Codec (A : Type) : Type := { to_bytes : A -> option (list Z); from_bytes : list Z -> option A }.

Definition serialize {A} `{!Codec A} (x : A) : kv_result (list Z) := ok_or (to_bytes x) KvStdIoError.
Definition deserialize {A} `{!Codec A} (b : list Z) : kv_result A := ok_or (from_bytes b) KvStdIoError.

(** Addition of one in [w] bits, which panics on overflow. *)
Definition inc (w x : Z) : kv_result Z := if x + 1 <? 2 ^ w then Ok (x + 1) else Panic.

(** [ids.max().map(|id| id + 1).unwrap_or(0)]. *)
Definition next_id (ids : list Z) : kv_result Z := match ids with [] => Ok 0 | x :: l => inc 32 (foldr Z.max x l) end.

Definition dquote : string := String (ascii_of_nat 34) EmptyString.

Definition hex_digit (d : Z) : string :=
  String (ascii_of_nat (Z.to_nat (if d <? 10 then 48 + d else 55 + d))) EmptyString.

(** Upper-case hexadecimal without leading zeros. *)
Fixpoint hex (digits : nat) (x : Z) : string :=
  match digits with
  | O => EmptyString
  | S d => (if x <? 16 then EmptyString else hex d (x / 16)) +:+ hex_digit (x mod 16)
  end.

Definition display_user (id : Z) : string := "User(Subject(" +:+ hex 8 id +:+ "))".
Definition debug_user (id : Z) : string := "UserId(" +:+ debug_id "SubjectId" id +:+ ")".

(** ** Shards *)

Module KeyValueShardManager.

Record ShardState : Type := ShardStateMk { shard_id : Z; engine_type : string; replication_factor : Z }.

Record t (E : Type) : Type := mk { engines : gmap string E; shards : gmap Z ShardState }.
Arguments mk {E} _ _.
Arguments engines {E} _.
Arguments shards {E} _.

Definition debug_engine_type (name : string) : string := "StorageEngineType(" +:+ dquote +:+ name +:+ dquote +:+ ")".

Section manager.
Context {E : Type} `{!Engine E}.
Implicit Types (m : t E) (shard : Z).

Definition register_engine m (name : string) (e : E) : kv_result unit * t E :=
  match engines m !! name with
  | Some _ => (Err (KvInvalidValue ("Engine type " +:+ debug_engine_type name +:+ " already registered")), m)
  | None => (Ok tt, mk (<[name := e]> (engines m)) (shards m))
  end.

Definition get_engine_for_shard m shard : kv_result (string * E) :=
  let! s := ok_or (shards m !! shard) (KvInvalidKey ("Shard " +:+ debug_id "ShardId" shard +:+ " not found")) in
  let! e := ok_or (engines m !! engine_type s) (KvInvalidValue ("Engine type " +:+ debug_engine_type (engine_type s) +:+ " not registered")) in
  Ok (engine_type s, e).

(** A call of the engine of a shard. *)
Definition on_engine {A} m shard (f : E -> kv_result A * E) : kv_result A * t E :=
  match get_engine_for_shard m shard with
  | Ok (name, e) => let (r, e) := f e in (r, mk (<[name := e]> (engines m)) (shards m))
  | Err x => (Err x, m)
  | Panic => (Panic, m)
  | Timeout => (Timeout, m)
  end.

Definition get m shard (key : list Z) : kv_result (option (list Z)) * t E := on_engine m shard (fun e => engine_get e shard key).
Definition put m shard (key value : list Z) : kv_result unit * t E := on_engine m shard (fun e => engine_put e shard key value).
Definition delete m shard (key : list Z) : kv_result bool * t E := on_engine m shard (fun e => engine_delete e shard key).

Definition drop_shard m shard : kv_result unit * t E :=
  match on_engine m shard (fun e => engine_drop_shard e shard) with
  | (Ok _, m) => (Ok tt, mk (engines m) (base.delete shard (shards m)))
  | r => r
  end.

Definition shard_exists m shard : bool := bool_decide (is_Some (shards m !! shard)).
Definition list_shards m : list ShardState := (map_to_list (shards m)).*2.
End manager.
End KeyValueShardManager.

(** ** The context *)

Module KeyValueDatabaseContext.

Module SM := KeyValueShardManager.
Module Cache := SystemMetadataCache.

(** [container_metacaches] belongs to operations that are not modelled. *)
Record t (E : Type) : Type := mk { node_id : Z; shard_manager : SM.t E; system_metacache : Cache.t; raft_router : bool }.
Arguments mk {E} _ _ _ _.
Arguments node_id {E} _.
Arguments shard_manager {E} _.
Arguments system_metacache {E} _.
Arguments raft_router {E} _.

(** The readings of [Instant::now] and [Timestamp::now] during an operation. *)
Record Clock : Type := ClockMk { instant : Z; utc : Z }.

Section monad.
Context {E : Type}.

Definition ctx (A : Type) : Type := t E -> kv_result A * t E.

Definition ret {A} (a : A) : ctx A := fun c => (Ok a, c).
Definition fail {A} (e : KeyValueError) : ctx A := fun c => (Err e, c).
Definition lift {A} (r : kv_result A) : ctx A := fun c => (r, c).

Definition bind {A B} (m : ctx A) (k : A -> ctx B) : ctx B := fun c =>
  match m c with
  | (Ok a, c) => k a c
  | (Err e, c) => (Err e, c)
  | (Panic, c) => (Panic, c)
  | (Timeout, c) => (Timeout, c)
  end.

(** An access to the cache, under its lock. *)
Definition cache {A} (f : Cache.t -> A * Cache.t) : ctx A := fun c =>
  let (a, m) := f (system_metacache c) in (Ok a, mk (node_id c) (shard_manager c) m (raft_router c)).
Definition update_cache (f : Cache.t -> Cache.t) : ctx unit := cache (fun m => (tt, f m)).
Definition read_cache {A} (f : Cache.t -> A) : ctx A := cache (fun m => (f m, m)).

(** An access to the shards, under their lock. *)
Definition shard {A} (f : SM.t E -> kv_result A * SM.t E) : ctx A := fun c =>
  let (r, m) := f (shard_manager c) in (r, mk (node_id c) m (system_metacache c) (raft_router c)).

(** The check at the head of an operation. *)
Definition check (allowed : bool) (p : SecurityPrincipal.t) (perm : Permission) (resource : ResourceScope) : ctx unit :=
  if allowed then ret tt else fail (KvPermissionDenied (SecurityPrincipal.user_id p) perm resource).
End monad.
Arguments ctx : clear implicits.

#[local] Notation "x <~ m ;; k" := (bind m (fun x => k)) (at level 100, m at next level, right associativity).
#[local] Notation "m >>> k" := (bind m (fun _ => k)) (at level 100, right associativity).

Section context.
Context {E : Type} `{!Engine E}.
Context `{!Codec ClusterRecord, !Codec ClusterMetadata, !Codec RegionRecord, !Codec ServerRecord, !Codec TenantRecord,
          !Codec DatabaseRecord, !Codec SystemUserRecord, !Codec TenantUserRecord}.
Abbreviation ctx := (ctx E).
Implicit Types (p : SecurityPrincipal.t) (w : Clock).

Definition new_standalone (node : Z) (shards : SM.t E) (cache_ttl : Z) : t E := mk node shards (Cache.new node 0 cache_ttl) false.
Definition is_distributed (c : t E) : bool := raft_router c.
Definition cluster_id (c : t E) : Z := NodeId.cluster_id (node_id c).

Definition own_cluster : ctx Z := fun c => (Ok (cluster_id c), c).

(** [serialize] and [shard_manager.put] at the system shard. *)
Definition persist {A} `{!Codec A} (key : list Z) (x : A) : ctx unit :=
  value <~ lift (serialize x);; shard (fun m => SM.put m 0 key value).
Definition erase (key : list Z) : ctx unit := shard (fun m => SM.delete m 0 key) >>> ret tt.
Definition load (key : list Z) : ctx (option (list Z)) := shard (fun m => SM.get m 0 key).

(** *** Cluster *)

Definition initialize_cluster p w (config : ClusterCreate) : ctx ClusterMetadata :=
  check (SecurityPrincipal.has_system_permission p ClusterAlter) p ClusterAlter ScopeSystem >>>
  id <~ own_cluster;;
  let cluster := ClusterRecordMk id 1 (utc w) (utc w) (cc_name config) (cc_options config) (cc_metadata config) in
  update_cache (fun m => Cache.set_cluster_record m cluster) >>>
  persist (SystemKeys.cluster_key id) cluster >>>
  ret (cluster_metadata_from cluster).

(** On a miss the bytes of a [ClusterRecord] are read as a [ClusterMetadata]. *)
Definition get_cluster p : ctx ClusterMetadata :=
  check (SecurityPrincipal.has_system_permission p ClusterView) p ClusterView ScopeSystem >>>
  cached <~ read_cache Cache.get_cluster_record;;
  match cached with
  | Some r => ret (cluster_metadata_from r)
  | None =>
      id <~ own_cluster;;
      value <~ load (SystemKeys.cluster_key id);;
      match value with
      | Some b => lift (deserialize b)
      | None => fail (KvInternal "Error getting Cluster Metadata")
      end
  end.

Definition update_cluster p w (config : ClusterUpdate) : ctx ClusterMetadata :=
  check (SecurityPrincipal.has_system_permission p ClusterAlter) p ClusterAlter ScopeSystem >>>
  cached <~ read_cache Cache.get_cluster_record;;
  match cached with
  | Some r =>
      version <~ lift (inc 64 (cr_version r));;
      let r := ClusterRecordMk (cr_id r) version (cr_created_at r) (utc w) (default (cr_name r) (cu_name config)) (cr_options r) (cr_metadata r) in
      update_cache (fun m => Cache.set_cluster_record m r) >>>
      id <~ own_cluster;;
      persist (SystemKeys.cluster_key id) r >>>
      ret (cluster_metadata_from r)
  | None => fail (KvInvalidValue "Cluster not initialized")
  end.

(** *** Regions *)

Definition get_regions p : ctx (list RegionMetadata) :=
  check (SecurityPrincipal.has_system_permission p ClusterView) p ClusterView ScopeSystem >>>
  rs <~ read_cache Cache.list_region_records;;
  ret (region_metadata_from <$> rs).

Definition get_region p w (region_id : Z) : ctx (option RegionMetadata) :=
  check (SecurityPrincipal.has_system_permission p ClusterView) p ClusterView ScopeSystem >>>
  r <~ cache (fun m => Cache.get_region_record (instant w) m region_id);;
  ret (region_metadata_from <$> r).

(** Here the scope of the grant is not looked at. *)
Definition add_region p w (config : RegionCreate) : ctx RegionMetadata :=
  check (SecurityPrincipal.has_permission p ClusterAlter) p ClusterAlter ScopeSystem >>>
  let region_id := 0 in
  let region := RegionRecordMk (rc_cluster config) region_id 1 (utc w) (utc w) (rc_name config) (rc_options config) (rc_metadata config) in
  update_cache (fun m => Cache.set_region_record (instant w) m region) >>>
  id <~ own_cluster;;
  persist (SystemKeys.region_key id region_id) region >>>
  ret (region_metadata_from region).

Definition update_region p w (region_id : Z) (config : RegionUpdate) : ctx RegionMetadata :=
  check (SecurityPrincipal.has_system_permission p ClusterAlter) p ClusterAlter ScopeSystem >>>
  cached <~ cache (fun m => Cache.get_region_record (instant w) m region_id);;
  match cached with
  | Some r =>
      version <~ lift (inc 64 (rr_version r));;
      let r := RegionRecordMk (rr_cluster r) (rr_id r) version (rr_created_at r) (utc w) (default (rr_name r) (ru_name config)) (rr_options r) (rr_metadata r) in
      update_cache (fun m => Cache.set_region_record (instant w) m r) >>>
      id <~ own_cluster;;
      persist (SystemKeys.region_key id region_id) r >>>
      ret (region_metadata_from r)
  | None => fail (KvInvalidValue ("Region not found: " +:+ debug_id "RegionId" region_id))
  end.

Definition remove_region p (region_id : Z) : ctx unit :=
  check (SecurityPrincipal.has_system_permission p ClusterAlter) p ClusterAlter ScopeSystem >>>
  update_cache (fun m => Cache.clear_region_record m region_id) >>>
  id <~ own_cluster;;
  erase (SystemKeys.region_key id region_id).

(** *** Servers *)

Definition get_servers p : ctx (list ServerMetadata) :=
  check (SecurityPrincipal.has_system_permission p ClusterView) p ClusterView ScopeSystem >>>
  rs <~ read_cache Cache.list_server_records;;
  ret (server_metadata_from <$> rs).

Definition get_servers_by_region p (region_id : Z) : ctx (gset Z) :=
  check (SecurityPrincipal.has_permission p ClusterView) p ClusterView ScopeSystem >>>
  rs <~ read_cache Cache.list_server_records;;
  ret (list_to_set (sr_id <$> filter (fun r => NodeId.region_id (sr_id r) = region_id) rs)).

Definition get_server p w (id : Z) : ctx (option ServerMetadata) :=
  check (SecurityPrincipal.has_system_permission p ClusterView) p ClusterView ScopeSystem >>>
  cached <~ cache (fun m => Cache.get_server_record (instant w) m id);;
  match cached with
  | Some r => ret (Some (server_metadata_from r))
  | None =>
      cluster <~ own_cluster;;
      value <~ load (SystemKeys.server_key cluster (NodeId.region_id id) (NodeId.server_id id));;
      match value with
      | Some b =>
          r <~ lift (deserialize (A := ServerRecord) b);;
          update_cache (fun m => Cache.set_server_record (instant w) m r) >>>
          ret (Some (server_metadata_from r))
      | None => ret None
      end
  end.

Definition add_server p w (config : ServerCreate) : ctx ServerMetadata :=
  check (SecurityPrincipal.has_system_permission p ClusterAlter) p ClusterAlter ScopeSystem >>>
  let server := ServerRecordMk (NodeId.from_parts (sc_cluster config) (sc_region config) 0) 1 (utc w) (utc w) (sc_name config) []
                  (sc_options config) (sc_metadata config) in
  update_cache (fun m => Cache.set_server_record (instant w) m server) >>>
  cluster <~ own_cluster;;
  persist (SystemKeys.server_key cluster (sc_region config) 0) server >>>
  ret (server_metadata_from server).

Definition update_server p w (id : Z) (config : ServerUpdate) : ctx ServerMetadata :=
  check (SecurityPrincipal.has_system_permission p ClusterAlter) p ClusterAlter ScopeSystem >>>
  cached <~ cache (fun m => Cache.get_server_record (instant w) m id);;
  match cached with
  | Some r =>
      version <~ lift (inc 64 (sr_version r));;
      let r := ServerRecordMk (sr_id r) version (sr_created_at r) (utc w) (default (sr_name r) (su_name config)) (sr_pubkey r) (sr_options r) (sr_metadata r) in
      update_cache (fun m => Cache.set_server_record (instant w) m r) >>>
      cluster <~ own_cluster;;
      persist (SystemKeys.server_key cluster (NodeId.region_id id) (NodeId.server_id id)) r >>>
      ret (server_metadata_from r)
  | None => fail (KvInvalidValue ("Server not found: " +:+ debug_id "NodeId" id))
  end.

Definition remove_server p (id : Z) : ctx unit :=
  check (SecurityPrincipal.has_system_permission p ClusterAlter) p ClusterAlter ScopeSystem >>>
  update_cache (fun m => Cache.clear_server_record m id) >>>
  cluster <~ own_cluster;;
  erase (SystemKeys.server_key cluster (NodeId.region_id id) (NodeId.server_id id)).

(** *** System users *)

Definition get_system_users p : ctx (list SystemUserMetadata) :=
  check (SecurityPrincipal.has_system_permission p UserManagement) p UserManagement ScopeSystem >>>
  rs <~ read_cache Cache.list_system_user_records;;
  ret (system_user_metadata_from <$> rs).

(** The record of a user, from the cache or else from the system shard. *)
Definition fetch_system_user w (user_id : Z) : ctx (option SystemUserRecord) :=
  cached <~ cache (fun m => Cache.get_system_user_record (instant w) m user_id);;
  match cached with
  | Some r => ret (Some r)
  | None =>
      value <~ load (SystemKeys.system_user_key user_id);;
      match value with
      | Some b =>
          r <~ lift (deserialize (A := SystemUserRecord) b);;
          update_cache (fun m => Cache.set_system_user_record (instant w) m r) >>>
          ret (Some r)
      | None => ret None
      end
  end.

Definition get_system_user p w (user_id : Z) : ctx (option SystemUserMetadata) :=
  check (SecurityPrincipal.has_system_permission p UserManagement) p UserManagement ScopeSystem >>>
  r <~ fetch_system_user w user_id;;
  ret (system_user_metadata_from <$> r).

Definition get_user_by_username p (username : string) : ctx (option Z) :=
  check (SecurityPrincipal.has_system_permission p UserManagement) p UserManagement ScopeSystem >>>
  rs <~ read_cache Cache.list_system_user_records;;
  ret (ur_id ∘ snd <$> list_find (fun u => ur_username u = username) rs).

(** The record a new user starts with; its identifier is always zero. *)
Definition new_user w (username : string) (options metadata : properties) : SystemUserRecord :=
  SystemUserMk 0 username 1 (utc w) (utc w) [] [] [] true None options metadata.

Definition create_system_user p w (config : SystemUserCreate) : ctx SystemUserMetadata :=
  check (SecurityPrincipal.has_system_permission p UserManagement) p UserManagement ScopeSystem >>>
  let user := new_user w (uc_username config) (uc_options config) (uc_metadata config) in
  update_cache (fun m => Cache.set_system_user_record (instant w) m user) >>>
  persist (SystemKeys.system_user_key (ur_id user)) user >>>
  ret (system_user_metadata_from user).

Definition updated_user w (r : SystemUserRecord) (version : Z) (username : option string) (options metadata : list PropertyUpdate) : SystemUserRecord :=
  SystemUserMk (ur_id r) (default (ur_username r) username) version (ur_created_at r) (utc w) (ur_group_ids r) (ur_role_ids r) (ur_grants r) (ur_enabled r)
    (ur_password_hash r) (apply_updates options (ur_options r)) (apply_updates metadata (ur_metadata r)).

Definition update_system_user p w (user_id : Z) (config : SystemUserUpdate) : ctx SystemUserMetadata :=
  check (SecurityPrincipal.has_system_permission p UserManagement) p UserManagement ScopeSystem >>>
  cached <~ cache (fun m => Cache.get_system_user_record (instant w) m user_id);;
  match cached with
  | Some r =>
      version <~ lift (inc 64 (ur_version r));;
      let r := updated_user w r version (uu_username config) (uu_options config) (uu_metadata config) in
      update_cache (fun m => Cache.set_system_user_record (instant w) m r) >>>
      persist (SystemKeys.system_user_key user_id) r >>>
      ret (system_user_metadata_from r)
  | None => fail (KvInvalidValue ("User not found: " +:+ debug_user user_id))
  end.

Definition remove_system_user p (user_id : Z) : ctx unit :=
  check (SecurityPrincipal.has_system_permission p UserManagement) p UserManagement ScopeSystem >>>
  update_cache (fun m => Cache.clear_system_user_record m user_id) >>>
  erase (SystemKeys.system_user_key user_id).

(** *** Tenants *)

(** The error names [TenantView], the check asks for [TenantList]. *)
Definition get_tenants p : ctx (list (Z * string)) :=
  check (SecurityPrincipal.has_system_permission p TenantList) p TenantView ScopeSystem >>>
  rs <~ read_cache Cache.list_tenant_records;;
  ret ((fun r => (tr_id r, tr_name r)) <$> rs).

Definition get_tenant p w (tenant_id : Z) : ctx (option TenantMetadata) :=
  check (SecurityPrincipal.has_system_permission p TenantView) p TenantView (ScopeTenant tenant_id) >>>
  cached <~ cache (fun m => Cache.get_tenant_record (instant w) m tenant_id);;
  match cached with
  | Some r => ret (Some (tenant_metadata_from r))
  | None =>
      value <~ load (SystemKeys.tenant_key tenant_id);;
      match value with
      | Some b =>
          r <~ lift (deserialize (A := TenantRecord) b);;
          update_cache (fun m => Cache.set_tenant_record (instant w) m r) >>>
          ret (Some (tenant_metadata_from r))
      | None => ret None
      end
  end.

Definition get_tenant_by_name p (name : string) : ctx (option Z) :=
  check (SecurityPrincipal.has_system_permission p TenantView) p TenantView ScopeSystem >>>
  rs <~ read_cache Cache.list_tenant_records;;
  ret (tr_id ∘ snd <$> list_find (fun t => tr_name t = name) rs).

Definition create_tenant p w (config : TenantCreate) : ctx TenantMetadata :=
  check (SecurityPrincipal.has_system_permission p TenantCreateP) p TenantCreateP ScopeSystem >>>
  rs <~ read_cache Cache.list_tenant_records;;
  tenant_id <~ lift (next_id (tr_id <$> rs));;
  let tenant := TenantRecordMk tenant_id 1 (utc w) (utc w) (tc_name config) None (tc_options config) (tc_metadata config) in
  update_cache (fun m => Cache.set_tenant_record (instant w) m tenant) >>>
  persist (SystemKeys.tenant_key tenant_id) tenant >>>
  ret (tenant_metadata_from tenant).

Definition update_tenant p w (tenant_id : Z) (config : TenantUpdate) : ctx TenantMetadata :=
  check (SecurityPrincipal.has_system_permission p TenantAlter) p TenantAlter (ScopeTenant tenant_id) >>>
  cached <~ cache (fun m => Cache.get_tenant_record (instant w) m tenant_id);;
  match cached with
  | Some r =>
      version <~ lift (inc 64 (tr_version r));;
      let r := TenantRecordMk (tr_id r) version (tr_created_at r) (utc w) (default (tr_name r) (tu_name config)) (tr_default_tablespace r)
                 (apply_updates (tu_options config) (tr_options r)) (apply_updates (tu_metadata config) (tr_metadata r)) in
      update_cache (fun m => Cache.set_tenant_record (instant w) m r) >>>
      persist (SystemKeys.tenant_key tenant_id) r >>>
      ret (tenant_metadata_from r)
  | None => fail (KvInvalidValue ("Tenant not found: " +:+ debug_id "TenantId" tenant_id))
  end.

Definition delete_tenant p (tenant_id : Z) : ctx unit :=
  check (SecurityPrincipal.has_system_permission p TenantDelete) p TenantDelete ScopeSystem >>>
  update_cache (fun m => Cache.clear_tenant_record m tenant_id) >>>
  erase (SystemKeys.tenant_key tenant_id).

(** *** Users of a tenant *)

(** The list is not implemented yet. *)
Definition get_tenant_users p (tenant_id : Z) : ctx (list TenantUserMetadata) :=
  check (SecurityPrincipal.has_tenant_permission p UserManagement tenant_id) p UserManagement (ScopeTenant tenant_id) >>>
  ret [].

Definition fetch_tenant_user w (tenant_id user_id : Z) : ctx (option TenantUserRecord) :=
  cached <~ cache (fun m => Cache.get_tenant_user_record (instant w) m tenant_id user_id);;
  match cached with
  | Some r => ret (Some r)
  | None =>
      value <~ load (SystemKeys.tenant_user_key tenant_id user_id);;
      match value with
      | Some b =>
          r <~ lift (deserialize (A := TenantUserRecord) b);;
          update_cache (fun m => Cache.set_tenant_user_record (instant w) m tenant_id r) >>>
          ret (Some r)
      | None => ret None
      end
  end.

Definition get_tenant_user p w (tenant_id user_id : Z) : ctx (option TenantUserMetadata) :=
  check (SecurityPrincipal.has_tenant_permission p UserManagement tenant_id) p UserManagement (ScopeTenant tenant_id) >>>
  u <~ fetch_system_user w user_id;;
  match u with
  | None => ret None
  | Some u =>
      v <~ fetch_tenant_user w tenant_id user_id;;
      ret (tenant_user_metadata_from u <$> v)
  end.

(** Both records are written under the key of the system user. *)
Definition create_tenant_user p w (tenant_id : Z) (config : TenantUserCreate) : ctx TenantUserMetadata :=
  check (SecurityPrincipal.has_tenant_permission p UserManagement tenant_id) p UserManagement (ScopeTenant tenant_id) >>>
  let user := new_user w (vc_username config) (vc_options config) (vc_metadata config) in
  let tenant_user := TenantUserMk (ur_id user) tenant_id 1 (utc w) (utc w) [] [] (vc_options config) (vc_metadata config) in
  update_cache (fun m => Cache.set_tenant_user_record (instant w) (Cache.set_system_user_record (instant w) m user) tenant_id tenant_user) >>>
  user_value <~ lift (serialize user);;
  tenant_user_value <~ lift (serialize tenant_user);;
  shard (fun m => SM.put m 0 (SystemKeys.system_user_key (ur_id user)) user_value) >>>
  shard (fun m => SM.put m 0 (SystemKeys.system_user_key (ur_id user)) tenant_user_value) >>>
  ret (tenant_user_metadata_from user tenant_user).

Definition update_tenant_user p w (tenant_id user_id : Z) (config : TenantUserUpdate) : ctx TenantUserMetadata :=
  check (SecurityPrincipal.has_tenant_permission p UserManagement tenant_id) p UserManagement (ScopeTenant tenant_id) >>>
  cached <~ cache (fun m => Cache.get_system_user_record (instant w) m user_id);;
  match cached with
  | Some r =>
      version <~ lift (inc 64 (ur_version r));;
      let r := updated_user w r version None (vu_options config) (vu_metadata config) in
      update_cache (fun m => Cache.set_system_user_record (instant w) m r) >>>
      persist (SystemKeys.system_user_key user_id) r >>>
      found <~ get_tenant_user p w tenant_id user_id;;
      lift (ok_or found (KvInternal ("Failed to find updated user record for user " +:+ display_user user_id)))
  | None => fail (KvInvalidValue ("User not found: " +:+ debug_user user_id))
  end.

(** The branch that would remove the system user too is disabled. *)
Definition remove_tenant_user p w (tenant_id user_id : Z) : ctx unit :=
  check (SecurityPrincipal.has_tenant_permission p UserManagement tenant_id) p UserManagement (ScopeTenant tenant_id) >>>
  update_cache (fun m => Cache.clear_tenant_user_record (instant w) m tenant_id user_id) >>>
  erase (SystemKeys.tenant_user_key tenant_id user_id).

(** *** Databases *)

Definition get_databases p (tenant_id : Z) : ctx (list (Z * string)) :=
  check (SecurityPrincipal.has_tenant_permission p DatabaseList tenant_id) p DatabaseView (ScopeTenant tenant_id) >>>
  rs <~ read_cache Cache.list_database_records;;
  ret ((fun d => (dr_id d, dr_name d)) <$> filter (fun d => dr_tenant d = tenant_id) rs).

Definition get_database p w (tenant_id database_id : Z) : ctx (option DatabaseMetadata) :=
  check (SecurityPrincipal.has_database_permission p DatabaseView tenant_id database_id) p DatabaseView (ScopeDatabase database_id) >>>
  cached <~ cache (fun m => Cache.get_database_record (instant w) m (ContainerId.from_parts tenant_id database_id));;
  match r ← cached; guard (dr_tenant r = tenant_id);; Some r with
  | Some r => ret (Some (database_metadata_from r))
  | None =>
      value <~ load (SystemKeys.database_key tenant_id database_id);;
      match value with
      | Some b =>
          r <~ lift (deserialize (A := DatabaseRecord) b);;
          update_cache (fun m => Cache.set_database_record (instant w) m r) >>>
          ret (Some (database_metadata_from r))
      | None => ret None
      end
  end.

(** The lookup is not implemented yet. *)
Definition get_database_by_name p (tenant_id : Z) (name : string) : ctx (option Z) :=
  check (SecurityPrincipal.has_tenant_permission p DatabaseList tenant_id) p DatabaseList (ScopeTenant tenant_id) >>>
  ret None.

Definition create_database p w (tenant_id : Z) (config : DatabaseCreate) : ctx DatabaseMetadata :=
  check (SecurityPrincipal.has_tenant_permission p DatabaseCreateP tenant_id) p DatabaseCreateP (ScopeTenant tenant_id) >>>
  rs <~ read_cache Cache.list_database_records;;
  database_id <~ lift (next_id (dr_id <$> filter (fun d => dr_tenant d = tenant_id) rs));;
  let database := DatabaseRecordMk tenant_id database_id 1 (utc w) (utc w) (dc_name config) 0 None (dc_options config) (dc_metadata config) in
  update_cache (fun m => Cache.set_database_record (instant w) m database) >>>
  persist (SystemKeys.database_key tenant_id database_id) database >>>
  ret (database_metadata_from database).

Definition update_database p w (tenant_id database_id : Z) (config : DatabaseUpdate) : ctx DatabaseMetadata :=
  check (SecurityPrincipal.has_database_permission p DatabaseAlter tenant_id database_id) p DatabaseAlter (ScopeDatabase database_id) >>>
  cached <~ cache (fun m => Cache.get_database_record (instant w) m (ContainerId.from_parts tenant_id database_id));;
  match cached with
  | Some r =>
      if dr_tenant r =? tenant_id then
        version <~ lift (inc 64 (dr_version r));;
        let r := DatabaseRecordMk (dr_tenant r) (dr_id r) version (dr_created_at r) (utc w) (default (dr_name r) (du_name config)) (dr_root_namespace r)
                   (dr_default_tablespace r) (apply_updates (du_options config) (dr_options r)) (apply_updates (du_metadata config) (dr_metadata r)) in
        update_cache (fun m => Cache.set_database_record (instant w) m r) >>>
        persist (SystemKeys.database_key tenant_id database_id) r >>>
        ret (database_metadata_from r)
      else
        fail (KvInvalidValue ("Database " +:+ debug_id "DatabaseId" database_id +:+ " does not belong to tenant " +:+ debug_id "TenantId" tenant_id))
  | None => fail (KvInvalidValue ("Database not found: " +:+ debug_id "DatabaseId" database_id))
  end.

Definition delete_database p (tenant_id database_id : Z) : ctx unit :=
  check (SecurityPrincipal.has_tenant_permission p DatabaseDelete tenant_id) p DatabaseDelete (ScopeTenant tenant_id) >>>
  update_cache (fun m => Cache.clear_database_record m (ContainerId.from_parts tenant_id database_id)) >>>
  erase (SystemKeys.database_key tenant_id database_id).

(** *** Tablespaces, which only the cache holds *)

Definition get_tenant_tablespaces p (tenant_id : Z) : ctx (list (Z * string)) :=
  check (SecurityPrincipal.has_tenant_permission p TablespaceList tenant_id) p TablespaceView ScopeSystem >>>
  rs <~ read_cache Cache.list_tablespace_records;;
  ret ((fun r => (lr_id r, lr_name r)) <$> rs).

Definition get_tablespaces p : ctx (list (Z * string)) :=
  check (SecurityPrincipal.has_system_permission p TablespaceList) p TablespaceView ScopeSystem >>>
  rs <~ read_cache Cache.list_tablespace_records;;
  ret ((fun r => (lr_id r, lr_name r)) <$> rs).

Definition get_tablespace p w (tablespace_id : Z) : ctx (option TablespaceRecord) :=
  check (SecurityPrincipal.has_system_permission p TablespaceView) p TablespaceView (ScopeTablespace tablespace_id) >>>
  cache (fun m => Cache.get_tablespace_record (instant w) m tablespace_id).

Definition get_tablespace_by_name p (name : string) : ctx (option Z) :=
  check (SecurityPrincipal.has_system_permission p TablespaceView) p TablespaceView ScopeSystem >>>
  rs <~ read_cache Cache.list_tablespace_records;;
  ret (lr_id ∘ snd <$> list_find (fun r => lr_name r = name) rs).

Definition create_tablespace p w (config : TablespaceCreate) : ctx TablespaceRecord :=
  check (SecurityPrincipal.has_permission p TablespaceManagement) p TablespaceManagement ScopeSystem >>>
  rs <~ read_cache Cache.list_tablespace_records;;
  tablespace_id <~ lift (next_id (lr_id <$> rs));;
  let tablespace := TablespaceRecordMk tablespace_id 1 (utc w) (utc w) (lc_name config) (lc_tier config) [] (lc_options config) (lc_metadata config) in
  update_cache (fun m => Cache.set_tablespace_record (instant w) m tablespace) >>>
  ret tablespace.

Definition update_tablespace p w (tablespace_id : Z) (config : TablespaceUpdate) : ctx TablespaceRecord :=
  check (SecurityPrincipal.has_system_permission p TablespaceManagement) p TablespaceManagement ScopeSystem >>>
  cached <~ cache (fun m => Cache.get_tablespace_record (instant w) m tablespace_id);;
  match cached with
  | Some r =>
      version <~ lift (inc 64 (lr_version r));;
      let r := TablespaceRecordMk (lr_id r) version (lr_created_at r) (utc w) (lr_name r) (default (lr_tier r) (lu_tier config)) (lr_tenants r) (lr_options r) (lr_metadata r) in
      update_cache (fun m => Cache.set_tablespace_record (instant w) m r) >>>
      ret r
  | None => fail (KvInvalidValue ("Tablespace not found: " +:+ debug_id "TablespaceId" tablespace_id))
  end.

Definition delete_tablespace p (tablespace_id : Z) : ctx unit :=
  check (SecurityPrincipal.has_system_permission p TablespaceManagement) p TablespaceManagement ScopeSystem >>>
  update_cache (fun m => Cache.clear_tablespace_record m tablespace_id).
End context.
End KeyValueDatabaseContext.
