(* ===== verification/KvtResolver.v ===== *)
(** * Storage paths

    Models [StoragePathResolver] of nanograph-kvt/src/resolver.rs: where the
    metadata, data, log and snapshot directories of the system, tenants,
    databases, tables, indexes and shards are, and that asking for one makes
    it.  The file system is behind the interface [FileSystem]; every operation
    takes it and returns it. *)

From Stdlib Require Import ZArith Lia Ascii String.
From stdpp Require Import gmap option strings pretty base list.
From S2P Require Import Prelude Objects Security BTreeError VfsFile VfsPath VfsMemory VfsTree VfsCompose KvmCache KvmContext.

Open Scope Z_scope.

(** [ObjectId]'s [Display]. *)
Definition display_object (id : Z) : string := "Object(" +:+ hex 8 id +:+ ")".

Module StoragePathResolver.

Record TablespaceStorage : Type := Storage { id : Z; name : string; base_path : option Path.t }.

Definition is_available (s : TablespaceStorage) : bool := bool_decide (is_Some (base_path s)).

(** [StorageConfig]: a tablespace of this node is its storage path. *)
Record StorageConfig : Type := Config { system_path : string; log_path : string; node_tablespaces : gmap string string }.

Record t : Type := mk { config : StorageConfig; tablespaces : gmap Z TablespaceStorage; default_tablespace : Z; validate_paths : bool }.

Definition with_tablespaces (r : t) (m : gmap Z TablespaceStorage) : t := mk (config r) m (default_tablespace r) (validate_paths r).

Definition new (c : StorageConfig) : t := mk c {[ 0 := Storage 0 "system" (Some (Path.parse (system_path c))) ]} 0 true.

Definition register_tablespace (r : t) (metadata : TablespaceRecord) : kv_result unit * t :=
  (Ok tt, with_tablespaces r (<[lr_id metadata := Storage (lr_id metadata) (lr_name metadata)
     (Path.parse <$> node_tablespaces (config r) !! lr_name metadata)]> (tablespaces r))).

Definition unregister_tablespace (r : t) (ts : Z) : kv_result unit * t := (Ok tt, with_tablespaces r (base.delete ts (tablespaces r))).

Definition get_tablespace (r : t) (ts : Z) : kv_result TablespaceStorage :=
  ok_or (tablespaces r !! ts) (KvInvalidValue ("Tablespace " +:+ debug_id "TablespaceId" ts +:+ " not found")).

Definition list_tablespaces (r : t) : list TablespaceStorage := (map_to_list (tablespaces r)).*2.

Definition set_default_tablespace (r : t) (ts : Z) : t := mk (config r) (tablespaces r) ts (validate_paths r).

(** ** Paths *)

Section paths.
Context {FS H : Type} `{!FileSystem FS H}.

(** An operation that may make directories. *)
Abbreviation path_op := (FS -> kv_result Path.t * FS).

Variable r : t.

(** [?] on a file system error is [KeyValueError::IoError]. *)
Definition validate_path (path : Path.t) : path_op := fun fs =>
  if validate_paths r then
    match exists_at fs (Path.to_string path) with
    | Ok true => (Ok path, fs)
    | Ok false =>
        let '(made, fs') := create_directory_all_at fs (Path.to_string path) in
        match made with
        | Ok _ => (Ok path, fs')
        | Err _ => (Err KvIoError, fs')
        | Panic => (Panic, fs')
        | Timeout => (Timeout, fs')
        end
    | Err _ => (Err KvIoError, fs)
    | Panic => (Panic, fs)
    | Timeout => (Timeout, fs)
    end
  else (Ok path, fs).

(** The path of another operation, one segment further. *)
Definition below (op : path_op) (segment : string) : path_op := fun fs =>
  match op fs with
  | (Ok path, fs') => validate_path (Path.push path segment) fs'
  | (e, fs') => (e, fs')
  end.

(** The base path of a tablespace of this node, extended by [segments]. *)
Definition in_tablespace (ts : Z) (segments : list string) : path_op := fun fs =>
  match get_tablespace r ts with
  | Ok s =>
      match base_path s with
      | Some base => validate_path (foldl Path.push base segments) fs
      | None => (Err (KvInvalidValue ("Tablespace " +:+ debug_id "TablespaceId" ts +:+ " is not available on this node")), fs)
      end
  | Err x => (Err x, fs)
  | Panic => (Panic, fs)
  | Timeout => (Timeout, fs)
  end.

Definition system_log_path : path_op := validate_path (Path.parse (log_path (config r))).

Definition system_base_path (ts : Z) : path_op := in_tablespace ts ["system"].
Definition system_metadata_path (ts : Z) : path_op := below (system_base_path ts) "metadata".
Definition system_data_path (ts : Z) : path_op := below (system_metadata_path ts) "data".
Definition system_wal_path (ts : Z) : path_op := below (system_metadata_path ts) "wal".
Definition system_raft_logs_path (ts : Z) : path_op := below (system_metadata_path ts) "logs".
Definition system_raft_snapshots_path (ts : Z) : path_op := below (system_metadata_path ts) "snapshots".

Definition tenant_base_path (ts tenant : Z) : path_op := in_tablespace ts ["containers"; "tenant_" +:+ pretty (Z.to_N tenant)].
Definition tenant_metadata_path (ts tenant : Z) : path_op := below (tenant_base_path ts tenant) "data".
Definition tenant_data_path (ts tenant : Z) : path_op := below (tenant_metadata_path ts tenant) "data".
Definition tenant_wal_path (ts tenant : Z) : path_op := below (tenant_metadata_path ts tenant) "wal".
Definition tenant_raft_logs_path (ts tenant : Z) : path_op := below (tenant_metadata_path ts tenant) "logs".
Definition container_snapshots_path (ts tenant : Z) : path_op := below (tenant_metadata_path ts tenant) "snapshots".

Definition database_base_path (ts tenant database : Z) : path_op := below (tenant_base_path ts tenant) ("database_" +:+ pretty (Z.to_N database)).
Definition database_metadata_path (ts tenant database : Z) : path_op := below (database_base_path ts tenant database) "metadata".
Definition database_data_path (ts tenant database : Z) : path_op := below (database_metadata_path ts tenant database) "data".
Definition database_wal_path (ts tenant database : Z) : path_op := below (database_metadata_path ts tenant database) "wal".
Definition database_raft_logs_path (ts tenant database : Z) : path_op := below (database_metadata_path ts tenant database) "logs".
Definition database_snapshots_path (ts tenant database : Z) : path_op := below (database_metadata_path ts tenant database) "snapshots".

Definition table_base_path (ts tenant database table : Z) : path_op := below (database_base_path ts tenant database) ("table_" +:+ display_object table).
Definition table_metadata_path (ts tenant database table : Z) : path_op := below (table_base_path ts tenant database table) "metadata".
Definition table_data_path (ts tenant database table : Z) : path_op := below (table_metadata_path ts tenant database table) "data".
Definition table_wal_path (ts tenant database table : Z) : path_op := below (table_metadata_path ts tenant database table) "wal".
Definition table_raft_logs_path (ts tenant database table : Z) : path_op := below (table_metadata_path ts tenant database table) "logs".
Definition table_snapshots_path (ts tenant database table : Z) : path_op := below (table_metadata_path ts tenant database table) "snapshots".

Definition table_shard_base_path (ts tenant database table shard : Z) : path_op := below (table_base_path ts tenant database table) ("shard_" +:+ pretty (Z.to_N shard)).
Definition table_shard_data_path (ts tenant database table shard : Z) : path_op := below (table_shard_base_path ts tenant database table shard) "data".
Definition table_shard_wal_path (ts tenant database table shard : Z) : path_op := below (table_shard_base_path ts tenant database table shard) "wal".
Definition table_shard_raft_logs_path (ts tenant database table shard : Z) : path_op := below (table_shard_base_path ts tenant database table shard) "logs".
Definition table_shard_snapshots_path (ts tenant database table shard : Z) : path_op := below (table_shard_base_path ts tenant database table shard) "snapshots".
Definition lsm_level_path (ts tenant database table shard level : Z) : path_op :=
  below (table_shard_data_path ts tenant database table shard) ("l" +:+ pretty (Z.to_N level)).

Definition index_base_path (ts tenant database index : Z) : path_op := below (database_base_path ts tenant database) ("index_" +:+ display_object index).
Definition index_metadata_path (ts tenant database index : Z) : path_op := below (index_base_path ts tenant database index) "metadata".
Definition index_data_path (ts tenant database index : Z) : path_op := below (index_metadata_path ts tenant database index) "data".
Definition index_wal_path (ts tenant database index : Z) : path_op := below (index_metadata_path ts tenant database index) "wal".
Definition index_raft_logs_path (ts tenant database index : Z) : path_op := below (index_metadata_path ts tenant database index) "logs".
Definition index_snapshots_path (ts tenant database index : Z) : path_op := below (index_metadata_path ts tenant database index) "snapshots".

Definition index_shard_base_path (ts tenant database index shard : Z) : path_op := below (index_base_path ts tenant database index) ("shard_" +:+ pretty (Z.to_N shard)).
Definition index_shard_data_path (ts tenant database index shard : Z) : path_op := below (index_shard_base_path ts tenant database index shard) "data".
Definition index_shard_wal_path (ts tenant database index shard : Z) : path_op := below (index_shard_base_path ts tenant database index shard) "wal".
Definition index_shard_raft_logs_path (ts tenant database index shard : Z) : path_op := below (index_shard_base_path ts tenant database index shard) "logs".
Definition index_shard_snapshots_path (ts tenant database index shard : Z) : path_op := below (index_shard_base_path ts tenant database index shard) "snapshots".
End paths.

End StoragePathResolver.
Import StoragePathResolver.

(** ** Every directory there is *)

Inductive place : Type :=
| System
| Tenant (tenant : Z)
| Database (tenant database : Z)
| Table (tenant database table : Z)
| TableShard (tenant database table shard : Z)
| Level (tenant database table shard level : Z)
| Index (tenant database index : Z)
| IndexShard (tenant database index shard : Z).

Inductive part : Type := Base | Metadata | Data | WalLog | RaftLogs | Snapshots.

(** The function that is asked for it, if there is one. *)
Definition locate {FS H : Type} `{!FileSystem FS H} (r : t) (ts : Z) (pl : place) (pt : part) : option (FS -> kv_result Path.t * FS) :=
  match pl, pt with
  | System, Base => Some (system_base_path r ts)
  | System, Metadata => Some (system_metadata_path r ts)
  | System, Data => Some (system_data_path r ts)
  | System, WalLog => Some (system_wal_path r ts)
  | System, RaftLogs => Some (system_raft_logs_path r ts)
  | System, Snapshots => Some (system_raft_snapshots_path r ts)
  | Tenant t, Base => Some (tenant_base_path r ts t)
  | Tenant t, Metadata => Some (tenant_metadata_path r ts t)
  | Tenant t, Data => Some (tenant_data_path r ts t)
  | Tenant t, WalLog => Some (tenant_wal_path r ts t)
  | Tenant t, RaftLogs => Some (tenant_raft_logs_path r ts t)
  | Tenant t, Snapshots => Some (container_snapshots_path r ts t)
  | Database t d, Base => Some (database_base_path r ts t d)
  | Database t d, Metadata => Some (database_metadata_path r ts t d)
  | Database t d, Data => Some (database_data_path r ts t d)
  | Database t d, WalLog => Some (database_wal_path r ts t d)
  | Database t d, RaftLogs => Some (database_raft_logs_path r ts t d)
  | Database t d, Snapshots => Some (database_snapshots_path r ts t d)
  | Table t d o, Base => Some (table_base_path r ts t d o)
  | Table t d o, Metadata => Some (table_metadata_path r ts t d o)
  | Table t d o, Data => Some (table_data_path r ts t d o)
  | Table t d o, WalLog => Some (table_wal_path r ts t d o)
  | Table t d o, RaftLogs => Some (table_raft_logs_path r ts t d o)
  | Table t d o, Snapshots => Some (table_snapshots_path r ts t d o)
  | TableShard t d o n, Base => Some (table_shard_base_path r ts t d o n)
  | TableShard t d o n, Data => Some (table_shard_data_path r ts t d o n)
  | TableShard t d o n, WalLog => Some (table_shard_wal_path r ts t d o n)
  | TableShard t d o n, RaftLogs => Some (table_shard_raft_logs_path r ts t d o n)
  | TableShard t d o n, Snapshots => Some (table_shard_snapshots_path r ts t d o n)
  | Level t d o n l, Base => Some (lsm_level_path r ts t d o n l)
  | Index t d o, Base => Some (index_base_path r ts t d o)
  | Index t d o, Metadata => Some (index_metadata_path r ts t d o)
  | Index t d o, Data => Some (index_data_path r ts t d o)
  | Index t d o, WalLog => Some (index_wal_path r ts t d o)
  | Index t d o, RaftLogs => Some (index_raft_logs_path r ts t d o)
  | Index t d o, Snapshots => Some (index_snapshots_path r ts t d o)
  | IndexShard t d o n, Base => Some (index_shard_base_path r ts t d o n)
  | IndexShard t d o n, Data => Some (index_shard_data_path r ts t d o n)
  | IndexShard t d o n, WalLog => Some (index_shard_wal_path r ts t d o n)
  | IndexShard t d o n, RaftLogs => Some (index_shard_raft_logs_path r ts t d o n)
  | IndexShard t d o n, Snapshots => Some (index_shard_snapshots_path r ts t d o n)
  | _, _ => None
  end.

(** ** The layout *)

(** The segments the resolver uses. *)
Inductive seg : Type :=
| SSystem | SContainers | STenant (n : Z) | SDatabase (n : Z) | STable (n : Z) | SIndex (n : Z) | SShard (n : Z) | SLevel (n : Z)
| SMetadata | SData | SWal | SLogs | SSnapshots.

Definition print_seg (s : seg) : string :=
  match s with
  | SSystem => "system"
  | SContainers => "containers"
  | STenant n => "tenant_" +:+ pretty (Z.to_N n)
  | SDatabase n => "database_" +:+ pretty (Z.to_N n)
  | STable n => "table_" +:+ display_object n
  | SIndex n => "index_" +:+ display_object n
  | SShard n => "shard_" +:+ pretty (Z.to_N n)
  | SLevel n => "l" +:+ pretty (Z.to_N n)
  | SMetadata => "metadata"
  | SData => "data"
  | SWal => "wal"
  | SLogs => "logs"
  | SSnapshots => "snapshots"
  end.

Definition place_segs (pl : place) : list seg :=
  match pl with
  | System => [SSystem]
  | Tenant t => [SContainers; STenant t]
  | Database t d => [SContainers; STenant t; SDatabase d]
  | Table t d o => [SContainers; STenant t; SDatabase d; STable o]
  | TableShard t d o n => [SContainers; STenant t; SDatabase d; STable o; SShard n]
  | Level t d o n l => [SContainers; STenant t; SDatabase d; STable o; SShard n; SData; SLevel l]
  | Index t d o => [SContainers; STenant t; SDatabase d; SIndex o]
  | IndexShard t d o n => [SContainers; STenant t; SDatabase d; SIndex o; SShard n]
  end.

(** Where the metadata of a place is; shards have none of their own. *)
Definition metadata_segs (pl : place) : list seg :=
  match pl with
  | Tenant _ => [SData]
  | TableShard _ _ _ _ | IndexShard _ _ _ _ | Level _ _ _ _ _ => []
  | _ => [SMetadata]
  end.

Definition layout (pl : place) (pt : part) : list seg :=
  place_segs pl ++
  match pt with
  | Base => []
  | Metadata => metadata_segs pl
  | Data => metadata_segs pl ++ [SData]
  | WalLog => metadata_segs pl ++ [SWal]
  | RaftLogs => metadata_segs pl ++ [SLogs]
  | Snapshots => metadata_segs pl ++ [SSnapshots]
  end.

Definition seg_range (s : seg) : Prop :=
  match s with
  | STenant n | SDatabase n | STable n | SIndex n | SShard n => is_u32 n
  | SLevel n => 0 <= n < 256
  | _ => True
  end.

(** Identifiers at their widths. *)
Definition place_range (pl : place) : Prop := Forall seg_range (place_segs pl).

(** ** Printing is injective *)

Definition unhex_digit (c : ascii) : Z := let n := Z.of_nat (nat_of_ascii c) in if n <? 58 then n - 48 else n - 55.

Fixpoint unhex_from (acc : Z) (s : string) : Z := match s with EmptyString => acc | String c s' => unhex_from (16 * acc + unhex_digit c) s' end.

Lemma unhex_app s1 : forall acc s2, unhex_from acc (s1 +:+ s2) = unhex_from (unhex_from acc s1) s2.
Proof. induction s1 as [|c s1 IH]; intros acc s2; [done|]. apply IH. Qed.

Lemma hex_digit_decoded : forall d, 0 <= d < 16 -> forall acc, unhex_from acc (hex_digit d) = 16 * acc + d.
Proof.
  intros d Hd acc. assert (Hall : forallb (fun d => unhex_from 0 (hex_digit d) =? d) (Z.of_nat <$> seq 0 16) = true) by (by vm_compute).
  rewrite forallb_forall in Hall. specialize (Hall d). rewrite <- list_elem_of_In in Hall. cbn [hex_digit unhex_from] in *.
  apply Z.eqb_eq in Hall; [lia|]. apply list_elem_of_fmap. exists (Z.to_nat d). split; [lia|]. apply elem_of_seq. lia.
Qed.

Lemma hex_decoded n : forall x, 0 <= x < 16 ^ Z.of_nat n -> unhex_from 0 (hex n x) = x.
Proof.
  induction n as [|n IH]; intros x Hx; [cbn in *; lia|]. cbn [hex]. rewrite unhex_app, hex_digit_decoded by (apply Z.mod_pos_bound; lia).
  replace (16 ^ Z.of_nat (S n)) with (16 * 16 ^ Z.of_nat n) in Hx by (rewrite Nat2Z.inj_succ, Z.pow_succ_r by lia; lia).
  pose proof (Z.div_mod x 16 ltac:(lia)). case_match eqn:E.
  - apply Z.ltb_lt in E. cbn [unhex_from]. rewrite Z.mod_small by lia. lia.
  - rewrite IH; [lia|]. split; [apply Z.div_pos; lia|]. apply Z.div_lt_upper_bound; lia.
Qed.

Lemma append_inj_r s1 : forall s2 c, s1 +:+ String c "" = s2 +:+ String c "" -> s1 = s2.
Proof.
  induction s1 as [|a s1 IH]; intros [|b s2] c Heq; [done|..]; cbn in Heq; injection Heq as Hh Ht.
  - by destruct s2.
  - by destruct s1.
  - subst. f_equal. by apply (IH s2 c).
Qed.

Lemma append_inj_l s : forall s1 s2, s +:+ s1 = s +:+ s2 -> s1 = s2.
Proof. induction s as [|c s IH]; intros s1 s2; [done|]. intros [= Heq]. by apply IH. Qed.

Lemma display_object_inj x y : is_u32 x -> is_u32 y -> display_object x = display_object y -> x = y.
Proof.
  unfold is_u32, display_object. intros Hx Hy Heq%append_inj_l%append_inj_r. rewrite <- (hex_decoded 8 x), <- (hex_decoded 8 y) by (change (16 ^ Z.of_nat 8) with (2 ^ 32); lia).
  by rewrite Heq.
Qed.

Lemma pretty_u32_inj x y : 0 <= x -> 0 <= y -> pretty (Z.to_N x) = pretty (Z.to_N y) -> x = y.
Proof. intros Hx Hy Heq%(inj pretty). lia. Qed.

(** No level is called as the logs are. *)
Lemma level_not_logs n : 0 <= n < 256 -> "l" +:+ pretty (Z.to_N n) <> "logs".
Proof.
  intros Hn. assert (Hall : forallb (fun n => bool_decide ("l" +:+ pretty (N.of_nat n) <> "logs")) (seq 0 256) = true) by (by vm_compute).
  rewrite forallb_forall in Hall. specialize (Hall (Z.to_nat n)). rewrite <- list_elem_of_In in Hall.
  replace (N.of_nat (Z.to_nat n)) with (Z.to_N n) in Hall by lia. apply bool_decide_eq_true_1 in Hall; [done|]. apply elem_of_seq. lia.
Qed.

Lemma print_seg_inj s1 s2 : seg_range s1 -> seg_range s2 -> print_seg s1 = print_seg s2 -> s1 = s2.
Proof.
  intros H1 H2 Heq.
  destruct s1 as [| |x|x|x|x|x|x| | | | |], s2 as [| |y|y|y|y|y|y| | | | |]; cbn [print_seg seg_range] in *; try done;
    try (f_equal; apply append_inj_l in Heq; first [by apply display_object_inj|apply pretty_u32_inj; [unfold is_u32 in *; lia..|done]]);
    try (exfalso; by apply (level_not_logs x)); exfalso; by apply (level_not_logs y).
Qed.

(** ** Segments are names *)

Lemma no_slash_app s1 s2 : no_slash s1 -> no_slash s2 -> no_slash (s1 +:+ s2).
Proof. intros H1 H2. induction s1 as [|c s1 IH]; [done|]. destruct H1 as [Hc H1]. split; [done|by apply IH]. Qed.

Lemma pretty_go_no_slash x : forall s, no_slash s -> no_slash (pretty_N_go x s).
Proof.
  induction (N.lt_wf_0 x) as [x _ IH]. intros s Hs. destruct (decide (x = 0)%N) as [->|Hx]; [by rewrite pretty_N_go_0|].
  rewrite pretty_N_go_step by lia. apply IH; [apply N.div_lt; lia|]. split; [|done]. unfold pretty_N_char. by repeat case_match.
Qed.

Lemma pretty_no_slash (n : N) : no_slash (pretty n).
Proof. unfold pretty, pretty_N. case_decide; [by vm_compute|by apply pretty_go_no_slash]. Qed.

Lemma hex_no_slash n : forall x, no_slash (hex n x).
Proof.
  induction n as [|n IH]; intros x; [done|]. cbn [hex]. apply no_slash_app; [case_match; [done|apply IH]|].
  assert (Hall : forallb (fun d => bool_decide (no_slash (hex_digit (Z.of_nat d)))) (seq 0 16) = true) by (by vm_compute).
  rewrite forallb_forall in Hall. specialize (Hall (Z.to_nat (x mod 16))). rewrite <- list_elem_of_In in Hall.
  pose proof (Z.mod_pos_bound x 16 ltac:(lia)). rewrite Z2Nat.id in Hall by lia. apply bool_decide_eq_true_1 in Hall; [done|]. apply elem_of_seq. lia.
Qed.

Lemma print_seg_ok s : segment_ok (print_seg s).
Proof.
  destruct s; cbn [print_seg]; (split; [discriminate|]); (split; [discriminate|]); (split; [discriminate|]); unfold display_object;
    repeat lazymatch goal with
    | |- no_slash (_ +:+ _) => apply no_slash_app
    | |- no_slash (pretty _) => apply pretty_no_slash
    | |- no_slash (hex _ _) => apply hex_no_slash
    | |- no_slash _ => apply (bool_decide_eq_true_1 _); vm_compute; reflexivity
    end.
Qed.

Lemma print_segs_ok l : segments_ok (print_seg <$> l).
Proof. apply Forall_fmap, Forall_true. apply print_seg_ok. Qed.

(** ** What an operation does *)

(** [op] returns the path with these segments and makes it a chain of
    directories; it changes nothing else. *)
Definition makes (fs : MemoryFileSystem.t) (l : list string) (op : MemoryFileSystem.t -> kv_result Path.t * MemoryFileSystem.t) : Prop :=
  exists fs', op fs = (Ok (absolute_path l), fs') /\ fs_reaches fs' /\
    forall q, segments_ok q -> kind_at fs' q = if decide (q `prefix_of` l) then Some None else kind_at fs q.

Lemma push_absolute l s : segment_ok s -> Path.push (absolute_path l) s = absolute_path (l ++ [s]).
Proof.
  intros (H1 & H2 & H3 & _). unfold Path.push. rewrite decide_False by (by intros [?|?]). by rewrite decide_False.
Qed.

Lemma pushes_absolute ss : forall l, segments_ok ss -> foldl Path.push (absolute_path l) ss = absolute_path (l ++ ss).
Proof.
  induction ss as [|s ss IH]; intros l Hss; [by rewrite app_nil_r|]. apply Forall_cons in Hss as [Hs Hss]. cbn [foldl]. rewrite push_absolute by done.
  rewrite IH by done. by rewrite <- app_assoc.
Qed.

Lemma clear_prefix fs l l' : l `prefix_of` l' -> clear_way fs l' -> clear_way fs l.
Proof. intros Hp Hc q i Hq. apply Hc. by etrans. Qed.

(** What exists has directories above it. *)
Lemma exists_above fs l q : fs_reaches fs -> segments_ok l -> kind_at fs l = Some None -> q `prefix_of` l -> kind_at fs q = Some None.
Proof.
  intros Hr Hl Hk Hq. rewrite (prefix_is_take q l Hq). destruct (decide (length q < length l)%nat) as [Hlt|Hge].
  - apply above_directory; [by apply reaches_tree_ok|done| |done]. apply kind_directory in Hk as [names ->]. by eexists.
  - by rewrite take_ge by lia.
Qed.

Lemma validate_makes r fs l : validate_paths r = true -> fs_reaches fs -> segments_ok l -> clear_way fs l -> makes fs l (validate_path r (absolute_path l)).
Proof.
  intros Hv Hr Hl Hc. unfold validate_path, makes. rewrite Hv. cbn [exists_at create_directory_all_at memory_file_system]. fold (key l).
  destruct (kind_at fs l) as [[i|]|] eqn:Hk.
  - by destruct (Hc l i).
  - pose proof Hk as [names Hn]%kind_directory. unfold MemoryFileSystem.exists_. rewrite Hn, bool_decide_eq_true_2 by (by eexists).
    exists fs. split_and!; [done..|]. intros q _. case_decide as Hq; [|done]. by apply (exists_above fs l q).
  - unfold kind_at in Hk. apply fmap_None in Hk. unfold MemoryFileSystem.exists_. rewrite Hk, bool_decide_eq_false_2 by (by intros [? ?]).
    destruct (create_directory_all_spec fs l (reaches_tree_ok fs Hr) Hl Hc) as (fs' & Hrun & _ & Hq). rewrite Hrun. exists fs'. split_and!; [done| |done].
    pose proof (fs_create_directory_all fs l Hr Hl Hc) as H. by rewrite Hrun in H.
Qed.

Lemma below_makes r fs l s op : validate_paths r = true -> segments_ok l -> segment_ok s -> clear_way fs (l ++ [s]) -> makes fs l op -> makes fs (l ++ [s]) (below r op s).
Proof.
  intros Hv Hl Hs Hc (fs1 & Hop & Hr1 & Hq1). unfold below, makes. rewrite Hop, push_absolute by done.
  assert (Hls : segments_ok (l ++ [s])) by (by apply segments_snoc).
  assert (Hc1 : clear_way fs1 (l ++ [s])).
  { intros q i Hq. rewrite Hq1 by (destruct Hq as [k Hk]; rewrite Hk in Hls; by apply Forall_app in Hls as [? _]). case_decide; [done|by apply Hc]. }
  destruct (validate_makes r fs1 (l ++ [s]) Hv Hr1 Hls Hc1) as (fs2 & Hrun & Hr2 & Hq2). exists fs2. split_and!; [done..|]. intros q Hqo. rewrite Hq2, Hq1 by done.
  case_decide as E; [done|]. rewrite decide_False; [done|]. intros E'. apply E. etrans; [exact E'|]. by apply prefix_app_r.
Qed.

Section contract.
Context (r : t) (ts : Z) (s : TablespaceStorage) (base : list string) (fs : MemoryFileSystem.t).
Hypothesis (Hv : validate_paths r = true) (Hts : tablespaces r !! ts = Some s) (Hbase : base_path s = Some (absolute_path base)).
Hypothesis (Hok : segments_ok base) (Hr : fs_reaches fs).

Definition full (l : list seg) : list string := base ++ (print_seg <$> l).

Lemma full_ok l : segments_ok (full l).
Proof. apply Forall_app. split; [apply Hok|apply print_segs_ok]. Qed.

Lemma tablespace_makes l : clear_way fs (full l) -> makes fs (full l) (in_tablespace r ts (print_seg <$> l)).
Proof.
  intros Hc. unfold in_tablespace, get_tablespace, makes. rewrite Hts. cbn [ok_or]. rewrite Hbase, pushes_absolute by apply print_segs_ok.
  by apply validate_makes; [..|apply full_ok|].
Qed.

Lemma below_full l s' op : (clear_way fs (full l) -> makes fs (full l) op) -> clear_way fs (full (l ++ [s'])) -> makes fs (full (l ++ [s'])) (below r op (print_seg s')).
Proof.
  assert (E : full (l ++ [s']) = full l ++ [print_seg s']) by (unfold full; by rewrite fmap_app, app_assoc). rewrite E.
  intros Hop Hc. apply below_makes; [apply Hv|apply full_ok|apply print_seg_ok|done|]. apply Hop. eapply clear_prefix; [|exact Hc]. by apply prefix_app_r.
Qed.

Lemma tenant_makes t : clear_way fs (full [SContainers; STenant t]) -> makes fs (full [SContainers; STenant t]) (tenant_base_path r ts t).
Proof. apply (tablespace_makes [SContainers; STenant t]). Qed.

Lemma system_makes : clear_way fs (full [SSystem]) -> makes fs (full [SSystem]) (system_base_path r ts).
Proof. apply (tablespace_makes [SSystem]). Qed.

(** The directory above, then this one. *)
Ltac climb :=
  lazymatch goal with
  | |- clear_way _ (full [SSystem]) -> _ => apply system_makes
  | |- clear_way _ (full [SContainers; STenant _]) -> _ => apply tenant_makes
  | |- clear_way _ (full ?l) -> _ =>
      let l' := eval cbv [removelast] in (removelast l) in
      let x := eval cbv [List.last] in (List.last l SSystem) in
      apply (below_full l' x); climb
  end.

Lemma locate_makes pl pt op : locate r ts pl pt = Some op -> clear_way fs (full (layout pl pt)) -> makes fs (full (layout pl pt)) op.
Proof. destruct pl, pt; try done; intros [= <-]; cbn [layout place_segs metadata_segs app]; climb. Qed.
End contract.

(** ** Any file system *)

Section any_file_system.
Context {FS H : Type} `{!FileSystem FS H} (r : t) (ts : Z).

(** Whenever [op] succeeds it returns this path. *)
Definition returns (p : Path.t) (op : FS -> kv_result Path.t * FS) : Prop := forall fs q fs', op fs = (Ok q, fs') -> q = p.

Lemma validate_returns p : returns p (validate_path r p).
Proof.
  intros fs q fs'. unfold validate_path. destruct (validate_paths r); [|congruence]. destruct (exists_at fs _) as [[]| | |]; try congruence.
  destruct (create_directory_all_at fs _) as [[]]; congruence.
Qed.

Lemma below_returns p op s : returns p op -> returns (Path.push p s) (below r op s).
Proof.
  intros Hop fs q fs'. unfold below. destruct (op fs) as [[p'| | |] fs1] eqn:E; try congruence. rewrite (Hop _ _ _ E). apply validate_returns.
Qed.

Lemma tablespace_returns l fs q fs' : in_tablespace r ts l fs = (Ok q, fs') -> exists s b, tablespaces r !! ts = Some s /\ base_path s = Some b /\ q = foldl Path.push b l.
Proof.
  unfold in_tablespace, get_tablespace. destruct (tablespaces r !! ts) as [s|]; cbn [ok_or]; [|congruence]. destruct (base_path s) as [b|] eqn:E; [|congruence].
  intros Hq%validate_returns. by exists s, b.
Qed.

(** The tablespace has this base path on this node. *)
Variable b : Path.t.
Hypothesis Hb : forall s, tablespaces r !! ts = Some s -> base_path s = Some b.

Lemma in_tablespace_returns l : returns (foldl Path.push b (print_seg <$> l)) (in_tablespace r ts (print_seg <$> l)).
Proof. intros fs q fs' Hq%tablespace_returns. destruct Hq as (s & b' & Hs & Hb' & ->). by specialize (Hb s Hs) as [= ->]%(eq_trans (eq_sym Hb')). Qed.

Lemma below_layout l x op : returns (foldl Path.push b (print_seg <$> l)) op -> returns (foldl Path.push b (print_seg <$> (l ++ [x]))) (below r op (print_seg x)).
Proof. intros Hop. rewrite fmap_app, foldl_app. by apply below_returns. Qed.

Ltac climb_layout :=
  lazymatch goal with
  | |- returns (foldl _ _ (_ <$> [SSystem])) _ => apply (in_tablespace_returns [SSystem])
  | |- returns (foldl _ _ (_ <$> [SContainers; STenant ?t])) _ => apply (in_tablespace_returns [SContainers; STenant t])
  | |- returns (foldl _ _ (_ <$> ?l)) _ =>
      let l' := eval cbv [removelast] in (removelast l) in
      let x := eval cbv [List.last] in (List.last l SSystem) in
      apply (below_layout l' x); climb_layout
  end.

Lemma locate_returns pl pt op : locate r ts pl pt = Some op -> returns (foldl Path.push b (print_seg <$> layout pl pt)) op.
Proof. destruct pl, pt; try done; intros [= <-]; cbn [layout place_segs metadata_segs app]; climb_layout. Qed.

Lemma below_fails op s fs e : op fs = (Err e, fs) -> below r op s fs = (Err e, fs).
Proof. unfold below. by intros ->. Qed.

Lemma locate_fails fs e : (forall l, in_tablespace r ts l fs = (Err e, fs)) -> forall pl pt op, locate r ts pl pt = Some op -> op fs = (Err e, fs).
Proof. intros He pl pt op. destruct pl, pt; try done; intros [= <-]; repeat first [apply He | apply below_fails]. Qed.
End any_file_system.

Lemma push_one_segment p s : segment_ok s -> Path.segments (Path.push p s) = Path.segments p ++ [s].
Proof. intros (H1 & H2 & H3 & _). unfold Path.push. rewrite decide_False by (by intros [?|?]). by rewrite decide_False. Qed.

Lemma pushes_segments l : forall p, segments_ok l -> Path.segments (foldl Path.push p l) = Path.segments p ++ l.
Proof.
  induction l as [|s l IH]; intros p Hl; [by rewrite app_nil_r|]. apply Forall_cons in Hl as [Hs Hl]. cbn [foldl]. rewrite IH by done. by rewrite push_one_segment, <- app_assoc.
Qed.

Lemma print_segs_inj l1 : forall l2, Forall seg_range l1 -> Forall seg_range l2 -> print_seg <$> l1 = print_seg <$> l2 -> l1 = l2.
Proof.
  induction l1 as [|s1 l1 IH]; intros [|s2 l2] Hf1 Hf2 Heq; [done..|]. apply Forall_cons in Hf1 as [Hs1 Hf1], Hf2 as [Hs2 Hf2].
  rewrite !fmap_cons in Heq. injection Heq as Hh Ht. f_equal; [by apply print_seg_inj|by apply IH].
Qed.

Lemma layout_range pl pt : place_range pl -> Forall seg_range (layout pl pt).
Proof. intros Hp. apply Forall_app. split; [done|]. destruct pl, pt; repeat constructor. Qed.

(** The parts that a place has. *)
Definition has_part (pl : place) (pt : part) : bool :=
  match pl, pt with
  | (TableShard _ _ _ _ | IndexShard _ _ _ _), Metadata => false
  | Level _ _ _ _ _, (Metadata | Data | WalLog | RaftLogs | Snapshots) => false
  | _, _ => true
  end.

Lemma locate_part {FS H} `{!FileSystem FS H} r ts pl pt op : locate r ts pl pt = Some op -> has_part pl pt = true.
Proof. by destruct pl, pt. Qed.

Lemma layout_inj pl1 pt1 pl2 pt2 : has_part pl1 pt1 = true -> has_part pl2 pt2 = true -> layout pl1 pt1 = layout pl2 pt2 -> pl1 = pl2 /\ pt1 = pt2.
Proof. destruct pl1, pt1; try done; intros _; destruct pl2, pt2; try done; intros _ [=]; subst; done. Qed.

(** ** The contract *)

(** Why a tablespace cannot be used on this node. *)
Definition unusable (r : t) (ts : Z) : option KeyValueError :=
  match tablespaces r !! ts with
  | None => Some (KvInvalidValue ("Tablespace " +:+ debug_id "TablespaceId" ts +:+ " not found"))
  | Some s => if is_available s then None else Some (KvInvalidValue ("Tablespace " +:+ debug_id "TablespaceId" ts +:+ " is not available on this node"))
  end.

(** Then every request fails, and makes nothing. *)
Lemma unusable_fails {FS H} `{!FileSystem FS H} r ts e pl pt (op : FS -> kv_result Path.t * FS) fs : unusable r ts = Some e -> locate r ts pl pt = Some op -> op fs = (Err e, fs).
Proof.
  intros He. apply locate_fails. intros l. revert He. unfold unusable, in_tablespace, get_tablespace, is_available. destruct (tablespaces r !! ts) as [s|]; cbn [ok_or]; [|congruence].
  destruct (base_path s); [by rewrite bool_decide_eq_true_2|rewrite bool_decide_eq_false_2 by (by intros [? ?]); congruence].
Qed.

Lemma usable r ts : unusable r ts = None -> exists b, forall s, tablespaces r !! ts = Some s -> base_path s = Some b.
Proof.
  unfold unusable, is_available. destruct (tablespaces r !! ts) as [s|]; [|done]. destruct (base_path s) as [b|] eqn:Hb; [|done]. intros _. exists b. by intros s' [= <-].
Qed.


(** C32. No two directories are the same: over every file system, two requests
    in one tablespace that return the same path are for the same place (the
    same tenant, database, table or index, shard and level) and the same part
    of it, for all identifiers of their widths. *)
Theorem resolver_distinct {FS H} `{!FileSystem FS H} r ts pl1 pt1 pl2 pt2 (op1 op2 : FS -> kv_result Path.t * FS) fs1 fs2 p fs1' fs2' :
  place_range pl1 -> place_range pl2 -> locate r ts pl1 pt1 = Some op1 -> locate r ts pl2 pt2 = Some op2 ->
  op1 fs1 = (Ok p, fs1') -> op2 fs2 = (Ok p, fs2') -> pl1 = pl2 /\ pt1 = pt2.
Proof.
  intros Hp1 Hp2 Ho1 Ho2 Hr1 Hr2. apply layout_inj; [by eapply locate_part..|]. apply print_segs_inj; [by apply layout_range..|].
  destruct (unusable r ts) as [e|] eqn:Hu; [by rewrite (unusable_fails r ts e pl1 pt1 op1 fs1 Hu Ho1) in Hr1|]. destruct (usable r ts Hu) as [b Hb].
  pose proof (locate_returns r ts b Hb pl1 pt1 op1 Ho1 _ _ _ Hr1) as E1. pose proof (locate_returns r ts b Hb pl2 pt2 op2 Ho2 _ _ _ Hr2) as E2.
  apply (app_inv_head (Path.segments b)). rewrite <- !pushes_segments by apply print_segs_ok. by rewrite <- E1, <- E2.
Qed.

(** ** A node *)

Module ResolverDemo.

Definition node : t := (register_tablespace (new (Config "/sys" "/log" {[ "fast" := "/mnt/fast" ]})) (TablespaceRecordMk 7 1 0 0 "fast" Hot [] ∅ ∅)).2.
Definition fast : TablespaceStorage := Storage 7 "fast" (Some (absolute_path ["mnt"; "fast"])).

Lemma node_fast : tablespaces node !! 7 = Some fast.
Proof. by vm_compute. Qed.


Lemma ids_in_range : place_range (TableShard 1 2 26 3).
Proof. repeat constructor; cbn; unfold is_u32; lia. Qed.

Lemma resolver_distinct_witness : (table_shard_wal_path node 7 1 2 26 3 MemoryFileSystem.new).1 <> (table_shard_data_path node 7 1 2 26 3 MemoryFileSystem.new).1.
Proof.
  intros Heq. destruct (table_shard_wal_path node 7 1 2 26 3 MemoryFileSystem.new) as [r1 fs1] eqn:E1. destruct (table_shard_data_path node 7 1 2 26 3 MemoryFileSystem.new) as [r2 fs2] eqn:E2.
  cbn [fst] in Heq. subst r2. destruct r1 as [p| | |]; [|vm_compute in E1; discriminate E1..].
  destruct (resolver_distinct node 7 (TableShard 1 2 26 3) WalLog (TableShard 1 2 26 3) Data _ _ _ _ p fs1 fs2 ids_in_range ids_in_range eq_refl eq_refl E1 E2) as [_ Hne]. discriminate Hne.
Defined.

(** What is called the metadata directory of a tenant is its [data] directory,
    and its data is in [data/data]. *)
Lemma tenant_metadata_named_data : Path.to_string <$> (match (tenant_metadata_path node 7 1 MemoryFileSystem.new).1 with Ok p => Some p | _ => None end) = Some "/mnt/fast/containers/tenant_1/data".
Proof. by vm_compute. Qed.

(** A tablespace the cluster has and this node has not. *)
Lemma not_on_this_node : unusable (register_tablespace node (TablespaceRecordMk 8 1 0 0 "slow" Cold [] ∅ ∅)).2 8
  = Some (KvInvalidValue "Tablespace TablespaceId(8) is not available on this node").
Proof. by vm_compute. Qed.
End ResolverDemo.
