(* ===== verification/KvmObjects.v ===== *)
(** * Objects of a container

    Models the namespaces, functions, tables, indexes and shards of
    nanograph-core/src/object (namespace.rs, function.rs, table.rs, index.rs,
    shard.rs), how keys are distributed over shards, and the allocator of object
    identifiers, nanograph-kvm/src/allocator.rs.  Identifiers are [Z]; an engine
    type is its name. *)

From Stdlib Require Import ZArith Lia Ascii String.
From stdpp Require Import option base gmap list strings pretty.
From S2P Require Import Prelude Objects Security BTreeError KvmCache KvmContext KvtResolver.

Open Scope Z_scope.

(** ** Shards of keys *)

Module HashFunction.
Inductive t : Type := Murmur3 | XXHash | CityHash.

(** FNV-1a, the placeholder for all three. *)
Definition fnv1a (key : list Z) : Z := foldl (fun h byte => u64 (Z.lxor h byte * 0x100000001b3)) 0xcbf29ce484222325 key.

Definition hash (f : t) (key : list Z) : Z := match f with Murmur3 => fnv1a key | XXHash => fnv1a key | CityHash => fnv1a key end.
End HashFunction.

Module Partitioner.
Inductive t : Type :=
| Hash (hash_fn : HashFunction.t)
| Range (ranges : list (list Z * list Z))
| List_ (keys : list (list (list Z)))
| Time (interval_seconds : Z).

Definition default : t := Hash HashFunction.Murmur3.

(** The index of the first element with a property, 0 when there is none. *)
Definition first_index {A} (f : A -> bool) (l : list A) : Z := match list_find (fun x => f x = true) l with Some (i, _) => u32 (Z.of_nat i) | None => 0 end.

(** Remainder by zero and the overflow of a division panic. *)
Definition get_shard_number (p : t) (key : list Z) (shard_count : Z) : kv_result Z :=
  match p with
  | Hash hash_fn => if shard_count =? 0 then Panic else Ok (u32 (HashFunction.hash hash_fn key mod shard_count))
  | Range ranges => Ok (first_index (fun r => bool_decide (bytes_le r.1 key) && bool_decide (bytes_lt key r.2)) ranges)
  | List_ keys => Ok (first_index (fun l => bool_decide (key ∈ l)) keys)
  | Time interval_seconds =>
      if (8 <=? length key)%nat then
        let timestamp := signed 64 (be_value (take 8 key)) in
        let interval := signed 64 interval_seconds in
        if interval =? 0 then Panic
        else if (interval =? -1) && (timestamp =? - 2 ^ 63) then Panic
        else if shard_count =? 0 then Panic
        else Ok (u32 (Z.abs (Z.rem (Z.quot timestamp interval) shard_count)))
      else Ok 0
  end.
End Partitioner.

(** [TableSharding] and [IndexSharding] are the same. *)
Inductive Sharding : Type :=
| Single
| Multiple (shard_count : Z) (partitioner : Partitioner.t) (replication_factor : Z).

(** ** Records *)

Inductive ObjectType : Type := NamespaceObject | TableObject | IndexObject | FunctionObject.

Record NamespaceCreate : Type := { nc_name : string; nc_parent : Z; nc_options : properties; nc_metadata : properties }.
Record NamespaceUpdate : Type := { nu_name : option string; nu_options : list PropertyUpdate; nu_metadata : list PropertyUpdate }.
Record NamespaceRecord : Type := NamespaceRecordMk {
  nr_id : Z; nr_name : string; nr_version : Z; nr_path : string; nr_created_at : Z; nr_last_modified : Z; nr_default_tablespace : option Z;
  nr_options : properties; nr_metadata : properties }.

Record FunctionRecord : Type := FunctionRecordMk {
  fr_id : Z; fr_name : string; fr_path : string; fr_version : Z; fr_created_at : Z; fr_last_modified : Z; fr_options : properties; fr_metadata : properties }.

Record TableCreate : Type := TableCreateMk {
  bc_name : string; bc_path : string; bc_engine_type : string; bc_sharding_config : Sharding; bc_options : properties; bc_metadata : properties }.
Record TableUpdate : Type := {
  bu_name : option string; bu_engine_type : option string; bu_sharding_config : option Sharding; bu_options : list PropertyUpdate; bu_metadata : list PropertyUpdate }.
Record TableRecord : Type := TableRecordMk {
  br_table_id : Z; br_name : string; br_path : string; br_version : Z; br_created_at : Z; br_engine_type : string; br_updated_at : Z; br_sharding : Sharding;
  br_options : properties; br_metadata : properties }.

Inductive IndexType : Type := Secondary | Unique | FullText | Spatial | VectorFlat | VectorHNSW | VectorIVF | VectorIVFPQ | VectorAnnoy | VectorVamana.
Inductive IndexStatus : Type := Building | ActiveIndex | Rebuilding | Disabled.

Record IndexCreate : Type := {
  ic_name : string; ic_index_type : IndexType; ic_columns : list string; ic_key_extractor : option string; ic_options : properties; ic_metadata : properties;
  ic_sharding : Sharding }.
Record IndexUpdate : Type := { iu_name : option string; iu_options : list PropertyUpdate; iu_metadata : list PropertyUpdate }.
Record IndexRecord : Type := IndexRecordMk {
  ir_index_id : Z; ir_name : string; ir_version : Z; ir_index_type : IndexType; ir_created_at : Z; ir_updated_at : Z; ir_columns : list string;
  ir_key_extractor : option string; ir_options : properties; ir_metadata : properties; ir_status : IndexStatus; ir_sharding : Sharding }.

Inductive ShardType : Type := TableShardType | IndexShardType.
Inductive ShardStatus : Type := ActiveShard | Rebalancing | Splitting | Merging | Offline.

Record ShardRecord : Type := ShardRecordMk {
  hr_shard_id : Z; hr_label : string; hr_version : Z; hr_shard_type : ShardType; hr_engine_type : string; hr_created_at : Z; hr_updated_at : Z;
  hr_range : list Z * list Z; hr_leader : option Z; hr_replicas : list Z; hr_status : ShardStatus; hr_term : Z; hr_size_bytes : Z }.

Record ShardCreate : Type := ShardCreateMk {
  hc_container_id : Z; hc_object_id : Z; hc_shard_number : Z; hc_tablespace_id : Z; hc_shard_type : ShardType; hc_engine_type : string; hc_replication_factor : Z }.
Definition shard_create (container_id object_id shard_number tablespace_id : Z) (ty : ShardType) (engine_type : string) : ShardCreate :=
  ShardCreateMk container_id object_id shard_number tablespace_id ty engine_type 1.

(** [TenantId], [DatabaseId] and [ShardNumber] print their hexadecimal digits. *)
Definition display_hex (name : string) (id : Z) : string := name +:+ "(" +:+ hex 8 id +:+ ")".

Definition generate_label (kind : string) (shard : Z) : string :=
  "tenant_" +:+ display_hex "Tenant" (ShardId.tenant shard) +:+ "_database_" +:+ display_hex "Database" (ShardId.database shard) +:+
  "_" +:+ kind +:+ "_" +:+ display_object (ShardId.object shard) +:+ "_shard_" +:+ display_hex "ShardNumber" (ShardId.shard_number shard).
Definition generate_table_label (shard : Z) : string := generate_label "table" shard.
Definition generate_index_label (shard : Z) : string := generate_label "index" shard.

(** ** The allocator *)

Module ObjectAllocator.

Inductive AllocationError : Type :=
| NotLeader
| ConsensusError (message : string)
| Exhausted
| InternalAllocation (message : string).

Inductive AllocationCommand : Type :=
| AllocateObjectId (container_id object_id : Z)
| AllocateObjectIdRange (container_id first last : Z).

Abbreviation alloc_result := (result AllocationError).

Record t : Type := mk { container_id : Z; next_id : Z; distributed : bool }.

Definition new_standalone (container : Z) : t := mk container 1 false.
Definition new_distributed (container : Z) : t := mk container 1 true.
Definition with_start_id (container start : Z) (raft : bool) : t := mk container start raft.
Definition store (a : t) (n : Z) : t := mk (container_id a) n (distributed a).

(** [fetch_add] wraps around. *)
Definition fetch_add (a : t) (n : Z) : Z * t := (next_id a, store a (u32 (next_id a + n))).

Definition allocate_local (a : t) : alloc_result Z * t :=
  let '(id, a) := fetch_add a 1 in if id =? 2 ^ 32 - 1 then (Err Exhausted, a) else (Ok id, a).

Definition allocate_range_local (a : t) (count : Z) : alloc_result (Z * Z) * t :=
  let '(start, a) := fetch_add a count in if start + count <? 2 ^ 32 then (Ok (start, start + count), a) else (Err Exhausted, a).

Definition apply_allocation (a : t) (c : AllocationCommand) : t :=
  match c with
  | AllocateObjectId _ object_id => store a (Z.min (object_id + 1) (2 ^ 32 - 1))
  | AllocateObjectIdRange _ _ last => store a last
  end.

Definition current_next_id (a : t) : Z := next_id a.
Definition reset_to (a : t) (id : Z) : t := store a id.

Section distributed.
(** The consensus manager and the serialization of commands. *)
Context {R : Type} (raft_put : R -> list Z -> list Z -> option string * R) `{!Codec AllocationCommand}.
Variable key_of : Z -> list Z.

Definition propose (c : AllocationCommand) (container : Z) (r : R) : alloc_result unit * R :=
  match to_bytes c with
  | None => (Err (InternalAllocation "Failed to serialize command"), r)
  | Some b =>
      match raft_put r (key_of container) b with
      | (None, r) => (Ok tt, r)
      | (Some e, r) => (Err (ConsensusError ("Failed to propose allocation: " +:+ e)), r)
      end
  end.

Definition allocate_distributed (a : t) (r : R) : alloc_result Z * t * R :=
  let '(id, a) := fetch_add a 1 in
  if id =? 2 ^ 32 - 1 then (Err Exhausted, a, r)
  else let '(x, r) := propose (AllocateObjectId (container_id a) id) (container_id a) r in ((let! _ := x in Ok id), a, r).

Definition allocate_range_distributed (a : t) (count : Z) (r : R) : alloc_result (Z * Z) * t * R :=
  let '(start, a) := fetch_add a count in
  if start + count <? 2 ^ 32 then
    let '(x, r) := propose (AllocateObjectIdRange (container_id a) start (start + count)) (container_id a) r in ((let! _ := x in Ok (start, start + count)), a, r)
  else (Err Exhausted, a, r).

Definition allocate (a : t) (r : R) : alloc_result Z * t * R :=
  if distributed a then allocate_distributed a r else let '(x, a) := allocate_local a in (x, a, r).
Definition allocate_range (a : t) (count : Z) (r : R) : alloc_result (Z * Z) * t * R :=
  if distributed a then allocate_range_distributed a count r else let '(x, a) := allocate_range_local a count in (x, a, r).
End distributed.
End ObjectAllocator.

(** ** Shard identifiers *)

Lemma shard_value t d o n : is_u32 d -> is_u32 o -> is_u32 n -> ShardId.from_parts t d o n = ((t * 2 ^ 32 + d) * 2 ^ 32 + o) * 2 ^ 32 + n.
Proof.
  unfold is_u32, ShardId.from_parts. intros Hd Ho Hn. rewrite Z.shiftl_0_r.
  rewrite <- (pack_high 32 ((t * 2 ^ 32 + d) * 2 ^ 32 + o) n) by lia. f_equal.
  rewrite <- (pack_high 32 (t * 2 ^ 32 + d) o), <- (pack_high 32 t d) by lia. rewrite !Z.shiftl_lor, !Z.shiftl_shiftl by lia. done.
Qed.

(** The parts of a shard identifier are those it was made from. *)
Lemma shard_parts t d o n : is_u32 t -> is_u32 d -> is_u32 o -> is_u32 n ->
  let s := ShardId.from_parts t d o n in ShardId.tenant s = t /\ ShardId.database s = d /\ ShardId.object s = o /\ ShardId.shard_number s = n.
Proof.
  intros Ht Hd Ho Hn. cbv zeta. rewrite shard_value by done. unfold ShardId.tenant, ShardId.database, ShardId.object, ShardId.shard_number, u32. unfold is_u32 in *.
  change 96 with (32 + (32 + 32)). change 64 with (32 + 32). rewrite <- !Z.shiftr_shiftr, !unpack_high by lia. rewrite !unpack_low by lia. split_and!; try done. by apply wrap_small.
Qed.

Lemma shard_inj t d o n t' d' o' n' : is_u32 t -> is_u32 d -> is_u32 o -> is_u32 n -> is_u32 t' -> is_u32 d' -> is_u32 o' -> is_u32 n' ->
  ShardId.from_parts t d o n = ShardId.from_parts t' d' o' n' -> t = t' /\ d = d' /\ o = o' /\ n = n'.
Proof.
  intros Ht Hd Ho Hn Ht' Hd' Ho' Hn' E. destruct (shard_parts t d o n) as (E1 & E2 & E3 & E4); [done..|].
  destruct (shard_parts t' d' o' n') as (F1 & F2 & F3 & F4); [done..|]. rewrite E in E1, E2, E3, E4. split_and!; congruence.
Qed.

(** ** Keys go to shards that exist *)

(** A partitioner fits a number of shards. *)
Definition fits (p : Partitioner.t) (shard_count : Z) : Prop :=
  0 < shard_count < 2 ^ 32 /\
  match p with
  | Partitioner.Hash _ => True
  | Partitioner.Range ranges => Z.of_nat (length ranges) <= shard_count
  | Partitioner.List_ keys => Z.of_nat (length keys) <= shard_count
  | Partitioner.Time interval => signed 64 interval <> 0 /\ signed 64 interval <> -1
  end.

#[global] Instance fits_dec p n : Decision (fits p n).
Proof. destruct p; unfold fits; apply _. Defined.

Lemma first_index_range {A} (f : A -> bool) l n : Z.of_nat (length l) <= n < 2 ^ 32 -> 0 < n -> 0 <= Partitioner.first_index f l < n.
Proof.
  intros Hn H0. unfold Partitioner.first_index. destruct (list_find _ l) as [[i x]|] eqn:E; [|lia]. apply list_find_Some in E as (Hi & _). apply lookup_lt_Some in Hi.
  unfold u32. rewrite wrap_small; lia.
Qed.

(** A key always has a shard, and it is one of those the object has, when the
    partitioner fits; ranges and lists beyond the number of shards, no shards
    at all, and an interval of 0 or -1 seconds do not fit. *)
Lemma partition_in_range p key n : fits p n -> exists i, Partitioner.get_shard_number p key n = Ok i /\ 0 <= i < n.
Proof.
  intros [Hn Hp]. destruct p as [h|ranges|keys|interval]; cbn [Partitioner.get_shard_number].
  - rewrite (proj2 (Z.eqb_neq _ _)) by lia. eexists. split; [reflexivity|]. pose proof (Z.mod_pos_bound (HashFunction.hash h key) n ltac:(lia)). unfold u32. rewrite wrap_small; lia.
  - eexists. split; [reflexivity|]. apply first_index_range; lia.
  - eexists. split; [reflexivity|]. apply first_index_range; lia.
  - destruct (8 <=? length key)%nat; [|exists 0; split; [done|lia]]. destruct Hp as [H0 H1]. rewrite (proj2 (Z.eqb_neq _ 0)), (proj2 (Z.eqb_neq (signed 64 interval) (-1))) by done. cbn [andb].
    rewrite (proj2 (Z.eqb_neq _ _)) by lia. eexists. split; [reflexivity|]. pose proof (Z.rem_bound_abs (Z.quot (signed 64 (be_value (take 8 key))) (signed 64 interval)) n ltac:(lia)).
    unfold u32. rewrite wrap_small; lia.
Qed.

(** ** Identifiers handed out are new *)

Module Allocation.
Import ObjectAllocator.

Inductive request : Type := One | Many (count : Z).

Definition size_of (q : request) : Z := match q with One => 1 | Many n => n end.

(** The identifiers a request returns. *)
Definition serve (a : t) (q : request) : list Z * t :=
  match q with
  | One => match allocate_local a with (Ok id, a) => ([id], a) | (_, a) => ([], a) end
  | Many n => match allocate_range_local a n with (Ok (x, y), a) => (seqZ x (y - x), a) | (_, a) => ([], a) end
  end.

Fixpoint serve_all (a : t) (qs : list request) : list Z * t :=
  match qs with
  | [] => ([], a)
  | q :: qs => let '(ids, a) := serve a q in let '(rest, a) := serve_all a qs in (ids ++ rest, a)
  end.

Fixpoint total (qs : list request) : Z := match qs with [] => 0 | q :: qs => size_of q + total qs end.

Lemma serve_fits a q : 0 <= next_id a -> 0 <= size_of q -> next_id a + size_of q < 2 ^ 32 ->
  serve a q = (seqZ (next_id a) (size_of q), store a (next_id a + size_of q)).
Proof.
  intros H0 Hq Hfit. destruct q as [|n]; cbn [serve size_of] in *; unfold allocate_local, allocate_range_local, fetch_add.
  - rewrite (proj2 (Z.eqb_neq _ _)) by lia. unfold u32. by rewrite wrap_small by lia.
  - rewrite (proj2 (Z.ltb_lt _ _)) by lia. unfold u32. rewrite wrap_small by lia. do 2 f_equal. lia.
Qed.

Lemma total_nonneg qs : Forall (fun q => 0 <= size_of q) qs -> 0 <= total qs.
Proof. induction 1; cbn [total]; lia. Qed.

Lemma serve_all_fits qs : forall a, Forall (fun q => 0 <= size_of q) qs -> 0 <= next_id a -> next_id a + total qs < 2 ^ 32 ->
  serve_all a qs = (seqZ (next_id a) (total qs), store a (next_id a + total qs)).
Proof.
  induction qs as [|q qs IH]; intros a Hq H0 Hfit; cbn [serve_all total] in *; [destruct a; cbn; by rewrite Z.add_0_r|].
  apply Forall_cons in Hq as [Hq Hqs]. pose proof (total_nonneg qs Hqs). rewrite serve_fits by lia. rewrite IH by (cbn [store next_id]; first [done|lia]). cbn [store next_id].
  f_equal; [|unfold store; cbn; f_equal; lia]. by rewrite seqZ_app by lia.
Qed.

(** After the last identifier the counter starts again. *)
Lemma counter_wraps : let '(ids, a) := serve_all (with_start_id 0 (2 ^ 32 - 2) false) [One; One; One; One] in ids = [2 ^ 32 - 2; 0; 1].
Proof. by vm_compute. Qed.

(** A committed command moves the counter back when a later one was made before. *)
Lemma apply_moves_back : let a := (allocate_local (allocate_local (new_standalone 0)).2).2 in next_id (apply_allocation a (AllocateObjectId 0 1)) < next_id a.
Proof. by vm_compute. Qed.
End Allocation.

(** Object identifiers are unique: whatever mixture of single and range
    allocations is made from a new allocator, as long as they fit in 32 bits
    all succeed and the identifiers handed out are 1, 2, 3, ... in order, each
    once. *)
Theorem allocator_unique container qs : Forall (fun q => 0 <= Allocation.size_of q) qs -> 1 + Allocation.total qs < 2 ^ 32 ->
  (Allocation.serve_all (ObjectAllocator.new_standalone container) qs).1 = seqZ 1 (Allocation.total qs) /\
  NoDup (Allocation.serve_all (ObjectAllocator.new_standalone container) qs).1.
Proof.
  intros Hq Hfit. rewrite Allocation.serve_all_fits by (cbn; first [done|lia]). cbn [fst ObjectAllocator.new_standalone ObjectAllocator.next_id]. split; [done|apply NoDup_seqZ].
Qed.

Lemma allocator_unique_witness : (Allocation.serve_all (ObjectAllocator.new_standalone 7) [Allocation.One; Allocation.Many 3; Allocation.One]).1 = [1; 2; 3; 4; 5].
Proof. exact (proj1 (allocator_unique 7 [Allocation.One; Allocation.Many 3; Allocation.One] ltac:(repeat constructor; cbn; lia) ltac:(cbn; lia))). Defined.
