(* ===== verification/KvmPath.v ===== *)
(** * Object paths of a container

    Models [ObjectPathResolver] of nanograph-kvm/src/cache/resolver.rs: a tree of
    objects with a map from dotted paths to them.  Nodes refer to each other by
    identifier, as in the code, so nothing but the operations keeps the links,
    the names and the map together.  Loops along links have fuel. *)

From Stdlib Require Import ZArith Lia Ascii String.
From stdpp Require Import sorting option base gmap list strings.
From S2P Require Import Prelude Objects Security BTreeError VfsPath KvmCache KvmContext KvtResolver KvmObjects.

Open Scope Z_scope.

Module ObjectPathResolver.

Record PathNode : Type := Node { object_id : Z; object_name : string; object_type : ObjectType; parent : option Z; children : list Z }.

Record t : Type := mk { nodes : gmap Z PathNode; paths : gmap string Z; available : gset Z; next : Z }.

Abbreviation path_result := (result string).

Definition default : t := mk ∅ ∅ ∅ 0.

Definition dot : ascii := "."%char.

(** [split('.')]. *)
Fixpoint split_dot (s : string) : list string :=
  match s with
  | EmptyString => [EmptyString]
  | String c s' =>
      if decide (c = dot) then EmptyString :: split_dot s'
      else match split_dot s' with x :: xs => String c x :: xs | [] => [String c EmptyString] end
  end.

Definition parse_path (path : string) : list string := filter (fun s => s <> "") (split_dot path).

(** [join(".")]. *)
Fixpoint build_path (l : list string) : string :=
  match l with
  | [] => ""
  | [x] => x
  | x :: l' => x +:+ "." +:+ build_path l'
  end.

(** [BTreeSet::pop_first]. *)
Definition pop_first (s : gset Z) : option (Z * gset Z) :=
  match elements s with
  | [] => None
  | x :: l => let m := foldr Z.min x l in Some (m, s ∖ {[m]})
  end.

Definition get_next_object_id (r : t) : path_result (Z * t) :=
  match pop_first (available r) with
  | Some (id, rest) => Ok (id, mk (nodes r) (paths r) rest (next r))
  | None => if next r + 1 <? 2 ^ 32 then Ok (next r, mk (nodes r) (paths r) (available r) (next r + 1)) else Panic
  end.

Definition set_children (n : PathNode) (l : list Z) : PathNode := Node (object_id n) (object_name n) (object_type n) (parent n) l.

Definition with_children (r : t) (f : list Z -> list Z) (p : option Z) : t :=
  match p with
  | Some i => mk (alter (fun n => set_children n (f (children n))) i (nodes r)) (paths r) (available r) (next r)
  | None => r
  end.

(** A node below [p], entered in the map and in its parent. *)
Definition attach (r : t) (idx : Z) (name current : string) (ty : ObjectType) (p : option Z) : t :=
  with_children (mk (<[idx := Node idx name ty p []]> (nodes r)) (<[current := idx]> (paths r)) (available r) (next r)) (fun l => l ++ [idx]) p.

Definition extend (current part : string) : string := (if decide (current = "") then "" else current +:+ ".") +:+ part.

(** The loop of [add_path] and [set_path_object]; [leaf] is the identifier of
    the last node when it is given. *)
Fixpoint add_parts (r : t) (parts : list string) (current : string) (p : option Z) (leaf : option Z) (ty : ObjectType) : path_result (option Z * t) :=
  match parts with
  | [] => Ok (p, r)
  | part :: rest =>
      let current := extend current part in
      match paths r !! current with
      | Some existing => add_parts r rest current (Some existing) leaf ty
      | None =>
          let is_leaf := match rest with [] => true | _ => false end in
          let node_type := if is_leaf then ty else NamespaceObject in
          let! made := match leaf with Some id => if is_leaf then Ok (id, r) else get_next_object_id r | None => get_next_object_id r end in
          add_parts (attach made.2 made.1 part current node_type p) rest current (Some made.1) leaf ty
      end
  end.

Definition add_path (r : t) (path : string) (ty : ObjectType) : path_result (Z * t) :=
  match parse_path path with
  | [] => Err "Empty path"
  | parts =>
      match paths r !! path with
      | Some _ => Err ("Path already exists: " +:+ path)
      | None => let! done := add_parts r parts "" None None ty in let! id := or_panic done.1 in Ok (id, done.2)
      end
  end.

Definition set_path_object (r : t) (path : string) (object_id : Z) (ty : ObjectType) : path_result t :=
  let! done := add_parts r (parse_path path) "" None (Some object_id) ty in Ok done.2.

Definition remove_path (r : t) (path : string) : path_result t :=
  let! idx := ok_or (paths r !! path) ("Path not found: " +:+ path) in
  let! node := ok_or (nodes r !! idx) "Node not found" in
  match children node with
  | _ :: _ => Err ("Cannot remove node with children: " +:+ path)
  | [] =>
      let r := with_children r (filter (fun c => c <> idx)) (parent node) in
      Ok (mk (delete idx (nodes r)) (delete path (paths r)) ({[idx]} ∪ available r) (next r))
  end.

(** The loop to the root. *)
Fixpoint get_node_path (fuel : nat) (r : t) (idx : Z) (parts : list string) : path_result (option string) :=
  match fuel with
  | O => Timeout
  | S fuel =>
      match nodes r !! idx with
      | None => Ok None
      | Some n =>
          match parent n with
          | Some p => get_node_path fuel r p (object_name n :: parts)
          | None => Ok (Some (build_path (object_name n :: parts)))
          end
      end
  end.

Fixpoint update_descendant_paths (fuel : nat) (r : t) (idx : Z) : path_result t :=
  match fuel with
  | O => Timeout
  | S fuel' =>
      let! path := get_node_path fuel r idx [] in
      let r := match path with Some s => mk (nodes r) (<[s := idx]> (paths r)) (available r) (next r) | None => r end in
      match nodes r !! idx with
      | None => Ok r
      | Some n => foldl (fun r child => let! r := r in update_descendant_paths fuel' r child) (Ok r) (children n)
      end
  end.

Definition move_path (fuel : nat) (r : t) (from to : string) : path_result t :=
  let! from_idx := ok_or (paths r !! from) ("Source path not found: " +:+ from) in
  match parse_path to with
  | [] => Err "Empty destination path"
  | to_parts =>
      let new_parent_path := build_path (removelast to_parts) in
      let! new_parent := if decide (new_parent_path = "") then Ok None else let! i := ok_or (paths r !! new_parent_path) ("Parent path not found: " +:+ new_parent_path) in Ok (Some i) in
      match paths r !! to with
      | Some _ => Err ("Destination path already exists: " +:+ to)
      | None =>
          let! node := or_panic (nodes r !! from_idx) in
          let r := with_children r (filter (fun c => c <> from_idx)) (parent node) in
          let r := with_children r (fun l => l ++ [from_idx]) new_parent in
          let r := mk (alter (fun n => Node (object_id n) (List.last to_parts "") (object_type n) new_parent (children n)) from_idx (nodes r))
                     (filter (fun b => String.prefix (from +:+ ".") b.1 = false) (base.delete from (paths r))) (available r) (next r) in
          update_descendant_paths fuel r from_idx
      end
  end.

Definition list_objects (r : t) (pre : option string) : list (string * ObjectType) :=
  omap (fun p => match pre with
                 | Some s => if String.prefix s p then (fun n => (p, object_type n)) <$> (paths r !! p ≫= fun i => nodes r !! i) else None
                 | None => (fun n => (p, object_type n)) <$> (paths r !! p ≫= fun i => nodes r !! i)
                 end) (merge_sort String.le (map_to_list (paths r)).*1).

Definition get_path_reference (r : t) (path : string) : option PathNode := paths r !! path ≫= fun i => nodes r !! i.

End ObjectPathResolver.
