(* ===== verification/KvmPathSpec.v ===== *)
(** * The tree of object paths

    The invariant of [ObjectPathResolver]: the map of paths has exactly the
    nodes of a tree under their dotted names.  That adding, removing and moving
    keep it and what they do to the objects found under every path; that a move
    ends after a number of steps bounded by the number of nodes; and that a move
    of a node below itself never ends. *)

From Stdlib Require Import ZArith Lia Ascii String.
From stdpp Require Import sorting option base gmap list strings.
From S2P Require Import Prelude Objects Security BTreeError VfsPath KvmCache KvmContext KvtResolver KvmObjects KvmPath.

Open Scope Z_scope.
Import ObjectPathResolver.

(** ** Dotted names *)

Fixpoint no_dot (s : string) : Prop := match s with EmptyString => True | String c s' => c <> dot /\ no_dot s' end.

#[global] Instance no_dot_dec s : Decision (no_dot s).
Proof. induction s; cbn; apply _. Defined.

(** A name a part of a path may have. *)
Definition name_ok (s : string) : Prop := s <> "" /\ no_dot s.

#[global] Instance name_ok_dec s : Decision (name_ok s).
Proof. unfold name_ok. apply _. Defined.

Lemma build_cons x l : l <> [] -> build_path (x :: l) = x +:+ "." +:+ build_path l.
Proof. by destruct l. Qed.

Lemma split_dot_word s : no_dot s -> split_dot s = [s].
Proof. induction s as [|c s IH]; [done|]. intros [Hc Hs]. cbn [split_dot]. rewrite decide_False by done. by rewrite IH. Qed.

Lemma split_dot_cons x s : no_dot x -> split_dot (x +:+ "." +:+ s) = x :: split_dot s.
Proof.
  induction x as [|c x IH]; [done|]. intros [Hc Hx]. change (split_dot (String c (x +:+ "." +:+ s)) = String c x :: split_dot s).
  cbn [split_dot]. rewrite decide_False by done. by rewrite IH.
Qed.

Lemma build_app a b : a <> [] -> b <> [] -> build_path (a ++ b) = build_path a +:+ "." +:+ build_path b.
Proof.
  intros Ha Hb. induction a as [|x a IH]; [done|]. destruct a as [|y a]; [cbn [app]; by rewrite build_cons|].
  cbn [app] in *. rewrite build_cons, IH, (build_cons x (y :: a)) by done. by rewrite !string_app_assoc.
Qed.

Lemma split_build_app l s : Forall no_dot l -> l <> [] -> split_dot (build_path l +:+ "." +:+ s) = l ++ split_dot s.
Proof.
  intros Hl. induction Hl as [|x l Hx Hl IH]; [done|]. intros _. destruct l as [|y l]; [by apply split_dot_cons|].
  rewrite build_cons by done. rewrite <- string_app_assoc. rewrite <- (string_app_assoc "." (build_path (y :: l))). rewrite split_dot_cons by done. cbn [app]. by rewrite IH.
Qed.

Lemma split_build l : Forall no_dot l -> l <> [] -> split_dot (build_path l) = l.
Proof.
  intros Hl. induction Hl as [|x l Hx Hl IH]; [done|]. intros _. destruct l as [|y l]; [by apply split_dot_word|].
  rewrite build_cons, split_dot_cons by done. by rewrite IH.
Qed.

Definition names_ok (l : list string) : Prop := Forall name_ok l /\ l <> [].

Lemma names_no_dot l : names_ok l -> Forall no_dot l /\ l <> [].
Proof. intros [Hl Hn]. split; [|done]. eapply Forall_impl; [exact Hl|]. by intros x [_ Hx]. Qed.

Lemma names_ok_app a b : names_ok a -> Forall name_ok b -> names_ok (a ++ b).
Proof. intros [Ha Hn] Hb. split; [by apply Forall_app|by destruct a]. Qed.

Lemma parse_build l : names_ok l -> parse_path (build_path l) = l.
Proof.
  intros H. unfold parse_path. destruct (names_no_dot l H) as [Hd Hn]. rewrite split_build by done. destruct H as [Hl _]. clear Hd Hn.
  induction Hl as [|x l [Hx _] _ IH]; [done|]. rewrite filter_cons_True by done. by rewrite IH.
Qed.

Lemma build_inj a b : names_ok a -> names_ok b -> build_path a = build_path b -> a = b.
Proof. intros Ha Hb E. rewrite <- (parse_build a), <- (parse_build b) by done. by rewrite E. Qed.

(** What [parse_path] returns has only good names. *)
Lemma split_dot_ok s : Forall no_dot (split_dot s).
Proof.
  induction s as [|c s IH]; [by repeat constructor|]. cbn [split_dot]. case_decide; [by constructor|].
  destruct (split_dot s); [repeat constructor; done|]. apply Forall_cons in IH as [Hx Hl]. by constructor.
Qed.

Lemma parse_names s : Forall name_ok (parse_path s).
Proof.
  unfold parse_path. apply Forall_forall. intros x [Hx Hin]%list_elem_of_filter. split; [done|]. pose proof (split_dot_ok s) as H. rewrite Forall_forall in H. by apply H.
Qed.

Lemma string_prefix p s : String.prefix p s = true <-> exists t, s = p +:+ t.
Proof.
  revert s. induction p as [|c p IH]; intros s; [split; [by exists s|by destruct s]|]. destruct s as [|c' s]; cbn [String.prefix].
  { split; [done|by intros [t [=]]]. }
  destruct (ascii_dec c c') as [<-|Hn]; [|split; [done|intros [t [=]]; done]]. rewrite IH. split; intros [t Ht]; exists t; [by rewrite Ht|by injection Ht].
Qed.

(** The paths that start with a path and a dot are those below it. *)
Lemma prefix_below a b : names_ok a -> names_ok b -> String.prefix (build_path a +:+ ".") (build_path b) = true <-> exists l, l <> [] /\ b = a ++ l.
Proof.
  intros Ha Hb. rewrite string_prefix. split.
  - intros [t Ht]. rewrite <- string_app_assoc in Ht. destruct (names_no_dot a Ha) as [Hda Hna]. destruct (names_no_dot b Hb) as [Hdb Hnb].
    pose proof (split_build b Hdb Hnb) as E. rewrite Ht, split_build_app in E by done. exists (split_dot t). split; [|done]. intros E'. destruct t as [|c t]; [done|]. cbn in E'.
    case_decide; [done|]. by destruct (split_dot t).
  - intros (l & Hl & ->). exists (build_path l). rewrite build_app by (done || apply Ha). by rewrite string_app_assoc.
Qed.

(** ** Nodes and their names *)

Implicit Types (r : t) (i j : Z) (l : list string).

(** The name and the parent of a node, and its children. *)
Definition link r i : option (string * option Z) := (fun n => (object_name n, parent n)) <$> nodes r !! i.
Definition kids r i : list Z := match nodes r !! i with Some n => children n | None => [] end.
Definition type_at r i : option ObjectType := object_type <$> nodes r !! i.

Lemma link_node r i : (exists n, nodes r !! i = Some n) <-> exists x, link r i = Some x.
Proof. unfold link. destruct (nodes r !! i) as [n|]; cbn; split; intros [x Hx]; by eauto. Qed.

(** The names from the root to a node. *)
Inductive named r : Z -> list string -> Prop :=
| named_root i x : link r i = Some (x, None) -> named r i [x]
| named_child i x p l : link r i = Some (x, Some p) -> named r p l -> named r i (l ++ [x]).

Lemma named_functional r i l l' : named r i l -> named r i l' -> l = l'.
Proof.
  intros H. revert l'. induction H as [i x Hi|i x p l Hi Hp IH]; intros l' H'; inversion H' as [? y Hy|? y q m Hy Hq]; subst; rewrite Hi in Hy; [by injection Hy as ->|done|done|].
  injection Hy as -> ->. by rewrite (IH m Hq).
Qed.

Lemma named_ext r r' i l : (forall j, link r' j = link r j) -> named r i l -> named r' i l.
Proof. intros E. induction 1 as [i x Hi|i x p l Hi Hp IH]; [apply named_root; by rewrite E|apply (named_child r' i x p); [by rewrite E|done]]. Qed.

Lemma named_nonempty r i l : named r i l -> l <> [].
Proof. destruct 1; [done|]. by destruct l. Qed.

Lemma named_node r i l : named r i l -> exists n, nodes r !! i = Some n.
Proof. destruct 1 as [i x Hi|i x p l Hi Hp]; unfold link in Hi; (destruct (nodes r !! i) as [n|]; [by exists n|done]). Qed.

(** The last step to a node below another. *)
Lemma named_step r i l x : named r i (l ++ [x]) -> l <> [] -> exists p, link r i = Some (x, Some p) /\ named r p l.
Proof.
  remember (l ++ [x]) as m eqn:E. intros H Hl. destruct H as [i y Hy|i y p m Hy Hp].
  - destruct l as [|z l]; [done|]. apply (f_equal length) in E. rewrite length_app in E. cbn in E. lia.
  - apply app_inj_tail in E as [-> ->]. by exists p.
Qed.

Lemma named_first r i x : named r i [x] -> link r i = Some (x, None).
Proof.
  remember [x] as l eqn:E. intros H. destruct H as [i y Hy|i y p m Hy Hp]; [by injection E as ->|]. destruct (named_nonempty r p m Hp). destruct m; [done|].
  apply (f_equal length) in E. rewrite length_app in E. cbn in E. lia.
Qed.

(** Every beginning of the names of a node names a node. *)
Lemma named_prefix r i l : named r i l -> forall k, (1 <= k <= length l)%nat -> exists j, named r j (take k l).
Proof.
  induction 1 as [i x Hi|i x p l Hi Hp IH]; intros k Hk.
  - cbn in Hk. replace k with 1%nat by lia. exists i. by apply named_root.
  - rewrite length_app in Hk. cbn in Hk. destruct (decide (k = S (length l))) as [->|Hn].
    + exists i. rewrite take_ge by (rewrite length_app; cbn; lia). by apply (named_child r i x p).
    + rewrite take_app_le by lia. apply IH. lia.
Qed.

Lemma named_prefixes r i l k : named r i l -> (k <= length l)%nat -> exists js, Forall2 (fun m j => named r j (take m l)) (seq 1 k) js.
Proof.
  intros H. induction k as [|k IH]; intros Hk; [by exists []|]. destruct (IH ltac:(lia)) as [js Hjs]. destruct (named_prefix r i l H (S k) ltac:(lia)) as [j Hj].
  exists (js ++ [j]). rewrite seq_S. apply Forall2_app; [done|]. by repeat constructor.
Qed.

(** Names are no longer than there are nodes. *)
Lemma named_bound r i l : named r i l -> (length l <= base.size (nodes r))%nat.
Proof.
  intros H. destruct (named_prefixes r i l (length l) H ltac:(lia)) as [js Hjs]. pose proof (Forall2_length _ _ _ Hjs) as Hlen. rewrite length_seq in Hlen.
  assert (Hnd : NoDup js).
  { apply NoDup_alt. intros a b j Ha Hb. destruct (Forall2_lookup_r _ _ _ _ _ Hjs Ha) as (x & Hx & Hnx). destruct (Forall2_lookup_r _ _ _ _ _ Hjs Hb) as (y & Hy & Hny).
    pose proof (named_functional r j _ _ Hnx Hny) as E. apply lookup_seq in Hx as [-> Hx]. apply lookup_seq in Hy as [-> Hy].
    apply (f_equal length) in E. rewrite !length_take in E. lia. }
  rewrite Hlen, <- size_dom. rewrite <- (size_list_to_set (C:=gset Z) js Hnd). apply subseteq_size. intros j Hj%elem_of_list_to_set. apply elem_of_dom.
  apply list_elem_of_lookup in Hj as [k Hk]. destruct (Forall2_lookup_r _ _ _ _ _ Hjs Hk) as (x & _ & Hn). destruct (named_node r j _ Hn) as [n Hnode]. by exists n.
Qed.

(** ** The invariant *)

Record tree_ok r : Prop := {
  ok_id : forall i n, nodes r !! i = Some n -> object_id n = i;
  ok_name : forall i x p, link r i = Some (x, p) -> name_ok x;
  ok_named : forall i n, nodes r !! i = Some n -> exists l, named r i l;
  ok_paths : forall s i, paths r !! s = Some i <-> exists l, s = build_path l /\ named r i l;
  ok_kids : forall p i, i ∈ kids r p <-> exists x, link r i = Some (x, Some p);
  ok_ids : forall i, i ∈ available r \/ (exists n, nodes r !! i = Some n) -> 0 <= i < next r;
  ok_free : forall i n, i ∈ available r -> nodes r !! i = Some n -> False }.

Lemma named_ok r i l : tree_ok r -> named r i l -> names_ok l.
Proof.
  intros Hok. induction 1 as [i x Hi|i x p l Hi Hp IH].
  - split; [|done]. constructor; [by eapply ok_name|done].
  - apply names_ok_app; [done|]. constructor; [by eapply ok_name|done].
Qed.

(** Names determine the node. *)
Lemma path_named r i l : tree_ok r -> names_ok l -> paths r !! build_path l = Some i <-> named r i l.
Proof.
  intros Hok Hl. rewrite ok_paths by done. split; [|by exists l]. intros (l' & E & H). by rewrite (build_inj l l' Hl (named_ok r i l' Hok H) E).
Qed.

Lemma named_inj r i j l : tree_ok r -> named r i l -> named r j l -> i = j.
Proof. intros Hok Hi Hj. pose proof (named_ok r i l Hok Hi) as Hl. apply (path_named r i l Hok Hl) in Hi. apply (path_named r j l Hok Hl) in Hj. congruence. Qed.

Lemma path_free r l : tree_ok r -> names_ok l -> paths r !! build_path l = None <-> forall i, ~ named r i l.
Proof.
  intros Hok Hl. split.
  - intros E i Hi%(path_named r i l Hok Hl). congruence.
  - intros Hn. destruct (paths r !! build_path l) as [i|] eqn:E; [|done]. apply (path_named r i l Hok Hl) in E. by destruct (Hn i).
Qed.

Lemma default_ok : tree_ok default.
Proof.
  split; unfold link, kids; cbn [default nodes paths available]; intros *; rewrite ?lookup_empty; try done.
  - split; [done|]. intros (l & _ & H). destruct (named_node _ _ _ H) as [n Hn]. cbn in Hn. by rewrite lookup_empty in Hn.
  - cbn. split; [by intros ?%not_elem_of_nil|by intros [x ?]].
  - intros [H|[n H]]; [by apply not_elem_of_empty in H|done].
Qed.

Lemma parent_named r i x q : tree_ok r -> link r i = Some (x, Some q) -> exists l, named r q l.
Proof.
  intros Hok Hi. destruct (proj2 (link_node r i) ltac:(by eexists)) as [n Hn]. destruct (ok_named r Hok i n Hn) as [l Hl].
  destruct Hl as [i y Hy|i y p l Hy Hp]; rewrite Hi in Hy; [done|]. injection Hy as _ ->. by exists l.
Qed.

(** What is found under the names [l]. *)
Definition object_at r l : option (Z * ObjectType) := (fun n => (object_id n, object_type n)) <$> get_path_reference r (build_path l).

Lemma object_named r l i ty : tree_ok r -> names_ok l -> object_at r l = Some (i, ty) <-> named r i l /\ type_at r i = Some ty.
Proof.
  intros Hok Hl. unfold object_at, get_path_reference, type_at. split.
  - intros (n & (j & Hj & Hn)%bind_Some & [= -> ->])%fmap_Some. apply (path_named r j l Hok Hl) in Hj. rewrite (ok_id r Hok j n Hn). by rewrite Hn.
  - intros [Hi%(path_named r i l Hok Hl) (n & Hn & ->)%fmap_Some]. rewrite Hi. cbn [mbind option_bind]. rewrite Hn. cbn. by rewrite (ok_id r Hok i n Hn).
Qed.

Lemma object_none r l : tree_ok r -> names_ok l -> object_at r l = None <-> forall i, ~ named r i l.
Proof.
  intros Hok Hl. rewrite <- path_free by done. unfold object_at, get_path_reference. destruct (paths r !! build_path l) as [i|] eqn:E; [|done]. cbn [mbind option_bind].
  apply (path_named r i l Hok Hl) in E. destruct (named_node r i l E) as [n Hn]. by rewrite Hn.
Qed.

(** ** Adding nodes *)

Lemma with_children_link r f p i : link (with_children r f p) i = link r i.
Proof.
  destruct p as [q|]; [|done]. unfold link. cbn [with_children nodes]. destruct (decide (i = q)) as [->|Hn]; [|by rewrite lookup_alter_ne].
  rewrite lookup_alter_eq. by destruct (nodes r !! q).
Qed.

Lemma with_children_type r f p i : type_at (with_children r f p) i = type_at r i.
Proof.
  destruct p as [q|]; [|done]. unfold type_at. cbn [with_children nodes]. destruct (decide (i = q)) as [->|Hn]; [|by rewrite lookup_alter_ne].
  rewrite lookup_alter_eq. by destruct (nodes r !! q).
Qed.

Lemma with_children_kids r f p i : kids (with_children r f p) i = if decide (p = Some i /\ is_Some (nodes r !! i)) then f (kids r i) else kids r i.
Proof.
  unfold kids. destruct p as [q|]; [|by rewrite decide_False by (intros [[=] _])]. cbn [with_children nodes]. destruct (decide (i = q)) as [->|Hn].
  - rewrite lookup_alter_eq. destruct (nodes r !! q) as [n|]; cbn; [by rewrite decide_True|by rewrite decide_False by (intros [_ [? [=]]])].
  - rewrite lookup_alter_ne by done. rewrite decide_False; [done|]. intros [[= E] _]. congruence.
Qed.

Lemma with_children_id r f p i n : nodes (with_children r f p) !! i = Some n -> exists m, nodes r !! i = Some m /\ object_id m = object_id n.
Proof.
  destruct p as [q|]; [|by exists n]. cbn [with_children nodes]. destruct (decide (i = q)) as [->|Hn]; [|rewrite lookup_alter_ne by done; by exists n].
  rewrite lookup_alter_eq. intros (m & Hm & ->)%fmap_Some. by exists m.
Qed.

(** The place of a new node: below the node that has the names [l], or at the
    root. *)
Definition place_ok r (p : option Z) l : Prop := match p with None => l = [] | Some q => named r q l end.

Lemma place_names r p l x : tree_ok r -> place_ok r p l -> name_ok x -> names_ok (l ++ [x]).
Proof.
  intros Hok Hp Hx. split; [|by destruct l]. apply Forall_app_2; [|by constructor]. destruct p as [q|]; [apply (named_ok r q l Hok Hp)|by rewrite Hp].
Qed.

Definition unused r i : Prop := nodes r !! i = None /\ 0 <= i < next r /\ i ∉ available r.

Section attach.
Context (r : t) (idx : Z) (x : string) (ty : ObjectType) (p : option Z) (l : list string).
Context (Hok : tree_ok r) (Hx : name_ok x) (Hidx : unused r idx) (Hp : place_ok r p l) (Hfree : forall i, ~ named r i (l ++ [x])).
Let r' : t := attach r idx x (build_path (l ++ [x])) ty p.

Lemma attach_parent : p <> Some idx.
Proof. destruct Hidx as [Hn _]. intros ->. destruct (named_node r idx l Hp) as [n E]. congruence. Qed.

Lemma attach_link i : link r' i = if decide (i = idx) then Some (x, p) else link r i.
Proof. unfold r', attach. rewrite with_children_link. unfold link. cbn [nodes]. case_decide as E; [subst i; by rewrite lookup_insert_eq|by rewrite lookup_insert_ne]. Qed.

Lemma attach_type i : type_at r' i = if decide (i = idx) then Some ty else type_at r i.
Proof. unfold r', attach. rewrite with_children_type. unfold type_at. cbn [nodes]. case_decide as E; [subst i; by rewrite lookup_insert_eq|by rewrite lookup_insert_ne]. Qed.

Lemma attach_kids i j : j ∈ kids r' i <-> j ∈ kids r i \/ (p = Some i /\ j = idx).
Proof.
  pose proof attach_parent as Hpi. destruct Hidx as [Hn _]. unfold r', attach. rewrite with_children_kids. cbn [nodes]. unfold kids. cbn [nodes].
  destruct (decide (i = idx)) as [->|Hne].
  - rewrite lookup_insert_eq, Hn. rewrite decide_False by (intros [E _]; done). cbn [children]. split; [by left|]. intros [?|[E _]]; done.
  - rewrite lookup_insert_ne by done. case_decide as E.
    + destruct E as [-> [n ->]]. rewrite elem_of_app, list_elem_of_singleton. split; [intros [?| ->]; [by left|by right]|intros [?|[_ ->]]; [by left|by right]].
    + split; [by left|]. intros [?|[-> ->]]; [done|]. destruct E. split; [done|]. destruct (named_node r i l Hp) as [n ->]. by exists n.
Qed.

Lemma attach_old i m : named r i m -> named r' i m.
Proof.
  destruct Hidx as [Hnone _]. assert (Hno : forall j, link r j <> None -> j <> idx) by (intros j Hj ->; apply Hj; unfold link; by rewrite Hnone).
  induction 1 as [i y Hi|i y q m Hi Hq IH]; [apply named_root|apply (named_child r' i y q); [|done]]; rewrite attach_link, decide_False; try done; apply Hno; by rewrite Hi.
Qed.

Lemma attach_named i m : named r' i m <-> named r i m \/ (i = idx /\ m = l ++ [x]).
Proof.
  pose proof attach_parent as Hne. destruct Hidx as [Hnone _]. split.
  - induction 1 as [i y Hi|i y q m Hi Hq IH]; rewrite attach_link in Hi; case_decide as E.
    + right. injection Hi as <- Hpn. rewrite Hpn in Hp. by rewrite Hp.
    + left. by apply named_root.
    + right. split; [done|]. injection Hi as <- Hpn. rewrite Hpn in Hp, Hne. destruct IH as [IH|[-> _]]; [|done]. by rewrite (named_functional r q m l IH Hp).
    + left. destruct IH as [IH|[-> _]]; [by apply (named_child r i y q)|]. exfalso. destruct (parent_named r i y idx Hok Hi) as [k Hk]. destruct (named_node r idx k Hk) as [n Hn]. congruence.
  - intros [H|[-> ->]]; [by apply attach_old|]. assert (E : link r' idx = Some (x, p)) by (rewrite attach_link; by rewrite decide_True).
    assert (Hc : (exists q, p = Some q) \/ p = None) by (destruct p; eauto). pose proof Hp as Hpl. destruct Hc as [[q Ep]|Ep]; rewrite Ep in E, Hpl.
    + apply (named_child r' idx x q); [done|by apply attach_old].
    + cbn in Hpl. rewrite Hpl. by apply named_root.
Qed.

Lemma attach_ok : tree_ok r'.
Proof.
  pose proof attach_parent as Hne. pose proof Hidx as (Hnone & Hrange & Hav). pose proof (place_names r p l x Hok Hp Hx) as Hlx.
  assert (Hpaths : paths r' = <[build_path (l ++ [x]) := idx]> (paths r)) by (unfold r', attach; by destruct p).
  assert (Hnodes : forall i, (exists n, nodes r' !! i = Some n) -> i = idx \/ exists n, nodes r !! i = Some n).
  { intros i [y Hy]%link_node. rewrite attach_link in Hy. case_decide; [by left|]. right. apply link_node. by exists y. }
  split.
  - intros i n (m & Hm & <-)%with_children_id. cbn [nodes] in Hm. destruct (decide (i = idx)) as [->|Hn]; [rewrite lookup_insert_eq in Hm; by injection Hm as <-|].
    rewrite lookup_insert_ne in Hm by done. by apply (ok_id r Hok).
  - intros i y q. rewrite attach_link. case_decide; [by intros [= <- _]|]. by apply (ok_name r Hok).
  - intros i n Hi. destruct (Hnodes i ltac:(by exists n)) as [->|[m Hm]]; [exists (l ++ [x]); apply attach_named; by right|]. destruct (ok_named r Hok i m Hm) as [k Hk]. exists k. apply attach_named. by left.
  - intros s i. rewrite Hpaths. destruct (decide (s = build_path (l ++ [x]))) as [->|Hs].
    + rewrite lookup_insert_eq. split; [intros [= <-]; exists (l ++ [x]); split; [done|]; apply attach_named; by right|]. intros (m & E & [H|[-> ->]]%attach_named); [|done].
      apply build_inj in E; [|done|by apply (named_ok r i m Hok)]. subst m. by destruct (Hfree i).
    + rewrite lookup_insert_ne by done. rewrite (ok_paths r Hok). split; intros (m & E & H); exists m; (split; [done|]); [apply attach_named; by left|].
      apply attach_named in H as [H|[-> ->]]; done.
  - intros q i. rewrite attach_kids, (ok_kids r Hok), attach_link. case_decide as E.
    + subst i. split; [|intros (y & [= <- E]); by right]. intros [(y & Hy)|[E _]]; [|exists x; by rewrite E]. unfold link in Hy. by rewrite Hnone in Hy.
    + split; [by intros [H|[_ H]]|by left].
  - intros i H. assert (En : next r' = next r) by (unfold r', attach; by destruct p). assert (Ea : available r' = available r) by (unfold r', attach; by destruct p).
    rewrite En. rewrite Ea in H. destruct H as [H|H]; [apply (ok_ids r Hok); by left|]. destruct (Hnodes i H) as [->|H']; [done|]. apply (ok_ids r Hok). by right.
  - intros i n Hi Hn. assert (Ea : available r' = available r) by (unfold r', attach; by destruct p). rewrite Ea in Hi.
    destruct (Hnodes i ltac:(by exists n)) as [->|[m Hm]]; [done|]. by apply (ok_free r Hok i m).
Qed.
End attach.

Lemma pop_first_in (s s' : gset Z) i : pop_first s = Some (i, s') -> i ∈ s /\ s' = s ∖ {[i]}.
Proof.
  unfold pop_first. destruct (elements s) as [|x k] eqn:E; [done|]. intros [= <- <-]. split; [|done]. apply elem_of_elements. rewrite E.
  clear E. induction k as [|y k IH]; [by left|]. cbn [foldr]. destruct (Z.min_spec y (foldr Z.min x k)) as [[_ ->]|[_ ->]]; [right; by left|].
  apply elem_of_cons in IH as [->|IH]; [by left|]. right. by right.
Qed.

(** The identifiers that are free may change as long as they are free. *)
Lemma tree_ok_ids r r' : nodes r' = nodes r -> paths r' = paths r -> (forall i, i ∈ available r' -> i ∈ available r) -> next r <= next r' -> tree_ok r -> tree_ok r'.
Proof.
  intros En Ep Ha Hn [H1 H2 H3 H4 H5 H6 H7]. assert (E : forall j, link r' j = link r j) by (intros j; unfold link; by rewrite En). assert (E' : forall j, link r j = link r' j) by done.
  split; unfold kids; rewrite ?En, ?Ep; try done.
  - intros i x q. rewrite E. apply H2.
  - intros i n Hi. destruct (H3 i n Hi) as [l Hl]. exists l. by apply (named_ext r).
  - intros s i. rewrite H4. split; intros (l & Es & Hl); exists l; (split; [done|]); [by apply (named_ext r)|by apply (named_ext r')].
  - intros q i. rewrite E. apply H5.
  - intros i Hi. assert (0 <= i < next r); [|lia]. apply H6. destruct Hi as [Hi|Hi]; [left; by apply Ha|by right].
  - intros i n Hi. by apply H7, Ha.
Qed.

(** A new identifier belongs to no node, and taking it changes no node. *)
Lemma next_unused r : tree_ok r -> 0 <= next r -> next r + 1 < 2 ^ 32 ->
  exists i r', get_next_object_id r = Ok (i, r') /\ unused r' i /\ tree_ok r' /\ nodes r' = nodes r /\ paths r' = paths r /\ next r <= next r' <= next r + 1.
Proof.
  intros Hok H0 Hmax. unfold get_next_object_id. destruct (pop_first (available r)) as [[i rest]|] eqn:E.
  - apply pop_first_in in E as [Hi ->]. eexists i, _. split; [reflexivity|]. cbn [nodes paths next]. split_and!; try lia; try done.
    + destruct (nodes r !! i) as [n|] eqn:En; [by destruct (ok_free r Hok i n)|]. split; [done|]. split; [apply (ok_ids r Hok); by left|]. cbn. set_solver.
    + apply (tree_ok_ids r); cbn; done || set_solver.
  - rewrite (proj2 (Z.ltb_lt _ _)) by lia. eexists (next r), _. split; [reflexivity|]. cbn [nodes paths next]. split_and!; try lia; try done.
    + split_and!; cbn; try lia; [|intros Hav; pose proof (ok_ids r Hok (next r) ltac:(by left)); lia].
      destruct (nodes r !! next r) as [n|] eqn:En; [|done]. pose proof (ok_ids r Hok (next r) ltac:(right; by exists n)). lia.
    + apply (tree_ok_ids r); cbn; done || lia.
Qed.

(** What [add_path] may do to the nodes: all that were there stay, with their
    names and types, and the new ones are named by beginnings of the path. *)
Definition grows (r r' : t) (l rest : list string) (ty : ObjectType) : Prop :=
  (forall i m, named r i m -> named r' i m /\ type_at r' i = type_at r i) /\
  (forall i m, named r' i m -> named r i m \/
     exists k, (0 < k <= length rest)%nat /\ m = l ++ take k rest /\ type_at r' i = Some (if decide (k = length rest) then ty else NamespaceObject) /\ forall j, ~ named r j m).

Lemma extend_build l x : Forall name_ok l -> extend (build_path l) x = build_path (l ++ [x]).
Proof.
  intros Hl. unfold extend. destruct l as [|y l]; [done|]. rewrite decide_False; [by rewrite build_app, <- string_app_assoc by done|].
  intros E. apply Forall_cons in Hl as [[Hy _] _]. destruct l; [done|]. rewrite build_cons in E by done. by destruct y.
Qed.

Lemma add_parts_ok rest : forall r l p ty, tree_ok r -> Forall name_ok l -> Forall name_ok rest -> place_ok r p l -> 0 <= next r -> next r + Z.of_nat (length rest) < 2 ^ 32 ->
  exists q r', add_parts r rest (build_path l) p None ty = Ok (q, r') /\ tree_ok r' /\ place_ok r' q (l ++ rest) /\ grows r r' l rest ty /\ next r <= next r' <= next r + Z.of_nat (length rest).
Proof.
  induction rest as [|x rest IH]; intros r l p ty Hok Hl Hrest Hp H0 Hmax.
  - exists p, r. cbn. rewrite app_nil_r. split_and!; try done; try lia. split; [done|by left].
  - apply Forall_cons in Hrest as [Hx Hrest]. cbn [length] in Hmax. change (length (x :: rest)) with (S (length rest)). cbn [add_parts]. cbv zeta. rewrite extend_build by done.
    assert (Hlx : Forall name_ok (l ++ [x])) by (apply Forall_app_2; [done|by constructor]). assert (Hlx' : names_ok (l ++ [x])) by (split; [done|by destruct l]).
    assert (Hassoc : l ++ x :: rest = (l ++ [x]) ++ rest) by (by rewrite <- app_assoc). rewrite Hassoc.
    destruct (paths r !! build_path (l ++ [x])) as [e|] eqn:Ee.
    + apply (path_named r e _ Hok Hlx') in Ee. destruct (IH r (l ++ [x]) (Some e) ty Hok Hlx Hrest Ee H0 ltac:(lia)) as (q & r' & Hrun & Hok' & Hq & [Ho Hn] & Hb).
      exists q, r'. split_and!; try done; [|lia..]. split; [done|]. intros i m Hi. destruct (Hn i m Hi) as [?|(k & Hk & -> & Hty & Hno)]; [by left|]. right. exists (S k). cbn [length take].
      split; [lia|]. rewrite <- app_assoc. split_and!; [done| |by rewrite <- app_assoc in Hno]. rewrite Hty. do 2 case_decide; try done; lia.
    + pose proof (proj1 (path_free r (l ++ [x]) Hok Hlx') Ee) as Hfree. destruct (next_unused r Hok H0 ltac:(lia)) as (idx & r1 & Hid & Hu & Hok1 & En & Ep & Hb1). rewrite Hid. cbn [rbind fst snd].
      assert (Elink : forall j, link r1 j = link r j) by (intros j; unfold link; by rewrite En). assert (Elink' : forall j, link r j = link r1 j) by done.
      assert (Hp1 : place_ok r1 p l) by (destruct p; [by apply (named_ext r)|done]). assert (Hfree1 : forall i, ~ named r1 i (l ++ [x])) by (intros i Hi; by apply (Hfree i), (named_ext r1)).
      set (ty' := if match rest with [] => true | _ => false end then ty else NamespaceObject).
      pose proof (attach_ok r1 idx x ty' p l Hok1 Hx Hu Hp1 Hfree1) as Hok2. pose proof (attach_named r1 idx x ty' p l Hok1 Hu Hp1) as Hnamed.
      set (r2 := attach r1 idx x (build_path (l ++ [x])) ty' p) in *. assert (En2 : next r2 = next r1) by (unfold r2, attach; by destruct p).
      assert (Hidx : named r2 idx (l ++ [x])) by (apply Hnamed; by right).
      destruct (IH r2 (l ++ [x]) (Some idx) ty Hok2 Hlx Hrest Hidx ltac:(lia) ltac:(lia)) as (q & r' & Hrun & Hok' & Hq & [Ho Hn] & Hb).
      exists q, r'. split_and!; try done; [|lia..]. split.
      * intros i m Hi. pose proof (named_ext r r1 i m Elink Hi) as Hi1. destruct (Ho i m) as [Hi' Ht]; [apply Hnamed; by left|]. split; [done|]. rewrite Ht. unfold r2. rewrite attach_type.
        rewrite decide_False; [unfold type_at; by rewrite En|]. intros ->. destruct (named_node r1 idx m Hi1) as [n E]. destruct Hu as [Hu _]. congruence.
      * intros i m Hi. destruct (Hn i m Hi) as [[Hi1|[-> ->]]%Hnamed|(k & Hk & -> & Hty & Hno)].
        -- left. by apply (named_ext r1).
        -- right. exists 1%nat. cbn [length take]. split; [lia|]. split; [done|]. split; [|done]. destruct (Ho idx _ Hidx) as [_ ->]. unfold r2. rewrite attach_type, decide_True by done.
           unfold ty'. by destruct rest.
        -- right. exists (S k). cbn [length take]. split; [lia|]. rewrite <- app_assoc in *. split; [done|]. split; [rewrite Hty; do 2 case_decide; try done; lia|].
           intros j Hj. apply (Hno j). apply Hnamed. left. by apply (named_ext r).
Qed.

Lemma add_path_ok r l ty : tree_ok r -> names_ok l -> 0 <= next r -> next r + Z.of_nat (length l) < 2 ^ 32 ->
  match paths r !! build_path l with
  | Some _ => exists e, add_path r (build_path l) ty = Err e
  | None => exists i r', add_path r (build_path l) ty = Ok (i, r') /\ tree_ok r' /\ named r' i l /\ grows r r' [] l ty /\ next r' <= next r + Z.of_nat (length l)
  end.
Proof.
  intros Hok Hl H0 Hmax. unfold add_path. rewrite parse_build by done. destruct l as [|x l]; [by destruct Hl|].
  destruct (paths r !! build_path (x :: l)) as [e|] eqn:E; [by eexists|].
  destruct (add_parts_ok (x :: l) r [] None ty Hok ltac:(done) (proj1 Hl) eq_refl H0 Hmax) as (q & r' & Hrun & Hok' & Hq & Hg & Hb).
  change (build_path []) with "" in Hrun. rewrite Hrun. cbn [rbind fst snd]. destruct q as [i|]; [|done]. cbn [or_panic rbind].
  exists i, r'. split_and!; try done. lia.
Qed.

(** ** Removing a node *)

(** Taking a node out of the children of its parent. *)
Lemma detach_kids r idx x p q i : tree_ok r -> link r idx = Some (x, p) -> i ∈ kids (with_children r (filter (fun c => c <> idx)) p) q <-> i ∈ kids r q /\ i <> idx.
Proof.
  intros Hok Hx. rewrite with_children_kids. case_decide as Hd; [rewrite list_elem_of_filter; tauto|]. split; [|by intros [? _]]. intros Hi. split; [done|]. intros ->.
  apply (ok_kids r Hok) in Hi as [y Hy]. apply Hd. rewrite Hx in Hy. injection Hy as _ ->. split; [done|]. destruct (parent_named r idx x q Hok Hx) as [k Hk].
  destruct (named_node r q k Hk) as [n ->]. by exists n.
Qed.

Section remove.
Context (r : t) (idx : Z) (l : list string) (Hok : tree_ok r) (Hidx : named r idx l) (Hleaf : kids r idx = []) (p : option Z) (Hp : exists x, link r idx = Some (x, p)).
Let r1 : t := with_children r (filter (fun c => c <> idx)) p.
Let r' : t := mk (base.delete idx (nodes r1)) (base.delete (build_path l) (paths r1)) ({[idx]} ∪ available r1) (next r1).

Lemma remove_link i : link r' i = if decide (i = idx) then None else link r i.
Proof.
  transitivity (if decide (i = idx) then None else link r1 i); [|unfold r1; by rewrite with_children_link]. unfold link, r'. cbn [nodes].
  case_decide as E; [subst i; by rewrite lookup_delete_eq|by rewrite lookup_delete_ne].
Qed.

Lemma remove_type i : i <> idx -> type_at r' i = type_at r i.
Proof. intros Hi. transitivity (type_at r1 i); [unfold type_at, r'; cbn [nodes]; by rewrite lookup_delete_ne|unfold r1; apply with_children_type]. Qed.

Lemma remove_named i m : named r' i m <-> named r i m /\ m <> l.
Proof.
  split.
  - intros H. assert (Hi : i <> idx). { intros ->. destruct (named_node r' idx m H) as [n Hn]. unfold r' in Hn. cbn in Hn. by rewrite lookup_delete_eq in Hn. }
    assert (Hr : named r i m). { clear Hi. induction H as [i x Hx|i x q m Hx Hq IH]; rewrite remove_link in Hx; case_decide; try done; [by apply named_root|by apply (named_child r i x q)]. }
    split; [done|]. intros ->. by apply Hi, (named_inj r i idx l).
  - intros [H Hm]. induction H as [i x Hx|i x q m Hx Hq IH].
    + apply named_root. rewrite remove_link, decide_False; [done|]. intros ->. apply Hm. apply (named_functional r idx); [by apply named_root|done].
    + assert (Hi : i <> idx). { intros ->. apply Hm. apply (named_functional r idx); [by apply (named_child r idx x q)|done]. }
      apply (named_child r' i x q); [by rewrite remove_link, decide_False|]. apply IH. intros ->. assert (q = idx) as -> by (by apply (named_inj r q idx l)).
      assert (Hin : i ∈ kids r idx) by (apply (ok_kids r Hok); by exists x). rewrite Hleaf in Hin. by apply not_elem_of_nil in Hin.
Qed.

Lemma remove_ok : tree_ok r'.
Proof.
  assert (Hl : names_ok l) by (by apply (named_ok r idx)). assert (Ep : paths r1 = paths r) by (unfold r1; by destruct p).
  assert (Ea : available r1 = available r) by (unfold r1; by destruct p). assert (En : next r1 = next r) by (unfold r1; by destruct p).
  assert (Hnodes : forall i, (exists n, nodes r' !! i = Some n) -> i <> idx /\ exists n, nodes r !! i = Some n).
  { intros i [y Hy]%link_node. rewrite remove_link in Hy. case_decide; [done|]. split; [done|]. apply link_node. by exists y. }
  split.
  - intros i n. unfold r'. cbn [nodes]. intros [Hi Hn]%lookup_delete_Some. unfold r1 in Hn. apply with_children_id in Hn as (m & Hm & <-). by apply (ok_id r Hok).
  - intros i x q. rewrite remove_link. case_decide; [done|]. apply (ok_name r Hok).
  - intros i n Hi. destruct (Hnodes i ltac:(by exists n)) as [Hne [m Hm]]. destruct (ok_named r Hok i m Hm) as [k Hk]. exists k. apply remove_named. split; [done|]. intros ->.
    by apply Hne, (named_inj r i idx l).
  - intros s i. unfold r' at 1. cbn [paths]. rewrite lookup_delete_Some, Ep, (ok_paths r Hok). split.
    + intros (Hs & m & -> & Hm). exists m. split; [done|]. apply remove_named. split; [done|]. intros ->. by apply Hs.
    + intros (m & -> & [Hm Hne]%remove_named). split; [|by exists m]. intros E. apply Hne. symmetry. apply build_inj; [done|by apply (named_ok r i)|done].
  - intros q i. rewrite remove_link. destruct (decide (q = idx)) as [->|Hq].
    + unfold kids at 1. unfold r' at 1. cbn [nodes]. rewrite lookup_delete_eq. split; [by intros ?%not_elem_of_nil|]. intros [x Hx]. case_decide; [done|].
      assert (Hin : i ∈ kids r idx) by (apply (ok_kids r Hok); by exists x). rewrite Hleaf in Hin. by apply not_elem_of_nil in Hin.
    + assert (Ek : kids r' q = kids r1 q) by (unfold kids, r'; cbn [nodes]; by rewrite lookup_delete_ne). rewrite Ek. destruct Hp as [x Hx]. unfold r1.
      rewrite (detach_kids r idx x p q i Hok Hx), (ok_kids r Hok). destruct (decide (i = idx)) as [->|E]; [split; [by intros [_ ?]|by intros [? [=]]]|]. split; [by intros [? _]|done].
  - intros i Hi. unfold r'. cbn [next]. rewrite En. destruct Hi as [Hi|Hi].
    + unfold r' in Hi. cbn [available] in Hi. rewrite Ea in Hi. apply elem_of_union in Hi as [->%elem_of_singleton|Hi]; apply (ok_ids r Hok); [right; by apply (named_node r idx l)|by left].
    + apply (ok_ids r Hok). right. by apply Hnodes.
  - intros i n Hi Hn. destruct (Hnodes i ltac:(by exists n)) as [Hne [m Hm]]. unfold r' in Hi. cbn [available] in Hi. rewrite Ea in Hi. apply elem_of_union in Hi as [?%elem_of_singleton|Hi]; [done|].
    by apply (ok_free r Hok i m).
Qed.
End remove.

Lemma remove_path_ok r l : tree_ok r -> names_ok l ->
  match paths r !! build_path l with
  | None => exists e, remove_path r (build_path l) = Err e
  | Some i =>
      match kids r i with
      | _ :: _ => exists e, remove_path r (build_path l) = Err e
      | [] => exists r', remove_path r (build_path l) = Ok r' /\ tree_ok r' /\ (forall j m, named r' j m <-> named r j m /\ m <> l) /\ (forall j, j <> i -> type_at r' j = type_at r j) /\ next r' = next r
      end
  end.
Proof.
  intros Hok Hl. unfold remove_path. destruct (paths r !! build_path l) as [i|] eqn:E; [|by eexists]. cbn [ok_or rbind].
  apply (path_named r i l Hok Hl) in E. destruct (named_node r i l E) as [n Hn]. rewrite Hn. cbn [ok_or rbind]. unfold kids. rewrite Hn.
  destruct (children n) as [|c k] eqn:Ec; [|by eexists]. eexists. split; [reflexivity|].
  assert (Hk : kids r i = []) by (unfold kids; by rewrite Hn, Ec). assert (Hp : exists x, link r i = Some (x, parent n)) by (exists (object_name n); unfold link; by rewrite Hn).
  split_and!; [by apply (remove_ok r i l)|intros j m; by apply (remove_named r i l)|intros j Hj; by apply (remove_type r i l)|by destruct (parent n)].
Qed.

(** ** Moving a node *)

(** The names of a node, read by walking up. *)
Lemma get_node_path_named r i l : named r i l -> forall fuel k, (length l <= fuel)%nat -> get_node_path fuel r i k = Ok (Some (build_path (l ++ k))).
Proof.
  induction 1 as [i x Hi|i x p l Hi Hp IH]; intros fuel k Hf.
  - destruct fuel as [|fuel]; [cbn in Hf; lia|]. cbn [get_node_path]. unfold link in Hi. apply fmap_Some in Hi as (n & -> & E). injection E as -> E. by rewrite <- E.
  - rewrite length_app in Hf. cbn [length] in Hf. destruct fuel as [|fuel]; [lia|]. cbn [get_node_path]. unfold link in Hi. apply fmap_Some in Hi as (n & -> & E). injection E as -> E. rewrite <- E.
    rewrite IH by lia. by rewrite <- app_assoc.
Qed.

Section refresh.
(** A forest whose links agree, with paths that are to be written. *)
Context (base : t) (Hkids : forall p i, i ∈ kids base p <-> exists x, link base i = Some (x, Some p)).
Context (Hinj : forall i j l m, named base i l -> named base j m -> build_path l = build_path m -> i = j /\ l = m).

(** From [r] to [r'] the paths of all nodes whose names are in [Q] are written. *)
Definition refreshed (Q : list string -> Prop) r r' : Prop :=
  nodes r' = nodes base /\ available r' = available r /\ next r' = next r /\
  (forall j m, named base j m -> Q m -> paths r' !! build_path m = Some j) /\
  (forall s, (forall j m, named base j m -> Q m -> s <> build_path m) -> paths r' !! s = paths r !! s).

Lemma refreshed_trans (Q1 Q2 : list string -> Prop) (HQ : forall m, Q2 m \/ ~ Q2 m) r1 r2 r3 : refreshed Q1 r1 r2 -> refreshed Q2 r2 r3 -> refreshed (fun m => Q1 m \/ Q2 m) r1 r3.
Proof.
  intros (En & Ea & Ex & Hw & Hs) (En' & Ea' & Ex' & Hw' & Hs'). split_and!; try congruence.
  - intros j m Hm Hq. destruct (HQ m) as [H2|H2]; [by apply Hw'|]. destruct Hq as [H1|H1]; [|done]. rewrite Hs'; [by apply Hw|]. intros j' m' Hm' Hq' E.
    by destruct (Hinj j j' m m' Hm Hm' E) as [_ <-].
  - intros s Hno. rewrite Hs' by (intros j m Hm Hq; apply (Hno j m Hm); by right). apply Hs. intros j m Hm Hq. apply (Hno j m Hm). by left.
Qed.

Lemma refreshed_iff (Q Q' : list string -> Prop) r r' : (forall j m, named base j m -> Q m <-> Q' m) -> refreshed Q r r' -> refreshed Q' r r'.
Proof. intros HQ (En & Ea & Ex & Hw & Hs). split_and!; try done; [intros j m Hm Hq; apply (Hw j m Hm); by apply (HQ j m Hm)|]. intros s Hno. apply Hs. intros j m Hm Hq. apply (Hno j m Hm). by apply (HQ j m Hm). Qed.

Definition below_any l (xs : list string) m : Prop := exists x, x ∈ xs /\ (l ++ [x]) `prefix_of` m.

Lemma below_any_dec l xs m : below_any l xs m \/ ~ below_any l xs m.
Proof.
  destruct (decide (Exists (fun x => (l ++ [x]) `prefix_of` m) xs)) as [H|H]; rewrite Exists_exists in H; [left|right]; [|intros (x & Hx & Hm); apply H; by exists x].
  destruct H as (x & Hx & Hm). by exists x.
Qed.

Lemma prefix_dec l m : l `prefix_of` m \/ ~ l `prefix_of` m.
Proof. destruct (decide (l `prefix_of` m)); auto. Qed.

(** The names at or below [l] are [l] and those at or below its children. *)
Lemma at_or_below i l j m : named base i l -> named base j m ->
  (m = l \/ below_any l ((fun c => from_option fst "" (link base c)) <$> kids base i) m) <-> l `prefix_of` m.
Proof.
  intros Hi Hj. split.
  - intros [->|(x & _ & k & ->)]; [done|]. exists ([x] ++ k). by rewrite <- app_assoc.
  - intros [k ->]. destruct k as [|x k]; [left; by rewrite app_nil_r|]. right. exists x.
    destruct (named_prefix base j _ Hj (S (length l))) as [c Hc]; [rewrite length_app; cbn; lia|].
    assert (E : take (S (length l)) (l ++ x :: k) = l ++ [x]) by (rewrite take_app_ge by lia; by replace (S (length l) - length l)%nat with 1%nat by lia).
    rewrite E in Hc. destruct (named_step base c l x Hc (named_nonempty base i l Hi)) as (p & Hlink & Hp). destruct (Hinj p i l l Hp Hi eq_refl) as [-> _]. split; [|exists k; by rewrite <- app_assoc].
    apply list_elem_of_fmap. exists c. split; [by rewrite Hlink|]. apply Hkids. by exists x.
Qed.

Lemma update_refreshes n : forall fuel r i l, nodes r = nodes base -> named base i l -> (base.size (nodes base) < length l + n)%nat -> (base.size (nodes base) + n <= fuel)%nat ->
  exists r', update_descendant_paths fuel r i = Ok r' /\ refreshed (fun m => l `prefix_of` m) r r'.
Proof.
  induction n as [|n IH]; intros fuel r i l En Hi Hd Hf; pose proof (named_bound base i l Hi) as Hb; [lia|]. destruct fuel as [|fuel]; [lia|].
  cbn [update_descendant_paths]. assert (Hir : named r i l) by (apply (named_ext base); [intros j; unfold link; by rewrite En|done]).
  rewrite (get_node_path_named r i l Hir) by lia. rewrite app_nil_r. cbn [rbind nodes]. destruct (named_node r i l Hir) as [nd Hn]. rewrite Hn.
  set (r1 := mk (nodes r) (<[build_path l := i]> (paths r)) (available r) (next r)).
  assert (H1 : refreshed (fun m => m = l) r r1).
  { split_and!; try done.
    - intros j m Hm ->. destruct (Hinj j i l l Hm Hi eq_refl) as [-> _]. apply lookup_insert_eq.
    - intros s Hs. apply lookup_insert_ne. intros E. by apply (Hs i l Hi eq_refl). }
  assert (Hsub : forall c, c ∈ children nd -> exists x, link base c = Some (x, Some i)).
  { intros c Hc. apply Hkids. unfold kids. rewrite <- En, Hn. done. }
  assert (Hfold : forall cs r2, (forall c, c ∈ cs -> exists x, link base c = Some (x, Some i)) -> nodes r2 = nodes base ->
    exists r3, foldl (fun acc child => let! r := acc in update_descendant_paths fuel r child) (Ok r2) cs = Ok r3 /\ refreshed (below_any l ((fun c => from_option fst "" (link base c)) <$> cs)) r2 r3).
  { induction cs as [|c cs IHc]; intros r2 Hcs En2.
    - exists r2. split; [done|]. split_and!; try done. intros j m _ (x & Hx & _). by apply not_elem_of_nil in Hx.
    - destruct (Hcs c ltac:(by left)) as [x Hx]. assert (Hc : named base c (l ++ [x])) by (by apply (named_child base c x i)). cbn [foldl rbind].
      destruct (IH fuel r2 c (l ++ [x]) En2 Hc ltac:(rewrite length_app; cbn; lia) ltac:(lia)) as (r3 & -> & H3).
      destruct (IHc r3 ltac:(intros d Hd'; apply Hcs; by right) ltac:(apply H3)) as (r4 & -> & H4). exists r4. split; [done|].
      refine (refreshed_iff _ _ r2 r4 _ (refreshed_trans _ _ (below_any_dec l _) r2 r3 r4 H3 H4)). intros j m _. unfold below_any. cbn [fmap list_fmap]. rewrite Hx. cbn [from_option fst]. split.
      + intros [Hm|(y & Hy & Hm)]; [exists x; split; [by left|done]|exists y; split; [by right|done]].
      + intros (y & [->|Hy]%elem_of_cons & Hm); [by left|right; by exists y]. }
  destruct (Hfold (children nd) r1 Hsub En) as (r' & Hrun & H2). exists r'. split; [exact Hrun|].
  refine (refreshed_iff _ _ r r' _ (refreshed_trans _ _ (below_any_dec l _) r r1 r' H1 H2)). intros j m Hm.
  assert (Ek : children nd = kids base i) by (unfold kids; by rewrite <- En, Hn). rewrite Ek. by apply (at_or_below i l j m).
Qed.
End refresh.

(** A node [f] with the names [a] goes below the node [np] with the names [bp],
    under the name [x]. *)
Section move.
Context (r : t) (f : Z) (a bp : list string) (x : string) (np : option Z) (y : string) (op : option Z).
Context (Hok : tree_ok r) (Hf : named r f a) (Hlink : link r f = Some (y, op)) (Hx : name_ok x) (Hnp : place_ok r np bp).
Let b : list string := bp ++ [x].
Let r2 : t := with_children (with_children r (filter (fun c => c <> f)) op) (fun ks => ks ++ [f]) np.
Let r3 : t := mk (alter (fun n => Node (object_id n) x (object_type n) np (children n)) f (nodes r2))
                 (filter (fun e => String.prefix (build_path a +:+ ".") e.1 = false) (base.delete (build_path a) (paths r2))) (available r2) (next r2).

Lemma move_link i : link r3 i = if decide (i = f) then Some (x, np) else link r i.
Proof.
  transitivity (if decide (i = f) then Some (x, np) else link r2 i); [|unfold r2; by rewrite !with_children_link]. unfold link, r3. cbn [nodes].
  case_decide as E; [|by rewrite lookup_alter_ne]. subst i. rewrite lookup_alter_eq. pose proof Hlink as H. assert (H2 : link r2 f = Some (y, op)) by (unfold r2; by rewrite !with_children_link).
  unfold link in H2. by destruct (nodes r2 !! f).
Qed.

Lemma move_type i : type_at r3 i = type_at r i.
Proof.
  transitivity (type_at r2 i); [|unfold r2; by rewrite !with_children_type]. unfold type_at, r3. cbn [nodes].
  destruct (decide (i = f)) as [->|E]; [|by rewrite lookup_alter_ne]. rewrite lookup_alter_eq. by destruct (nodes r2 !! f).
Qed.

Lemma move_node i : (exists n, nodes r3 !! i = Some n) <-> exists n, nodes r !! i = Some n.
Proof. rewrite !link_node. rewrite move_link. case_decide as E; [|done]. rewrite E, Hlink. split; intros _; by eexists. Qed.

Lemma move_kids i j : j ∈ kids r3 i <-> exists z, link r3 j = Some (z, Some i).
Proof.
  assert (Ek : kids r3 i = kids r2 i).
  { unfold kids, r3. cbn [nodes]. destruct (decide (i = f)) as [->|E]; [|by rewrite lookup_alter_ne]. rewrite lookup_alter_eq. by destruct (nodes r2 !! f). }
  rewrite Ek, move_link. unfold r2. rewrite with_children_kids. set (r1 := with_children r (filter (fun c => c <> f)) op).
  assert (H1 : forall j, j ∈ kids r1 i <-> j ∈ kids r i /\ j <> f) by (intros k; apply (detach_kids r f y op i k Hok Hlink)).
  assert (Hr1 : j ∈ (if decide (np = Some i /\ is_Some (nodes r1 !! i)) then kids r1 i ++ [f] else kids r1 i) <-> (j ∈ kids r i /\ j <> f) \/ (j = f /\ np = Some i)).
  { case_decide as Hd; [rewrite elem_of_app, list_elem_of_singleton, H1; naive_solver|]. rewrite H1. split; [by left|]. intros [?|[_ E]]; [done|]. destruct Hd. split; [done|].
    pose proof Hnp as Hq. rewrite E in Hq. destruct (proj1 (link_node r i) (named_node r i bp Hq)) as [z Hz]. destruct (proj2 (link_node r1 i)) as [n Hn]; [exists z; unfold r1; by rewrite with_children_link|]. by exists n. }
  rewrite Hr1, (ok_kids r Hok). destruct (decide (j = f)) as [E|E].
  - split; [intros [[_ ?]|[_ ->]]; [done|by exists x]|]. intros [z Hz]. injection Hz as _ ->. by right.
  - split; [intros [[? _]|[? _]]; done|by left].
Qed.

Lemma move_names i m : named r3 i m -> names_ok m.
Proof.
  assert (Hl : forall j z q, link r3 j = Some (z, q) -> name_ok z). { intros j z q. rewrite move_link. case_decide; [by intros [= <- _]|apply (ok_name r Hok)]. }
  induction 1 as [i z Hi|i z q m Hi Hq IH]; [split; [constructor; [by eapply Hl|done]|done]|]. apply names_ok_app; [done|]. constructor; [by eapply Hl|done].
Qed.

Lemma move_paths s i : paths r3 !! s = Some i <-> exists m, s = build_path m /\ named r i m /\ ~ a `prefix_of` m.
Proof.
  assert (Ha : names_ok a) by (by apply (named_ok r f)). assert (Ep : paths r2 = paths r) by (unfold r2; by destruct np, op). unfold r3. cbn [paths]. rewrite Ep.
  rewrite map_lookup_filter_Some, lookup_delete_Some, (ok_paths r Hok). cbn [fst]. split.
  - intros [(Hs & m & -> & Hm) Hpre]. exists m. split; [done|]. split; [done|]. intros [k ->]. destruct k as [|z k]; [rewrite app_nil_r in Hs; done|].
    assert (Hp : String.prefix (build_path a +:+ ".") (build_path (a ++ z :: k)) = true) by (apply prefix_below; [done|by apply (named_ok r i)|by exists (z :: k)]). by rewrite Hp in Hpre.
  - intros (m & -> & Hm & Hpre). pose proof (named_ok r i m Hok Hm) as Hmn. split; [split; [|by exists m]|].
    + intros E. apply Hpre. by rewrite (build_inj a m Ha Hmn E).
    + destruct (String.prefix _ _) eqn:E; [|done]. apply prefix_below in E as (k & _ & ->); [|done..]. destruct Hpre. by exists k.
Qed.

Section apart.
Context (Hout : ~ a `prefix_of` bp) (Hfree : forall i, ~ named r i b).

Lemma move_outside i m : named r i m -> ~ a `prefix_of` m -> named r3 i m.
Proof.
  intros H Hm. induction H as [i z Hi|i z q m Hi Hq IH].
  - apply named_root. rewrite move_link, decide_False; [done|]. intros ->. apply Hm. by rewrite (named_functional r f a [z] Hf (named_root r f z Hi)).
  - apply (named_child r3 i z q).
    + rewrite move_link, decide_False; [done|]. intros ->. apply Hm. by rewrite (named_functional r f a (m ++ [z]) Hf (named_child r f z q m Hi Hq)).
    + apply IH. intros [k ->]. apply Hm. exists (k ++ [z]). by rewrite <- app_assoc.
Qed.

Lemma move_self : named r3 f b.
Proof.
  assert (E : link r3 f = Some (x, np)) by (by rewrite move_link, decide_True). assert (Hc : (exists q, np = Some q) \/ np = None) by (destruct np; eauto).
  pose proof Hnp as Hp. destruct Hc as [[q Eq]|Eq]; rewrite Eq in E, Hp; [apply (named_child r3 f x q); [done|by apply move_outside]|]. cbn in Hp. unfold b. rewrite Hp. by apply named_root.
Qed.

Lemma move_inside k : forall i, named r i (a ++ k) -> named r3 i (b ++ k).
Proof.
  induction k as [|z k IH] using rev_ind; intros i Hi.
  - rewrite app_nil_r in *. rewrite (named_inj r i f a Hok Hi Hf). apply move_self.
  - rewrite app_assoc in *. assert (Hne : a ++ k <> []) by (pose proof (named_nonempty r f a Hf); by destruct a). destruct (named_step r i (a ++ k) z Hi Hne) as (q & Hq & Hn).
    apply (named_child r3 i z q); [|by apply IH]. rewrite move_link, decide_False; [done|]. intros ->. pose proof (named_functional r f a _ Hf Hi) as E.
    apply (f_equal length) in E. rewrite !length_app in E. cbn in E. lia.
Qed.

(** Every node is where it was or has its old names with the beginning replaced. *)
Lemma move_named i m : named r3 i m <-> (named r i m /\ ~ a `prefix_of` m) \/ exists k, m = b ++ k /\ named r i (a ++ k).
Proof.
  split; [|intros [[H Hp]|(k & -> & H)]; [by apply move_outside|by apply move_inside]]. intros H. destruct (proj1 (move_node i) (named_node r3 i m H)) as [n Hn].
  destruct (ok_named r Hok i n Hn) as [m0 H0]. destruct (decide (a `prefix_of` m0)) as [[k ->]|Hp].
  - right. exists k. split; [|done]. by apply (named_functional r3 i), move_inside.
  - left. rewrite (named_functional r3 i m m0 H (move_outside i m0 H0 Hp)). done.
Qed.

(** Nothing else is at or below the new place. *)
Lemma move_target i k : ~ named r i (b ++ k).
Proof.
  intros H. destruct (named_prefix r i (b ++ k) H (length b)) as [j Hj]; [rewrite length_app; unfold b; rewrite length_app; cbn; lia|].
  rewrite take_app_length in Hj. by apply (Hfree j).
Qed.

Lemma move_inj i j l m : named r3 i l -> named r3 j m -> build_path l = build_path m -> i = j /\ l = m.
Proof.
  intros Hi Hj E. apply build_inj in E; [|by apply (move_names i)|by apply (move_names j)]. subst m. split; [|done].
  apply move_named in Hi as [[Hi _]|(k & -> & Hi)]; apply move_named in Hj as [[Hj _]|(k' & E & Hj)].
  - by apply (named_inj r i j l).
  - subst l. by destruct (move_target i k').
  - by destruct (move_target j k).
  - apply app_inv_head in E. subst k'. by apply (named_inj r i j (a ++ k)).
Qed.

Lemma move_find s : (exists j m, named r3 j m /\ b `prefix_of` m /\ s = build_path m) \/ (forall j m, named r3 j m -> b `prefix_of` m -> s <> build_path m).
Proof.
  destruct (decide (b `prefix_of` parse_path s /\ s = build_path (parse_path s))) as [[[k Hk] Es]|Hn].
  - assert (Hak : names_ok (a ++ k)). { apply names_ok_app; [by apply (named_ok r f)|]. pose proof (parse_names s) as H. rewrite Hk in H. by apply Forall_app in H as [_ H]. }
    destruct (paths r !! build_path (a ++ k)) as [j|] eqn:E.
    + left. exists j, (b ++ k). split; [by apply move_inside, (path_named r j _ Hok Hak)|]. split; [by exists k|by rewrite <- Hk].
    + right. intros j m Hm Hp E'. assert (Em : m = b ++ k) by (rewrite <- Hk, E'; symmetry; by apply parse_build, (move_names j)). rewrite Em in Hm.
      apply move_named in Hm as [[Hm _]|(k' & Ek & Hm)]; [by apply (move_target j k)|]. apply app_inv_head in Ek. rewrite <- Ek in Hm. by apply (proj1 (path_free r (a ++ k) Hok Hak) E j).
  - right. intros j m Hm Hp ->. apply Hn. rewrite parse_build by (by apply (move_names j)). done.
Qed.

Lemma move_ok r' : refreshed r3 (fun m => b `prefix_of` m) r3 r' -> tree_ok r'.
Proof.
  intros (En & Ea & Ex & Hw & Hs). assert (El : forall j, link r' j = link r3 j) by (intros j; unfold link; by rewrite En). assert (El' : forall j, link r3 j = link r' j) by done.
  assert (Hnm : forall j m, named r' j m <-> named r3 j m) by (intros j m; split; [by apply named_ext|by apply named_ext]).
  assert (Ea3 : available r3 = available r) by (unfold r3, r2; by destruct np, op). assert (Ex3 : next r3 = next r) by (unfold r3, r2; by destruct np, op).
  split.
  - intros i n. rewrite En. unfold r3. cbn [nodes]. intros Hn. assert (Hid : exists m, nodes r !! i = Some m /\ object_id m = object_id n); [|destruct Hid as (m & Hm & <-); by apply (ok_id r Hok)].
    assert (H2 : exists m, nodes r2 !! i = Some m /\ object_id m = object_id n).
    { destruct (decide (i = f)) as [->|Hi]; [rewrite lookup_alter_eq in Hn; apply fmap_Some in Hn as (m & Hm & ->); by exists m|rewrite lookup_alter_ne in Hn by done; by exists n]. }
    destruct H2 as (m & Hm & <-). apply with_children_id in Hm as (m1 & Hm1 & <-). by apply with_children_id in Hm1 as (m2 & Hm2 & <-); exists m2.
  - intros i z q. rewrite El, move_link. case_decide; [by intros [= <- _]|apply (ok_name r Hok)].
  - intros i n. rewrite En. intros Hn. destruct (proj1 (move_node i) ltac:(by exists n)) as [n' Hn']. destruct (ok_named r Hok i n' Hn') as [m Hm].
    destruct (decide (a `prefix_of` m)) as [[k ->]|Hp]; [exists (b ++ k); by apply Hnm, move_inside|exists m; by apply Hnm, move_outside].
  - intros s i. split.
    + destruct (move_find s) as [(j & m & Hm & Hpre & ->)|Hno]; [rewrite (Hw j m Hm Hpre); intros [= <-]; exists m; by rewrite Hnm|].
      rewrite (Hs s Hno). intros (m & -> & Hm & Hp)%move_paths. exists m. split; [done|]. by apply Hnm, move_outside.
    + intros (m & -> & Hm%Hnm). destruct (decide (b `prefix_of` m)) as [Hpre|Hpre]; [by apply Hw|]. rewrite Hs.
      * apply move_paths. exists m. split; [done|]. apply move_named in Hm as [Hm|(k & -> & _)]; [done|]. destruct Hpre. by exists k.
      * intros j m' Hm' Hpre' E. destruct (move_inj i j m m' Hm Hm' E) as [_ <-]. done.
  - intros q i. unfold kids. rewrite En. rewrite El. apply move_kids.
  - intros i Hi. rewrite Ex, Ex3. apply (ok_ids r Hok). rewrite Ea, Ea3, En in Hi. destruct Hi as [Hi|Hi]; [by left|right; by apply move_node].
  - intros i n. rewrite Ea, Ea3, En. intros Hi Hn. destruct (proj1 (move_node i) ltac:(by exists n)) as [n' Hn']. by apply (ok_free r Hok i n').
Qed.
End apart.
End move.

Definition move_fuel r : nat := 2 * base.size (nodes r) + 2.

Lemma build_empty l : Forall name_ok l -> build_path l = "" <-> l = [].
Proof.
  intros Hl. split; [|by intros ->]. intros E. destruct l as [|y l]; [done|]. apply Forall_cons in Hl as [[Hy _] _]. destruct l; [done|]. rewrite build_cons in E by done. by destruct y.
Qed.

(** The checks of [move_path] passed, the rest is the refresh. *)
Definition relinked r (f : Z) (a : list string) (x : string) (np op : option Z) : t :=
  let r2 := with_children (with_children r (filter (fun c => c <> f)) op) (fun ks => ks ++ [f]) np in
  mk (alter (fun n => Node (object_id n) x (object_type n) np (children n)) f (nodes r2))
     (filter (fun e => String.prefix (build_path a +:+ ".") e.1 = false) (base.delete (build_path a) (paths r2))) (available r2) (next r2).

Lemma move_path_run fuel r a bp x : tree_ok r -> names_ok a -> Forall name_ok bp -> name_ok x ->
  match object_at r a, (if decide (bp = []) then Some None else Some <$> paths r !! build_path bp), paths r !! build_path (bp ++ [x]) with
  | Some (f, _), Some np, None => exists y op, link r f = Some (y, op) /\ named r f a /\ place_ok r np bp /\ move_path fuel r (build_path a) (build_path (bp ++ [x])) = update_descendant_paths fuel (relinked r f a x np op) f
  | _, _, _ => exists e, move_path fuel r (build_path a) (build_path (bp ++ [x])) = Err e
  end.
Proof.
  intros Hok Ha Hbp Hx. assert (Hb : names_ok (bp ++ [x])) by (split; [apply Forall_app_2; [done|by constructor]|by destruct bp]). unfold move_path. rewrite parse_build by done.
  destruct (object_at r a) as [[f ty]|] eqn:Eo.
  - apply (object_named r a f ty Hok Ha) in Eo as [Hf _]. rewrite (proj2 (path_named r f a Hok Ha) Hf). cbn [ok_or rbind].
    destruct (bp ++ [x]) as [|z l] eqn:Eb; [by destruct bp|]. rewrite <- Eb. rewrite removelast_last, last_last.
    assert (Hnp : match (if decide (bp = []) then Some None else Some <$> paths r !! build_path bp) with
                  | Some np => (if decide (build_path bp = "") then Ok None else let! i := ok_or (paths r !! build_path bp) ("Parent path not found: " +:+ build_path bp) in Ok (Some i)) = Ok np /\ place_ok r np bp
                  | None => exists e, (if decide (build_path bp = "") then Ok None else let! i := ok_or (paths r !! build_path bp) ("Parent path not found: " +:+ build_path bp) in Ok (Some i)) = Err e
                  end).
    { destruct (decide (bp = [])) as [->|Hne]; [by rewrite decide_True|]. rewrite decide_False by (by rewrite build_empty). destruct (paths r !! build_path bp) as [q|] eqn:Eq; [|by eexists].
      split; [done|]. apply (path_named r q bp Hok); done. }
    destruct (if decide (bp = []) then Some None else Some <$> paths r !! build_path bp) as [np|]; [|destruct Hnp as [e ->]; by eexists]. destruct Hnp as [-> Hpl]. cbn [rbind].
    destruct (paths r !! build_path (bp ++ [x])) as [e|]; [by eexists|]. destruct (named_node r f a Hf) as [n Hn]. rewrite Hn. cbn [or_panic rbind].
    exists (object_name n), (parent n). split_and!; try done. unfold link. by rewrite Hn.
  - pose proof (proj1 (object_none r a Hok Ha) Eo) as Hn. rewrite (proj2 (path_free r a Hok Ha) Hn). cbn [ok_or rbind]. by eexists.
Qed.

(** ** The resolver as a map from names *)

Inductive path_op : Type :=
| AddPath (l : list string) (ty : ObjectType)
| RemovePath (l : list string)
| MovePath (from to : list string).

Definition run_op r (op : path_op) : path_result t :=
  match op with
  | AddPath l ty => let! made := add_path r (build_path l) ty in Ok made.2
  | RemovePath l => remove_path r (build_path l)
  | MovePath a b => move_path (move_fuel r) r (build_path a) (build_path b)
  end.

(** Paths are of proper names, there are identifiers left, and nothing is moved
    below itself. *)
Definition op_ok r (op : path_op) : Prop :=
  match op with
  | AddPath l _ => names_ok l /\ next r + Z.of_nat (length l) < 2 ^ 32
  | RemovePath l => names_ok l
  | MovePath a b => names_ok a /\ names_ok b /\ (a `prefix_of` b -> a = b)
  end.

Abbreviation view := (list string -> option (Z * ObjectType)).

(** When an operation succeeds, and what it does to what is found. *)
Definition allowed (op : path_op) (v : view) : Prop :=
  match op with
  | AddPath l _ => v l = None
  | RemovePath l => v l <> None /\ forall x, name_ok x -> v (l ++ [x]) = None
  | MovePath a b => v a <> None /\ v b = None /\ (removelast b = [] \/ v (removelast b) <> None)
  end.

Definition effect (op : path_op) (v v' : view) : Prop :=
  match op with
  | AddPath l ty => forall m, names_ok m ->
      match v m with
      | Some o => v' m = Some o
      | None => if decide (m `prefix_of` l) then exists i, v' m = Some (i, if decide (m = l) then ty else NamespaceObject) else v' m = None
      end
  | RemovePath l => forall m, names_ok m -> v' m = if decide (m = l) then None else v m
  | MovePath a b =>
      (forall k, Forall name_ok k -> v' (b ++ k) = v (a ++ k)) /\
      (forall m, names_ok m -> ~ b `prefix_of` m -> v' m = if decide (a `prefix_of` m) then None else v m)
  end.

Inductive reachable : t -> Prop :=
| reach_default : reachable default
| reach_step r op r' : reachable r -> op_ok r op -> run_op r op = Ok r' -> reachable r'.

(** Equal names and types give equal objects. *)
Lemma object_same r r' l l' : tree_ok r -> tree_ok r' -> names_ok l -> names_ok l' ->
  (forall i, named r' i l' <-> named r i l) -> (forall i, named r i l -> type_at r' i = type_at r i) -> object_at r' l' = object_at r l.
Proof.
  intros Hok Hok' Hl Hl' Hn Ht. destruct (object_at r l) as [[i ty]|] eqn:E.
  - apply (object_named r l i ty Hok Hl) in E as [Hi Hty]. apply (object_named r' l' i ty Hok' Hl'). split; [by apply Hn|by rewrite Ht].
  - apply (object_none r' l' Hok' Hl'). intros i Hi%Hn. by apply (proj1 (object_none r l Hok Hl) E i).
Qed.

Lemma add_effect r r' l ty i : tree_ok r -> tree_ok r' -> names_ok l -> named r' i l -> grows r r' [] l ty -> effect (AddPath l ty) (object_at r) (object_at r').
Proof.
  intros Hok Hok' Hl Hi [Ho Hn] m Hm. destruct (object_at r m) as [[j o]|] eqn:E.
  - apply (object_named r m j o Hok Hm) in E as [Hj Hty]. destruct (Ho j m Hj) as [Hj' Hty']. apply (object_named r' m j o Hok' Hm). split; [done|by rewrite Hty'].
  - pose proof (proj1 (object_none r m Hok Hm) E) as Hnone. case_decide as Hp.
    + destruct Hp as [k ->]. destruct (named_prefix r' i (m ++ k) Hi (length m)) as [j Hj]; [rewrite length_app; destruct m; [by destruct Hm|]; cbn; lia|]. rewrite take_app_length in Hj.
      exists j. apply (object_named r' m j _ Hok' Hm). split; [done|]. destruct (Hn j m Hj) as [H|(n & Hn1 & Em & -> & _)]; [by destruct (Hnone j)|]. cbn [app] in Em.
      do 2 f_equal. assert (El : length m = n) by (rewrite Em, length_take; lia). destruct (decide (n = length (m ++ k))) as [En|En], (decide (m = m ++ k)) as [Ek|Ek]; try done.
      * destruct Ek. rewrite length_app in En. destruct k; [by rewrite app_nil_r|cbn in En; lia].
      * destruct En. rewrite <- Ek. done.
    + apply (object_none r' m Hok' Hm). intros j Hj. destruct (Hn j m Hj) as [H|(n & _ & -> & _)]; [by destruct (Hnone j)|]. apply Hp. exists (drop n l). cbn [app]. by rewrite take_drop.
Qed.

Definition step_ok r (op : path_op) (out : path_result t) : Prop :=
  match out with
  | Ok r' => tree_ok r' /\ 0 <= next r' /\ allowed op (object_at r) /\ effect op (object_at r) (object_at r')
  | Err _ => ~ allowed op (object_at r)
  | _ => False
  end.

Lemma add_path_step r l ty : tree_ok r -> 0 <= next r -> op_ok r (AddPath l ty) -> step_ok r (AddPath l ty) (run_op r (AddPath l ty)).
Proof.
  intros Hok H0 [Hl Hmax]. pose proof (add_path_ok r l ty Hok Hl H0 Hmax) as H. cbn [run_op]. destruct (paths r !! build_path l) as [e|] eqn:E.
  - destruct H as [m ->]. cbn. intros Hn. apply (proj1 (object_none r l Hok Hl) Hn e). by apply (path_named r e l Hok Hl).
  - destruct H as (i & r' & -> & Hok' & Hi & Hg & Hb). cbn [rbind step_ok snd]. split; [done|]. split; [pose proof (ok_ids r' Hok' i ltac:(right; by apply (named_node r' i l))); lia|].
    split; [|by apply (add_effect r r' l ty i)]. apply (object_none r l Hok Hl). by apply (path_free r l Hok Hl).
Qed.

Lemma remove_path_step r l : tree_ok r -> 0 <= next r -> op_ok r (RemovePath l) -> step_ok r (RemovePath l) (run_op r (RemovePath l)).
Proof.
  intros Hok H0 Hl. cbn [op_ok] in Hl. pose proof (remove_path_ok r l Hok Hl) as H. cbn [run_op]. destruct (paths r !! build_path l) as [i|] eqn:E.
  - apply (path_named r i l Hok Hl) in E. destruct (kids r i) as [|c k] eqn:Ek.
    + destruct H as (r' & -> & Hok' & Hn & Ht & En). cbn [step_ok]. rewrite En. split; [done|]. split; [done|]. split.
      * split; [intros Hno; by apply (proj1 (object_none r l Hok Hl) Hno i)|]. intros x Hx. apply (object_none r (l ++ [x]) Hok); [apply names_ok_app; [done|by constructor]|]. intros j Hj.
        destruct (named_step r j l x Hj (proj2 Hl)) as (p & Hp & Hpn). rewrite (named_inj r p i l Hok Hpn E) in Hp. assert (Hin : j ∈ kids r i) by (apply (ok_kids r Hok); by exists x).
        rewrite Ek in Hin. by apply not_elem_of_nil in Hin.
      * intros m Hm. case_decide as Em; [apply (object_none r' m Hok' Hm); intros j [_ Hj]%Hn; done|]. apply object_same; try done; [intros j; rewrite Hn; tauto|]. intros j Hj. apply Ht. intros ->. by apply Em, (named_functional r i).
    + destruct H as [e ->]. cbn. intros [_ Hno]. assert (Hc : c ∈ kids r i) by (rewrite Ek; by left). apply (ok_kids r Hok) in Hc as [x Hx]. pose proof (ok_name r Hok c x _ Hx) as Hxn.
      apply (proj1 (object_none r (l ++ [x]) Hok ltac:(apply names_ok_app; [done|by constructor])) (Hno x Hxn) c). by apply (named_child r c x i).
  - destruct H as [e ->]. cbn. intros [Hn _]. apply Hn. apply (object_none r l Hok Hl). by apply (path_free r l Hok Hl).
Qed.

Lemma move_effect r f a bp x np y op r' : tree_ok r -> named r f a -> link r f = Some (y, op) -> name_ok x -> place_ok r np bp -> ~ a `prefix_of` bp -> (forall i, ~ named r i (bp ++ [x])) ->
  refreshed (relinked r f a x np op) (fun m => (bp ++ [x]) `prefix_of` m) (relinked r f a x np op) r' ->
  tree_ok r' /\ next r' = next r /\ effect (MovePath a (bp ++ [x])) (object_at r) (object_at r').
Proof.
  intros Hok Hf Hlink Hx Hnp Hout Hfree Href. pose proof (move_ok r f a bp x np y op Hok Hf Hlink Hx Hnp Hout Hfree r' Href) as Hok'. destruct Href as (En & Ea & Ex & _ & _).
  assert (Hnm : forall j m, named r' j m <-> (named r j m /\ ~ a `prefix_of` m) \/ exists k, m = bp ++ [x] ++ k /\ named r j (a ++ k)).
  { intros j m. pose proof (move_named r f a bp x np y op Hok Hf Hlink Hnp Hout j m) as H. transitivity (named (relinked r f a x np op) j m); [split; apply named_ext; intros i; unfold link; by rewrite En|].
    unfold relinked. rewrite H. split; (intros [?|(k & E & ?)]; [by left|right; exists k; by rewrite <- app_assoc in *]). }
  assert (Hty : forall j, type_at r' j = type_at r j). { intros j. rewrite <- (move_type r f a x np op j). unfold type_at. by rewrite En. }
  pose proof (named_ok r f a Hok Hf) as Ha. assert (Hb : names_ok (bp ++ [x])) by (by apply (place_names r np)).
  split; [done|]. split; [rewrite Ex; unfold relinked; by destruct np, op|]. split.
  - intros k Hk. apply object_same; try done; [by apply names_ok_app..|]. intros j. rewrite Hnm. split.
    + intros [[H _]|(k' & E & H)]; [by destruct (move_target r bp x Hfree j k)|]. rewrite <- app_assoc in E. by apply app_inv_head, app_inv_head in E as <-.
    + intros H. right. exists k. by rewrite <- app_assoc.
  - intros m Hm Hp. case_decide as Hpa.
    + apply (object_none r' m Hok' Hm). intros j [[_ H]|(k & -> & _)]%Hnm; [done|]. apply Hp. exists k. by rewrite <- app_assoc.
    + apply object_same; try done. intros j. rewrite Hnm. split; [|by left]. intros [[H _]|(k & -> & _)]; [done|]. destruct Hp. exists k. by rewrite <- app_assoc.
Qed.

Lemma move_path_step r a b : tree_ok r -> 0 <= next r -> op_ok r (MovePath a b) -> step_ok r (MovePath a b) (run_op r (MovePath a b)).
Proof.
  intros Hok H0 (Ha & Hb & Hab). destruct b as [|x bp _] using rev_ind; [by destruct Hb|]. destruct Hb as [[Hbp Hx]%Forall_app _]. apply Forall_cons_1 in Hx as [Hx _].
  assert (Hb : names_ok (bp ++ [x])) by (split; [apply Forall_app_2; [done|by constructor]|by destruct bp]).
  pose proof (move_path_run (move_fuel r) r a bp x Hok Ha Hbp Hx) as H. cbn [run_op].
  assert (Hparent : (removelast (bp ++ [x]) = [] \/ object_at r (removelast (bp ++ [x])) <> None) <-> (if decide (bp = []) then Some None else Some <$> paths r !! build_path bp) <> None).
  { rewrite removelast_last. case_decide as Ebp; [split; [done|by left]|]. rewrite fmap_None. destruct (paths r !! build_path bp) as [q|] eqn:Eq.
    - split; [done|]. intros _. right. intros Hno. apply (proj1 (object_none r bp Hok ltac:(done)) Hno q). by apply (path_named r q bp Hok).
    - split; [|done]. intros [?|Hn]; [done|]. destruct Hn. apply (object_none r bp Hok); [done|]. by apply (path_free r bp Hok). }
  destruct (object_at r a) as [[f ty]|] eqn:Ea; [|destruct H as [e ->]; cbn; intros [Hn _]; by rewrite Ea in Hn].
  destruct (if decide (bp = []) then Some None else Some <$> paths r !! build_path bp) as [np|]; [|destruct H as [e ->]; cbn; intros (_ & _ & Hn); by apply Hparent in Hn].
  destruct (paths r !! build_path (bp ++ [x])) as [e|] eqn:Eb.
  { destruct H as [m ->]. cbn. intros (_ & Hn & _). apply (proj1 (object_none r _ Hok Hb) Hn e). by apply (path_named r e _ Hok Hb). }
  destruct H as (y & op & Hlink & Hf & Hnp & ->). pose proof (proj1 (path_free r _ Hok Hb) Eb) as Hfree.
  assert (Hout : ~ a `prefix_of` bp). { intros [k Ek]. assert (E : a = bp ++ [x]) by (apply Hab; exists (k ++ [x]); by rewrite Ek, <- app_assoc). rewrite Ek in E. apply (f_equal length) in E. rewrite !length_app in E. cbn in E. lia. }
  set (r3 := relinked r f a x np op). assert (Hself : named r3 f (bp ++ [x])) by (by apply (move_self r f a bp x np y op)).
  assert (Hsize : base.size (nodes r3) = base.size (nodes r)). { rewrite <- !size_dom. f_equal. apply set_eq. intros i. rewrite !elem_of_dom. apply (move_node r f a x np y op Hlink i). }
  destruct (update_refreshes r3 (move_kids r f a bp x np y op Hok Hlink Hnp) (move_inj r f a bp x np y op Hok Hf Hlink Hx Hnp Hout Hfree) (S (base.size (nodes r3))) (move_fuel r) r3 f (bp ++ [x])) as (r' & -> & Href);
    [done|done|rewrite length_app; cbn; lia|unfold move_fuel; lia|].
  destruct (move_effect r f a bp x np y op r' Hok Hf Hlink Hx Hnp Hout Hfree Href) as (Hok' & En & Heff). cbn [step_ok]. split; [done|]. split; [by rewrite En|]. split; [|exact Heff].
  cbn [allowed]. rewrite Ea. split; [done|]. split; [by apply (object_none r _ Hok Hb)|]. by apply Hparent.
Qed.

Lemma run_op_ok r op : tree_ok r -> 0 <= next r -> op_ok r op -> step_ok r op (run_op r op).
Proof. destruct op; [apply add_path_step|apply remove_path_step|apply move_path_step]. Qed.

Lemma reachable_ok r : reachable r -> tree_ok r /\ 0 <= next r.
Proof.
  induction 1 as [|r op r' _ [Hok H0] Hop Hrun]; [split; [apply default_ok|done]|]. pose proof (run_op_ok r op Hok H0 Hop) as H. rewrite Hrun in H. by destruct H as (? & ? & _).
Qed.


(** A walk up from a node between [a] and its new parent below it. *)
Lemma walk_round r f a k x y op q : tree_ok r -> named r f a -> link r f = Some (y, op) -> named r q (a ++ k) ->
  forall fuel j m parts, named r j (a ++ m) -> m `prefix_of` k -> get_node_path fuel (relinked r f a x (Some q) op) j parts = Timeout.
Proof.
  intros Hok Hf Hlink Hq. induction fuel as [|fuel IH]; intros j m parts Hj Hm; [done|]. cbn [get_node_path].
  pose proof (move_link r f a x (Some q) y op Hlink j) as El. fold (relinked r f a x (Some q) op) in El. unfold link at 1 in El. destruct (decide (j = f)) as [Ej|Ej].
  - apply fmap_Some in El as (n & -> & E). injection E as _ <-. by apply (IH q k).
  - destruct m as [|z m _] using rev_ind; [rewrite app_nil_r in Hj; by destruct Ej; apply (named_inj r j f a)|]. rewrite app_assoc in Hj.
    destruct (named_step r j (a ++ m) z Hj) as (p & Hp & Hpn); [pose proof (named_nonempty r f a Hf); by destruct a|]. rewrite Hp in El. apply fmap_Some in El as (n & -> & E). injection E as _ <-.
    apply (IH p m); [done|]. destruct Hm as [k' ->]. exists ([z] ++ k'). by rewrite <- app_assoc.
Qed.

(** Moving a node below itself never ends: whatever the number of steps, the walk
    from the node to the root goes round. *)
Theorem move_below_itself r a k x fuel : reachable r -> names_ok a -> Forall name_ok k -> name_ok x ->
  object_at r (a ++ k) <> None -> object_at r ((a ++ k) ++ [x]) = None -> move_path fuel r (build_path a) (build_path ((a ++ k) ++ [x])) = Timeout.
Proof.
  intros [Hok H0]%reachable_ok Ha Hk Hx Hsome Hnone. assert (Hak : names_ok (a ++ k)) by (by apply names_ok_app). assert (Hb : names_ok ((a ++ k) ++ [x])) by (apply names_ok_app; [done|by constructor]).
  pose proof (move_path_run fuel r a (a ++ k) x Hok Ha (proj1 Hak) Hx) as H. destruct (object_at r (a ++ k)) as [[q tq]|] eqn:Eq; [|done].
  apply (object_named r _ q tq Hok Hak) in Eq as [Hq _]. rewrite (proj2 (path_free r _ Hok Hb) (proj1 (object_none r _ Hok Hb) Hnone)) in H. rewrite (proj2 (path_named r q _ Hok Hak) Hq) in H.
  rewrite decide_False in H by apply Hak. cbn [fmap option_fmap option_map] in H. destruct (object_at r a) as [[f ty]|] eqn:Ea.
  - destruct H as (y & op & Hlink & Hf & _ & ->). destruct fuel as [|fuel]; [done|]. cbn [update_descendant_paths].
    rewrite (walk_round r f a k x y op q Hok Hf Hlink Hq (S fuel) f [] []); [done|by rewrite app_nil_r|by exists k].
  - exfalso. destruct (named_prefix r q (a ++ k) Hq (length a)) as [j Hj]; [rewrite length_app; destruct Ha as [_ Ha]; destruct a; [done|cbn; lia]|].
    rewrite take_app_length in Hj. by apply (proj1 (object_none r a Hok Ha) Ea j).
Qed.

(** ** A resolver *)
Module PathDemo.

Definition ok_or_default (out : path_result t) : t := match out with Ok r => r | _ => default end.
Definition op1 : path_op := AddPath ["a"; "b"; "c"] TableObject.
Definition r1 : t := ok_or_default (run_op default op1).
Definition op2 : path_op := AddPath ["d"] NamespaceObject.
Definition r2 : t := ok_or_default (run_op r1 op2).

Lemma names l : bool_decide (Forall name_ok l) = true -> l <> [] -> names_ok l.
Proof. intros H Hn. split; [by apply (bool_decide_eq_true_1 _)|done]. Qed.

Lemma r2_reachable : reachable r2.
Proof.
  apply (reach_step r1 op2); [apply (reach_step default op1); [apply reach_default| |by vm_compute]| |by vm_compute].
  - split; [by apply names|by vm_compute].
  - split; [by apply names|by vm_compute].
Qed.


Lemma move_below_itself_witness : move_path 100 r2 "a" "a.b.x" = Timeout.
Proof. apply (move_below_itself r2 ["a"] ["b"] "x" 100 r2_reachable); [by apply names|by apply names|by apply (bool_decide_eq_true_1 _)|by vm_compute|by vm_compute]. Defined.

(** A path with an empty part is taken for the path without it: adding it again
    is no error. *)
Lemma add_existing : exists r', add_path r2 "a..b" TableObject = Ok (1, r').
Proof. eexists. by vm_compute. Qed.

(** [set_path_object] with an identifier in use takes the node away from its
    other path. *)
Lemma identifier_taken : exists r', set_path_object r2 "x" 2 IndexObject = Ok r' /\ paths r' !! "a.b.c" = Some 2 /\ type_at r' 2 = Some IndexObject.
Proof. eexists. split; [reflexivity|]. by vm_compute. Qed.
End PathDemo.
