(* ===== verification/KvmTable.v ===== *)
(** * Namespaces, tables, indexes and their entries

    Models the cache of a container, nanograph-kvm/src/cache/container.rs, the
    creation of shards in nanograph-kvm/src/shardmgr.rs, and the operations of
    nanograph-kvm/src/context.rs on namespaces, tables, indexes and table
    entries.  The state is that of [KeyValueDatabaseContext] with the caches of
    the containers, the path resolver and its file system, and the consensus
    router, which is a parameter. *)

From Stdlib Require Import ZArith Lia Ascii String.
From stdpp Require Import option base gmap list strings pretty.
From S2P Require Import Prelude Objects Security BTreeError VfsPath VfsCompose KvmCache KvmContext KvtResolver KvmObjects KvmPath.

Open Scope Z_scope.

(** ** The cache of a container *)

Module ContainerMetadataCache.

Record t : Type := mk {
  container : Z;
  shard : Z;
  allocator : ObjectAllocator.t;
  namespaces : CacheMap.t Z NamespaceRecord;
  functions : CacheMap.t Z FunctionRecord;
  tables : CacheMap.t Z TableRecord;
  indexes : CacheMap.t Z IndexRecord;
  shards : CacheMap.t Z ShardRecord;
  shard_assignments : CacheMap.t Z (list Z);
  path_resolver : ObjectPathResolver.t }.

Definition create (container shard cache_ttl : Z) (a : ObjectAllocator.t) : t :=
  mk container shard a (CacheMap.new cache_ttl) (CacheMap.new cache_ttl) (CacheMap.new cache_ttl) (CacheMap.new cache_ttl) (CacheMap.new cache_ttl)
    (CacheMap.new cache_ttl) ObjectPathResolver.default.
Definition new (container shard cache_ttl : Z) : t := create container shard cache_ttl (ObjectAllocator.new_standalone container).
Definition new_distributed (container shard cache_ttl : Z) : t := create container shard cache_ttl (ObjectAllocator.new_distributed container).

Definition metadata_shard_id (c : t) : Z := shard c.

Definition with_namespaces (c : t) x : t := mk (container c) (shard c) (allocator c) x (functions c) (tables c) (indexes c) (shards c) (shard_assignments c) (path_resolver c).
Definition with_functions (c : t) x : t := mk (container c) (shard c) (allocator c) (namespaces c) x (tables c) (indexes c) (shards c) (shard_assignments c) (path_resolver c).
Definition with_tables (c : t) x : t := mk (container c) (shard c) (allocator c) (namespaces c) (functions c) x (indexes c) (shards c) (shard_assignments c) (path_resolver c).
Definition with_indexes (c : t) x : t := mk (container c) (shard c) (allocator c) (namespaces c) (functions c) (tables c) x (shards c) (shard_assignments c) (path_resolver c).
Definition with_shards (c : t) x : t := mk (container c) (shard c) (allocator c) (namespaces c) (functions c) (tables c) (indexes c) x (shard_assignments c) (path_resolver c).
Definition with_assignments (c : t) x : t := mk (container c) (shard c) (allocator c) (namespaces c) (functions c) (tables c) (indexes c) (shards c) x (path_resolver c).

Implicit Types (c : t) (now id : Z).

Definition list_namespace_records c : list NamespaceRecord := CacheMap.values (namespaces c).
Definition get_namespace_record now c id : option NamespaceRecord * t := let '(r, m) := CacheMap.get now (namespaces c) id in (r, with_namespaces c m).
Definition set_namespace_record now c (r : NamespaceRecord) : t := with_namespaces c (CacheMap.insert now (namespaces c) (nr_id r) r).2.
Definition clear_namespace_record c id : t := with_namespaces c (CacheMap.remove (namespaces c) id).2.
Definition clear_namespace_records c : t := with_namespaces c (CacheMap.clear (namespaces c)).

Definition list_function_records c : list FunctionRecord := CacheMap.values (functions c).
Definition get_function_record now c id : option FunctionRecord * t := let '(r, m) := CacheMap.get now (functions c) id in (r, with_functions c m).
Definition set_function_record now c (r : FunctionRecord) : t := with_functions c (CacheMap.insert now (functions c) (fr_id r) r).2.
Definition clear_function_record c id : t := with_functions c (CacheMap.remove (functions c) id).2.
Definition clear_function_records c : t := with_functions c (CacheMap.clear (functions c)).

Definition list_table_records c : list TableRecord := CacheMap.values (tables c).
Definition get_table_record now c id : option TableRecord * t := let '(r, m) := CacheMap.get now (tables c) id in (r, with_tables c m).
Definition set_table_record now c (r : TableRecord) : t := with_tables c (CacheMap.insert now (tables c) (br_table_id r) r).2.
Definition clear_table_record c id : t := with_tables c (CacheMap.remove (tables c) id).2.
Definition clear_table_records c : t := with_tables c (CacheMap.clear (tables c)).

Definition list_index_records c : list IndexRecord := CacheMap.values (indexes c).
Definition get_index_record now c id : option IndexRecord * t := let '(r, m) := CacheMap.get now (indexes c) id in (r, with_indexes c m).
Definition set_index_record now c (r : IndexRecord) : t := with_indexes c (CacheMap.insert now (indexes c) (ir_index_id r) r).2.
Definition clear_index_record c id : t := with_indexes c (CacheMap.remove (indexes c) id).2.
Definition clear_index_records c : t := with_indexes c (CacheMap.clear (indexes c)).

Definition list_shard_records c : list ShardRecord := CacheMap.values (shards c).
Definition get_shard_record now c id : option ShardRecord * t := let '(r, m) := CacheMap.get now (shards c) id in (r, with_shards c m).
Definition set_shard_record now c (r : ShardRecord) : t := with_shards c (CacheMap.insert now (shards c) (hr_shard_id r) r).2.
Definition clear_shard_record c id : t := with_shards c (CacheMap.remove (shards c) id).2.
Definition clear_shard_records c : t := with_shards c (CacheMap.clear (shards c)).

Definition list_shard_assignments c : list (Z * list Z) := CacheMap.iter (shard_assignments c).
Definition get_shard_assignment now c id : option (list Z) * t := let '(r, m) := CacheMap.get now (shard_assignments c) id in (r, with_assignments c m).
Definition set_shard_assignment now c id (nodes : list Z) : t := with_assignments c (CacheMap.insert now (shard_assignments c) id nodes).2.
Definition clear_shard_assignment c id : t := with_assignments c (CacheMap.remove (shard_assignments c) id).2.
Definition clear_shard_assignments c : t := with_assignments c (CacheMap.clear (shard_assignments c)).
End ContainerMetadataCache.

(** ** Engines that tables need *)

(** The rest of [KeyValueShardStore] that the context reaches. *)
Class TableEngine (E FS : Type) : Type := {
  engine_create_shard : E -> Z -> Path.t -> Path.t -> FS -> kv_result unit * E * FS;
  engine_batch_put : E -> Z -> list (list Z * list Z) -> kv_result unit * E }.

(** [ConsensusRouter]; an error is its message. *)
Class Router (R : Type) : Type := {
  router_node_id : R -> Z;
  router_create_shard : R -> Z -> ShardType -> list Z * list Z -> list Z -> option string * R;
  router_put : R -> list Z -> list Z -> option string * R;
  router_get : R -> list Z -> (string + option (list Z)) * R;
  router_delete : R -> list Z -> option string * R;
  router_batch : R -> list (list Z * list Z) -> option string * R }.

Module TableContext.

Module SM := KeyValueShardManager.
Module Context := KeyValueDatabaseContext.
Module Container := ContainerMetadataCache.
Module Resolver := StoragePathResolver.

Record t (E FS R : Type) : Type := mk {
  context : Context.t E; container_metacaches : gmap Z Container.t; resolver : Resolver.t; vfs : FS; router : R }.
Arguments mk {E FS R} _ _ _ _ _.
Arguments context {E FS R} _.
Arguments container_metacaches {E FS R} _.
Arguments resolver {E FS R} _.
Arguments vfs {E FS R} _.
Arguments router {E FS R} _.

Section monad.
Context {E FS R : Type}.

Definition op (A : Type) : Type := t E FS R -> kv_result A * t E FS R.

Definition ret {A} (a : A) : op A := fun c => (Ok a, c).
Definition fail {A} (e : KeyValueError) : op A := fun c => (Err e, c).
Definition lift {A} (r : kv_result A) : op A := fun c => (r, c).

Definition bind {A B} (m : op A) (k : A -> op B) : op B := fun c =>
  match m c with
  | (Ok a, c) => k a c
  | (Err e, c) => (Err e, c)
  | (Panic, c) => (Panic, c)
  | (Timeout, c) => (Timeout, c)
  end.

Definition with_context (c : t E FS R) x : t E FS R := mk x (container_metacaches c) (resolver c) (vfs c) (router c).
Definition with_containers (c : t E FS R) x : t E FS R := mk (context c) x (resolver c) (vfs c) (router c).
Definition with_vfs (c : t E FS R) x : t E FS R := mk (context c) (container_metacaches c) (resolver c) x (router c).
Definition with_router (c : t E FS R) x : t E FS R := mk (context c) (container_metacaches c) (resolver c) (vfs c) x.

(** An operation of [KeyValueDatabaseContext]. *)
Definition in_context {A} (m : Context.ctx E A) : op A := fun c => let '(r, x) := m (context c) in (r, with_context c x).

(** An access to the shard manager. *)
Definition shard {A} (f : SM.t E -> kv_result A * SM.t E) : op A := in_context (Context.shard f).

(** The path functions of the resolver. *)
Definition path (f : Resolver.t -> FS -> kv_result Path.t * FS) : op Path.t := fun c => let '(r, x) := f (resolver c) (vfs c) in (r, with_vfs c x).

(** A call of the router, whose error becomes [Consensus]. *)
Definition consensus (what : string) (f : R -> option string * R) : op unit := fun c =>
  match f (router c) with
  | (None, x) => (Ok tt, with_router c x)
  | (Some e, x) => (Err (KvConsensus (what +:+ e)), with_router c x)
  end.

Definition distributed : op bool := fun c => (Ok (Context.raft_router (context c)), c).
Definition own_node : op Z := fun c => (Ok (Context.node_id (context c)), c).

Definition check (allowed : bool) (p : SecurityPrincipal.t) (perm : Permission) (resource : ResourceScope) : op unit :=
  if allowed then ret tt else fail (KvPermissionDenied (SecurityPrincipal.user_id p) perm resource).

Definition container_missing (id : Z) : KeyValueError := KvInvalidValue ("Container not found: " +:+ debug_id "ContainerId" id).

(** An access to the cache of a container, under its lock. *)
Definition container {A} (id : Z) (f : Container.t -> kv_result A * Container.t) : op A := fun c =>
  match container_metacaches c !! id with
  | Some m => let '(r, m) := f m in (r, with_containers c (<[id := m]> (container_metacaches c)))
  | None => (Err (container_missing id), c)
  end.

Fixpoint for_each {A} (f : A -> op unit) (l : list A) : op unit :=
  match l with
  | [] => ret tt
  | x :: l => bind (f x) (fun _ => for_each f l)
  end.
End monad.
Arguments op : clear implicits.

#[local] Notation "x <~ m ;; k" := (bind m (fun x => k)) (at level 100, m at next level, right associativity).
#[local] Notation "m >>> k" := (bind m (fun _ => k)) (at level 100, right associativity).

Section operations.
Context {E FS H R : Type} `{!Engine E} `{!TableEngine E FS} `{!FileSystem FS H} `{!Router R} `{!Codec IndexRecord}.
Abbreviation op := (op E FS R).
Implicit Types (p : SecurityPrincipal.t) (w : Context.Clock) (cid : Z).

Definition tenant_of cid : Z := ContainerId.tenant cid.
Definition database_of cid : Z := ContainerId.database cid.

Definition in_database p (perm : Permission) cid : bool := SecurityPrincipal.has_database_permission p perm (tenant_of cid) (database_of cid).
Definition in_namespace p (perm : Permission) cid (namespace : Z) : bool := SecurityPrincipal.has_namespace_permission p perm (tenant_of cid) (database_of cid) namespace.
Definition in_table p (perm : Permission) cid (table : Z) : bool := SecurityPrincipal.has_table_permission p perm (tenant_of cid) (database_of cid) table.

(** What a lookup that must succeed returns. *)
Definition found {A} (r : option A * Container.t) (e : KeyValueError) : kv_result A * Container.t := (ok_or r.1 e, r.2).

(** *** Objects and namespaces *)

(** An object without a parent is reported as absent. *)
Definition get_object_by_path p cid (name : string) : op (option (Z * ObjectType)) :=
  check (in_database p DatabaseAccess cid) p NamespaceList (ScopeDatabase (database_of cid)) >>>
  node <~ container cid (fun m => (Ok (ObjectPathResolver.get_path_reference (Container.path_resolver m) name), m));;
  match node with
  | Some n =>
      match ObjectPathResolver.parent n with
      | Some parent =>
          check (in_namespace p DatabaseAccess cid parent) p NamespaceList (ScopeDatabase (database_of cid)) >>>
          ret (Some (ObjectPathResolver.object_id n, ObjectPathResolver.object_type n))
      | None => ret None
      end
  | None => ret None
  end.

(** Not implemented in the source beyond the check: the list is empty. *)
Definition get_objects_by_namespace p cid (namespace : Z) : op (list (Z * ObjectType)) :=
  check (in_namespace p NamespaceList cid namespace) p NamespaceList (ScopeNamespace namespace) >>>
  container cid (fun m => (Ok [], m)).

Definition get_namespaces p cid : op (list NamespaceRecord) :=
  check (in_database p NamespaceView cid) p NamespaceList (ScopeDatabase (database_of cid)) >>>
  container cid (fun m => (Ok (Container.list_namespace_records m), m)).

Definition get_namespaces_by_prefix p cid (pre : string) : op (list NamespaceRecord) :=
  check (in_database p NamespaceList cid) p NamespaceList (ScopeDatabase (database_of cid)) >>>
  container cid (fun m => (Ok (filter (fun r => String.prefix pre (nr_name r) || String.prefix pre (nr_path r) = true) (Container.list_namespace_records m)), m)).

Definition get_namespace p w cid (namespace : Z) : op (option NamespaceRecord) :=
  check (in_namespace p NamespaceView cid namespace) p NamespaceList (ScopeDatabase (database_of cid)) >>>
  container cid (fun m => let '(r, m) := Container.get_namespace_record (Context.instant w) m namespace in (Ok r, m)).

(** Every namespace gets identifier 0. *)
Definition create_namespace p w cid (config : NamespaceCreate) : op NamespaceRecord :=
  check (in_namespace p NamespaceCreateP cid (nc_parent config)) p NamespaceCreateP (ScopeDatabase (database_of cid)) >>>
  let r := NamespaceRecordMk 0 (nc_name config) 0 ("/" +:+ nc_name config) (Context.utc w) (Context.utc w) None (nc_options config) (nc_metadata config) in
  container cid (fun m => (Ok r, Container.set_namespace_record (Context.instant w) m r)).

Definition namespace_missing (id : Z) : KeyValueError := KvInvalidValue ("Namespace not found: " +:+ debug_object_id "NamespaceId" id).

Definition update_namespace p w cid (namespace : Z) (config : NamespaceUpdate) : op NamespaceRecord :=
  check (in_namespace p NamespaceAlter cid namespace) p NamespaceAlter (ScopeNamespace namespace) >>>
  r <~ container cid (fun m => found (Container.get_namespace_record (Context.instant w) m namespace) (namespace_missing namespace));;
  version <~ lift (inc 64 (nr_version r));;
  let r := NamespaceRecordMk (nr_id r) (default (nr_name r) (nu_name config)) version (nr_path r) (nr_created_at r) (Context.utc w) (nr_default_tablespace r)
             (apply_updates (nu_options config) (nr_options r)) (apply_updates (nu_metadata config) (nr_metadata r)) in
  container cid (fun m => (Ok r, Container.set_namespace_record (Context.instant w) m r)).

Definition delete_namespace p w cid (namespace : Z) : op unit :=
  check (in_namespace p NamespaceDelete cid namespace) p NamespaceDelete (ScopeDatabase (database_of cid)) >>>
  _ <~ container cid (fun m => found (Container.get_namespace_record (Context.instant w) m namespace) (namespace_missing namespace));;
  container cid (fun m => (Ok tt, Container.clear_namespace_record m namespace)).
(** *** Shards *)

(** [KeyValueShardManager::create_shard]. *)
Definition create_shard (config : ShardCreate) : op Z := fun c =>
  let m := Context.shard_manager (context c) in
  match SM.engines m !! hc_engine_type config with
  | None => (Err (KvInvalidValue ("Engine type " +:+ SM.debug_engine_type (hc_engine_type config) +:+ " not registered")), c)
  | Some e =>
      let '(tenant, database) := (tenant_of (hc_container_id config), database_of (hc_container_id config)) in
      let '(ts, object, n) := (hc_tablespace_id config, hc_object_id config, hc_shard_number config) in
      let shard_id := ShardId.from_parts tenant database object n in
      (data_path <~ path (fun r => match hc_shard_type config with
                                   | TableShardType => Resolver.table_shard_data_path r ts tenant database object n
                                   | IndexShardType => Resolver.index_shard_data_path r ts tenant database object n
                                   end);;
       wal_path <~ path (fun r => match hc_shard_type config with
                                  | TableShardType => Resolver.table_shard_wal_path r ts tenant database object n
                                  | IndexShardType => Resolver.index_shard_wal_path r ts tenant database object n
                                  end);;
       (fun c =>
          let '(made, e, fs) := engine_create_shard e shard_id data_path wal_path (vfs c) in
          let c := with_vfs c fs in
          shard (fun m =>
            let engines := <[hc_engine_type config := e]> (SM.engines m) in
            match made with
            | Ok _ => (Ok shard_id, SM.mk engines (<[shard_id := SM.ShardStateMk shard_id (hc_engine_type config) (hc_replication_factor config)]> (SM.shards m)))
            | Err x => (Err x, SM.mk engines (SM.shards m))
            | Panic => (Panic, SM.mk engines (SM.shards m))
            | Timeout => (Timeout, SM.mk engines (SM.shards m))
            end) c)) c
  end.

Definition batch_put (s : Z) (pairs : list (list Z * list Z)) : op unit := shard (fun m => SM.on_engine m s (fun e => engine_batch_put e s pairs)).

(** *** Tables *)

Definition get_tables p cid : op (list TableRecord) :=
  check (in_database p TableDataQuery cid) p TableDataQuery (ScopeDatabase (database_of cid)) >>>
  container cid (fun m => (Ok (Container.list_table_records m), m)).

(** [contains]. *)
Fixpoint has_substring (s text : string) : bool :=
  String.prefix s text || match text with EmptyString => false | String _ text' => has_substring s text' end.

(** These two ignore the scope of the grant. *)
Definition get_tables_by_namespace p cid (namespace : Z) : op (list TableRecord) :=
  check (SecurityPrincipal.has_permission p NamespaceList) p NamespaceList (ScopeDatabase (database_of cid)) >>>
  container cid (fun m => (Ok (filter (fun r => has_substring ("ns_" +:+ pretty (Z.to_N namespace)) (br_path r) = true) (Container.list_table_records m)), m)).

Definition get_tables_by_prefix p cid (pre : string) : op (list TableRecord) :=
  check (SecurityPrincipal.has_permission p NamespaceList) p NamespaceList (ScopeDatabase (database_of cid)) >>>
  container cid (fun m => (Ok (filter (fun r => String.prefix pre (br_name r) || String.prefix pre (br_path r) = true) (Container.list_table_records m)), m)).

Definition get_table p w cid (table : Z) : op (option TableRecord) :=
  check (in_database p TableDataQuery cid) p TableDataQuery (ScopeDatabase (database_of cid)) >>>
  container cid (fun m => let '(r, m) := Container.get_table_record (Context.instant w) m table in (Ok r, m)).

(** One more than the largest identifier in the cache, 0 without tables. *)
Definition new_table_id cid : op Z := fun c =>
  match container_metacaches c !! cid with
  | Some m => (next_id (br_table_id <$> Container.list_table_records m), c)
  | None => (Ok 0, c)
  end.

Definition shard_numbers (s : Sharding) : list Z := match s with Single => [0] | Multiple n _ _ => seqZ 0 n end.

Definition full_range : list Z * list Z := ([], replicate 32 0xFF).

Definition create_local_shard cid (table : Z) (engine_type : string) (n : Z) : op unit :=
  create_shard (shard_create cid table n 0 TableShardType engine_type) >>> ret tt.

Definition create_remote_shard cid (table n : Z) : op unit :=
  consensus "Failed to create shard via Raft: " (fun r =>
    router_create_shard r (ShardId.from_parts (tenant_of cid) (database_of cid) table n) TableShardType full_range [router_node_id r]).

Definition local_shard_record w cid (table node : Z) (engine_type : string) (n : Z) : ShardRecord :=
  let s := ShardId.from_parts (tenant_of cid) (database_of cid) table n in
  ShardRecordMk s (generate_table_label s) 1 TableShardType engine_type (Context.utc w) (Context.utc w) full_range (Some node) [node] ActiveShard 1 0.

(** [entry(cid).or_insert_with(..)], with what is done to the cache. *)
Definition or_new_container cid (f : Container.t -> Container.t) : op unit := fun c =>
  (Ok tt, with_containers c (<[cid := f (default (Container.new cid 0 60) (container_metacaches c !! cid))]> (container_metacaches c))).

(** Through Raft the record is returned but stored nowhere. *)
Definition create_table p w cid (config : TableCreate) : op TableRecord :=
  check (in_database p TableCreateP cid) p TableCreateP (ScopeDatabase (database_of cid)) >>>
  table <~ new_table_id cid;;
  raft <~ distributed;;
  let record (version : Z) := TableRecordMk table (bc_name config) (bc_path config) version (Context.utc w) (bc_engine_type config) (Context.utc w) (bc_sharding_config config)
                                (bc_options config) (bc_metadata config) in
  let numbers := shard_numbers (bc_sharding_config config) in
  if raft : bool then for_each (create_remote_shard cid table) numbers >>> ret (record 0)
  else
    for_each (create_local_shard cid table (bc_engine_type config)) numbers >>>
    node <~ own_node;;
    or_new_container cid (fun m =>
      foldl (fun m n => Container.set_shard_record (Context.instant w) m (local_shard_record w cid table node (bc_engine_type config) n))
        (Container.set_table_record (Context.instant w) m (record 1)) numbers) >>>
    ret (record 1).

Definition table_missing (id : Z) : KeyValueError := KvInvalidValue ("Table not found: " +:+ debug_object_id "TableId" id).

Definition update_table p w cid (table : Z) (config : TableUpdate) : op TableRecord :=
  check (in_table p TableAlter cid table) p TableAlter (ScopeTable table) >>>
  r <~ container cid (fun m => found (Container.get_table_record (Context.instant w) m table) (table_missing table));;
  version <~ lift (inc 64 (br_version r));;
  let r := TableRecordMk (br_table_id r) (default (br_name r) (bu_name config)) (br_path r) version (br_created_at r) (default (br_engine_type r) (bu_engine_type config))
             (Context.utc w) (default (br_sharding r) (bu_sharding_config config)) (apply_updates (bu_options config) (br_options r)) (apply_updates (bu_metadata config) (br_metadata r)) in
  container cid (fun m => (Ok r, Container.set_table_record (Context.instant w) m r)).

(** The shards stay. *)
Definition delete_table p w cid (table : Z) : op unit :=
  check (in_database p TableDelete cid) p TableDelete (ScopeDatabase (database_of cid)) >>>
  _ <~ container cid (fun m => found (Container.get_table_record (Context.instant w) m table) (table_missing table));;
  container cid (fun m => (Ok tt, Container.clear_table_record m table)).

(** *** Indexes *)

Definition get_indexes p cid : op (list IndexRecord) :=
  check (in_database p TableDataQuery cid) p TableDataQuery (ScopeDatabase (database_of cid)) >>>
  container cid (fun m => (Ok (Container.list_index_records m), m)).

Definition get_index p w cid (index : Z) : op (option IndexRecord) :=
  check (in_database p TableDataQuery cid) p TableDataQuery (ScopeDatabase (database_of cid)) >>>
  container cid (fun m => let '(r, m) := Container.get_index_record (Context.instant w) m index in (Ok r, m)).

Definition metadata_shard cid : op Z := container cid (fun m => (Ok (Container.metadata_shard_id m), m)).

(** Every index gets identifier 0. *)
Definition create_index p w cid (config : IndexCreate) : op IndexRecord :=
  check (in_database p TableCreateP cid) p TableCreateP (ScopeDatabase (database_of cid)) >>>
  let r := IndexRecordMk 0 (ic_name config) 0 (ic_index_type config) (Context.utc w) (Context.utc w) (ic_columns config) (ic_key_extractor config) (ic_options config)
             (ic_metadata config) Building (ic_sharding config) in
  container cid (fun m => (Ok tt, Container.set_index_record (Context.instant w) m r)) >>>
  value <~ lift (serialize r);;
  s <~ metadata_shard cid;;
  shard (fun m => SM.put m s (ContainerKeys.index_key 0) value) >>>
  ret r.

Definition index_missing (id : Z) : KeyValueError := KvInvalidValue ("Index not found: " +:+ debug_object_id "IndexId" id).

Definition update_index p w cid (index : Z) (config : IndexUpdate) : op IndexRecord :=
  check (in_database p TableCreateP cid) p TableCreateP (ScopeDatabase (database_of cid)) >>>
  r <~ container cid (fun m => found (Container.get_index_record (Context.instant w) m index) (index_missing index));;
  version <~ lift (inc 64 (ir_version r));;
  let r := IndexRecordMk (ir_index_id r) (default (ir_name r) (iu_name config)) version (ir_index_type r) (ir_created_at r) (Context.utc w) (ir_columns r) (ir_key_extractor r)
             (apply_updates (iu_options config) (ir_options r)) (apply_updates (iu_metadata config) (ir_metadata r)) (ir_status r) (ir_sharding r) in
  s <~ container cid (fun m => (Ok (Container.metadata_shard_id m), Container.set_index_record (Context.instant w) m r));;
  value <~ lift (serialize r);;
  shard (fun m => SM.put m s (ContainerKeys.index_key index) value) >>>
  ret r.

Definition delete_index p w cid (index : Z) : op unit :=
  check (in_database p TableDelete cid) p TableDelete (ScopeDatabase (database_of cid)) >>>
  _ <~ container cid (fun m => found (Container.get_index_record (Context.instant w) m index) (index_missing index));;
  s <~ container cid (fun m => (Ok (Container.metadata_shard_id m), Container.clear_index_record m index));;
  shard (fun m => SM.delete m s (ContainerKeys.index_key index)) >>>
  ret tt.

(** *** Entries *)

Definition validate_user_key (key : list Z) : kv_result unit :=
  match key with
  | [] => Err (KvInvalidValue "Key cannot be empty")
  | 0 :: _ => Err (KvInvalidValue "Keys cannot start with null byte (reserved for system use)")
  | _ => Ok tt
  end.

Definition shard_for (s : Sharding) cid (object : Z) (key : list Z) : kv_result Z :=
  match s with
  | Single => Ok (ShardId.from_parts (tenant_of cid) (database_of cid) object 0)
  | Multiple shard_count partitioner _ =>
      let! n := Partitioner.get_shard_number partitioner key shard_count in Ok (ShardId.from_parts (tenant_of cid) (database_of cid) object n)
  end.

Definition get_table_shard_for_key w cid (table : Z) (key : list Z) : op Z :=
  container cid (fun m => let '(r, m) := found (Container.get_table_record (Context.instant w) m table) (table_missing table) in
                          (let! r := r in shard_for (br_sharding r) cid table key, m)).

(** The message says table here too. *)
Definition get_index_shard_for_key w cid (index : Z) (key : list Z) : op Z :=
  container cid (fun m => let '(r, m) := found (Container.get_index_record (Context.instant w) m index) (KvInvalidValue ("Table not found: " +:+ debug_object_id "IndexId" index)) in
                          (let! r := r in shard_for (ir_sharding r) cid index key, m)).

Definition table_entry_put p w cid (table : Z) (key value : list Z) : op unit :=
  check (in_table p TableDataInsert cid table) p TableDataInsert (ScopeTable table) >>>
  lift (validate_user_key key) >>>
  s <~ get_table_shard_for_key w cid table key;;
  raft <~ distributed;;
  if raft : bool then consensus "Raft put failed: " (fun r => router_put r key value) else shard (fun m => SM.put m s key value).

Definition table_entry_get p w cid (table : Z) (key : list Z) : op (option (list Z)) :=
  check (in_table p TableDataQuery cid table) p TableDataQuery (ScopeTable table) >>>
  lift (validate_user_key key) >>>
  s <~ get_table_shard_for_key w cid table key;;
  raft <~ distributed;;
  if raft : bool then
    (fun c => match router_get (router c) key with
              | (inr v, x) => (Ok v, with_router c x)
              | (inl e, x) => (Err (KvConsensus ("Raft get failed: " +:+ e)), with_router c x)
              end)
  else shard (fun m => SM.get m s key).

Definition table_entry_delete p w cid (table : Z) (key : list Z) : op bool :=
  check (in_table p TableDataDelete cid table) p TableDataDelete (ScopeTable table) >>>
  lift (validate_user_key key) >>>
  s <~ get_table_shard_for_key w cid table key;;
  raft <~ distributed;;
  if raft : bool then consensus "Raft delete failed: " (fun r => router_delete r key) >>> ret true else shard (fun m => SM.delete m s key).

(** The pairs of each shard in their order; shards are visited in the order of
    [map_to_list]. *)
Fixpoint group_by_shard w cid (table : Z) (pairs : list (list Z * list Z)) (batches : gmap Z (list (list Z * list Z))) : op (gmap Z (list (list Z * list Z))) :=
  match pairs with
  | [] => ret batches
  | kv :: pairs =>
      s <~ get_table_shard_for_key w cid table kv.1;;
      group_by_shard w cid table pairs (<[s := default [] (batches !! s) ++ [kv]]> batches)
  end.

Definition table_entry_batch_put p w cid (table : Z) (pairs : list (list Z * list Z)) : op unit :=
  check (in_table p TableDataInsert cid table) p TableDataInsert (ScopeTable table) >>>
  for_each (fun kv => lift (validate_user_key kv.1)) pairs >>>
  raft <~ distributed;;
  if raft : bool then consensus "Raft put failed: " (fun r => router_batch r pairs)
  else
    batches <~ group_by_shard w cid table pairs ∅;;
    for_each (fun b => batch_put b.1 b.2) (map_to_list batches).
End operations.
End TableContext.
