(* ===== verification/KvmRequest.v ===== *)
(** * Requests to the database context

    The operations of [KeyValueDatabaseContext] as one type of requests, the
    contract of the engine behind the system shard, and the rules by which
    properties of the state follow the steps of an operation. *)

From Stdlib Require Import ZArith Lia.
From stdpp Require Import option base gmap list strings.
From S2P Require Import Prelude Objects Security BTreeError KvmCache KvmContext.

Open Scope Z_scope.
Import KeyValueDatabaseContext.

Inductive request : Type :=
| InitializeCluster (config : ClusterCreate) | GetCluster | UpdateCluster (config : ClusterUpdate)
| GetRegions | GetRegion (region : Z) | AddRegion (config : RegionCreate) | UpdateRegion (region : Z) (config : RegionUpdate) | RemoveRegion (region : Z)
| GetServers | GetServersByRegion (region : Z) | GetServer (node : Z) | AddServer (config : ServerCreate)
| UpdateServer (node : Z) (config : ServerUpdate) | RemoveServer (node : Z)
| GetSystemUsers | GetSystemUser (user : Z) | GetUserByUsername (name : string) | CreateSystemUser (config : SystemUserCreate)
| UpdateSystemUser (user : Z) (config : SystemUserUpdate) | RemoveSystemUser (user : Z)
| GetTenants | GetTenant (tenant : Z) | GetTenantByName (name : string) | CreateTenant (config : TenantCreate)
| UpdateTenant (tenant : Z) (config : TenantUpdate) | DeleteTenant (tenant : Z)
| GetTenantUsers (tenant : Z) | GetTenantUser (tenant user : Z) | CreateTenantUser (tenant : Z) (config : TenantUserCreate)
| UpdateTenantUser (tenant user : Z) (config : TenantUserUpdate) | RemoveTenantUser (tenant user : Z)
| GetDatabases (tenant : Z) | GetDatabase (tenant database : Z) | GetDatabaseByName (tenant : Z) (name : string)
| CreateDatabase (tenant : Z) (config : DatabaseCreate) | UpdateDatabase (tenant database : Z) (config : DatabaseUpdate) | DeleteDatabase (tenant database : Z)
| GetTenantTablespaces (tenant : Z) | GetTablespaces | GetTablespace (tablespace : Z) | GetTablespaceByName (name : string)
| CreateTablespace (config : TablespaceCreate) | UpdateTablespace (tablespace : Z) (config : TablespaceUpdate) | DeleteTablespace (tablespace : Z).

(** What the context relies on in [KeyValueShardStore]: a shard is a map from
    keys to values; a call does what it says or fails and changes nothing. *)
Class EngineLaws (E : Type) `{!Engine E} : Type := {
  contents : E -> Z -> option (gmap (list Z) (list Z));
  get_law : forall e s m k, contents e s = Some m ->
    let (r, e') := engine_get e s k in contents e' s = Some m /\ (r = Ok (m !! k) \/ exists x, r = Err x);
  put_law : forall e s m k v, contents e s = Some m ->
    let (r, e') := engine_put e s k v in
    (r = Ok tt /\ contents e' s = Some (<[k := v]> m)) \/ (exists x, r = Err x /\ contents e' s = Some m);
  delete_law : forall e s m k, contents e s = Some m ->
    let (r, e') := engine_delete e s k in
    (r = Ok (bool_decide (is_Some (m !! k))) /\ contents e' s = Some (delete k m)) \/ (exists x, r = Err x /\ contents e' s = Some m) }.

(** What is read back from postcard is what was written. *)
Class CodecLaws (A : Type) `{!Codec A} : Prop := from_to : forall x b, to_bytes x = Some b -> from_bytes b = Some x.

Section run.
Context {E : Type} `{!Engine E}.
Context `{!Codec ClusterRecord, !Codec ClusterMetadata, !Codec RegionRecord, !Codec ServerRecord, !Codec TenantRecord,
          !Codec DatabaseRecord, !Codec SystemUserRecord, !Codec TenantUserRecord}.

Definition forget {A} (m : ctx E A) : ctx E unit := bind m (fun _ => ret tt).

Definition run (p : SecurityPrincipal.t) (w : Clock) (r : request) : ctx E unit :=
  match r with
  | InitializeCluster x => forget (initialize_cluster p w x) | GetCluster => forget (get_cluster p) | UpdateCluster x => forget (update_cluster p w x)
  | GetRegions => forget (get_regions p) | GetRegion i => forget (get_region p w i) | AddRegion x => forget (add_region p w x)
  | UpdateRegion i x => forget (update_region p w i x) | RemoveRegion i => forget (remove_region p i)
  | GetServers => forget (get_servers p) | GetServersByRegion i => forget (get_servers_by_region p i) | GetServer i => forget (get_server p w i)
  | AddServer x => forget (add_server p w x) | UpdateServer i x => forget (update_server p w i x) | RemoveServer i => forget (remove_server p i)
  | GetSystemUsers => forget (get_system_users p) | GetSystemUser i => forget (get_system_user p w i) | GetUserByUsername n => forget (get_user_by_username p n)
  | CreateSystemUser x => forget (create_system_user p w x) | UpdateSystemUser i x => forget (update_system_user p w i x)
  | RemoveSystemUser i => forget (remove_system_user p i)
  | GetTenants => forget (get_tenants p) | GetTenant i => forget (get_tenant p w i) | GetTenantByName n => forget (get_tenant_by_name p n)
  | CreateTenant x => forget (create_tenant p w x) | UpdateTenant i x => forget (update_tenant p w i x) | DeleteTenant i => forget (delete_tenant p i)
  | GetTenantUsers t => forget (get_tenant_users p t) | GetTenantUser t i => forget (get_tenant_user p w t i)
  | CreateTenantUser t x => forget (create_tenant_user p w t x) | UpdateTenantUser t i x => forget (update_tenant_user p w t i x)
  | RemoveTenantUser t i => forget (remove_tenant_user p w t i)
  | GetDatabases t => forget (get_databases p t) | GetDatabase t i => forget (get_database p w t i) | GetDatabaseByName t n => forget (get_database_by_name p t n)
  | CreateDatabase t x => forget (create_database p w t x) | UpdateDatabase t i x => forget (update_database p w t i x)
  | DeleteDatabase t i => forget (delete_database p t i)
  | GetTenantTablespaces t => forget (get_tenant_tablespaces p t) | GetTablespaces => forget (get_tablespaces p) | GetTablespace i => forget (get_tablespace p w i)
  | GetTablespaceByName n => forget (get_tablespace_by_name p n) | CreateTablespace x => forget (create_tablespace p w x)
  | UpdateTablespace i x => forget (update_tablespace p w i x) | DeleteTablespace i => forget (delete_tablespace p i)
  end.
End run.

(** ** Following the steps of an operation *)

Section rules.
Context {E : Type}.
Implicit Types (c : t E).

(** The state changes only along [F], whatever the operation returns. *)
Definition keeps {A} (F : t E -> t E -> Prop) (m : ctx E A) : Prop := forall c, F c (m c).2.

(** From a state in [I] the operation, when it returns [Ok], ends in [Q]. *)
Definition leads {A} (I : t E -> Prop) (m : ctx E A) (Q : A -> t E -> Prop) : Prop :=
  forall c, I c -> match m c with (Ok a, c') => Q a c' | _ => True end.

Section keeps_rules.
Context (F : t E -> t E -> Prop) `{!PreOrder F}.

Lemma keeps_ret {A} (a : A) : keeps F (ret a).
Proof using All. intros c. cbn. reflexivity. Qed.
Lemma keeps_fail {A} e : keeps F (fail (A := A) e).
Proof using All. intros c. cbn. reflexivity. Qed.
Lemma keeps_lift {A} (r : kv_result A) : keeps F (lift r).
Proof using All. intros c. cbn. reflexivity. Qed.
Lemma keeps_bind {A B} (m : ctx E A) (k : A -> ctx E B) : keeps F m -> (forall a, keeps F (k a)) -> keeps F (bind m k).
Proof using All.
  intros Hm Hk c. unfold bind. specialize (Hm c). destruct (m c) as [[a|e| |] c']; cbn in *; try done. etransitivity; [exact Hm|apply Hk].
Qed.
Lemma keeps_check b p perm scope : keeps F (check b p perm scope).
Proof using All. unfold check. destruct b; [apply keeps_ret|apply keeps_fail]. Qed.
Lemma keeps_forget {A} (m : ctx E A) : keeps F m -> keeps F (forget m).
Proof using All. intros Hm. apply keeps_bind; [done|]. intros a. apply keeps_ret. Qed.
End keeps_rules.

(** A refused check ends the operation with the state as it was. *)
Lemma refused {A} p perm scope (m : ctx E A) c :
  bind (check false p perm scope) (fun _ => m) c = (Err (KvPermissionDenied (SecurityPrincipal.user_id p) perm scope), c).
Proof. done. Qed.

Lemma bind_step {A B} (m : ctx E A) (k : A -> ctx E B) c a c' : m c = (Ok a, c') -> bind m k c = k a c'.
Proof. unfold bind. by intros ->. Qed.

Lemma leads_bind {A B} I Q R (m : ctx E A) (k : A -> ctx E B) : leads I m Q -> (forall a, leads (Q a) (k a) R) -> leads I (bind m k) R.
Proof.
  intros Hm Hk c Hc. unfold bind. specialize (Hm c Hc). destruct (m c) as [[a|e| |] c']; try done. by apply Hk.
Qed.

Lemma leads_ret {A} (I : t E -> Prop) (a : A) : leads I (ret a) (fun _ => I).
Proof. by intros c Hc. Qed.
Lemma leads_fail {A} (I : t E -> Prop) e (Q : A -> t E -> Prop) : leads I (fail e) Q.
Proof. by intros c Hc. Qed.
Lemma leads_lift {A} (I : t E -> Prop) (r : kv_result A) : leads I (lift r) (fun a c => I c /\ r = Ok a).
Proof. intros c Hc. unfold lift. by destruct r. Qed.
Lemma leads_check I b p perm scope : leads I (check b p perm scope) (fun _ => I).
Proof. intros c Hc. unfold check. destruct b; done. Qed.
Lemma leads_weaken {A} (I I' : t E -> Prop) (m : ctx E A) (Q Q' : A -> t E -> Prop) :
  (forall c, I' c -> I c) -> (forall a c, Q a c -> Q' a c) -> leads I m Q -> leads I' m Q'.
Proof. intros HI HQ Hm c Hc. specialize (Hm c (HI c Hc)). destruct (m c) as [[] ?]; auto. Qed.
End rules.
