(* ===== verification/KvmIsolation.v ===== *)
(** * Isolation of tenants

    What a principal whose grants are confined to one tenant can change through
    the operations of [KeyValueDatabaseContext]: databases and users of that
    tenant, and the user records of the system, but no other tenant, no region,
    server or tablespace and not the cluster. *)

From Stdlib Require Import ZArith Lia.
From stdpp Require Import option base gmap list strings.
From S2P Require Import Prelude Objects Security BTreeError KvmCache KvmContext KvmRequest.

Open Scope Z_scope.
Import KeyValueDatabaseContext.

(** The values of a cache, whatever the instants. *)
Definition view {K V} `{Countable K} (m : CacheMap.t K V) : gmap K V := snd <$> CacheMap.map m.

Section view.
Context {K V : Type} `{Countable K}.
Implicit Types (m : CacheMap.t K V).

Lemma view_get now m k : (CacheMap.get now m k).1 = view m !! k /\ view (CacheMap.get now m k).2 = view m.
Proof.
  unfold CacheMap.get, view. rewrite lookup_fmap. destruct (CacheMap.map m !! k) as [[i v]|] eqn:E; [|done]. split; [done|]. cbn.
  rewrite fmap_insert. apply insert_id. by rewrite lookup_fmap, E.
Qed.

Lemma view_insert now m k v : view (CacheMap.insert now m k v).2 = <[k := v]> (view m).
Proof. unfold view. cbn. by rewrite fmap_insert. Qed.

Lemma view_remove m k : view (CacheMap.remove m k).2 = delete k (view m).
Proof. unfold view. cbn. by rewrite fmap_delete. Qed.

Lemma view_modify now m k f : view (CacheMap.modify now m k f) = alter f k (view m).
Proof.
  unfold CacheMap.modify, view. apply map_eq. intros j. destruct (CacheMap.map m !! k) as [[i v]|] eqn:E; cbn.
  - rewrite fmap_insert. destruct (decide (j = k)) as [->|Hne]; [by rewrite lookup_insert_eq, lookup_alter_eq, lookup_fmap, E|].
    by rewrite lookup_insert_ne, lookup_alter_ne by done.
  - destruct (decide (j = k)) as [->|Hne]; [by rewrite lookup_alter_eq, lookup_fmap, E|]. by rewrite lookup_alter_ne by done.
Qed.

Lemma view_or_insert now m k d f : view (CacheMap.or_insert now m k d f) = <[k := f (default d (view m !! k))]> (view m).
Proof.
  unfold CacheMap.or_insert, view. rewrite lookup_fmap. destruct (CacheMap.map m !! k) as [[i v]|] eqn:E; cbn; by rewrite fmap_insert.
Qed.
End view.

(** ** The system shard *)

Section disk.
Context {E : Type} `{!Engine E} `{!EngineLaws E}.
Implicit Types (c : t E).

Definition shard_contents (m : SM.t E) : option (gmap (list Z) (list Z)) :=
  s ← SM.shards m !! 0; e ← SM.engines m !! SM.engine_type s; contents e 0.
Definition disk c : option (gmap (list Z) (list Z)) := shard_contents (shard_manager c).

Lemma on_engine_spec {A} (m : SM.t E) d (f : E -> kv_result A * E) : shard_contents m = Some d ->
  exists name e, contents e 0 = Some d /\ (SM.on_engine m 0 f).1 = (f e).1 /\ shard_contents (SM.on_engine m 0 f).2 = contents (f e).2 0 /\
    SM.on_engine m 0 f = ((f e).1, SM.mk (<[name := (f e).2]> (SM.engines m)) (SM.shards m)).
Proof.
  unfold shard_contents. intros (s & Hs & (e & He & Hd)%bind_Some)%bind_Some. exists (SM.engine_type s), e.
  assert (Hon : SM.on_engine m 0 f = ((f e).1, SM.mk (<[SM.engine_type s := (f e).2]> (SM.engines m)) (SM.shards m))).
  { unfold SM.on_engine, SM.get_engine_for_shard. rewrite Hs. cbn [ok_or rbind]. rewrite He. cbn [ok_or rbind]. by destruct (f e). }
  rewrite Hon. split_and!; [done|done| |done]. cbn [snd SM.shards SM.engines]. rewrite Hs. cbn [mbind option_bind].
  by rewrite lookup_insert_eq.
Qed.

(** The state of a context but for its shards. *)
Definition same_rest c c' : Prop := node_id c' = node_id c /\ system_metacache c' = system_metacache c.

Lemma reload_spec key c d : disk c = Some d ->
  disk (load key c).2 = Some d /\ same_rest c (load key c).2 /\ ((load key c).1 = Ok (d !! key) \/ exists x, (load key c).1 = Err x).
Proof.
  intros Hd. unfold load, shard, SM.get. destruct (on_engine_spec (shard_manager c) d (fun e => engine_get e 0 key) Hd) as (name & e & Hc & H1 & H2 & H3).
  rewrite H3 in *. cbn [fst snd] in *. pose proof (get_law e 0 d key Hc) as Hl. destruct (engine_get e 0 key) as [r e']. cbn [fst snd] in *. destruct Hl as [Hl Hr].
  unfold disk. cbn [shard_manager]. rewrite H2. by split_and!.
Qed.

Lemma put_spec key value c d : disk c = Some d ->
  let res := shard (fun m => SM.put m 0 key value) c in
  same_rest c res.2 /\ ((res.1 = Ok tt /\ disk res.2 = Some (<[key := value]> d)) \/ (exists x, res.1 = Err x /\ disk res.2 = Some d)).
Proof.
  intros Hd. unfold shard, SM.put. destruct (on_engine_spec (shard_manager c) d (fun e => engine_put e 0 key value) Hd) as (name & e & Hc & H1 & H2 & H3).
  rewrite H3 in *. cbn [fst snd] in *. pose proof (put_law e 0 d key value Hc) as Hl. destruct (engine_put e 0 key value) as [r e']. cbn [fst snd] in *. split; [done|].
  unfold disk. cbn [shard_manager fst snd]. rewrite H2. exact Hl.
Qed.

Lemma erase_spec key c d : disk c = Some d ->
  same_rest c (erase key c).2 /\
  (((erase key c).1 = Ok tt /\ disk (erase key c).2 = Some (delete key d)) \/ (exists x, (erase key c).1 = Err x /\ disk (erase key c).2 = Some d)).
Proof.
  intros Hd. unfold erase, bind, shard, SM.delete.
  destruct (on_engine_spec (shard_manager c) d (fun e => engine_delete e 0 key) Hd) as (name & e & Hc & H1 & H2 & H3).
  rewrite H3 in *. cbn [fst snd] in *. pose proof (delete_law e 0 d key Hc) as Hl. destruct (engine_delete e 0 key) as [r e']. cbn [fst snd] in *.
  destruct Hl as [[-> Hl]|(x & -> & Hl)]; (split; [done|]); [left|right; exists x]; (split; [done|]); unfold disk; cbn; by rewrite H2.
Qed.
End disk.

(** ** What a tenant may change *)

Section frame.
Context {E : Type} `{!Engine E} `{!EngineLaws E}.
Context `{!Codec ClusterRecord, !Codec ClusterMetadata, !Codec RegionRecord, !Codec ServerRecord, !Codec TenantRecord,
          !Codec DatabaseRecord, !Codec SystemUserRecord, !Codec TenantUserRecord}.
Context `{!CodecLaws DatabaseRecord}.
Context (T : Z).
Implicit Types (c : t E).

Record cache_frame (m m' : Cache.t) : Prop := {
  cf_cluster : Cache.cluster m' = Cache.cluster m;
  cf_regions : view (Cache.regions m') = view (Cache.regions m);
  cf_servers : view (Cache.servers m') = view (Cache.servers m);
  cf_tenants : view (Cache.tenants m') = view (Cache.tenants m);
  cf_tablespaces : view (Cache.tablespaces m') = view (Cache.tablespaces m);
  cf_databases : forall id, (forall d, id <> ContainerId.from_parts T d) -> view (Cache.databases m') !! id = view (Cache.databases m) !! id;
  cf_tenant_users : forall t, t <> T -> view (Cache.tenant_users m') !! t = view (Cache.tenant_users m) !! t }.

(** Keys of the system shard a tenant may write. *)
Definition own_key (k : list Z) : Prop :=
  (exists i, k = SystemKeys.database_key T i) \/ (exists u, k = SystemKeys.tenant_user_key T u) \/ (exists u, k = SystemKeys.system_user_key u).

Definition isolated c c' : Prop :=
  cache_frame (system_metacache c) (system_metacache c') /\
  forall d, disk c = Some d -> exists d', disk c' = Some d' /\ forall k, ~ own_key k -> d' !! k = d !! k.

(** The databases stored for the tenant carry its identifier. *)
Definition filed (d : gmap (list Z) (list Z)) : Prop :=
  forall i b r, d !! SystemKeys.database_key T i = Some b -> from_bytes (A := DatabaseRecord) b = Some r -> dr_tenant r = T.
Definition ready c : Prop := exists d, disk c = Some d /\ filed d.

Definition within c c' : Prop := ready c -> isolated c c' /\ ready c'.

#[export] Instance cache_frame_preorder : PreOrder cache_frame.
Proof.
  split; [by split|]. intros m1 m2 m3 [A1 A2 A3 A4 A5 A6 A7] [B1 B2 B3 B4 B5 B6 B7]. split; try congruence.
  - intros id Hid. by rewrite B6, A6.
  - intros t Ht. by rewrite B7, A7.
Qed.

#[export] Instance within_preorder : PreOrder within.
Proof using All.
  split.
  - intros c Hc. split; [|done]. split; [reflexivity|]. intros d Hd. by exists d.
  - intros c1 c2 c3 H12 H23 H1. destruct (H12 H1) as [[F1 D1] H2]. destruct (H23 H2) as [[F2 D2] H3]. split; [|done]. split; [by etransitivity|].
    intros d Hd. destruct (D1 d Hd) as (d2 & Hd2 & E2). destruct (D2 d2 Hd2) as (d3 & Hd3 & E3). exists d3. split; [done|]. intros k Hk. by rewrite E3, E2.
Qed.

Lemma within_cache {A} (f : Cache.t -> A * Cache.t) : (forall m, cache_frame m (f m).2) -> keeps within (cache f).
Proof using All.
  intros Hf c (d & Hd & Hfd). unfold cache. specialize (Hf (system_metacache c)). destruct (f (system_metacache c)) as [a m]. split; [split; [done|]|].
  - intros d' Hd'. by exists d'.
  - by exists d.
Qed.

Lemma within_load key : keeps within (load key).
Proof using All.
  intros c (d & Hd & Hf). destruct (reload_spec key c d Hd) as (Hd' & [_ Hm] & _). split; [split; [by rewrite Hm|]|by exists d].
  intros d2 Hd2. exists d. split; [done|]. intros k _. congruence.
Qed.

Lemma filed_insert key value d : filed d ->
  (forall i r, key = SystemKeys.database_key T i -> from_bytes (A := DatabaseRecord) value = Some r -> dr_tenant r = T) -> filed (<[key := value]> d).
Proof.
  intros Hf Hv i b r. destruct (decide (SystemKeys.database_key T i = key)) as [<-|Hne].
  - rewrite lookup_insert_eq. intros [= <-]. by eapply Hv.
  - rewrite lookup_insert_ne by done. apply Hf.
Qed.

Lemma within_put key value : own_key key ->
  (forall i r, key = SystemKeys.database_key T i -> from_bytes (A := DatabaseRecord) value = Some r -> dr_tenant r = T) ->
  keeps within (shard (fun m => SM.put m 0 key value)).
Proof using All.
  intros Hk Hv c (d & Hd & Hf). destruct (put_spec key value c d Hd) as ([_ Hm] & [[_ Hp]|(x & _ & Hp)]);
    (split; [split; [by rewrite Hm|]|eexists; split; [exact Hp|]; by try apply filed_insert]); intros d2 Hd2; eexists; (split; [exact Hp|]); intros k Hnk.
  - rewrite lookup_insert_ne by (by intros ->). congruence.
  - congruence.
Qed.

Lemma within_erase key : own_key key -> keeps within (erase key).
Proof using All.
  intros Hk c (d & Hd & Hf). destruct (erase_spec key c d Hd) as ([_ Hm] & [[_ Hp]|(x & _ & Hp)]);
    (split; [split; [by rewrite Hm|]|eexists; split; [exact Hp|]]); try done; try (intros d2 Hd2; eexists; (split; [exact Hp|]); intros k Hnk).
  - rewrite lookup_delete_ne by (by intros ->). congruence.
  - intros i b r. destruct (decide (SystemKeys.database_key T i = key)) as [<-|Hne]; [by rewrite lookup_delete_eq|]. rewrite lookup_delete_ne by done. apply Hf.
  - congruence.
Qed.

Lemma within_persist {A} `{!Codec A} key (x : A) : own_key key ->
  (forall b i r, to_bytes x = Some b -> key = SystemKeys.database_key T i -> from_bytes (A := DatabaseRecord) b = Some r -> dr_tenant r = T) ->
  keeps within (persist key x).
Proof using All.
  intros Hk Hv. unfold persist, serialize. destruct (to_bytes x) as [b|] eqn:Eb; cbn [ok_or].
  - intros c. unfold bind at 1, lift. apply within_put; [done|]. intros i r. by apply Hv.
  - intros c. cbn. reflexivity.
Qed.

(** A step whose result is known to satisfy [P]. *)
Lemma within_bind {A B} (P : A -> Prop) (m : ctx E A) (k : A -> ctx E B) :
  (forall c a c', ready c -> m c = (Ok a, c') -> P a) -> keeps within m -> (forall a, P a -> keeps within (k a)) -> keeps within (bind m k).
Proof using All.
  intros HP Hm Hk c Hc. unfold bind. specialize (HP c). specialize (Hm c). destruct (m c) as [[a|e| |] c']; cbn [snd] in *; [|by apply Hm..].
  destruct (Hm Hc) as [H1 H2]. specialize (Hk a (HP a c' Hc eq_refl) c'). apply (transitivity (R := within) (y := c')); [intros _; by split|done|done].
Qed.

(** *** The cache operations a tenant reaches *)

Lemma frame_get_user now m i : cache_frame m (Cache.get_system_user_record now m i).2.
Proof. unfold Cache.get_system_user_record. destruct (CacheMap.get now (Cache.system_users m) i). by split. Qed.

Lemma frame_set_user now m r : cache_frame m (Cache.set_system_user_record now m r).
Proof. by split. Qed.

Lemma frame_get_tenant_user now m i : cache_frame m (Cache.get_tenant_user_record now m T i).2.
Proof.
  unfold Cache.get_tenant_user_record. destruct (view_get now (Cache.tenant_users m) T) as [_ Hv].
  destruct (CacheMap.get now (Cache.tenant_users m) T) as [[inner|] outer]; cbn [snd] in Hv.
  - destruct (CacheMap.get now inner i) as [r inner']. split; try done. intros t Ht. cbn. by rewrite view_modify, lookup_alter_ne, Hv by done.
  - split; try done. intros t Ht. cbn. by rewrite Hv.
Qed.

Lemma frame_set_tenant_user now m r : cache_frame m (Cache.set_tenant_user_record now m T r).
Proof. split; try done. intros t Ht. cbn. by rewrite view_or_insert, lookup_insert_ne by done. Qed.

Lemma frame_clear_tenant_user now m i : cache_frame m (Cache.clear_tenant_user_record now m T i).
Proof. split; try done. intros t Ht. cbn. by rewrite view_modify, lookup_alter_ne by done. Qed.

Lemma frame_get_database now m i : cache_frame m (Cache.get_database_record now m i).2.
Proof.
  unfold Cache.get_database_record. destruct (view_get now (Cache.databases m) i) as [_ Hv].
  destruct (CacheMap.get now (Cache.databases m) i). split; try done. intros id _. cbn in *. by rewrite Hv.
Qed.

Lemma frame_set_database now m r : dr_tenant r = T -> cache_frame m (Cache.set_database_record now m r).
Proof. intros Hr. split; try done. intros id Hid. cbn [Cache.set_database_record Cache.with_databases Cache.databases]. rewrite view_insert, lookup_insert_ne; [done|]. rewrite Hr. by apply not_eq_sym. Qed.

Lemma frame_clear_database m i : cache_frame m (Cache.clear_database_record m (ContainerId.from_parts T i)).
Proof. split; try done. intros id Hid. cbn [Cache.clear_database_record Cache.with_databases Cache.databases]. rewrite view_remove, lookup_delete_ne; [done|]. by apply not_eq_sym. Qed.

(** *** Principals confined to a tenant *)

Definition confined (p : SecurityPrincipal.t) : Prop :=
  Forall (fun g => scope g = ScopeTenant T /\ implies (permission g) ClusterAlter = false /\ implies (permission g) TablespaceManagement = false)
    (SecurityPrincipal.effective_grants p).

Lemma confined_none p (q : PermissionGrant -> bool) : confined p ->
  (forall g, scope g = ScopeTenant T -> implies (permission g) ClusterAlter = false -> implies (permission g) TablespaceManagement = false -> q g = false) ->
  existsb q (SecurityPrincipal.effective_grants p) = false.
Proof.
  unfold confined. rewrite Forall_forall. intros Hp Hq. destruct (existsb q _) eqn:Eq; [|done]. apply existsb_grant in Eq as (g & Hg & Hqg).
  destruct (Hp g Hg) as (H1 & H2 & H3). specialize (Hq g H1 H2 H3). congruence.
Qed.

Lemma confined_system p perm : confined p -> SecurityPrincipal.has_system_permission p perm = false.
Proof. intros Hp. apply confined_none; [done|]. intros g Hg _ _. unfold allows_system. by rewrite Hg, andb_false_r. Qed.

Lemma confined_tenant p perm t : confined p -> t <> T -> SecurityPrincipal.has_tenant_permission p perm t = false.
Proof.
  intros Hp Ht. apply confined_none; [done|]. intros g Hg _ _. unfold allows_tenant. rewrite Hg. cbn. rewrite (proj2 (Z.eqb_neq _ _)), andb_false_r by done. done.
Qed.

Lemma confined_database p perm t d : confined p -> t <> T -> SecurityPrincipal.has_database_permission p perm t d = false.
Proof.
  intros Hp Ht. apply confined_none; [done|]. intros g Hg _ _. unfold allows_database. rewrite Hg. cbn. rewrite (proj2 (Z.eqb_neq _ _)), andb_false_r by done. done.
Qed.

Lemma confined_unscoped p : confined p -> SecurityPrincipal.has_permission p ClusterAlter = false /\ SecurityPrincipal.has_permission p TablespaceManagement = false.
Proof. intros Hp. split; apply confined_none; auto. Qed.

(** *** Operations *)

Ltac frames := first [apply frame_get_user|apply frame_set_user|apply frame_get_tenant_user|apply frame_set_tenant_user|apply frame_clear_tenant_user
  |apply frame_get_database|apply frame_clear_database|done].

Create HintDb kvm.

Ltac steps := repeat first
  [ solve [eauto 3 with kvm] | apply keeps_check; exact _ | apply keeps_ret; exact _ | apply keeps_fail; exact _ | apply keeps_lift; exact _ | apply within_load
  | apply within_cache; intros; first [reflexivity|frames]
  | apply keeps_bind; [exact _| |intros] | case_match ].

Lemma own_user u : own_key (SystemKeys.system_user_key u).
Proof. right. right. by exists u. Qed.
Lemma own_tenant_user u : own_key (SystemKeys.tenant_user_key T u).
Proof. right. left. by exists u. Qed.
Lemma own_database i : own_key (SystemKeys.database_key T i).
Proof. left. by exists i. Qed.

#[local] Hint Resolve within_erase own_user own_tenant_user own_database : kvm.

(** A user record is no database. *)
Lemma persist_user {A} `{!Codec A} u (x : A) : keeps within (persist (SystemKeys.system_user_key u) x).
Proof using All. apply within_persist; [apply own_user|]. intros b i r _ Hk. discriminate Hk. Qed.
#[local] Hint Resolve persist_user : kvm.

Lemma within_fetch_user w u : keeps within (fetch_system_user w u).
Proof using All. unfold fetch_system_user. steps. Qed.

Lemma within_fetch_tenant_user w u : keeps within (fetch_tenant_user w T u).
Proof using All. unfold fetch_tenant_user. steps. Qed.

#[local] Hint Resolve within_fetch_user within_fetch_tenant_user : kvm.

Lemma within_get_tenant_user p w u : keeps within (get_tenant_user p w T u).
Proof using All. unfold get_tenant_user. steps. Qed.
#[local] Hint Resolve within_get_tenant_user : kvm.

Lemma within_create_tenant_user p w config : keeps within (create_tenant_user p w T config).
Proof using All.
  unfold create_tenant_user. steps; try (apply within_put; [apply own_user|]; intros i r Hk; discriminate Hk).
  apply within_cache. intros m. etransitivity; [apply frame_set_user|apply frame_set_tenant_user].
Qed.

Lemma within_update_tenant_user p w u config : keeps within (update_tenant_user p w T u config).
Proof using All. unfold update_tenant_user. steps. Qed.

Lemma within_remove_tenant_user p w u : keeps within (remove_tenant_user p w T u).
Proof using All. unfold remove_tenant_user. steps. Qed.

Lemma within_store_database w i r : dr_tenant r = T ->
  keeps within (bind (update_cache (fun m => Cache.set_database_record (instant w) m r)) (fun _ => persist (SystemKeys.database_key T i) r)).
Proof using All.
  intros Hr. apply keeps_bind; [exact _|apply within_cache; intros m; by apply frame_set_database|intros _]. apply within_persist; [apply own_database|].
  intros b j r' Hb _ Hr'. apply from_to in Hb. congruence.
Qed.

Lemma within_get_database p w i : keeps within (get_database p w T i).
Proof using All.
  unfold get_database. apply keeps_bind; [exact _|steps|intros _]. apply keeps_bind; [exact _|steps|intros cached]. case_match; [steps|].
  apply (within_bind (fun v => forall b r, v = Some b -> from_bytes (A := DatabaseRecord) b = Some r -> dr_tenant r = T)); [|steps|].
  { intros c v c' (d & Hd & Hf) Hl b r -> Hr. destruct (reload_spec (SystemKeys.database_key T i) c d Hd) as (_ & _ & [H1|(x & H1)]); rewrite Hl in H1; [|done].
    injection H1 as H1. by eapply Hf. }
  intros [b|] Hv; [|steps]. apply (within_bind (fun r => dr_tenant r = T)); [|steps|].
  { intros c r c' _ Hr. unfold lift, deserialize in Hr. destruct (from_bytes b) as [r'|] eqn:Er; [|done]. injection Hr as <- _. by eapply Hv. }
  intros r Hr. apply keeps_bind; [exact _|apply within_cache; intros m; by apply frame_set_database|intros _; steps].
Qed.

Lemma keeps_assoc {A B C} (m : ctx E A) (k : A -> ctx E B) (l : B -> ctx E C) :
  keeps within (bind (bind m k) l) -> keeps within (bind m (fun a => bind (k a) l)).
Proof using All. intros H c. specialize (H c). unfold bind in *. by destruct (m c) as [[] ?]. Qed.

Lemma within_create_database p w config : keeps within (create_database p w T config).
Proof using All.
  unfold create_database. do 3 (apply keeps_bind; [exact _|steps|intros]). apply keeps_assoc, keeps_bind; [exact _|by apply within_store_database|intros; steps].
Qed.

Lemma within_update_database p w i config : keeps within (update_database p w T i config).
Proof using All.
  unfold update_database. apply keeps_bind; [exact _|steps|intros _]. apply keeps_bind; [exact _|steps|intros [r|]; [|steps]].
  destruct (Z.eqb_spec (dr_tenant r) T) as [Hr|Hr]; [|steps]. apply keeps_bind; [exact _|steps|intros version].
  apply keeps_assoc, keeps_bind; [exact _|by apply within_store_database|intros; steps].
Qed.

Lemma within_delete_database p i : keeps within (delete_database p T i).
Proof using All. unfold delete_database. steps. Qed.

#[local] Hint Resolve within_create_tenant_user within_update_tenant_user within_remove_tenant_user within_get_database within_create_database
  within_update_database within_delete_database : kvm.

Lemma keeps_refused {A} b p perm scope (m : ctx E A) : b = false -> keeps within (forget (bind (check b p perm scope) (fun _ => m))).
Proof using All. intros -> c. unfold forget, bind. cbn. reflexivity. Qed.

Lemma refused_read {A} (f : Cache.t -> A) : keeps within (read_cache f).
Proof using All. apply within_cache. intros m. reflexivity. Qed.

(** Every request of a confined principal stays within its tenant. *)
Lemma confined_run p w r : confined p -> keeps within (run p w r).
Proof using All.
  intros Hp. pose proof (fun perm => confined_system p perm Hp) as Hs. destruct (confined_unscoped p Hp) as [Hca Htm].
  pose proof (fun perm t Ht => confined_tenant p perm t Hp Ht) as Ht. pose proof (fun perm t d Hd => confined_database p perm t d Hp Hd) as Hd.
  destruct r; cbn [run]; try (apply keeps_refused; first [apply Hs|done]);
    try (destruct (decide (tenant = T)) as [->|Hne]; [|apply keeps_refused; first [by apply Ht|by apply Hd]]);
    apply keeps_forget; try exact _; try solve [eauto 2 with kvm]; [unfold get_servers_by_region|unfold get_tenant_users|unfold get_databases|unfold get_database_by_name|unfold get_tenant_tablespaces]; steps.
Qed.
End frame.

(** Requests that need a permission on the whole system. *)
Definition system_request (r : request) : bool :=
  match r with
  | GetServersByRegion _ | GetTenantUsers _ | GetTenantUser _ _ | CreateTenantUser _ _ | UpdateTenantUser _ _ _ | RemoveTenantUser _ _
  | GetDatabases _ | GetDatabase _ _ | GetDatabaseByName _ _ | CreateDatabase _ _ | UpdateDatabase _ _ _ | DeleteDatabase _ _ | GetTenantTablespaces _ => false
  | _ => true
  end.

Lemma forget_refused {E A} b p perm scope (m : ctx E A) c : b = false ->
  forget (bind (check b p perm scope) (fun _ => m)) c = (Err (KvPermissionDenied (SecurityPrincipal.user_id p) perm scope), c).
Proof. by intros ->. Qed.

