(* ===== verification/KvmTableSpec.v ===== *)
(** * Tables hold what is written to them

    What the entries of all tables are, read off the state, and that the entry
    operations of nanograph-kvm/src/context.rs change the entry they name and no
    other, across shards, tables, databases and tenants; that a new table is
    empty and all its keys have a place; and what goes wrong when identifiers
    are used again. *)

From Stdlib Require Import ZArith Lia Ascii String.
From stdpp Require Import option base gmap list strings.
From S2P Require Import Prelude Objects Security BTreeError VfsPath VfsMemory VfsTree VfsCompose KvtMemory KvmCache KvmContext KvtResolver KvmObjects KvmPath KvmRequest KvmIsolation KvmTable.

Open Scope Z_scope.
Import TableContext.

(** ** Engines *)

(** What tables rely on beyond [EngineLaws]: a call touches its own shard only,
    a new shard is empty, a batch is a sequence of writes that may stop early. *)
Class TableEngineLaws (E FS : Type) `{!Engine E} `{!EngineLaws E} `{!TableEngine E FS} : Prop := {
  get_frame : forall e s k s', s' <> s -> contents (engine_get e s k).2 s' = contents e s';
  put_frame : forall e s k v s', s' <> s -> contents (engine_put e s k v).2 s' = contents e s';
  delete_frame : forall e s k s', s' <> s -> contents (engine_delete e s k).2 s' = contents e s';
  batch_frame : forall e s l s', s' <> s -> contents (engine_batch_put e s l).2 s' = contents e s';
  create_frame : forall e s d w fs s', s' <> s -> contents (engine_create_shard e s d w fs).1.2 s' = contents e s';
  batch_law : forall e s m l, contents e s = Some m ->
    let (r, e') := engine_batch_put e s l in
    exists n, contents e' s = Some (foldl (fun m kv => <[kv.1 := kv.2]> m) m (take n l)) /\ ((r = Ok tt /\ (length l <= n)%nat) \/ exists x, r = Err x);
  create_law : forall e s d w fs, contents e s = None ->
    match engine_create_shard e s d w fs with
    | (Ok _, e', _) => contents e' s = Some ∅
    | (Err _, e', _) => contents e' s = None
    | _ => False
    end }.

(** ** Identifiers *)

Lemma tenant_u32 cid : is_u32 (tenant_of cid).
Proof. apply wrap_range. lia. Qed.

Lemma database_u32 cid : is_u32 (database_of cid).
Proof. apply wrap_range. lia. Qed.

Lemma container_recompose cid : 0 <= cid < 2 ^ 64 -> ContainerId.from_parts (tenant_of cid) (database_of cid) = cid.
Proof.
  intros Hc. pose proof (database_u32 cid) as Hd. unfold ContainerId.from_parts. rewrite pack_high by (first [lia|apply Hd]).
  unfold tenant_of, database_of, ContainerId.tenant, ContainerId.database, u32, wrap. rewrite Z.shiftr_div_pow2 by lia.
  rewrite (Z.mod_small (cid / 2 ^ 32)); [pose proof (Z.div_mod cid (2 ^ 32)); lia|]. split; [apply Z.div_pos; lia|apply Z.div_lt_upper_bound; lia].
Qed.

Lemma container_same cid cid' : 0 <= cid < 2 ^ 64 -> 0 <= cid' < 2 ^ 64 -> tenant_of cid = tenant_of cid' -> database_of cid = database_of cid' -> cid = cid'.
Proof. intros Hc Hc' Ht Hd. rewrite <- (container_recompose cid), <- (container_recompose cid') by done. by rewrite Ht, Hd. Qed.

Lemma shard_number_u32 p key n i : Partitioner.get_shard_number p key n = Ok i -> is_u32 i.
Proof.
  assert (H0 : is_u32 0) by (unfold is_u32; lia). assert (Hw : forall x, is_u32 (u32 x)) by (intros x; apply wrap_range; lia).
  destruct p; cbn [Partitioner.get_shard_number]; repeat case_match; intros [= <-]; try done; unfold Partitioner.first_index; repeat case_match; done.
Qed.

Definition shard_of (cid object n : Z) : Z := ShardId.from_parts (tenant_of cid) (database_of cid) object n.

Lemma shard_of_inj cid cid' o o' n n' : is_u32 o -> is_u32 o' -> is_u32 n -> is_u32 n' -> shard_of cid o n = shard_of cid' o' n' ->
  tenant_of cid = tenant_of cid' /\ database_of cid = database_of cid' /\ o = o' /\ n = n'.
Proof. intros Ho Ho' Hn Hn'. exact (shard_inj _ _ _ _ _ _ _ _ (tenant_u32 cid) (database_u32 cid) Ho Hn (tenant_u32 cid') (database_u32 cid') Ho' Hn'). Qed.

Lemma shard_for_of s cid table key i : shard_for s cid table key = Ok i -> exists n, is_u32 n /\ i = shard_of cid table n.
Proof.
  destruct s as [|n p f]; cbn [shard_for]; [intros [= <-]; exists 0; split; [unfold is_u32; lia|done]|].
  intros (k & Hk & [= <-])%rbind_ok. exists k. split; [by eapply shard_number_u32|done].
Qed.

(** The shard of a key tells which table it belongs to. *)
Lemma shard_for_inj s cid table key cid' table' n : 0 <= cid < 2 ^ 64 -> 0 <= cid' < 2 ^ 64 -> is_u32 table -> is_u32 table' -> is_u32 n ->
  shard_for s cid table key = Ok (shard_of cid' table' n) -> cid = cid' /\ table = table'.
Proof.
  intros Hc Hc' Ht Ht' Hn (k & Hk & E)%shard_for_of. symmetry in E. destruct (shard_of_inj cid cid' table table' k n Ht Ht' Hk Hn E) as (E1 & E2 & -> & _). split; [by apply container_same|done].
Qed.

(** ** The entries of all tables *)

Section entries.
Context {E FS H R : Type} `{!Engine E} `{!EngineLaws E} `{!TableEngine E FS} `{!TableEngineLaws E FS} `{!FileSystem FS H} `{!Router R}.
Abbreviation state := (t E FS R).
Implicit Types (c : state) (m : SM.t E).

Definition shard_data m (s : Z) : option (gmap (list Z) (list Z)) := st ← SM.shards m !! s; e ← SM.engines m !! SM.engine_type st; contents e s.
Definition manager c : SM.t E := Context.shard_manager (context c).

Definition table_at c (cid table : Z) : option TableRecord := m ← container_metacaches c !! cid; CacheMap.peek (Container.tables m) table.

(** The shard a key is in. *)
Definition place_of c (cid table : Z) (key : list Z) : option Z :=
  r ← table_at c cid table; match shard_for (br_sharding r) cid table key with Ok s => Some s | _ => None end.

(** What a table has under a key: [None] when the key has no place, [Some None]
    when nothing is stored there. *)
Definition entry c (cid table : Z) (key : list Z) : option (option (list Z)) := s ← place_of c cid table key; d ← shard_data (manager c) s; Some (d !! key).

(** The tables and where their keys go are the same. *)
Definition same_tables c c' : Prop := forall cid table, table_at c' cid table = table_at c cid table.

Lemma same_places c c' : same_tables c c' -> forall cid table key, place_of c' cid table key = place_of c cid table key.
Proof. intros Hs cid table key. unfold place_of. by rewrite Hs. Qed.

Lemma on_engine_data {A} m s d (f : E -> kv_result A * E) : shard_data m s = Some d -> (forall e s', s' <> s -> contents (f e).2 s' = contents e s') ->
  exists e, contents e s = Some d /\ (SM.on_engine m s f).1 = (f e).1 /\ shard_data (SM.on_engine m s f).2 s = contents (f e).2 s /\
    forall s', s' <> s -> shard_data (SM.on_engine m s f).2 s' = shard_data m s'.
Proof.
  unfold shard_data. intros (st & Hs & (e & He & Hd)%bind_Some)%bind_Some Hf. exists e.
  assert (Hon : SM.on_engine m s f = ((f e).1, SM.mk (<[SM.engine_type st := (f e).2]> (SM.engines m)) (SM.shards m))).
  { unfold SM.on_engine, SM.get_engine_for_shard. rewrite Hs. cbn [ok_or rbind]. rewrite He. cbn [ok_or rbind]. by destruct (f e). }
  rewrite Hon. cbn [fst snd SM.shards SM.engines]. rewrite Hs. cbn [mbind option_bind]. rewrite lookup_insert_eq. split_and!; [done..|].
  intros s' Hne. destruct (SM.shards m !! s') as [st'|]; [|done]. cbn [mbind option_bind]. destruct (decide (SM.engine_type st' = SM.engine_type st)) as [->|Hn].
  - rewrite lookup_insert_eq, He. cbn [mbind option_bind]. by apply Hf.
  - by rewrite lookup_insert_ne.
Qed.

Lemma get_table_touch now (m : Container.t) table id : CacheMap.peek (Container.tables (Container.get_table_record now m table).2) id = CacheMap.peek (Container.tables m) id.
Proof.
  unfold Container.get_table_record, CacheMap.get. destruct (CacheMap.map (Container.tables m) !! table) as [[i r]|] eqn:Et; [|done]. cbn.
  unfold CacheMap.peek. cbn. destruct (decide (id = table)) as [->|Hn]; [by rewrite lookup_insert_eq, Et|by rewrite lookup_insert_ne].
Qed.

(** Looking for the shard of a key changes no table and no shard. *)
Lemma find_shard w c cid table key s : place_of c cid table key = Some s ->
  exists c', get_table_shard_for_key w cid table key c = (Ok s, c') /\ same_tables c c' /\ context c' = context c.
Proof.
  unfold place_of, table_at. intros (r & (m & Hm & Hr)%bind_Some & Hs)%bind_Some. unfold get_table_shard_for_key, container. rewrite Hm. unfold found.
  destruct (Container.get_table_record (Context.instant w) m table) as [r' m'] eqn:Eg. cbn [fst snd].
  assert (Hr' : r' = Some r). { unfold Container.get_table_record, CacheMap.get in Eg. unfold CacheMap.peek in Hr. destruct (CacheMap.map _ !! table) as [[i x]|]; cbn in Hr; [|done]. congruence. }
  subst r'. cbn [ok_or rbind]. destruct (shard_for (br_sharding r) cid table key); try done. injection Hs as ->. eexists. split; [reflexivity|]. split; [|done].
  intros cid' table'. unfold table_at. cbn [container_metacaches with_containers]. destruct (decide (cid' = cid)) as [->|Hn]; [|by rewrite lookup_insert_ne].
  rewrite lookup_insert_eq, Hm. cbn [mbind option_bind]. change m' with (r, m').2. pose proof (get_table_touch (Context.instant w) m table table') as Ht. by rewrite Eg in Ht.
Qed.

Definition in_range (cid table : Z) : Prop := 0 <= cid < 2 ^ 64 /\ is_u32 table.

(** A change of one key of one shard is a change of one entry. *)
Lemma entry_update c c' cid table key s d d' : in_range cid table -> place_of c cid table key = Some s -> shard_data (manager c) s = Some d ->
  same_tables c c' -> shard_data (manager c') s = Some d' -> (forall k, k <> key -> d' !! k = d !! k) ->
  (forall s', s' <> s -> shard_data (manager c') s' = shard_data (manager c) s') ->
  forall cid' table' key', in_range cid' table' ->
    entry c' cid' table' key' = if decide ((cid', table', key') = (cid, table, key)) then Some (d' !! key) else entry c cid' table' key'.
Proof.
  intros [Hc Ht] Hp Hd Hs Hd' Hk Hf cid' table' key' [Hc' Ht']. unfold entry. rewrite (same_places c c' Hs). case_decide as Eq.
  - injection Eq as -> -> ->. rewrite Hp. cbn [mbind option_bind]. by rewrite Hd'.
  - destruct (place_of c cid' table' key') as [s'|] eqn:Hp'; [|done]. cbn [mbind option_bind]. destruct (decide (s' = s)) as [->|Hne]; [|by rewrite Hf].
    rewrite Hd, Hd'. cbn [mbind option_bind]. f_equal. apply Hk. intros ->. apply Eq. unfold place_of in Hp, Hp'. apply bind_Some in Hp as (r & _ & Hp). apply bind_Some in Hp' as (r' & _ & Hp').
    destruct (shard_for (br_sharding r) cid table key) eqn:E1; try done. destruct (shard_for (br_sharding r') cid' table' key) eqn:E2; try done. injection Hp as ->. injection Hp' as ->.
    destruct (shard_for_of _ _ _ _ _ E1) as (n & Hn & ->).
    by destruct (shard_for_inj _ cid' table' _ cid table n Hc' Hc Ht' Ht Hn E2) as [-> ->].
Qed.

Lemma same_entries c c' : same_tables c c' -> (forall s, shard_data (manager c') s = shard_data (manager c) s) ->
  forall cid table key, entry c' cid table key = entry c cid table key.
Proof. intros Hs Hd cid table key. unfold entry. rewrite (same_places c c' Hs). destruct (place_of c cid table key) as [s|]; [|done]. cbn [mbind option_bind]. by rewrite Hd. Qed.

(** *** One operation *)

Lemma table_bind_ok {A B} (f : op E FS R A) (k : A -> op E FS R B) c a c' : f c = (Ok a, c') -> bind f k c = k a c'.
Proof. unfold bind. by intros ->. Qed.

Lemma bind_assoc {A B C} (f : op E FS R A) (g : A -> op E FS R B) (h : B -> op E FS R C) c : bind (bind f g) h c = bind f (fun a => bind (g a) h) c.
Proof. unfold bind. by destruct (f c) as [[] ?]. Qed.

Inductive entry_op : Type :=
| PutEntry (value : list Z)
| DeleteEntry
| GetEntry.

Inductive answer : Type := Written | Existed (b : bool) | Value (v : option (list Z)).

Definition run_entry p w (o : entry_op) (cid table : Z) (key : list Z) : op E FS R answer :=
  match o with
  | PutEntry v => bind (table_entry_put p w cid table key v) (fun _ => ret Written)
  | DeleteEntry => bind (table_entry_delete p w cid table key) (fun b => ret (Existed b))
  | GetEntry => bind (table_entry_get p w cid table key) (fun v => ret (Value v))
  end.

Definition permission_of (o : entry_op) : Permission := match o with PutEntry _ => TableDataInsert | DeleteEntry => TableDataDelete | GetEntry => TableDataQuery end.

(** What it answers, and what the entry is then. *)
Definition specified (o : entry_op) (old : option (list Z)) : answer * option (list Z) :=
  match o with
  | PutEntry v => (Written, Some v)
  | DeleteEntry => (Existed (bool_decide (is_Some old)), None)
  | GetEntry => (Value old, old)
  end.

(** The call of the engine. *)
Definition engine_call (o : entry_op) (s : Z) (key : list Z) (e : E) : kv_result answer * E :=
  match o with
  | PutEntry v => let '(r, e) := engine_put e s key v in ((let! _ := r in Ok Written), e)
  | DeleteEntry => let '(r, e) := engine_delete e s key in ((let! b := r in Ok (Existed b)), e)
  | GetEntry => let '(r, e) := engine_get e s key in ((let! v := r in Ok (Value v)), e)
  end.

Lemma engine_call_frame o s key e s' : s' <> s -> contents (engine_call o s key e).2 s' = contents e s'.
Proof.
  intros Hne. destruct o; cbn [engine_call]; [pose proof (put_frame e s key value s' Hne) as P|pose proof (delete_frame e s key s' Hne) as P|pose proof (get_frame e s key s' Hne) as P];
    revert P; match goal with |- context [let '(_, _) := ?x in _] => destruct x end; done.
Qed.

Lemma engine_call_spec o s key e d : contents e s = Some d ->
  let '(r, e') := engine_call o s key e in
  (exists x, r = Err x /\ contents e' s = Some d) \/
  (r = Ok (specified o (d !! key)).1 /\ exists d', contents e' s = Some d' /\ d' !! key = (specified o (d !! key)).2 /\ forall k, k <> key -> d' !! k = d !! k).
Proof.
  intros Hd. destruct o; cbn [engine_call specified fst snd].
  - pose proof (put_law e s d key value Hd) as P. destruct (engine_put e s key value) as [r e']. destruct P as [[-> P]|(x & -> & P)]; [right|left; by exists x].
    split; [done|]. eexists. split; [exact P|]. split; [apply lookup_insert_eq|]. intros k Hk. by rewrite lookup_insert_ne.
  - pose proof (delete_law e s d key Hd) as P. destruct (engine_delete e s key) as [r e']. destruct P as [[-> P]|(x & -> & P)]; [right|left; by exists x].
    split; [done|]. eexists. split; [exact P|]. split; [apply lookup_delete_eq|]. intros k Hk. by rewrite lookup_delete_ne.
  - pose proof (get_law e s d key Hd) as P. destruct (engine_get e s key) as [r e']. destruct P as [P [->|[x ->]]]; [right|left; by exists x]. split; [done|]. by exists d.
Qed.

(** An operation is a check, a check, a search and a call. *)
Lemma run_entry_steps p w o cid table key c s : Context.raft_router (context c) = false -> place_of c cid table key = Some s ->
  exists c1, same_tables c c1 /\ context c1 = context c /\
    run_entry p w o cid table key c =
      if in_table p (permission_of o) cid table then
        match validate_user_key key with
        | Ok _ => let '(r, m) := SM.on_engine (manager c) s (engine_call o s key) in (r, with_context c1 (Context.mk (Context.node_id (context c)) m (Context.system_metacache (context c)) false))
        | Err x => (Err x, c)
        | Panic => (Panic, c)
        | Timeout => (Timeout, c)
        end
      else (Err (KvPermissionDenied (SecurityPrincipal.user_id p) (permission_of o) (ScopeTable table)), c).
Proof.
  intros Hr Hp. destruct (find_shard w c cid table key s Hp) as (c1 & Hf & Hs & Hc). exists c1. split; [done|]. split; [done|].
  assert (Hraft : Context.raft_router (context c1) = false) by (by rewrite Hc).
  assert (Hon : forall A (f : E -> kv_result A * E) (g : A -> answer),
    bind (shard (fun m => SM.on_engine m s f)) (fun a => ret (g a)) c1 =
    let '(r, m) := SM.on_engine (manager c) s (fun e => let '(r, e) := f e in ((let! a := r in Ok (g a)), e)) in
    (r, with_context c1 (Context.mk (Context.node_id (context c)) m (Context.system_metacache (context c)) false))).
  { intros A f g. unfold bind, shard, in_context, Context.shard, SM.on_engine, manager. rewrite Hc. destruct (SM.get_engine_for_shard _ s) as [[name e]|x| |]; cbn [fst snd]; rewrite ?Hr; try done.
    destruct (f e) as [[a|x| |] e']; cbn; by rewrite ?Hr. }
  destruct o; cbn [run_entry permission_of]; unfold table_entry_put, table_entry_delete, table_entry_get, check; destruct (in_table p _ cid table); try done;
    rewrite bind_assoc; (erewrite table_bind_ok; [|reflexivity]); rewrite bind_assoc; (destruct (validate_user_key key) as [[]|x| |] eqn:Ev; [|by unfold bind, lift..]);
    (erewrite table_bind_ok; [|reflexivity]); rewrite bind_assoc; (erewrite table_bind_ok; [|exact Hf]); rewrite bind_assoc;
    (erewrite table_bind_ok; [|unfold distributed; by rewrite Hraft]); cbn iota; apply Hon.
Qed.

(** An error that is not the engine's leaves the state as it was. *)
Lemma run_entry_spec p w o cid table key c old : Context.raft_router (context c) = false -> in_range cid table -> entry c cid table key = Some old ->
  exists r c', run_entry p w o cid table key c = (r, c') /\
    ((in_table p (permission_of o) cid table = false /\ r = Err (KvPermissionDenied (SecurityPrincipal.user_id p) (permission_of o) (ScopeTable table)) /\ c' = c) \/
     (in_table p (permission_of o) cid table = true /\
      ((exists x, r = Err x /\ forall cid' table' key', entry c' cid' table' key' = entry c cid' table' key') \/
       (r = Ok (specified o old).1 /\ validate_user_key key = Ok tt /\ forall cid' table' key', in_range cid' table' ->
          entry c' cid' table' key' = if decide ((cid', table', key') = (cid, table, key)) then Some (specified o old).2 else entry c cid' table' key')))).
Proof.
  intros Hr Hrange (s & Hp & (d & Hd & [= Hold])%bind_Some)%bind_Some. destruct (run_entry_steps p w o cid table key c s Hr Hp) as (c1 & Hs & Hc & ->).
  destruct (in_table p (permission_of o) cid table) eqn:Ep; [|eexists _, _; split; [reflexivity|]; by left].
  destruct (validate_user_key key) as [[]|x| |] eqn:Ev.
  - destruct (on_engine_data (manager c) s d (engine_call o s key) Hd (engine_call_frame o s key)) as (e & He & H1 & H2 & H3).
    destruct (SM.on_engine (manager c) s (engine_call o s key)) as [r m] eqn:Eon. cbn [fst snd] in H1, H2, H3. eexists _, _. split; [reflexivity|]. right. split; [done|].
    pose proof (engine_call_spec o s key e d He) as Hspec. destruct (engine_call o s key e) as [r' e'] eqn:Ee. cbn [fst snd] in H1, H2. subst r'.
    set (c' := with_context c1 _). assert (Hs' : same_tables c c') by (intros x y; by rewrite <- (Hs x y)).
    destruct Hspec as [(x & -> & Hx)|(-> & d' & Hd' & Hk & Hrest)].
    + left. exists x. split; [done|]. apply same_entries; [done|]. intros s'. unfold manager at 1. cbn [context with_context c' Context.shard_manager]. destruct (decide (s' = s)) as [->|Hn]; [|by apply H3].
      by rewrite H2, Hx.
    + right. rewrite <- Hold. split; [done|]. split; [done|]. rewrite <- Hk. apply (entry_update c c' cid table key s d d'); try done. unfold manager. cbn [context with_context c' Context.shard_manager]. by rewrite H2.
  - eexists _, _. split; [reflexivity|]. right. split; [done|]. left. by exists x.
  - unfold validate_user_key in Ev. by repeat case_match.
  - unfold validate_user_key in Ev. by repeat case_match.
Qed.

(** ** New tables *)

Lemma bind_inv {A B} (f : op E FS R A) (k : A -> op E FS R B) c b c' : bind f k c = (Ok b, c') -> exists a c1, f c = (Ok a, c1) /\ k a c1 = (Ok b, c').
Proof. unfold bind. destruct (f c) as [[a|x| |] c1]; try done. by exists a, c1. Qed.

Lemma ok_inj {X A} (a b : A) : (Ok a : result X A) = Ok b -> a = b.
Proof. congruence. Qed.

Lemma path_same f c r c' : path f c = (r, c') -> context c' = context c /\ container_metacaches c' = container_metacaches c.
Proof. unfold path. destruct (f (resolver c) (vfs c)) as [x fs]. by intros [= <- <-]. Qed.

(** No engine of this type has the shard. *)
Definition fresh c (engine_type : string) (s : Z) : Prop := forall e, SM.engines (manager c) !! engine_type = Some e -> contents e s = None.

Lemma create_shard_inv config c s c' : create_shard config c = (Ok s, c') ->
  exists e d w fs e' fs', SM.engines (manager c) !! hc_engine_type config = Some e /\ engine_create_shard e s d w fs = (Ok tt, e', fs') /\
    s = shard_of (hc_container_id config) (hc_object_id config) (hc_shard_number config) /\ container_metacaches c' = container_metacaches c /\
    context c' = Context.mk (Context.node_id (context c))
      (SM.mk (<[hc_engine_type config := e']> (SM.engines (manager c)))
         (<[s := SM.ShardStateMk s (hc_engine_type config) (hc_replication_factor config)]> (SM.shards (manager c)))) (Context.system_metacache (context c)) (Context.raft_router (context c)).
Proof.
  unfold create_shard, manager. destruct (SM.engines _ !! hc_engine_type config) as [e|] eqn:He; [|done].
  intros (d & c1 & [E1 F1]%path_same & (w & c2 & [E2 F2]%path_same & Hk)%bind_inv)%bind_inv. cbv zeta in Hk.
  destruct (engine_create_shard e _ d w (vfs c2)) as [[made e'] fs'] eqn:Ec. unfold shard, in_context, Context.shard in Hk. cbn [context with_vfs] in Hk. rewrite E2, E1 in Hk.
  destruct made as [[]|x| |]; [|discriminate Hk..]. apply pair_equal_spec in Hk as [Hs <-]. apply ok_inj in Hs as <-. exists e, d, w, (vfs c2), e', fs'. split; [reflexivity|]. split; [exact Ec|]. split; [reflexivity|]. split; [|reflexivity]. cbn [container_metacaches with_context with_vfs]. by rewrite F2, F1.
Qed.

Lemma create_local_spec cid table et n c c' : create_local_shard cid table et n c = (Ok tt, c') -> fresh c et (shard_of cid table n) ->
  container_metacaches c' = container_metacaches c /\ Context.node_id (context c') = Context.node_id (context c) /\
  (forall s, s <> shard_of cid table n -> shard_data (manager c') s = shard_data (manager c) s) /\ shard_data (manager c') (shard_of cid table n) = Some ∅ /\
  (forall s, s <> shard_of cid table n -> fresh c et s -> fresh c' et s).
Proof.
  intros (s & c1 & Hc & Hret)%bind_inv Hf. injection Hret as <-. destruct (create_shard_inv _ _ _ _ Hc) as (e & d & w & fs & e' & fs' & He & Ec & -> & Hm & Hx). cbn [shard_create hc_engine_type hc_container_id hc_object_id hc_shard_number hc_replication_factor] in *.
  assert (Hfr : forall s, s <> shard_of cid table n -> contents e' s = contents e s) by (intros s Hs; pose proof (create_frame e _ d w fs s Hs) as P; by rewrite Ec in P).
  assert (Hnew : contents e' (shard_of cid table n) = Some ∅) by (pose proof (create_law e _ d w fs (Hf e He)) as P; by rewrite Ec in P).
  split; [done|]. split; [by rewrite Hx|]. unfold shard_data, fresh, manager in *. rewrite Hx. cbn [Context.shard_manager SM.shards SM.engines]. split_and!.
  - intros s Hs. rewrite lookup_insert_ne by done. destruct (SM.shards _ !! s) as [st|]; [|done]. cbn [mbind option_bind].
    destruct (decide (SM.engine_type st = et)) as [->|Hn]; [rewrite lookup_insert_eq, He; cbn; by apply Hfr|by rewrite lookup_insert_ne].
  - rewrite lookup_insert_eq. cbn [mbind option_bind SM.engine_type]. by rewrite lookup_insert_eq.
  - intros s Hs Hfs e0. rewrite lookup_insert_eq. intros [= <-]. rewrite Hfr by done. by apply Hfs.
Qed.

Lemma create_locals_spec cid table et ns : forall c c', for_each (create_local_shard cid table et) ns c = (Ok tt, c') -> NoDup ns -> is_u32 table -> Forall is_u32 ns ->
  Forall (fun n => fresh c et (shard_of cid table n)) ns ->
  container_metacaches c' = container_metacaches c /\ Context.node_id (context c') = Context.node_id (context c) /\
  (forall s, (forall n, n ∈ ns -> s <> shard_of cid table n) -> shard_data (manager c') s = shard_data (manager c) s) /\
  (forall n, n ∈ ns -> shard_data (manager c') (shard_of cid table n) = Some ∅).
Proof.
  induction ns as [|n ns IH]; intros c c' Hrun Hnd Ht Hu Hf; cbn [for_each] in Hrun; [injection Hrun as <-; split_and!; try done; by intros n ?%not_elem_of_nil|].
  apply bind_inv in Hrun as ([] & c1 & Hn & Hrest). apply NoDup_cons in Hnd as [Hnin Hnd]. apply Forall_cons in Hu as [Hun Hu]. apply Forall_cons in Hf as [Hfn Hf].
  assert (Hinj : forall n', n' ∈ ns -> shard_of cid table n' <> shard_of cid table n).
  { intros n' Hn' Heq. rewrite Forall_forall in Hu. apply (shard_of_inj cid cid table table n' n) in Heq as (_ & _ & _ & ->); auto. }
  destruct (create_local_spec cid table et n c c1 Hn Hfn) as (M1 & N1 & D1 & D2 & F1).
  destruct (IH c1 c' Hrest Hnd Ht Hu) as (M2 & N2 & D3 & D4).
  { apply Forall_forall. intros n' Hn'. apply F1; [by apply Hinj|]. rewrite Forall_forall in Hf. by apply Hf. }
  split; [congruence|]. split; [congruence|]. split.
  - intros s Hs. rewrite D3 by (intros n' Hn'; apply Hs; by right). apply D1, Hs. by left.
  - intros n' [->|Hn']%elem_of_cons; [|by apply D4]. rewrite D3; [done|]. intros n'' Hn'' Heq. by apply (Hinj n'').
Qed.

(** Records are filed under their identifiers. *)
Definition tables_keyed c : Prop := forall cid table r, table_at c cid table = Some r -> br_table_id r = table.

Definition sharding_fits (s : Sharding) : Prop := match s with Single => True | Multiple n p _ => fits p n end.

Lemma shard_numbers_ok s : sharding_fits s -> NoDup (shard_numbers s) /\ Forall is_u32 (shard_numbers s).
Proof.
  destruct s as [|n p f]; cbn [sharding_fits shard_numbers]; [intros _; split; [apply NoDup_singleton|]; apply Forall_singleton; unfold is_u32; lia|].
  intros [Hn _]. split; [apply NoDup_seqZ|]. apply Forall_forall. intros x Hx%elem_of_seqZ. unfold is_u32. lia.
Qed.

(** Every key of a table is in one of its shards. *)
Lemma shard_for_number s cid table key : sharding_fits s -> exists n, n ∈ shard_numbers s /\ shard_for s cid table key = Ok (shard_of cid table n).
Proof.
  destruct s as [|n p f]; cbn [sharding_fits shard_numbers shard_for]; [intros _; exists 0; split; [by left|done]|].
  intros Hf. destruct (partition_in_range p key n Hf) as (i & -> & Hi). exists i. split; [apply elem_of_seqZ; lia|done].
Qed.

Lemma next_id_new l i : next_id l = Ok i -> i ∉ l.
Proof.
  destruct l as [|x l]; cbn [next_id]; [intros [= <-]; apply not_elem_of_nil|]. unfold inc. destruct (_ <? _); [|done]. intros [= <-] Hin.
  assert (Hmax : forall y, y ∈ x :: l -> y <= foldr Z.max x l).
  { clear. induction l as [|z l IH]; cbn [foldr]; intros y Hy; [apply list_elem_of_singleton in Hy; lia|].
    apply elem_of_cons in Hy as [->|[->|Hy]%elem_of_cons]; [specialize (IH x ltac:(by left)); lia|lia|specialize (IH y ltac:(by right)); lia]. }
  specialize (Hmax _ Hin). lia.
Qed.

Lemma new_table_new cid c i c' : tables_keyed c -> new_table_id cid c = (Ok i, c') -> c' = c /\ table_at c cid i = None.
Proof.
  intros Hk. unfold new_table_id, table_at. destruct (container_metacaches c !! cid) as [m|] eqn:Em; [|by intros [= _ <-]].
  intros [Hi%next_id_new <-]%pair_equal_spec. split; [done|]. cbn [mbind option_bind]. destruct (CacheMap.peek (Container.tables m) i) as [r|] eqn:Er; [|done]. exfalso. apply Hi.
  assert (Ht : table_at c cid i = Some r) by (unfold table_at; rewrite Em; done). rewrite <- (Hk _ _ _ Ht). apply list_elem_of_fmap_2. unfold Container.list_table_records, CacheMap.values, CacheMap.iter.
  unfold CacheMap.peek in Er. destruct (CacheMap.map (Container.tables m) !! i) as [[j x]|] eqn:Ex; [|done]. injection Er as ->.
  rewrite <- list_fmap_compose. apply list_elem_of_fmap. exists (i, (j, r)). split; [done|]. by apply elem_of_map_to_list.
Qed.

Lemma set_shards_tables w cid table node et ns : forall m : Container.t, Container.tables (foldl (fun (m : Container.t) n => Container.set_shard_record (Context.instant w) m (local_shard_record w cid table node et n)) m ns) = Container.tables m.
Proof. induction ns as [|n ns IH]; intros m; [done|]. cbn [foldl]. by rewrite IH. Qed.

Lemma store_table w cid table r node et ns c c' : br_table_id r = table -> or_new_container cid (fun m : Container.t =>
    foldl (fun (m : Container.t) n => Container.set_shard_record (Context.instant w) m (local_shard_record w cid table node et n)) (Container.set_table_record (Context.instant w) m r) ns) c = (Ok tt, c') ->
  context c' = context c /\ forall cid' table', table_at c' cid' table' = if decide ((cid', table') = (cid, table)) then Some r else table_at c cid' table'.
Proof.
  intros <-. unfold or_new_container. intros [_ <-]%pair_equal_spec. split; [done|]. intros cid' table'. unfold table_at. cbn [container_metacaches with_containers].
  destruct (decide (cid' = cid)) as [->|Hn]; [|rewrite lookup_insert_ne by done; rewrite decide_False by congruence; done].
  rewrite lookup_insert_eq. cbn [mbind option_bind]. rewrite set_shards_tables. unfold CacheMap.peek. cbn [Container.tables Container.set_table_record Container.with_tables CacheMap.insert snd CacheMap.with_map CacheMap.map].
  destruct (decide (table' = br_table_id r)) as [->|Hn]; [by rewrite lookup_insert_eq, decide_True|]. rewrite lookup_insert_ne by done. rewrite decide_False by congruence.
  by destruct (container_metacaches c !! cid).
Qed.

Lemma create_table_inv p w cid config c r c' : Context.raft_router (context c) = false -> create_table p w cid config c = (Ok r, c') -> tables_keyed c ->
  table_at c cid (br_table_id r) = None /\ br_sharding r = bc_sharding_config config /\
  exists c1, for_each (create_local_shard cid (br_table_id r) (bc_engine_type config)) (shard_numbers (bc_sharding_config config)) c = (Ok tt, c1) /\ context c' = context c1 /\
    forall cid' table', table_at c' cid' table' = if decide ((cid', table') = (cid, br_table_id r)) then Some r else table_at c1 cid' table'.
Proof.
  intros Hr Hrun Hk. unfold create_table in Hrun. apply bind_inv in Hrun as ([] & c0 & Hc0 & Hrun). unfold check in Hc0. destruct (in_database _ _ _); [|done]. injection Hc0 as <-.
  apply bind_inv in Hrun as (table & c0 & Hnew & Hrun). destruct (new_table_new cid c table c0 Hk Hnew) as [-> Habs]. apply bind_inv in Hrun as (raft & c0 & Hd & Hrun).
  unfold distributed in Hd. rewrite Hr in Hd. apply pair_equal_spec in Hd as [<-%ok_inj <-]. cbv beta iota zeta in Hrun. apply bind_inv in Hrun as ([] & c1 & Hloop & Hrun).
  apply bind_inv in Hrun as (node & c2 & Hn & Hrun). apply pair_equal_spec in Hn as [<-%ok_inj <-]. apply bind_inv in Hrun as ([] & c2 & Hst & Hret). apply pair_equal_spec in Hret as [<-%ok_inj <-].
  split; [exact Habs|]. split; [reflexivity|]. exists c1. split; [exact Hloop|]. apply (store_table w cid table _ _ _ _ c1 c2) in Hst; [exact Hst|reflexivity].
Qed.

(** A new table is empty and nothing else changes: when a table is created
    on a node of its own, with a partitioner that fits its shards and an engine
    that has none of them yet, it gets an identifier no table of the database
    has, every key has a place in it and nothing is stored under any, and the
    entries of all other tables of all tenants are what they were. *)
Theorem new_table_empty p w cid config c r c' : Context.raft_router (context c) = false -> 0 <= cid < 2 ^ 64 -> tables_keyed c -> sharding_fits (bc_sharding_config config) ->
  create_table p w cid config c = (Ok r, c') -> is_u32 (br_table_id r) ->
  Forall (fun n => fresh c (bc_engine_type config) (shard_of cid (br_table_id r) n)) (shard_numbers (bc_sharding_config config)) ->
  table_at c cid (br_table_id r) = None /\ table_at c' cid (br_table_id r) = Some r /\
  (forall key, entry c' cid (br_table_id r) key = Some None) /\
  (forall cid' table' key, in_range cid' table' -> (cid', table') <> (cid, br_table_id r) -> entry c' cid' table' key = entry c cid' table' key).
Proof.
  intros Hr Hc Hk Hfit Hrun Hu Hfresh. destruct (create_table_inv p w cid config c r c' Hr Hrun Hk) as (Habs & Hsh & c1 & Hloop & Hctx & Htab).
  destruct (shard_numbers_ok _ Hfit) as [Hnd Hnu]. destruct (create_locals_spec cid _ _ _ c c1 Hloop Hnd Hu Hnu Hfresh) as (Hm & _ & Hframe & Hnew).
  assert (Hself : table_at c' cid (br_table_id r) = Some r) by (by rewrite Htab, decide_True).
  assert (Hmgr : manager c' = manager c1) by (unfold manager; by rewrite Hctx). split_and!; [done|done| |].
  - intros key. unfold entry, place_of. rewrite Hself. cbn [mbind option_bind]. rewrite Hsh. destruct (shard_for_number _ cid (br_table_id r) key Hfit) as (n & Hn & ->). cbn [mbind option_bind].
    by rewrite Hmgr, Hnew.
  - intros cid' table' key [Hc' Ht'] Hne. unfold entry, place_of. rewrite Htab, decide_False by done. unfold table_at at 1. rewrite Hm. fold (table_at c cid' table').
    destruct (table_at c cid' table') as [r'|]; [|done]. cbn [mbind option_bind]. destruct (shard_for (br_sharding r') cid' table' key) as [s| | |] eqn:Es; [|done..]. cbn [mbind option_bind].
    rewrite Hmgr, Hframe; [done|]. intros n Hn ->. apply Hne. rewrite Forall_forall in Hnu. by destruct (shard_for_inj _ cid' table' _ cid _ n Hc' Hc Ht' Hu (Hnu n Hn) Es) as [-> ->].
Qed.

(** ** Batches *)

Abbreviation pair := (list Z * list Z)%type.
Definition write_all (d : gmap (list Z) (list Z)) (l : list pair) : gmap (list Z) (list Z) := foldl (fun (x : gmap (list Z) (list Z)) kv => <[kv.1 := kv.2]> x) d l.

(** The value a sequence of writes leaves under a key. *)
Definition last_write (l : list pair) (key : list Z) : option (list Z) := foldl (fun o kv => if decide (kv.1 = key) then Some kv.2 else o) None l.

Lemma write_all_filter (P : pair -> Prop) `{!forall kv, Decision (P kv)} key l : (forall kv, kv ∈ l -> kv.1 = key -> P kv) ->
  forall d d', d !! key = d' !! key -> write_all d (filter P l) !! key = write_all d' l !! key.
Proof.
  induction l as [|kv l IH]; intros HP d d' Hd; [done|]. rewrite filter_cons. assert (HP' : forall kv, kv ∈ l -> kv.1 = key -> P kv) by (intros x Hx; apply HP; by right).
  cbn [write_all foldl]. case_decide as Hk.
  - apply (IH HP'). destruct (decide (kv.1 = key)) as [->|Hn]; [by rewrite !lookup_insert_eq|by rewrite !lookup_insert_ne].
  - apply (IH HP'). rewrite lookup_insert_ne; [done|]. intros Heq. apply Hk, HP; [by left|done].
Qed.

Lemma write_all_last key l : forall d, write_all d l !! key = match last_write l key with Some v => Some v | None => d !! key end.
Proof.
  unfold last_write. induction l as [|kv l IH] using rev_ind; intros d; [done|]. unfold write_all. rewrite !foldl_app. cbn [foldl]. fold (write_all d l).
  destruct (decide (kv.1 = key)) as [->|Hn]; [by rewrite lookup_insert_eq|]. rewrite lookup_insert_ne by done. apply IH.
Qed.

Lemma last_write_elem l key v : last_write l key = Some v -> (key, v) ∈ l.
Proof.
  unfold last_write. induction l as [|[k x] l IH] using rev_ind; [done|]. rewrite foldl_app. cbn [foldl fst snd]. rewrite elem_of_app, list_elem_of_singleton.
  case_decide as Ek; [intros [= ->]; right; by rewrite Ek|left; by apply IH].
Qed.

(** The pairs of a batch that go to one shard. *)
Definition share c (cid table s : Z) (pairs : list pair) : list pair := filter (fun kv => place_of c cid table kv.1 = Some s) pairs.

Lemma share_same c c' cid table s pairs : same_tables c c' -> share c' cid table s pairs = share c cid table s pairs.
Proof. intros Hs. unfold share. apply list_filter_iff. intros kv. by rewrite (same_places c c' Hs). Qed.

Lemma group_spec w cid table pairs : forall c b, Forall (fun kv : pair => is_Some (place_of c cid table kv.1)) pairs ->
  exists b' c', group_by_shard w cid table pairs b c = (Ok b', c') /\ same_tables c c' /\ context c' = context c /\
    forall s, b' !! s = match share c cid table s pairs with [] => b !! s | l => Some (default [] (b !! s) ++ l) end.
Proof.
  induction pairs as [|kv pairs IH]; intros c b Hp; [by exists b, c|]. apply Forall_cons in Hp as [[s0 Hs0] Hp]. cbn [group_by_shard].
  destruct (find_shard w c cid table kv.1 s0 Hs0) as (c1 & Hf & Hs & Hc). erewrite table_bind_ok by exact Hf.
  destruct (IH c1 (<[s0 := default [] (b !! s0) ++ [kv]]> b)) as (b' & c' & Hrun & Hs' & Hc' & Hb).
  { eapply Forall_impl; [exact Hp|]. intros x. by rewrite (same_places c c1 Hs). }
  exists b', c'. split; [exact Hrun|]. split; [intros x y; by rewrite Hs', Hs|]. split; [congruence|]. intros s. rewrite Hb, (share_same c c1) by done. unfold share. rewrite filter_cons.
  destruct (decide (s = s0)) as [->|Hn].
  - rewrite decide_True by done. rewrite lookup_insert_eq. destruct (filter _ pairs); [done|]. f_equal. unfold default. cbn [from_option id]. by rewrite <- app_assoc.
  - rewrite decide_False by congruence. by rewrite lookup_insert_ne.
Qed.

Lemma batch_put_spec c s d l : shard_data (manager c) s = Some d ->
  exists r c' n, batch_put s l c = (r, c') /\ container_metacaches c' = container_metacaches c /\ shard_data (manager c') s = Some (write_all d (take n l)) /\
    (forall s', s' <> s -> shard_data (manager c') s' = shard_data (manager c) s') /\ ((r = Ok tt /\ (length l <= n)%nat) \/ exists x, r = Err x).
Proof.
  intros Hd. destruct (on_engine_data (manager c) s d (fun e => engine_batch_put e s l) Hd (fun e => batch_frame e s l)) as (e & He & H1 & H2 & H3).
  pose proof (batch_law e s d l He) as Hl. destruct (engine_batch_put e s l) as [r e'] eqn:Ee. destruct Hl as (n & Hn & Hr). cbn [fst snd] in *. unfold batch_put, shard, in_context, Context.shard, manager in *.
  destruct (SM.on_engine (Context.shard_manager (context c)) s (fun e => engine_batch_put e s l)) as [r0 m0]. cbn [fst snd] in *. subst r0.
  eexists r, _, n. split; [reflexivity|]. split; [done|]. cbn [context with_context Context.shard_manager]. split; [by rewrite H2, Hn|]. by split.
Qed.

(** Visiting the shards of a batch. *)
Lemma batches_spec bs : forall c, NoDup bs.*1 -> Forall (fun b : Z * list pair => is_Some (shard_data (manager c) b.1)) bs ->
  exists r c', for_each (fun b => batch_put b.1 b.2) bs c = (r, c') /\ container_metacaches c' = container_metacaches c /\
    (forall s, s ∉ bs.*1 -> shard_data (manager c') s = shard_data (manager c) s) /\
    ((r = Ok tt /\ forall s l d, (s, l) ∈ bs -> shard_data (manager c) s = Some d -> shard_data (manager c') s = Some (write_all d l)) \/
     exists x, r = Err x).
Proof.
  induction bs as [|[s l] bs IH]; intros c Hnd Hd; cbn [for_each].
  - exists (Ok tt), c. split_and!; try done. left. split; [done|]. by intros s l d ?%not_elem_of_nil.
  - rewrite fmap_cons in Hnd. apply NoDup_cons in Hnd as [Hnin Hnd]. apply Forall_cons in Hd as [[d Hsd] Hd]. cbn [fst] in *.
    destruct (batch_put_spec c s d l Hsd) as (r1 & c1 & n & Hrun & Hm & Hs1 & Hf & Hr). cbn [snd].
    assert (Hout : forall s', s' ∉ ((s, l) :: bs).*1 -> s' <> s /\ s' ∉ bs.*1) by (intros s'; rewrite fmap_cons, not_elem_of_cons; done).
    destruct Hr as [[-> Hn]|[x ->]]; [|unfold bind; rewrite Hrun; eexists _, _; split; [reflexivity|]; split; [done|]; split; [intros s' [? _]%Hout; by apply Hf|right; by eexists]].
    erewrite table_bind_ok by exact Hrun. rewrite take_ge in Hs1 by done. destruct (IH c1 Hnd) as (r & c' & Hrun' & Hm' & Hf' & Hr').
    { apply Forall_forall. intros [s' l'] Hin. rewrite Forall_forall in Hd. cbn [fst]. rewrite Hf; [exact (Hd _ Hin)|]. intros ->. apply Hnin. by apply (list_elem_of_fmap_2 fst) in Hin. }
    exists r, c'. split; [exact Hrun'|]. split; [congruence|]. split; [intros s' [Hne Hnin']%Hout; rewrite Hf' by done; by apply Hf|].
    destruct Hr' as [[-> Hall]|Hx]; [left; split; [done|]|by right]. intros s' l' d' [[= -> ->]|Hin]%elem_of_cons Hd'.
    + rewrite Hf' by done. congruence.
    + apply (Hall s' l' d' Hin). rewrite Hf; [done|]. intros ->. apply Hnin. by apply (list_elem_of_fmap_2 fst) in Hin.
Qed.

Lemma validate_all (pairs : list pair) c : for_each (fun kv : pair => lift (validate_user_key kv.1)) pairs c = (Ok tt, c) \/
  exists x, for_each (fun kv : pair => lift (validate_user_key kv.1)) pairs c = (Err x, c).
Proof.
  induction pairs as [|kv pairs IH]; [by left|]. cbn [for_each]. unfold bind at 1 2, lift at 1 3.
  destruct (validate_user_key kv.1) as [[]|x| |] eqn:Ev; [exact IH|right; by exists x|..]; unfold validate_user_key in Ev; by repeat case_match.
Qed.

(** The batches are exactly what each shard has to write. *)
Lemma shares_written w cid table pairs c : (forall kv : pair, kv ∈ pairs -> entry c cid table kv.1 <> None) ->
  exists r c', bind (group_by_shard w cid table pairs ∅) (fun b => for_each (fun b => batch_put b.1 b.2) (map_to_list b)) c = (r, c') /\ same_tables c c' /\
    (forall s, share c cid table s pairs = [] -> shard_data (manager c') s = shard_data (manager c) s) /\
    ((r = Ok tt /\ forall s d, shard_data (manager c) s = Some d -> shard_data (manager c') s = Some (write_all d (share c cid table s pairs))) \/ exists x, r = Err x).
Proof.
  intros Hp. assert (Hplace : forall kv, kv ∈ pairs -> exists s d, place_of c cid table kv.1 = Some s /\ shard_data (manager c) s = Some d).
  { intros kv Hkv. specialize (Hp kv Hkv). unfold entry in Hp. destruct (place_of c cid table kv.1) as [s|]; [|done]. cbn [mbind option_bind] in Hp. destruct (shard_data (manager c) s) as [d|] eqn:Ed; [by exists s, d|done]. }
  destruct (group_spec w cid table pairs c ∅) as (b & c1 & Hrun & Hs & Hc & Hb).
  { apply Forall_forall. intros kv (s & d & Hs & _)%Hplace. by eexists. }
  erewrite table_bind_ok by exact Hrun. assert (Hm : manager c1 = manager c) by (unfold manager; by rewrite Hc).
  assert (Hin : forall s l, (s, l) ∈ map_to_list b <-> l = share c cid table s pairs /\ l <> []).
  { intros s l. rewrite elem_of_map_to_list, Hb, lookup_empty. destruct (share c cid table s pairs) as [|x y] eqn:Esh; [split; [done|by intros [-> ?]]|]. cbn. split; [by intros [= <-]|by intros [-> _]]. }
  destruct (batches_spec (map_to_list b) c1) as (r & c' & Hrun' & Hm' & Hf & Hr).
  { apply NoDup_fst_map_to_list. }
  { apply Forall_forall. intros [s l] [-> Hne]%Hin. cbn [fst]. rewrite Hm. destruct (share c cid table s pairs) as [|kv l] eqn:Esh; [done|].
    assert (Hkv : kv ∈ share c cid table s pairs) by (rewrite Esh; by left). apply list_elem_of_filter in Hkv as [Hk Hkv]. destruct (Hplace kv Hkv) as (s' & d & Hs' & Hd). exists d. congruence. }
  assert (Hout : forall s, share c cid table s pairs = [] -> s ∉ (map_to_list b).*1).
  { intros s Hs0 ([s' l] & Heq & [-> Hne]%Hin)%list_elem_of_fmap. cbn in Heq. subst s'. done. }
  exists r, c'. split; [exact Hrun'|]. split; [intros x y; unfold table_at at 1; rewrite Hm'; apply Hs|]. split; [intros s Hs0%Hout; rewrite Hf by done; by rewrite Hm|].
  destruct Hr as [[-> Hall]|Hx]; [left; split; [done|]|by right]. intros s d Hd. destruct (share c cid table s pairs) as [|kv l] eqn:Esh.
  - rewrite Hf by (by apply Hout). by rewrite Hm.
  - apply Hall; [|by rewrite Hm]. apply Hin. by rewrite Esh.
Qed.

(** A batch of writes is the sequence of its writes: on a node of its own, a
    batch on keys that have a place succeeds or fails with an error of the
    check, of a key or of an engine; when it succeeds every key of the table
    has the last value written to it by the batch, or what it had, although
    the pairs are collected per shard; and no entry of any other table has
    changed in either case. *)
Theorem table_batch_put p w cid table pairs c : Context.raft_router (context c) = false -> in_range cid table -> (forall kv : pair, kv ∈ pairs -> entry c cid table kv.1 <> None) ->
  exists r c', table_entry_batch_put p w cid table pairs c = (r, c') /\
    (forall cid' table' key, in_range cid' table' -> (cid', table') <> (cid, table) -> entry c' cid' table' key = entry c cid' table' key) /\
    ((r = Ok tt /\ forall key, entry c' cid table key = match last_write pairs key with Some v => Some (Some v) | None => entry c cid table key end) \/ exists x, r = Err x).
Proof.
  intros Hr [Hc Ht] Hp. unfold table_entry_batch_put. unfold check. destruct (in_table p TableDataInsert cid table); [|eexists _, _; split; [reflexivity|]; split; [done|right; by eexists]].
  erewrite table_bind_ok by reflexivity. destruct (validate_all pairs c) as [Hv|[x Hv]]; [|unfold bind at 1; rewrite Hv; eexists _, _; split; [reflexivity|]; split; [done|right; by eexists]].
  erewrite table_bind_ok by exact Hv. erewrite table_bind_ok by (unfold distributed; rewrite Hr; reflexivity). cbn iota.
  destruct (shares_written w cid table pairs c Hp) as (r & c' & Hrun & Hs & Hf & Hres). exists r, c'. split; [exact Hrun|]. split.
  - intros cid' table' key [Hc' Ht'] Hne. unfold entry. rewrite (same_places c c' Hs). destruct (place_of c cid' table' key) as [s|] eqn:Hpl; [|done]. cbn [mbind option_bind]. rewrite Hf; [done|].
    destruct (share c cid table s pairs) as [|kv l] eqn:Esh; [done|]. exfalso. apply Hne. assert (Hkv : kv ∈ share c cid table s pairs) by (rewrite Esh; by left).
    apply list_elem_of_filter in Hkv as [Hk _]. unfold place_of in Hpl, Hk. apply bind_Some in Hpl as (r1 & _ & Hpl). apply bind_Some in Hk as (r2 & _ & Hk).
    destruct (shard_for (br_sharding r1) cid' table' key) eqn:E1; try done. destruct (shard_for (br_sharding r2) cid table kv.1) eqn:E2; try done. injection Hpl as ->. injection Hk as ->.
    destruct (shard_for_of _ _ _ _ _ E2) as (n & Hn & ->). by destruct (shard_for_inj _ cid' table' _ cid table n Hc' Hc Ht' Ht Hn E1) as [-> ->].
  - destruct Hres as [[-> Hall]|Hx]; [left; split; [done|]|by right]. intros key.
    assert (Hnone : entry c cid table key = None -> last_write pairs key = None).
    { intros He. destruct (last_write pairs key) as [v|] eqn:El; [|done]. apply last_write_elem in El. by destruct (Hp _ El). }
    unfold entry. rewrite (same_places c c' Hs). destruct (place_of c cid table key) as [s|] eqn:Hpl; cbn [mbind option_bind].
    + destruct (shard_data (manager c) s) as [d|] eqn:Hd; cbn [mbind option_bind].
      * rewrite (Hall s d Hd). cbn [mbind option_bind]. unfold share. rewrite (write_all_filter _ key pairs) with (d' := d); [|intros kv _ ->; exact Hpl|done]. rewrite write_all_last. by case_match.
      * rewrite Hnone by (unfold entry; rewrite Hpl; cbn [mbind option_bind]; by rewrite Hd). rewrite Hf, Hd; [done|]. destruct (share c cid table s pairs) as [|kv l] eqn:Esh; [done|]. exfalso.
        assert (Hkv : kv ∈ share c cid table s pairs) by (rewrite Esh; by left). apply list_elem_of_filter in Hkv as [Hk Hkv]. apply (Hp kv Hkv). unfold entry. rewrite Hk. cbn [mbind option_bind]. by rewrite Hd.
    + by rewrite Hnone by (unfold entry; by rewrite Hpl).
Qed.

End entries.
