(* ===== verification/KvmDurable.v ===== *)
(** * Metadata across restarts

    The cache of [KeyValueDatabaseContext] against the system shard: after
    requests that succeed, every tenant, database and system user in the cache
    is the one the shard holds, so a context that starts with an empty cache
    answers as before. *)

From Stdlib Require Import ZArith Lia.
From stdpp Require Import option base gmap list strings.
From S2P Require Import Prelude Objects Security BTreeError KvmCache KvmContext KvmRequest KvmIsolation.

Open Scope Z_scope.
Import KeyValueDatabaseContext.

Abbreviation stored := (gmap (list Z) (list Z)).

(** ** A kind of record: where it is cached and where it is stored *)

Class Kind (R : Type) : Type := {
  kind_view : Cache.t -> gmap Z R;
  kind_id : R -> Z;
  kind_key : R -> list Z;
  kind_dom : R -> Prop;
  kind_tag : Z;
  kind_key_tag : forall r, head (kind_key r) = Some kind_tag;
  kind_key_inj : forall r r', kind_dom r -> kind_dom r' -> kind_key r = kind_key r' <-> kind_id r = kind_id r' }.

#[export, refine] Instance tenant_kind : Kind TenantRecord := {
  kind_view m := view (Cache.tenants m); kind_id := tr_id; kind_key r := SystemKeys.tenant_key (tr_id r); kind_dom r := is_u32 (tr_id r); kind_tag := 0xFC }.
Proof.
  - done.
  - intros r r' Hr Hr'. split; [by apply tenant_key_inj|by intros ->].
Defined.

#[export, refine] Instance database_kind : Kind DatabaseRecord := {
  kind_view m := view (Cache.databases m); kind_id r := ContainerId.from_parts (dr_tenant r) (dr_id r);
  kind_key r := SystemKeys.database_key (dr_tenant r) (dr_id r); kind_dom r := is_u32 (dr_tenant r) /\ is_u32 (dr_id r); kind_tag := 0xFB }.
Proof.
  - done.
  - intros r r' [Ht Hd] [Ht' Hd']. split.
    + intros Hk. destruct (pair_key_inj _ _ _ _ _ Ht Hd Ht' Hd' Hk) as [-> ->]. done.
    + intros Hi. destruct (container_inj _ _ _ _ Ht Hd Ht' Hd' Hi) as [-> ->]. done.
Defined.

#[export, refine] Instance user_kind : Kind SystemUserRecord := {
  kind_view m := view (Cache.system_users m); kind_id := ur_id; kind_key r := SystemKeys.system_user_key (ur_id r); kind_dom r := is_u32 (ur_id r); kind_tag := 0xFA }.
Proof.
  - done.
  - intros r r' Hr Hr'. split; [by apply user_key_inj|by intros ->].
Defined.

Section kind.
Context {R : Type} `{!Kind R} `{!Codec R} `{!CodecLaws R}.
Implicit Types (m : Cache.t) (d : stored) (r : R).

(** Cached records are the stored ones, and stored ones sit under their own key. *)
Definition agrees m d : Prop :=
  (forall i r, kind_view m !! i = Some r -> kind_dom r /\ kind_id r = i /\ exists b, d !! kind_key r = Some b /\ from_bytes b = Some r) /\
  (forall r0 b r, kind_dom r0 -> d !! kind_key r0 = Some b -> from_bytes b = Some r -> kind_dom r /\ kind_key r = kind_key r0).

Lemma agrees_same m m' d : agrees m d -> kind_view m' = kind_view m -> agrees m' d.
Proof. intros H E. unfold agrees. by rewrite E. Qed.

(** Keys of other kinds do not matter. *)
Lemma agrees_other_key m d d' : agrees m d -> (forall k, head k = Some kind_tag -> d' !! k = d !! k) -> agrees m d'.
Proof. intros [H1 H2] E. split; [intros i r|intros r0 b r]; rewrite E by apply kind_key_tag; [apply H1|apply H2]. Qed.

Lemma agrees_store m m' d r b : agrees m d -> kind_dom r -> to_bytes r = Some b -> kind_view m' = <[kind_id r := r]> (kind_view m) ->
  agrees m' (<[kind_key r := b]> d).
Proof using All.
  intros [H1 H2] Hr Hb E. apply from_to in Hb. split.
  - intros i r'. rewrite E. destruct (decide (i = kind_id r)) as [->|Hne].
    + rewrite lookup_insert_eq. intros [= <-]. split_and!; [done|done|]. exists b. by rewrite lookup_insert_eq.
    + rewrite lookup_insert_ne by done. intros Hr'. destruct (H1 i r' Hr') as (Hd & Hi & b' & Hb' & Hf). split_and!; [done|done|]. exists b'.
      rewrite lookup_insert_ne; [done|]. rewrite kind_key_inj by done. congruence.
  - intros r0 b' r' H0. destruct (decide (kind_key r = kind_key r0)) as [<-|Hne].
    + rewrite lookup_insert_eq. intros [= <-]. rewrite Hb. by intros [= <-].
    + rewrite lookup_insert_ne by done. by apply H2.
Qed.

Lemma agrees_load m m' d r0 b r : agrees m d -> kind_dom r0 -> d !! kind_key r0 = Some b -> from_bytes b = Some r -> kind_view m' = <[kind_id r := r]> (kind_view m) ->
  agrees m' d.
Proof.
  intros [H1 H2] H0 Hd Hb E. destruct (H2 r0 b r H0 Hd Hb) as [Hr Hk]. split; [|done]. intros i r'. rewrite E. destruct (decide (i = kind_id r)) as [->|Hne].
  - rewrite lookup_insert_eq. intros [= <-]. split_and!; [done|done|]. exists b. by rewrite Hk.
  - rewrite lookup_insert_ne by done. apply H1.
Qed.

Lemma agrees_drop m m' d r : agrees m d -> kind_dom r -> kind_view m' = delete (kind_id r) (kind_view m) -> agrees m' (delete (kind_key r) d).
Proof.
  intros [H1 H2] Hr E. split.
  - intros i r'. rewrite E. intros [Hne Hr']%lookup_delete_Some. destruct (H1 i r' Hr') as (Hd & Hi & b' & Hb' & Hf). split_and!; [done|done|]. exists b'.
    rewrite lookup_delete_ne; [done|]. rewrite kind_key_inj by done. congruence.
  - intros r0 b' r' H0 Hb'. apply lookup_delete_Some in Hb' as [_ Hb']. by apply H2.
Qed.
End kind.

(** ** Contexts whose cache can be dropped *)

Section durable.
Context {E : Type} `{!Engine E} `{!EngineLaws E}.
Context `{!Codec ClusterRecord, !Codec ClusterMetadata, !Codec RegionRecord, !Codec ServerRecord, !Codec TenantRecord,
          !Codec DatabaseRecord, !Codec SystemUserRecord, !Codec TenantUserRecord}.
Context `{!CodecLaws TenantRecord, !CodecLaws DatabaseRecord, !CodecLaws SystemUserRecord}.
Implicit Types (c : t E) (m : Cache.t) (d : stored).

Definition coherent m d : Prop := agrees (R := TenantRecord) m d /\ agrees (R := DatabaseRecord) m d /\ agrees (R := SystemUserRecord) m d.
Definition durable c : Prop := exists d, disk c = Some d /\ coherent (system_metacache c) d.

(** A change of the cache that leaves the three kinds alone. *)
Definition same_kinds m m' : Prop :=
  kind_view (R := TenantRecord) m' = kind_view m /\ kind_view (R := DatabaseRecord) m' = kind_view m /\ kind_view (R := SystemUserRecord) m' = kind_view m.

Lemma coherent_same m m' d : coherent m d -> same_kinds m m' -> coherent m' d.
Proof. intros (H1 & H2 & H3) (E1 & E2 & E3). split_and!; by eapply agrees_same. Qed.

(** A key of none of the three kinds. *)
Definition other_key (k : list Z) : Prop := head k <> Some 0xFC /\ head k <> Some 0xFB /\ head k <> Some 0xFA.

Lemma coherent_other_key m d d' k : coherent m d -> other_key k -> (forall k', k' <> k -> d' !! k' = d !! k') -> coherent m d'.
Proof.
  intros (H1 & H2 & H3) (K1 & K2 & K3) Hd. split_and!; (eapply agrees_other_key; [eassumption|]; intros k' Hk'; apply Hd; intros ->; first [by apply K1|by apply K2|by apply K3]).
Qed.

(** *** Steps *)

Definition safe {A} (x : ctx E A) : Prop := leads durable x (fun _ => durable).

Lemma safe_bind {A B} (x : ctx E A) (k : A -> ctx E B) : safe x -> (forall a, safe (k a)) -> safe (bind x k).
Proof. intros Hx Hk. eapply leads_bind; [exact Hx|exact Hk]. Qed.

Lemma safe_bind_with {A B} (P : A -> Prop) (x : ctx E A) (k : A -> ctx E B) :
  leads durable x (fun a c => durable c /\ P a) -> (forall a, P a -> safe (k a)) -> safe (bind x k).
Proof. intros Hx Hk. eapply leads_bind; [exact Hx|]. intros a c [Hc HP]. by apply Hk. Qed.

Lemma safe_lift {A} (r : kv_result A) : safe (lift r).
Proof. intros c Hc. unfold lift. by destruct r. Qed.

Lemma leads_result {A} (P : A -> Prop) (r : kv_result A) : (forall a, r = Ok a -> P a) -> leads durable (lift r) (fun a c => durable c /\ P a).
Proof. intros HP c Hc. unfold lift. destruct r; auto. Qed.

Lemma safe_assoc {A B C} (x : ctx E A) (k : A -> ctx E B) (l : B -> ctx E C) : safe (bind (bind x k) l) -> safe (bind x (fun a => bind (k a) l)).
Proof. intros H c Hc. specialize (H c Hc). unfold bind in *. by destruct (x c) as [[] ?]. Qed.

Lemma safe_cache {A} (f : Cache.t -> A * Cache.t) : (forall m, same_kinds m (f m).2) -> safe (cache f).
Proof.
  intros Hf c (d & Hd & Hc). unfold cache. specialize (Hf (system_metacache c)). destruct (f (system_metacache c)) as [a m]. cbn [snd] in Hf.
  exists d. split; [done|]. by eapply coherent_same.
Qed.

Lemma safe_load key : safe (load key).
Proof using All.
  intros c (d & Hd & Hc). destruct (reload_spec key c d Hd) as (Hd' & [_ Hm] & _). destruct (load key c) as [[] c']; try done. cbn in *. exists d. by rewrite Hm.
Qed.

(** A put or a delete, when it succeeds, with what it makes of the shard. *)
Lemma put_leads (I : t E -> Prop) {A} `{!Codec A} key (x : A) (Q : t E -> Prop) :
  (forall c, I c -> exists d, disk c = Some d /\ forall b c', to_bytes x = Some b -> same_rest c c' -> disk c' = Some (<[key := b]> d) -> Q c') ->
  leads I (persist key x) (fun _ => Q).
Proof using All.
  intros HQ c Hc. destruct (HQ c Hc) as (d & Hd & Hq). unfold persist, serialize, bind, lift. destruct (to_bytes x) as [b|] eqn:Eb; cbn [ok_or]; [|done].
  destruct (put_spec key b c d Hd) as (Hr & Hp). destruct (shard _ c) as [[] c']; try done. cbn in *. destruct Hp as [[_ Hp]|(y & ? & _)]; [|done]. by eapply Hq.
Qed.

Lemma erase_leads (I : t E -> Prop) key (Q : t E -> Prop) :
  (forall c, I c -> exists d, disk c = Some d /\ forall c', same_rest c c' -> disk c' = Some (delete key d) -> Q c') -> leads I (erase key) (fun _ => Q).
Proof using All.
  intros HQ c Hc. destruct (HQ c Hc) as (d & Hd & Hq). destruct (erase_spec key c d Hd) as (Hr & Hp). destruct (erase key c) as [[] c']; try done. cbn in *.
  destruct Hp as [[_ Hp]|(y & ? & _)]; [|done]. by eapply Hq.
Qed.

Lemma safe_persist_other {A} `{!Codec A} key (x : A) : other_key key -> safe (persist key x).
Proof using All.
  intros Hk. apply put_leads. intros c (d & Hd & Hc). exists d. split; [done|]. intros b c' _ [_ Hm] Hd'. eexists. split; [exact Hd'|]. rewrite Hm.
  eapply coherent_other_key; [exact Hc|exact Hk|]. intros k' Hk'. by rewrite lookup_insert_ne.
Qed.

Lemma safe_erase_other key : other_key key -> safe (erase key).
Proof using All.
  intros Hk. apply erase_leads. intros c (d & Hd & Hc). exists d. split; [done|]. intros c' [_ Hm] Hd'. eexists. split; [exact Hd'|]. rewrite Hm.
  eapply coherent_other_key; [exact Hc|exact Hk|]. intros k' Hk'. by rewrite lookup_delete_ne.
Qed.

(** Change the cache, then write: coherent again once both are done. *)
Lemma safe_store {A} `{!Codec A} (f : Cache.t -> Cache.t) key (x : A) :
  (forall m d b, coherent m d -> to_bytes x = Some b -> coherent (f m) (<[key := b]> d)) ->
  safe (bind (update_cache f) (fun _ => persist key x)).
Proof using All.
  intros Hf. eapply (leads_bind _ (fun _ c => exists m d, disk c = Some d /\ coherent m d /\ system_metacache c = f m)).
  { intros c (d & Hd & Hc). by exists (system_metacache c), d. }
  intros _. apply put_leads. intros c (m & d & Hd & Hc & Hm). exists d. split; [done|]. intros b c' Hb [_ Hm'] Hd'. eexists. split; [exact Hd'|]. rewrite Hm', Hm. by apply Hf.
Qed.

Lemma safe_drop (f : Cache.t -> Cache.t) key : (forall m d, coherent m d -> coherent (f m) (delete key d)) -> safe (bind (update_cache f) (fun _ => erase key)).
Proof using All.
  intros Hf. eapply (leads_bind _ (fun _ c => exists m d, disk c = Some d /\ coherent m d /\ system_metacache c = f m)).
  { intros c (d & Hd & Hc). by exists (system_metacache c), d. }
  intros _. apply erase_leads. intros c (m & d & Hd & Hc & Hm). exists d. split; [done|]. intros c' [_ Hm'] Hd'. eexists. split; [exact Hd'|]. rewrite Hm', Hm. by apply Hf.
Qed.

(** Read a record and cache it. *)
Lemma safe_fetch {R B} `{!Codec R} (f : R -> Cache.t -> Cache.t) key (g : R -> B) (z : B) :
  (forall m d b r, coherent m d -> d !! key = Some b -> from_bytes b = Some r -> coherent (f r m) d) ->
  safe (bind (load key) (fun v => match v with
    | Some b => bind (lift (deserialize b)) (fun r => bind (update_cache (f r)) (fun _ => ret (g r)))
    | None => ret z end)).
Proof using All.
  intros Hf. eapply (leads_bind _ (fun v c => exists d, disk c = Some d /\ coherent (system_metacache c) d /\ v = d !! key)).
  { intros c (d & Hd & Hc). destruct (reload_spec key c d Hd) as (Hd' & [_ Hm] & Hr). destruct (load key c) as [[v| | |] c']; try done. cbn in *.
    exists d. rewrite Hm. split_and!; [done|done|]. destruct Hr as [[= ->]|[x ?]]; done. }
  intros [b|] c (d & Hd & Hc & Hv); [|by exists d]. unfold bind, lift, deserialize. destruct (from_bytes b) as [r|] eqn:Er; cbn [ok_or]; [|done].
  exists d. split; [done|]. cbn. by eapply Hf.
Qed.

(** *** The three kinds *)

Lemma agrees_apart {R} `{!Kind R} `{!Codec R} m m' d d' k : agrees (R := R) m d -> kind_view (R := R) m' = kind_view m -> head k <> Some (kind_tag (R := R)) ->
  (forall k', k' <> k -> d' !! k' = d !! k') -> agrees (R := R) m' d'.
Proof. intros Ha Hv Hk Hd. eapply agrees_other_key; [by eapply agrees_same|]. intros k' Hk'. apply Hd. by intros ->. Qed.

Ltac apart := match goal with |- agrees _ (<[?k := _]> _) => eapply (agrees_apart _ _ _ _ k) | |- agrees _ (delete ?k _) => eapply (agrees_apart _ _ _ _ k) end; [eassumption|reflexivity|intros Hhead; discriminate Hhead|intros k' Hk'; rewrite ?lookup_insert_ne, ?lookup_delete_ne by done; done].
Ltac stays := eapply agrees_same; [eassumption|reflexivity].

Lemma store_tenant now m d r b : coherent m d -> is_u32 (tr_id r) -> to_bytes r = Some b ->
  coherent (Cache.set_tenant_record now m r) (<[SystemKeys.tenant_key (tr_id r) := b]> d).
Proof using All. intros (H1 & H2 & H3) Hr Hb. split_and!; [|apart|apart]. change (SystemKeys.tenant_key (tr_id r)) with (kind_key r). eapply agrees_store; [done|done|done|]. apply view_insert. Qed.

Lemma store_database now m d r b : coherent m d -> is_u32 (dr_tenant r) -> is_u32 (dr_id r) -> to_bytes r = Some b ->
  coherent (Cache.set_database_record now m r) (<[SystemKeys.database_key (dr_tenant r) (dr_id r) := b]> d).
Proof using All. intros (H1 & H2 & H3) Ht Hr Hb. split_and!; [apart| |apart]. change (SystemKeys.database_key (dr_tenant r) (dr_id r)) with (kind_key r). eapply agrees_store; [done|done|done|]. apply view_insert. Qed.

Lemma store_user now m d r b : coherent m d -> is_u32 (ur_id r) -> to_bytes r = Some b ->
  coherent (Cache.set_system_user_record now m r) (<[SystemKeys.system_user_key (ur_id r) := b]> d).
Proof using All. intros (H1 & H2 & H3) Hr Hb. split_and!; [apart|apart|]. change (SystemKeys.system_user_key (ur_id r)) with (kind_key r). eapply agrees_store; [done|done|done|]. apply view_insert. Qed.

(** Records that stand for an identifier. *)
Definition tenant_of (i : Z) : TenantRecord := TenantRecordMk i 0 0 0 EmptyString None ∅ ∅.
Definition database_of (t i : Z) : DatabaseRecord := DatabaseRecordMk t i 0 0 0 EmptyString 0 None ∅ ∅.
Definition user_of (i : Z) : SystemUserRecord := SystemUserMk i EmptyString 0 0 0 [] [] [] true None ∅ ∅.

Lemma load_tenant now i m d b r : is_u32 i -> coherent m d -> d !! SystemKeys.tenant_key i = Some b -> from_bytes b = Some r ->
  coherent (Cache.set_tenant_record now m r) d.
Proof using All. intros Hi (H1 & H2 & H3) Hd Hb. split_and!; [|stays|stays]. eapply (agrees_load m _ d (tenant_of i) b r); [done|done|exact Hd|done|]. apply view_insert. Qed.

Lemma load_database now t i m d b r : is_u32 t -> is_u32 i -> coherent m d -> d !! SystemKeys.database_key t i = Some b -> from_bytes b = Some r ->
  coherent (Cache.set_database_record now m r) d.
Proof using All. intros Ht Hi (H1 & H2 & H3) Hd Hb. split_and!; [stays| |stays]. eapply (agrees_load m _ d (database_of t i) b r); [done|done|exact Hd|done|]. apply view_insert. Qed.

Lemma load_user now i m d b r : is_u32 i -> coherent m d -> d !! SystemKeys.system_user_key i = Some b -> from_bytes b = Some r ->
  coherent (Cache.set_system_user_record now m r) d.
Proof using All. intros Hi (H1 & H2 & H3) Hd Hb. split_and!; [stays|stays|]. eapply (agrees_load m _ d (user_of i) b r); [done|done|exact Hd|done|]. apply view_insert. Qed.

Lemma drop_tenant i m d : is_u32 i -> coherent m d -> coherent (Cache.clear_tenant_record m i) (delete (SystemKeys.tenant_key i) d).
Proof using All. intros Hi (H1 & H2 & H3). split_and!; [|apart|apart]. change (SystemKeys.tenant_key i) with (kind_key (tenant_of i)). eapply agrees_drop; [done|done|]. apply view_remove. Qed.

Lemma drop_database t i m d : is_u32 t -> is_u32 i -> coherent m d ->
  coherent (Cache.clear_database_record m (ContainerId.from_parts t i)) (delete (SystemKeys.database_key t i) d).
Proof using All. intros Ht Hi (H1 & H2 & H3). split_and!; [apart| |apart]. change (SystemKeys.database_key t i) with (kind_key (database_of t i)). eapply agrees_drop; [done|done|]. apply view_remove. Qed.

Lemma drop_user i m d : is_u32 i -> coherent m d -> coherent (Cache.clear_system_user_record m i) (delete (SystemKeys.system_user_key i) d).
Proof using All. intros Hi (H1 & H2 & H3). split_and!; [apart|apart|]. change (SystemKeys.system_user_key i) with (kind_key (user_of i)). eapply agrees_drop; [done|done|]. apply view_remove. Qed.

(** *** Reading the cache *)

Lemma get_same {R} (sel : Cache.t -> CacheMap.t Z R) (put : Cache.t -> CacheMap.t Z R -> Cache.t) now i m :
  let f m := let (r, x) := CacheMap.get now (sel m) i in (r, put m x) in (f m).1 = view (sel m) !! i /\ exists x, view x = view (sel m) /\ (f m).2 = put m x.
Proof. cbv zeta. destruct (view_get now (sel m) i) as [H1 H2]. destruct (CacheMap.get now (sel m) i) as [r x]. split; [done|]. by exists x. Qed.

Lemma touch_tenant now m i : (Cache.get_tenant_record now m i).1 = kind_view m !! i /\ same_kinds m (Cache.get_tenant_record now m i).2.
Proof. destruct (get_same Cache.tenants Cache.with_tenants now i m) as [H1 (x & H2 & H3)]. split; [exact H1|]. unfold Cache.get_tenant_record. cbv zeta in H3. rewrite H3. by split_and!. Qed.
Lemma touch_database now m i : (Cache.get_database_record now m i).1 = kind_view m !! i /\ same_kinds m (Cache.get_database_record now m i).2.
Proof. destruct (get_same Cache.databases Cache.with_databases now i m) as [H1 (x & H2 & H3)]. split; [exact H1|]. unfold Cache.get_database_record. cbv zeta in H3. rewrite H3. by split_and!. Qed.
Lemma touch_user now m i : (Cache.get_system_user_record now m i).1 = kind_view m !! i /\ same_kinds m (Cache.get_system_user_record now m i).2.
Proof. destruct (get_same Cache.system_users Cache.with_system_users now i m) as [H1 (x & H2 & H3)]. split; [exact H1|]. unfold Cache.get_system_user_record. cbv zeta in H3. rewrite H3. by split_and!. Qed.
Lemma touch_region now m i : same_kinds m (Cache.get_region_record now m i).2.
Proof. unfold Cache.get_region_record. destruct (CacheMap.get now (Cache.regions m) i). done. Qed.
Lemma touch_server now m i : same_kinds m (Cache.get_server_record now m i).2.
Proof. unfold Cache.get_server_record. destruct (CacheMap.get now (Cache.servers m) i). done. Qed.
Lemma touch_tablespace now m i : same_kinds m (Cache.get_tablespace_record now m i).2.
Proof. unfold Cache.get_tablespace_record. destruct (CacheMap.get now (Cache.tablespaces m) i). done. Qed.
Lemma touch_tenant_user now m t i : same_kinds m (Cache.get_tenant_user_record now m t i).2.
Proof.
  unfold Cache.get_tenant_user_record. destruct (CacheMap.get now (Cache.tenant_users m) t) as [[inner|] outer]; [|done]. by destruct (CacheMap.get now inner i).
Qed.

(** What the cache returns is a record of the kind with the identifier asked for. *)
Lemma leads_touch {R} `{!Kind R} `{!Codec R} (f : Cache.t -> option R * Cache.t) i : (forall m d, coherent m d -> agrees (R := R) m d) ->
  (forall m, (f m).1 = kind_view m !! i /\ same_kinds m (f m).2) ->
  leads durable (cache f) (fun a c => durable c /\ forall r, a = Some r -> kind_dom r /\ kind_id r = i).
Proof.
  intros Hco Hf c (d & Hd & Hc). unfold cache. destruct (Hf (system_metacache c)) as [H1 H2]. destruct (f (system_metacache c)) as [a m]. cbn in H1, H2.
  split; [exists d; split; [done|]; by eapply coherent_same|]. intros r ->. destruct (proj1 (Hco _ _ Hc) i r (eq_sym H1)) as (Hr & Hi & _). done.
Qed.

Lemma elem_of_values {V} (x : CacheMap.t Z V) v : v ∈ CacheMap.values x <-> exists i, view x !! i = Some v.
Proof.
  unfold CacheMap.values, CacheMap.iter, view. rewrite <- list_fmap_compose, list_elem_of_fmap. split.
  - intros ([i [now v']] & -> & Hi). exists i. rewrite lookup_fmap. apply elem_of_map_to_list in Hi. by rewrite Hi.
  - intros (i & Hi). rewrite lookup_fmap in Hi. apply fmap_Some in Hi as ([now v'] & Hi & ->). exists (i, (now, v')). split; [done|]. by apply elem_of_map_to_list.
Qed.

Lemma leads_list {R} `{!Kind R} `{!Codec R} (f : Cache.t -> list R) : (forall m d, coherent m d -> agrees (R := R) m d) ->
  (forall m r, r ∈ f m -> exists i, kind_view m !! i = Some r) -> leads durable (read_cache f) (fun a c => durable c /\ Forall kind_dom a).
Proof.
  intros Hco Hf c (d & Hd & Hc). split; [by exists d|]. apply Forall_forall. intros r Hr. destruct (Hf _ _ Hr) as [i Hi].
  by destruct (proj1 (Hco _ _ Hc) i r Hi).
Qed.

Lemma next_id_u32 ids x : Forall is_u32 ids -> next_id ids = Ok x -> is_u32 x.
Proof.
  intros H. unfold next_id. destruct ids as [|y ids]; [intros [= <-]; by vm_compute|]. unfold inc. case_match eqn:Hlt; [|done]. intros [= <-].
  apply Z.ltb_lt in Hlt. unfold is_u32. split; [|lia]. assert (0 <= foldr Z.max y ids); [|lia]. inversion H as [|? ? Hy Hys]; subst.
  clear - Hy Hys. induction ids as [|z ids IH]; cbn; [unfold is_u32 in Hy; lia|]. inversion Hys; subst. specialize (IH ltac:(done)). lia.
Qed.

(** *** Operations *)

Lemma safe_check b p perm scope : safe (check b p perm scope).
Proof. intros c Hc. unfold check. by destruct b. Qed.
Lemma safe_ret {A} (a : A) : safe (ret a).
Proof. by intros c Hc. Qed.
Lemma safe_fail {A} e : safe (fail (A := A) e).
Proof. by intros c Hc. Qed.
Lemma safe_own_cluster : safe own_cluster.
Proof. by intros c Hc. Qed.

Ltac kinds := first [apply touch_tenant|apply touch_database|apply touch_user|apply touch_region|apply touch_server|apply touch_tablespace|apply touch_tenant_user|done].

Ltac walk := repeat first
  [ solve [eauto 2 with durable] | apply safe_check | apply safe_ret | apply safe_fail | apply safe_lift | apply safe_own_cluster | apply safe_load
  | apply safe_persist_other; done | apply safe_erase_other; done | apply safe_cache; intros; kinds
  | apply safe_bind; [|intros] | case_match ].

Create HintDb durable.

Lemma fetch_user_safe w i : is_u32 i -> safe (fetch_system_user w i).
Proof using All.
  intros Hi. unfold fetch_system_user. apply safe_bind; [walk|intros [r|]; [walk|]]. apply safe_fetch. intros m d b r. by apply load_user.
Qed.

Lemma get_tenant_safe p w i : is_u32 i -> safe (get_tenant p w i).
Proof using All.
  intros Hi. unfold get_tenant. do 2 (apply safe_bind; [walk|intros]). case_match; [walk|].
  apply (safe_fetch (fun r m => Cache.set_tenant_record (instant w) m r)). intros m d b r. by apply load_tenant.
Qed.

Lemma create_tenant_safe p w config : safe (create_tenant p w config).
Proof using All.
  unfold create_tenant. apply safe_bind; [walk|intros _].
  apply (safe_bind_with (Forall (kind_dom (R := TenantRecord)))); [apply (leads_list (R := TenantRecord)); [by intros m d []|intros m r; apply elem_of_values]|intros rs Hrs].
  apply (safe_bind_with is_u32).
  { apply leads_result. intros i. apply next_id_u32. by apply Forall_fmap. }
  intros i Hi. apply safe_assoc, safe_bind; [|intros; walk]. apply safe_store. intros m d b Hm Hb. by apply store_tenant.
Qed.

Lemma update_tenant_safe p w i config : safe (update_tenant p w i config).
Proof using All.
  unfold update_tenant. apply safe_bind; [walk|intros _].
  eapply safe_bind_with; [apply (leads_touch (R := TenantRecord)); [by intros m d []|intros m; apply touch_tenant]|]. intros [r|] Hr; [|walk].
  destruct (Hr r eq_refl) as [Hdom Hid]. cbn in Hdom, Hid. subst i. apply safe_bind; [walk|intros version]. apply safe_assoc, safe_bind; [|intros; walk].
  apply safe_store. intros m d b Hm Hb. exact ((fun H => store_tenant (instant w) m d _ b Hm H Hb) Hdom).
Qed.

Lemma delete_tenant_safe p i : is_u32 i -> safe (delete_tenant p i).
Proof using All. intros Hi. unfold delete_tenant. apply safe_bind; [walk|intros _]. apply safe_drop. intros m d. by apply drop_tenant. Qed.

Lemma create_user_safe p w config : safe (create_system_user p w config).
Proof using All.
  unfold create_system_user. apply safe_bind; [walk|intros _]. apply safe_assoc, safe_bind; [|intros; walk]. apply safe_store. intros m d b Hm Hb. by apply store_user.
Qed.

(** Both operations that update a user do this. *)
Lemma store_updated_user w r version name options metadata : is_u32 (ur_id r) ->
  safe (bind (update_cache (fun m => Cache.set_system_user_record (instant w) m (updated_user w r version name options metadata)))
    (fun _ => persist (SystemKeys.system_user_key (ur_id r)) (updated_user w r version name options metadata))).
Proof using All. intros Hr. apply safe_store. intros m d b Hm Hb. exact ((fun H => store_user (instant w) m d _ b Hm H Hb) Hr). Qed.

Lemma touch_user_leads w i : leads durable (cache (fun m => Cache.get_system_user_record (instant w) m i))
  (fun a c => durable c /\ forall r, a = Some r -> kind_dom (R := SystemUserRecord) r /\ kind_id r = i).
Proof. apply (leads_touch (R := SystemUserRecord) (fun m => Cache.get_system_user_record (instant w) m i) i); [by intros m d (_ & _ & ?)|intros m; apply touch_user]. Qed.

Lemma update_user_safe p w i config : safe (update_system_user p w i config).
Proof using All.
  unfold update_system_user. apply safe_bind; [walk|intros _]. eapply safe_bind_with; [apply touch_user_leads|]. intros [r|] Hr; [|walk].
  destruct (Hr r eq_refl) as [Hdom Hid]. cbn in Hdom, Hid. subst i. apply safe_bind; [walk|intros version]. apply safe_assoc, safe_bind; [by apply store_updated_user|intros; walk].
Qed.

Lemma remove_user_safe p i : is_u32 i -> safe (remove_system_user p i).
Proof using All. intros Hi. unfold remove_system_user. apply safe_bind; [walk|intros _]. apply safe_drop. intros m d. by apply drop_user. Qed.

Lemma get_tenant_user_safe p w t i : is_u32 i -> safe (get_tenant_user p w t i).
Proof using All.
  intros Hi. unfold get_tenant_user. apply safe_bind; [walk|intros _]. apply safe_bind; [by apply fetch_user_safe|intros [u|]; [|walk]].
  apply safe_bind; [unfold fetch_tenant_user; walk|intros; walk].
Qed.

Lemma update_tenant_user_safe p w t i config : is_u32 i -> safe (update_tenant_user p w t i config).
Proof using All.
  intros Hi. unfold update_tenant_user. apply safe_bind; [walk|intros _]. eapply safe_bind_with; [apply touch_user_leads|]. intros [r|] Hr; [|walk].
  destruct (Hr r eq_refl) as [Hdom Hid]. cbn in Hdom, Hid. subst i. apply safe_bind; [walk|intros version]. apply safe_assoc, safe_bind; [by apply store_updated_user|intros _].
  apply safe_bind; [by apply get_tenant_user_safe|intros; walk].
Qed.

Lemma get_database_safe p w t i : is_u32 t -> is_u32 i -> safe (get_database p w t i).
Proof using All.
  intros Ht Hi. unfold get_database. do 2 (apply safe_bind; [walk|intros]). case_match; [walk|].
  apply (safe_fetch (fun r m => Cache.set_database_record (instant w) m r)). intros m d b r. by apply load_database.
Qed.

Lemma create_database_safe p w t config : is_u32 t -> safe (create_database p w t config).
Proof using All.
  intros Ht. unfold create_database. apply safe_bind; [walk|intros _].
  apply (safe_bind_with (Forall (kind_dom (R := DatabaseRecord)))); [apply (leads_list (R := DatabaseRecord)); [by intros m d (_ & ? & _)|intros m r; apply elem_of_values]|intros rs Hrs].
  apply (safe_bind_with is_u32).
  { apply leads_result. intros i. apply next_id_u32. apply Forall_fmap, Forall_forall. intros r [_ Hr]%list_elem_of_filter. rewrite Forall_forall in Hrs. by destruct (Hrs r Hr). }
  intros i Hi. apply safe_assoc, safe_bind; [|intros; walk]. apply safe_store. intros m d b Hm Hb. by apply store_database.
Qed.

Lemma update_database_safe p w t i config : is_u32 t -> is_u32 i -> safe (update_database p w t i config).
Proof using All.
  intros Ht Hi. unfold update_database. apply safe_bind; [walk|intros _].
  eapply safe_bind_with; [apply (leads_touch (R := DatabaseRecord)); [by intros m d (_ & ? & _)|intros m; apply touch_database]|]. intros [r|] Hr; [|walk].
  destruct (Hr r eq_refl) as [[Hd1 Hd2] Hid]. destruct (container_inj _ _ _ _ Hd1 Hd2 Ht Hi Hid) as [<- <-]. rewrite Z.eqb_refl.
  apply safe_bind; [walk|intros version]. apply safe_assoc, safe_bind; [|intros; walk]. apply safe_store. intros m d b Hm Hb.
  exact ((fun H1 H2 => store_database (instant w) m d _ b Hm H1 H2 Hb) Hd1 Hd2).
Qed.

Lemma delete_database_safe p t i : is_u32 t -> is_u32 i -> safe (delete_database p t i).
Proof using All. intros Ht Hi. unfold delete_database. apply safe_bind; [walk|intros _]. apply safe_drop. intros m d. by apply drop_database. Qed.

(** *** Requests *)

(** Identifiers are [u32]; creating a user of a tenant is left out. *)
Definition admissible (r : request) : Prop :=
  match r with
  | CreateTenantUser _ _ => False
  | GetSystemUser i | UpdateSystemUser i _ | RemoveSystemUser i | GetTenant i | UpdateTenant i _ | DeleteTenant i | CreateDatabase i _ => is_u32 i
  | GetTenantUser _ i | UpdateTenantUser _ i _ => is_u32 i
  | GetDatabase t i | UpdateDatabase t i _ | DeleteDatabase t i => is_u32 t /\ is_u32 i
  | _ => True
  end.

Lemma run_safe p w r : admissible r -> safe (run p w r).
Proof using All.
  intros Hr. assert (Hforget : forall A (x : ctx E A), safe x -> safe (forget x)) by (intros A x Hx; apply safe_bind; [done|intros; apply safe_ret]).
  destruct r; cbn [run admissible] in *; try done; apply Hforget; try (destruct Hr as [Hr1 Hr2]);
    first [by apply get_tenant_safe|by apply create_tenant_safe|by apply update_tenant_safe|by apply delete_tenant_safe|by apply create_user_safe
      |by apply update_user_safe|by apply remove_user_safe|by apply get_tenant_user_safe|by apply update_tenant_user_safe|by apply get_database_safe
      |by apply create_database_safe|by apply update_database_safe|by apply delete_database_safe|idtac];
    [unfold initialize_cluster|unfold get_cluster|unfold update_cluster|unfold get_regions|unfold get_region|unfold add_region|unfold update_region
    |unfold remove_region|unfold get_servers|unfold get_servers_by_region|unfold get_server|unfold add_server|unfold update_server|unfold remove_server
    |unfold get_system_users|unfold get_system_user; apply safe_bind; [walk|intros _]; apply safe_bind; [by apply fetch_user_safe|intros]
    |unfold get_user_by_username|unfold get_tenants|unfold get_tenant_by_name|unfold get_tenant_users|unfold remove_tenant_user
    |unfold get_databases|unfold get_database_by_name|unfold get_tenant_tablespaces|unfold get_tablespaces|unfold get_tablespace|unfold get_tablespace_by_name
    |unfold create_tablespace|unfold update_tablespace|unfold delete_tablespace]; walk.
Qed.

(** ** Histories *)

(** An empty cache over a system shard without records of the three kinds. *)
Definition fresh c : Prop := exists d, disk c = Some d /\ (forall k b, d !! k = Some b -> other_key k) /\ exists node shard ttl, system_metacache c = Cache.new node shard ttl.

Inductive served : t E -> Prop :=
| served_fresh c : fresh c -> served c
| served_step c p w r c' : served c -> admissible r -> run p w r c = (Ok tt, c') -> served c'.

Lemma fresh_durable c : fresh c -> durable c.
Proof using All.
  intros (d & Hd & Hk & node & sh & ttl & Hm). exists d. split; [done|]. rewrite Hm. split_and!; (split; [intros i r; cbn; by rewrite lookup_fmap, lookup_empty|]);
    intros r0 b r _ Hb; exfalso; apply Hk in Hb as (K1 & K2 & K3); first [by apply K1|by apply K2|by apply K3].
Qed.

Lemma served_durable c : served c -> durable c.
Proof using All.
  induction 1 as [c Hc|c p w r c' _ IH Hr Hrun]; [by apply fresh_durable|]. pose proof (run_safe p w r Hr c IH) as H. by rewrite Hrun in H.
Qed.

(** The process starts again over the same shards. *)
Definition restart c : t E := mk (node_id c) (shard_manager c) (Cache.new (node_id c) 0 (Cache.cache_ttl (system_metacache c))) (raft_router c).

(** The same answer, unless the engine fails. *)
Definition same_answer {A} (r r' : kv_result A) : Prop := r' = r \/ exists x, r' = Err x.

(** Looking a record up, from the cache or else from the shard. *)
Definition fetch {R B} `{!Codec R} (get : Cache.t -> option R * Cache.t) key (f : R -> Cache.t -> Cache.t) (g : R -> B) (z : B) : ctx E B :=
  bind (cache get) (fun cached => match cached with
    | Some r => ret (g r)
    | None => bind (load key) (fun v => match v with
        | Some b => bind (lift (deserialize b)) (fun r => bind (update_cache (f r)) (fun _ => ret (g r)))
        | None => ret z
        end)
    end).

Lemma fetch_result {R B} `{!Codec R} get key (f : R -> Cache.t -> Cache.t) (g : R -> B) z c :
  (fetch get key f g z c).1 = match (get (system_metacache c)).1 with
    | Some r => Ok (g r)
    | None => let! v := (SM.get (shard_manager c) 0 key).1 in match v with Some b => let! r := deserialize b in Ok (g r) | None => Ok z end
    end.
Proof.
  unfold fetch, bind, cache. destruct (get (system_metacache c)) as [[r|] m]; [done|]. cbn [fst]. unfold load, shard. cbn [shard_manager].
  destruct (SM.get (shard_manager c) 0 key) as [[v|x| |] sm]; [|done..]. cbn [fst rbind]. destruct v as [b|]; [|done]. unfold lift. by destruct (deserialize b).
Qed.

Lemma fetch_restart {R B} `{!Kind R} `{!Codec R} get (f : R -> Cache.t -> Cache.t) key r0 (g : R -> B) (z : B) c : key = kind_key r0 ->
  (forall m d, coherent m d -> agrees (R := R) m d) -> (forall m d, coherent m d -> (get m).1 = kind_view (R := R) m !! kind_id r0) -> kind_dom r0 ->
  (get (system_metacache (restart c))).1 = None -> durable c ->
  same_answer (fetch get key f g z c).1 (fetch get key f g z (restart c)).1.
Proof using All.
  intros -> Hco Hget H0 Hempty (d & Hd & Hc). rewrite !fetch_result, (Hget _ _ Hc), Hempty. change (shard_manager (restart c)) with (shard_manager c).
  destruct (kind_view (system_metacache c) !! kind_id r0) as [r|] eqn:Er; [|by left]. destruct (proj1 (Hco _ _ Hc) _ _ Er) as (Hr & Hid & b & Hb & Hf).
  rewrite <- kind_key_inj in Hid by done. destruct (reload_spec (kind_key r0) c d Hd) as (_ & _ & Hl). unfold load, shard in Hl.
  destruct (SM.get (shard_manager c) 0 (kind_key r0)) as [res sm]. cbn [fst] in *. rewrite <- Hid, Hb in Hl. destruct Hl as [->|[x ->]]; [left|right; by exists x].
  cbn [rbind]. unfold deserialize. by rewrite Hf.
Qed.

Lemma checked_answer {A} b p perm scope (x : ctx E A) c c' : same_answer (x c).1 (x c').1 ->
  same_answer (bind (check b p perm scope) (fun _ => x) c).1 (bind (check b p perm scope) (fun _ => x) c').1.
Proof. intros H. unfold check. destruct b; [done|by left]. Qed.

(** The lookup of [get_database] passes over a cached record of another tenant. *)
Definition get_own_database now t i (m : Cache.t) : option DatabaseRecord * Cache.t :=
  let (a, m') := Cache.get_database_record now m (ContainerId.from_parts t i) in (r ← a; guard (dr_tenant r = t);; Some r, m').

Lemma get_own_database_spec now t i m d : is_u32 t -> is_u32 i -> coherent m d ->
  (get_own_database now t i m).1 = kind_view (R := DatabaseRecord) m !! ContainerId.from_parts t i.
Proof.
  intros Ht Hi (_ & [Hv _] & _). unfold get_own_database. destruct (touch_database now m (ContainerId.from_parts t i)) as [Hg _].
  destruct (Cache.get_database_record now m (ContainerId.from_parts t i)) as [a m']. cbn [fst] in *. rewrite <- Hg in *. destruct a as [r|]; [|done].
  destruct (Hv _ _ (eq_sym Hg)) as ([H1 H2] & Hid & _). destruct (container_inj _ _ _ _ H1 H2 Ht Hi Hid) as [<- <-]. cbn. by rewrite option_guard_True.
Qed.

Lemma get_database_fetch p w t i c : get_database p w t i c = bind (check (SecurityPrincipal.has_database_permission p DatabaseView t i) p DatabaseView (ScopeDatabase i))
  (fun _ => fetch (get_own_database (instant w) t i) (SystemKeys.database_key t i) (fun r m => Cache.set_database_record (instant w) m r)
    (fun r => Some (database_metadata_from r)) None) c.
Proof.
  unfold get_database, check, fetch. destruct (SecurityPrincipal.has_database_permission p DatabaseView t i); [|done].
  unfold bind, ret, cache, get_own_database. cbn [system_metacache]. by destruct (Cache.get_database_record _ _ _) as [a m].
Qed.

Lemma get_system_user_fetch p w i c : (get_system_user p w i c).1 =
  (bind (check (SecurityPrincipal.has_system_permission p UserManagement) p UserManagement ScopeSystem) (fun _ =>
    fetch (fun m => Cache.get_system_user_record (instant w) m i) (SystemKeys.system_user_key i) (fun r m => Cache.set_system_user_record (instant w) m r)
      (fun r => Some (system_user_metadata_from r)) None) c).1.
Proof.
  unfold get_system_user, check, fetch_system_user, fetch. destruct (SecurityPrincipal.has_system_permission p UserManagement); [|done].
  unfold bind, ret, cache. destruct (Cache.get_system_user_record _ _ _) as [[r|] m]; [done|]. destruct (load _ _) as [[[b|]|x| |] c2]; [|done..].
  unfold lift. by destruct (deserialize b).
Qed.
End durable.


(** The identifier of a new tenant is chosen from the cached tenants alone,
    so the first tenant created after a restart gets identifier 0 and its
    record replaces the one the shard held for tenant 0. *)
Theorem restart_reuses_tenant_id {E} `{!Engine E} `{!EngineLaws E} `{!Codec TenantRecord}
    (c : t E) d p w config meta c' : disk c = Some d -> create_tenant p w config (restart c) = (Ok meta, c') ->
  tm_id meta = 0 /\ exists b, to_bytes (TenantRecordMk 0 1 (utc w) (utc w) (tc_name config) None (tc_options config) (tc_metadata config)) = Some b /\
    disk c' = Some (<[SystemKeys.tenant_key 0 := b]> d).
Proof.
  intros Hd. unfold create_tenant, check. destruct (SecurityPrincipal.has_system_permission p TenantCreateP); [|done].
  erewrite bind_step by done. erewrite (bind_step (read_cache _)) by reflexivity. cbv beta.
  change (next_id (tr_id <$> _)) with (Ok 0 : kv_result Z). erewrite (bind_step (lift _)) by reflexivity. cbv beta zeta.
  set (r := TenantRecordMk 0 1 (utc w) (utc w) (tc_name config) None (tc_options config) (tc_metadata config)).
  erewrite (bind_step (update_cache _)) by reflexivity. cbv beta. set (c1 := mk _ _ _ _). unfold persist, serialize.
  destruct (to_bytes r) as [b|] eqn:Eb; [|done]. cbn [ok_or].
  destruct (put_spec (SystemKeys.tenant_key 0) b c1 d Hd) as [_ Hp]. unfold bind, lift. cbv beta in Hp.
  destruct (shard (fun m => SM.put m 0 (SystemKeys.tenant_key 0) b) c1) as [[] c2]; try done. cbn [fst snd] in Hp.
  destruct Hp as [[_ Hp]|(x & ? & _)]; [|done]. intros [= <- <-]. split; [done|]. by exists b.
Qed.
