(* ===== verification/KvmDemo.v ===== *)
(** * The database context on a concrete engine

    The in-memory store as the engine of the system shard, and a serialization
    by the standard enumeration, to run requests on and to instantiate the
    theorems with. *)

From Stdlib Require Import ZArith Lia.
From stdpp Require Import option base gmap list strings countable.
From S2P Require Import Prelude Objects Security BTreeError KvtRange KvtMemory KvmCache KvmContext KvmRequest KvmIsolation KvmDurable.

Open Scope Z_scope.
Import KeyValueDatabaseContext.

(** The in-memory store is an engine, and meets the laws of one. *)
Abbreviation mem := MemoryKeyValueShardStore.t.

#[export] Instance mem_engine : Engine mem := {
  engine_get e s k := (MemoryKeyValueShardStore.get e s k, e);
  engine_put := MemoryKeyValueShardStore.put;
  engine_delete := MemoryKeyValueShardStore.delete;
  engine_drop_shard := MemoryKeyValueShardStore.drop_shard }.

#[export, refine] Instance mem_laws : EngineLaws mem := { contents e s := MemoryKeyValueShardStore.shards e !! s }.
Proof.
  all: unfold engine_get, engine_put, engine_delete, mem_engine, MemoryKeyValueShardStore.get, MemoryKeyValueShardStore.put,
    MemoryKeyValueShardStore.delete, MemoryKeyValueShardStore.on_shard, MemoryKeyValueShardStore.get_shard.
  - intros e s m k H. rewrite H. by split; [|left].
  - intros e s m k v H. rewrite H. left. split; [done|]. apply lookup_insert_eq.
  - intros e s m k H. rewrite H. left. split; [done|]. apply lookup_insert_eq.
Defined.

(** One element holds the number of the value. *)
Definition number {A} `{Countable A} (x : A) : list Z := [Zpos (encode x)].
Definition unnumber {A} `{Countable A} (b : list Z) : option A := match b with [Zpos n] => decode n | _ => None end.

Lemma unnumber_number {A} `{Countable A} (x : A) : unnumber (number x) = Some x.
Proof. apply decode_encode. Qed.

(** A kind of value without a serialization here. *)
Definition no_codec (A : Type) : Codec A := {| to_bytes _ := None; from_bytes _ := None |}.

#[export] Instance cluster_codec : Codec ClusterRecord := no_codec _.
#[export] Instance cluster_metadata_codec : Codec ClusterMetadata := no_codec _.
#[export] Instance region_codec : Codec RegionRecord := no_codec _.
#[export] Instance server_codec : Codec ServerRecord := no_codec _.
#[export] Instance tenant_user_codec : Codec TenantUserRecord := no_codec _.

#[export] Instance tenant_codec : Codec TenantRecord := {|
  to_bytes r := Some (number (tr_id r, tr_version r, (tr_created_at r, tr_updated_at r), tr_name r, tr_default_tablespace r, (tr_options r, tr_metadata r)));
  from_bytes b := '(i, v, (ct, ut), n, l, (o, m)) ← unnumber b; Some (TenantRecordMk i v ct ut n l o m) |}.
#[export] Instance database_codec : Codec DatabaseRecord := {|
  to_bytes r := Some (number (dr_tenant r, dr_id r, dr_version r, (dr_created_at r, dr_updated_at r), dr_name r, dr_root_namespace r, dr_default_tablespace r,
                  (dr_options r, dr_metadata r)));
  from_bytes b := '(t, i, v, (ct, ut), n, s, l, (o, m)) ← unnumber b; Some (DatabaseRecordMk t i v ct ut n s l o m) |}.

(** Users without grants. *)
#[export] Instance user_codec : Codec SystemUserRecord := {|
  to_bytes r := match ur_grants r with
    | [] => Some (number (ur_id r, ur_username r, ur_version r, (ur_created_at r, ur_last_modified r), ur_group_ids r, ur_role_ids r,
                    (ur_enabled r, ur_password_hash r), (ur_options r, ur_metadata r)))
    | _ => None
    end;
  from_bytes b := '(i, n, v, (ct, ut), gs, rs, (e, h), (o, m)) ← unnumber b; Some (SystemUserMk i n v ct ut gs rs [] e h o m) |}.

#[export] Instance tenant_codec_laws : CodecLaws TenantRecord.
Proof. intros [] b [= <-]. unfold from_bytes, tenant_codec. by rewrite unnumber_number. Qed.
#[export] Instance database_codec_laws : CodecLaws DatabaseRecord.
Proof. intros [] b [= <-]. unfold from_bytes, database_codec. by rewrite unnumber_number. Qed.
#[export] Instance user_codec_laws : CodecLaws SystemUserRecord.
Proof.
  intros r b Hb. unfold to_bytes, user_codec in Hb. destruct (ur_grants r) eqn:Eg; [|done]. injection Hb as <-. unfold from_bytes, user_codec.
  rewrite unnumber_number. destruct r. cbn in *. by subst.
Qed.

(** A node with one engine and an empty system shard. *)
Definition start : t mem := new_standalone 0 (SM.mk {[ "Memory" := MemoryKeyValueShardStore.mk {[ 0 := ∅ ]} ]} {[ 0 := SM.ShardStateMk 0 "Memory" 1 ]}) 3600.
Definition clock : Clock := ClockMk 0 1000.
Definition admin : SecurityPrincipal.t := SecurityPrincipal.mk 1 "admin" None [Grant GlobalSuperuser ScopeSystem] 0.
Definition owner : SecurityPrincipal.t := SecurityPrincipal.mk 2 "owner" (Some 7) [Grant DatabaseCreateP (ScopeTenant 7); Grant UserManagement (ScopeTenant 7)] 0.

Lemma start_disk : disk start = Some ∅.
Proof. reflexivity. Qed.


Definition created : t mem := (run admin clock (CreateTenant (Build_TenantCreate "t" ∅ ∅)) start).2.

Lemma created_served : served created.
Proof.
  apply (served_step start admin clock (CreateTenant (Build_TenantCreate "t" ∅ ∅))).
  - apply served_fresh. exists ∅. split_and!; [reflexivity|intros k b; by rewrite lookup_empty|by exists 0, 0, 3600].
  - done.
  - unfold created. destruct (run admin clock _ start) as [r c] eqn:E. cbn [snd]. f_equal. change r with (fst (r, c)). rewrite <- E. vm_compute. reflexivity.
Qed.


Lemma restart_reuses_tenant_id_witness : exists meta c', create_tenant admin clock (Build_TenantCreate "u" ∅ ∅) (restart created) = (Ok meta, c') /\ tm_id meta = 0.
Proof.
  destruct (create_tenant admin clock (Build_TenantCreate "u" ∅ ∅) (restart created)) as [r c'] eqn:E.
  assert (Hr : exists meta, r = Ok meta) by (change r with (fst (r, c')); rewrite <- E; eexists; vm_compute; reflexivity). destruct Hr as [meta ->].
  destruct (disk created) as [d|] eqn:Ed; [|discriminate Ed]. exists meta, c'. split; [reflexivity|].
  destruct (restart_reuses_tenant_id created d admin clock (Build_TenantCreate "u" ∅ ∅) meta c' Ed E) as [H _]. exact H.
Defined.
