(* ===== verification/KvmTableDemo.v ===== *)
(** * Tables on a concrete node

    A node with the in-memory engine and file system, to run the table
    operations on and to instantiate their theorems with. *)

From Stdlib Require Import ZArith Lia Ascii String.
From stdpp Require Import option base gmap list strings.
From S2P Require Import Prelude Objects Security BTreeError VfsPath VfsMemory VfsTree VfsCompose KvtMemory KvmCache KvmContext KvtResolver KvmObjects KvmPath KvmRequest KvmIsolation KvmDurable KvmDemo KvmTable KvmTableSpec.

Open Scope Z_scope.
Import TableContext.

Abbreviation memfs := MemoryFileSystem.t.

#[export] Instance mem_table_engine : TableEngine mem memfs := {
  engine_create_shard e s _ _ fs := let '(r, e) := MemoryKeyValueShardStore.create_shard e s in (r, e, fs);
  engine_batch_put := MemoryKeyValueShardStore.batch_put }.

#[export] Instance no_router : Router unit := {
  router_node_id _ := 0;
  router_create_shard r _ _ _ _ := (Some "no consensus", r);
  router_put r _ _ := (Some "no consensus", r);
  router_get r _ := (inl "no consensus", r);
  router_delete r _ := (Some "no consensus", r);
  router_batch r _ := (Some "no consensus", r) }.

#[export] Instance index_codec : Codec IndexRecord := no_codec _.

Lemma on_shard_frame {A} (e : mem) (s : Z) (f : ShardData -> A * ShardData) (s' : Z) : s' <> s ->
  MemoryKeyValueShardStore.shards (MemoryKeyValueShardStore.on_shard e s f).2 !! s' = MemoryKeyValueShardStore.shards e !! s'.
Proof.
  intros Hs. unfold MemoryKeyValueShardStore.on_shard, MemoryKeyValueShardStore.get_shard. destruct (MemoryKeyValueShardStore.shards e !! s) as [d|]; [|done]. cbn [ok_or]. destruct (f d) as [a d'].
  cbn. by rewrite lookup_insert_ne.
Qed.

#[export] Instance mem_table_laws : TableEngineLaws mem memfs.
Proof.
  split; unfold contents, mem_laws.
  - done.
  - intros e s k v s'. apply on_shard_frame.
  - intros e s k s'. apply on_shard_frame.
  - intros e s l s'. apply on_shard_frame.
  - intros e s d w fs s' Hs. unfold engine_create_shard, mem_table_engine, MemoryKeyValueShardStore.create_shard. cbn. destruct (MemoryKeyValueShardStore.shards e !! s); [done|]. cbn. by rewrite lookup_insert_ne.
  - intros e s m l Hm. unfold engine_batch_put, mem_table_engine, MemoryKeyValueShardStore.batch_put, MemoryKeyValueShardStore.on_shard, MemoryKeyValueShardStore.get_shard. rewrite Hm. cbn [ok_or].
    exists (length l). cbn. rewrite lookup_insert_eq, firstn_all. split; [done|]. by left.
  - intros e s d w fs Hs. unfold engine_create_shard, mem_table_engine, MemoryKeyValueShardStore.create_shard. rewrite Hs. cbn. apply lookup_insert_eq.
Qed.

(** A node with nothing but an empty system shard. *)
Definition node : t mem memfs unit := mk KvmDemo.start ∅ (StoragePathResolver.new (StoragePathResolver.Config "/sys" "/log" ∅)) MemoryFileSystem.new tt.
Definition users : TableCreate := TableCreateMk "users" "app.users" "Memory" (Multiple 4 Partitioner.default 1) ∅ ∅.
Definition orders : TableCreate := TableCreateMk "orders" "app.orders" "Memory" Single ∅ ∅.

(** Tables in database 2 of tenant 1. *)
Definition db : Z := ContainerId.from_parts 1 2.
Definition state_after {A} (r : kv_result A * t mem memfs unit) : t mem memfs unit := r.2.
Definition node1 := state_after (create_table admin clock db users node).
Definition node2 := state_after (create_table admin clock db orders node1).

Definition alice : list Z := [97].

Lemma node_keyed : tables_keyed node.
Proof. intros cid table r. unfold table_at. cbn [node container_metacaches]. by rewrite lookup_empty. Qed.

Lemma entry_users : entry node2 db 0 alice = Some None.
Proof. by vm_compute. Qed.

Lemma db_range table : is_u32 table -> in_range db table.
Proof. intros Ht. split; [vm_compute; split; congruence|done]. Qed.

(** Evaluated results, without the states. *)
Lemma users_created : br_table_id <$> (match (create_table admin clock db users node).1 with Ok r => Some r | _ => None end) = Some 0.
Proof. by vm_compute. Qed.
Lemma alice_put : is_ok (run_entry admin clock (PutEntry [1; 2]) db 0 alice node2).1 = true.
Proof. by vm_compute. Qed.
Lemma orders_empty : entry node2 db 1 alice = Some None.
Proof. by vm_compute. Qed.


Lemma memory_engine : SM.engines (manager node) !! "Memory" = Some (MemoryKeyValueShardStore.mk {[ 0 := ∅ ]}).
Proof. reflexivity. Qed.

Lemma users_fresh : Forall (fun n => fresh node "Memory" (shard_of db 0 n)) (shard_numbers (bc_sharding_config users)).
Proof.
  apply Forall_forall. intros n Hn e. rewrite memory_engine. intros [= <-]. cbn [contents mem_laws MemoryKeyValueShardStore.shards]. apply lookup_singleton_ne.
  assert (Hall : forallb (fun n => negb (0 =? shard_of db 0 n)) (shard_numbers (bc_sharding_config users)) = true) by (by vm_compute).
  rewrite forallb_forall in Hall. apply list_elem_of_In in Hn. specialize (Hall n Hn). by apply negb_true_iff, Z.eqb_neq in Hall.
Qed.

Lemma new_table_empty_witness :
  exists r, create_table admin clock db users node = (Ok r, node1) /\ br_table_id r = 0 /\ entry node1 db 0 alice = Some None.
Proof.
  pose proof users_created as Hid. destruct (create_table admin clock db users node) as [[r| | |] c'] eqn:Hrun; [|discriminate Hid..]. injection Hid as Hid.
  assert (Hc' : c' = node1) by (unfold node1, state_after; by rewrite Hrun). subst c'. exists r. split; [reflexivity|]. split; [exact Hid|].
  destruct (new_table_empty admin clock db users node r node1 ltac:(reflexivity) ltac:(vm_compute; split; congruence) node_keyed ltac:(by apply (bool_decide_eq_true_1 _); vm_compute) Hrun) as (_ & _ & He & _).
  - rewrite Hid. split; lia.
  - rewrite Hid. apply users_fresh.
  - rewrite <- Hid. apply He.
Defined.

Definition batch : list (list Z * list Z) := [(alice, [1]); ([98], [2]); (alice, [3])].

Lemma batch_places kv : kv ∈ batch -> entry node2 db 0 kv.1 <> None.
Proof.
  intros Hin%list_elem_of_In He. assert (Hall : forallb (fun kv => if entry node2 db 0 kv.1 then true else false) batch = true) by (vm_compute; reflexivity).
  rewrite forallb_forall in Hall. specialize (Hall kv Hin). rewrite He in Hall. discriminate Hall.
Qed.

Lemma batch_done : is_ok (table_entry_batch_put admin clock db 0 batch node2).1 = true.
Proof. by vm_compute. Qed.

Lemma table_batch_put_witness : exists c', table_entry_batch_put admin clock db 0 batch node2 = (Ok tt, c') /\ entry c' db 0 alice = Some (Some [3]).
Proof.
  destruct (table_batch_put admin clock db 0 batch node2 ltac:(reflexivity) (db_range 0 ltac:(split; lia)) batch_places) as (r & c' & Hrun & _ & Hres).
  pose proof batch_done as Hok. rewrite Hrun in Hok. exists c'. destruct Hres as [(-> & He)|(x & ->)]; [|discriminate Hok]. split; [exact Hrun|]. by rewrite He.
Defined.

(** ** Identifiers used twice *)

(** The first table of the first database of the first tenant has the shard with
    number 0, which is the system shard: whoever may insert into that table may
    write the record of a tenant. *)
Definition clerk : SecurityPrincipal.t := SecurityPrincipal.mk 9 "clerk" (Some 0) [Grant TableDataInsert (ScopeTable 0)] 0.

Definition tenant_config : TenantCreate := {| tc_name := "first"; tc_options := ∅; tc_metadata := ∅ |}.
Definition system1 := state_after (in_context (Context.create_tenant admin clock tenant_config) node).
Definition system2 := state_after (create_table admin clock (ContainerId.from_parts 0 0) orders system1).
Definition system3 := state_after (table_entry_put clerk clock (ContainerId.from_parts 0 0) 0 (SystemKeys.tenant_key 0) [1] system2).

Lemma system_shard_overwritten :
  shard_of (ContainerId.from_parts 0 0) 0 0 = 0 /\
  (disk (context system2) ≫= fun d => d !! SystemKeys.tenant_key 0) <> Some [1] /\
  (table_entry_put clerk clock (ContainerId.from_parts 0 0) 0 (SystemKeys.tenant_key 0) [1] system2).1 = Ok tt /\
  (disk (context system3) ≫= fun d => d !! SystemKeys.tenant_key 0) = Some [1].
Proof. by vm_compute. Qed.

(** A deleted table leaves its shards; the next table gets its identifier, its
    shards and what is in them. *)
Definition used := state_after (table_entry_put admin clock db 1 alice [7] node2).
Definition deleted := state_after (delete_table admin clock db 1 used).
Definition recreated := state_after (create_table admin clock db orders deleted).

Lemma deleted_table_reappears : entry deleted db 1 alice = None /\ entry recreated db 1 alice = Some (Some [7]).
Proof. by vm_compute. Qed.

(** Every index of a database, and every namespace, has identifier 0 and
    replaces the one before. *)
Definition space (n : string) : NamespaceCreate := {| nc_name := n; nc_parent := 0; nc_options := ∅; nc_metadata := ∅ |}.
Lemma one_namespace :
  let c := state_after (create_namespace admin clock db (space "b") (state_after (create_namespace admin clock db (space "a") node2))) in
  (get_namespaces admin db c).1 = Ok [NamespaceRecordMk 0 "b" 0 "/b" 1000 1000 None ∅ ∅].
Proof. by vm_compute. Qed.
