(* ===== verification/KvmStart.v ===== *)
(** * Starting a node, and the rest of the shard manager

    Models how nanograph-kvm/src/context.rs makes a context, registers engines
    and creates the system shard, and the operations of
    nanograph-kvm/src/shardmgr.rs that no operation of the context reaches.  A
    node that has started holds an empty system shard and cannot be started
    again; flushing and compacting all engines does not depend on the order in
    which the map of engines is walked. *)

From Stdlib Require Import ZArith Lia Ascii String.
From stdpp Require Import option base gmap list strings.
From S2P Require Import Prelude Objects Security BTreeError VfsPath VfsMemory VfsTree VfsCompose KvtRange KvtMemory KvmCache KvmContext KvtResolver KvmObjects KvmPath KvmRequest KvmIsolation KvmDurable KvmDemo KvmTable KvmTableSpec KvmTableDemo.

Open Scope Z_scope.
Import TableContext.

(** ** The shard manager *)

(** The methods of [KeyValueShardStore] that only the manager calls; [I] is its
    iterator and [St] its statistics. *)
Class MaintainedEngine (E I St : Type) : Type := {
  engine_exists : E -> Z -> list Z -> kv_result bool * E;
  engine_batch_get : E -> Z -> list (list Z) -> kv_result (list (option (list Z))) * E;
  engine_batch_delete : E -> Z -> list (list Z) -> kv_result Z * E;
  engine_scan : E -> Z -> KeyRange.t -> kv_result I * E;
  engine_scan_prefix : E -> Z -> list Z -> option Z -> kv_result I * E;
  engine_key_count : E -> Z -> kv_result Z * E;
  engine_shard_stats : E -> Z -> kv_result St * E;
  engine_flush : E -> kv_result unit * E;
  engine_compact : E -> option Z -> kv_result unit * E }.

Module ShardManager.

Section routed.
Context {E I St : Type} `{!MaintainedEngine E I St}.
Implicit Types (m : SM.t E) (s : Z) (key : list Z).

Definition new_standalone : SM.t E := SM.mk ∅ ∅.

Definition exists_ m s key : kv_result bool * SM.t E := SM.on_engine m s (fun e => engine_exists e s key).
Definition batch_get m s (keys : list (list Z)) : kv_result (list (option (list Z))) * SM.t E := SM.on_engine m s (fun e => engine_batch_get e s keys).
Definition batch_delete m s (keys : list (list Z)) : kv_result Z * SM.t E := SM.on_engine m s (fun e => engine_batch_delete e s keys).
Definition scan m s (range : KeyRange.t) : kv_result I * SM.t E := SM.on_engine m s (fun e => engine_scan e s range).
Definition scan_prefix m s (pre : list Z) (limit : option Z) : kv_result I * SM.t E := SM.on_engine m s (fun e => engine_scan_prefix e s pre limit).
Definition key_count m s : kv_result Z * SM.t E := SM.on_engine m s (fun e => engine_key_count e s).
Definition shard_stats m s : kv_result St * SM.t E := SM.on_engine m s (fun e => engine_shard_stats e s).

(** A call of each engine in turn, up to the first that fails.  [names] is the
    order in which the map of engines is walked, which is not specified. *)
Fixpoint on_engines (f : E -> kv_result unit * E) (names : list string) m : kv_result unit * SM.t E :=
  match names with
  | [] => (Ok tt, m)
  | n :: names =>
      match SM.engines m !! n with
      | None => on_engines f names m
      | Some e =>
          let '(r, e) := f e in
          let m := SM.mk (<[n := e]> (SM.engines m)) (SM.shards m) in
          match r with
          | Ok _ => on_engines f names m
          | Err x => (Err x, m)
          | Panic => (Panic, m)
          | Timeout => (Timeout, m)
          end
      end
  end.

Definition flush (names : list string) m : kv_result unit * SM.t E := on_engines engine_flush names m.

Definition compact (names : list string) m (s : option Z) : kv_result unit * SM.t E :=
  match s with
  | Some s => SM.on_engine m s (fun e => engine_compact e (Some s))
  | None => on_engines (fun e => engine_compact e None) names m
  end.
End routed.
End ShardManager.

(** ** The context *)

Module Start.

Section start.
Context {E FS H R : Type} `{!Engine E} `{!TableEngine E FS} `{!FileSystem FS H} `{!Router R}.
Abbreviation op := (op E FS R).

(** The paths the manager of a new context is configured with. *)
Definition storage_config : Resolver.StorageConfig := Resolver.Config "./data/system" "./data/logs" ∅.

(** [local] is the file system of the working directory, [r] the router that a
    distributed context is given. *)
Definition create (distributed : bool) (node cache_ttl : Z) (local : FS) (r : R) : t E FS R :=
  mk (Context.mk node ShardManager.new_standalone (SystemMetadataCache.new node 0 cache_ttl) distributed) ∅ (Resolver.new storage_config) local r.
Definition new_standalone (node cache_ttl : Z) (local : FS) (r : R) : t E FS R := create false node cache_ttl local r.
Definition new_distributed (node cache_ttl : Z) (local : FS) (r : R) : t E FS R := create true node cache_ttl local r.

Definition register_engine (name : string) (e : E) : op unit := shard (fun m => SM.register_engine m name e).

Definition consensus_router (c : t E FS R) : option R := if Context.raft_router (context c) then Some (router c) else None.

(** [art] is a new store of the radix-tree engine. *)
Definition bootstrap_standalone (art : E) : op unit :=
  bind (shard (fun m => SM.register_engine m "ART" art)) (fun _ =>
  bind (create_shard (shard_create 0 0 0 0 TableShardType "ART")) (fun _ =>
  ret tt)).
End start.
End Start.

(** ** What starting a node gives *)

Section started.
Context {E FS H R : Type} `{!Engine E} `{!EngineLaws E} `{!TableEngine E FS} `{!TableEngineLaws E FS} `{!FileSystem FS H} `{!Router R}.
Implicit Types (c : t E FS R) (art : E).

Lemma register_inv name art c c' : Start.register_engine name art c = (Ok tt, c') ->
  SM.engines (manager c) !! name = None /\ SM.engines (manager c') = <[name := art]> (SM.engines (manager c)) /\ SM.shards (manager c') = SM.shards (manager c) /\
  container_metacaches c' = container_metacaches c.
Proof.
  unfold Start.register_engine, shard, in_context, Context.shard, SM.register_engine, manager. destruct (SM.engines _ !! name); [done|]. by intros [= <-].
Qed.

Lemma register_taken name art e c : SM.engines (manager c) !! name = Some e ->
  exists x, Start.register_engine name art c = (Err x, c).
Proof.
  unfold Start.register_engine, shard, in_context, Context.shard, SM.register_engine, manager. intros ->. eexists. by destruct c as [[]].
Qed.

(** The system shard is the shard 0 that the metadata is kept in. *)
Lemma system_shard_zero : shard_of 0 0 0 = 0.
Proof. by vm_compute. Qed.

(** A node that starts holds an empty system shard, and nothing else is
    changed. *)
Lemma bootstrap_ok art c c' : contents art 0 = None -> Start.bootstrap_standalone art c = (Ok tt, c') ->
  shard_data (manager c') 0 = Some ∅ /\ container_metacaches c' = container_metacaches c /\
  (forall s, s <> 0 -> SM.shards (manager c') !! s = SM.shards (manager c) !! s) /\
  (forall n, n <> "ART"%string -> SM.engines (manager c') !! n = SM.engines (manager c) !! n).
Proof.
  intros Hart ([] & c1 & (_ & E1 & S1 & M1)%register_inv & (s & c2 & Hc & [= <-])%bind_inv)%bind_inv.
  destruct (create_shard_inv _ _ _ _ Hc) as (e & d & w & fs & e' & fs' & He & Ec & -> & Hm & Hx). cbn [shard_create hc_engine_type hc_container_id hc_object_id hc_shard_number hc_replication_factor] in *.
  rewrite system_shard_zero in Ec, Hx. rewrite E1, lookup_insert_eq in He. injection He as <-. pose proof (create_law art 0 d w fs Hart) as P. rewrite Ec in P.
  unfold shard_data, manager. rewrite Hx. cbn [Context.shard_manager SM.shards SM.engines]. split_and!.
  - rewrite lookup_insert_eq. cbn [mbind option_bind SM.engine_type]. by rewrite lookup_insert_eq.
  - congruence.
  - intros s Hs. rewrite lookup_insert_ne by done. by rewrite S1.
  - intros n Hn. rewrite lookup_insert_ne by done. rewrite E1. by rewrite lookup_insert_ne.
Qed.

(** Creating a shard leaves the registered engines registered. *)
Lemma create_shard_engines config c name : is_Some (SM.engines (manager c) !! name) -> is_Some (SM.engines (manager (create_shard config c).2) !! name).
Proof.
  intros Hn. unfold create_shard, manager in *. destruct (SM.engines (Context.shard_manager (context c)) !! hc_engine_type config) as [e|] eqn:He; [|done]. unfold bind at 1.
  destruct (path _ c) as [r1 c1] eqn:P1. pose proof (path_same _ _ _ _ P1) as [E1 _]. destruct r1; cbn [snd]; rewrite ?E1; try done. unfold bind.
  destruct (path _ c1) as [r2 c2] eqn:P2. pose proof (path_same _ _ _ _ P2) as [E2 _]. destruct r2; cbn [snd]; rewrite ?E2, ?E1; try done.
  destruct (engine_create_shard e _ _ _ _) as [[made e'] fs']. unfold shard, in_context, Context.shard. cbn [context with_vfs]. rewrite E2, E1.
  destruct made; cbn [snd context with_context Context.shard_manager SM.engines]; (destruct (decide (hc_engine_type config = name)) as [->|]; [by rewrite lookup_insert_eq|by rewrite lookup_insert_ne]).
Qed.

(** A node starts once: whatever became of the first attempt, every later one
    fails and changes nothing, because the engine stays registered. *)
Lemma bootstrap_once art art' c : exists x, Start.bootstrap_standalone art' (Start.bootstrap_standalone art c).2 = (Err x, (Start.bootstrap_standalone art c).2).
Proof.
  assert (Hreg : is_Some (SM.engines (manager (Start.bootstrap_standalone art c).2) !! "ART"%string)).
  { unfold Start.bootstrap_standalone. change (shard _) with (Start.register_engine (E := E) (FS := FS) (R := R) "ART" art). unfold bind at 1.
    destruct (SM.engines (manager c) !! "ART"%string) as [e|] eqn:He.
    - destruct (register_taken "ART" art e c He) as [x ->]. cbn [snd]. by rewrite He.
    - destruct (Start.register_engine "ART" art c) as [r c1] eqn:Hr. assert (r = Ok tt) as ->.
      { revert Hr. unfold Start.register_engine, shard, in_context, Context.shard, SM.register_engine. unfold manager in He. rewrite He. by intros [= <-]. }
      destruct (register_inv _ _ _ _ Hr) as (_ & E1 & _). unfold bind, ret. destruct (create_shard _ c1) as [[s| | |] c2] eqn:Hc; cbn [snd];
        (replace c2 with (create_shard (shard_create 0 0 0 0 TableShardType "ART") c1).2 by (by rewrite Hc)); apply create_shard_engines; rewrite E1, lookup_insert_eq; by eexists. }
  destruct Hreg as [e He]. destruct (register_taken "ART" art' e _ He) as [x Hx]. exists x. unfold Start.bootstrap_standalone at 1.
  change (shard _) with (Start.register_engine (E := E) (FS := FS) (R := R) "ART" art'). unfold bind at 1. by rewrite Hx.
Qed.
End started.

(** ** Walking the engines *)

Section walk.
Context {E : Type} (f : E -> kv_result unit * E).
Implicit Types (m : SM.t E) (names : list string).

Definition stepped (e : E) : E := (f e).2.

Lemma walk_result names : forall m, NoDup names -> (ShardManager.on_engines f names m).1 = Ok tt <-> (forall n e, n ∈ names -> SM.engines m !! n = Some e -> (f e).1 = Ok tt).
Proof.
  induction names as [|n names IH]; intros m Hn; [split; [intros _ n e Hin; by apply elem_of_nil in Hin|done]|]. apply NoDup_cons in Hn as [Hn Hnd]. cbn [ShardManager.on_engines].
  assert (Hrest : forall e', (forall k e, k ∈ names -> SM.engines m !! k = Some e -> (f e).1 = Ok tt) <-> (forall k e, k ∈ names -> <[n := e']> (SM.engines m) !! k = Some e -> (f e).1 = Ok tt)).
  { intros e'. split; intros Hall k e Hk; (assert (n <> k) by (by intros ->)); [rewrite lookup_insert_ne by done; by apply Hall|]. specialize (Hall k e Hk). by rewrite lookup_insert_ne in Hall. }
  destruct (SM.engines m !! n) as [e|] eqn:He.
  - destruct (f e) as [r e'] eqn:Hf.
    destruct r as [[]|x| |]; cbn [fst]; [|split; [done|]; intros Hall; specialize (Hall n e (list_elem_of_here _ _) He); by rewrite Hf in Hall..].
    rewrite IH by done. cbn [SM.engines]. rewrite <- Hrest. split; [intros Hall k e0 [->|Hk]%elem_of_cons Hk0; [replace e0 with e by congruence; by rewrite Hf|by eapply Hall]|].
    intros Hall k e0 Hk. apply Hall. by apply elem_of_cons; right.
  - rewrite IH by done. split; [intros Hall k e [->|Hk]%elem_of_cons Hk0; [congruence|by eapply Hall]|]. intros Hall k e Hk. apply Hall. by apply elem_of_cons; right.
Qed.

Lemma walk_engines names : forall m, NoDup names -> (ShardManager.on_engines f names m).1 = Ok tt ->
  SM.shards (ShardManager.on_engines f names m).2 = SM.shards m /\
  forall k, SM.engines (ShardManager.on_engines f names m).2 !! k = if decide (k ∈ names) then stepped <$> SM.engines m !! k else SM.engines m !! k.
Proof.
  induction names as [|n names IH]; intros m Hn; [by split|]. apply NoDup_cons in Hn as [Hn Hnd]. cbn [ShardManager.on_engines].
  destruct (SM.engines m !! n) as [e|] eqn:He.
  - destruct (f e) as [r e'] eqn:Hf. destruct r as [[]|x| |]; try done. intros Hok. destruct (IH _ Hnd Hok) as [Hs Hk]. split; [exact Hs|]. intros k. rewrite Hk. cbn [SM.engines].
    destruct (decide (k = n)) as [->|Hne].
    + rewrite decide_False by done. rewrite decide_True by (apply list_elem_of_here). rewrite lookup_insert_eq, He. unfold stepped. cbn. by rewrite Hf.
    + rewrite lookup_insert_ne by done. destruct (decide (k ∈ names)); [rewrite decide_True by (by apply elem_of_cons; right)|rewrite decide_False by (intros [|]%elem_of_cons; done)]; done.
  - intros Hok. destruct (IH _ Hnd Hok) as [Hs Hk]. split; [exact Hs|]. intros k. rewrite Hk. destruct (decide (k = n)) as [->|Hne].
    + rewrite decide_False by done. rewrite decide_True by (apply list_elem_of_here). by rewrite He.
    + destruct (decide (k ∈ names)); [rewrite decide_True by (by apply elem_of_cons; right)|rewrite decide_False by (intros [|]%elem_of_cons; done)]; done.
Qed.

(** Walked in any order, all engines are called when none fails, and some call
    fails otherwise. *)
Lemma walk_all names m : names ≡ₚ (map_to_list (SM.engines m)).*1 ->
  if decide (map_Forall (fun _ e => is_ok (f e).1 = true) (SM.engines m))
  then ShardManager.on_engines f names m = (Ok tt, SM.mk (stepped <$> SM.engines m) (SM.shards m))
  else (ShardManager.on_engines f names m).1 <> Ok tt.
Proof.
  intros Hp. assert (Hnd : NoDup names) by (rewrite Hp; apply NoDup_fst_map_to_list).
  assert (Hin : forall n, n ∈ names <-> is_Some (SM.engines m !! n)).
  { intros n. rewrite Hp, list_elem_of_fmap. split; [intros ([k e] & -> & Hk%elem_of_map_to_list); by exists e|]. intros [e He]. exists (n, e). split; [done|]. by apply elem_of_map_to_list. }
  case_decide as Hall.
  - assert (Hok : (ShardManager.on_engines f names m).1 = Ok tt).
    { apply walk_result; [done|]. intros n e _ He. specialize (Hall n e He). cbn in Hall. by destruct (f e).1 as [[]| | |]. }
    destruct (walk_engines _ _ Hnd Hok) as [Hs Hk]. destruct (ShardManager.on_engines f names m) as [r [en sh]]. cbn [fst snd SM.shards SM.engines] in *. subst r sh. do 2 f_equal. apply map_eq. intros k. rewrite Hk, lookup_fmap.
    case_decide as Hc; [done|]. rewrite Hin in Hc. apply eq_None_not_Some in Hc. by rewrite Hc.
  - intros Hok. apply Hall. intros n e He. rewrite walk_result in Hok by done. by rewrite (Hok n e (proj2 (Hin n) (mk_is_Some _ _ He)) He).
Qed.
End walk.

(** ** A concrete node *)

Module StartDemo.

(** The in-memory engine stands in for the radix-tree one. *)
Definition art : mem := MemoryKeyValueShardStore.mk ∅.
Definition started : kv_result unit * t mem memfs unit := Start.bootstrap_standalone art (Start.new_standalone 7 60 MemoryFileSystem.new tt).

(** A fresh node starts, and then takes a table. *)
Lemma starts : started.1 = Ok tt.
Proof. vm_compute. reflexivity. Qed.

Definition with_table : kv_result TableRecord * t mem memfs unit := create_table admin clock db (TableCreateMk "users" "app.users" "ART" Single ∅ ∅) started.2.

Lemma takes_table : is_ok with_table.1 = true.
Proof. vm_compute. reflexivity. Qed.

(** Without the start there is no shard to keep metadata in. *)
Lemma unstarted_fails : exists x, (SM.put (manager (Start.new_standalone (E := mem) (R := unit) 7 60 MemoryFileSystem.new tt)) 0 [1] [2]).1 = Err x.
Proof. eexists. vm_compute. reflexivity. Qed.

Lemma started_empty : shard_data (manager started.2) 0 = Some ∅.
Proof. apply (bootstrap_ok art (Start.new_standalone 7 60 MemoryFileSystem.new tt) started.2); [reflexivity|]. rewrite <- starts. apply surjective_pairing. Qed.
End StartDemo.
