(* ===== verification/IdxStore.v ===== *)
(** * Secondary indexes

    Models nanograph-idx: error.rs, index.rs, serialization.rs, persistence.rs,
    index/ordered/btree.rs, index/ordered/hash.rs and distributed.rs.  An index
    keeps its entries in a shard of any engine under the identifier of the index,
    the indexed value and the primary key, with a write-ahead log in front and a
    cache beside it.  The engine, bincode and the LRU cache are behind
    interfaces.  A formatted message is its literal part. *)

From Stdlib Require Import ZArith Lia.
From stdpp Require Import gmap option strings base list.
From S2P Require Import Prelude Security BTreeError VfsFile Integrity Wal KvtRange KvmContext KvmObjects.

Open Scope Z_scope.

(** ** Errors, entries and queries *)

Inductive IndexError : Type :=
| IdxNotFound (msg : string)
| IdxAlreadyExists (msg : string)
| IdxUniqueViolation (msg : string)
| IdxInvalidConfig (msg : string)
| IdxBuildFailed (msg : string)
| IdxQueryFailed (msg : string)
| IdxNotReady (msg : string)
| IdxStorage (msg : string)
| IdxSerialization (msg : string)
| IdxIo
| IdxKeyValueStore (e : KeyValueError).

Abbreviation idx_result := (result IndexError).

(** [Display]. *)
Definition idx_display (e : IndexError) : string :=
  match e with
  | IdxNotFound m => "Index not found: " +:+ m
  | IdxAlreadyExists m => "Index already exists: " +:+ m
  | IdxUniqueViolation m => "Unique constraint violation: " +:+ m
  | IdxInvalidConfig m => "Invalid index configuration: " +:+ m
  | IdxBuildFailed m => "Index build failed: " +:+ m
  | IdxQueryFailed m => "Index query failed: " +:+ m
  | IdxNotReady m => "Index is not ready: " +:+ m
  | IdxStorage m => "Storage error: " +:+ m
  | IdxSerialization m => "Serialization error: " +:+ m
  | IdxIo => "I/O error: "
  | IdxKeyValueStore _ => "Key-value store error: "
  end.

Record IndexEntry : Type := Entry { indexed_value : list Z; primary_key : list Z; included_columns : option (list Z) }.

#[global] Instance index_entry_eq_dec : EqDecision IndexEntry.
Proof. solve_decision. Defined.

Module IndexQuery.

Record t : Type := mk { start : KeyRange.Bound; end_ : KeyRange.Bound; limit : option nat; reverse : bool }.

Definition all : t := mk KeyRange.Unbounded KeyRange.Unbounded None false.
Definition exact (v : list Z) : t := mk (KeyRange.Included v) (KeyRange.Included v) None false.
Definition range (s e : KeyRange.Bound) : t := mk s e None false.
Definition with_limit (q : t) (n : nat) : t := mk (start q) (end_ q) (Some n) (reverse q).
Definition reversed (q : t) : t := mk (start q) (end_ q) (limit q) true.
End IndexQuery.

Definition zlength {A} (l : list A) : Z := Z.of_nat (length l).

Record IndexStats : Type := IdxStats { entry_count : Z; size_bytes : Z; levels : option Z; avg_entry_size : Z }.

(** ** Operations with errors over a state *)

Definition op (S A : Type) : Type := S -> idx_result A * S.

Definition ret {S A} (a : A) : op S A := fun x => (Ok a, x).
Definition fail {S A} (e : IndexError) : op S A := fun x => (Err e, x).
Definition bind {S A B} (m : op S A) (k : A -> op S B) : op S B := fun x =>
  match m x with
  | (Ok a, x) => k a x
  | (Err e, x) => (Err e, x)
  | (Panic, x) => (Panic, x)
  | (Timeout, x) => (Timeout, x)
  end.

Notation "'let*' x := m 'in' k" := (bind m (fun x => k)) (at level 200, x pattern, right associativity).

(** ** Serialization *)

(** bincode's [serialize] and [deserialize]. *)
Class Bincode (A : Type) : Type := { bin_to : A -> option (list Z); bin_from : list Z -> option A }.

Definition CURRENT_VERSION : Z := 1.

Record SerializedIndexEntry : Type := SEntry {
  se_version : Z; se_indexed_value : list Z; se_primary_key : list Z; se_included_columns : option (list Z); se_created_at : Z; se_modified_at : Z }.

Module Serialization.

(** [now]: the clock in milliseconds. *)
Definition new (now : Z) (v pk : list Z) (inc : option (list Z)) : SerializedIndexEntry := SEntry CURRENT_VERSION v pk inc now now.
Definition touch (now : Z) (e : SerializedIndexEntry) : SerializedIndexEntry :=
  SEntry (se_version e) (se_indexed_value e) (se_primary_key e) (se_included_columns e) (se_created_at e) now.

Section codec.
Context `{!Bincode SerializedIndexEntry}.

Definition serialize_entry (now : Z) (v pk : list Z) (inc : option (list Z)) : idx_result (list Z) := ok_or (bin_to (new now v pk inc)) (IdxSerialization "").

Definition deserialize_entry (b : list Z) : idx_result SerializedIndexEntry :=
  let! e := ok_or (bin_from b) (IdxSerialization "") in
  if CURRENT_VERSION <? se_version e then Err (IdxSerialization "Unsupported entry version: ") else Ok e.

(** [collect] stops at the first error; [now] is the clock at the entry. *)
Fixpoint batch_serialize_entries (now : nat -> Z) (es : list (list Z * list Z * option (list Z))) : idx_result (list (list Z)) :=
  match es with
  | [] => Ok []
  | (v, pk, inc) :: es => let! b := serialize_entry (now 0%nat) v pk inc in let! bs := batch_serialize_entries (fun i => now (S i)) es in Ok (b :: bs)
  end.

Fixpoint batch_deserialize_entries (bs : list (list Z)) : idx_result (list SerializedIndexEntry) :=
  match bs with
  | [] => Ok []
  | b :: bs => let! e := deserialize_entry b in let! es := batch_deserialize_entries bs in Ok (e :: es)
  end.
End codec.

Definition serialize_metadata {A} `{!Bincode A} (x : A) : idx_result (list Z) := ok_or (bin_to x) (IdxSerialization "").
Definition deserialize_metadata {A} `{!Bincode A} (b : list Z) : idx_result A := ok_or (bin_from b) (IdxSerialization "").

Definition estimate_entry_size (v_len pk_len : Z) (inc_len : option Z) : Z :=
  let overhead := 1 + 16 + 12 in
  let data_size := v_len + pk_len + match inc_len with Some n => n | None => 0 end in
  overhead + data_size.
End Serialization.

(** ** Persistence *)

(** What an index needs of [KeyValueShardStore] beyond [Engine]: a scan with its
    stream read to the end or to its first error. *)
Class ScanEngine (E : Type) : Type := {
  engine_exists : E -> Z -> list Z -> kv_result bool * E;
  engine_scan : E -> Z -> KeyRange.t -> kv_result (list (list Z * list Z)) * E }.

(** [lru::LruCache]. *)
Class LruCache (C : Type) : Type := {
  cache_new : nat -> C;
  cache_put : C -> list Z -> list Z -> C;
  cache_get : C -> list Z -> option (list Z) * C;
  cache_contains : C -> list Z -> bool;
  cache_pop : C -> list Z -> C;
  cache_clear : C -> C;
  cache_len : C -> nat;
  cache_cap : C -> nat }.

Inductive WalOperation : Type :=
| WalInsert (indexed_value primary_key value : list Z)
| WalDelete (indexed_value primary_key : list Z).

Record PersistenceConfig : Type := PConfig { shard_id : Z; index_id : Z; cache_size : nat; durability : Durability; enable_wal : bool }.

Definition default_persistence_config : PersistenceConfig := PConfig 0 0 10000 Buffered true.

Record CacheStats : Type := CStats { cs_size : nat; cs_capacity : nat }.

Module PersistentIndexStore.

Section store.
Context `{!Integrity.Hashes} {E C FS F : Type} `{!Engine E, !ScanEngine E, !LruCache C, !File F, !WriteAheadLogManager.FileSystemOps FS F}.
Context `{!Bincode WalOperation}.
Abbreviation manager := (WriteAheadLogManager.t FS F).

Record t : Type := mk { config : PersistenceConfig; store : E; wal : option manager; cache : C }.

Definition with_store (x : t) (e : E) : t := mk (config x) e (wal x) (cache x).
Definition with_wal (x : t) (m : manager) : t := mk (config x) (store x) (Some m) (cache x).
Definition with_cache (x : t) (c : C) : t := mk (config x) (store x) (wal x) c.

Definition new (c : PersistenceConfig) (e : E) (w : option manager) : t := mk c e w (cache_new (if (cache_size c =? 0)%nat then 1%nat else cache_size c)).

Definition wal_kind (o : WalOperation) : Z := match o with WalInsert _ _ _ => 1 | WalDelete _ _ => 2 end.

Definition id_bytes (x : t) : list Z := be_bytes 4 (index_id (config x)).
Definition build_key (x : t) (v pk : list Z) : list Z := id_bytes x ++ v ++ pk.
Definition build_prefix (x : t) (v : list Z) : list Z := id_bytes x ++ v.

(** A call of the engine, with its error as a message. *)
Definition on_store {A} (f : E -> kv_result A * E) : op t A := fun x =>
  let '(r, e) := f (store x) in
  (match r with Ok a => Ok a | Err _ => Err (IdxStorage "") | Panic => Panic | Timeout => Timeout end, with_store x e).

(** A call of the log's active segment. *)
Definition on_log {A} (f : WriteAheadLogFile.t F -> wal_result A * WriteAheadLogFile.t F) (m : manager) : op t A := fun x =>
  let '(r, w) := f (WriteAheadLogManager.active_segment m) in
  (match r with Ok a => Ok a | Err _ => Err (IdxStorage "") | Panic => Panic | Timeout => Timeout end,
   with_wal x (WriteAheadLogManager.mk (WriteAheadLogManager.file_system m) (WriteAheadLogManager.root_folder m) (WriteAheadLogManager.shard_id m) w (WriteAheadLogManager.archived_segments m))).

Definition write_wal (o : WalOperation) : op t (option LogSequenceNumber) := fun x =>
  match wal x with
  | Some m =>
      match bin_to o with
      | Some payload =>
          (let* lsn := on_log (fun w => WriteAheadLogWriter.append w (Record_ (wal_kind o) payload) (durability (config x))) m in ret (Some lsn)) x
      | None => (Err (IdxSerialization ""), x)
      end
  | None => (Ok None, x)
  end.

Definition write_entry (v pk value : list Z) : op t unit := fun x =>
  (let* _ := write_wal (WalInsert v pk value) in
   let key := build_key x v pk in
   let* _ := on_store (fun e => engine_put e (shard_id (config x)) key value) in
   fun x => (Ok tt, with_cache x (cache_put (cache x) key value))) x.

Definition read_entry (v pk : list Z) : op t (option (list Z)) := fun x =>
  let key := build_key x v pk in
  let '(hit, c) := cache_get (cache x) key in
  let x := with_cache x c in
  match hit with
  | Some value => (Ok (Some value), x)
  | None =>
      (let* value := on_store (fun e => engine_get e (shard_id (config x)) key) in
       fun x => (Ok value, match value with Some b => with_cache x (cache_put (cache x) key b) | None => x end)) x
  end.

Definition delete_entry (v pk : list Z) : op t bool := fun x =>
  (let* _ := write_wal (WalDelete v pk) in
   let key := build_key x v pk in
   fun x => on_store (fun e => engine_delete e (shard_id (config x)) key) (with_cache x (cache_pop (cache x) key))) x.

Definition start_bound (x : t) (b : KeyRange.Bound) : KeyRange.Bound :=
  match b with
  | KeyRange.Included v => KeyRange.Included (build_prefix x v)
  | KeyRange.Excluded v => KeyRange.Excluded (build_prefix x v)
  | KeyRange.Unbounded => KeyRange.Included (id_bytes x)
  end.

(** [index_id + 1] panics on overflow. *)
Definition end_bound (x : t) (b : KeyRange.Bound) : option KeyRange.Bound :=
  match b with
  | KeyRange.Included v => Some (KeyRange.Included (build_prefix x v ++ [255]))
  | KeyRange.Excluded v => Some (KeyRange.Excluded (build_prefix x v))
  | KeyRange.Unbounded => if index_id (config x) + 1 <? 2 ^ 32 then Some (KeyRange.Excluded (be_bytes 4 (index_id (config x) + 1))) else None
  end.

Definition scan_range (s e : KeyRange.Bound) (limit : option nat) (reverse : bool) : op t (list (list Z * list Z)) := fun x =>
  match end_bound x e with
  | Some e => on_store (fun st => engine_scan st (shard_id (config x)) (KeyRange.mk (start_bound x s) e limit reverse)) x
  | None => (Panic, x)
  end.

Definition exists_ (v pk : list Z) : op t bool := fun x =>
  let key := build_key x v pk in
  if cache_contains (cache x) key then (Ok true, x) else on_store (fun e => engine_exists e (shard_id (config x)) key) x.

Definition flush : op t unit := fun x =>
  match wal x with
  | Some m => on_log WriteAheadLogFile.flush m x
  | None => (Ok tt, x)
  end.

Definition clear_cache (x : t) : t := with_cache x (cache_clear (cache x)).
Definition cache_stats (x : t) : CacheStats := CStats (cache_len (cache x)) (cache_cap (cache x)).
End store.
Arguments t : clear implicits.
End PersistentIndexStore.

(** ** What all indexes do *)

Module IndexBase.
Module P := PersistentIndexStore.
Import Serialization.

Section base.
Context `{!Integrity.Hashes} {E C FS F : Type} `{!Engine E, !ScanEngine E, !LruCache C, !File F, !WriteAheadLogManager.FileSystemOps FS F}.
Context `{!Bincode WalOperation, !Bincode SerializedIndexEntry}.
Abbreviation store := (P.t E C FS F).

(** The entries of a scan. *)
Fixpoint deserialize_all (kvs : list (list Z * list Z)) : idx_result (list IndexEntry) :=
  match kvs with
  | [] => Ok []
  | (_, b) :: kvs =>
      let! e := deserialize_entry b in
      let! es := deserialize_all kvs in
      Ok (Entry (se_indexed_value e) (se_primary_key e) (se_included_columns e) :: es)
  end.

Definition scan_entries (s e : KeyRange.Bound) (limit : option nat) (reverse : bool) : op store (list IndexEntry) := fun x =>
  match P.scan_range s e limit reverse x with
  | (Ok kvs, x) => (deserialize_all kvs, x)
  | (Err e, x) => (Err e, x)
  | (Panic, x) => (Panic, x)
  | (Timeout, x) => (Timeout, x)
  end.

(** Whether another row has the value that the query found. *)
Definition taken (existing : list IndexEntry) (e : IndexEntry) : bool :=
  match existing with x :: _ => bool_decide (primary_key x <> primary_key e) | [] => false end.

Definition write_index_entry (now : Z) (e : IndexEntry) : op store unit := fun x =>
  match serialize_entry now (indexed_value e) (primary_key e) (included_columns e) with
  | Ok b => P.write_entry (indexed_value e) (primary_key e) b x
  | Err e => (Err e, x)
  | Panic => (Panic, x)
  | Timeout => (Timeout, x)
  end.

(** [extract_indexed_value] of both indexes. *)
Definition extract_indexed_value (row : list Z) : list Z := row.

(** The loop of [build]; [unique]: whether it looks for the entry first; [now]:
    the clock at each row. *)
Fixpoint build_rows (unique : bool) (now : nat -> Z) (count : Z) (rows : list (list Z * list Z)) : op store unit :=
  match rows with
  | [] => ret tt
  | (pk, row) :: rows =>
      let v := extract_indexed_value row in
      let* dup := (if unique then P.exists_ v pk else ret false) in
      if dup then fail (IdxUniqueViolation "Duplicate value during index build: ")
      else
        let* _ := write_index_entry (now 0%nat) (Entry v pk None) in
        let count := count + 1 in
        let* _ := (if count mod 10000 =? 0 then P.flush else ret tt) in
        build_rows unique (fun i => now (S i)) count rows
  end.

Definition sum_sizes (l : list Z) : Z := foldr Z.add 0 l.
Definition stats_of (n total : Z) : IndexStats := IdxStats n total None (if 0 <? n then total / n else 0).

(** The first entry with the key is deleted. *)
Definition delete_first (entries : list IndexEntry) (pk : list Z) : op store unit :=
  match list_find (fun e => primary_key e = pk) entries with
  | Some (_, e) => let* _ := P.delete_entry (indexed_value e) pk in ret tt
  | None => ret tt
  end.

Definition optimize : op store unit := let* _ := P.flush in fun x => (Ok tt, P.clear_cache x).
End base.
End IndexBase.

Definition set_status (r : IndexRecord) (s : IndexStatus) : IndexRecord :=
  IndexRecordMk (ir_index_id r) (ir_name r) (ir_version r) (ir_index_type r) (ir_created_at r) (ir_updated_at r) (ir_columns r)
    (ir_key_extractor r) (ir_options r) (ir_metadata r) s (ir_sharding r).

(** ** B-Tree indexes *)

Module BTreeIndex.
Module P := PersistentIndexStore.
Import IndexBase.

Section index.
Context `{!Integrity.Hashes} {E C FS F : Type} `{!Engine E, !ScanEngine E, !LruCache C, !File F, !WriteAheadLogManager.FileSystemOps FS F}.
Context `{!Bincode WalOperation, !Bincode SerializedIndexEntry}.

Record t : Type := mk { metadata : IndexRecord; storage : P.t E C FS F; is_unique : bool }.

Definition new (r : IndexRecord) (e : E) (w : option (WriteAheadLogManager.t FS F)) (c : PersistenceConfig) : t :=
  mk r (P.new c e w) (match ir_index_type r with Unique => true | _ => false end).

Definition on_storage {A} (m : op (P.t E C FS F) A) : op t A := fun x => let '(r, s) := m (storage x) in (r, mk (metadata x) s (is_unique x)).

Definition update_status (s : IndexStatus) : op t unit := fun x => (Ok tt, mk (set_status (metadata x) s) (storage x) (is_unique x)).

Definition build (now : nat -> Z) (rows : list (list Z * list Z)) : op t unit := fun x =>
  (let* _ := update_status Building in
   let* _ := on_storage (build_rows (is_unique x) now 0 rows) in
   let* _ := on_storage P.flush in
   update_status ActiveIndex) x.

Definition query (q : IndexQuery.t) : op t (list IndexEntry) := on_storage (scan_entries (IndexQuery.start q) (IndexQuery.end_ q) (IndexQuery.limit q) (IndexQuery.reverse q)).

Definition insert (now : Z) (e : IndexEntry) : op t unit := fun x =>
  (let* dup := (if is_unique x then let* existing := query (IndexQuery.with_limit (IndexQuery.exact (indexed_value e)) 1) in ret (taken existing e) else ret false) in
   if dup then fail (IdxUniqueViolation "Duplicate indexed value: ") else on_storage (write_index_entry now e)) x.

Definition delete (pk : list Z) : op t unit := let* entries := query IndexQuery.all in on_storage (delete_first entries pk).

(** The default method of the trait. *)
Definition update (now : Z) (old new : IndexEntry) : op t unit := let* _ := delete (primary_key old) in insert now new.

Definition get (pk : list Z) : op t (option IndexEntry) := let* entries := query IndexQuery.all in ret (snd <$> list_find (fun e => primary_key e = pk) entries).
Definition exists_ (v : list Z) : op t bool :=
  let* entries := query (IndexQuery.with_limit (IndexQuery.exact v) 1) in ret (match entries with [] => false | _ => true end).

Definition entry_size (e : IndexEntry) : Z := zlength (indexed_value e) + zlength (primary_key e) + match included_columns e with Some c => zlength c | None => 0 end.
Definition stats : op t IndexStats := let* entries := query IndexQuery.all in ret (stats_of (zlength entries) (sum_sizes (entry_size <$> entries))).

Definition optimize : op t unit := on_storage IndexBase.optimize.
Definition flush : op t unit := on_storage P.flush.

Definition range_scan (s e : KeyRange.Bound) (limit : option nat) (reverse : bool) : op t (list IndexEntry) := query (IndexQuery.mk s e limit reverse).
Definition min_key : op t (option (list Z)) := let* entries := query (IndexQuery.with_limit IndexQuery.all 1) in ret (indexed_value <$> head entries).
Definition max_key : op t (option (list Z)) := let* entries := query (IndexQuery.reversed (IndexQuery.with_limit IndexQuery.all 1)) in ret (indexed_value <$> head entries).
Definition prefix_scan (p : list Z) (limit : option nat) : op t (list IndexEntry) :=
  query (IndexQuery.mk (KeyRange.Included p) (KeyRange.Excluded (KeyRange.prefix_end p)) limit false).
Definition count_range (s e : KeyRange.Bound) : op t Z := let* entries := query (IndexQuery.mk s e None false) in ret (zlength entries).

Definition lookup_unique (v : list Z) : op t (option (list Z)) :=
  let* entries := query (IndexQuery.with_limit (IndexQuery.exact v) 1) in ret (primary_key <$> head entries).
Definition validate_unique (v : list Z) : op t unit :=
  let* found := exists_ v in if found then fail (IdxUniqueViolation "Value already exists: ") else ret tt.
End index.
Arguments t : clear implicits.
End BTreeIndex.

(** ** Hash indexes *)

Module HashIndex.
Module P := PersistentIndexStore.
Import IndexBase.

Section index.
Context `{!Integrity.Hashes} {E C FS F : Type} `{!Engine E, !ScanEngine E, !LruCache C, !File F, !WriteAheadLogManager.FileSystemOps FS F}.
Context `{!Bincode WalOperation, !Bincode SerializedIndexEntry}.

Record t : Type := mk { metadata : IndexRecord; storage : P.t E C FS F }.

Definition new (r : IndexRecord) (e : E) (w : option (WriteAheadLogManager.t FS F)) (c : PersistenceConfig) : t := mk r (P.new c e w).

Definition on_storage {A} (m : op (P.t E C FS F) A) : op t A := fun x => let '(r, s) := m (storage x) in (r, mk (metadata x) s).

Definition update_status (s : IndexStatus) : op t unit := fun x => (Ok tt, mk (set_status (metadata x) s) (storage x)).

Definition build (now : nat -> Z) (rows : list (list Z * list Z)) : op t unit :=
  let* _ := update_status Building in
  let* _ := on_storage (build_rows true now 0 rows) in
  let* _ := on_storage P.flush in
  update_status ActiveIndex.

(** Only queries for one value are answered. *)
Definition query (q : IndexQuery.t) : op t (list IndexEntry) :=
  match IndexQuery.start q, IndexQuery.end_ q with
  | KeyRange.Included s, KeyRange.Included e =>
      if decide (s = e) then on_storage (scan_entries (KeyRange.Included s) (KeyRange.Included e) (IndexQuery.limit q) false)
      else fail (IdxQueryFailed "Hash indexes only support exact match queries")
  | _, _ => fail (IdxQueryFailed "Hash indexes only support exact match queries")
  end.

Definition insert (now : Z) (e : IndexEntry) : op t unit :=
  let* existing := query (IndexQuery.with_limit (IndexQuery.exact (indexed_value e)) 1) in
  if taken existing e then fail (IdxUniqueViolation "Value already exists in unique index: ") else on_storage (write_index_entry now e).

Definition delete (pk : list Z) : op t unit := let* entries := query IndexQuery.all in on_storage (delete_first entries pk).

Definition update (now : Z) (old new : IndexEntry) : op t unit := let* _ := delete (primary_key old) in insert now new.

Definition get (pk : list Z) : op t (option IndexEntry) := let* entries := query IndexQuery.all in ret (snd <$> list_find (fun e => primary_key e = pk) entries).
Definition exists_ (v : list Z) : op t bool :=
  let* entries := query (IndexQuery.with_limit (IndexQuery.exact v) 1) in ret (match entries with [] => false | _ => true end).

Definition stats : op t IndexStats :=
  let* kvs := on_storage (P.scan_range KeyRange.Unbounded KeyRange.Unbounded None false) in ret (stats_of (zlength kvs) (sum_sizes ((fun kv => zlength kv.2) <$> kvs))).

Definition optimize : op t unit := on_storage IndexBase.optimize.
Definition flush : op t unit := on_storage P.flush.

Definition lookup_unique (v : list Z) : op t (option (list Z)) :=
  let* entries := query (IndexQuery.with_limit (IndexQuery.exact v) 1) in ret (primary_key <$> head entries).
Definition validate_unique (v : list Z) : op t unit :=
  let* found := exists_ v in if found then fail (IdxUniqueViolation "Value already exists: ") else ret tt.
End index.
Arguments t : clear implicits.
End HashIndex.

(** ** Distributed indexes *)

(** The trait [IndexStore], as far as the distributed index uses it. *)
Class IndexStore (I : Type) : Type := {
  index_build : (nat -> Z) -> list (list Z * list Z) -> op I unit;
  index_insert : Z -> IndexEntry -> op I unit;
  index_update : Z -> IndexEntry -> IndexEntry -> op I unit;
  index_delete : list Z -> op I unit;
  index_query : IndexQuery.t -> op I (list IndexEntry);
  index_get : list Z -> op I (option IndexEntry);
  index_exists : list Z -> op I bool;
  index_stats : op I IndexStats;
  index_optimize : op I unit;
  index_flush : op I unit }.

(** [ConsensusGroup]; a proposal fails with a message. *)
Class ConsensusGroup (G : Type) : Type := { is_leader : G -> bool; propose : G -> list Z -> option string * G }.

Inductive IndexCommand : Type :=
| CmdInsert (indexed_value primary_key : list Z) (included_columns : option (list Z))
| CmdUpdate (old_indexed_value old_primary_key new_indexed_value new_primary_key : list Z) (new_included_columns : option (list Z))
| CmdDelete (primary_key : list Z)
| CmdFlush
| CmdOptimize.

Inductive IndexCommandResponse : Type := RespOk | RespError (msg : string).

Module DistributedIndex.

Section index.
Context {I G : Type} `{!IndexStore I, !ConsensusGroup G, !Bincode IndexCommand}.

Record t : Type := mk { local_index : I; consensus_group : G; allow_stale_reads : bool }.

Definition new (i : I) (g : G) : t := mk i g false.
Definition with_stale_reads (x : t) (allow : bool) : t := mk (local_index x) (consensus_group x) allow.
Definition leader (x : t) : bool := is_leader (consensus_group x).

Definition propose_command (c : IndexCommand) : op t unit := fun x =>
  match bin_to c with
  | Some payload =>
      let '(r, g) := propose (consensus_group x) payload in
      (match r with None => Ok tt | Some _ => Err (IdxStorage "Consensus proposal failed: ") end, mk (local_index x) g (allow_stale_reads x))
  | None => (Err (IdxSerialization ""), x)
  end.

Definition on_local {A} (m : op I A) : op t A := fun x => let '(r, i) := m (local_index x) in (r, mk i (consensus_group x) (allow_stale_reads x)).

(** An error of the index is the response, not an error. *)
Definition respond (m : op I unit) : op t IndexCommandResponse := fun x =>
  match on_local m x with
  | (Ok _, x) => (Ok RespOk, x)
  | (Err e, x) => (Ok (RespError (idx_display e)), x)
  | (Panic, x) => (Panic, x)
  | (Timeout, x) => (Timeout, x)
  end.

Definition apply_command (now : Z) (c : IndexCommand) : op t IndexCommandResponse :=
  match c with
  | CmdInsert v pk inc => respond (index_insert now (Entry v pk inc))
  | CmdUpdate ov opk nv npk inc => respond (index_update now (Entry ov opk None) (Entry nv npk inc))
  | CmdDelete pk => respond (index_delete pk)
  | CmdFlush => respond index_flush
  | CmdOptimize => respond index_optimize
  end.

Definition build (now : nat -> Z) (rows : list (list Z * list Z)) : op t unit := fun x =>
  if leader x then on_local (index_build now rows) x else (Err (IdxBuildFailed "Index building must be done on the leader"), x).

Definition insert (e : IndexEntry) : op t unit := propose_command (CmdInsert (indexed_value e) (primary_key e) (included_columns e)).
Definition update (old new : IndexEntry) : op t unit :=
  propose_command (CmdUpdate (indexed_value old) (primary_key old) (indexed_value new) (primary_key new) (included_columns new)).
Definition delete (pk : list Z) : op t unit := propose_command (CmdDelete pk).
Definition query (q : IndexQuery.t) : op t (list IndexEntry) := on_local (index_query q).
Definition get (pk : list Z) : op t (option IndexEntry) := on_local (index_get pk).
Definition exists_ (v : list Z) : op t bool := on_local (index_exists v).
Definition stats : op t IndexStats := on_local index_stats.
Definition optimize : op t unit := propose_command CmdOptimize.
Definition flush : op t unit := propose_command CmdFlush.
End index.
Arguments t : clear implicits.
End DistributedIndex.
