(* ===== verification/IdxSpec.v ===== *)
(** * What an index answers

    Over any engine that keeps its promises, a B-Tree index on values of one
    width is a table from value and primary key to columns: queries list exactly
    its entries in range and in order, and a unique index has one row per value.
    Without the fixed width, with primary keys that start with 255, or with two
    values for one row, the index answers something else; and the entries of a
    hash index cannot be deleted. *)

From Stdlib Require Import ZArith Lia.
From stdpp Require Import gmap option strings base list sorting.
From S2P Require Import Prelude Security BTreeError VfsFile Integrity Wal KvtRange KvtMemory KvmContext KvmRequest KvmObjects IdxStore.

Open Scope Z_scope.

(** ** What the index relies on *)

Class ScanLaws (E : Type) `{!Engine E, !EngineLaws E, !ScanEngine E} : Prop := {
  exists_law : forall e s m k, contents e s = Some m ->
    let (r, e') := engine_exists e s k in contents e' s = Some m /\ (r = Ok (bool_decide (is_Some (m !! k))) \/ exists x, r = Err x);
  scan_law : forall e s m q, contents e s = Some m -> KeyRange.valid_bounds (KeyRange.start q) (KeyRange.end_ q) = true ->
    let (r, e') := engine_scan e s q in contents e' s = Some m /\
      ((exists es, sorted_by fst es /\ (forall k v, (k, v) ∈ es <-> m !! k = Some v /\ KeyRange.key_in_range k q = true) /\
          r = Ok (take_limit (KeyRange.limit q) (if KeyRange.reverse q then rev es else es))) \/ exists x, r = Err x) }.

(** A cache holds some of what was put and not taken out since. *)
Class CacheLaws (C : Type) `{!LruCache C} : Type := {
  cache_map : C -> gmap (list Z) (list Z);
  cache_new_law : forall n, cache_map (cache_new n) = ∅;
  cache_put_law : forall c k v, cache_map (cache_put c k v) ⊆ <[k := v]> (cache_map c);
  cache_get_law : forall c k, (cache_get c k).1 = cache_map c !! k /\ cache_map (cache_get c k).2 = cache_map c;
  cache_contains_law : forall c k, cache_contains c k = bool_decide (is_Some (cache_map c !! k));
  cache_pop_law : forall c k, cache_map (cache_pop c k) = delete k (cache_map c);
  cache_clear_law : forall c, cache_map (cache_clear c) = ∅ }.

Class BincodeLaws (A : Type) `{!Bincode A} : Prop := bin_law : forall x b, bin_to x = Some b -> bin_from b = Some x.

(** ** The order of keys *)

Lemma bytes_cmp_same a b x y : length a = length b -> bytes_cmp (a ++ x) (b ++ y) = match bytes_cmp a b with Eq => bytes_cmp x y | c => c end.
Proof. revert b. induction a as [|c a IH]; intros [|d b] Hl; try done. cbn. destruct (c ?= d); [|done..]. apply IH. by injection Hl. Qed.

Lemma bytes_le_same a b x y : length a = length b -> bytes_le (a ++ x) (b ++ y) <-> bytes_lt a b \/ a = b /\ bytes_le x y.
Proof.
  intros Hl. unfold bytes_le, bytes_lt. rewrite bytes_cmp_same by done. destruct (bytes_cmp a b) eqn:E; [apply bytes_cmp_eq in E|..]; split; try tauto; try (intros; by left); intros [?|[-> ?]]; try done; by rewrite bytes_cmp_refl in E.
Qed.

Lemma bytes_lt_same a b x y : length a = length b -> bytes_lt (a ++ x) (b ++ y) <-> bytes_lt a b \/ a = b /\ bytes_lt x y.
Proof.
  intros Hl. unfold bytes_lt. rewrite bytes_cmp_same by done. destruct (bytes_cmp a b) eqn:E; [apply bytes_cmp_eq in E|..]; split; try tauto; try (intros; by left); intros [?|[-> ?]]; try done; by rewrite bytes_cmp_refl in E.
Qed.

Lemma bytes_nil_le x : bytes_le [] x.
Proof. by destruct x. Qed.

Lemma bytes_le_app p x y : bytes_le (p ++ x) (p ++ y) <-> bytes_le x y.
Proof. unfold bytes_le. by rewrite bytes_cmp_app. Qed.

Lemma bytes_lt_app p x y : bytes_lt (p ++ x) (p ++ y) <-> bytes_lt x y.
Proof. unfold bytes_lt. by rewrite bytes_cmp_app. Qed.

Lemma bytes_le_prefix p x : bytes_le p (p ++ x).
Proof. rewrite <- (app_nil_r p) at 1. apply bytes_le_app, bytes_nil_le. Qed.

Lemma key_le_trans a b c : bytes_le a b -> bytes_le b c -> bytes_le a c.
Proof. intros [H| ->]%bytes_le_lt_eq H'; [|done]. apply bytes_lt_le. by eapply bytes_lt_le_trans. Qed.

Lemma key_le_antisym a b : bytes_le a b -> bytes_le b a -> a = b.
Proof. intros [H| ->]%bytes_le_lt_eq H'; [|done]. apply bytes_le_not_lt in H'. done. Qed.

Lemma le_value_snoc r b : le_value (r ++ [b]) = le_value r + b * 256 ^ Z.of_nat (length r).
Proof. induction r as [|x r IH]; cbn [app le_value length]; [lia|]. rewrite IH, Nat2Z.inj_succ, Z.pow_succ_r by lia. lia. Qed.

Lemma be_value_cons b l : be_value (b :: l) = b * 256 ^ Z.of_nat (length l) + be_value l.
Proof. unfold be_value. cbn [rev]. rewrite le_value_snoc, length_rev. lia. Qed.

(** On byte strings of one length the order is the order of the numbers. *)
Lemma bytes_cmp_value a b : length a = length b -> byte_list a -> byte_list b -> bytes_cmp a b = (be_value a ?= be_value b).
Proof.
  revert b. induction a as [|x a IH]; intros [|y b] Hl Ha Hb; try done. injection Hl as Hl. apply Forall_cons in Ha as [Hx Ha], Hb as [Hy Hb].
  rewrite !be_value_cons, Hl. pose proof (be_value_range a Ha) as Ra. pose proof (be_value_range b Hb) as Rb. rewrite Hl in Ra. rewrite <- pow256 in Ra, Rb. cbn [bytes_cmp].
  destruct (Z.compare_spec x y) as [->|Hlt|Hgt].
  - rewrite (IH b Hl Ha Hb). destruct (Z.compare_spec (be_value a) (be_value b)); symmetry; [apply Z.compare_eq_iff|apply Z.compare_lt_iff|apply Z.compare_gt_iff]; lia.
  - symmetry. apply Z.compare_lt_iff. nia.
  - symmetry. apply Z.compare_gt_iff. nia.
Qed.

(** Keys of at least four bytes between two consecutive identifiers have the
    first one as their prefix. *)
Lemma between_ids id k : 0 <= id -> id + 1 < 2 ^ 32 -> byte_list k -> (4 <= length k)%nat -> bytes_le (be_bytes 4 id) k -> bytes_lt k (be_bytes 4 (id + 1)) -> be_bytes 4 id `prefix_of` k.
Proof.
  intros H0 H1 Hk Hl Hle Hlt. rewrite <- (take_drop 4 k) in Hle, Hlt |- *. set (t := take 4 k) in *. assert (Hlt4 : length t = 4%nat) by (unfold t; rewrite length_take; lia).
  assert (Ht : byte_list t) by by apply Forall_take. rewrite <- (app_nil_r (be_bytes 4 id)) in Hle. rewrite <- (app_nil_r (be_bytes 4 (id + 1))) in Hlt.
  apply bytes_le_same in Hle; [|by rewrite length_be_bytes]. apply bytes_lt_same in Hlt; [|by rewrite length_be_bytes]. destruct Hle as [Hle|[<- _]]; [|apply prefix_app_r; done].
  destruct Hlt as [Hlt|[_ Hlt]]; [|by destruct (drop 4 k)]. unfold bytes_lt in *. rewrite bytes_cmp_value in Hle, Hlt by (rewrite ?length_be_bytes; auto using be_bytes_range).
  rewrite Z.compare_lt_iff in Hle, Hlt. rewrite be_value_small in Hle by (change (8 * Z.of_nat 4) with 32; lia). rewrite be_value_small in Hlt by (change (8 * Z.of_nat 4) with 32; lia). lia.
Qed.

(** ** Tables *)

Abbreviation Table := (gmap (list Z * list Z) (option (list Z))).

Definition entry_key (e : IndexEntry) : list Z := indexed_value e ++ primary_key e.

(** Whether a value is in the range of a query, as the index reads it: the start
    is included whether the query says so or not. *)
Definition value_in (q : IndexQuery.t) (v : list Z) : Prop :=
  match IndexQuery.start q with KeyRange.Included a | KeyRange.Excluded a => bytes_le a v | KeyRange.Unbounded => True end /\
  match IndexQuery.end_ q with KeyRange.Included b => bytes_le v b | KeyRange.Excluded b => bytes_lt v b | KeyRange.Unbounded => True end.

(** The answer to a query: the entries in range in the order of value and key,
    reversed when asked for, up to the limit. *)
Definition lists (q : IndexQuery.t) (A : Table) (l : list IndexEntry) : Prop :=
  exists es, sorted_by entry_key es /\ (forall e, e ∈ es <-> A !! (indexed_value e, primary_key e) = Some (included_columns e) /\ value_in q (indexed_value e)) /\
    l = take_limit (IndexQuery.limit q) (if IndexQuery.reverse q then rev es else es).

(** The least of some values. *)
Definition least (l : list (list Z)) : option (list Z) :=
  match l with [] => None | x :: l => Some (foldr (fun a b => if decide (bytes_le a b) then a else b) x l) end.

Definition values_of (pk : list Z) (A : Table) : list (list Z) := (fun b => b.1.1) <$> filter (fun b => b.1.2 = pk) (map_to_list A).

(** What [delete] does: of the entries of a row, the one with the least value goes. *)
Definition remove_row (pk : list Z) (A : Table) : Table := match least (values_of pk A) with Some v => delete (v, pk) A | None => A end.

Lemma least_spec l v : least l = Some v -> v ∈ l /\ forall u, u ∈ l -> bytes_le v u.
Proof.
  destruct l as [|x l]; [done|]. cbn [least]. intros [= <-]. induction l as [|a l [IHin IHle]]; cbn [foldr].
  - split; [by left|]. intros u Hu. apply list_elem_of_singleton in Hu as ->. apply bytes_le_refl.
  - set (y := foldr _ x l) in *. destruct (decide (bytes_le a y)) as [Hle|Hle]; split.
    + right. by left.
    + intros u Hu. rewrite !elem_of_cons in Hu. destruct Hu as [->|[->|Hu]]; [|apply bytes_le_refl|]; (eapply key_le_trans; [exact Hle|]; apply IHle); [by left|by right].
    + apply elem_of_cons in IHin as [->|IHin]; [by left|by do 2 right].
    + assert (Hya : bytes_le y a) by (apply bytes_le_not_lt; intros Hlt; by apply Hle, bytes_lt_le).
      intros u Hu. rewrite !elem_of_cons in Hu. destruct Hu as [->|[->|Hu]]; [apply IHle; by left|exact Hya|apply IHle; by right].
Qed.

Lemma elem_of_row_values pk A v : v ∈ values_of pk A <-> is_Some (A !! (v, pk)).
Proof.
  unfold values_of. rewrite list_elem_of_fmap. split.
  - intros ([[v' pk'] inc] & -> & [Hpk Hin]%list_elem_of_filter). cbn in *. subst pk'. apply elem_of_map_to_list in Hin. by exists inc.
  - intros [inc Hin]. exists ((v, pk), inc). split; [done|]. apply list_elem_of_filter. split; [done|]. by apply elem_of_map_to_list.
Qed.

Lemma remove_row_none pk A : (forall v, A !! (v, pk) = None) -> remove_row pk A = A.
Proof.
  intros Hn. unfold remove_row. destruct (least (values_of pk A)) as [v|] eqn:E; [|done]. apply least_spec in E as [Hin _]. apply elem_of_row_values in Hin as [inc Hin]. by rewrite Hn in Hin.
Qed.

Lemma remove_row_some pk A v : is_Some (A !! (v, pk)) -> (forall u, is_Some (A !! (u, pk)) -> bytes_le v u) -> remove_row pk A = delete (v, pk) A.
Proof.
  intros Hv Hmin. unfold remove_row. destruct (least (values_of pk A)) as [u|] eqn:E.
  - apply least_spec in E as [Hin Hle]. apply elem_of_row_values in Hin. assert (u = v) as ->; [|done]. apply key_le_antisym; [by apply Hle, elem_of_row_values|by apply Hmin].
  - apply elem_of_row_values in Hv. destruct (values_of pk A); [by apply not_elem_of_nil in Hv|done].
Qed.

(** ** The index *)

Section index.
Context `{!Integrity.Hashes} {E C FS F : Type} `{!Engine E, !EngineLaws E, !ScanEngine E, !ScanLaws E, !LruCache C, !CacheLaws C, !File F, !WriteAheadLogManager.FileSystemOps FS F}.
Context `{!Bincode WalOperation, !Bincode SerializedIndexEntry, !BincodeLaws SerializedIndexEntry}.
Abbreviation store := (PersistentIndexStore.t E C FS F).
Abbreviation index := (BTreeIndex.t E C FS F).
Implicit Types (x : store) (e : IndexEntry) (q : IndexQuery.t) (A : Table).

(** The shard and the identifier of the index, and the width of its values. *)
Context (sd id : Z) (w : nat).

Definition id_ok : Prop := 0 <= id /\ id + 1 < 2 ^ 32.

Definition entry_ok e : Prop :=
  length (indexed_value e) = w /\ byte_list (indexed_value e) /\ byte_list (primary_key e) /\ match primary_key e with b :: _ => b < 255 | [] => False end.

Definition bound_ok (b : KeyRange.Bound) : Prop := match b with KeyRange.Included a | KeyRange.Excluded a => length a = w | KeyRange.Unbounded => True end.

Definition query_ok q : Prop := bound_ok (IndexQuery.start q) /\ bound_ok (IndexQuery.end_ q) /\ KeyRange.valid_bounds (IndexQuery.start q) (IndexQuery.end_ q) = true.

Definition key_of (v pk : list Z) : list Z := be_bytes 4 id ++ v ++ pk.

Definition here x : Prop := shard_id (PersistentIndexStore.config x) = sd /\ index_id (PersistentIndexStore.config x) = id.

(** The range the index scans for a query. *)
Definition lo (b : KeyRange.Bound) : KeyRange.Bound :=
  match b with KeyRange.Included v => KeyRange.Included (be_bytes 4 id ++ v) | KeyRange.Excluded v => KeyRange.Excluded (be_bytes 4 id ++ v) | KeyRange.Unbounded => KeyRange.Included (be_bytes 4 id) end.
Definition hi (b : KeyRange.Bound) : KeyRange.Bound :=
  match b with
  | KeyRange.Included v => KeyRange.Included ((be_bytes 4 id ++ v) ++ [255])
  | KeyRange.Excluded v => KeyRange.Excluded (be_bytes 4 id ++ v)
  | KeyRange.Unbounded => KeyRange.Excluded (be_bytes 4 (id + 1))
  end.
Definition scan_of q : KeyRange.t := KeyRange.mk (lo (IndexQuery.start q)) (hi (IndexQuery.end_ q)) (IndexQuery.limit q) (IndexQuery.reverse q).

Lemma scan_range_of q x : id_ok -> here x -> PersistentIndexStore.scan_range (IndexQuery.start q) (IndexQuery.end_ q) (IndexQuery.limit q) (IndexQuery.reverse q) x =
  PersistentIndexStore.on_store (fun st => engine_scan st sd (scan_of q)) x.
Proof using Type.
  intros [Hid1 Hid2] [Hsd Hi]. unfold PersistentIndexStore.scan_range, PersistentIndexStore.end_bound, PersistentIndexStore.start_bound, PersistentIndexStore.build_prefix, PersistentIndexStore.id_bytes. rewrite Hi, Hsd.
  rewrite (proj2 (Z.ltb_lt (id + 1) (2 ^ 32))) by lia. by destruct q as [[] [] lim rv].
Qed.

Lemma next_id_lt : id_ok -> bytes_lt (be_bytes 4 id) (be_bytes 4 (id + 1)).
Proof using Type.
  intros [Hid1 Hid2]. unfold bytes_lt. rewrite bytes_cmp_value by (rewrite ?length_be_bytes; auto using be_bytes_range). apply Z.compare_lt_iff. rewrite !be_value_small by (change (8 * Z.of_nat 4) with 32; lia). lia.
Qed.

Lemma lo_value b v pk : bound_ok b -> length v = w -> pk <> [] ->
  KeyRange.after_start (key_of v pk) (lo b) = true <-> match b with KeyRange.Included a | KeyRange.Excluded a => bytes_le a v | KeyRange.Unbounded => True end.
Proof using Type.
  intros Hb Hv Hpk. unfold key_of. destruct b as [a|a|]; cbn [lo KeyRange.after_start bound_ok] in *; rewrite bool_decide_eq_true.
  - rewrite <- (app_nil_r a) at 1. rewrite bytes_le_app, bytes_le_same, (bytes_le_lt_eq a v) by congruence. pose proof (bytes_nil_le pk). tauto.
  - rewrite <- (app_nil_r a) at 1. rewrite bytes_lt_app, bytes_lt_same, (bytes_le_lt_eq a v) by congruence. assert (bytes_lt [] pk) by (by destruct pk). tauto.
  - pose proof (bytes_le_prefix (be_bytes 4 id) (v ++ pk)). tauto.
Qed.

Lemma hi_value b v pk : id_ok -> bound_ok b -> length v = w -> bytes_le pk [255] ->
  KeyRange.before_end (key_of v pk) (hi b) = true <-> match b with KeyRange.Included a => bytes_le v a | KeyRange.Excluded a => bytes_lt v a | KeyRange.Unbounded => True end.
Proof using Type.
  intros Hid Hb Hv Hpk. unfold key_of. destruct b as [a|a|]; cbn [hi KeyRange.before_end bound_ok] in *; rewrite bool_decide_eq_true.
  - rewrite <- app_assoc, bytes_le_app, bytes_le_same, (bytes_le_lt_eq v a) by congruence. tauto.
  - rewrite <- (app_nil_r a) at 1. rewrite bytes_lt_app, bytes_lt_same by congruence. assert (~ bytes_lt pk []) by (by destruct pk). tauto.
  - rewrite <- (app_nil_r (be_bytes 4 (id + 1))), bytes_lt_same by (by rewrite !length_be_bytes). pose proof (next_id_lt Hid). tauto.
Qed.

(** A key below the upper end is below the next identifier. *)
Lemma below_next k b : id_ok -> KeyRange.before_end k (hi b) = true -> bytes_lt k (be_bytes 4 (id + 1)).
Proof using Type.
  intros Hid. pose proof (next_id_lt Hid) as Hn. assert (Hx : forall y, bytes_lt (be_bytes 4 id ++ y) (be_bytes 4 (id + 1))).
  { intros y. rewrite <- (app_nil_r (be_bytes 4 (id + 1))), bytes_lt_same by (by rewrite !length_be_bytes). by left. }
  destruct b as [a|a|]; cbn [hi KeyRange.before_end]; rewrite bool_decide_eq_true; intros Hk; [|by eapply bytes_lt_trans|done].
  rewrite <- app_assoc in Hk. by eapply bytes_le_lt_trans.
Qed.

Lemma above_id k b : KeyRange.after_start k (lo b) = true -> bytes_le (be_bytes 4 id) k.
Proof using Type.
  destruct b as [a|a|]; cbn [lo KeyRange.after_start]; rewrite bool_decide_eq_true; intros Hk; [| |done]; (eapply key_le_trans; [apply (bytes_le_prefix _ a)|]); [done|by apply bytes_lt_le].
Qed.

Lemma scan_of_prefix q k : id_ok -> byte_list k -> (4 <= length k)%nat -> KeyRange.key_in_range k (scan_of q) = true -> be_bytes 4 id `prefix_of` k.
Proof using Type.
  intros Hid Hk Hl [Hs He]%andb_true_iff. destruct Hid as [Hid1 Hid2]. apply between_ids; try done; [exact (above_id k _ Hs)|exact (below_next k _ (conj Hid1 Hid2) He)].
Qed.

Lemma scan_of_value q e : id_ok -> query_ok q -> entry_ok e -> KeyRange.key_in_range (key_of (indexed_value e) (primary_key e)) (scan_of q) = true <-> value_in q (indexed_value e).
Proof using Type.
  intros Hid (Hs & He & _) (Hv & _ & _ & Hpk). unfold KeyRange.key_in_range, value_in. cbn [scan_of KeyRange.start KeyRange.end_]. rewrite andb_true_iff, lo_value, hi_value; try done.
  - destruct (primary_key e) as [|b pk]; [done|]. unfold bytes_le. cbn. by rewrite (proj2 (Z.compare_lt_iff b 255)).
  - by destruct (primary_key e).
Qed.

Lemma scan_of_valid q : id_ok -> query_ok q -> KeyRange.valid_bounds (KeyRange.start (scan_of q)) (KeyRange.end_ (scan_of q)) = true.
Proof using Type.
  intros Hid (Hs & He & Hv). pose proof (next_id_lt Hid) as Hn.
  assert (Hx : forall y, bytes_lt (be_bytes 4 id ++ y) (be_bytes 4 (id + 1))).
  { intros y. rewrite <- (app_nil_r (be_bytes 4 (id + 1))), bytes_lt_same by (by rewrite !length_be_bytes). by left. }
  assert (Hy : forall a b y, bytes_le a b -> bytes_le (be_bytes 4 id ++ a) (be_bytes 4 id ++ b ++ y)).
  { intros a b y Hab. apply bytes_le_app. eapply key_le_trans; [exact Hab|apply bytes_le_prefix]. }
  destruct q as [[a|a|] [b|b|] lim rv]; cbn [scan_of lo hi KeyRange.start KeyRange.end_ KeyRange.valid_bounds IndexQuery.start IndexQuery.end_] in *; rewrite ?bool_decide_eq_true in *; rewrite <- ?app_assoc;
    auto using bytes_lt_le, bytes_le_prefix; try (by apply bytes_le_app); by apply bytes_lt_app.
Qed.


(** *** The table of an index *)

Definition keys_ok (m : gmap (list Z) (list Z)) : Prop := forall k, is_Some (m !! k) -> byte_list k /\ (4 <= length k)%nat.

Definition decodes (b : list Z) e : Prop := exists now, bin_from b = Some (Serialization.new now (indexed_value e) (primary_key e) (included_columns e)).

Definition table_of (m : gmap (list Z) (list Z)) A : Prop :=
  (forall v pk inc, A !! (v, pk) = Some inc -> entry_ok (Entry v pk inc) /\ exists b, m !! key_of v pk = Some b /\ decodes b (Entry v pk inc)) /\
  (forall k, is_Some (m !! k) -> be_bytes 4 id `prefix_of` k -> exists v pk, is_Some (A !! (v, pk)) /\ k = key_of v pk).

Definition rep x A : Prop :=
  here x /\ exists m, contents (PersistentIndexStore.store x) sd = Some m /\ keys_ok m /\ cache_map (PersistentIndexStore.cache x) ⊆ m /\ table_of m A.

Lemma key_of_inj v pk v' pk' : length v = length v' -> key_of v pk = key_of v' pk' -> v = v' /\ pk = pk'.
Proof using Type. unfold key_of. intros Hl Hk. apply app_inv_head in Hk. by apply app_inj_1 in Hk. Qed.

(** A pair of the store and the entry it is. *)
Definition pair_entry A (kv : list Z * list Z) e : Prop :=
  kv.1 = key_of (indexed_value e) (primary_key e) /\ decodes kv.2 e /\ A !! (indexed_value e, primary_key e) = Some (included_columns e).

Lemma deserialize_pairs A kvs es : Forall2 (pair_entry A) kvs es -> IndexBase.deserialize_all kvs = Ok es.
Proof using Type.
  induction 1 as [|[k b] [v pk inc] kvs es (_ & (now & Hb) & _) _ IH]; [done|]. cbn [IndexBase.deserialize_all]. unfold Serialization.deserialize_entry. cbn [snd] in Hb. rewrite Hb. cbn [ok_or rbind]. by rewrite IH.
Qed.

Lemma pairs_exist A kvs : (forall kv, kv ∈ kvs -> exists e, pair_entry A kv e) -> exists es, Forall2 (pair_entry A) kvs es.
Proof using Type.
  induction kvs as [|kv kvs IH]; intros Hall; [by exists []|]. destruct (Hall kv) as [e He]; [by left|]. destruct IH as [es Hes]; [intros kv' Hkv; apply Hall; by right|]. exists (e :: es). by constructor.
Qed.

Lemma pairs_sorted A kvs es : Forall2 (pair_entry A) kvs es -> sorted_by fst kvs -> sorted_by entry_key es.
Proof using Type.
  induction 1 as [|kv e kvs es (Hk & _) Hall IH]; [done|]. rewrite !sorted_by_cons. intros [Hs Hgt]. split; [by apply IH|]. apply Forall_forall. intros e' He'.
  apply list_elem_of_lookup in He' as [i Hi]. destruct (Forall2_lookup_r _ _ _ _ _ Hall Hi) as (kv' & Hi' & Hk' & _). pose proof (Forall_lookup_1 _ _ _ _ Hgt Hi') as Hlt.
  rewrite Hk, Hk' in Hlt. by apply bytes_lt_app in Hlt.
Qed.

Lemma table_pair m A k b : table_of m A -> m !! k = Some b -> be_bytes 4 id `prefix_of` k -> exists e, pair_entry A (k, b) e /\ entry_ok e.
Proof using Type.
  intros [Hf Hb] Hk Hp. destruct (Hb k) as (v & pk & [inc HA] & ->); [by exists b|done|]. destruct (Hf v pk inc HA) as (Hok & b' & Hb' & Hd). rewrite Hk in Hb'. injection Hb' as <-. by exists (Entry v pk inc).
Qed.

Lemma scan_lists m A q es : id_ok -> query_ok q -> keys_ok m -> table_of m A -> sorted_by fst es ->
  (forall k b, (k, b) ∈ es <-> m !! k = Some b /\ KeyRange.key_in_range k (scan_of q) = true) ->
  exists l, IndexBase.deserialize_all (take_limit (IndexQuery.limit q) (if IndexQuery.reverse q then rev es else es)) = Ok l /\ lists q A l.
Proof using Type.
  intros Hid Hq Hkeys Htab Hs Hes. destruct (pairs_exist A es) as [l Hl].
  { intros [k b] [Hk Hr]%Hes. destruct (Hkeys k) as [Hby Hlen]; [by exists b|]. destruct (table_pair m A k b Htab Hk) as (e & He & _); [by eapply scan_of_prefix|]. by exists e. }
  exists (take_limit (IndexQuery.limit q) (if IndexQuery.reverse q then rev l else l)). split.
  - apply (deserialize_pairs A). assert (Hrev : Forall2 (pair_entry A) (if IndexQuery.reverse q then rev es else es) (if IndexQuery.reverse q then rev l else l)).
    { destruct (IndexQuery.reverse q); [|done]. rewrite !rev_alt. by apply Forall2_reverse. }
    destruct (IndexQuery.limit q); [by apply Forall2_take|done].
  - exists l. split; [by eapply pairs_sorted|]. split; [|done]. intros e. split.
    + intros [i Hi]%list_elem_of_lookup. destruct (Forall2_lookup_r _ _ _ _ _ Hl Hi) as ([k b] & Hi' & Hk & _ & HA). split; [done|]. cbn [fst] in Hk. subst k.
      apply list_elem_of_lookup_2 in Hi'. apply Hes in Hi' as [_ Hr]. destruct (proj1 Htab _ _ _ HA) as [Hok _]. destruct e as [v pk inc]. by apply (scan_of_value q (Entry v pk inc)).
    + intros [HA Hv]. destruct (proj1 Htab _ _ _ HA) as (Hok & b & Hb & _). assert (Hin : (key_of (indexed_value e) (primary_key e), b) ∈ es).
      { apply Hes. split; [done|]. destruct e as [v pk inc]. by apply (scan_of_value q (Entry v pk inc)). }
      apply list_elem_of_lookup in Hin as [i Hi]. destruct (Forall2_lookup_l _ _ _ _ _ Hl Hi) as (e' & Hi' & Hk & _ & HA'). apply list_elem_of_lookup_2 in Hi'. cbn [fst] in Hk.
      destruct (proj1 Htab _ _ _ HA') as ((Hlen' & _) & _). destruct Hok as (Hlen & _). apply key_of_inj in Hk as [Hv' Hp']; [|cbn in *; congruence].
      replace e with e'; [done|]. destruct e, e'. cbn in *. subst. congruence.
Qed.

(** *** Operations *)

Lemma scan_entries_rep q x A : id_ok -> query_ok q -> rep x A ->
  let (r, x') := IndexBase.scan_entries (IndexQuery.start q) (IndexQuery.end_ q) (IndexQuery.limit q) (IndexQuery.reverse q) x in
  rep x' A /\ ((exists l, r = Ok l /\ lists q A l) \/ exists msg, r = Err (IdxStorage msg)).
Proof using All.
  intros Hid Hq (Hh & m & Hm & Hkeys & Hc & Htab). unfold IndexBase.scan_entries. rewrite scan_range_of by done. unfold PersistentIndexStore.on_store.
  pose proof (scan_law (PersistentIndexStore.store x) sd m (scan_of q) Hm (scan_of_valid q Hid Hq)) as Hlaw. destruct (engine_scan (PersistentIndexStore.store x) sd (scan_of q)) as [r e']. destruct Hlaw as [Hm' Hlaw].
  assert (Hrep : rep (PersistentIndexStore.with_store x e') A) by (split; [done|]; by exists m).
  destruct Hlaw as [(es & Hs & Hes & ->)|[err ->]]; [|split; [done|]; right; by eexists]. cbn [scan_of KeyRange.limit KeyRange.reverse].
  destruct (scan_lists m A q es Hid Hq Hkeys Htab Hs Hes) as (l & -> & Hl). split; [done|]. left. by exists l.
Qed.

(** Anything but success, and not for want of uniqueness. *)
Definition failed {X} (r : idx_result X) : Prop := match r with Ok _ | Err (IdxUniqueViolation _) => False | _ => True end.

Lemma failed_match {X} (r : idx_result X) (P : X -> Prop) (U : string -> Prop) (Q : Prop) : failed r -> Q -> match r with Ok a => P a | Err (IdxUniqueViolation msg) => U msg | _ => Q end.
Proof using Type. destruct r as [a|[]| |]; done. Qed.

Lemma write_wal_frame o x : let (r, x') := PersistentIndexStore.write_wal o x in ((exists lsn, r = Ok lsn) \/ failed r) /\
  PersistentIndexStore.config x' = PersistentIndexStore.config x /\ PersistentIndexStore.store x' = PersistentIndexStore.store x /\ PersistentIndexStore.cache x' = PersistentIndexStore.cache x.
Proof using Type.
  unfold PersistentIndexStore.write_wal. destruct (PersistentIndexStore.wal x) as [lm|]; [|split; [left; by eexists|done]]. destruct (bin_to o) as [payload|]; [|split; [by right|done]]. unfold bind, PersistentIndexStore.on_log.
  destruct (WriteAheadLogWriter.append _ _ _) as [[lsn|err| |] seg]; (split; [|done]); [left; by eexists|by right..].
Qed.

Lemma table_insert m A e b : table_of m A -> entry_ok e -> decodes b e ->
  table_of (<[key_of (indexed_value e) (primary_key e) := b]> m) (<[(indexed_value e, primary_key e) := included_columns e]> A).
Proof using Type.
  intros [Hf Hb] Hok Hd. split.
  - intros v pk inc HA. destruct (decide ((v, pk) = (indexed_value e, primary_key e))) as [[= -> ->]|Hne].
    + rewrite lookup_insert_eq in HA. injection HA as <-. destruct e as [v pk inc]. cbn in *. split; [done|]. exists b. by rewrite lookup_insert_eq.
    + rewrite lookup_insert_ne in HA by done. destruct (Hf v pk inc HA) as (Hok' & b' & Hb' & Hd'). split; [done|]. exists b'. rewrite lookup_insert_ne; [done|]. intros Heq.
      destruct Hok as [Hl _], Hok' as [Hl' _]. apply key_of_inj in Heq as [Heq1 Heq2]; [congruence|cbn in *; congruence].
  - intros k Hk Hp. destruct (decide (k = key_of (indexed_value e) (primary_key e))) as [->|Hne].
    + exists (indexed_value e), (primary_key e). split; [|done]. rewrite lookup_insert_eq. by eexists.
    + rewrite lookup_insert_ne in Hk by done. destruct (Hb k Hk Hp) as (v & pk & HA & ->). exists v, pk. split; [|done]. apply lookup_insert_is_Some. destruct (decide ((indexed_value e, primary_key e) = (v, pk))); [by left|by right].
Qed.

Lemma table_delete m A v pk : table_of m A -> is_Some (A !! (v, pk)) -> table_of (base.delete (key_of v pk) m) (base.delete (v, pk) A).
Proof using Type.
  intros [Hf Hb] [inc0 H0']. destruct (Hf v pk inc0 H0') as ((Hl & _) & _). cbn in Hl. split.
  - intros v' pk' inc HA. destruct (decide ((v, pk) = (v', pk'))) as [[= <- <-]|Hne]; [by rewrite lookup_delete_eq in HA|]. rewrite lookup_delete_ne in HA by done. destruct (Hf v' pk' inc HA) as (Hok' & b' & Hb' & Hd').
    split; [done|]. exists b'. rewrite lookup_delete_ne; [done|]. intros Heq. destruct Hok' as [Hl' _]. apply key_of_inj in Heq as [Heq1 Heq2]; [congruence|cbn in *; congruence].
  - intros k Hk Hp. destruct (decide (key_of v pk = k)) as [<-|Hne]; [rewrite lookup_delete_eq in Hk; by destruct Hk|]. rewrite lookup_delete_ne in Hk by done. destruct (Hb k Hk Hp) as (v' & pk' & HA & ->).
    exists v', pk'. split; [|done]. rewrite lookup_delete_ne; [done|]. intros [= <- <-]. done.
Qed.

Lemma key_of_ok e : entry_ok e -> byte_list (key_of (indexed_value e) (primary_key e)) /\ (4 <= length (key_of (indexed_value e) (primary_key e)))%nat.
Proof using Type.
  intros (_ & Hv & Hpk & _). unfold key_of. split; [|rewrite length_app, length_be_bytes; lia]. apply Forall_app. split; [apply be_bytes_range|by apply Forall_app].
Qed.

Lemma write_entry_rep now e x A : entry_ok e -> rep x A ->
  let (r, x') := IndexBase.write_index_entry now e x in
  (r = Ok tt /\ rep x' (<[(indexed_value e, primary_key e) := included_columns e]> A)) \/ (failed r /\ rep x' A).
Proof using All.
  intros Hok ((Hsd & Hi) & m & Hm & Hkeys & Hc & Htab). unfold IndexBase.write_index_entry, Serialization.serialize_entry.
  destruct (bin_to (Serialization.new now (indexed_value e) (primary_key e) (included_columns e))) as [b|] eqn:Eb; cbn [ok_or]; [|right; split; [done|]; split; [done|]; by exists m].
  assert (Hd : decodes b e) by (exists now; by apply bin_law). unfold PersistentIndexStore.write_entry, bind.
  pose proof (write_wal_frame (WalInsert (indexed_value e) (primary_key e) b) x) as Hfr. destruct (PersistentIndexStore.write_wal _ x) as [[lsn|err| |] x1]; destruct Hfr as (Hres & Hcfg & Hst & Hca);
    [|right; split; [by destruct Hres as [[? ?]|?]|]; split; [by rewrite <- Hcfg in Hsd, Hi|]; exists m; by rewrite Hst, Hca..].
  unfold PersistentIndexStore.on_store, PersistentIndexStore.build_key, PersistentIndexStore.id_bytes. rewrite Hst, Hsd, Hi. fold (key_of (indexed_value e) (primary_key e)).
  pose proof (put_law (PersistentIndexStore.store x) sd m (key_of (indexed_value e) (primary_key e)) b Hm) as Hput. destruct (engine_put _ sd _ b) as [r e1].
  destruct Hput as [[-> Hm1]|(err & -> & Hm1)]; [left|right]; (split; [done|]); (split; [unfold here; cbn; by rewrite Hcfg|]).
  - eexists. split; [exact Hm1|]. cbn [PersistentIndexStore.with_store PersistentIndexStore.with_cache PersistentIndexStore.cache]. rewrite Hca. split; [|split; [|by apply table_insert]].
    + intros k [Hk|Hk]%lookup_insert_is_Some'; [subst k; by apply key_of_ok|by apply Hkeys].
    + etransitivity; [apply cache_put_law|]. by apply insert_mono.
  - exists m. cbn [PersistentIndexStore.with_store PersistentIndexStore.cache]. by rewrite Hca.
Qed.

Lemma delete_entry_rep v pk x A : is_Some (A !! (v, pk)) -> rep x A ->
  let (r, x') := PersistentIndexStore.delete_entry v pk x in ((exists b, r = Ok b) /\ rep x' (base.delete (v, pk) A)) \/ (failed r /\ rep x' A).
Proof using All.
  intros HA ((Hsd & Hi) & m & Hm & Hkeys & Hc & Htab). unfold PersistentIndexStore.delete_entry, bind.
  pose proof (write_wal_frame (WalDelete v pk) x) as Hfr. destruct (PersistentIndexStore.write_wal _ x) as [[lsn|err| |] x1]; destruct Hfr as (Hres & Hcfg & Hst & Hca);
    [|right; split; [by destruct Hres as [[? ?]|?]|]; split; [by rewrite <- Hcfg in Hsd, Hi|]; exists m; by rewrite Hst, Hca..].
  unfold PersistentIndexStore.on_store, PersistentIndexStore.build_key, PersistentIndexStore.id_bytes. cbn [PersistentIndexStore.with_cache PersistentIndexStore.store PersistentIndexStore.config].
  rewrite Hst, Hcfg, Hsd, Hi, Hca. fold (key_of v pk).
  pose proof (delete_law (PersistentIndexStore.store x) sd m (key_of v pk) Hm) as Hdel. destruct (engine_delete _ sd _) as [r e1].
  destruct Hdel as [[-> Hm1]|(err & -> & Hm1)]; [left|right].
  - split; [by eexists|]. split; [unfold here; cbn; by rewrite Hcfg|]. eexists. split; [exact Hm1|]. cbn [PersistentIndexStore.with_store PersistentIndexStore.with_cache PersistentIndexStore.cache]. rewrite cache_pop_law. split; [|split; [by apply delete_mono|by apply table_delete]].
    intros k Hk. apply Hkeys. destruct Hk as [b Hk]. apply lookup_delete_Some in Hk as [_ Hk]. by exists b.
  - split; [done|]. split; [unfold here; cbn; by rewrite Hcfg|]. exists m. cbn [PersistentIndexStore.with_store PersistentIndexStore.with_cache PersistentIndexStore.cache]. rewrite cache_pop_law. split_and!; try done. etransitivity; [apply delete_subseteq|done].
Qed.

(** *** Indexes *)

(** One row per value. *)
Definition one_row A : Prop := forall v p1 p2, is_Some (A !! (v, p1)) -> is_Some (A !! (v, p2)) -> p1 = p2.

Definition index_ok (ix : index) A : Prop := rep (BTreeIndex.storage ix) A /\ (BTreeIndex.is_unique ix = true -> one_row A).

Lemma query_index q (ix : index) A : id_ok -> query_ok q -> index_ok ix A ->
  let (r, ix') := BTreeIndex.query q ix in index_ok ix' A /\ BTreeIndex.is_unique ix' = BTreeIndex.is_unique ix /\ ((exists l, r = Ok l /\ lists q A l) \/ exists msg, r = Err (IdxStorage msg)).
Proof using All.
  intros Hid Hq [Hrep Hu]. unfold BTreeIndex.query, BTreeIndex.on_storage. pose proof (scan_entries_rep q _ A Hid Hq Hrep) as Hs.
  destruct (IndexBase.scan_entries _ _ _ _ (BTreeIndex.storage ix)) as [r st]. destruct Hs as [Hrep' Hres]. done.
Qed.

Lemma exact_ok v : length v = w -> query_ok (IndexQuery.with_limit (IndexQuery.exact v) 1).
Proof using Type. intros Hv. unfold query_ok. cbn. by rewrite bool_decide_eq_true_2 by apply bytes_le_refl. Qed.

(** The entry that a query for one value finds first. *)
Lemma exact_found v A l : lists (IndexQuery.with_limit (IndexQuery.exact v) 1) A l ->
  match l with
  | [] => forall pk, A !! (v, pk) = None
  | e :: _ => indexed_value e = v /\ is_Some (A !! (v, primary_key e))
  end.
Proof using Type.
  intros (es & _ & Hes & ->). cbn. destruct es as [|e es]; cbn [take].
  - intros pk. destruct (A !! (v, pk)) as [inc|] eqn:EA; [|done]. exfalso. apply (not_elem_of_nil (Entry v pk inc)), Hes. split; [done|]. split; apply bytes_le_refl.
  - destruct (proj1 (Hes e)) as [HA [Hle1 Hle2]]; [by left|]. cbn in Hle1, Hle2. assert (Hv : indexed_value e = v) by by apply key_le_antisym. rewrite <- Hv. split; [done|by eexists].
Qed.

(** What an insertion checks in a unique index. *)
Lemma taken_row l e A : one_row A -> lists (IndexQuery.with_limit (IndexQuery.exact (indexed_value e)) 1) A l ->
  if IndexBase.taken l e then exists pk, pk <> primary_key e /\ is_Some (A !! (indexed_value e, pk)) else forall pk, is_Some (A !! (indexed_value e, pk)) -> pk = primary_key e.
Proof using Type.
  intros Hone Hl. apply exact_found in Hl. destruct l as [|e' l]; cbn [IndexBase.taken].
  - intros pk [inc HA]. by rewrite Hl in HA.
  - destruct Hl as [_ Hsome]. case_bool_decide as Hne; [by exists (primary_key e')|]. intros pk Hpk. rewrite <- Hne. exact (Hone _ _ _ Hpk Hsome).
Qed.

Lemma one_row_insert e A : one_row A -> (forall pk, is_Some (A !! (indexed_value e, pk)) -> pk = primary_key e) -> one_row (<[(indexed_value e, primary_key e) := included_columns e]> A).
Proof using Type.
  intros Hone Hfree v p1 p2 H1' H2'. rewrite lookup_insert_is_Some' in H1', H2'. destruct H1' as [[= Hv1 <-]|H1'], H2' as [[= Hv2 <-]|H2']; try done.
  - symmetry. apply Hfree. by rewrite Hv1.
  - apply Hfree. by rewrite Hv2.
  - exact (Hone v p1 p2 H1' H2').
Qed.

Lemma insert_index now e (ix : index) A : id_ok -> entry_ok e -> index_ok ix A ->
  let (r, ix') := BTreeIndex.insert now e ix in
  BTreeIndex.is_unique ix' = BTreeIndex.is_unique ix /\
  match r with
  | Ok _ => index_ok ix' (<[(indexed_value e, primary_key e) := included_columns e]> A) /\ (BTreeIndex.is_unique ix = true -> forall pk, is_Some (A !! (indexed_value e, pk)) -> pk = primary_key e)
  | Err (IdxUniqueViolation _) => index_ok ix' A /\ BTreeIndex.is_unique ix = true /\ exists pk, pk <> primary_key e /\ is_Some (A !! (indexed_value e, pk))
  | _ => index_ok ix' A
  end.
Proof using All.
  intros Hid Hok Hix. unfold BTreeIndex.insert. destruct (BTreeIndex.is_unique ix) eqn:Eu; unfold bind at 1.
  - pose proof (query_index (IndexQuery.with_limit (IndexQuery.exact (indexed_value e)) 1) ix A Hid (exact_ok _ (proj1 Hok)) Hix) as Hq. unfold bind.
    destruct (BTreeIndex.query _ ix) as [r ix1]. destruct Hq as (Hix1 & Hu1 & [(l & -> & Hl)|[err ->]]); [|split; [congruence|done]]. cbn [ret].
    pose proof (taken_row l e A (proj2 Hix Eu) Hl) as Ht. destruct (IndexBase.taken l e); [split; [cbn; congruence|done]|].
    unfold BTreeIndex.on_storage. pose proof (write_entry_rep now e (BTreeIndex.storage ix1) A Hok (proj1 Hix1)) as Hw. destruct (IndexBase.write_index_entry now e _) as [rw st]. split; [cbn; congruence|].
    destruct Hw as [[-> Hw]|[Hf Hw]]; [|apply failed_match; [done|]; split; [done|]; apply Hix1]. split; [|done]. split; [done|]. intros _. by apply one_row_insert; [apply (proj2 Hix)|].
  - cbn [ret]. unfold BTreeIndex.on_storage. pose proof (write_entry_rep now e (BTreeIndex.storage ix) A Hok (proj1 Hix)) as Hw. destruct (IndexBase.write_index_entry now e _) as [rw st]. split; [done|].
    destruct Hw as [[-> Hw]|[Hf Hw]]; [|apply failed_match; [done|]; split; [done|]; apply Hix]. split; [|done]. split; [done|]. cbn. congruence.
Qed.

Lemma all_ok : query_ok IndexQuery.all.
Proof using Type. done. Qed.

(** The first entry of a row is the one with the least value. *)
Lemma first_least l A pk i e : lists IndexQuery.all A l -> (forall v p inc, A !! (v, p) = Some inc -> length v = w) -> list_find (fun e => primary_key e = pk) l = Some (i, e) -> remove_row pk A = base.delete (indexed_value e, pk) A /\ is_Some (A !! (indexed_value e, pk)).
Proof using Type.
  intros (es & Hs & Hes & ->) Hw Hf. cbn in Hf. apply list_find_Some in Hf as (Hi & Hpk & Hfirst). assert (HA : A !! (indexed_value e, pk) = Some (included_columns e)).
  { rewrite <- Hpk. apply Hes. by apply list_elem_of_lookup_2 in Hi. }
  split; [|by eexists]. apply remove_row_some; [by eexists|]. intros u [inc Hu]. assert (Hin : Entry u pk inc ∈ es) by (apply Hes; done).
  apply list_elem_of_lookup in Hin as [j Hj]. destruct (decide (j < i)%nat) as [Hlt|Hge]; [by destruct (Hfirst j (Entry u pk inc) Hj Hlt)|].
  destruct (decide (j = i)) as [->|Hne]; [rewrite Hi in Hj; injection Hj as ->; apply bytes_le_refl|].
  assert (Hkey : bytes_lt (entry_key e) (entry_key (Entry u pk inc))).
  { rewrite <- (take_drop j es) in Hs. apply sorted_by_app in Hs as (_ & _ & Hs). apply Hs; [apply list_elem_of_lookup; exists i; rewrite lookup_take_lt; [done|lia]|apply list_elem_of_lookup; exists 0%nat; by rewrite lookup_drop, Nat.add_0_r]. }
  unfold entry_key in Hkey. cbn in Hkey. apply bytes_lt_same in Hkey; [|by rewrite (Hw _ _ _ HA), (Hw _ _ _ Hu)]. rewrite bytes_le_lt_eq. tauto.
Qed.

Lemma delete_index pk (ix : index) A : id_ok -> index_ok ix A ->
  let (r, ix') := BTreeIndex.delete pk ix in
  BTreeIndex.is_unique ix' = BTreeIndex.is_unique ix /\ match r with Ok _ => index_ok ix' (remove_row pk A) | _ => index_ok ix' A end.
Proof using All.
  intros Hid Hix. unfold BTreeIndex.delete. unfold bind at 1. pose proof (query_index IndexQuery.all ix A Hid all_ok Hix) as Hq. destruct (BTreeIndex.query IndexQuery.all ix) as [r ix1].
  destruct Hq as (Hix1 & Hu1 & [(l & -> & Hl)|[err ->]]); [|done]. unfold BTreeIndex.on_storage, IndexBase.delete_first.
  assert (Hw : forall v p inc, A !! (v, p) = Some inc -> length v = w).
  { intros v p inc HA. destruct Hix as ((_ & m & _ & _ & _ & Htab) & _). by destruct (proj1 Htab v p inc HA) as ((Hl' & _) & _). }
  assert (Hsub : forall A', (forall v p, is_Some (A' !! (v, p)) -> is_Some (A !! (v, p))) -> (BTreeIndex.is_unique ix1 = true -> one_row A')).
  { intros A' Hsub Hu v p1 p2 H1' H2'. exact (proj2 Hix1 Hu v p1 p2 (Hsub _ _ H1') (Hsub _ _ H2')). }
  destruct (list_find _ l) as [[i e]|] eqn:Ef.
  - destruct (first_least l A pk i e Hl Hw Ef) as [-> HA]. unfold bind. pose proof (delete_entry_rep (indexed_value e) pk (BTreeIndex.storage ix1) A HA (proj1 Hix1)) as Hd.
    destruct (PersistentIndexStore.delete_entry _ _ _) as [rd st]. destruct Hd as [[[b ->] Hd]|[Hf Hd]].
    + split; [done|]. split; [done|]. apply Hsub. intros v p [inc Hl']. apply lookup_delete_Some in Hl' as [_ Hl']. by exists inc.
    + destruct rd as [b|err| |]; [done|..]; (split; [done|]; split; [done|]; apply Hix1).
  - cbn [ret]. split; [done|]. rewrite remove_row_none; [split; [apply Hix1|apply Hix1]|]. intros v. destruct (A !! (v, pk)) as [inc|] eqn:EA; [|done].
    apply list_find_None in Ef. destruct Hl as (es & _ & Hes & ->). cbn in Ef. rewrite Forall_forall in Ef. by destruct (Ef (Entry v pk inc) (proj2 (Hes (Entry v pk inc)) (conj EA (conj I I)))).
Qed.

Lemma optimize_index (ix : index) A : index_ok ix A -> let (r, ix') := BTreeIndex.optimize ix in index_ok ix' A /\ BTreeIndex.is_unique ix' = BTreeIndex.is_unique ix.
Proof using All.
  intros [(Hh & m & Hm & Hk & Hc & Ht) Hu]. unfold BTreeIndex.optimize, BTreeIndex.on_storage, IndexBase.optimize, bind, PersistentIndexStore.flush.
  assert (Hclear : forall c', cache_map c' ⊆ m -> forall lg, rep (PersistentIndexStore.mk (PersistentIndexStore.config (BTreeIndex.storage ix)) (PersistentIndexStore.store (BTreeIndex.storage ix)) lg c') A).
  { intros c' Hc' lg. split; [done|]. by exists m. }
  assert (Hempty : forall c' : C, cache_map (cache_clear c') ⊆ m) by (intros c'; rewrite cache_clear_law; apply map_empty_subseteq).
  destruct (BTreeIndex.storage ix) as [cf st lg ca] eqn:Est. cbn [PersistentIndexStore.wal]. destruct lg as [lm|].
  - unfold PersistentIndexStore.on_log. destruct (WriteAheadLogFile.flush _) as [[u|err| |] seg]; (split; [|done]); (split; [|done]); apply Hclear; first [exact Hc|apply Hempty].
  - split; [|done]. split; [|done]. apply Hclear, Hempty.
Qed.

(** The indexes that operations reach from an index over a shard that has no
    entries of it, with the table they stand for.  An operation that fails
    leaves the table as it is. *)
Inductive idx_reaches : index -> Table -> Prop :=
| idx_new r st wl c m : contents st sd = Some m -> keys_ok m -> (forall k, is_Some (m !! k) -> ~ be_bytes 4 id `prefix_of` k) -> shard_id c = sd -> index_id c = id ->
    idx_reaches (BTreeIndex.new r st wl c) ∅
| idx_insert ix A now e r ix' : idx_reaches ix A -> entry_ok e -> BTreeIndex.insert now e ix = (r, ix') ->
    idx_reaches ix' (match r with Ok _ => <[(indexed_value e, primary_key e) := included_columns e]> A | _ => A end)
| idx_delete ix A pk r ix' : idx_reaches ix A -> BTreeIndex.delete pk ix = (r, ix') -> idx_reaches ix' (match r with Ok _ => remove_row pk A | _ => A end)
| idx_query ix A q r ix' : idx_reaches ix A -> query_ok q -> BTreeIndex.query q ix = (r, ix') -> idx_reaches ix' A
| idx_optimize ix A r ix' : idx_reaches ix A -> BTreeIndex.optimize ix = (r, ix') -> idx_reaches ix' A.

Lemma reaches_index ix A : id_ok -> idx_reaches ix A -> index_ok ix A.
Proof using All.
  intros Hid Hr. induction Hr as [r st wl c m Hm Hk Hfree Hsd Hi|ix A now e r ix' _ IH Hok Hop|ix A pk r ix' _ IH Hop|ix A q r ix' _ IH Hq Hop|ix A r ix' _ IH Hop].
  - split; [|by intros _ v p1 p2 [? ?]]. split; [done|]. exists m. split; [done|]. split; [done|]. cbn. rewrite cache_new_law. split; [apply map_empty_subseteq|]. split; [by intros v pk inc ?|]. intros k Hk' Hp. by destruct (Hfree k Hk').
  - pose proof (insert_index now e ix A Hid Hok IH) as Hi. rewrite Hop in Hi. destruct Hi as [_ Hi]. destruct r as [u|[]| |]; try done; by destruct Hi.
  - pose proof (delete_index pk ix A Hid IH) as Hi. rewrite Hop in Hi. destruct Hi as [_ Hi]. by destruct r.
  - pose proof (query_index q ix A Hid Hq IH) as Hi. rewrite Hop in Hi. apply Hi.
  - pose proof (optimize_index ix A IH) as Hi. rewrite Hop in Hi. apply Hi.
Qed.


(** A hash index refuses the query for all entries that its own [delete] and
    [get] make: nothing can be deleted from it, or found by its row. *)
Lemma hash_delete_fails pk (ix : HashIndex.t E C FS F) : HashIndex.delete pk ix = (Err (IdxQueryFailed "Hash indexes only support exact match queries"), ix) /\
  HashIndex.get pk ix = (Err (IdxQueryFailed "Hash indexes only support exact match queries"), ix).
Proof using Type. done. Qed.
End index.
