(* ===== verification/IdxDemo.v ===== *)
(** * Indexes over the in-memory store

    The in-memory store, a small LRU cache and a numbering of values satisfy what
    an index relies on; concrete indexes, and the inputs on which an index
    answers something else than its table. *)

From Stdlib Require Import ZArith Lia.
From stdpp Require Import gmap option strings base list countable.
From S2P Require Import Prelude Security BTreeError VfsFile Integrity Wal KvtRange KvtMemory KvmContext KvmRequest KvmObjects KvmDemo IdxStore IdxSpec.

Open Scope Z_scope.

(** ** The interfaces *)

#[export] Instance mem_scan_engine : ScanEngine mem := {
  engine_exists e s k := (MemoryKeyValueShardStore.exists_ e s k, e);
  engine_scan e s q := ((let! it := MemoryKeyValueShardStore.scan e s q in Ok (MemoryKeyValueIterator.items it)), e) }.

#[export] Instance mem_scan_laws : ScanLaws mem.
Proof.
  split.
  - intros e s m k Hm. cbn in *. unfold MemoryKeyValueShardStore.exists_, MemoryKeyValueShardStore.get_shard. rewrite Hm. cbn. by split; [|left].
  - intros e s m q Hm Hv. cbn in *. split; [done|]. left. unfold MemoryKeyValueShardStore.scan, MemoryKeyValueShardStore.get_shard. rewrite Hm. cbn [ok_or rbind].
    destruct (scan_items_spec m q Hv) as (es & -> & Hs & Hes). exists es. done.
Qed.

(** The pairs, the last used first, and the capacity. *)
Record lru : Type := Lru { lru_pairs : list (list Z * list Z); lru_cap : nat }.

Definition others (k : list Z) (l : list (list Z * list Z)) : list (list Z * list Z) := filter (fun b => b.1 <> k) l.

#[export] Instance lru_cache : LruCache lru := {
  cache_new n := Lru [] n;
  cache_put c k v := Lru (take (lru_cap c) ((k, v) :: others k (lru_pairs c))) (lru_cap c);
  cache_get c k := match (list_to_map (lru_pairs c) : gmap _ _) !! k with
                   | Some v => (Some v, Lru ((k, v) :: others k (lru_pairs c)) (lru_cap c))
                   | None => (None, c)
                   end;
  cache_contains c k := bool_decide (is_Some ((list_to_map (lru_pairs c) : gmap _ (list Z)) !! k));
  cache_pop c k := Lru (others k (lru_pairs c)) (lru_cap c);
  cache_clear c := Lru [] (lru_cap c);
  cache_len c := length (lru_pairs c);
  cache_cap := lru_cap }.

Lemma others_map k l : list_to_map (others k l) = base.delete k (list_to_map l : gmap (list Z) (list Z)).
Proof.
  induction l as [|[a b] l IH]; [symmetry; apply delete_empty|]. unfold others in *. rewrite filter_cons. cbn [fst]. destruct (decide (a <> k)) as [Hne|Heq].
  - rewrite !list_to_map_cons, IH. by rewrite delete_insert_ne.
  - apply dec_stable in Heq as ->. rewrite list_to_map_cons, delete_insert_eq. exact IH.
Qed.

#[export, refine] Instance lru_laws : CacheLaws lru := { cache_map c := list_to_map (lru_pairs c) }.
Proof.
  - done.
  - intros c k v. cbn [cache_put lru_cache lru_pairs]. rewrite <- insert_delete_eq, <- others_map, <- list_to_map_cons. rewrite <- (take_drop (lru_cap c) ((k, v) :: others k (lru_pairs c))) at 2. rewrite list_to_map_app. apply map_union_subseteq_l.
  - intros c k. cbn [cache_get lru_cache]. destruct (list_to_map (lru_pairs c) !! k) as [v|] eqn:E; [|done]. split; [done|]. cbn [snd lru_pairs]. rewrite list_to_map_cons, others_map. by apply insert_delete_id.
  - done.
  - intros c k. apply others_map.
  - done.
Defined.

#[export] Instance entry_bincode : Bincode SerializedIndexEntry := {|
  bin_to e := Some (number (se_version e, se_indexed_value e, se_primary_key e, se_included_columns e, (se_created_at e, se_modified_at e)));
  bin_from b := '(v, iv, pk, inc, (c, m)) ← unnumber b; Some (SEntry v iv pk inc c m) |}.

#[export] Instance entry_bincode_laws : BincodeLaws SerializedIndexEntry.
Proof. intros [v iv pk inc c m] b [= <-]. cbn [bin_from entry_bincode]. by rewrite unnumber_number. Qed.

(** The log is not used here. *)
#[export] Instance wal_bincode : Bincode WalOperation := {| bin_to _ := Some []; bin_from _ := None |}.

#[export] Instance no_files : WriteAheadLogManager.FileSystemOps unit MemoryFile.t := {|
  WriteAheadLogManager.fs_exists _ _ := Ok true;
  WriteAheadLogManager.fs_create_directory_all fs _ := (Ok tt, fs);
  WriteAheadLogManager.fs_open_file _ _ := Err PathMissing;
  WriteAheadLogManager.fs_create_file fs p := (Ok (MemoryFile.new p), fs);
  WriteAheadLogManager.fs_remove_file fs _ := (Ok tt, fs)
|}.

(** ** An index *)

Module IndexDemo.
Import PolyHash.
#[local] Existing Instances poly_hashes poly_laws.

Abbreviation index := (BTreeIndex.t mem lru unit MemoryFile.t).

Definition config : PersistenceConfig := PConfig 3 42 2 Buffered false.
Definition record (ty : IndexType) : IndexRecord := IndexRecordMk 42 "by_value" 1 ty 0 0 ["value"%string] None ∅ ∅ Building Single.

(** The shard holds an entry of index 41 already. *)
Definition shards : mem := MemoryKeyValueShardStore.mk {[ 3 := {[ be_bytes 4 41 ++ [1; 2] := [0] ]} ]}.
Definition i0 (ty : IndexType) : index := BTreeIndex.new (record ty) shards None config.

Definition add (e : IndexEntry) (ix : index) : index := (BTreeIndex.insert 1700 e ix).2.

(** The shard with two entries of an index on values of one byte. *)
Definition ea : IndexEntry := Entry [7] [20] (Some [1]).
Definition eb : IndexEntry := Entry [5] [30] None.
Definition i2 : index := add eb (add ea (i0 Unique)).
Definition t2 : Table := <[([5], [30]) := None]> (<[([7], [20]) := Some [1]]> ∅).

Lemma ea_ok : entry_ok 1 ea.
Proof. by repeat split; repeat constructor. Qed.
Lemma eb_ok : entry_ok 1 eb.
Proof. by repeat split; repeat constructor. Qed.

Lemma i2_reached : idx_reaches 3 42 1 i2 t2.
Proof.
  refine (idx_insert 3 42 1 (add ea (i0 Unique)) _ 1700 eb (Ok tt) i2 _ eb_ok _); [|by vm_compute].
  refine (idx_insert 3 42 1 (i0 Unique) ∅ 1700 ea (Ok tt) (add ea (i0 Unique)) _ ea_ok _); [|by vm_compute].
  apply (idx_new 3 42 1 (record Unique) shards None config {[ be_bytes 4 41 ++ [1; 2] := [0] ]}); try done.
  - intros k [b Hk]. apply lookup_singleton_Some in Hk as [<- _]. split; [by repeat constructor|vm_compute; lia].
  - intros k [b Hk]. apply lookup_singleton_Some in Hk as [<- _]. intros Hp. by apply (bool_decide_pack _) in Hp.
Qed.

Definition above : IndexQuery.t := IndexQuery.range (KeyRange.Included [4]) KeyRange.Unbounded.

Lemma id_42 : id_ok 42.
Proof. unfold id_ok. lia. Qed.

Lemma above_ok : query_ok 1 above.
Proof. by repeat split. Qed.

Lemma i2_unique : BTreeIndex.is_unique i2 = true.
Proof. vm_compute. reflexivity. Qed.

Lemma i2_answers : (BTreeIndex.query above i2).1 = Ok [eb; ea].
Proof. vm_compute. reflexivity. Qed.


(** ** Where the index is not its table *)

(** A value and a key are joined without a mark between them. *)
Lemma keys_collide : (BTreeIndex.query IndexQuery.all (add (Entry [1; 2] [3] None) (add (Entry [1] [2; 3] None) (i0 Secondary)))).1 = Ok [Entry [1; 2] [3] None].
Proof. by vm_compute. Qed.

(** A value is taken when a longer one begins with it, and it is not when the key
    of its row begins with 255. *)
Lemma longer_value_taken : (BTreeIndex.insert 1700 (Entry [1] [8] None) (add (Entry [1; 2] [9] None) (i0 Unique))).1 = Err (IdxUniqueViolation "Duplicate indexed value: ").
Proof. by vm_compute. Qed.

Lemma duplicate_accepted : (BTreeIndex.insert 1700 (Entry [1] [255; 2] None) (add (Entry [1] [255; 1] None) (i0 Unique))).1 = Ok tt.
Proof. by vm_compute. Qed.

(** Building a unique index asks for the same row, not for the same value. *)
Lemma build_accepts_duplicates : (BTreeIndex.build (fun _ => 1700) [([8], [1]); ([9], [1])] (i0 Unique)).1 = Ok tt.
Proof. by vm_compute. Qed.

(** An update that is refused has deleted the row. *)
Lemma update_loses_row : let (r, ix) := BTreeIndex.update 1700 ea (Entry [5] [20] None) i2 in
  r = Err (IdxUniqueViolation "Duplicate indexed value: ") /\ (BTreeIndex.query IndexQuery.all ix).1 = Ok [eb].
Proof. by vm_compute. Qed.

(** An excluded start is not excluded. *)
Lemma excluded_start : (BTreeIndex.query (IndexQuery.range (KeyRange.Excluded [5]) KeyRange.Unbounded) i2).1 = Ok [eb; ea].
Proof. by vm_compute. Qed.

(** A row with two values loses one of them on deletion. *)
Lemma second_value_stays : (BTreeIndex.query IndexQuery.all (BTreeIndex.delete [20] (add (Entry [6] [20] None) i2)).2).1 = Ok [eb; ea].
Proof. by vm_compute. Qed.

(** The entries of the last identifier cannot be listed. *)
Lemma last_index_panics : (BTreeIndex.query IndexQuery.all (BTreeIndex.new (record Secondary) shards None (PConfig 3 (2 ^ 32 - 1) 2 Buffered false) : index)).1 = Panic.
Proof. by vm_compute. Qed.
End IndexDemo.
