(* ===== verification/RaftSnapshot.v ===== *)
(** * Snapshots of a shard

    Models nanograph-raft/src/storage/snapshot.rs byte for byte: the file header
    with the metadata of the consensus group, chunks of key-value pairs with
    compression and checksum, the writer, the reader, the validation of a file,
    and the manager that keeps the files of a directory.  A file is anything that
    can be read, written and sought ([Stream]); the metadata and its
    serialization are parameters. *)

From Stdlib Require Import ZArith Lia.
From stdpp Require Import gmap option strings base list.
From S2P Require Import Prelude BTreeError VfsFile Integrity Wal VfsPath VfsMemory VfsCompose KvmContext.

Open Scope Z_scope.

(** ** Streams *)

(** [std::io::ErrorKind], as far as the code tells kinds apart. *)
Inductive StreamError : Type := UnexpectedEof | BadData (msg : string) | OtherError.

Abbreviation stream_result := (result StreamError).

(** [Read], [Write] and [Seek] with the methods the code calls. *)
Class Stream (W : Type) : Type := {
  write_all : list Z -> W -> stream_result unit * W;
  read_exact : nat -> W -> stream_result (list Z) * W;
  seek_start : Z -> W -> stream_result unit * W;
  seek_end : W -> stream_result unit * W;
  flush_stream : W -> stream_result unit * W;
  stream_size : W -> stream_result Z }.

(** Operations with errors over a state. *)
Definition sop (W A : Type) : Type := W -> stream_result A * W.
Definition sret {E W A} (a : A) (w : W) : result E A * W := (Ok a, w).
Definition sfail {E W A} (e : E) (w : W) : result E A * W := (Err e, w).
Definition slift {E W A} (r : result E A) (w : W) : result E A * W := (r, w).
Definition sbind {E W A B} (m : W -> result E A * W) (k : A -> W -> result E B * W) (w : W) : result E B * W :=
  match m w with
  | (Ok a, w) => k a w
  | (Err e, w) => (Err e, w)
  | (Panic, w) => (Panic, w)
  | (Timeout, w) => (Timeout, w)
  end.

Notation "'let+' x := m 'in' k" := (sbind m (fun x => k)) (at level 200, x pattern, right associativity).

(** ** Layout *)

Definition FILE_HEADER_SIZE : nat := 0x65.
Definition FILE_HEADER_MAGIC : Z := 0x534E415053484F54.
Definition FILE_HEADER_VERSION : Z := 1.
Definition CHUNK_HEADER_SIZE : nat := 0x14.
Definition CHUNK_HEADER_MAGIC : Z := 0x43484E4B.

Record SnapshotConfig : Type := SnapConfig { integrity : IntegrityAlgorithm; compression : CompressionAlgorithm; encryption : EncryptionAlgorithm; block_size : Z }.

Definition default_snapshot_config : SnapshotConfig := SnapConfig Crc32c NoCompression NoEncryption (1024 * 1024).

Record SnapshotFileMetadata (Meta : Type) : Type := FileMeta {
  fm_shard_id : Z; fm_created_at : Z; fm_integrity : IntegrityAlgorithm; fm_compression : CompressionAlgorithm; fm_encryption : EncryptionAlgorithm; fm_encryption_key : Z; fm_metadata : Meta }.

#[global] Arguments FileMeta {_} _ _ _ _ _ _ _.
#[global] Arguments fm_shard_id {_} _.
#[global] Arguments fm_created_at {_} _.
#[global] Arguments fm_integrity {_} _.
#[global] Arguments fm_compression {_} _.
#[global] Arguments fm_encryption {_} _.
#[global] Arguments fm_encryption_key {_} _.
#[global] Arguments fm_metadata {_} _.

Record SnapshotChunkMetadata : Type := ChunkMeta { record_count : Z; uncompressed_size : Z; compressed_size : Z }.

Section layout.
Context `{!Integrity.Hashes}.

(** The header of a file whose metadata takes [len] bytes.  The field of the
    shard holds that length. *)
Definition header_fields (c : SnapshotConfig) (len : Z) : list Z :=
  be_bytes 8 FILE_HEADER_MAGIC ++ be_bytes 2 FILE_HEADER_VERSION ++ be_bytes 16 len ++ be_bytes 8 0 ++ be_bytes 4 len ++ be_bytes 8 (Z.of_nat FILE_HEADER_SIZE + len) ++
  [Integrity.as_u8 (integrity c)] ++ [Compression.as_u8 (compression c)] ++ [Encryption.as_u8 (encryption c)] ++ be_bytes 16 0 ++ replicate 32 0.

Definition file_header (c : SnapshotConfig) (len : Z) : list Z := header_fields c len ++ be_bytes 4 (Integrity.checksum Crc32c (header_fields c len ++ replicate 4 0)).

(** [header_checksum == calculated_checksum]: the checksum over the header with
    its own field cleared. *)
Definition header_sound (header : list Z) : bool := field 0x61 0x65 header =? Integrity.checksum Crc32c (take 0x61 header ++ replicate 4 0).

Definition chunk_header (count compressed uncompressed sum : Z) : list Z :=
  be_bytes 4 CHUNK_HEADER_MAGIC ++ be_bytes 4 count ++ be_bytes 4 compressed ++ be_bytes 4 uncompressed ++ be_bytes 4 sum.

End layout.

Definition deserialize_meta {Meta} `{!Codec Meta} (b : list Z) : stream_result Meta := ok_or (from_bytes b) OtherError.

(** ** The writer *)

Module SnapshotWriter.
Section writer.
Context `{!Integrity.Hashes, !Codecs} {Meta : Type} `{!Codec Meta} {W : Type} `{!Stream W}.

Record t : Type := mk { config : SnapshotConfig; record_buffer : list Z; count : Z; writer : W }.

(** Every error is [KeyValueError::StdIoError]. *)
Definition new (c : SnapshotConfig) (m : Meta) (w : W) : kv_result t * W :=
  match (let+ _ := write_all (replicate FILE_HEADER_SIZE 0) in
         let+ meta_bytes := slift (ok_or (to_bytes m) OtherError) in
         let+ _ := write_all meta_bytes in
         let+ _ := seek_start 0 in
         let+ _ := write_all (file_header c (Z.of_nat (length meta_bytes))) in
         seek_end) w with
  | (Ok _, w) => (Ok (mk c [] 0 w), w)
  | (Err _, w) => (Err KvStdIoError, w)
  | (Panic, w) => (Panic, w)
  | (Timeout, w) => (Timeout, w)
  end.

Definition on_writer {A} (m : sop W A) : sop t A := fun x => let '(r, w) := m (writer x) in (r, mk (config x) (record_buffer x) (count x) w).

Definition flush_block : sop t unit := fun x =>
  if count x =? 0 then (Ok tt, x)
  else
    match Compression.compress (compression (config x)) (record_buffer x) with
    | Some compressed =>
        (let+ _ := on_writer (write_all (chunk_header (count x) (Z.of_nat (length compressed)) (Z.of_nat (length (record_buffer x))) (Integrity.checksum (integrity (config x)) compressed))) in
         let+ _ := on_writer (write_all compressed) in
         fun x => (Ok tt, mk (config x) [] 0 (writer x))) x
    | None => (Err OtherError, x)
    end.

Definition encode_kv (key value : list Z) : list Z := le_bytes 4 (Z.of_nat (length key)) ++ le_bytes 4 (Z.of_nat (length value)) ++ key ++ value.

Definition write_kv (key value : list Z) : sop t unit := fun x =>
  let b := record_buffer x ++ encode_kv key value in
  if count x + 1 <? 2 ^ 32 then
    let x := mk (config x) b (count x + 1) (writer x) in
    if block_size (config x) <=? Z.of_nat (length b) then flush_block x else (Ok tt, x)
  else (Panic, mk (config x) b (count x) (writer x)).

(** The loop of [build_snapshot] over the pairs of a shard. *)
Fixpoint write_pairs (kvs : list (list Z * list Z)) : sop t unit :=
  match kvs with
  | [] => sret tt
  | (key, value) :: kvs => let+ _ := write_kv key value in write_pairs kvs
  end.

Definition finish : sop t unit := let+ _ := flush_block in on_writer flush_stream.
End writer.
Arguments t : clear implicits.
End SnapshotWriter.

(** ** The reader *)

Module SnapshotReader.
Section reader.
Context `{!Integrity.Hashes, !Codecs} {Meta : Type} `{!Codec Meta} {W : Type} `{!Stream W}.

(** The block size plays no part. *)
Record t : Type := mk { config : SnapshotConfig; reader : W }.

Definition open (w : W) : stream_result (t * SnapshotFileMetadata Meta) * W :=
  (let+ header := read_exact FILE_HEADER_SIZE in
   if negb (field 0 8 header =? FILE_HEADER_MAGIC) then sfail (BadData "Invalid file header magic")
   else if negb (field 8 0xA header =? FILE_HEADER_VERSION) then sfail (BadData "Invalid file header version")
   else
     let+ meta := read_exact (Z.to_nat (field 0x22 0x26 header)) in
     if negb (header_sound header) then sfail (BadData "Invalid file header checksum")
     else
       let+ m := slift (deserialize_meta meta) in
       let fm := FileMeta (field 0xA 0x1A header) (field 0x1A 0x22 header) (default Crc32c (Integrity.from_u8 (field 0x2E 0x2F header)))
         (default NoCompression (Compression.from_u8 (field 0x2F 0x30 header))) (default NoEncryption (Encryption.from_u8 (field 0x30 0x31 header))) (field 0x31 0x41 header) m in
       fun w => (Ok (mk (SnapConfig (fm_integrity fm) (fm_compression fm) (fm_encryption fm) 0) w, fm), w)) w.

Definition into_inner (x : t) : W := reader x.

(** The loop over the records; a slice out of range panics. *)
Fixpoint decode_records (n : nat) (b : list Z) : stream_result (list (list Z * list Z)) :=
  match n with
  | O => Ok []
  | S n =>
      let! kl := or_panic (slice 0 4 b) in
      let! vl := or_panic (slice 4 8 b) in
      let b := drop 8 b in
      let! key := or_panic (slice 0 (Z.to_nat (le_value kl)) b) in
      let b := drop (Z.to_nat (le_value kl)) b in
      let! val := or_panic (slice 0 (Z.to_nat (le_value vl)) b) in
      let b := drop (Z.to_nat (le_value vl)) b in
      let! rest := decode_records n b in
      Ok ((key, val) :: rest)
  end.

Definition on_reader {A} (m : sop W A) : sop t A := fun x => let '(r, w) := m (reader x) in (r, mk (config x) w).

Definition next_block : sop t (list (list Z * list Z)) := fun x =>
  (let+ header := on_reader (read_exact CHUNK_HEADER_SIZE) in
   if negb (field 0 4 header =? CHUNK_HEADER_MAGIC) then sfail (BadData "Invalid chunk header magic")
   else
     let m := ChunkMeta (field 4 8 header) (field 0xC 0x10 header) (field 8 0xC header) in
     let+ compressed := on_reader (read_exact (Z.to_nat (compressed_size m))) in
     if negb (field 0x10 0x14 header =? Integrity.checksum (integrity (config x)) compressed) then sfail (BadData "Invalid chunk checksum")
     else
       match Compression.decompress (compression (config x)) compressed (Some (uncompressed_size m)) with
       | Some b => slift (decode_records (Z.to_nat (record_count m)) b)
       | None => sfail (BadData "")
       end) x.
End reader.
Arguments t : clear implicits.
End SnapshotReader.

(** ** Validation *)

Module SnapshotData.
Section data.
Context `{!Integrity.Hashes} {Meta : Type} `{!Codec Meta} (snapshot_id_of : Meta -> string) {W : Type} `{!Stream W}.

Record t : Type := mk { path : Path.t; file : W; snapshot_id : string }.

Definition new (p : Path.t) (f : W) (sid : string) : t := mk p f sid.

(** [?] on an I/O error. *)
Definition io {A} (m : sop W A) (w : W) : kv_result A * W :=
  match m w with (Ok a, w) => (Ok a, w) | (Err _, w) => (Err KvStdIoError, w) | (Panic, w) => (Panic, w) | (Timeout, w) => (Timeout, w) end.

Definition then_ {A B} (r : kv_result A * W) (k : A -> W -> kv_result B * W) : kv_result B * W :=
  match r with (Ok a, w) => k a w | (Err e, w) => (Err e, w) | (Panic, w) => (Panic, w) | (Timeout, w) => (Timeout, w) end.

(** One round of the loop; [Ok false]: the end of the file. *)
Definition validate_chunk (alg : IntegrityAlgorithm) (w : W) : kv_result bool * W :=
  match read_exact CHUNK_HEADER_SIZE w with
  | (Ok header, w) =>
      if negb (field 0 4 header =? CHUNK_HEADER_MAGIC) then (Err (KvStorageCorruption "Invalid chunk magic"), w)
      else
        then_ (io (read_exact (Z.to_nat (field 8 0xC header))) w) (fun compressed w =>
          if negb (field 0x10 0x14 header =? Integrity.checksum alg compressed) then (Err (KvStorageCorruption "Invalid chunk checksum"), w) else (Ok true, w))
  | (Err UnexpectedEof, w) => (Ok false, w)
  | (Err _, w) => (Err KvStdIoError, w)
  | (Panic, w) => (Panic, w)
  | (Timeout, w) => (Timeout, w)
  end.

(** [fuel]: more than the number of chunks. *)
Fixpoint validate_chunks (fuel : nat) (alg : IntegrityAlgorithm) (w : W) : kv_result unit * W :=
  match fuel with
  | O => (Timeout, w)
  | S fuel => then_ (validate_chunk alg w) (fun more w => if more then validate_chunks fuel alg w else (Ok tt, w))
  end.

Definition validate_file (fuel : nat) (sid : string) (w : W) : kv_result unit * W :=
  then_ (io (seek_start 0) w) (fun _ w =>
  then_ (io (read_exact FILE_HEADER_SIZE) w) (fun header w =>
  if negb (field 0 8 header =? FILE_HEADER_MAGIC) then (Err KvInvalidSnapshotFormat, w)
  else if negb (field 8 0xA header =? FILE_HEADER_VERSION) then (Err KvUnsupportedSnapshotVersion, w)
  else if negb (header_sound header) then (Err (KvStorageCorruption "Invalid header checksum"), w)
  else
    then_ (io (read_exact (Z.to_nat (field 0x22 0x26 header))) w) (fun meta w =>
      match from_bytes meta with
      | None => (Err (KvDeserialization ""), w)
      | Some m =>
          if decide (snapshot_id_of m = sid) then validate_chunks fuel (default Crc32c (Integrity.from_u8 (field 0x2E 0x2F header))) w
          else (Err (KvStorageCorruption "Snapshot ID mismatch: expected "), w)
      end))).

Definition validate (fuel : nat) (x : t) : kv_result unit * t := let '(r, w) := validate_file fuel (snapshot_id x) (file x) in (r, mk (path x) w (snapshot_id x)).
End data.
Arguments t : clear implicits.
End SnapshotData.

(** ** The manager *)

Module SnapshotManager.
Section manager.
Context `{!Integrity.Hashes, !Codecs} {Meta : Type} `{!Codec Meta} (snapshot_id_of : Meta -> string) {FS D : Type} `{!FileSystem FS D, !Stream (FS * D)}.

(** The file system is shared: it is passed beside the manager. *)
Record t : Type := mk { path : Path.t; config : SnapshotConfig }.

Definition new (p : Path.t) : t := mk p default_snapshot_config.
Definition with_config (p : Path.t) (c : SnapshotConfig) : t := mk p c.

Definition fs_kv {A} (r : fs_result A) : kv_result A := match r with Ok a => Ok a | Err _ => Err KvIoError | Panic => Panic | Timeout => Timeout end.

Definition create_directory_all (p : string) (fs : FS) : kv_result unit * FS := let '(r, fs) := create_directory_all_at fs p in (fs_kv r, fs).

(** [ends_with] and [trim_end_matches], which removes the suffix as often as it is there. *)
Definition extension : string := ".snapshot".
Fixpoint trim_end (fuel : nat) (s : string) : string :=
  match fuel with
  | O => s
  | S fuel =>
      let n := (String.length s - String.length extension)%nat in
      if bool_decide (String.length extension <= String.length s)%nat && bool_decide (String.substring n (String.length extension) s = extension) then trim_end fuel (String.substring 0 n s) else s
  end.
Definition has_extension (s : string) : bool :=
  bool_decide (String.length extension <= String.length s)%nat && bool_decide (String.substring (String.length s - String.length extension) (String.length extension) s = extension).

Definition list_snapshots (x : t) (fs : FS) : kv_result (list string) :=
  let! files := fs_kv (list_directory_at fs (Path.to_string (path x))) in
  Ok (omap (fun f => if has_extension f then Some (trim_end (String.length f) f) else None) files).

Definition snapshot_path (x : t) (sid : string) : Path.t := Path.push (path x) (sid +:+ extension).

Definition delete_snapshot (x : t) (sid : string) (fs : FS) : kv_result unit * FS :=
  let '(r, fs) := remove_file_at fs (Path.to_string (snapshot_path x sid)) in (fs_kv r, fs).

Definition snapshot_data (x : t) (sid : string) (fs : FS) : kv_result (SnapshotData.t (FS * D)) * FS :=
  let p := snapshot_path x sid in
  let '(r, fs) := create_file_at fs (Path.to_string p) in
  (let! h := fs_kv r in Ok (SnapshotData.new p (fs, h) sid), fs).

(** An error of the reader is [KeyValueError::StdIoError]. *)
Definition snapshot_reader (x : t) (sid : string) (fs : FS) : kv_result (SnapshotReader.t (FS * D) * SnapshotFileMetadata Meta) * FS :=
  match fs_kv (open_file_at fs (Path.to_string (snapshot_path x sid))) with
  | Ok h => let '(r, w) := SnapshotReader.open (fs, h) in (match r with Ok a => Ok a | Err _ => Err KvStdIoError | Panic => Panic | Timeout => Timeout end, w.1)
  | Err e => (Err e, fs)
  | Panic => (Panic, fs)
  | Timeout => (Timeout, fs)
  end.

Definition snapshot_writer (x : t) (m : Meta) (fs : FS) : kv_result (SnapshotWriter.t (FS * D)) * FS :=
  let '(r, fs) := create_file_at fs (Path.to_string (snapshot_path x (snapshot_id_of m))) in
  match fs_kv r with
  | Ok h => let '(r, w) := SnapshotWriter.new (config x) m (fs, h) in (r, w.1)
  | Err e => (Err e, fs)
  | Panic => (Panic, fs)
  | Timeout => (Timeout, fs)
  end.
End manager.
End SnapshotManager.
