(* ===== verification/RaftStore.v ===== *)
(** * The storage of a consensus group

    Models nanograph-raft/src/storage/logstore.rs and statestore.rs with the
    operations of types.rs: the log of a group over a write-ahead log, the state
    machine over a shard of any engine, and its snapshots.  The data types of
    openraft that the code only moves around are parameters ([RaftTypes]); the
    structures it takes apart have their public fields.  An error of the
    operating system or of the library is [StreamError]. *)

From Stdlib Require Import ZArith Lia Ascii String.
From stdpp Require Import sorting gmap option strings base list.
From S2P Require Import Prelude BTreeError VfsFile Integrity Wal VfsPath VfsMemory VfsCompose KvtRange KvmContext IdxStore RaftSnapshot.

Open Scope Z_scope.

(** ** Types *)

Inductive Operation : Type :=
| OpPut (key value : list Z)
| OpDelete (key : list Z)
| OpBatch (operations : list Operation).

Record OperationResponse : Type := OpResponse { success : bool; response_value : option (list Z); response_error : option string }.

Definition default_response : OperationResponse := OpResponse true None None.

Record ReplicationConfig : Type := Replication {
  replication_factor : Z; min_sync_replicas : Z; election_timeout_ms : Z; heartbeat_interval_ms : Z; max_append_entries : Z; snapshot_threshold : Z }.

Definition quorum_size (c : ReplicationConfig) : Z := replication_factor c / 2 + 1.

(** The subtraction underflows for less than one replica. *)
Definition tolerable_failures (c : ReplicationConfig) : option Z :=
  if quorum_size c <=? replication_factor c then Some (replication_factor c - quorum_size c) else None.

Definition default_replication_config : ReplicationConfig := Replication 3 2 1000 100 100 10000.

Inductive ConsensusError : Type :=
| NotLeader (shard_id : Z) (leader : option Z)
| NoQuorum (shard_id required available : Z)
| RaftShardNotFound (shard_id : Z)
| NodeNotFound (node_id : Z)
| NodeNotConnected (node_id : Z)
| RaftTimeout (operation : string) (timeout_ms : Z)
| RaftNetwork (message : string)
| RaftStorage (message : string)
| RaftSerialization (message : string)
| RaftConfiguration (message : string)
| RaftProtocol (message : string)
| RaftInternal (message : string).

(** openraft: the identifier of a log entry with its index, votes (the first one
    is [Vote::new(0, NodeId::new(0))]) and memberships. *)
Class RaftTypes : Type := {
  LogId : Type;
  log_index : LogId -> Z;
  Vote : Type;
  first_vote : Vote;
  Membership : Type;
  StoredMembership : Type;
  stored_membership : option LogId -> Membership -> StoredMembership;
  no_membership : StoredMembership }.

Section openraft.
Context `{!RaftTypes}.

Inductive EntryPayload : Type := Blank | Normal (operation : Operation) | MembershipChange (membership : Membership).
Record RaftEntry : Type := LogEntry { log_id : LogId; entry_payload : EntryPayload }.
Record LogState : Type := LogStateMk { ls_last_purged : option LogId; ls_last_log : option LogId }.
Record SnapshotMeta : Type := SMeta { last_log_id : option LogId; last_membership : StoredMembership; snapshot_id : string }.

Inductive ConsensusLogRecord : Type :=
| CommittedRecord (log : LogId)
| EntryRecord (entry : RaftEntry)
| VoteRecord (vote : Vote).

Record RaftState : Type := RState { rs_vote : option Vote; rs_last_applied : option LogId; rs_last_membership : StoredMembership; rs_last_snapshot : option LogId }.

Definition default_raft_state : RaftState := RState None None no_membership None.
End openraft.

(** ** The log *)

(** [Bound<u64>]. *)
Inductive IndexBound : Type := At (i : Z) | Beyond (i : Z) | Open.

(** The pairs of a [BTreeMap] in the order of their keys. *)
Definition index_le {A} (a b : Z * A) : Prop := a.1 <= b.1.

#[global] Instance index_le_dec {A} (a b : Z * A) : Decision (index_le a b).
Proof. unfold index_le. apply _. Defined.

Definition in_order {A} (m : gmap Z A) : list (Z * A) := merge_sort index_le (map_to_list m).

Module ConsensusLogStore.

Section log.
Context `{!RaftTypes, !Integrity.Hashes} {FS F : Type} `{!File F, !WriteAheadLogManager.FileSystemOps FS F, !Codec ConsensusLogRecord}.
Context (segment_path : string -> Z -> string).
Abbreviation manager := (WriteAheadLogManager.t FS F).

Record t : Type := mk {
  last_purged_log_id : option LogId; log_store : manager; index : gmap Z (LogSequenceNumber * list Z); vote : option Vote; committed : option LogId }.

Definition new (m : manager) : t := mk None m ∅ None None.

Definition with_log (x : t) (m : manager) : t := mk (last_purged_log_id x) m (index x) (vote x) (committed x).
Definition with_index (x : t) (ix : gmap Z (LogSequenceNumber * list Z)) : t := mk (last_purged_log_id x) (log_store x) ix (vote x) (committed x).

Definition wal_io {A} (r : wal_result A) : stream_result A := match r with Ok a => Ok a | Err _ => Err OtherError | Panic => Panic | Timeout => Timeout end.

(** A call of the writer of the active segment. *)
Definition on_log {A} (f : WriteAheadLogFile.t F -> wal_result A * WriteAheadLogFile.t F) : sop t A := fun x =>
  let m := log_store x in
  let '(r, w) := f (WriteAheadLogManager.active_segment m) in
  (wal_io r, with_log x (WriteAheadLogManager.mk (WriteAheadLogManager.file_system m) (WriteAheadLogManager.root_folder m) (WriteAheadLogManager.shard_id m) w (WriteAheadLogManager.archived_segments m))).

Definition serialize_record (r : ConsensusLogRecord) : stream_result (list Z) := ok_or (to_bytes r) OtherError.
Definition deserialize_record (b : list Z) : stream_result ConsensusLogRecord := ok_or (from_bytes b) OtherError.

Definition get_log_state (x : t) : stream_result LogState :=
  let! last_log :=
    match last (in_order (index x)) with
    | Some (_, (_, payload)) =>
        let! r := deserialize_record payload in
        Ok (match r with EntryRecord e => Some (log_id e) | _ => last_purged_log_id x end)
    | None => Ok (last_purged_log_id x)
    end in
  Ok (LogStateMk (last_purged_log_id x) last_log).

Definition save_vote (v : Vote) : sop t unit :=
  let+ payload := slift (serialize_record (VoteRecord v)) in
  let+ _ := on_log (fun w => WriteAheadLogWriter.append w (Record_ 1 payload) Sync) in
  fun x => (Ok tt, mk (last_purged_log_id x) (log_store x) (index x) (Some v) (committed x)).

Definition save_committed (c : option LogId) : sop t unit :=
  let+ _ := match c with
            | Some l =>
                let+ payload := slift (serialize_record (CommittedRecord l)) in
                let+ _ := on_log (fun w => WriteAheadLogWriter.append w (Record_ 2 payload) Sync) in
                sret tt
            | None => sret tt
            end in
  fun x => (Ok tt, mk (last_purged_log_id x) (log_store x) (index x) (vote x) c).

Definition read_committed (x : t) : stream_result (option LogId) := Ok (committed x).

(** The three loops of [append]. *)
Fixpoint serialize_entries (es : list RaftEntry) : stream_result (list (LogId * list Z)) :=
  match es with
  | [] => Ok []
  | e :: es => let! payload := serialize_record (EntryRecord e) in let! rest := serialize_entries es in Ok ((log_id e, payload) :: rest)
  end.

Fixpoint append_entries (data : list (LogId * list Z)) : sop t (list LogSequenceNumber) :=
  match data with
  | [] => sret []
  | (_, payload) :: data =>
      let+ lsn := on_log (fun w => WriteAheadLogWriter.append w (Record_ 0 payload) Buffered) in
      let+ lsns := append_entries data in
      sret (lsn :: lsns)
  end.

Fixpoint index_entries (data : list (LogId * list Z)) (lsns : list LogSequenceNumber) (ix : gmap Z (LogSequenceNumber * list Z)) : gmap Z (LogSequenceNumber * list Z) :=
  match data, lsns with
  | (l, payload) :: data, lsn :: lsns => index_entries data lsns (<[log_index l := (lsn, payload)]> ix)
  | _, _ => ix
  end.

(** The callback is called when the result is [Ok]. *)
Definition append (es : list RaftEntry) : sop t unit :=
  let+ data := slift (serialize_entries es) in
  let+ lsns := append_entries data in
  let+ _ := on_log WriteAheadLogFile.sync in
  fun x => (Ok tt, with_index x (index_entries data lsns (index x))).

(** [index + 1] panics on overflow. *)
Definition next_index (l : LogId) : stream_result Z := if log_index l + 1 <? 2 ^ 64 then Ok (log_index l + 1) else Panic.

Definition truncate_after (l : option LogId) : sop t unit :=
  match l with
  | Some l => let+ n := slift (next_index l) in fun x => (Ok tt, with_index x (filter (fun e => e.1 < n) (index x)))
  | None => fun x => (Ok tt, with_index x ∅)
  end.

Definition purge (l : LogId) : sop t unit :=
  let+ n := slift (next_index l) in
  fun x =>
    let rest := filter (fun e => n <= e.1) (index x) in
    let x := mk (Some l) (log_store x) rest (vote x) (committed x) in
    match head (in_order rest) with
    | Some (_, (lsn, _)) => let '(r, m) := WriteAheadLogManager.truncate_before segment_path (log_store x) lsn in (wal_io r, with_log x m)
    | None => (Ok tt, x)
    end.

Definition in_bounds (lo hi : IndexBound) (i : Z) : bool :=
  match lo with At a => a <=? i | Beyond a => a <? i | Open => true end && match hi with At b => i <=? b | Beyond b => i <? b | Open => true end.

(** [BTreeMap::range] panics on a range that ends before it starts. *)
Definition range_panics (lo hi : IndexBound) : bool :=
  match lo, hi with
  | At a, At b | At a, Beyond b | Beyond a, At b => b <? a
  | Beyond a, Beyond b => b <=? a
  | _, _ => false
  end.

Fixpoint entries_of (payloads : list (list Z)) : stream_result (list RaftEntry) :=
  match payloads with
  | [] => Ok []
  | p :: payloads =>
      let! r := deserialize_record p in
      let! es := entries_of payloads in
      Ok (match r with EntryRecord e => e :: es | _ => es end)
  end.

Definition try_get_log_entries (lo hi : IndexBound) (x : t) : stream_result (list RaftEntry) :=
  if range_panics lo hi then Panic else entries_of ((fun e => e.2.2) <$> filter (fun e => in_bounds lo hi e.1) (in_order (index x))).

Definition read_vote (x : t) : stream_result (option Vote) := Ok (Some (default first_vote (vote x))).
End log.
Arguments t {_} _ _.
End ConsensusLogStore.

(** ** The state machine *)

(** [KeyValueShardStore::clear]. *)
Class ClearEngine (E : Type) : Type := { engine_clear : E -> Z -> kv_result unit * E }.

Definition string_bytes (s : string) : list Z := (fun c => Z.of_nat (nat_of_ascii c)) <$> list_ascii_of_string s.
Definition display_shard (shard : Z) : string := "Shard(" +:+ hex 32 shard +:+ ")".

Module ConsensusStateStore.

Section state.
Context `{!RaftTypes, !Integrity.Hashes, !Codecs} {E FS D : Type} `{!Engine E, !ScanEngine E, !ClearEngine E, !FileSystem FS D, !Stream (FS * D)}.
(** [nanograph_util], postcard and serde_json. *)
Context `{!Codec SnapshotMeta, !Codec RaftState, !Codec (string * SnapshotMeta)}.

Record t : Type := mk {
  shard_id : Z; shard_storage : E; snapshot_storage : SnapshotManager.t; files : FS; raft_state : RaftState; snapshot_meta : option (string * SnapshotMeta) }.

Definition new (shard : Z) (e : E) (m : SnapshotManager.t) (fs : FS) : t := mk shard e m fs default_raft_state None.

Definition with_storage (x : t) (e : E) : t := mk (shard_id x) e (snapshot_storage x) (files x) (raft_state x) (snapshot_meta x).
Definition with_files (x : t) (fs : FS) : t := mk (shard_id x) (shard_storage x) (snapshot_storage x) fs (raft_state x) (snapshot_meta x).
Definition with_state (x : t) (s : RaftState) : t := mk (shard_id x) (shard_storage x) (snapshot_storage x) (files x) s (snapshot_meta x).
Definition with_meta (x : t) (m : string * SnapshotMeta) : t := mk (shard_id x) (shard_storage x) (snapshot_storage x) (files x) (raft_state x) (Some m).

Definition cop (A : Type) : Type := t -> result ConsensusError A * t.

Definition state_key (x : t) : list Z := string_bytes ("raft_state_" +:+ display_shard (shard_id x)).
Definition meta_key (x : t) : list Z := string_bytes ("snapshot_meta_" +:+ display_shard (shard_id x)).

(** A call of the engine, its error made into another one. *)
Definition on_shard {X A} (e : X) (f : E -> Z -> kv_result A * E) (x : t) : result X A * t :=
  let '(r, s) := f (shard_storage x) (shard_id x) in
  (match r with Ok a => Ok a | Err _ => Err e | Panic => Panic | Timeout => Timeout end, with_storage x s).

(** [io::Error::new(ErrorKind::Other, e)]. *)
Definition other {X A} (m : t -> result X A * t) : sop t A := fun x =>
  let '(r, x) := m x in (match r with Ok a => Ok a | Err _ => Err OtherError | Panic => Panic | Timeout => Timeout end, x).

Definition load_state : cop unit := fun x =>
  (let+ data := on_shard (RaftStorage "") (fun e s => engine_get e s (state_key x)) in
   match data with
   | Some b => let+ s := slift (ok_or (from_bytes b) (RaftSerialization "")) in fun x => (Ok tt, with_state x s)
   | None => sret tt
   end) x.

Definition save_state : cop unit := fun x =>
  (let+ data := slift (ok_or (to_bytes (raft_state x)) (RaftSerialization "")) in
   on_shard (RaftStorage "") (fun e s => engine_put e s (state_key x) data)) x.

Definition get_value (key : list Z) : cop (option (list Z)) := on_shard (RaftStorage "") (fun e s => engine_get e s key).

Fixpoint apply_operation (o : Operation) : cop OperationResponse :=
  match o with
  | OpPut key value => let+ _ := on_shard (RaftStorage "") (fun e s => engine_put e s key value) in sret default_response
  | OpDelete key => let+ _ := on_shard (RaftStorage "") (fun e s => engine_delete e s key) in sret default_response
  | OpBatch operations =>
      let+ _ := (fix go (os : list Operation) : cop unit := match os with [] => sret tt | o :: os => let+ _ := apply_operation o in go os end) operations in
      sret default_response
  end.

Definition applied_state (x : t) : option LogId * StoredMembership := (rs_last_applied (raft_state x), rs_last_membership (raft_state x)).

Definition set_applied (l : option LogId) (s : RaftState) : RaftState := RState (rs_vote s) l (rs_last_membership s) (rs_last_snapshot s).
Definition set_membership (m : StoredMembership) (s : RaftState) : RaftState := RState (rs_vote s) (rs_last_applied s) m (rs_last_snapshot s).
Definition set_snapshot (l : LogId) (s : RaftState) : RaftState := RState (rs_vote s) (rs_last_applied s) (rs_last_membership s) (Some l).

(** The body of the loop of [apply]. *)
Definition apply_entry (e : RaftEntry) : sop t unit :=
  let+ _ := match entry_payload e with
            | Normal o => let+ _ := other (apply_operation o) in sret tt
            | MembershipChange m => fun x => (Ok tt, with_state x (set_membership (stored_membership (Some (log_id e)) m) (raft_state x)))
            | Blank => sret tt
            end in
  fun x => (Ok tt, with_state x (set_applied (Some (log_id e)) (raft_state x))).

(** The entries come from a stream that may fail. *)
Fixpoint apply_entries (es : list (stream_result RaftEntry)) : sop t unit :=
  match es with
  | [] => sret tt
  | Ok e :: es => let+ _ := apply_entry e in apply_entries es
  | _ :: _ => sfail OtherError
  end.

Definition apply (es : list (stream_result RaftEntry)) : sop t unit := let+ _ := apply_entries es in other save_state.

(** ** Snapshots *)

(** A function of the snapshot manager on the shared files. *)
Definition on_files {A} (f : SnapshotManager.t -> FS -> kv_result A * FS) : sop t A := fun x =>
  let '(r, fs) := f (snapshot_storage x) (files x) in
  (match r with Ok a => Ok a | Err _ => Err OtherError | Panic => Panic | Timeout => Timeout end, with_files x fs).

(** An operation on an open file. *)
Definition on_file {A} (w : FS * D) (m : sop (FS * D) A) : sop t (A * (FS * D)) := fun x =>
  let '(r, w) := m w in (let! a := r in Ok (a, w), with_files x w.1).

Fixpoint put_pairs (kvs : list (list Z * list Z)) : sop t unit :=
  match kvs with
  | [] => sret tt
  | (key, value) :: kvs => let+ _ := on_shard OtherError (fun e s => engine_put e s key value) in put_pairs kvs
  end.

(** The loop over the blocks; [fuel]: more than there are blocks. *)
Fixpoint install_blocks (fuel : nat) (rd : SnapshotReader.t (FS * D)) : sop t unit := fun x =>
  match fuel with
  | O => (Timeout, x)
  | S fuel =>
      let '(r, rd) := SnapshotReader.next_block rd in
      let x := with_files x (SnapshotReader.reader rd).1 in
      match r with
      | Ok kvs => (let+ _ := put_pairs kvs in install_blocks fuel rd) x
      | Err UnexpectedEof => (Ok tt, x)
      | Err e => (Err e, x)
      | Panic => (Panic, x)
      | Timeout => (Timeout, x)
      end
  end.

(** The end of [install_snapshot] and [build_snapshot]. *)
Definition remember (sid : string) (meta : SnapshotMeta) : sop t unit := fun x =>
  (let+ b := slift (ok_or (to_bytes (sid, meta)) OtherError) in
   let+ _ := on_shard OtherError (fun e s => engine_put e s (meta_key x) b) in
   fun x => (Ok tt, with_meta x (sid, meta))) x.

(** The bytes of the file that was received. *)
Definition read_received {V} `{!Stream V} (v : V) : stream_result (list Z) :=
  let! size := stream_size v in
  ((let+ _ := seek_start 0 in read_exact (Z.to_nat size)) v).1.

Definition set_installed (meta : SnapshotMeta) (s : RaftState) : RaftState := RState (rs_vote s) (last_log_id meta) (last_membership meta) (rs_last_snapshot s).

(** The file goes to the directory of the group as it is and is read from there.
    A block takes at least one byte, so the bytes bound the rounds. *)
Definition install_snapshot {V} `{!Stream V} (meta : SnapshotMeta) (v : V) : sop t unit :=
  let sid := snapshot_id meta in
  let+ buffer := slift (read_received v) in
  let+ data := on_files (fun m fs => SnapshotManager.snapshot_data m sid fs) in
  let+ _ := on_file (SnapshotData.file data) (let+ _ := write_all buffer in flush_stream) in
  let+ (rd, _) := on_files (fun m fs => SnapshotManager.snapshot_reader (Meta := SnapshotMeta) m sid fs) in
  let+ _ := on_shard OtherError engine_clear in
  let+ _ := install_blocks (S (length buffer)) rd in
  let+ _ := (fun x => (Ok tt, with_state x (set_installed meta (raft_state x)))) in
  let+ _ := other save_state in
  remember sid meta.

Definition open_snapshot (sid : string) : sop t D :=
  let+ (rd, _) := on_files (fun m fs => SnapshotManager.snapshot_reader (Meta := SnapshotMeta) m sid fs) in
  sret (SnapshotReader.into_inner rd).2.

Definition get_current_snapshot : sop t (option (SnapshotMeta * D)) := fun x =>
  match snapshot_meta x with
  | Some (sid, meta) => (let+ d := open_snapshot sid in sret (Some (meta, d))) x
  | None =>
      (let+ found := on_shard OtherError (fun e s => engine_get e s (meta_key x)) in
       match found with
       | Some b =>
           let+ (sid, meta) := slift (ok_or (from_bytes b) OtherError) in
           let+ _ := (fun x => (Ok tt, with_meta x (sid, meta))) in
           let+ d := open_snapshot sid in
           sret (Some (meta, d))
       | None => sret None
       end) x
  end.

(** [sid]: the identifier made of the last applied entry and the clock.  A scan
    that fails on the way fails before anything is written. *)
Definition build_snapshot (sid : string) : sop t (SnapshotMeta * D) := fun x =>
  let '(last_applied, membership) := applied_state x in
  let meta := SMeta last_applied membership sid in
  (let+ w := on_files (fun m fs => SnapshotManager.snapshot_writer snapshot_id m meta fs) in
   let+ kvs := on_shard OtherError (fun e s => engine_scan e s KeyRange.all) in
   let+ _ := (fun x => let '(r, w) := (let+ _ := SnapshotWriter.write_pairs kvs in SnapshotWriter.finish) w in (r, with_files x (SnapshotWriter.writer w).1)) in
   let+ d := open_snapshot sid in
   let+ _ := (fun x => (Ok tt, match last_applied with Some l => with_state x (set_snapshot l (raft_state x)) | None => x end)) in
   let+ _ := remember sid meta in
   sret (meta, d)) x.
End state.
Arguments t {_} _ _.

(** A snapshot is received into a file of a new in-memory file system; [now]: the
    clock as chrono prints it. *)
Definition begin_receiving_snapshot (now : string) : stream_result MemoryFileSystem.handle :=
  match (MemoryFileSystem.create_file MemoryFileSystem.new ("/tmp/snapshot_Timestamp(" +:+ now +:+ "ms)")).1 with
  | Ok h => Ok h
  | Err _ => Err OtherError
  | Panic => Panic
  | Timeout => Timeout
  end.
End ConsensusStateStore.
