(* ===== verification/RaftSnapshotSpec.v ===== *)
(** * Reading snapshots back

    A snapshot is a header, the metadata of the consensus group and a chunk for
    every block of pairs.  Reading the file gives the metadata and the pairs
    back; reading a part of it gives the pairs of the chunks that are whole. *)

From Stdlib Require Import ZArith Lia.
From stdpp Require Import gmap option strings base list.
From S2P Require Import Prelude BTreeError VfsFile Integrity Wal WalSpec VfsPath VfsMemory VfsCompose KvmContext KvmRequest RaftSnapshot.

Open Scope Z_scope.

(** ** Streams that do not fail *)

(** [at_ w i p b]: the stream is at position [p] of file [i], which holds [b]. *)
Class StreamLaws (W I : Type) `{!Stream W} : Type := {
  at_ : W -> I -> nat -> list Z -> Prop;
  write_all_law : forall w i p b buf, at_ w i p b -> exists w', write_all buf w = (Ok tt, w') /\ at_ w' i (p + length buf) (overwrite p buf b);
  read_exact_law : forall w i p b n, at_ w i p b -> (p + n <= length b)%nat -> exists w', read_exact n w = (Ok (take n (drop p b)), w') /\ at_ w' i (p + n) b;
  read_eof_law : forall w i p b n, at_ w i p b -> (p <= length b < p + n)%nat -> exists w', read_exact n w = (Err UnexpectedEof, w') /\ at_ w' i (length b) b;
  seek_start_law : forall w i p b o, at_ w i p b -> 0 <= o -> exists w', seek_start o w = (Ok tt, w') /\ at_ w' i (Z.to_nat o) b;
  seek_end_law : forall w i p b, at_ w i p b -> Z.of_nat (length b) < 2 ^ 64 -> exists w', seek_end w = (Ok tt, w') /\ at_ w' i (length b) b;
  flush_law : forall w i p b, at_ w i p b -> exists w', flush_stream w = (Ok tt, w') /\ at_ w' i p b;
  size_law : forall w i p b, at_ w i p b -> stream_size w = Ok (Z.of_nat (length b)) }.

(** ** The in-memory file system *)

(** The outcome of a method of a handle as that of a stream.  A read that comes
    short is the end of the file. *)
Definition on_stream {A} (f : MemoryFile.t -> fs_result A * MemoryFile.t) : sop (MemoryFileSystem.t * MemoryFileSystem.handle) A := fun '(fs, h) =>
  let '(r, h, fs) := MemoryFileSystem.on_handle fs h f in
  (match r with Ok a => Ok a | Err _ => Err OtherError | Panic => Panic | Timeout => Timeout end, (fs, h)).

#[export] Instance memory_stream : Stream (MemoryFileSystem.t * MemoryFileSystem.handle) := {
  write_all buf := let+ _ := on_stream (fun f => MemoryFile.write f buf) in sret tt;
  read_exact n := let+ data := on_stream (fun f => MemoryFile.read f n) in if decide (length data = n) then sret data else sfail UnexpectedEof;
  seek_start o := let+ _ := on_stream (fun f => MemoryFile.seek f (MemoryFile.Start o)) in sret tt;
  seek_end := let+ _ := on_stream (fun f => MemoryFile.seek f (MemoryFile.End_ 0)) in sret tt;
  flush_stream := sret tt;
  stream_size w := (on_stream (fun f => (MemoryFile.get_size f, f)) w).1 }.

(** Position and contents of the file that a path names and a handle is on. *)
Definition memory_at (w : MemoryFileSystem.t * MemoryFileSystem.handle) (path : string) (p : nat) (b : list Z) : Prop :=
  let '(fs, h) := w in
  MemoryFileSystem.cursor h = Z.of_nat p /\ MemoryFileSystem.tree fs !! path = Some (MemoryFileSystem.FileAt (MemoryFileSystem.data h)) /\
  exists lock, MemoryFileSystem.files fs !! MemoryFileSystem.data h = Some (MemoryFileSystem.Data b lock).

Lemma on_stream_at {A} (f : MemoryFile.t -> fs_result A * MemoryFile.t) w path p b a p' b' : memory_at w path p b ->
  (forall x, MemoryFile.cursor x = Z.of_nat p -> MemoryFile.buffer x = b -> exists x', f x = (Ok a, x') /\ MemoryFile.cursor x' = Z.of_nat p' /\ MemoryFile.buffer x' = b') ->
  exists w', on_stream f w = (Ok a, w') /\ memory_at w' path p' b'.
Proof.
  destruct w as [fs h]. intros (Hc & Ht & lock & Hf) Hx. unfold on_stream, MemoryFileSystem.on_handle. rewrite Hf.
  destruct (Hx (MemoryFile.mk (MemoryFileSystem.cursor h) (MemoryFileSystem.name h) b lock) Hc eq_refl) as (x' & E & Hc' & Hb'). cbn [MemoryFileSystem.buffer MemoryFileSystem.lock]. rewrite E.
  eexists. split; [done|]. split_and!; [done|done|]. cbn. rewrite lookup_insert_eq, Hb'. by eexists.
Qed.

#[export, refine] Instance memory_stream_laws : StreamLaws (MemoryFileSystem.t * MemoryFileSystem.handle) string := { at_ := memory_at }.
Proof.
  all: intros w i p b.
  - intros buf Hw. cbn [write_all memory_stream]. edestruct (on_stream_at (fun f => MemoryFile.write f buf) w i p b) as (w' & E & Hw'); [done|..|exists w'; unfold sbind; rewrite E; by split].
    intros x Hc Hb. eexists. split; [done|]. cbn. rewrite Hc. split; [lia|]. rewrite Nat2Z.id. by rewrite <- Hb, <- MemoryFile.store_overwrite.
  - intros n Hw Hn. cbn [read_exact memory_stream]. edestruct (on_stream_at (fun f => MemoryFile.read f n) w i p b) as (w' & E & Hw'); [done| |exists w'; unfold sbind; rewrite E].
    + intros x Hc Hb. unfold MemoryFile.read, MemoryFile.size. rewrite Hc, Hb, (proj2 (Z.ltb_ge _ _)), Nat2Z.id by lia. eexists. split; [done|]. cbn. split; [|done].
      instantiate (1 := (p + n)%nat). rewrite length_take, length_drop. lia.
    + rewrite decide_True by (rewrite length_take, length_drop; lia). done.
  - intros n Hw Hn. cbn [read_exact memory_stream]. edestruct (on_stream_at (fun f => MemoryFile.read f n) w i p b) as (w' & E & Hw'); [done| |exists w'; unfold sbind; rewrite E].
    + intros x Hc Hb. unfold MemoryFile.read, MemoryFile.size. rewrite Hc, Hb, (proj2 (Z.ltb_ge _ _)), Nat2Z.id by lia. eexists. split; [done|]. cbn. split; [|done].
      instantiate (1 := length b). rewrite length_take, length_drop. lia.
    + rewrite decide_False by (rewrite length_take, length_drop; lia). done.
  - intros o Hw Ho. cbn [seek_start memory_stream]. edestruct (on_stream_at (fun f => MemoryFile.seek f (MemoryFile.Start o)) w i p b) as (w' & E & Hw'); [done|..|exists w'; unfold sbind; rewrite E; by split].
    intros x Hc Hb. eexists. split; [done|]. cbn. split; [lia|done].
  - intros Hw Hn. cbn [seek_end memory_stream]. edestruct (on_stream_at (fun f => MemoryFile.seek f (MemoryFile.End_ 0)) w i p b) as (w' & E & Hw'); [done|..|exists w'; unfold sbind; rewrite E; by split].
    intros x Hc Hb. unfold MemoryFile.seek, MemoryFile.size, u64. rewrite Hb, Z.add_0_r, wrap_small by lia. eexists. split; [done|]. done.
  - intros Hw. by exists w.
  - intros Hw. cbn [stream_size memory_stream]. edestruct (on_stream_at (fun f => (MemoryFile.get_size f, f)) w i p b) as (w' & E & Hw'); [done|..|rewrite E; cbn [fst]; done].
    intros x Hc Hb. exists x. unfold MemoryFile.get_size, MemoryFile.size. by rewrite Hb, Hc.
Defined.

(** ** Files *)

Abbreviation pairs := (list (list Z * list Z)).

Definition encode_all (kvs : pairs) : list Z := concat ((fun kv => SnapshotWriter.encode_kv kv.1 kv.2) <$> kvs).

Lemma encode_all_cons k v kvs : encode_all ((k, v) :: kvs) = SnapshotWriter.encode_kv k v ++ encode_all kvs.
Proof. done. Qed.

Lemma encode_all_snoc kvs k v : encode_all (kvs ++ [(k, v)]) = encode_all kvs ++ SnapshotWriter.encode_kv k v.
Proof. unfold encode_all. rewrite fmap_app, concat_app. cbn. by rewrite app_nil_r. Qed.

Lemma length_encode_kv k v : length (SnapshotWriter.encode_kv k v) = (8 + length k + length v)%nat.
Proof. unfold SnapshotWriter.encode_kv. rewrite !length_app, !length_le_bytes. lia. Qed.

Lemma length_encode_all kvs : (length kvs * 8 <= length (encode_all kvs))%nat.
Proof. induction kvs as [|[k v] kvs IH]; [done|]. rewrite encode_all_cons, length_app, length_encode_kv. cbn [length]. lia. Qed.

Lemma decode_encode_pairs kvs rest : Z.of_nat (length (encode_all kvs)) < 2 ^ 32 -> SnapshotReader.decode_records (length kvs) (encode_all kvs ++ rest) = Ok kvs.
Proof.
  induction kvs as [|[k v] kvs IH]; intros Hl; [done|]. rewrite encode_all_cons in Hl |- *. rewrite length_app, length_encode_kv in Hl. unfold SnapshotWriter.encode_kv. rewrite <- !app_assoc.
  set (rest' := encode_all kvs ++ rest). cbn [SnapshotReader.decode_records length].
  rewrite (slice_app_l (le_bytes 4 _)) by by rewrite length_le_bytes. cbn [or_panic rbind].
  rewrite (slice_app (le_bytes 4 _) (le_bytes 4 _)) by (rewrite ?length_le_bytes; lia). cbn [or_panic rbind].
  rewrite (app_assoc (le_bytes 4 _)), (drop_app_length' _ _ 8) by (rewrite length_app, !length_le_bytes; lia).
  rewrite !le_value_small, !Nat2Z.id by (change (8 * Z.of_nat 4) with 32; lia).
  rewrite slice_app_l by done. cbn [or_panic rbind]. rewrite drop_app_length, slice_app_l by done. cbn [or_panic rbind]. rewrite drop_app_length. unfold rest'. rewrite IH by lia. done.
Qed.

Section files.
Context `{!Integrity.Hashes, !Integrity.HashLaws, !Codecs, !Integrity.CodecLaws}.

(** A compression that handles the blocks a snapshot has. *)
Definition compresses (c : CompressionAlgorithm) : Prop := forall raw, Z.of_nat (length raw) < 2 ^ 31 -> exists z, Compression.compress c raw = Some z /\ Z.of_nat (length z) < 2 ^ 32.

Lemma decompress_sized c raw z : Z.of_nat (length raw) < 2 ^ 31 -> Compression.compress c raw = Some z -> Compression.decompress c z (Some (Z.of_nat (length raw))) = Some raw.
Proof using All.
  intros Hl Hz. destruct c; cbn in *; [by simplify_eq| |by apply zstd_law|by apply snappy_law].
  rewrite (lz4_law _ _ _ Hz). unfold u32. rewrite signed_wrap by lia. by rewrite (proj2 (Z.leb_le _ _)) by lia.
Qed.

(** The bytes of the chunk of a block. *)
Definition chunk_of (c : SnapshotConfig) (kvs : pairs) (d : list Z) : Prop :=
  kvs <> [] /\ Z.of_nat (length (encode_all kvs)) < 2 ^ 31 /\ exists z, Compression.compress (compression c) (encode_all kvs) = Some z /\ Z.of_nat (length z) < 2 ^ 32 /\
    d = chunk_header (Z.of_nat (length kvs)) (Z.of_nat (length z)) (Z.of_nat (length (encode_all kvs))) (Integrity.checksum (integrity c) z) ++ z.

Lemma length_chunk_header a b x y : length (chunk_header a b x y) = CHUNK_HEADER_SIZE.
Proof. unfold chunk_header. by rewrite !length_app, !length_be_bytes. Qed.

Lemma chunk_fields a b x y : 0 <= a < 2 ^ 32 -> 0 <= b < 2 ^ 32 -> 0 <= x < 2 ^ 32 -> 0 <= y < 2 ^ 32 ->
  let h := chunk_header a b x y in
  field 0 4 h = CHUNK_HEADER_MAGIC /\ field 4 8 h = a /\ field 8 0xC h = b /\ field 0xC 0x10 h = x /\ field 0x10 0x14 h = y.
Proof.
  intros Ha Hb Hx Hy h. unfold h, chunk_header.
  assert (L : forall z, length (be_bytes 4 z) = 4%nat) by (intros; apply length_be_bytes).
  assert (V : forall z, 0 <= z < 2 ^ 32 -> be_value (be_bytes 4 z) = z) by (intros; by apply be_value_small).
  rewrite <- (app_nil_r (be_bytes 4 y)). split_and!; repeat rewrite (field_skip 4) by (auto; lia); cbn [Nat.sub]; (rewrite field_here by (by rewrite L)); by apply V.
Qed.

(** ** The header *)

Lemma length_header_fields c len : length (header_fields c len) = 0x61%nat.
Proof. unfold header_fields. by rewrite !length_app, !length_be_bytes, length_replicate. Qed.

Lemma length_file_header c len : length (file_header c len) = FILE_HEADER_SIZE.
Proof. unfold file_header. by rewrite length_app, length_be_bytes, length_header_fields. Qed.

Lemma header_sound_ok c len : header_sound (file_header c len) = true.
Proof using All.
  unfold header_sound, file_header. rewrite (field_skip 0x61) by (by rewrite ?length_header_fields || lia).
  rewrite <- (app_nil_r (be_bytes 4 _)), field_here by by rewrite length_be_bytes. rewrite be_value_small by apply Integrity.checksum_u32.
  rewrite take_app_length' by by rewrite length_header_fields. by rewrite Z.eqb_refl.
Qed.

Lemma header_fields_read c len : 0 <= len < 2 ^ 32 -> let h := file_header c len in
  field 0 8 h = FILE_HEADER_MAGIC /\ field 8 0xA h = FILE_HEADER_VERSION /\ field 0x22 0x26 h = len /\
  field 0x2E 0x2F h = Integrity.as_u8 (integrity c) /\ field 0x2F 0x30 h = Compression.as_u8 (compression c) /\ field 0x30 0x31 h = Encryption.as_u8 (encryption c).
Proof.
  intros Hl h. unfold h, file_header, header_fields. rewrite <- !app_assoc.
  assert (L : forall n z, length (be_bytes n z) = n) by (intros; apply length_be_bytes).
  split_and!.
  - rewrite field_here by by rewrite L. by apply be_value_small.
  - rewrite (field_skip 8) by (auto; lia). cbn [Nat.sub]. rewrite field_here by by rewrite L. by apply be_value_small.
  - rewrite (field_skip 8), (field_skip 2), (field_skip 16), (field_skip 8) by (auto; lia). cbn [Nat.sub]. rewrite field_here by by rewrite L. by apply be_value_small.
  - rewrite (field_skip 8), (field_skip 2), (field_skip 16), (field_skip 8), (field_skip 4), (field_skip 8) by (auto; lia). cbn [Nat.sub]. by destruct (integrity c).
  - rewrite (field_skip 8), (field_skip 2), (field_skip 16), (field_skip 8), (field_skip 4), (field_skip 8), (field_skip 1) by (auto; lia). cbn [Nat.sub]. by destruct (compression c).
  - rewrite (field_skip 8), (field_skip 2), (field_skip 16), (field_skip 8), (field_skip 4), (field_skip 8), (field_skip 1), (field_skip 1) by (auto; lia). cbn [Nat.sub]. by destruct (encryption c).
Qed.

(** ** Reading chunks *)

Context {W I : Type} `{!Stream W, !StreamLaws W I}.

Lemma next_block_chunk (x : SnapshotReader.t W) i pre kvs d rest c : chunk_of c kvs d -> SnapshotReader.config x = SnapConfig (integrity c) (compression c) (encryption c) 0 ->
  at_ (SnapshotReader.reader x) i (length pre) (pre ++ d ++ rest) ->
  exists x', SnapshotReader.next_block x = (Ok kvs, x') /\ SnapshotReader.config x' = SnapshotReader.config x /\ at_ (SnapshotReader.reader x') i (length (pre ++ d)) (pre ++ d ++ rest).
Proof using All.
  intros (Hne & Hl & z & Hz & Hzl & ->) Hc Hat. set (h := chunk_header _ _ _ _) in *. pose proof (length_encode_all kvs) as Hn.
  assert (Hh : length h = CHUNK_HEADER_SIZE) by apply length_chunk_header.
  destruct (chunk_fields (Z.of_nat (length kvs)) (Z.of_nat (length z)) (Z.of_nat (length (encode_all kvs))) (Integrity.checksum (integrity c) z)) as (F0 & F1 & F2 & F3 & F4); [lia..|apply Integrity.checksum_u32|]. fold h in F0, F1, F2, F3, F4.
  unfold SnapshotReader.next_block, sbind, SnapshotReader.on_reader.
  destruct (read_exact_law _ _ _ _ CHUNK_HEADER_SIZE Hat) as (w1 & E1 & Hat1); [rewrite !length_app, Hh; lia|]. rewrite E1.
  rewrite drop_app_length, <- app_assoc, take_app_length' by done. rewrite F0, Z.eqb_refl. cbn [negb SnapshotReader.reader compressed_size uncompressed_size record_count].
  rewrite F2, Nat2Z.id. destruct (read_exact_law _ _ _ _ (length z) Hat1) as (w2 & E2 & Hat2); [rewrite !length_app, Hh; lia|]. rewrite E2.
  replace (take (length z) (drop (length pre + CHUNK_HEADER_SIZE) (pre ++ (h ++ z) ++ rest))) with z
    by (rewrite <- Hh, <- length_app, <- app_assoc, (app_assoc pre), drop_app_length; by rewrite take_app_length).
  rewrite F4, Hc. cbn [integrity compression]. rewrite Z.eqb_refl. cbn [negb]. rewrite F3, decompress_sized, F1, Nat2Z.id by done.
  unfold slift. rewrite <- (app_nil_r (encode_all kvs)), decode_encode_pairs by lia. eexists. split; [done|]. split; [done|]. cbn [SnapshotReader.reader].
  by replace (length (pre ++ h ++ z)) with (length pre + CHUNK_HEADER_SIZE + length z)%nat by (rewrite !length_app, Hh; lia).
Qed.

(** A chunk that is cut off is the end of the file. *)
Lemma next_block_cut (x : SnapshotReader.t W) i pre kvs d n c : chunk_of c kvs d -> (n < length d)%nat -> at_ (SnapshotReader.reader x) i (length pre) (pre ++ take n d) ->
  exists x', SnapshotReader.next_block x = (Err UnexpectedEof, x').
Proof using All.
  intros (Hne & Hl & z & Hz & Hzl & ->) Hn Hat. set (h := chunk_header _ _ _ _) in *. pose proof (length_encode_all kvs) as Hk.
  assert (Hh : length h = CHUNK_HEADER_SIZE) by apply length_chunk_header. rewrite length_app, Hh in Hn.
  unfold SnapshotReader.next_block, sbind, SnapshotReader.on_reader. destruct (decide (n < CHUNK_HEADER_SIZE)%nat) as [Hs|Hs].
  - destruct (read_eof_law _ _ _ _ CHUNK_HEADER_SIZE Hat) as (w1 & -> & _); [rewrite length_app, length_take, length_app, Hh; lia|]. by eexists.
  - rewrite take_app_ge in Hat by lia. rewrite Hh in Hat.
    destruct (chunk_fields (Z.of_nat (length kvs)) (Z.of_nat (length z)) (Z.of_nat (length (encode_all kvs))) (Integrity.checksum (integrity c) z)) as (F0 & F1 & F2 & F3 & F4); [lia..|apply Integrity.checksum_u32|]. fold h in F0, F1, F2, F3, F4.
    destruct (read_exact_law _ _ _ _ CHUNK_HEADER_SIZE Hat) as (w1 & E1 & Hat1); [rewrite !length_app, Hh; lia|]. rewrite E1.
    rewrite drop_app_length, take_app_length', F0, Z.eqb_refl by done. cbn [negb SnapshotReader.reader compressed_size]. rewrite F2, Nat2Z.id.
    destruct (read_eof_law _ _ _ _ (length z) Hat1) as (w2 & -> & _); [rewrite !length_app, length_take, Hh; lia|]. by eexists.
Qed.

(** What the loop over the blocks of a reader sees before the end of the file. *)
Inductive blocks_of : SnapshotReader.t W -> list pairs -> Prop :=
| blocks_end x x' : SnapshotReader.next_block x = (Err UnexpectedEof, x') -> blocks_of x []
| blocks_next x x' kvs bs : SnapshotReader.next_block x = (Ok kvs, x') -> blocks_of x' bs -> blocks_of x (kvs :: bs).

(** The number of whole chunks in the first bytes. *)
Fixpoint whole (n : nat) (ds : list (list Z)) : nat :=
  match ds with
  | [] => 0%nat
  | d :: ds => if decide (length d <= n)%nat then S (whole (n - length d) ds) else 0%nat
  end.

Lemma whole_all ds : whole (length (concat ds)) ds = length ds.
Proof. induction ds as [|d ds IH]; [done|]. cbn [concat whole length]. rewrite length_app, decide_True by lia. replace (length d + length (concat ds) - length d)%nat with (length (concat ds)) by lia. by rewrite IH. Qed.

Lemma read_chunks c bs ds : Forall2 (chunk_of c) bs ds -> forall n (x : SnapshotReader.t W) i pre,
  SnapshotReader.config x = SnapConfig (integrity c) (compression c) (encryption c) 0 -> at_ (SnapshotReader.reader x) i (length pre) (pre ++ take n (concat ds)) ->
  blocks_of x (take (whole n ds) bs).
Proof using All.
  induction 1 as [|kvs d bs ds Hd Hds IH]; intros n x i pre Hc Hat; cbn [concat whole] in *.
  - rewrite take_nil, app_nil_r in Hat. cbn [take]. destruct (read_eof_law _ _ _ _ CHUNK_HEADER_SIZE Hat) as (w1 & E & _); [unfold CHUNK_HEADER_SIZE; lia|].
    eapply blocks_end. unfold SnapshotReader.next_block, sbind, SnapshotReader.on_reader. by rewrite E.
  - destruct (decide (length d <= n)%nat) as [Hn|Hn].
    + rewrite take_app_ge in Hat by done. destruct (next_block_chunk x i pre kvs d _ c Hd Hc Hat) as (x' & E & Hc' & Hat'). cbn [take].
      eapply blocks_next; [done|]. rewrite app_assoc in Hat'. eapply IH; [by rewrite Hc'|done].
    + rewrite take_app_le in Hat by lia. destruct (next_block_cut x i pre kvs d n c Hd) as (x' & E); [lia|done|]. by eapply blocks_end.
Qed.

Lemma read_all_chunks c bs ds (x : SnapshotReader.t W) i pre : Forall2 (chunk_of c) bs ds ->
  SnapshotReader.config x = SnapConfig (integrity c) (compression c) (encryption c) 0 -> at_ (SnapshotReader.reader x) i (length pre) (pre ++ concat ds) -> blocks_of x bs.
Proof using All.
  intros Hds Hc Hat. rewrite <- (firstn_all bs), (Forall2_length _ _ _ Hds), <- whole_all. eapply read_chunks; [done..|]. by rewrite firstn_all.
Qed.

(** ** Opening *)

Context {Meta : Type} `{!Codec Meta, !KvmRequest.CodecLaws Meta}.

(** The header and metadata of a file. *)
Definition head_of (c : SnapshotConfig) (m : Meta) (pre : list Z) : Prop :=
  exists mb, to_bytes m = Some mb /\ Z.of_nat (length mb) < 2 ^ 32 /\ pre = file_header c (Z.of_nat (length mb)) ++ mb.

Lemma open_head c m pre rest (w : W) i : head_of c m pre -> at_ w i 0 (pre ++ rest) ->
  exists x fm w', SnapshotReader.open w = (Ok (x, fm), w') /\ fm_metadata fm = m /\ SnapshotReader.config x = SnapConfig (integrity c) (compression c) (encryption c) 0 /\
    at_ (SnapshotReader.reader x) i (length pre) (pre ++ rest) /\ w' = SnapshotReader.reader x.
Proof using All.
  intros (mb & Hm & Hl & ->) Hat. set (h := file_header _ _) in *. assert (Hh : length h = FILE_HEADER_SIZE) by apply length_file_header.
  destruct (header_fields_read c (Z.of_nat (length mb))) as (F0 & F1 & F2 & F3 & F4 & F5); [lia|]. fold h in F0, F1, F2, F3, F4, F5.
  unfold SnapshotReader.open, sbind. destruct (read_exact_law _ _ _ _ FILE_HEADER_SIZE Hat) as (w1 & E1 & Hat1); [rewrite !length_app, Hh; lia|]. rewrite E1.
  rewrite drop_0, <- app_assoc, take_app_length', F0, F1, !Z.eqb_refl by done. cbn [negb]. rewrite F2, Nat2Z.id.
  destruct (read_exact_law _ _ _ _ (length mb) Hat1) as (w2 & E2 & Hat2); [rewrite !length_app, Hh; lia|]. rewrite E2.
  replace (take (length mb) (drop (0 + FILE_HEADER_SIZE) ((h ++ mb) ++ rest))) with mb by (rewrite <- Hh, Nat.add_0_l, <- app_assoc, drop_app_length; by rewrite take_app_length).
  assert (Hs : header_sound h = true) by apply header_sound_ok. rewrite Hs. cbn [negb]. unfold slift, deserialize_meta. rewrite (from_to m mb Hm). cbn [ok_or].
  rewrite F3, F4, F5, (proj2 (integrity_tag _ (integrity c)) eq_refl), (proj2 (compression_tag _ (compression c)) eq_refl). cbn [default fm_integrity fm_compression fm_encryption].
  assert (He : default NoEncryption (Encryption.from_u8 (Encryption.as_u8 (encryption c))) = encryption c) by by destruct (encryption c). rewrite He.
  assert (Hp : (0 + FILE_HEADER_SIZE + length mb)%nat = length (h ++ mb)) by (rewrite length_app, Hh; lia). rewrite Hp in Hat2. by eexists _, _, w2.
Qed.

(** ** Writing *)

(** A writer that has written the bytes [b] and buffers [pend]. *)
Definition writes (c : SnapshotConfig) (i : I) (b : list Z) (pend : pairs) (x : SnapshotWriter.t W) : Prop :=
  SnapshotWriter.config x = c /\ SnapshotWriter.record_buffer x = encode_all pend /\ SnapshotWriter.count x = Z.of_nat (length pend) /\
  (pend = [] \/ Z.of_nat (length (encode_all pend)) < block_size c) /\ at_ (SnapshotWriter.writer x) i (length b) b.

(** Pairs that fit into a block. *)
Definition fits (c : SnapshotConfig) (kv : list Z * list Z) : Prop := block_size c + 8 + Z.of_nat (length kv.1) + Z.of_nat (length kv.2) < 2 ^ 31.

Lemma new_writer c m pre (w : W) i : head_of c m pre -> at_ w i 0 [] -> exists x w', SnapshotWriter.new c m w = (Ok x, w') /\ w' = SnapshotWriter.writer x /\ writes c i pre [] x.
Proof using All.
  intros (mb & Hm & Hl & ->) Hat. assert (Hh : length (file_header c (Z.of_nat (length mb))) = FILE_HEADER_SIZE) by apply length_file_header.
  unfold SnapshotWriter.new, sbind, slift. destruct (write_all_law _ _ _ _ (replicate FILE_HEADER_SIZE 0) Hat) as (w1 & -> & Hat1). rewrite Hm. cbn [ok_or].
  rewrite overwrite_nil in Hat1. destruct (write_all_law _ _ _ _ mb Hat1) as (w2 & -> & Hat2). rewrite overwrite_end in Hat2 by by rewrite length_replicate.
  destruct (seek_start_law _ _ _ _ 0 Hat2) as (w3 & -> & Hat3); [lia|]. destruct (write_all_law _ _ _ _ (file_header c (Z.of_nat (length mb))) Hat3) as (w4 & -> & Hat4).
  assert (Ho : overwrite (Z.to_nat 0) (file_header c (Z.of_nat (length mb))) (replicate FILE_HEADER_SIZE 0 ++ mb) = file_header c (Z.of_nat (length mb)) ++ mb).
  { unfold overwrite. change (Z.to_nat 0) with 0%nat. rewrite take_0. cbn [app]. rewrite Nat.add_0_l, Hh, <- app_assoc, (drop_app_length' (replicate FILE_HEADER_SIZE 0)) by by rewrite length_replicate.
    rewrite !length_app, length_replicate. replace (FILE_HEADER_SIZE - (FILE_HEADER_SIZE + length mb))%nat with 0%nat by lia. cbn [replicate]. by rewrite app_nil_r. }
  rewrite Ho in Hat4. destruct (seek_end_law _ _ _ _ Hat4) as (w5 & -> & Hat5); [rewrite length_app, Hh; unfold FILE_HEADER_SIZE; lia|].
  eexists _, _. split; [done|]. split; [done|]. split_and!; try done; by left.
Qed.

Lemma flush_writes c i b pend x : compresses (compression c) -> Z.of_nat (length (encode_all pend)) < 2 ^ 31 ->
  SnapshotWriter.config x = c -> SnapshotWriter.record_buffer x = encode_all pend -> SnapshotWriter.count x = Z.of_nat (length pend) -> at_ (SnapshotWriter.writer x) i (length b) b ->
  exists x' bs ds, SnapshotWriter.flush_block x = (Ok tt, x') /\ concat bs = pend /\ Forall2 (chunk_of c) bs ds /\ writes c i (b ++ concat ds) [] x'.
Proof using All.
  intros Hcomp Hl Hc Hb Hn Hat. unfold SnapshotWriter.flush_block. rewrite Hn. destruct pend as [|kv pend].
  { cbn [length]. rewrite Z.eqb_refl. exists x, [], []. split_and!; try done. cbn [concat]. rewrite app_nil_r. split_and!; try done. by left. }
  rewrite (proj2 (Z.eqb_neq _ _)) by (cbn [length]; lia). destruct (Hcomp _ Hl) as (z & Hz & Hzl). rewrite Hb, Hc, Hz. unfold sbind, SnapshotWriter.on_writer.
  set (h := chunk_header _ _ _ _). destruct (write_all_law _ _ _ _ h Hat) as (w1 & -> & Hat1). cbn [SnapshotWriter.writer]. rewrite overwrite_end in Hat1 by done.
  destruct (write_all_law _ _ _ _ z Hat1) as (w2 & -> & Hat2). rewrite overwrite_end in Hat2 by by rewrite length_app.
  eexists _, [kv :: pend], [h ++ z]. split; [done|]. split; [cbn [concat]; by rewrite app_nil_r|]. split; [constructor; [|constructor]; by split_and!; eauto|].
  cbn [concat]. rewrite app_nil_r. split_and!; try done; [by left|]. cbn [SnapshotWriter.writer]. by rewrite app_assoc, !length_app.
Qed.

Lemma write_kv_writes c i b pend x k v : compresses (compression c) -> 0 <= block_size c -> fits c (k, v) -> writes c i b pend x ->
  exists x' bs ds pend', SnapshotWriter.write_kv k v x = (Ok tt, x') /\ concat bs ++ pend' = pend ++ [(k, v)] /\ Forall2 (chunk_of c) bs ds /\ writes c i (b ++ concat ds) pend' x'.
Proof using All.
  intros Hcomp H0' Hf (Hc & Hb & Hn & Hp & Hat). unfold fits in Hf. cbn [fst snd] in Hf. unfold SnapshotWriter.write_kv. rewrite Hb, <- encode_all_snoc.
  assert (Hl : Z.of_nat (length (encode_all (pend ++ [(k, v)]))) < 2 ^ 31).
  { rewrite encode_all_snoc, length_app, length_encode_kv. destruct Hp as [->|Hp]; [change (length (encode_all [])) with 0%nat|]; lia. }
  pose proof (length_encode_all (pend ++ [(k, v)])) as Hk. assert (Hs : SnapshotWriter.count x + 1 = Z.of_nat (length (pend ++ [(k, v)]))) by (rewrite Hn, length_app; cbn [length]; lia).
  rewrite Hs, (proj2 (Z.ltb_lt _ _)), Hc by lia. cbn [SnapshotWriter.config]. destruct (Z.leb_spec (block_size c) (Z.of_nat (length (encode_all (pend ++ [(k, v)]))))) as [Hle|Hlt].
  - destruct (flush_writes c i b (pend ++ [(k, v)]) (SnapshotWriter.mk c (encode_all (pend ++ [(k, v)])) (Z.of_nat (length (pend ++ [(k, v)]))) (SnapshotWriter.writer x))) as (x' & bs & ds & E & Hbs & Hds & Hw); try done.
    exists x', bs, ds, []. by rewrite app_nil_r.
  - eexists _, [], [], (pend ++ [(k, v)]). split; [done|]. split; [done|]. split; [constructor|]. cbn [concat]. rewrite app_nil_r. split_and!; try done. by right.
Qed.

Lemma write_pairs_writes c i kvs : compresses (compression c) -> 0 <= block_size c -> Forall (fits c) kvs -> forall b pend x, writes c i b pend x ->
  exists x' bs ds pend', SnapshotWriter.write_pairs kvs x = (Ok tt, x') /\ concat bs ++ pend' = pend ++ kvs /\ Forall2 (chunk_of c) bs ds /\ writes c i (b ++ concat ds) pend' x'.
Proof using All.
  intros Hcomp H0'. induction 1 as [|[k v] kvs Hf Hfs IH]; intros b pend x Hx.
  - exists x, [], [], pend. cbn [concat app]. rewrite !app_nil_r. split; [done|]. split; [done|]. by split; [constructor|].
  - destruct (write_kv_writes c i b pend x k v) as (x1 & bs1 & ds1 & p1 & E1 & Hb1 & Hd1 & Hw1); try done.
    destruct (IH _ _ _ Hw1) as (x2 & bs2 & ds2 & p2 & E2 & Hb2 & Hd2 & Hw2). exists x2, (bs1 ++ bs2), (ds1 ++ ds2), p2. split; [cbn [SnapshotWriter.write_pairs]; unfold sbind; by rewrite E1, E2|].
    split; [by rewrite concat_app, <- app_assoc, Hb2, app_assoc, Hb1, <- app_assoc|]. split; [by apply Forall2_app|]. by rewrite concat_app, app_assoc.
Qed.

(** Everything at once: header, pairs and the last block. *)
Lemma finish_writes c i kvs b x : compresses (compression c) -> 0 <= block_size c -> Forall (fits c) kvs -> writes c i b [] x ->
  exists x' bs ds, (let+ _ := SnapshotWriter.write_pairs kvs in SnapshotWriter.finish) x = (Ok tt, x') /\ concat bs = kvs /\ Forall2 (chunk_of c) bs ds /\
    at_ (SnapshotWriter.writer x') i (length (b ++ concat ds)) (b ++ concat ds).
Proof using All.
  intros Hcomp H0' Hf Hx. destruct (write_pairs_writes c i kvs Hcomp H0' Hf b [] x Hx) as (x1 & bs & ds & p & E1 & Hb & Hd & (Hc & Hbuf & Hn & Hp & Hat)).
  assert (Hl : Z.of_nat (length (encode_all p)) < 2 ^ 31).
  { destruct Hp as [->|Hp]; [done|]. destruct kvs as [|kv kvs]; [|inversion_clear Hf as [|? ? Hf' _]; unfold fits in Hf'; lia]. cbn [app] in Hb. apply app_eq_nil in Hb as [_ ->]. done. }
  destruct (flush_writes c i (b ++ concat ds) p x1) as (x2 & bs' & ds' & E2 & Hb' & Hd' & (_ & _ & _ & _ & Hat2)); try done.
  destruct (flush_law _ _ _ _ Hat2) as (w3 & E3 & Hat3). unfold sbind at 1. rewrite E1. unfold SnapshotWriter.finish, sbind. rewrite E2. unfold SnapshotWriter.on_writer. rewrite E3.
  eexists _, (bs ++ bs'), (ds ++ ds'). split; [done|]. split; [by rewrite concat_app, Hb', Hb|]. split; [by apply Forall2_app|]. by rewrite concat_app, app_assoc.
Qed.

(** ** Validation *)

Lemma validate_chunk_ok c kvs d pre rest (w : W) i : chunk_of c kvs d -> at_ w i (length pre) (pre ++ d ++ rest) ->
  exists w', SnapshotData.validate_chunk (integrity c) w = (Ok true, w') /\ at_ w' i (length (pre ++ d)) (pre ++ d ++ rest).
Proof using All.
  intros (Hne & Hl & z & Hz & Hzl & ->) Hat. set (h := chunk_header _ _ _ _) in *. pose proof (length_encode_all kvs) as Hn.
  assert (Hh : length h = CHUNK_HEADER_SIZE) by apply length_chunk_header.
  destruct (chunk_fields (Z.of_nat (length kvs)) (Z.of_nat (length z)) (Z.of_nat (length (encode_all kvs))) (Integrity.checksum (integrity c) z)) as (F0 & _ & F2 & _ & F4); [lia..|apply Integrity.checksum_u32|]. fold h in F0, F2, F4.
  unfold SnapshotData.validate_chunk. destruct (read_exact_law _ _ _ _ CHUNK_HEADER_SIZE Hat) as (w1 & -> & Hat1); [rewrite !length_app, Hh; lia|].
  rewrite drop_app_length, <- app_assoc, take_app_length', F0, Z.eqb_refl by done. cbn [negb]. rewrite F2, Nat2Z.id.
  unfold SnapshotData.then_, SnapshotData.io. destruct (read_exact_law _ _ _ _ (length z) Hat1) as (w2 & -> & Hat2); [rewrite !length_app, Hh; lia|].
  replace (take (length z) (drop (length pre + CHUNK_HEADER_SIZE) (pre ++ (h ++ z) ++ rest))) with z
    by (rewrite <- Hh, <- length_app, <- app_assoc, (app_assoc pre), drop_app_length; by rewrite take_app_length).
  rewrite F4, Z.eqb_refl. cbn [negb]. eexists. split; [done|]. by replace (length (pre ++ h ++ z)) with (length pre + CHUNK_HEADER_SIZE + length z)%nat by (rewrite !length_app, Hh; lia).
Qed.

Lemma validate_chunks_ok c bs ds : Forall2 (chunk_of c) bs ds -> forall fuel pre (w : W) i, (length ds < fuel)%nat -> at_ w i (length pre) (pre ++ concat ds) ->
  exists w', SnapshotData.validate_chunks fuel (integrity c) w = (Ok tt, w').
Proof using All.
  induction 1 as [|kvs d bs ds Hd Hds IH]; intros [|fuel] pre w i Hf Hat; cbn [length concat] in *; try lia; cbn [SnapshotData.validate_chunks]; unfold SnapshotData.then_.
  - rewrite app_nil_r in Hat. unfold SnapshotData.validate_chunk. destruct (read_eof_law _ _ _ _ CHUNK_HEADER_SIZE Hat) as (w1 & -> & _); [unfold CHUNK_HEADER_SIZE; lia|]. by eexists.
  - destruct (validate_chunk_ok c kvs d pre _ w i Hd Hat) as (w1 & -> & Hat1). rewrite app_assoc in Hat1. by apply (IH fuel _ _ _ ltac:(lia) Hat1).
Qed.

Lemma validate_file_ok (sid : Meta -> string) c m bs ds pre fuel (w : W) i p : head_of c m pre -> Forall2 (chunk_of c) bs ds -> (length ds < fuel)%nat -> at_ w i p (pre ++ concat ds) ->
  exists w', SnapshotData.validate_file sid fuel (sid m) w = (Ok tt, w').
Proof using All.
  intros (mb & Hm & Hl & ->) Hds Hf Hat. set (h := file_header _ _) in *. assert (Hh : length h = FILE_HEADER_SIZE) by apply length_file_header.
  destruct (header_fields_read c (Z.of_nat (length mb))) as (F0 & F1 & F2 & F3 & _ & _); [lia|]. fold h in F0, F1, F2, F3.
  unfold SnapshotData.validate_file, SnapshotData.then_, SnapshotData.io. destruct (seek_start_law _ _ _ _ 0 Hat) as (w0 & -> & Hat0); [lia|]. change (Z.to_nat 0) with 0%nat in Hat0.
  destruct (read_exact_law _ _ _ _ FILE_HEADER_SIZE Hat0) as (w1 & -> & Hat1); [rewrite !length_app, Hh; lia|].
  rewrite drop_0, <- app_assoc, take_app_length', F0, F1, !Z.eqb_refl by done. assert (Hs : header_sound h = true) by apply header_sound_ok. rewrite Hs. cbn [negb]. rewrite F2, Nat2Z.id.
  destruct (read_exact_law _ _ _ _ (length mb) Hat1) as (w2 & -> & Hat2); [rewrite !length_app, Hh; lia|].
  replace (take (length mb) (drop (0 + FILE_HEADER_SIZE) ((h ++ mb) ++ concat ds))) with mb by (rewrite <- Hh, Nat.add_0_l, <- app_assoc, drop_app_length; by rewrite take_app_length).
  rewrite (from_to m mb Hm), decide_True, F3, (proj2 (integrity_tag _ (integrity c)) eq_refl) by done. cbn [default].
  eapply (validate_chunks_ok c bs ds Hds fuel (h ++ mb)); [done|]. by replace (length (h ++ mb)) with (0 + FILE_HEADER_SIZE + length mb)%nat by (rewrite length_app, Hh; lia).
Qed.

(** ** The contract *)

Lemma concat_take_prefix (bs : list pairs) n : concat (take n bs) `prefix_of` concat bs.
Proof. exists (concat (drop n bs)). by rewrite <- concat_app, take_drop. Qed.

(** C38. A snapshot written in blocks of any size, compressed or not, is read
    back: writing ends with a file from which a reader gets the metadata and, in
    order, exactly the pairs written, and which validation accepts.  A file that
    was cut off anywhere behind its metadata is read without an error as a
    snapshot of the first pairs. *)
Theorem snapshot_read_back (sid : Meta -> string) c m mb kvs (w : W) i : to_bytes m = Some mb -> Z.of_nat (length mb) < 2 ^ 32 -> compresses (compression c) -> 0 <= block_size c ->
  Forall (fits c) kvs -> at_ w i 0 [] ->
  exists x w' x' pre body, SnapshotWriter.new c m w = (Ok x, w') /\ (let+ _ := SnapshotWriter.write_pairs kvs in SnapshotWriter.finish) x = (Ok tt, x') /\
    at_ (SnapshotWriter.writer x') i (length (pre ++ body)) (pre ++ body) /\
    (forall r j n, at_ r j 0 (pre ++ take n body) -> exists rd fm r' bs, SnapshotReader.open r = (Ok (rd, fm), r') /\ fm_metadata fm = m /\ blocks_of rd bs /\
      concat bs `prefix_of` kvs /\ ((length body <= n)%nat -> concat bs = kvs)) /\
    (forall r j p, at_ r j p (pre ++ body) -> exists r' fuel, SnapshotData.validate_file sid fuel (sid m) r = (Ok tt, r')).
Proof using All.
  intros Hm Hl Hcomp H0' Hf Hat. assert (Hhead : head_of c m (file_header c (Z.of_nat (length mb)) ++ mb)) by by exists mb.
  destruct (new_writer c m _ w i Hhead Hat) as (x & w' & E1 & _ & Hx). destruct (finish_writes c i kvs _ x Hcomp H0' Hf Hx) as (x' & bs & ds & E2 & Hbs & Hds & Hat').
  exists x, w', x', (file_header c (Z.of_nat (length mb)) ++ mb), (concat ds). split; [done|]. split; [done|]. split; [done|]. split.
  - intros r j n Hr. destruct (open_head c m _ _ r j Hhead Hr) as (rd & fm & r' & E & Hfm & Hc & Hrd & _). exists rd, fm, r', (take (whole n ds) bs). split_and!; try done.
    + by eapply read_chunks.
    + rewrite <- Hbs. apply concat_take_prefix.
    + intros Hn.
      assert (Hw : forall ds n, (length (concat ds) <= n)%nat -> (length ds <= whole n ds)%nat).
      { clear. induction ds as [|d ds IH]; intros n Hn; cbn [concat whole length] in *; [lia|]. rewrite length_app in Hn. rewrite decide_True by lia. specialize (IH (n - length d)%nat). lia. }
      rewrite take_ge, Hbs; [done|]. rewrite (Forall2_length _ _ _ Hds). by apply Hw.
  - intros r j p Hr. destruct (validate_file_ok sid c m bs ds _ (S (length ds)) r j p Hhead Hds) as (r' & E); [lia|done|]. by eexists _, _.
Qed.
End files.
