(* ===== verification/RaftLogSpec.v ===== *)
(** * What the log of a consensus group holds

    The log store refines a map from indexes to entries: appending writes the
    entries at their indexes, truncating and purging cut the map above and below,
    and reading a range lists the entries in order. *)

From Stdlib Require Import ZArith Lia.
From stdpp Require Import sorting gmap option strings base list.
From S2P Require Import Prelude BTreeError VfsFile Integrity Wal VfsPath VfsMemory VfsCompose KvmContext KvmRequest IdxStore RaftSnapshot RaftStore.

Open Scope Z_scope.

(** ** Maps in order *)

Section order.
Context {A : Type}.
Implicit Type m : gmap Z A.

#[local] Instance index_le_trans : Transitive (@index_le A).
Proof. intros a b c. unfold index_le. lia. Qed.
#[local] Instance index_le_total : Total (@index_le A).
Proof. intros a b. unfold index_le. lia. Qed.

Lemma elem_of_in_order m i a : (i, a) ∈ in_order m <-> m !! i = Some a.
Proof. unfold in_order. by rewrite merge_sort_Permutation, elem_of_map_to_list. Qed.

Lemma NoDup_in_order m : NoDup (in_order m).*1.
Proof. unfold in_order. rewrite merge_sort_Permutation. apply NoDup_fst_map_to_list. Qed.

(** The indexes increase strictly. *)
Lemma in_order_sorted m : StronglySorted Z.lt (in_order m).*1.
Proof.
  pose proof (StronglySorted_merge_sort index_le (map_to_list m)) as Hs. pose proof (NoDup_in_order m) as Hn. unfold in_order in *.
  induction Hs as [|a l Hl IH Ha]; cbn [fmap list_fmap] in *; [constructor|]. apply NoDup_cons in Hn as [Hni Hn]. constructor; [by apply IH|].
  apply Forall_fmap. rewrite Forall_forall in Ha |- *. intros b Hb. specialize (Ha b Hb). unfold index_le in Ha. cbn.
  assert (a.1 <> b.1); [|lia]. intros E. apply Hni. rewrite E. by apply list_elem_of_fmap_2.
Qed.

Lemma in_order_nil m : in_order m = [] -> m = ∅.
Proof. intros E. apply map_empty. intros i. destruct (m !! i) eqn:Hi; [|done]. apply elem_of_in_order in Hi. rewrite E in Hi. by apply not_elem_of_nil in Hi. Qed.

Lemma last_in_order m i a : last (in_order m) = Some (i, a) <-> m !! i = Some a /\ forall j, is_Some (m !! j) -> j <= i.
Proof.
  assert (Hlast : forall i a, last (in_order m) = Some (i, a) -> m !! i = Some a /\ forall j, is_Some (m !! j) -> j <= i).
  { clear. intros i a Hl. apply last_Some in Hl as [l Hl]. pose proof (in_order_sorted m) as Hs. rewrite Hl, fmap_app in Hs. split; [apply elem_of_in_order; rewrite Hl; set_solver|].
    intros j [b Hj]. apply elem_of_in_order in Hj. rewrite Hl in Hj. apply elem_of_app in Hj as [Hj|Hj]; [|apply list_elem_of_singleton in Hj; injection Hj; lia].
    apply StronglySorted_app in Hs as [Hs _]. specialize (Hs j i). apply (list_elem_of_fmap_2 fst) in Hj. cbn in Hs, Hj. specialize (Hs Hj). rewrite list_elem_of_singleton in Hs. specialize (Hs eq_refl). lia. }
  split; [apply Hlast|]. intros [Hi Hmax]. destruct (last (in_order m)) as [[j b]|] eqn:E.
  - destruct (Hlast j b eq_refl) as [Hj Hmax']. assert (i = j) as -> by (apply Z.le_antisymm; [apply Hmax'|apply Hmax]; eauto). by rewrite Hi in Hj; injection Hj as ->.
  - apply last_None in E. apply in_order_nil in E as ->. by rewrite lookup_empty in Hi.
Qed.

Lemma last_in_order_None m : last (in_order m) = None -> m = ∅.
Proof. rewrite last_None. apply in_order_nil. Qed.
End order.

(** ** The log as a map *)

Section log.
Context `{!RaftTypes, !Integrity.Hashes} {FS F : Type} `{!File F, !WriteAheadLogManager.FileSystemOps FS F, !Codec ConsensusLogRecord, !KvmRequest.CodecLaws ConsensusLogRecord}.
Context (segment_path : string -> Z -> string).
Import ConsensusLogStore.
Abbreviation store := (ConsensusLogStore.t FS F).

Abbreviation entries := (gmap Z RaftEntry).

(** The entries, the last entry purged, the vote and what was committed. *)
Record Log : Type := LogMk { log_entries : entries; log_purged : option LogId; log_vote : option Vote; log_committed : option LogId }.

Definition entry_index (e : RaftEntry) : Z := log_index (log_id e).

Definition log_append (es : list RaftEntry) (L : entries) : entries := foldl (fun L e => <[entry_index e := e]> L) L es.
Definition log_truncate (l : option LogId) (L : entries) : entries := match l with Some l => filter (fun e => e.1 <= log_index l) L | None => ∅ end.
Definition log_purge (l : LogId) (L : entries) : entries := filter (fun e => log_index l < e.1) L.

(** An index whose payloads are the entries. *)
Definition holds (ix : gmap Z (LogSequenceNumber * list Z)) (L : entries) : Prop := forall i,
  match L !! i, ix !! i with
  | Some e, Some (_, p) => entry_index e = i /\ to_bytes (EntryRecord e) = Some p
  | None, None => True
  | _, _ => False
  end.

Definition represents (x : store) (A : Log) : Prop :=
  holds (index x) (log_entries A) /\ last_purged_log_id x = log_purged A /\ vote x = log_vote A /\ committed x = log_committed A.

Lemma on_log_represents {B} (f : WriteAheadLogFile.t F -> wal_result B * WriteAheadLogFile.t F) x A : represents x A -> represents (on_log f x).2 A.
Proof. intros (Hi & Hp & Hv & Hc). unfold on_log. by destruct (f _). Qed.

Lemma index_holds_insert ix L e lsn p : holds ix L -> to_bytes (EntryRecord e) = Some p -> holds (<[entry_index e := (lsn, p)]> ix) (<[entry_index e := e]> L).
Proof. intros H' Hp i. destruct (decide (i = entry_index e)) as [->|Hne]; [by rewrite !lookup_insert_eq|]. rewrite !lookup_insert_ne by done. apply H'. Qed.

Lemma holds_filter ix L (P : Z * (LogSequenceNumber * list Z) -> Prop) (Q : Z * RaftEntry -> Prop) `{!forall e, Decision (P e), !forall e, Decision (Q e)} :
  (forall i p e, P (i, p) <-> Q (i, e)) -> holds ix L -> holds (filter P ix) (filter Q L).
Proof.
  intros HPQ H' i. specialize (H' i). rewrite !map_lookup_filter. destruct (L !! i) as [e|], (ix !! i) as [[lsn p]|]; try done. cbn. specialize (HPQ i (lsn, p) e). repeat case_guard; cbn; tauto.
Qed.

Lemma append_entries_represents data x A : represents x A -> let (r, x') := append_entries data x in represents x' A /\ forall lsns, r = Ok lsns -> length lsns = length data.
Proof.
  revert x. induction data as [|[l p] data IH]; intros x Hx; [by split; [|intros ? [= <-]]|]. cbn [append_entries]. unfold sbind.
  pose proof (on_log_represents (fun w => WriteAheadLogWriter.append w (Record_ 0 p) Buffered) x A Hx) as K1. destruct (on_log _ x) as [[lsn|e| |] x1]; try done.
  specialize (IH x1 K1). destruct (append_entries data x1) as [[lsns|e| |] x2]; destruct IH as [K2 Hl]; try done. split; [done|]. intros ? [= <-]. cbn. by rewrite (Hl lsns).
Qed.

Lemma index_entries_holds es data lsns ix L : serialize_entries es = Ok data -> length lsns = length data -> holds ix L -> holds (index_entries data lsns ix) (log_append es L).
Proof.
  revert data lsns ix L. induction es as [|e es IH]; intros data lsns ix L Hd Hl Hh; cbn [serialize_entries] in Hd.
  - injection Hd as <-. by destruct lsns.
  - unfold serialize_record in Hd. destruct (to_bytes (EntryRecord e)) as [p|] eqn:Hp; [|done]. cbn [ok_or rbind] in Hd. destruct (serialize_entries es) as [rest| | |]; try done. cbn [rbind] in Hd. injection Hd as <-.
    destruct lsns as [|lsn lsns]; [done|]. cbn [index_entries log_append foldl]. apply IH; [done|by injection Hl|]. by apply index_holds_insert.
Qed.

Lemma append_represents es x A : represents x A ->
  let (r, x') := append es x in represents x' (match r with Ok _ => LogMk (log_append es (log_entries A)) (log_purged A) (log_vote A) (log_committed A) | _ => A end).
Proof.
  intros Hx. unfold append, sbind, slift. destruct (serialize_entries es) as [data| | |] eqn:Hd; try done.
  pose proof (append_entries_represents data x A Hx) as K1. destruct (append_entries data x) as [[lsns|e| |] x1]; destruct K1 as [K1 Hl]; try done. specialize (Hl lsns eq_refl).
  pose proof (on_log_represents WriteAheadLogFile.sync x1 A K1) as K2. destruct (on_log _ x1) as [[[]|e| |] x2]; try done.
  destruct K2 as (Hi & Hp & Hv & Hc). split_and!; try done. by apply index_entries_holds.
Qed.

Lemma truncate_represents l x A : represents x A ->
  let (r, x') := truncate_after l x in represents x' (match r with Ok _ => LogMk (log_truncate l (log_entries A)) (log_purged A) (log_vote A) (log_committed A) | _ => A end).
Proof.
  intros (Hi & Hp & Hv & Hc). destruct l as [l|]; cbn [truncate_after log_truncate]; [|split_and!; try done; intros i; by rewrite !lookup_empty].
  unfold sbind, slift, next_index. destruct (_ <? _); [|done]. split_and!; try done. cbn [index with_index log_entries].
  apply holds_filter; [cbn; lia|done].
Qed.

(** Purging has its effect on the entries even if the old segments stay. *)
Lemma purge_represents l x A : represents x A -> log_index l + 1 < 2 ^ 64 ->
  represents (purge segment_path l x).2 (LogMk (log_purge l (log_entries A)) (Some l) (log_vote A) (log_committed A)).
Proof.
  intros (Hi & Hp & Hv & Hc) Hl. unfold purge, sbind, slift, next_index. rewrite (proj2 (Z.ltb_lt _ _)) by done.
  assert (Hh : holds (filter (fun e => log_index l + 1 <= e.1) (index x)) (log_purge l (log_entries A))).
  { apply holds_filter; [cbn; lia|done]. }
  cbv zeta. destruct (head _) as [[i [lsn p]]|]; [|by split_and!]. destruct (WriteAheadLogManager.truncate_before _ _ _). by split_and!.
Qed.

Lemma save_vote_represents v x A : represents x A ->
  let (r, x') := save_vote v x in represents x' (match r with Ok _ => LogMk (log_entries A) (log_purged A) (Some v) (log_committed A) | _ => A end).
Proof.
  intros Hx. unfold save_vote, sbind, slift. destruct (serialize_record _) as [p| | |]; try done.
  pose proof (on_log_represents (fun w => WriteAheadLogWriter.append w (Record_ 1 p) Sync) x A Hx) as K1. destruct (on_log _ x) as [[lsn|e| |] x1]; try done. destruct K1 as (Hi & Hp & Hv & Hc). by split_and!.
Qed.

Lemma save_committed_represents c x A : represents x A ->
  let (r, x') := save_committed c x in represents x' (match r with Ok _ => LogMk (log_entries A) (log_purged A) (log_vote A) c | _ => A end).
Proof.
  intros Hx. unfold save_committed, sbind. destruct c as [l|]; [|destruct Hx as (Hi & Hp & Hv & Hc); by split_and!]. unfold slift. destruct (serialize_record _) as [p| | |]; try done.
  pose proof (on_log_represents (fun w => WriteAheadLogWriter.append w (Record_ 2 p) Sync) x A Hx) as K1. destruct (on_log _ x) as [[lsn|e| |] x1]; try done. destruct K1 as (Hi & Hp & Hv & Hc). by split_and!.
Qed.

(** ** Reading *)

Definition indexes (L : entries) (b : Z * (LogSequenceNumber * list Z)) : Prop := exists e, L !! b.1 = Some e /\ entry_index e = b.1 /\ to_bytes (EntryRecord e) = Some b.2.2.

Lemma holds_indexes ix L b : holds ix L -> b ∈ in_order ix -> indexes L b.
Proof. destruct b as [i [lsn p]]. intros Hh Hb%elem_of_in_order. specialize (Hh i). rewrite Hb in Hh. destruct (L !! i) as [e|] eqn:E; [|done]. by exists e. Qed.

Lemma entries_of_indexes L l : Forall (indexes L) l ->
  exists es, entries_of ((fun b => b.2.2) <$> l) = Ok es /\ entry_index <$> es = l.*1 /\ Forall (fun e => L !! entry_index e = Some e) es.
Proof using All.
  induction 1 as [|b l (e & He & Hi & Hp) _ (es & E & Hes & Hf)]; [by exists []|]. exists (e :: es). cbn [fmap list_fmap entries_of]. unfold deserialize_record. rewrite (from_to _ _ Hp). cbn [ok_or rbind]. rewrite E. cbn [rbind].
  split; [done|]. split; [cbn; by rewrite Hi, Hes|]. constructor; [by rewrite Hi|done].
Qed.

Lemma sorted_filter_fst {B} (P : Z -> bool) (l : list (Z * B)) : StronglySorted Z.lt l.*1 -> StronglySorted Z.lt (filter (fun b => P b.1) l).*1.
Proof.
  induction l as [|b l IH]; [done|]. cbn [fmap list_fmap]. intros Hs%StronglySorted_inv. destruct Hs as [Hs Hb]. rewrite filter_cons. case_decide; [|by apply IH]. constructor; [by apply IH|].
  apply Forall_fmap, Forall_forall. rewrite Forall_forall in Hb. intros a [_ Ha]%list_elem_of_filter. by apply Hb, list_elem_of_fmap_2.
Qed.

(** What the entries in a range are. *)
Definition lists_range (lo hi : IndexBound) (L : entries) (es : list RaftEntry) : Prop :=
  StronglySorted Z.lt (entry_index <$> es) /\ forall e, e ∈ es <-> L !! entry_index e = Some e /\ in_bounds lo hi (entry_index e) = true.

Lemma read_range lo hi x A : represents x A -> range_panics lo hi = false -> exists es, try_get_log_entries lo hi x = Ok es /\ lists_range lo hi (log_entries A) es.
Proof using All.
  intros (Hh & _) Hr. unfold try_get_log_entries. rewrite Hr. set (l := filter _ _).
  assert (Hl : Forall (indexes (log_entries A)) l) by (apply Forall_forall; intros b [_ Hb]%list_elem_of_filter; by eapply holds_indexes).
  destruct (entries_of_indexes _ _ Hl) as (es & E & Hes & Hf). exists es. split; [done|]. split.
  - rewrite Hes. apply (sorted_filter_fst (in_bounds lo hi)), in_order_sorted.
  - intros e. split.
    + intros He. rewrite Forall_forall in Hf. split; [by apply Hf|]. apply (list_elem_of_fmap_2 entry_index) in He. rewrite Hes in He. apply list_elem_of_fmap in He as (b & -> & [Hb _]%list_elem_of_filter). by destruct (in_bounds lo hi b.1).
    + intros [He Hb]. pose proof (Hh (entry_index e)) as Hi. rewrite He in Hi. destruct (index x !! entry_index e) as [p|] eqn:Ex; [|done].
      assert (Hin : entry_index e ∈ entry_index <$> es). { rewrite Hes. apply list_elem_of_fmap. exists (entry_index e, p). split; [done|]. apply list_elem_of_filter. split; [cbn; by rewrite Hb|by apply elem_of_in_order]. }
      apply list_elem_of_fmap in Hin as (e' & Ei & He'). rewrite Forall_forall in Hf. specialize (Hf _ He'). rewrite <- Ei in Hf. rewrite He in Hf. by injection Hf as ->.
Qed.

(** The last entry, or the last one purged when there is none. *)
Definition last_of (A : Log) (l : option LogId) : Prop :=
  (log_entries A = ∅ /\ l = log_purged A) \/ exists e, l = Some (log_id e) /\ log_entries A !! entry_index e = Some e /\ forall i, is_Some (log_entries A !! i) -> i <= entry_index e.

Lemma holds_dom ix L i : holds ix L -> is_Some (L !! i) <-> is_Some (ix !! i).
Proof. intros Hh. specialize (Hh i). destruct (L !! i), (ix !! i) as [[]|]; try done; split; intros [? ?]; done. Qed.

Lemma log_state x A : represents x A -> exists l, get_log_state x = Ok (LogStateMk (log_purged A) l) /\ last_of A l.
Proof using All.
  intros (Hh & Hp & _). unfold get_log_state. rewrite Hp. destruct (last (in_order (index x))) as [[i [lsn p]]|] eqn:El.
  - apply last_in_order in El as [Hi Hmax]. pose proof (Hh i) as He. rewrite Hi in He. destruct (log_entries A !! i) as [e|] eqn:Ee; [|done]. destruct He as [He Hb].
    unfold deserialize_record. rewrite (from_to _ _ Hb). eexists. split; [done|]. right. exists e. rewrite He. split_and!; try done. intros j Hj. by apply Hmax, (holds_dom _ _ _ Hh).
  - apply last_in_order_None in El. eexists. split; [done|]. left. split; [|done]. apply map_empty. intros i. specialize (Hh i). rewrite El, lookup_empty in Hh. by destruct (log_entries A !! i).
Qed.

(** ** The contract *)

Definition ok {B} (r : stream_result B) : bool := match r with Ok _ => true | _ => false end.

(** The logs that operations with any outcome lead to. *)
Inductive log_reaches : store -> Log -> Prop :=
| lr_new m : log_reaches (new m) (LogMk ∅ None None None)
| lr_append es x A : log_reaches x A -> log_reaches (append es x).2 (if ok (append es x).1 then LogMk (log_append es (log_entries A)) (log_purged A) (log_vote A) (log_committed A) else A)
| lr_truncate l x A : log_reaches x A -> log_reaches (truncate_after l x).2 (if ok (truncate_after l x).1 then LogMk (log_truncate l (log_entries A)) (log_purged A) (log_vote A) (log_committed A) else A)
| lr_purge l x A : log_reaches x A -> log_index l + 1 < 2 ^ 64 -> log_reaches (purge segment_path l x).2 (LogMk (log_purge l (log_entries A)) (Some l) (log_vote A) (log_committed A))
| lr_vote v x A : log_reaches x A -> log_reaches (save_vote v x).2 (if ok (save_vote v x).1 then LogMk (log_entries A) (log_purged A) (Some v) (log_committed A) else A)
| lr_committed c x A : log_reaches x A -> log_reaches (save_committed c x).2 (if ok (save_committed c x).1 then LogMk (log_entries A) (log_purged A) (log_vote A) c else A).

Lemma reaches_represents x A : log_reaches x A -> represents x A.
Proof.
  induction 1 as [m|es x A _ IH|l x A _ IH|l x A _ IH Hl|v x A _ IH|c x A _ IH].
  - by split_and!.
  - pose proof (append_represents es x A IH) as H'. by destruct (append es x) as [[]].
  - pose proof (truncate_represents l x A IH) as H'. by destruct (truncate_after l x) as [[]].
  - by apply purge_represents.
  - pose proof (save_vote_represents v x A IH) as H'. by destruct (save_vote v x) as [[]].
  - pose proof (save_committed_represents c x A IH) as H'. by destruct (save_committed c x) as [[]].
Qed.

(** C39. The log of a group is a map from indexes to entries: after any operations,
    failed ones included, reading a range returns exactly the entries of the map
    in the range in the order of their indexes, the state of the log is its last
    entry and the last one purged, and vote and committed entry are those saved
    last. *)
Theorem raft_log_refines x A : log_reaches x A ->
  (forall lo hi, range_panics lo hi = false -> exists es, try_get_log_entries lo hi x = Ok es /\ lists_range lo hi (log_entries A) es) /\
  (exists l, get_log_state x = Ok (LogStateMk (log_purged A) l) /\ last_of A l) /\
  read_vote x = Ok (Some (default first_vote (log_vote A))) /\ read_committed x = Ok (log_committed A).
Proof using All.
  intros Hx%reaches_represents. split; [intros lo hi Hr; by apply read_range|]. split; [by apply log_state|]. destruct Hx as (_ & _ & Hv & Hc). unfold read_vote, read_committed. by rewrite Hv, Hc.
Qed.

(** A log store opened on the write-ahead log of another one has forgotten
    entries and vote. *)
Lemma restart_forgets x : get_log_state (new (log_store x) : store) = Ok (LogStateMk None None) /\ read_vote (new (log_store x) : store) = Ok (Some first_vote).
Proof. done. Qed.

(** The last index cannot be truncated after or purged. *)
Lemma last_index_panics_log l x : log_index l = 2 ^ 64 - 1 -> (truncate_after (Some l) x).1 = Panic /\ (purge segment_path l x).1 = Panic.
Proof. intros Hl. cbn [truncate_after]. unfold purge, sbind, slift, next_index. by rewrite Hl. Qed.
End log.
