(* ===== verification/RaftStateSpec.v ===== *)
(** * What the state machine of a consensus group does

    Applying entries is crash-safe: after any number of failures and restarts on
    the way the shard and the state of the machine are what applying the entries
    once makes of them.  A snapshot built on one node and installed on another
    gives the other one the shard and the applied entry of the first. *)

From Stdlib Require Import ZArith Lia Relations.
From stdpp Require Import gmap option strings base list sorting.
From S2P Require Import Prelude BTreeError VfsFile Integrity Wal VfsPath VfsMemory VfsCompose KvtRange KvtMemory KvmContext KvmRequest IdxStore IdxSpec RaftSnapshot RaftSnapshotSpec RaftStore.

Open Scope Z_scope.

(** ** Quorums *)

(** Two quorums have a replica in common, and the failures tolerated leave one;
    without a replica the number of failures underflows. *)
Lemma quorum_overlap c : (1 <= replication_factor c -> replication_factor c < 2 * quorum_size c /\ tolerable_failures c = Some (replication_factor c - quorum_size c)) /\
  (replication_factor c = 0 -> tolerable_failures c = None).
Proof.
  unfold tolerable_failures, quorum_size. split; intros Hc; [|by rewrite Hc]. pose proof (Z.div_mod (replication_factor c) 2 ltac:(lia)). pose proof (Z.mod_pos_bound (replication_factor c) 2 ltac:(lia)).
  split; [lia|]. by rewrite (proj2 (Z.leb_le _ _)) by lia.
Qed.

(** ** Writes *)

Abbreviation shard_map := (gmap (list Z) (list Z)).

Definition write_to (m : shard_map) (w : list Z * option (list Z)) : shard_map := match w.2 with Some v => <[w.1 := v]> m | None => delete w.1 m end.
Definition run_writes (ws : list (list Z * option (list Z))) (m : shard_map) : shard_map := foldl write_to m ws.

(** The writes of an operation, in order. *)
Fixpoint op_writes (o : Operation) : list (list Z * option (list Z)) :=
  match o with
  | OpPut key value => [(key, Some value)]
  | OpDelete key => [(key, None)]
  | OpBatch operations => flat_map op_writes operations
  end.

(** Some of the keys written have been written to. *)
Definition between (ws : list (list Z * option (list Z))) (m m' : shard_map) : Prop := forall k, k ∉ ws.*1 -> m' !! k = m !! k.

Lemma run_writes_app ws1 ws2 m : run_writes (ws1 ++ ws2) m = run_writes ws2 (run_writes ws1 m).
Proof. apply foldl_app. Qed.

Lemma run_writes_other ws m k : k ∉ ws.*1 -> run_writes ws m !! k = m !! k.
Proof.
  revert m. induction ws as [|[k' o] ws IH]; intros m Hk; [done|]. cbn in Hk. apply not_elem_of_cons in Hk as [Hne Hk]. cbn [run_writes foldl]. fold (run_writes ws (write_to m (k', o))). rewrite IH by done.
  unfold write_to. cbn. destruct o; [by rewrite lookup_insert_ne|by rewrite lookup_delete_ne].
Qed.

(** The writes decide about the keys they write. *)
Lemma run_writes_same ws m m' k : k ∈ ws.*1 -> run_writes ws m !! k = run_writes ws m' !! k.
Proof.
  revert m m'. induction ws as [|[k' o] ws IH]; intros m m' Hk; [by apply not_elem_of_nil in Hk|]. cbn [run_writes foldl]. fold (run_writes ws (write_to m (k', o))) (run_writes ws (write_to m' (k', o))).
  destruct (decide (k ∈ ws.*1)) as [Hin|Hni]; [by apply IH|]. rewrite !run_writes_other by done. cbn in Hk. apply elem_of_cons in Hk as [->|Hk]; [|done].
  unfold write_to. cbn. destruct o; [by rewrite !lookup_insert_eq|by rewrite !lookup_delete_eq].
Qed.

Lemma between_run ws m m' : between ws m m' -> run_writes ws m' = run_writes ws m.
Proof. intros Hb. apply map_eq. intros k. destruct (decide (k ∈ ws.*1)) as [Hin|Hni]; [by apply run_writes_same|]. rewrite !run_writes_other by done. by apply Hb. Qed.

Lemma between_prefix ws1 ws2 m m' : between (ws1 ++ ws2) m m' -> forall ws', ws' `prefix_of` ws1 -> between (ws1 ++ ws2) m (run_writes ws' m').
Proof. intros Hb ws' [ws'' ->] k Hk. rewrite run_writes_other; [by apply Hb|]. intros Hin. apply Hk. rewrite !fmap_app. set_solver. Qed.

Lemma between_refl ws m : between ws m m.
Proof. done. Qed.

(** Induction through batches. *)
Lemma operation_ind' (P : Operation -> Prop) : (forall k v, P (OpPut k v)) -> (forall k, P (OpDelete k)) -> (forall os, Forall P os -> P (OpBatch os)) -> forall o, P o.
Proof.
  intros HP HD HB. fix IH 1. intros [k v|k|os]; [apply HP|apply HD|]. apply HB. induction os as [|o os IHos]; constructor; [apply IH|apply IHos].
Qed.

(** ** What the state machine relies on *)

Class ClearLaws (E : Type) `{!Engine E, !EngineLaws E, !ClearEngine E} : Prop := clear_law : forall e s m, contents e s = Some m ->
  let (r, e') := engine_clear e s in (r = Ok tt /\ contents e' s = Some ∅) \/ (exists x, r = Err x /\ contents e' s = Some m).

(** Files that are created are empty, and opening one finds what was written. *)
Class SnapshotFiles (FS D : Type) `{!VfsCompose.FileSystem FS D, !Stream (FS * D), !StreamLaws (FS * D) string} : Prop := {
  create_law : forall fs path, match create_file_at fs path with (Ok h, fs') => at_ (fs', h) path 0 [] | (Err _, _) => True | _ => False end;
  open_law : forall fs d path p b, at_ (fs, d) path p b -> exists h, open_file_at fs path = Ok h /\ at_ (fs, h) path 0 b }.

#[export] Instance memory_snapshot_files : SnapshotFiles MemoryFileSystem.t MemoryFileSystem.handle.
Proof.
  split.
  - intros fs path. cbn. unfold MemoryFileSystem.create_file. destruct (MemoryFileSystem.tree fs !! path); [done|]. unfold MemoryFileSystem.register.
    destruct (Path.segments (Path.parse path)) as [|seg segs]; [|destruct (MemoryFileSystem.tree fs !! _) as [[names|i]|]; try done].
    all: split_and!; [done|by cbn; rewrite lookup_insert_eq|]; cbn; rewrite lookup_insert_eq; by eexists.
  - intros fs d path p b (Hc & Ht & lock & Hf). cbn. unfold MemoryFileSystem.open_file. rewrite Ht. eexists. split; [done|]. split_and!; [done|done|]. by exists lock.
Qed.

Section state.
Context `{!RaftTypes, !Integrity.Hashes, !Codecs} {E FS D : Type} `{!Engine E, !EngineLaws E, !ScanEngine E, !ClearEngine E, !VfsCompose.FileSystem FS D, !Stream (FS * D)}.
Context `{!Codec SnapshotMeta, !Codec RaftState, !KvmRequest.CodecLaws RaftState, !Codec (string * SnapshotMeta)}.
Import ConsensusStateStore.
Abbreviation store := (ConsensusStateStore.t E FS).

(** The shard of a store. *)
Definition shard (x : store) : option shard_map := contents (shard_storage x) (shard_id x).

(** Everything but the engine is the same. *)
Definition same_node (x x' : store) : Prop := x' = with_storage x (shard_storage x').

Lemma same_node_refl x : same_node x x.
Proof. by destruct x. Qed.

Lemma same_node_trans x y z : same_node x y -> same_node y z -> same_node x z.
Proof. unfold same_node. intros -> ->. done. Qed.

Lemma same_node_id x x' : same_node x x' -> shard_id x' = shard_id x /\ raft_state x' = raft_state x.
Proof. unfold same_node. intros ->. done. Qed.

Lemma put_shard {X : Type} (err : X) k v x m : shard x = Some m -> let (r, x') := on_shard err (fun e s => engine_put e s k v) x in
  same_node x x' /\ ((r = Ok tt /\ shard x' = Some (<[k := v]> m)) \/ (r = Err err /\ shard x' = Some m)).
Proof.
  intros Hm. unfold on_shard. pose proof (put_law _ _ _ k v Hm) as H'. destruct (engine_put _ _ k v) as [r e']. split; [done|]. destruct H' as [[-> Hc]|(err' & -> & Hc)]; [left|right]; done.
Qed.

Lemma delete_shard {X : Type} (err : X) k x m : shard x = Some m -> let (r, x') := on_shard err (fun e s => engine_delete e s k) x in
  same_node x x' /\ ((exists b, r = Ok b) /\ shard x' = Some (delete k m) \/ (r = Err err /\ shard x' = Some m)).
Proof.
  intros Hm. unfold on_shard. pose proof (delete_law _ _ _ k Hm) as H'. destruct (engine_delete _ _ k) as [r e']. split; [done|]. destruct H' as [[-> Hc]|(err' & -> & Hc)]; [left; eauto|right; done].
Qed.

Lemma get_shard_key {X : Type} (err : X) k x m : shard x = Some m -> let (r, x') := on_shard err (fun e s => engine_get e s k) x in
  same_node x x' /\ shard x' = Some m /\ (r = Ok (m !! k) \/ r = Err err).
Proof.
  intros Hm. unfold on_shard. pose proof (get_law _ _ _ k Hm) as H'. destruct (engine_get _ _ k) as [r e']. split; [done|]. destruct H' as [Hc [->|[err' ->]]]; auto.
Qed.

(** ** Operations *)

(** What a run that may stop on the way leaves: the writes done so far. *)
Definition ran {X A : Type} (ws : list (list Z * option (list Z))) (m : shard_map) (x : store) (out : result X A * store) : Prop :=
  same_node x out.2 /\ match out.1 with
  | Ok _ => shard out.2 = Some (run_writes ws m)
  | Err _ => exists ws', ws' `prefix_of` ws /\ shard out.2 = Some (run_writes ws' m)
  | _ => False
  end.

Lemma ran_bind {X A B : Type} ws1 ws2 m x (f : store -> result X A * store) (g : A -> store -> result X B * store) :
  ran ws1 m x (f x) -> (forall a x', f x = (Ok a, x') -> shard x' = Some (run_writes ws1 m) -> ran ws2 (run_writes ws1 m) x' (g a x')) -> ran (ws1 ++ ws2) m x (sbind f g x).
Proof.
  intros [Hs Hf] Hg. unfold sbind. destruct (f x) as [[a|e| |] x1]; cbn [fst snd] in *; try done.
  - destruct (Hg a x1 eq_refl Hf) as [Hs2 K2]. split; [by eapply same_node_trans|]. destruct (g a x1) as [[b|e| |] x2]; cbn [fst snd] in *; try done; [by rewrite run_writes_app|].
    destruct K2 as (ws' & Hp & K2). exists (ws1 ++ ws'). split; [by apply prefix_app|]. by rewrite run_writes_app.
  - split; [done|]. destruct Hf as (ws' & Hp & Hf). exists ws'. split; [|done]. by apply prefix_app_r.
Qed.

Lemma ran_ret {X A : Type} (a : A) m x : shard x = Some m -> ran [] m x (sret (E := X) a x).
Proof. intros Hm. split; [apply same_node_refl|done]. Qed.

Lemma ran_ret_app {X A B : Type} ws m x (f : store -> result X A * store) (b : B) : ran ws m x (f x) -> ran ws m x (sbind f (fun _ => sret b) x).
Proof. intros Hf. rewrite <- (app_nil_r ws). apply ran_bind; [done|]. intros a x' _ Hx'. by apply ran_ret. Qed.

Lemma apply_operation_ran o : forall x m, shard x = Some m -> ran (op_writes o) m x (apply_operation o x).
Proof.
  induction o as [k v|k|os IH] using operation_ind'; intros x m Hm; cbn [apply_operation]; apply ran_ret_app.
  - pose proof (put_shard (RaftStorage "") k v x m Hm) as H'. destruct (on_shard _ _ x) as [r x']. destruct H' as [Hs [[-> Hc]|[-> Hc]]]; (split; [done|]); [done|]. exists []. split; [apply prefix_nil|done].
  - pose proof (delete_shard (RaftStorage "") k x m Hm) as H'. destruct (on_shard _ _ x) as [r x']. destruct H' as [Hs [[[b ->] Hc]|[-> Hc]]]; (split; [done|]); [done|]. exists []. split; [apply prefix_nil|done].
  - cbn [op_writes]. revert x m Hm. induction IH as [|o os Ho _ IHos]; intros x m Hm; [by apply ran_ret|]. cbn [flat_map]. apply ran_bind; [by apply Ho|]. intros a x' _ Hx'. by apply IHos.
Qed.

(** ** Entries *)

Definition entry_writes (e : RaftEntry) : list (list Z * option (list Z)) := match entry_payload e with Normal o => op_writes o | _ => [] end.

(** The state of the machine after an entry. *)
Definition entry_state (s : RaftState) (e : RaftEntry) : RaftState :=
  set_applied (Some (log_id e)) (match entry_payload e with MembershipChange mm => set_membership (stored_membership (Some (log_id e)) mm) s | _ => s end).

Lemma apply_entry_ran e x m : shard x = Some m -> let (r, x') := apply_entry e x in shard_id x' = shard_id x /\
  match r with
  | Ok _ => shard x' = Some (run_writes (entry_writes e) m) /\ raft_state x' = entry_state (raft_state x) e
  | Err _ => exists ws', ws' `prefix_of` entry_writes e /\ shard x' = Some (run_writes ws' m)
  | _ => False
  end.
Proof.
  intros Hm. unfold apply_entry, entry_writes, entry_state, sbind, other. destruct (entry_payload e) as [|o|mm]; [done| |done].
  pose proof (apply_operation_ran o x m Hm) as [Hs Hr]. destruct (apply_operation o x) as [[a|err| |] x']; cbn [fst snd] in *; try done; apply same_node_id in Hs as [Hi Hs]; (split; [done|]); [|done]. split; [done|]. cbn. by rewrite Hs.
Qed.

Lemma apply_entries_ran es x m : shard x = Some m -> let (r, x') := apply_entries (Ok <$> es) x in shard_id x' = shard_id x /\
  match r with
  | Ok _ => shard x' = Some (run_writes (flat_map entry_writes es) m) /\ raft_state x' = foldl entry_state (raft_state x) es
  | Err _ => exists ws', ws' `prefix_of` flat_map entry_writes es /\ shard x' = Some (run_writes ws' m)
  | _ => False
  end.
Proof.
  revert x m. induction es as [|e es IH]; intros x m Hm; [done|]. cbn [fmap list_fmap apply_entries flat_map foldl]. unfold sbind.
  pose proof (apply_entry_ran e x m Hm) as K1. destruct (apply_entry e x) as [[[]|err| |] x1]; destruct K1 as [Hi K1]; try done.
  - destruct K1 as [K1 Hs]. specialize (IH x1 _ K1). destruct (apply_entries (Ok <$> es) x1) as [[u|err| |] x2]; destruct IH as [Hi2 IH]; try done; (split; [congruence|]).
    + rewrite run_writes_app, <- Hs. done.
    + destruct IH as (ws' & Hp & IH). exists (entry_writes e ++ ws'). split; [by apply prefix_app|]. by rewrite run_writes_app.
  - split; [done|]. destruct K1 as (ws' & Hp & K1). exists ws'. split; [by apply prefix_app_r|done].
Qed.

Lemma save_state_shard x m : shard x = Some m -> let (r, x') := save_state x in same_node x x' /\
  match r with
  | Ok _ => exists b, to_bytes (raft_state x) = Some b /\ shard x' = Some (<[state_key x := b]> m)
  | Err _ => shard x' = Some m
  | _ => False
  end.
Proof.
  intros Hm. unfold save_state, sbind, slift. destruct (to_bytes (raft_state x)) as [b|]; [|by split; [apply same_node_refl|]]. cbn [ok_or].
  pose proof (put_shard (RaftStorage "") (state_key x) b x m Hm) as K1. destruct (on_shard _ _ x) as [r x']. destruct K1 as [Hs [[-> Hc]|[-> Hc]]]; (split; [done|]); [by exists b|done].
Qed.

Lemma apply_ran es x m m' : shard x = Some m' -> between (flat_map entry_writes es) m m' -> let (r, x') := apply (Ok <$> es) x in shard_id x' = shard_id x /\
  match r with
  | Ok _ => raft_state x' = foldl entry_state (raft_state x) es /\ exists b, to_bytes (raft_state x') = Some b /\ shard x' = Some (<[state_key x := b]> (run_writes (flat_map entry_writes es) m))
  | Err _ => exists m'', shard x' = Some m'' /\ between (flat_map entry_writes es) m m''
  | _ => False
  end.
Proof.
  intros Hm Hb. unfold apply, sbind, other. pose proof (apply_entries_ran es x m' Hm) as K1. destruct (apply_entries (Ok <$> es) x) as [[[]|err| |] x1]; destruct K1 as [Hi K1]; try done.
  - destruct K1 as [K1 Hs]. pose proof (save_state_shard x1 _ K1) as K2. destruct (save_state x1) as [[[]|err| |] x2]; destruct K2 as [[Hi2 Hs2]%same_node_id K2]; try done; (split; [congruence|]).
    + split; [congruence|]. destruct K2 as (b & Hb' & K2). exists b. split; [by rewrite Hs2|]. rewrite K2, (between_run _ _ _ Hb). unfold state_key. by rewrite Hi.
    + eexists. split; [done|]. intros k Hk. rewrite run_writes_other by done. by apply Hb.
  - split; [done|]. destruct K1 as (ws' & [ws'' Hp] & K1). eexists. split; [done|]. intros k Hk. rewrite run_writes_other; [by apply Hb|]. rewrite Hp, fmap_app in Hk. set_solver.
Qed.

(** ** Restarts *)

(** The process starts again on the same shard. *)
Definition restart (x : store) : result ConsensusError unit * store := load_state (new (shard_id x) (shard_storage x) (snapshot_storage x) (files x)).

(** The state of the machine is what the shard has of it. *)
Definition saved (x : store) (m : shard_map) : Prop :=
  match m !! state_key x with Some b => from_bytes b = Some (raft_state x) | None => raft_state x = default_raft_state end.

(** Attempts to apply the entries that failed, and restarts after them. *)
Inductive retries (es : list RaftEntry) (x : store) : store -> Prop :=
| retry_none : retries es x x
| retry_again y z err : retries es x y -> (apply (Ok <$> es) y).1 = Err err -> restart (apply (Ok <$> es) y).2 = (Ok tt, z) -> retries es x z.

Lemma restart_saved x y m m' z : saved x m -> shard_id y = shard_id x -> shard y = Some m' -> m' !! state_key x = m !! state_key x -> restart y = (Ok tt, z) ->
  shard_id z = shard_id x /\ raft_state z = raft_state x /\ shard z = Some m'.
Proof.
  intros Hsv Hi Hm Hk Hr. unfold restart, load_state, sbind in Hr. set (y0 := new _ _ _ _) in Hr. assert (Hm0 : shard y0 = Some m') by done. assert (Hk0 : state_key y0 = state_key x) by (unfold state_key; by rewrite <- Hi).
  pose proof (get_shard_key (RaftStorage "") (state_key y0) y0 m' Hm0) as K1. destruct (on_shard _ _ y0) as [r y1]. destruct K1 as (Hn & Hm1 & [->| ->]); [|done].
  rewrite Hk0, Hk in Hr. unfold saved in Hsv. destruct (m !! state_key x) as [b|].
  - unfold slift in Hr. rewrite Hsv in Hr. cbn [ok_or] in Hr. injection Hr as <-. split_and!; [|done|done]. cbn. apply same_node_id in Hn as [-> _]. done.
  - injection Hr as <-. apply same_node_id in Hn as [Hi1 Hs1]. split_and!; [by rewrite Hi1|by rewrite Hs1, Hsv|done].
Qed.

Lemma retries_state es x y m : shard x = Some m -> saved x m -> state_key x ∉ (flat_map entry_writes es).*1 -> retries es x y ->
  shard_id y = shard_id x /\ raft_state y = raft_state x /\ exists m', shard y = Some m' /\ between (flat_map entry_writes es) m m'.
Proof.
  intros Hm Hsv Hk. induction 1 as [|y z err _ IH He Hz]; [by split_and!; eauto using between_refl|]. destruct IH as (Hi & Hs & m' & Hm' & Hb).
  pose proof (apply_ran es y m m' Hm' Hb) as K1. destruct (apply (Ok <$> es) y) as [r y1]. cbn [fst snd] in *. subst r. destruct K1 as [Hi1 (m'' & Hm'' & Hb'')].
  destruct (restart_saved x y1 m m'' z) as (? & ? & ?); try done; [congruence|by apply Hb''|]. split_and!; eauto.
Qed.

(** C36. Applying entries survives crashes: when an attempt fails on the way and
    the process restarts on the shard, any number of times, the next attempt
    succeeds with the shard and the state of the machine that applying the
    entries once to the shard of the start would give, or fails and leaves all
    keys that the entries do not write alone; it never panics. *)
Theorem raft_apply_crash_safe es x y m : shard x = Some m -> saved x m -> state_key x ∉ (flat_map entry_writes es).*1 -> retries es x y ->
  let (r, y') := apply (Ok <$> es) y in
  match r with
  | Ok _ => raft_state y' = foldl entry_state (raft_state x) es /\ exists b, to_bytes (raft_state y') = Some b /\ shard y' = Some (<[state_key x := b]> (run_writes (flat_map entry_writes es) m))
  | Err _ => exists m', shard y' = Some m' /\ between (flat_map entry_writes es) m m'
  | _ => False
  end.
Proof.
  intros Hm Hsv Hk Hr. destruct (retries_state es x y m Hm Hsv Hk Hr) as (Hi & Hs & m' & Hm' & Hb). pose proof (apply_ran es y m m' Hm' Hb) as K1. destruct (apply (Ok <$> es) y) as [r y'].
  destruct K1 as [_ K1]. rewrite Hs in K1. unfold state_key in *. by rewrite <- Hi.
Qed.

(** ** Snapshots *)

Context `{!Integrity.HashLaws, !Integrity.CodecLaws, !ScanLaws E, !ClearLaws E, !StreamLaws (FS * D) string, !SnapshotFiles FS D, !KvmRequest.CodecLaws SnapshotMeta}.

(** Outcomes without a panic or an endless loop. *)
Definition regular {X A : Type} (r : result X A) (P : A -> Prop) : Prop := match r with Ok a => P a | Err _ => True | _ => False end.

Lemma open_snapshot_ok c (meta : SnapshotMeta) pre rest (x : store) sid d p : head_of c meta pre -> at_ (files x, d) (Path.to_string (SnapshotManager.snapshot_path (snapshot_storage x) sid)) p (pre ++ rest) ->
  exists x' d', open_snapshot sid x = (Ok d', x') /\ x' = with_files x (files x') /\ at_ (files x', d') (Path.to_string (SnapshotManager.snapshot_path (snapshot_storage x) sid)) (length pre) (pre ++ rest).
Proof using All.
  intros Hhead Hat. destruct (open_law _ _ _ _ _ Hat) as (h & Ho & Hat0). unfold open_snapshot, sbind, on_files, SnapshotManager.snapshot_reader. rewrite Ho. cbn [SnapshotManager.fs_kv].
  destruct (open_head c meta pre rest _ _ Hhead Hat0) as (rd & fm & w' & -> & _ & _ & Hat1 & ->). destruct rd as [cfg [fs' d']]. cbn. eexists _, d'. split; [done|]. by split.
Qed.

Lemma remember_ok sid meta x m : shard x = Some m -> let (r, x') := remember sid meta x in regular r (fun _ =>
  exists b, shard x' = Some (<[meta_key x := b]> m) /\ raft_state x' = raft_state x /\ files x' = files x).
Proof.
  intros Hm. unfold remember, sbind, slift. destruct (to_bytes (sid, meta)) as [b|]; [|done]. cbn [ok_or]. pose proof (put_shard OtherError (meta_key x) b x m Hm) as K1.
  destruct (on_shard _ _ x) as [r x']. destruct K1 as [Hn [[-> Hc]|[-> Hc]]]; [|done]. exists b. split; [done|]. by rewrite Hn.
Qed.

(** A snapshot file of a shard. *)
Definition snapshot_of (c : SnapshotConfig) (meta : SnapshotMeta) (m : shard_map) (b : list Z) : Prop :=
  exists pre bs ds, b = pre ++ concat ds /\ head_of c meta pre /\ Forall2 (chunk_of c) bs ds /\ forall k v, (k, v) ∈ concat bs <-> m !! k = Some v.

(** What snapshots need of the configuration and the pairs. *)
Definition snapshot_fits (c : SnapshotConfig) (meta : SnapshotMeta) (m : shard_map) : Prop :=
  compresses (compression c) /\ 0 <= block_size c /\ (forall b, to_bytes meta = Some b -> Z.of_nat (length b) < 2 ^ 32) /\ forall k v, m !! k = Some v -> fits c (k, v).

Lemma new_writer_total c (meta : SnapshotMeta) (w : FS * D) i : (forall b, to_bytes meta = Some b -> Z.of_nat (length b) < 2 ^ 32) -> at_ w i 0 [] ->
  (exists pre x, head_of c meta pre /\ SnapshotWriter.new c meta w = (Ok x, SnapshotWriter.writer x) /\ writes c i pre [] x) \/ exists w', SnapshotWriter.new c meta w = (Err KvStdIoError, w').
Proof using All.
  intros Hl Hat. destruct (to_bytes meta) as [mb|] eqn:Hm.
  - left. eexists. assert (Hhead : head_of c meta (file_header c (Z.of_nat (length mb)) ++ mb)) by (exists mb; eauto). destruct (new_writer c meta _ w i Hhead Hat) as (x & w' & E' & -> & Hx). by exists x.
  - right. unfold SnapshotWriter.new, sbind, slift. destruct (write_all_law _ _ _ _ (replicate FILE_HEADER_SIZE 0) Hat) as (w1 & -> & _). rewrite Hm. by eexists.
Qed.

Lemma scan_all x m : shard x = Some m -> let (r, x') := on_shard OtherError (fun e s => engine_scan e s KeyRange.all) x in
  same_node x x' /\ shard x' = Some m /\ regular r (fun kvs => forall k v, (k, v) ∈ kvs <-> m !! k = Some v).
Proof using All.
  intros Hm. unfold on_shard. pose proof (scan_law _ _ _ KeyRange.all Hm eq_refl) as K1. destruct (engine_scan _ _ _) as [r e']. destruct K1 as [Hc K1]. split; [done|]. split; [done|].
  destruct K1 as [(es & _ & Hes & ->)|[err ->]]; [|done]. intros k v. cbn. rewrite Hes. cbn. intuition.
Qed.

Lemma build_ok sid x m c : shard x = Some m -> c = SnapshotManager.config (snapshot_storage x) ->
  snapshot_fits c (SMeta (rs_last_applied (raft_state x)) (rs_last_membership (raft_state x)) sid) m ->
  let (r, x') := build_snapshot sid x in regular r (fun '(meta, d) => meta = SMeta (rs_last_applied (raft_state x)) (rs_last_membership (raft_state x)) sid /\
    exists i p b, at_ (files x', d) i p b /\ snapshot_of c meta m b).
Proof using All.
  intros Hm Hcfg (Hcomp & H0' & Hmeta & Hfits). unfold build_snapshot, applied_state. set (meta := SMeta _ _ _) in *. unfold sbind at 1. unfold on_files, SnapshotManager.snapshot_writer. rewrite <- Hcfg.
  set (path := Path.to_string _). pose proof (create_law (files x) path) as K1. destruct (create_file_at (files x) path) as [[h|err| |] fs1]; try done. cbn [SnapshotManager.fs_kv].
  destruct (new_writer_total c meta (fs1, h) path Hmeta K1) as [(pre & w & Hhead & -> & Hw)|[w' ->]]; [|done]. unfold sbind at 1.
  set (x1 := with_files x _). pose proof (scan_all x1 m Hm) as K2. destruct (on_shard OtherError _ x1) as [[kvs|err| |] x2]; destruct K2 as (Hn & Hm2 & Hkvs); try done. cbn [regular] in Hkvs.
  destruct (finish_writes c path kvs pre w) as (w2 & bs & ds & E2 & Hbs & Hds & Hat); try done; [apply Forall_forall; intros [k v] Hkv; by apply Hfits, Hkvs|].
  unfold sbind at 1. rewrite E2. unfold sbind at 1. set (x3 := with_files x2 _).
  destruct (SnapshotWriter.writer w2) as [fs3 d3] eqn:Ew. assert (Hp : path = Path.to_string (SnapshotManager.snapshot_path (snapshot_storage x3) sid)) by (unfold x3; rewrite Hn; done). rewrite Hp in Hat.
  destruct (open_snapshot_ok c meta pre (concat ds) x3 sid d3 _ Hhead Hat) as (x4 & d4 & -> & Hx4 & Hat4).
  unfold sbind at 1. set (x5 := match rs_last_applied (raft_state x) with Some l => with_state x4 (set_snapshot l (raft_state x4)) | None => x4 end).
  assert (Hm5 : shard x5 = Some m) by (unfold x5; case_match; rewrite Hx4; done). assert (Hf5 : files x5 = files x4) by (unfold x5; case_match; done).
  unfold sbind. pose proof (remember_ok sid meta x5 m Hm5) as K6. destruct (remember sid meta x5) as [[[]|err| |] x6]; try done. destruct K6 as (b & _ & _ & Hf6).
  split; [done|]. eexists _, _, _. split; [rewrite Hf6, Hf5; exact Hat4|]. exists pre, bs, ds. split_and!; try done. by rewrite Hbs.
Qed.

Definition put_all (kvs : pairs) (m : shard_map) : shard_map := foldl (fun m kv => <[kv.1 := kv.2]> m) m kvs.

Lemma put_all_other (kvs : pairs) (m : shard_map) k : k ∉ kvs.*1 -> put_all kvs m !! k = m !! k.
Proof. revert m. induction kvs as [|[k' v] kvs IH]; intros m Hk; [done|]. cbn in Hk. apply not_elem_of_cons in Hk as [Hne Hk]. cbn. unfold put_all in IH. rewrite IH by done. by rewrite lookup_insert_ne. Qed.

Lemma put_all_listed (kvs : pairs) (m0 m : shard_map) : (forall (k v : list Z), (k, v) ∈ kvs -> m !! k = Some v) -> forall k : list Z, k ∈ kvs.*1 -> put_all kvs m0 !! k = m !! k.
Proof.
  revert m0. induction kvs as [|[k' v] kvs IH]; intros m0 Hm k Hk; [by apply not_elem_of_nil in Hk|]. change (put_all ((k', v) :: kvs) m0) with (put_all kvs (<[k' := v]> m0)). destruct (decide (k ∈ kvs.*1)) as [Hin|Hni].
  - apply IH; [|done]. intros k1 v1 H'. apply Hm. by right.
  - rewrite put_all_other by done. cbn in Hk. apply elem_of_cons in Hk as [->|Hk]; [|done]. cbn. rewrite lookup_insert_eq. symmetry. apply Hm. by left.
Qed.

(** Putting all pairs of a map into an empty one gives it back. *)
Lemma put_all_map (kvs : pairs) (m : shard_map) : (forall k v, (k, v) ∈ kvs <-> m !! k = Some v) -> put_all kvs ∅ = m.
Proof.
  intros Hkvs. apply map_eq. intros k. destruct (decide (k ∈ kvs.*1)) as [Hin|Hni]; [apply put_all_listed; [intros ? ?; apply Hkvs|done]|].
  rewrite put_all_other, lookup_empty by done. destruct (m !! k) as [v|] eqn:Hk; [|done]. destruct Hni. apply Hkvs in Hk. by apply (list_elem_of_fmap_2 fst) in Hk.
Qed.

Lemma put_pairs_ok kvs x m : shard x = Some m -> let (r, x') := put_pairs kvs x in same_node x x' /\ regular r (fun _ => shard x' = Some (put_all kvs m)).
Proof.
  revert x m. induction kvs as [|[k v] kvs IH]; intros x m Hm; [by split; [apply same_node_refl|]|]. cbn [put_pairs]. unfold sbind.
  pose proof (put_shard OtherError k v x m Hm) as K1. destruct (on_shard _ _ x) as [r x1]. destruct K1 as [Hn [[-> Hc]|[-> Hc]]]; [|done].
  specialize (IH x1 _ Hc). destruct (put_pairs kvs x1) as [r2 x2]. destruct IH as [Hn2 K2]. split; [by eapply same_node_trans|done].
Qed.

Lemma install_blocks_ok bs rd : blocks_of rd bs -> forall fuel x m, (length bs < fuel)%nat -> shard x = Some m -> let (r, x') := install_blocks fuel rd x in
  x' = with_files (with_storage x (shard_storage x')) (files x') /\ regular r (fun _ => shard x' = Some (put_all (concat bs) m)).
Proof.
  induction 1 as [rd rd' Hn|rd rd' kvs bs Hn _ IH]; intros [|fuel] x m Hf Hm; cbn [length concat] in *; try lia; cbn [install_blocks]; rewrite Hn; [done|].
  unfold sbind. set (x1 := with_files x _). pose proof (put_pairs_ok kvs x1 m Hm) as K1. destruct (put_pairs kvs x1) as [[[]|err| |] x2]; destruct K1 as [Hs K1]; try done; [|by rewrite Hs].
  specialize (IH fuel x2 _ ltac:(lia) K1). destruct (install_blocks fuel rd' x2) as [r x3]. destruct IH as [Hx3 K3]. split; [rewrite Hx3; by rewrite Hs|]. unfold put_all in *. by rewrite foldl_app.
Qed.

Lemma read_received_ok {V J : Type} `{!Stream V, !StreamLaws V J} (v : V) j p b : at_ v j p b -> read_received v = Ok b.
Proof.
  intros Hat. unfold read_received. rewrite (size_law _ _ _ _ Hat). cbn [rbind]. rewrite Nat2Z.id. unfold sbind. destruct (seek_start_law _ _ _ _ 0 Hat) as (w1 & -> & Hat1); [lia|].
  destruct (read_exact_law _ _ _ _ (length b) Hat1) as (w2 & -> & _); [change (Z.to_nat 0) with 0%nat; lia|]. change (Z.to_nat 0) with 0%nat. rewrite drop_0. by rewrite firstn_all.
Qed.

Lemma chunks_bound c bs ds : Forall2 (chunk_of c) bs ds -> (length bs <= length (concat ds))%nat.
Proof. induction 1 as [|kvs d bs ds (_ & _ & z & _ & _ & ->) _ IH]; [done|]. cbn [length concat]. rewrite !length_app, length_chunk_header. unfold CHUNK_HEADER_SIZE. lia. Qed.

Lemma clear_shard x m : shard x = Some m -> let (r, x') := on_shard OtherError engine_clear x in same_node x x' /\ regular r (fun _ => shard x' = Some ∅).
Proof using All. intros Hm. unfold on_shard. pose proof (clear_law _ _ _ Hm) as K1. destruct (engine_clear _ _) as [r e']. split; [done|]. destruct K1 as [[-> Hc]|(err & -> & Hc)]; done. Qed.

(** The file of the follower once the snapshot is in its directory. *)
Lemma receive_ok c meta pre rest (y : store) (P : store -> Prop) (k : SnapshotReader.t (FS * D) * SnapshotFileMetadata SnapshotMeta -> sop store unit) :
  head_of c meta pre ->
  (forall rd fm y', y' = with_files y (files y') -> SnapshotReader.config rd = SnapConfig (integrity c) (compression c) (encryption c) 0 ->
    (exists i, at_ (SnapshotReader.reader rd) i (length pre) (pre ++ rest)) -> let (r, y'') := k (rd, fm) y' in regular r (fun _ => P y'')) ->
  let (r, y') := (let+ data := on_files (fun m fs => SnapshotManager.snapshot_data m (snapshot_id meta) fs) in
    let+ _ := on_file (SnapshotData.file data) (let+ _ := write_all (pre ++ rest) in flush_stream) in
    let+ q := on_files (fun m fs => SnapshotManager.snapshot_reader (Meta := SnapshotMeta) m (snapshot_id meta) fs) in k q) y in regular r (fun _ => P y').
Proof using All.
  intros Hhead Hk. unfold sbind at 1. unfold on_files at 1, SnapshotManager.snapshot_data. set (path := Path.to_string _).
  pose proof (create_law (files y) path) as K1. destruct (create_file_at (files y) path) as [[h|err| |] fs1]; try done. cbn [SnapshotManager.fs_kv rbind SnapshotData.new SnapshotData.file].
  unfold sbind at 1. unfold on_file, sbind at 1. destruct (write_all_law _ _ _ _ (pre ++ rest) K1) as (w1 & -> & Hat1). rewrite overwrite_nil in Hat1.
  destruct (flush_law _ _ _ _ Hat1) as (w2 & -> & Hat2). cbn [rbind]. destruct w2 as [fs2 d2]. cbn [fst]. unfold sbind. unfold on_files, SnapshotManager.snapshot_reader.
  destruct (open_law _ _ _ _ _ Hat2) as (h3 & Ho & Hat3). change (snapshot_storage (with_files (with_files y fs1) fs2)) with (snapshot_storage y). change (files (with_files (with_files y fs1) fs2)) with fs2. fold path. rewrite Ho. cbn [SnapshotManager.fs_kv].
  destruct (open_head c meta pre rest _ _ Hhead Hat3) as (rd & fm & w' & -> & _ & Hc & Hat4 & ->). set (y' := with_files _ _). specialize (Hk rd fm y' eq_refl Hc (ex_intro (fun i => at_ (SnapshotReader.reader rd) i (length pre) (pre ++ rest)) path Hat4)).
  by destruct (k (rd, fm) y') as [[[]|err| |] y''].
Qed.

Lemma install_ok {V J : Type} `{!Stream V, !StreamLaws V J} c meta m m0 b (v : V) j p y : snapshot_of c meta m b -> at_ v j p b -> shard y = Some m0 ->
  let (r, y') := install_snapshot meta v y in regular r (fun _ => raft_state y' = set_installed meta (raft_state y) /\
    exists sb mb, to_bytes (raft_state y') = Some sb /\ shard y' = Some (<[meta_key y := mb]> (<[state_key y := sb]> m))).
Proof using All.
  intros (pre & bs & ds & -> & Hhead & Hds & Hm) Hat Hy. unfold install_snapshot. unfold sbind at 1. unfold slift at 1. rewrite (read_received_ok _ _ _ _ Hat).
  apply (receive_ok c meta pre (concat ds) y (fun y' => raft_state y' = set_installed meta (raft_state y) /\ exists sb mb, to_bytes (raft_state y') = Some sb /\ shard y' = Some (<[meta_key y := mb]> (<[state_key y := sb]> m))) _ Hhead).
  intros rd fm y1 Hy1 Hc [i Hrd]. pose proof (read_all_chunks c bs ds rd i pre Hds Hc Hrd) as Hblocks. assert (Hm1 : shard y1 = Some m0) by (by rewrite Hy1).
  assert (Hs1 : raft_state y1 = raft_state y /\ shard_id y1 = shard_id y) by (by rewrite Hy1). clear Hy1. unfold sbind at 1.
  pose proof (clear_shard y1 m0 Hm1) as K2. destruct (on_shard OtherError engine_clear y1) as [[[]|err| |] y2]; destruct K2 as [[Hi2 Hs2]%same_node_id K2]; try done.
  unfold sbind at 1. pose proof (install_blocks_ok bs rd Hblocks (S (length (pre ++ concat ds))) y2 ∅) as K3. destruct (install_blocks _ rd y2) as [[[]|err| |] y3]; (destruct K3 as [Hx3 K3]; [rewrite length_app; pose proof (chunks_bound c bs ds Hds); lia|done|]); try done.
  cbn [regular] in K3. rewrite (put_all_map _ m Hm) in K3. assert (Hs3 : raft_state y3 = raft_state y2 /\ shard_id y3 = shard_id y2) by (by rewrite Hx3). clear Hx3. destruct Hs1 as [Hs1 Hi1], Hs3 as [Hs3 Hi3].
  unfold sbind at 1. set (y4 := with_state y3 _). unfold sbind at 1, other. pose proof (save_state_shard y4 m K3) as K5. destruct (save_state y4) as [[[]|err| |] y5]; destruct K5 as [[Hi5 Hs5]%same_node_id K5]; try done.
  destruct K5 as (sb & Hsb & Hm5). assert (Hst : raft_state y5 = set_installed meta (raft_state y)) by (rewrite Hs5; unfold y4; cbn; by rewrite Hs3, Hs2, Hs1).
  pose proof (remember_ok (snapshot_id meta) meta y5 _ Hm5) as K6. destruct (remember (snapshot_id meta) meta y5) as [[[]|err| |] y6]; try done. destruct K6 as (mb & Hm6 & Hs6 & _).
  split; [by rewrite Hs6|]. exists sb, mb. split; [by rewrite Hs6, Hs5|]. rewrite Hm6. unfold meta_key, state_key. rewrite Hi5. unfold y4. cbn [shard_id with_state]. by rewrite Hi3, Hi2, Hi1.
Qed.

(** C37. A snapshot brings a node up to date: when a node builds a snapshot and
    the bytes of its file reach another node, through any file, installing them
    there ends, without a panic, with an error or with exactly the pairs of the
    first node's shard beside the two records of the machine, the entry that the
    first node had applied and its membership; whatever the other node had
    before is gone. *)
Theorem snapshot_transfer {V J : Type} `{!Stream V, !StreamLaws V J} sid (x y : store) m m0 : shard x = Some m -> shard y = Some m0 ->
  snapshot_fits (SnapshotManager.config (snapshot_storage x)) (SMeta (rs_last_applied (raft_state x)) (rs_last_membership (raft_state x)) sid) m ->
  let (r, x') := build_snapshot sid x in
  regular r (fun '(meta, d) => exists i p b, at_ (files x', d) i p b /\ forall (v : V) j q, at_ v j q b ->
    let (r, y') := install_snapshot meta v y in
    regular r (fun _ => applied_state y' = applied_state x /\
      exists sb mb, to_bytes (raft_state y') = Some sb /\ shard y' = Some (<[meta_key y := mb]> (<[state_key y := sb]> m)))).
Proof using All.
  intros Hx Hy Hfits. pose proof (build_ok sid x m _ Hx eq_refl Hfits) as K1. destruct (build_snapshot sid x) as [[[meta d]|err| |] x']; try done. destruct K1 as (-> & i & p & b & Hat & Hb).
  exists i, p, b. split; [done|]. intros v j q Hv. pose proof (install_ok _ _ m m0 b v j q y Hb Hv Hy) as K2. destruct (install_snapshot _ v y) as [[[]|err| |] y']; try done.
  destruct K2 as [Hs K2]. split; [|done]. unfold applied_state. by rewrite Hs.
Qed.
End state.
