(* ===== verification/RaftDemo.v ===== *)
(** * A consensus group on in-memory files

    Instances of everything the storage of a group relies on, among them an
    engine that fails when told to, the concrete runs on which the theorems apply,
    and inputs on which the code does something else than it means to. *)

From Stdlib Require Import ZArith Lia.
From stdpp Require Import gmap option strings base list countable sorting.
From S2P Require Import Prelude BTreeError VfsFile Integrity Wal VfsPath VfsMemory VfsCompose KvtRange KvtMemory KvtResolver KvmContext KvmRequest KvmDemo IdxStore IdxSpec IdxDemo RaftSnapshot RaftSnapshotSpec RaftStore RaftLogSpec RaftStateSpec.

Open Scope Z_scope.

(** ** Instances *)

(** The in-memory store with a plan of the writes that fail. *)
Record flaky : Type := Flaky { flaky_mem : mem; flaky_plan : list bool }.

Definition planned {A} (f : mem -> kv_result A * mem) (e : flaky) : kv_result A * flaky :=
  match flaky_plan e with
  | false :: plan => (Err KvIoError, Flaky (flaky_mem e) plan)
  | plan => let '(r, m) := f (flaky_mem e) in (r, Flaky m (tail plan))
  end.

#[export] Instance flaky_engine : Engine flaky := {
  engine_get e s k := (MemoryKeyValueShardStore.get (flaky_mem e) s k, e);
  engine_put e s k v := planned (fun m => MemoryKeyValueShardStore.put m s k v) e;
  engine_delete e s k := planned (fun m => MemoryKeyValueShardStore.delete m s k) e;
  engine_drop_shard e s := planned (fun m => MemoryKeyValueShardStore.drop_shard m s) e }.

Definition flaky_contents (e : flaky) (s : Z) : option (gmap (list Z) (list Z)) := MemoryKeyValueShardStore.shards (flaky_mem e) !! s.

#[export, refine] Instance flaky_laws : EngineLaws flaky := { contents := flaky_contents }.
Proof.
  - intros e s m k Hm. exact (get_law (flaky_mem e) s m k Hm).
  - intros [e plan] s m k v Hm. cbn. unfold planned. pose proof (put_law e s m k v Hm) as Hp. cbn [engine_put mem_engine flaky_mem flaky_plan] in *.
    destruct plan as [|[] plan]; [| |by right; eexists]; destruct (MemoryKeyValueShardStore.put e s k v); exact Hp.
  - intros [e plan] s m k Hm. cbn. unfold planned. pose proof (delete_law e s m k Hm) as Hp. cbn [engine_delete mem_engine flaky_mem flaky_plan] in *.
    destruct plan as [|[] plan]; [| |by right; eexists]; destruct (MemoryKeyValueShardStore.delete e s k); exact Hp.
Defined.

#[export] Instance flaky_scan : ScanEngine flaky := {
  engine_exists e s k := (MemoryKeyValueShardStore.exists_ (flaky_mem e) s k, e);
  engine_scan e s q := ((let! it := MemoryKeyValueShardStore.scan (flaky_mem e) s q in Ok (MemoryKeyValueIterator.items it)), e) }.

#[export] Instance flaky_scan_laws : ScanLaws flaky.
Proof.
  split.
  - intros e s m k Hm. exact (exists_law (flaky_mem e) s m k Hm).
  - intros e s m q Hm Hv. exact (scan_law (flaky_mem e) s m q Hm Hv).
Qed.

#[export] Instance flaky_clear : ClearEngine flaky := { engine_clear e s := planned (fun m => MemoryKeyValueShardStore.clear m s) e }.

#[export] Instance flaky_clear_laws : ClearLaws flaky.
Proof.
  intros [e plan] s m Hm. cbn in *. unfold planned, flaky_contents in *. cbn [flaky_mem flaky_plan] in *.
  destruct plan as [|[] plan]; [| |by right; eexists]; unfold MemoryKeyValueShardStore.clear, MemoryKeyValueShardStore.on_shard, MemoryKeyValueShardStore.get_shard; rewrite Hm; left; (split; [done|]); apply lookup_insert_eq.
Qed.

(** A compression that changes nothing. *)
#[export] Instance plain_codecs : Codecs := {|
  lz4_compress := Some; lz4_decompress z n := if Z.of_nat (length z) <=? n then Some z else None;
  zstd_encode_all := Some; zstd_decode_all := Some; snappy_compress := Some; snappy_decompress := Some |}.

#[export] Instance plain_codec_laws : Integrity.CodecLaws.
Proof. split; cbn; [|congruence..]. intros x z n [= <-]. done. Qed.

Lemma plain_compresses c : compresses c.
Proof. intros raw Hl. exists raw. split; [by destruct c|lia]. Qed.

(** Terms and indexes, votes of terms and nodes, memberships of nodes. *)
#[export] Instance demo_types : RaftTypes := {|
  LogId := Z * Z; log_index := snd; Vote := Z * Z; first_vote := (0, 0); Membership := list Z; StoredMembership := option (Z * Z) * list Z;
  stored_membership l m := (l, m); no_membership := (None, []) |}.

#[export] Instance meta_codec : Codec SnapshotMeta := {|
  to_bytes m := Some (number ((last_log_id m : option (Z * Z)), (last_membership m : option (Z * Z) * list Z), snapshot_id m));
  from_bytes b := '(l, mm, i) ← (unnumber b : option (option (Z * Z) * (option (Z * Z) * list Z) * string)); Some (SMeta l mm i) |}.

#[export] Instance meta_codec_laws : KvmRequest.CodecLaws SnapshotMeta.
Proof. intros [l mm i] b [= <-]. cbn [from_bytes meta_codec]. by rewrite unnumber_number. Qed.

#[export] Instance named_meta_codec : Codec (string * SnapshotMeta) := {|
  to_bytes p := Some (number (p.1, ((last_log_id p.2 : option (Z * Z)), (last_membership p.2 : option (Z * Z) * list Z), snapshot_id p.2)));
  from_bytes b := '(n, (l, mm, i)) ← (unnumber b : option (string * (option (Z * Z) * (option (Z * Z) * list Z) * string))); Some (n, SMeta l mm i) |}.

#[export] Instance state_codec : Codec RaftState := {|
  to_bytes s := Some (number ((rs_vote s : option (Z * Z)), (rs_last_applied s : option (Z * Z)), (rs_last_membership s : option (Z * Z) * list Z), (rs_last_snapshot s : option (Z * Z))));
  from_bytes b := '(v, a, m, s) ← (unnumber b : option (option (Z * Z) * option (Z * Z) * (option (Z * Z) * list Z) * option (Z * Z))); Some (RState v a m s) |}.

#[export] Instance state_codec_laws : KvmRequest.CodecLaws RaftState.
Proof. intros [v a m s] b [= <-]. cbn [from_bytes state_codec]. by rewrite unnumber_number. Qed.

(** Entries that change nothing or put one pair have a serialization here. *)
#[export] Instance record_codec : Codec ConsensusLogRecord := {|
  to_bytes r :=
    match r with
    | CommittedRecord l => Some (number (inl (inl l) : (Z * Z) + (Z * Z) + (Z * Z) * option (list Z * list Z)))
    | VoteRecord v => Some (number (inl (inr v) : (Z * Z) + (Z * Z) + (Z * Z) * option (list Z * list Z)))
    | EntryRecord (LogEntry l Blank) => Some (number (inr (l, None) : (Z * Z) + (Z * Z) + (Z * Z) * option (list Z * list Z)))
    | EntryRecord (LogEntry l (Normal (OpPut k v))) => Some (number (inr (l, Some (k, v)) : (Z * Z) + (Z * Z) + (Z * Z) * option (list Z * list Z)))
    | _ => None
    end;
  from_bytes b := (fun s : (Z * Z) + (Z * Z) + (Z * Z) * option (list Z * list Z) =>
    match s with
    | inl (inl l) => CommittedRecord l
    | inl (inr v) => VoteRecord v
    | inr (l, None) => EntryRecord (LogEntry l Blank)
    | inr (l, Some (k, v)) => EntryRecord (LogEntry l (Normal (OpPut k v)))
    end) <$> unnumber b |}.

#[export] Instance record_codec_laws : KvmRequest.CodecLaws ConsensusLogRecord.
Proof. intros [l|[l [|[k v|k|os]|m]]|v] b Hb; cbn [to_bytes record_codec] in Hb; try done; injection Hb as <-; cbn [from_bytes record_codec]; by rewrite unnumber_number. Qed.

Module RaftDemo.
Import PolyHash ConsensusStateStore.
#[local] Existing Instances poly_hashes poly_laws.

Abbreviation node := (ConsensusStateStore.t flaky MemoryFileSystem.t).

(** ** Snapshots *)

Definition cfg : SnapshotConfig := SnapConfig Crc32c Zstd NoEncryption 16.
Definition root : Path.t := Path.parse "/".
Definition meta : SnapshotMeta := SMeta (Some (1, 3)) (None, [5]) "s1".
Definition kvs : list (list Z * list Z) := [([1], [10; 11]); ([2; 3], []); ([4], [12])].

(** An empty file. *)
Definition empty_file : MemoryFileSystem.t * MemoryFileSystem.handle :=
  match MemoryFileSystem.create_file MemoryFileSystem.new "/f" with (Ok h, fs) => (fs, h) | (_, fs) => (fs, MemoryFileSystem.Handle 0 "/f" 0) end.

Lemma empty_file_at : memory_at empty_file "/f" 0 [].
Proof. rewrite (surjective_pairing empty_file). split; [by vm_compute|]. split; [by vm_compute|]. exists MemoryFile.Unlocked. by vm_compute. Qed.

Definition meta_bytes : list Z := match to_bytes meta with Some b => b | None => [] end.

Lemma kvs_fit : Forall (fits cfg) kvs.
Proof. repeat (apply Forall_cons; split; [by vm_compute|]). by apply Forall_nil. Qed.

Lemma snapshot_read_back_witness : exists x w' x' pre body, SnapshotWriter.new cfg meta empty_file = (Ok x, w') /\
  (let+ _ := SnapshotWriter.write_pairs kvs in SnapshotWriter.finish) x = (Ok tt, x') /\ memory_at (SnapshotWriter.writer x') "/f" (length (pre ++ body)) (pre ++ body).
Proof.
  destruct (snapshot_read_back (W := MemoryFileSystem.t * MemoryFileSystem.handle) (I := string) snapshot_id cfg meta meta_bytes kvs empty_file "/f"%string) as (x & w' & x' & pre & body & E1 & E2 & Hat & _);
    [reflexivity|by vm_compute|apply plain_compresses|by vm_compute|apply kvs_fit|apply empty_file_at|]. exists x, w', x', pre, body. exact (conj E1 (conj E2 Hat)).
Defined.

(** ** The log *)

Definition the_log : WriteAheadLogFile.t MemoryFile.t :=
  match WriteAheadLogFile.create (MemoryFile.new "/raft") 1700 7 0 0 Crc32c NoCompression NoEncryption 0 with
  | Ok w => w
  | _ => WriteAheadLogFile.mk (MemoryFile.new "/raft") 7 0 0 69 Crc32c
  end.

Abbreviation logs := (ConsensusLogStore.t unit MemoryFile.t).

Definition path_of (d : string) (_ : Z) : string := d.
Definition log0 : logs := ConsensusLogStore.new (WriteAheadLogManager.mk tt "/raft" 7 the_log []).
Definition lid (t i : Z) : LogId := (t, i).
Definition put_entry (t i k v : Z) : RaftEntry := LogEntry (lid t i) (Normal (OpPut [k] [v])).
Definition log1 : logs := (ConsensusLogStore.append [put_entry 1 1 1 10; put_entry 1 2 2 20; put_entry 1 3 3 30] log0).2.
Definition log2 : logs := (ConsensusLogStore.truncate_after (Some (lid 1 2)) log1).2.
Definition log3 : logs := (ConsensusLogStore.append [put_entry 2 3 4 40] log2).2.
Definition log4 : logs := (ConsensusLogStore.purge path_of (lid 1 1) log3).2.
Definition map4 : gmap Z RaftEntry := log_purge (lid 1 1) (log_append [put_entry 2 3 4 40] (log_truncate (Some (lid 1 2)) (log_append [put_entry 1 1 1 10; put_entry 1 2 2 20; put_entry 1 3 3 30] ∅))).

Lemma log1_ok : ok (ConsensusLogStore.append [put_entry 1 1 1 10; put_entry 1 2 2 20; put_entry 1 3 3 30] log0).1 = true.
Proof. by vm_compute. Qed.
Lemma log2_ok : ok (ConsensusLogStore.truncate_after (Some (lid 1 2)) log1).1 = true.
Proof. by vm_compute. Qed.
Lemma log3_ok : ok (ConsensusLogStore.append [put_entry 2 3 4 40] log2).1 = true.
Proof. by vm_compute. Qed.

Lemma log4_reached : log_reaches path_of log4 (LogMk map4 (Some (lid 1 1)) None None).
Proof.
  pose proof (lr_append path_of [put_entry 1 1 1 10; put_entry 1 2 2 20; put_entry 1 3 3 30] log0 _ (lr_new path_of _)) as R1. rewrite log1_ok in R1.
  pose proof (lr_truncate path_of (Some (lid 1 2)) log1 _ R1) as R2. rewrite log2_ok in R2.
  pose proof (lr_append path_of [put_entry 2 3 4 40] log2 _ R2) as R3. rewrite log3_ok in R3.
  exact (lr_purge path_of (lid 1 1) log3 _ R3 eq_refl).
Qed.

Lemma raft_log_refines_witness : ConsensusLogStore.try_get_log_entries Open Open log4 = Ok [put_entry 1 2 2 20; put_entry 2 3 4 40] /\
  exists es, ConsensusLogStore.try_get_log_entries Open Open log4 = Ok es /\ lists_range Open Open map4 es.
Proof.
  split; [vm_compute; reflexivity|]. exact (proj1 (raft_log_refines path_of log4 (LogMk map4 (Some (lid 1 1)) None None) log4_reached) Open Open eq_refl).
Defined.

(** ** A crash while entries are applied *)

Definition es : list RaftEntry :=
  [LogEntry (lid 1 1) Blank; LogEntry (lid 1 2) (Normal (OpPut [1] [10])); LogEntry (lid 1 3) (Normal (OpBatch [OpPut [2] [20]; OpDelete [1]])); LogEntry (lid 1 4) (MembershipChange [5; 6])].

(** The third write fails. *)
Definition node0 : node := new 7 (Flaky (MemoryKeyValueShardStore.mk {[ 7 := ∅ ]}) [true; true; false]) (SnapshotManager.with_config root cfg) MemoryFileSystem.new.
Definition failed : node := (apply (Ok <$> es) node0).2.
Definition node1 : node := (restart failed).2.
Definition node2 : node := (apply (Ok <$> es) node1).2.

Lemma node0_shard : shard node0 = Some ∅.
Proof. vm_compute; reflexivity. Qed.
Lemma node0_failed : (apply (Ok <$> es) node0).1 = Err OtherError.
Proof. vm_compute; reflexivity. Qed.
Lemma node1_started : restart failed = (Ok tt, node1).
Proof. rewrite (surjective_pairing (restart failed)). f_equal; vm_compute; reflexivity. Qed.
Lemma node2_applied : (apply (Ok <$> es) node1).1 = Ok tt.
Proof. vm_compute; reflexivity. Qed.
Lemma key_unwritten : state_key node0 ∉ (flat_map entry_writes es).*1.
Proof. apply (bool_decide_eq_true_1 _). vm_compute; reflexivity. Qed.
Lemma node1_retried : retries es node0 node1.
Proof. exact (retry_again es node0 node0 node1 OtherError (retry_none es node0) node0_failed node1_started). Qed.

Lemma raft_apply_crash_safe_witness : (apply (Ok <$> es) node0).1 = Err OtherError /\ exists b, shard node2 = Some (<[state_key node0 := b]> {[ [2] := [20] ]}).
Proof.
  split; [exact node0_failed|].
  pose proof (raft_apply_crash_safe es node0 node1 ∅ node0_shard eq_refl key_unwritten node1_retried) as K. unfold node2. pose proof node2_applied as Ha. destruct (apply (Ok <$> es) node1) as [r y']. cbn [fst snd] in *. rewrite Ha in K.
  destruct K as (_ & b & _ & Hb). exists b. exact Hb.
Defined.

(** The first half of the batch that failed has been applied. *)
Lemma batch_half_applied : (get_value [2] failed).1 = Ok (Some [20]) /\ (get_value [1] failed).1 = Ok (Some [10]).
Proof. split; vm_compute; reflexivity. Qed.

(** ** A snapshot for another node *)

Definition other_node : node := new 7 (Flaky (MemoryKeyValueShardStore.mk {[ 7 := {[ [9] := [90] ]} ]}) []) (SnapshotManager.with_config root cfg) MemoryFileSystem.new.
Definition m2 : gmap (list Z) (list Z) := match shard node2 with Some m => m | None => ∅ end.

Lemma node2_shard : shard node2 = Some m2.
Proof. vm_compute; reflexivity. Qed.
Lemma other_shard : shard other_node = Some {[ [9] := [90] ]}.
Proof. vm_compute; reflexivity. Qed.

Lemma m2_fits k v : m2 !! k = Some v -> fits cfg (k, v).
Proof.
  assert (Hall : map_Forall (fun k v : list Z => 16 + 8 + Z.of_nat (length k) + Z.of_nat (length v) < 2 ^ 31) m2) by (apply (bool_decide_eq_true_1 _); vm_compute; reflexivity).
  intros Hk. exact (Hall k v Hk).
Qed.

Lemma meta_length (x : SnapshotMeta) b : to_bytes x = Some b -> length b = 1%nat.
Proof. intros [= <-]. done. Qed.

Lemma node2_fits : snapshot_fits (SnapshotManager.config (snapshot_storage node2)) (SMeta (rs_last_applied (raft_state node2)) (rs_last_membership (raft_state node2)) "s1") m2.
Proof.
  assert (Hc : SnapshotManager.config (snapshot_storage node2) = cfg) by (vm_compute; reflexivity). rewrite Hc. split; [apply plain_compresses|]. split; [by cbn; lia|]. split; [|apply m2_fits]. intros b Hb. rewrite (meta_length _ b Hb). done.
Qed.

Definition built : stream_result (SnapshotMeta * MemoryFileSystem.handle) * node := build_snapshot "s1" node2.
Definition built_meta : SnapshotMeta := match built.1 with Ok (m, _) => m | _ => meta end.
Definition built_file : MemoryFileSystem.t * MemoryFileSystem.handle := (files built.2, match built.1 with Ok (_, d) => d | _ => MemoryFileSystem.Handle 0 "/f" 0 end).

Lemma built_ok : built.1 = Ok (built_meta, built_file.2).
Proof. vm_compute; reflexivity. Qed.
Lemma installed_ok : (install_snapshot built_meta built_file other_node).1 = Ok tt.
Proof. vm_compute; reflexivity. Qed.

Lemma snapshot_transfer_witness : shard other_node = Some {[ [9] := [90] ]} /\
  exists sb mb, shard (install_snapshot built_meta built_file other_node).2 = Some (<[meta_key other_node := mb]> (<[state_key other_node := sb]> m2)).
Proof.
  split; [exact other_shard|].
  pose proof (snapshot_transfer (V := MemoryFileSystem.t * MemoryFileSystem.handle) (J := string) "s1" node2 other_node m2 {[ [9] := [90] ]} node2_shard other_shard node2_fits) as K.
  fold built in K. pose proof built_ok as Hb. destruct built as [r x'] eqn:Eb. cbn [fst snd] in *. rewrite Hb in K. destruct K as (i & p & b & Hat & K). specialize (K built_file i p).
  assert (Hf : built_file = (files x', built_file.2)) by (unfold built_file; rewrite Eb; reflexivity). rewrite <- Hf in Hat. specialize (K Hat).
  pose proof installed_ok as Hi. destruct (install_snapshot built_meta built_file other_node) as [r' y']. cbn [fst snd] in *. rewrite Hi in K. destruct K as (_ & sb & mb & _ & Hs). exists sb, mb. exact Hs.
Defined.

(** ** What goes wrong *)

(** The file that was built, cut off inside its last chunk, or with a byte of it
    changed. *)
Definition file_bytes : list Z := match read_received built_file with Ok b => b | _ => [] end.
Definition file_of (b : list Z) : MemoryFileSystem.t * MemoryFileSystem.handle := (write_all b empty_file).2.

(** A snapshot that was cut off is installed as if it were whole. *)
Lemma cut_installed : let (r, y) := install_snapshot built_meta (file_of (take (length file_bytes - 1) file_bytes)) other_node in
  r = Ok tt /\ (get_value [2] node2).1 = Ok (Some [20]) /\ (get_value [2] y).1 = Ok None.
Proof. vm_compute. split; [reflexivity|]. split; reflexivity. Qed.

(** The shard is cleared before the snapshot is read: with a chunk that fails its
    checksum the old contents are gone and the new ones are not there. *)
Lemma corrupt_clears : let (r, y) := install_snapshot built_meta (file_of (<[(length file_bytes - 1)%nat := 77]> file_bytes)) other_node in
  r = Err (BadData "Invalid chunk checksum") /\ (get_value [9] y).1 = Ok None.
Proof. vm_compute. split; reflexivity. Qed.

(** An entry that writes the key of the machine's own record is overwritten. *)
Lemma reserved_key_lost : let (r, y) := apply [Ok (LogEntry (lid 1 1) (Normal (OpPut (state_key other_node) [1])))] other_node in
  r = Ok tt /\ (get_value (state_key other_node) y).1 <> Ok (Some [1]).
Proof. vm_compute. split; [reflexivity|discriminate]. Qed.

(** Two snapshots with one identifier: the second cannot be installed. *)
Lemma installed_twice : (install_snapshot built_meta built_file (install_snapshot built_meta built_file other_node).2).1 = Err OtherError.
Proof. vm_compute. reflexivity. Qed.
End RaftDemo.

(** A node cannot receive a snapshot: the directory of the file is missing in the
    new file system. *)
Lemma receiving_fails now : no_slash now -> ConsensusStateStore.begin_receiving_snapshot now = Err OtherError.
Proof.
  intros Hn. set (p := Path.mk None true 0 ["tmp"%string; "snapshot_Timestamp(" +:+ now +:+ "ms)"]). assert (Hok : path_ok p).
  { split; [|split; [done|done]]. apply Forall_cons. split; [apply (bool_decide_eq_true_1 _); reflexivity|]. apply Forall_cons. split; [|by apply Forall_nil]. split_and!; try discriminate.
    repeat apply no_slash_app; [|done|]; apply (bool_decide_eq_true_1 _); reflexivity. }
  unfold ConsensusStateStore.begin_receiving_snapshot. change ("/tmp/snapshot_Timestamp(" +:+ now +:+ "ms)") with (Path.to_string p). unfold MemoryFileSystem.create_file. rewrite (parse_to_string p Hok).
  assert (Hm : MemoryFileSystem.tree MemoryFileSystem.new !! Path.to_string p = None) by (apply lookup_singleton_ne; discriminate). rewrite Hm. reflexivity.
Qed.
