(* ===== verification/RaftManager.v ===== *)
(** * Consensus groups and the manager of a node

    Models nanograph-raft/src/group/ and manager.rs with the records of nodes and
    clusters of types.rs: the groups that keep the metadata of a cluster, the
    group of a table shard, and the manager that routes operations to the shards
    of a node by the hash of the key.  openraft's [Raft] is behind [RaftNode], the
    hash function and the order in which a hash map is visited are parameters; the
    gRPC server is left out. *)

From Stdlib Require Import ZArith Lia.
From stdpp Require Import gmap option strings pretty base list.
From S2P Require Import Prelude Objects KvtResolver KvmContext KvmObjects RaftSnapshot RaftStore.

Open Scope Z_scope.

(** ** Nodes and clusters *)

Inductive NodeStatus : Type := NodeActive | NodeDraining | NodeInactive | NodeFailed.

#[global] Instance node_status_eq_dec : EqDecision NodeStatus.
Proof. solve_decision. Defined.
#[global] Instance shard_status_eq_dec : EqDecision ShardStatus.
Proof. solve_decision. Defined.

(** Addresses, and the capacity of a node, which has a floating-point weight. *)
Class NodeTypes : Type := { SocketAddr : Type; ResourceCapacity : Type }.

Section nodes.
Context `{!NodeTypes}.

Record NodeInfo : Type := NodeInfoMk {
  ni_node : Z; ni_raft_addr : SocketAddr; ni_api_addr : SocketAddr; ni_status : NodeStatus; ni_capacity : ResourceCapacity; ni_zone : option string; ni_rack : option string }.

Definition set_node_status (s : NodeStatus) (n : NodeInfo) : NodeInfo := NodeInfoMk (ni_node n) (ni_raft_addr n) (ni_api_addr n) s (ni_capacity n) (ni_zone n) (ni_rack n).

Inductive MetadataChange : Type :=
| AddNode (node : NodeInfo)
| RemoveNode (node_id : Z)
| UpdateNodeStatus (node_id : Z) (status : NodeStatus)
| UpdateShardAssignment (shard_id : Z) (replicas : list Z)
| UpdateShardLeader (shard_id leader : Z)
| CreateShard (shard_id : Z) (shard_type : ShardType) (range : list Z * list Z) (replicas : list Z)
| DeleteShard (shard_id : Z).

Record RaftClusterState : Type := ClusterState { cluster : ClusterRecord; nodes : gmap Z NodeInfo; shards : gmap Z ShardRecord; shard_assignments : gmap Z (list Z) }.

Definition new_cluster_state (c : ClusterRecord) : RaftClusterState := ClusterState c ∅ ∅ ∅.
(** [now]: the clock. *)
Definition default_cluster_state (now : Z) : RaftClusterState := new_cluster_state (ClusterRecordMk 0 0 now now "" ∅ ∅).

Definition get_node (s : RaftClusterState) (id : Z) : option NodeInfo := nodes s !! id.
Definition get_shard (s : RaftClusterState) (id : Z) : option ShardRecord := shards s !! id.
Definition get_shard_replicas (s : RaftClusterState) (id : Z) : option (list Z) := shard_assignments s !! id.

(** In the order in which the maps are visited. *)
Definition active_nodes (s : RaftClusterState) : list NodeInfo := filter (fun n => ni_status n = NodeActive) (map_to_list (nodes s)).*2.
Definition active_shards (s : RaftClusterState) : list ShardRecord := filter (fun r => hr_status r = ActiveShard) (map_to_list (shards s)).*2.

Definition set_replicas (l : list Z) (r : ShardRecord) : ShardRecord :=
  ShardRecordMk (hr_shard_id r) (hr_label r) (hr_version r) (hr_shard_type r) (hr_engine_type r) (hr_created_at r) (hr_updated_at r) (hr_range r) (hr_leader r) l (hr_status r) (hr_term r) (hr_size_bytes r).
Definition set_leader (l : Z) (r : ShardRecord) : ShardRecord :=
  ShardRecordMk (hr_shard_id r) (hr_label r) (hr_version r) (hr_shard_type r) (hr_engine_type r) (hr_created_at r) (hr_updated_at r) (hr_range r) (Some l) (hr_replicas r) (hr_status r) (hr_term r) (hr_size_bytes r).
Definition with_version (c : ClusterRecord) (v : Z) : ClusterRecord := ClusterRecordMk (cr_id c) v (cr_created_at c) (cr_updated_at c) (cr_name c) (cr_options c) (cr_metadata c).
End nodes.

(** ** Metadata groups *)

(** The labels of the system group and of a container's group. *)
Definition system_label (ty : ShardType) (shard : Z) : string := match ty with TableShardType => generate_table_label shard | IndexShardType => generate_index_label shard end.
Definition container_label (_ : ShardType) (shard : Z) : string :=
  "shard_" +:+ display_hex "Tenant" (ShardId.tenant shard) +:+ "_" +:+ display_hex "Database" (ShardId.database shard) +:+ "_" +:+ display_object (ShardId.object shard) +:+ "_" +:+ pretty shard.

Module MetadataGroup.
Section group.
Context `{!NodeTypes} (label_of : ShardType -> Z -> string).

Record t : Type := mk { local_node_id : Z; state : RaftClusterState; leads : bool }.

Definition new (now node : Z) : t := mk node (default_cluster_state now) false.
Definition get_state (g : t) : RaftClusterState := state g.
Definition get_metadata (g : t) : ClusterRecord := cluster (state g).

(** The change itself. *)
Definition changed (now : Z) (c : MetadataChange) (s : RaftClusterState) : RaftClusterState :=
  match c with
  | AddNode n => ClusterState (cluster s) (<[ni_node n := n]> (nodes s)) (shards s) (shard_assignments s)
  | RemoveNode id => ClusterState (cluster s) (delete id (nodes s)) (shards s) (filter (fun n => n <> id) <$> shard_assignments s)
  | UpdateNodeStatus id st => ClusterState (cluster s) (alter (set_node_status st) id (nodes s)) (shards s) (shard_assignments s)
  | UpdateShardAssignment id l => ClusterState (cluster s) (nodes s) (alter (set_replicas l) id (shards s)) (<[id := l]> (shard_assignments s))
  | UpdateShardLeader id l => ClusterState (cluster s) (nodes s) (alter (set_leader l) id (shards s)) (shard_assignments s)
  | CreateShard id ty range l =>
      ClusterState (cluster s) (nodes s) (<[id := ShardRecordMk id (label_of ty id) 0 ty "lsm" now now range None l ActiveShard 0 0]> (shards s)) (<[id := l]> (shard_assignments s))
  | DeleteShard id => ClusterState (cluster s) (nodes s) (delete id (shards s)) (delete id (shard_assignments s))
  end.

(** [version += 1] panics on overflow. *)
Definition apply_change (now : Z) (c : MetadataChange) (g : t) : result ConsensusError unit * t :=
  let s := state g in
  if cr_version (cluster s) + 1 <? 2 ^ 64 then
    (Ok tt, mk (local_node_id g) (changed now c (ClusterState (with_version (cluster s) (cr_version (cluster s) + 1)) (nodes s) (shards s) (shard_assignments s))) (leads g))
  else (Panic, g).

Definition propose_change (now : Z) (c : MetadataChange) (g : t) : result ConsensusError unit * t :=
  if leads g then apply_change now c g else (Err (NotLeader 0 None), g).

Definition add_node (now : Z) (n : NodeInfo) := propose_change now (AddNode n).
Definition remove_node (now id : Z) := propose_change now (RemoveNode id).
Definition update_shard_assignment (now id : Z) (l : list Z) := propose_change now (UpdateShardAssignment id l).
Definition update_shard_leader (now id l : Z) := propose_change now (UpdateShardLeader id l).
Definition create_shard (now id : Z) (ty : ShardType) (range : list Z * list Z) (l : list Z) := propose_change now (CreateShard id ty range l).
Definition delete_shard (now id : Z) := propose_change now (DeleteShard id).

Definition on_become_leader (g : t) : t := mk (local_node_id g) (state g) true.
Definition on_become_follower (g : t) : t := mk (local_node_id g) (state g) false.
End group.
Arguments t {_}.
End MetadataGroup.

(** ** The group of a table shard *)

(** openraft's [Raft] with the state machine it was made with; a read is
    [get_value] of that machine. *)
Class RaftNode (R : Type) : Type := {
  client_write : Operation -> R -> result ConsensusError OperationResponse * R;
  raft_is_leader : R -> bool;
  raft_current_leader : R -> option Z;
  machine_get : list Z -> R -> result ConsensusError (option (list Z)) * R }.

Inductive ReadConsistency : Type := Linearizable | Lease | Follower.
Definition default_consistency : ReadConsistency := Linearizable.

Module TableShardRaftGroup.
Section group.
Context {R : Type} `{!RaftNode R}.

Record t : Type := mk { shard_id : Z; local_node_id : Z; raft : R }.

Definition on_raft {A} (f : R -> result ConsensusError A * R) (g : t) : result ConsensusError A * t := let '(r, x) := f (raft g) in (r, mk (shard_id g) (local_node_id g) x).

Definition propose_write (o : Operation) : t -> result ConsensusError OperationResponse * t := on_raft (client_write o).

Definition follower_read (key : list Z) (g : t) : result ConsensusError (option (list Z)) * t :=
  let '(r, g) := on_raft (machine_get key) g in
  (match r with Err _ => Err (RaftStorage "Failed to read from state store: ") | r => r end, g).

Definition linearizable_read (key : list Z) (g : t) : result ConsensusError (option (list Z)) * t :=
  if raft_is_leader (raft g) then follower_read key g else (Err (NotLeader (shard_id g) (raft_current_leader (raft g))), g).

Definition lease_read (key : list Z) : t -> result ConsensusError (option (list Z)) * t := linearizable_read key.

Definition read (key : list Z) (c : ReadConsistency) : t -> result ConsensusError (option (list Z)) * t :=
  match c with Linearizable => linearizable_read key | Lease => lease_read key | Follower => follower_read key end.

Definition is_leader (g : t) : bool := raft_is_leader (raft g).
Definition get_leader (g : t) : option Z := raft_current_leader (raft g).
(** Membership changes are not implemented. *)
Definition add_peer (peer : Z) (g : t) : result ConsensusError unit * t := (Ok tt, g).
Definition remove_peer (peer : Z) (g : t) : result ConsensusError unit * t := (Ok tt, g).
End group.
Arguments t : clear implicits.
End TableShardRaftGroup.

(** ** The manager *)

Module ConsensusManager.
Module G := TableShardRaftGroup.

Section manager.
Context `{!NodeTypes} {R : Type} `{!RaftNode R}.
(** [DefaultHasher], and the order in which the groups of a batch are visited. *)
Context (hash : list Z -> Z) (visit : gmap Z (list Operation) -> list (Z * list Operation)).

Record t : Type := mk {
  local_node_id : Z; config : ReplicationConfig; peers : gmap Z NodeInfo; system_metadata : MetadataGroup.t; containers : gmap Z MetadataGroup.t; table_shards : gmap Z (G.t R); shard_count : Z }.

Definition with_shards (x : t) (m : gmap Z (G.t R)) : t := mk (local_node_id x) (config x) (peers x) (system_metadata x) (containers x) m (shard_count x).
Definition with_peers (x : t) (m : gmap Z NodeInfo) : t := mk (local_node_id x) (config x) m (system_metadata x) (containers x) (table_shards x) (shard_count x).

Definition new (now node : Z) (c : ReplicationConfig) : t := mk node c ∅ (MetadataGroup.new now node) ∅ ∅ 1.

Definition add_peer (id : Z) (n : NodeInfo) (x : t) : t := with_peers x (<[id := n]> (peers x)).
Definition remove_peer (id : Z) (x : t) : option NodeInfo * t := (peers x !! id, with_peers x (delete id (peers x))).
Definition get_peer (id : Z) (x : t) : option NodeInfo := peers x !! id.
Definition set_shard_count (n : Z) (x : t) : t := mk (local_node_id x) (config x) (peers x) (system_metadata x) (containers x) (table_shards x) n.

(** [made]: the Raft instance, or the error of making it. *)
Definition add_table_shard (shard : Z) (made : result ConsensusError R) (x : t) : result ConsensusError unit * t :=
  match made with
  | Ok r => (Ok tt, with_shards x (<[shard := G.mk shard (local_node_id x) r]> (table_shards x)))
  | Err e => (Err e, x)
  | Panic => (Panic, x)
  | Timeout => (Timeout, x)
  end.
Definition remove_table_shard (shard : Z) (x : t) : result ConsensusError unit * t := (Ok tt, with_shards x (delete shard (table_shards x))).

(** The remainder by 0 panics. *)
Definition get_table_shard_for_key (key : list Z) (x : t) : result ConsensusError Z :=
  if shard_count x =? 1 then Ok 0 else if shard_count x =? 0 then Panic else Ok (hash key mod shard_count x).

Definition get_table_shard_group (shard : Z) (x : t) : result ConsensusError (G.t R) := ok_or (table_shards x !! shard) (RaftShardNotFound shard).

(** A call of a group, which the table of groups shares. *)
Definition on_group {A} (shard : Z) (f : G.t R -> result ConsensusError A * G.t R) (x : t) : result ConsensusError A * t :=
  match get_table_shard_group shard x with
  | Ok g => let '(r, g) := f g in (r, with_shards x (<[shard := g]> (table_shards x)))
  | Err e => (Err e, x)
  | Panic => (Panic, x)
  | Timeout => (Timeout, x)
  end.

Definition put (key value : list Z) (x : t) : result ConsensusError unit * t :=
  (let+ shard := slift (get_table_shard_for_key key x) in
   let+ _ := on_group shard (G.propose_write (OpPut key value)) in sret tt) x.

Definition get_with_consistency (key : list Z) (c : ReadConsistency) (x : t) : result ConsensusError (option (list Z)) * t :=
  (let+ shard := slift (get_table_shard_for_key key x) in on_group shard (G.read key c)) x.
Definition get (key : list Z) : t -> result ConsensusError (option (list Z)) * t := get_with_consistency key Linearizable.

Definition delete (key : list Z) (x : t) : result ConsensusError unit * t :=
  (let+ shard := slift (get_table_shard_for_key key x) in
   let+ _ := on_group shard (G.propose_write (OpDelete key)) in sret tt) x.

(** The two loops of [batch]. *)
Fixpoint group_operations (os : list Operation) (groups : gmap Z (list Operation)) (x : t) : result ConsensusError (gmap Z (list Operation)) :=
  match os with
  | [] => Ok groups
  | o :: os =>
      match o with
      | OpPut key _ | OpDelete key =>
          let! shard := get_table_shard_for_key key x in
          group_operations os (<[shard := default [] (groups !! shard) ++ [o]]> groups) x
      | OpBatch _ => Err (RaftInternal "Nested batch operations not supported")
      end
  end.

Fixpoint write_groups (groups : list (Z * list Operation)) : t -> result ConsensusError unit * t :=
  match groups with
  | [] => sret tt
  | (shard, os) :: groups => let+ _ := on_group shard (G.propose_write (OpBatch os)) in write_groups groups
  end.

Definition batch (os : list Operation) (x : t) : result ConsensusError unit * t :=
  (let+ groups := slift (group_operations os ∅ x) in write_groups (visit groups)) x.

Definition container_metadata (id : Z) (x : t) : result ConsensusError MetadataGroup.t := ok_or (containers x !! id) (RaftShardNotFound 0).
Definition local_shards (x : t) : list Z := (map_to_list (table_shards x)).*1.
Definition shard_group (shard : Z) : t -> result ConsensusError (G.t R) := get_table_shard_group shard.
End manager.
Arguments t {_} _.
End ConsensusManager.
