(* ===== verification/RaftManagerSpec.v ===== *)
(** * What the manager of a node does

    Over groups that apply what they commit, the operations that the manager
    routes act on one map from keys to values, whatever the number of shards and
    in whatever order a batch visits them; the metadata of a cluster changes
    through its leader only. *)

From Stdlib Require Import ZArith Lia.
From stdpp Require Import gmap option strings base list.
From S2P Require Import Prelude Objects KvtResolver KvmContext KvmObjects RaftSnapshot RaftStore RaftStateSpec RaftManager.

Open Scope Z_scope.

(** ** What the manager relies on *)

(** A group whose only client is this node: what is answered has been applied. *)
Class RaftLaws (R : Type) `{!RaftNode R} : Type := {
  machine_map : R -> shard_map;
  client_write_law : forall o r, let (res, r') := client_write o r in
    match res with
    | Ok _ => machine_map r' = run_writes (op_writes o) (machine_map r)
    | Err _ => between (op_writes o) (machine_map r) (machine_map r')
    | _ => False
    end;
  machine_get_law : forall k r, let (res, r') := machine_get k r in machine_map r' = machine_map r /\ (res = Ok (machine_map r !! k) \/ exists e, res = Err e) }.

(** What a key is written to last. *)
Definition last_write (k : list Z) (ws : list (list Z * option (list Z))) : option (option (list Z)) := snd <$> last (filter (fun w => w.1 = k) ws).

Lemma run_writes_last (ws : list (list Z * option (list Z))) (m : shard_map) (k : list Z) : run_writes ws m !! k = match last_write k ws with Some w => w | None => m !! k end.
Proof.
  induction ws as [|[k' o] ws IH] using rev_ind; [done|]. rewrite run_writes_app. unfold last_write in *. rewrite filter_app, filter_cons, filter_nil. cbn [run_writes foldl fst]. unfold write_to. cbn [fst snd].
  destruct (decide (k' = k)) as [->|Hne].
  - rewrite last_snoc. cbn. destruct o; [by rewrite lookup_insert_eq|by rewrite lookup_delete_eq].
  - rewrite app_nil_r, <- IH. destruct o; [by rewrite lookup_insert_ne|by rewrite lookup_delete_ne].
Qed.

Lemma last_write_None (k : list Z) (ws : list (list Z * option (list Z))) : k ∉ ws.*1 -> last_write k ws = None.
Proof.
  intros Hk. unfold last_write.
  induction ws as [|w ws IH]; [done|]. cbn in Hk. apply not_elem_of_cons in Hk as [Hne Hk]. rewrite filter_cons, decide_False by congruence. by apply IH.
Qed.

Section manager.
Context `{!NodeTypes} {R : Type} `{!RaftNode R, !RaftLaws R}.
Context (hash : list Z -> Z) (visit : gmap Z (list Operation) -> list (Z * list Operation)) (visit_law : forall m, visit m ≡ₚ map_to_list m).
Import ConsensusManager.
Abbreviation manager := (ConsensusManager.t R).
Abbreviation write_list := (list (list Z * option (list Z))).

(** The map of a shard, and the value of a key on the node. *)
Definition map_of (x : manager) (s : Z) : option shard_map := (fun g => machine_map (TableShardRaftGroup.raft g)) <$> table_shards x !! s.
Definition value_in_shard (x : manager) (s : Z) (k : list Z) : option (list Z) := match map_of x s with Some m => m !! k | None => None end.
Definition value_at (x : manager) (k : list Z) : option (list Z) := match get_table_shard_for_key hash k x with Ok s => value_in_shard x s k | _ => None end.

(** All keys but those written keep their values. *)
Definition keeps (ws : write_list) (x x' : manager) : Prop := shard_count x' = shard_count x /\ forall s k, k ∉ ws.*1 -> value_in_shard x' s k = value_in_shard x s k.

Lemma keeps_app ws1 ws2 x y z : keeps ws1 x y -> keeps ws2 y z -> keeps (ws1 ++ ws2) x z.
Proof. intros [Hc1 H1'] [Hc2 H2']. split; [congruence|]. intros s k Hk. rewrite fmap_app in Hk. rewrite H2', H1'; [done|set_solver|set_solver]. Qed.

Lemma map_of_insert (x : manager) s g s' : map_of (with_shards x (<[s := g]> (table_shards x))) s' = if decide (s' = s) then Some (machine_map (TableShardRaftGroup.raft g)) else map_of x s'.
Proof. unfold map_of. cbn. destruct (decide (s' = s)) as [->|Hne]; [by rewrite lookup_insert_eq|by rewrite lookup_insert_ne]. Qed.

Lemma route_same (x x' : manager) k : shard_count x' = shard_count x -> get_table_shard_for_key hash k x' = get_table_shard_for_key hash k x.
Proof. intros Hc. unfold get_table_shard_for_key. by rewrite Hc. Qed.

(** A write to a shard. *)
Lemma write_shard s o (x : manager) : let (r, x') := on_group s (TableShardRaftGroup.propose_write o) x in shard_count x' = shard_count x /\
  match r with
  | Ok _ => exists m, map_of x s = Some m /\ forall s', map_of x' s' = if decide (s' = s) then Some (run_writes (op_writes o) m) else map_of x s'
  | Err _ => keeps (op_writes o) x x'
  | _ => False
  end.
Proof.
  unfold on_group, get_table_shard_group. destruct (table_shards x !! s) as [g|] eqn:Eg; cbn [ok_or]; [|by split].
  unfold TableShardRaftGroup.propose_write, TableShardRaftGroup.on_raft. pose proof (client_write_law o (TableShardRaftGroup.raft g)) as Hw. destruct (client_write o _) as [res r'].
  split; [done|]. assert (Hm : map_of x s = Some (machine_map (TableShardRaftGroup.raft g))) by (unfold map_of; by rewrite Eg). destruct res as [resp|e| |]; try done.
  - eexists. split; [done|]. intros s'. rewrite map_of_insert. cbn [TableShardRaftGroup.raft]. by rewrite Hw.
  - split; [done|]. intros s' k Hk. unfold value_in_shard. rewrite map_of_insert. case_decide as Hs; [|done]. subst s'. rewrite Hm. cbn. by apply Hw.
Qed.

(** Simple operations and their keys. *)
Definition op_key (o : Operation) : option (list Z) := match o with OpPut k _ | OpDelete k => Some k | OpBatch _ => None end.
Definition routed (x : manager) (s : Z) (o : Operation) : Prop := exists k, op_key o = Some k /\ get_table_shard_for_key hash k x = Ok s.

#[local] Instance routed_dec (x : manager) s o : Decision (routed x s o).
Proof.
  unfold routed. destruct (op_key o) as [k|]; [|right; by intros (? & ? & ?)]. destruct (get_table_shard_for_key hash k x) as [s'| | |] eqn:E; try (right; intros (k' & [= <-] & Hk); congruence).
  destruct (decide (s' = s)) as [->|Hne]; [left; by exists k|right; intros (k' & [= <-] & Hk); congruence].
Defined.

Lemma simple_writes o k : op_key o = Some k -> exists w, op_writes o = [(k, w)].
Proof. destruct o; intros [= <-]; by eexists. Qed.

Lemma group_operations_ok (x : manager) os : forall groups groups', group_operations hash os groups x = Ok groups' ->
  Forall (fun o => exists k s, op_key o = Some k /\ get_table_shard_for_key hash k x = Ok s) os /\
  forall s, default [] (groups' !! s) = default [] (groups !! s) ++ filter (routed x s) os.
Proof.
  induction os as [|o os IH]; intros groups groups' Hg; cbn [group_operations] in Hg.
  - injection Hg as <-. split; [constructor|]. intros s. by rewrite filter_nil, app_nil_r.
  - assert (Hk : exists k, op_key o = Some k /\ rbind (get_table_shard_for_key hash k x) (fun shard => group_operations hash os (<[shard := default [] (groups !! shard) ++ [o]]> groups) x) = Ok groups') by (destruct o; [by eexists|by eexists|done]).
    destruct Hk as (k & Hk & Hr). destruct (get_table_shard_for_key hash k x) as [s0| | |] eqn:Es; try done. cbn [rbind] in Hr. apply IH in Hr as [Hos Hgs]. split; [constructor; eauto|].
    intros s. rewrite Hgs, filter_cons. destruct (decide (s = s0)) as [->|Hne].
    + rewrite lookup_insert_eq, decide_True by (exists k; by split). cbn [from_option]. unfold id at 1. by rewrite <- app_assoc.
    + rewrite lookup_insert_ne, decide_False by (try (intros (k' & Hk' & Hs); congruence); done). done.
Qed.

Lemma write_groups_ok groups : forall x : manager, NoDup groups.*1 -> let (r, x') := write_groups groups x in
  match r with
  | Ok _ => shard_count x' = shard_count x /\ forall s, match (list_to_map groups : gmap Z (list Operation)) !! s with
      | Some os => exists m, map_of x s = Some m /\ map_of x' s = Some (run_writes (flat_map op_writes os) m)
      | None => map_of x' s = map_of x s
      end
  | Err _ => keeps (flat_map (fun g => flat_map op_writes g.2) groups) x x'
  | _ => False
  end.
Proof.
  induction groups as [|[s0 os] groups IH]; intros x Hn; [done|]. cbn [fmap list_fmap] in Hn. apply NoDup_cons in Hn as [Hni Hn]. cbn [write_groups flat_map]. unfold sbind.
  pose proof (write_shard s0 (OpBatch os) x) as Hw. destruct (on_group s0 _ x) as [[resp|e| |] x1]; destruct Hw as [Hc Hw]; try done.
  - specialize (IH x1 Hn). destruct (write_groups groups x1) as [[u|e| |] x2]; try done.
    + destruct IH as [Hc2 IH]. destruct Hw as (m & Hm & Hw). split; [congruence|]. intros s. rewrite list_to_map_cons. destruct (decide (s = s0)) as [->|Hne].
      * rewrite lookup_insert_eq. specialize (IH s0). rewrite (not_elem_of_list_to_map_1 _ _ Hni) in IH. exists m. split; [done|]. rewrite IH, Hw, decide_True by done. done.
      * rewrite lookup_insert_ne by done. specialize (IH s). specialize (Hw s). rewrite decide_False in Hw by done. rewrite Hw in IH. done.
    + eapply keeps_app; [|exact IH]. destruct Hw as (m & Hm & Hw). split; [done|]. intros s k Hk. unfold value_in_shard. rewrite Hw. case_decide as Hs; [|done]. subst s. rewrite Hm. cbn [op_writes]. by apply run_writes_other.
  - destruct Hw as [Hc' Hw]. split; [done|]. intros s k Hk. apply Hw. rewrite fmap_app in Hk. cbn [op_writes snd] in *. set_solver.
Qed.

(** ** The contract *)

(** The outcome of writes on the node: all of them, or an error after which only
    the keys written may have changed. *)
Definition effect (ws : write_list) (x : manager) (out : result ConsensusError unit * manager) : Prop :=
  match out.1 with
  | Ok _ => forall k, value_at out.2 k = match last_write k ws with Some w => w | None => value_at x k end
  | Err _ => forall k, k ∉ ws.*1 -> value_at out.2 k = value_at x k
  | _ => False
  end.

Lemma keeps_value ws (x x' : manager) k : keeps ws x x' -> k ∉ ws.*1 -> value_at x' k = value_at x k.
Proof. intros [Hc Hk'] Hk. unfold value_at. rewrite (route_same _ _ k Hc). destruct (get_table_shard_for_key hash k x); try done. by apply Hk'. Qed.

Lemma route_total (x : manager) k : shard_count x <> 0 -> exists s, get_table_shard_for_key hash k x = Ok s.
Proof. intros Hc. unfold get_table_shard_for_key. destruct (_ =? 1); [by eexists|]. rewrite (proj2 (Z.eqb_neq _ _)) by done. by eexists. Qed.

Lemma one_write o k w (x : manager) : shard_count x <> 0 -> op_writes o = [(k, w)] ->
  effect [(k, w)] x ((let+ shard := slift (get_table_shard_for_key hash k x) in let+ _ := on_group shard (TableShardRaftGroup.propose_write o) in sret tt) x).
Proof.
  intros Hc Ho. destruct (route_total x k Hc) as [s Hs]. unfold sbind, slift. rewrite Hs. pose proof (write_shard s o x) as Hw. rewrite Ho in Hw. destruct (on_group s _ x) as [[resp|e| |] x']; destruct Hw as [Hc' Hw]; try done.
  - intros k'. cbn [fst snd sret]. destruct Hw as (m & Hm & Hw). unfold value_at. rewrite (route_same _ _ k' Hc'). destruct (get_table_shard_for_key hash k' x) as [s'| | |] eqn:Es; try (by destruct (route_total x k' Hc); congruence).
    unfold value_in_shard. rewrite Hw. case_decide as Hd; [subst s'; by rewrite run_writes_last, Hm|]. rewrite last_write_None; [done|]. cbn. intros ->%list_elem_of_singleton. congruence.
  - intros k' Hk'. by eapply keeps_value.
Qed.

Lemma routed_filter x s k os : get_table_shard_for_key hash k x = Ok s -> Forall (fun o => exists k s, op_key o = Some k /\ get_table_shard_for_key hash k x = Ok s) os ->
  last_write k (flat_map op_writes (filter (routed x s) os)) = last_write k (flat_map op_writes os).
Proof.
  intros Hs Hos. unfold last_write. do 2 f_equal. induction Hos as [|o os (k0 & s0 & Hk0 & Hs0) _ IH]; [done|]. cbn [flat_map]. destruct (simple_writes o k0 Hk0) as [w Hw]. rewrite filter_cons. case_decide as Hr.
  - cbn [flat_map]. rewrite !filter_app, IH. done.
  - rewrite filter_app, IH, Hw, filter_cons, decide_False, filter_nil; [done|]. cbn. intros ->. apply Hr. by exists k.
Qed.

Lemma grouped_keys x os groups : (forall s, default [] (groups !! s) = filter (routed x s) os) -> forall k, k ∉ (flat_map op_writes os).*1 -> k ∉ (flat_map (fun g => flat_map op_writes g.2) (visit groups)).*1.
Proof using visit_law.
  intros Hg k Hk Hin. apply Hk. apply list_elem_of_fmap in Hin as (w & -> & Hw). apply list_elem_of_fmap. exists w. split; [done|]. apply list_elem_of_In, in_flat_map in Hw as ([s os'] & Hv & Hw). cbn [snd] in Hw.
  apply in_flat_map in Hw as (o & Ho & Hw). apply list_elem_of_In, in_flat_map. exists o. split; [|done]. apply list_elem_of_In in Hv, Ho. apply list_elem_of_In. rewrite visit_law in Hv. apply elem_of_map_to_list in Hv. specialize (Hg s). rewrite Hv in Hg. cbn in Hg. unfold id in Hg. subst os'. by apply list_elem_of_filter in Ho as [_ Ho].
Qed.

Lemma batch_writes os (x : manager) : shard_count x <> 0 -> effect (flat_map op_writes os) x (batch hash visit os x).
Proof using visit_law.
  intros Hc. unfold batch, sbind, slift. assert (Hnp : match group_operations hash os ∅ x with Panic | Timeout => False | _ => True end).
  { generalize (∅ : gmap Z (list Operation)). induction os as [|o os IH]; intros g; [done|]. cbn [group_operations]. destruct o as [k v|k|os']; try done; destruct (route_total x k Hc) as [s ->]; apply IH. }
  destruct (group_operations hash os ∅ x) as [groups|e| |] eqn:Eg; try done. apply group_operations_ok in Eg as [Hos Hg].
  assert (Hg' : forall s, default [] (groups !! s) = filter (routed x s) os) by (intros s; by rewrite Hg, lookup_empty). clear Hg.
  assert (Hnd : NoDup (visit groups).*1) by (rewrite visit_law; apply NoDup_fst_map_to_list).
  assert (Hl : (list_to_map (visit groups) : gmap Z (list Operation)) = groups) by (rewrite (list_to_map_proper _ (map_to_list groups)); [apply list_to_map_to_list|done|apply visit_law]).
  pose proof (write_groups_ok (visit groups) x Hnd) as Hw. rewrite Hl in Hw. destruct (write_groups (visit groups) x) as [[[]|e| |] x']; try done.
  - destruct Hw as [Hc' Hw]. intros k. cbn [fst snd]. destruct (route_total x k Hc) as [s Hs]. unfold value_at. rewrite (route_same _ _ k Hc'), Hs. unfold value_in_shard. specialize (Hw s). specialize (Hg' s). rewrite <- (routed_filter x s k os Hs Hos).
    destruct (groups !! s) as [os'|]; cbn in Hg'; unfold id in Hg'; rewrite <- Hg'.
    + destruct Hw as (m & -> & ->). by rewrite run_writes_last.
    + by rewrite Hw.
  - intros k Hk. eapply keeps_value; [done|]. by apply (grouped_keys x os).
Qed.

End manager.

(** ** Metadata *)

Section metadata.
Context `{!NodeTypes} (label_of : ShardType -> Z -> string).
Import MetadataGroup.

(** A follower changes nothing. *)
Lemma follower_refuses now c (g : MetadataGroup.t) : leads g = false -> propose_change label_of now c g = (Err (NotLeader 0 None), g).
Proof. intros Hl. unfold propose_change. by rewrite Hl. Qed.

(** Every shard has an assignment. *)
Definition assigned (s : RaftClusterState) : Prop := forall i, is_Some (shards s !! i) -> is_Some (shard_assignments s !! i).

Lemma changed_assigned now c s : assigned s -> assigned (changed label_of now c s).
Proof.
  intros Ha i. destruct c as [n|id|id st|id l|id l|id ty range l|id]; cbn; try apply Ha.
  - rewrite lookup_fmap. intros Hi. destruct (Ha i Hi) as [l ->]. by eexists.
  - rewrite lookup_alter_is_Some. intros Hi. destruct (decide (i = id)) as [->|Hne]; [rewrite lookup_insert_eq; by eexists|]. rewrite lookup_insert_ne by done. by apply Ha.
  - rewrite lookup_alter_is_Some. apply Ha.
  - destruct (decide (i = id)) as [->|Hne]; [rewrite !lookup_insert_eq; by eexists|]. rewrite !lookup_insert_ne by done. apply Ha.
  - destruct (decide (i = id)) as [->|Hne]; [rewrite lookup_delete_eq; by intros [? ?]|]. rewrite !lookup_delete_ne by done. apply Ha.
Qed.

(** A node that is removed is in no assignment, but stays a replica in the records
    of its shards. *)
Lemma removed_node now id s i : match get_shard_replicas (changed label_of now (RemoveNode id) s) i with Some l => id ∉ l | None => True end /\
  get_shard (changed label_of now (RemoveNode id) s) i = get_shard s i.
Proof.
  split; [|done]. unfold get_shard_replicas. cbn. rewrite lookup_fmap. destruct (shard_assignments s !! i) as [l|]; [|done]. cbn. intros [Hn _]%list_elem_of_filter. done.
Qed.
End metadata.

(** ** A node with three shards *)

Module ManagerDemo.
Import ConsensusManager.

(** A group of one node that commits what it is told. *)
#[local] Instance lone_raft : RaftNode shard_map := {
  client_write o m := (Ok default_response, run_writes (op_writes o) m);
  raft_is_leader _ := true;
  raft_current_leader _ := Some 1;
  machine_get k m := (Ok (m !! k), m) }.

#[local, refine] Instance lone_laws : RaftLaws shard_map := { machine_map m := m }.
Proof.
  - done.
  - intros k r. cbn. by split; [|left].
Defined.

#[local] Instance plain_nodes : NodeTypes := {| SocketAddr := string; ResourceCapacity := Z |}.

Definition first_byte (k : list Z) : Z := match k with b :: _ => b | [] => 0 end.
Definition add (s : Z) (x : ConsensusManager.t shard_map) : ConsensusManager.t shard_map := (add_table_shard s (Ok ∅) x).2.
Definition three : ConsensusManager.t shard_map := set_shard_count 3 (add 0 (add 1 (add 2 (new 1700 1 default_replication_config)))).
Definition ops : list Operation := [OpPut [1] [10]; OpPut [2] [20]; OpPut [4] [40]; OpDelete [2]; OpPut [1] [11]].

Lemma three_shards : shard_count three <> 0.
Proof. discriminate. Qed.


(** Without a shard, routing divides by zero. *)
Lemma no_shards_panic : (put first_byte [1] [10] (set_shard_count 0 three)).1 = Panic.
Proof. by vm_compute. Qed.

(** A batch that reaches a shard the node does not have has written the others. *)
Lemma batch_half_written : let (r, x) := batch first_byte map_to_list [OpPut [1] [5]; OpPut [0] [10]] (remove_table_shard 0 three).2 in
  r = Err (RaftShardNotFound 0) /\ value_at first_byte x [1] = Some [5].
Proof. by vm_compute. Qed.
End ManagerDemo.
